(* ===== verification/_CoqProject ===== *)
-Q . S2P
Prelude.v
JsString.v
JsMap.v
Json.v
JsonText.v
JsonStringify.v
JsNumber.v
CanonicalJson.v
Frames.v
RateLimit.v
Registry.v
Admission.v
Address.v
RelayState.v
Routing.v
Handlers.v
Relay.v
RelayLogic.v
RelayRoutes.v
RelayHandlers.v
RelayInvariant.v
RelaySteps.v
RelayRun.v
RelayProps.v
RelayResponses.v
Bus.v
Presence.v
WorkflowRun.v
Workflow.v
WorkflowRules.v
WorkflowSystem.v
WorkflowExecutors.v
WorkflowInvariant.v
WorkflowGraph.v
WorkflowProgress.v
WorkflowProps.v
ShellTemplate.v
ReplayBuffer.v
Permissions.v
Noise.v
NoiseProps.v
RelaySessions.v
PairingChannel.v
PairingProps.v
Bridge.v
BridgeProps.v
BridgeLoop.v
BridgeExamples.v
OrgFilter.v
EpochProtocol.v
EpochStore.v
EpochPins.v
EpochClient.v
EpochSync.v
TeamGrants.v
EpochEnrollment.v
EpochProps.v
EpochRotation.v
EpochRecovery.v
EpochExamples.v
ChildEnv.v
PairingOffers.v
PairingPeers.v
PairingOffersProps.v
PairingCompletes.v
PairingOffersExamples.v
ServerSecurity.v
RegExp.v
ShellPolicy.v
Authority.v
GitPublish.v
SessionPolicy.v
ActionDigest.v
Actions.v
BridgeTokens.v
RunReceipt.v
RuntimeCommands.v
RuntimeCommandsProps.v
StructuredOutputs.v
Resumption.v
