(* ===== verification/Prelude.v ===== *)
(** * Viewport: a verification library

    Viewport runs coding agents in a daemon on a workspace's machine and connects them
    with browsers through a relay that nobody has to trust.  This library models the
    relay service (services/relay/src) and, of the daemon (packages/daemon/src): the
    scheduler of workflows, the policies, actions and git publications of their nodes,
    approvals and restarts of their runs; the replay buffers of sessions and the
    permissions of tool calls; the bridge to the relay with its key exchange, its tokens
    and the store of pairings; who may talk to the daemon's server; the filter of what an
    organization sees; the epochs of keys that users and teams share; and the environment
    of child processes.

    ** The parts of the program, and the files that model them

    _Shared._  Prelude.v (tactics, hints, lemmas of lists and options), JsString.v and
    JsMap.v (strings; [Map] with its insertion order), Json.v ([JSON.parse]),
    JsonText.v ([JSON.stringify] of flat objects), JsonStringify.v ([JSON.stringify] of
    any value, and that parsing reads it back), JsNumber.v (order and addition of
    numbers), CanonicalJson.v (canonical JSON, the text that is hashed and signed),
    RegExp.v (regular expressions over UTF-16).

    _The relay_ accepts WebSocket connections of daemons, of their clients and of
    workers; claims that the server returns for a token place a connection in a scope,
    [workspaceId:runtimeTargetId]; frames of clients go to the daemon of their scope,
    here or through a bus to another relay; responses go back to the client that asked.
    - Frames.v: relay-frame-validation.ts.  RateLimit.v, Address.v: security.ts.
      Registry.v: registry.ts and types.ts.  Admission.v: upgrade-auth.ts, admission.ts,
      relay-connection-admission.ts, relay-status-payloads.ts.
    - RelayState.v: the state of the process, its effects, the calls in flight and the
      monad of the handlers.  Routing.v: relay-routing.ts, relay-runtime-routing.ts;
      Handlers.v: [registerConnection] and the handlers it attaches.  Relay.v: index.ts,
      where [Event] is what can happen, [step] what it does, [reachable] what follows.
    - RelayLogic.v, RelayRoutes.v, RelayHandlers.v, RelayInvariant.v, RelaySteps.v:
      an invariant [J g] that holds inside events, the [Ghost] [g] saying which peers
      the current event may reach with which text; rules for the primitives, the routes
      and the handlers that follow the syntax of the code (hint data base [relay],
      tactic [run]).  RelayRun.v: an executable run.  RelayProps.v, RelayResponses.v:
      the properties of the process.
    - Bus.v: bus-signing.ts, bus.ts, redis-backplane.ts.  Presence.v:
      presence.ts and the backplanes.

    _Workflows_ are graphs of nodes that the daemon runs layer by layer; the scheduler,
    the tasks of a layer and users who cancel each save the record of the run.
    - WorkflowRun.v: the record and its store (run-types.ts, store.ts,
      runner-canceler.ts).  Workflow.v: the rules (trigger-rule.ts, retry-classifier.ts,
      parser.ts) and one turn of runner-scheduler.ts and node-executor.ts.
      WorkflowExecutors.v: the executors that only change statuses.
    - WorkflowSystem.v: all of it as a transition system, with queued saves.
      WorkflowRules.v, WorkflowGraph.v, WorkflowInvariant.v, WorkflowProgress.v,
      WorkflowProps.v: the rules, the order of the graph, the invariant, the measure
      that decreases, the properties.
    - ShellTemplate.v: placeholders of commands, and the quotes of a POSIX shell.
    - ShellPolicy.v: patterns of commands, branches and paths
      (policy-enforcement.ts), and the test that a path is inside a directory.
      Authority.v: the contract of authority of a run, its questions
      before a node acts (workflow-authority-contract.ts), what they let through.
      SessionPolicy.v: session-policy.ts.
    - GitPublish.v: checking out and publishing with git (git-publish-node.ts,
      context-update-targets.ts, parts of checkout-node.ts and node-registry.ts).
    - ActionDigest.v, Actions.v: actions of providers, their digests, the
      ledger, HTTP requests, retries and reading back (action-*.ts,
      provider-reconciliation.ts).
    - RuntimeCommands.v, RuntimeCommandsProps.v: commands of the
      platform and decisions of approvers (platform-runtime-command.ts,
      platform-command-applier.ts, approval-actor.ts, [decideApproval] of runner.ts).
      Resumption.v: runner-reconciler.ts, runner-resumer.ts.  StructuredOutputs.v:
      structured-outputs.ts.  RunReceipt.v: run-receipt-validation.ts.

    _Sessions of the daemon._  ReplayBuffer.v: ring-buffer.ts,
    replay-events.ts, replay-persistence.ts.  Permissions.v: the
    permission engine and the coordinator of pending calls, with their callers.

    _The bridge_ keeps a connection to the relay and one to the daemon, agrees on a key
    with every browser, encrypts what the daemon says and decrypts what browsers send.
    - Noise.v, NoiseProps.v: both versions of the key exchange, and envelopes.
      RelaySessions.v: the sessions with their replay windows.  PairingChannel.v,
      PairingProps.v: how a browser obtains a pairing offer.  Bridge.v: the object, its
      connection loop and its handlers; BridgeProps.v, BridgeLoop.v, BridgeExamples.v:
      what its steps do, its tables and its loop, concrete runs.  BridgeTokens.v:
      bridge-jwt.ts, bridge-token-issuer.ts.
    - PairingOffers.v: the store of offers and of the clients bound by them
      (server/pairing-*.ts); PairingPeers.v, PairingOffersProps.v, PairingCompletes.v,
      PairingOffersExamples.v: bindings, what becomes of an offer, that a pairing
      completes, concrete histories.
    - ServerSecurity.v: security profiles and the hook that every HTTP request passes
      (server/security.ts, auth.ts, parts of http-server.ts and startup.ts).
    - OrgFilter.v: bridge-org-routing-filter.ts.

    _Epochs_ are the key pairs by which users and teams share content.  The platform
    stores and serves their public parts, wrapped keys and backups; it is not trusted.
    - EpochProtocol.v: epoch-protocol.ts.  EpochStore.v, EpochPins.v: the file of epochs
      and the pins (epoch-store.ts, epoch-public-pins.ts).  EpochClient.v: operations as
      computations over the file and the platform; EpochSync.v, TeamGrants.v,
      EpochEnrollment.v, EpochRecovery.v: epoch-sync.ts, team-epoch-grants.ts,
      epoch-enrollment.ts, epoch-recovery.ts.  EpochProps.v, EpochRotation.v,
      EpochExamples.v: properties across these files, concrete runs.
    - ChildEnv.v: child-env.ts.

    ** What the theorems show

    - Isolation on the relay: [tenant_isolation], for what an event sends and for a frame
      that waits for the answer of another relay; [bus_frame_isolation],
      [client_scope_enforced]; the lemmas [viewer_presence_only], [scope_key_inj] for what
      the key of a scope stands for, and [quiet_events].
    - State of the relay: [relay_invariant], [tracking_bounded]; the lemmas
      [connections_claimed], [ip_counts_exact], [generations_monotone], and
      [registry_invariant] and [removeClient_forgets] for the registry alone.
    - Responses, admission and limits, as lemmas: [pairing_response_once],
      [kex_binds_session], [connection_admission_iff], [upgrade_auth_spec],
      [admin_authorized_iff], [forwarded_needs_trust], [fixed_window_bound],
      [token_bucket_burst], [token_bucket_wf].
    - Bus and presence: [bus_accepts_authentic], [bus_no_replay]; the lemmas
      [bus_signature_binds], [presence_redirect_safe].
    - Runs of workflows: [cancel_final], [dependency_order], [run_ends], [saves_keep], with
      the lemmas [workflow_order] and [attempts_bounded]; [resumed_once] for restarts;
      [outputs_typed]; [receipt_binds], up to a collision of the digest.
    - Decisions: [decision_applied_iff] says which commands of the platform decide,
      [command_applied_once] that they do so once; the lemma [decision_takes_effect] what
      the file of the run then holds.
    - What nodes may do: [shell_guarded]; [shell_values_literal], for commands without
      substitutions, comments and here-documents ([Shell.simple]); [publish_fenced], by
      the lines of the status git prints; [publish_reviewed], for a working tree that does
      not change after the review; [action_executed_once]; with the lemmas [action_guarded],
      [action_permitted_iff], [context_permitted_iff], [isPathWithin_iff],
      [restricted_paths_iff], [branch_restricted_iff], [budget_strictest],
      [redacted_command_clean]; [run_iff] and [search_iff] for regular expressions.
    - Sessions: [replay_complete]; [restart_resumes], while no write of the journal has
      failed; [call_permitted], [calls_settled_once].
    - Bridge: [handshake_agrees], [frames_never_repeat], [window_refines],
      [running_bridge_connects], [genuine_envelope_delivered], [issued_token_verified],
      [org_filter_isolates]; the lemmas [sessions_bounded_and_compatible],
      [pairing_through_relay], [token_accepted_iff].
    - Pairing and the server: [redeemed_once], [pairing_completes],
      [network_api_guarded]; the lemmas [guesses_bounded], [local_api_guarded].
    - Epochs: [canonical_text_iff] and the lemma [fingerprint_binds] say what is signed;
      [pin_history] and [rotation_accepted] that pins only follow signed transitions,
      and that an honest rotation is one; [device_receives_epoch] and the lemma
      [recovery_restores] that keys arrive; [rotation_all_or_nothing] and the lemma
      [upsert_user_active] what becomes of the store.

    Lemmas show flaws of the code, each at a concrete input.  On the relay:
    [scope_key_collision], [client_limit_bypassed], [worker_path_traversal],
    [empty_prefix_trusts_all].  In workflows: [newline_evades], [question_mark_unescaped],
    [dotted_name_refused], [empty_effects_allow_actions], [other_addresses_unseen],
    [rename_leaves_restricted], [unknown_remote_gets_token], [repository_check_bypassed],
    [slack_always_verified], [failed_action_completes], [secrets_in_events],
    [no_answer_is_false], [skipped_not_completed], [dollar_before_placeholder],
    [substitution_reads_value], [unreviewed_content_committed].  In the bridge and the
    server: [public_key_signs], [own_envelope_accepted], [failed_write_loses],
    [wildcard_lost_with_tls], [tls_fills_allowlist].  In epochs:
    [concurrent_pins_replace], [continuity_fields_unchecked], [proto_field_unhashed],
    [foreign_keys_stored], [old_backup_rolls_back].  Others stand beside what they concern.

    ** How the model is read

    - Strings are their UTF-8 encodings, so they are the well-formed Unicode ones;
      numbers of JSON are binary64 values.  Integers the code counts or compares are
      [Z] where no arithmetic leaves the integers binary64 holds exactly.  Token buckets
      use rationals rounded by any function with the two properties of [Rounding].
    - A [Map] is the list of its entries in insertion order: the code evicts the oldest.
    - The relay and the bridge are machines over events.  One event reads the clock
      once; an awaited call ends the event with a task, and a later event resumes it, in
      any order with others.  A promise of the permission coordinator is a waiter in its
      table.
    - A run of a workflow is a relation between states, because the scheduler, the tasks
      and the cancelers interleave at every save; executors that run programs may set
      any status their callers allow ([works], [blocks]).
    - Journals are the lists of the values their lines parse to: a line that is appended is
      the text of its entry, read again; a write may fail and leave any files.  The file of
      epochs is a record.  What the platform serves of a published epoch is a hypothesis
      ([published]).
      An operation on epochs is a function of file and platform and runs alone; what two
      at once do is a lemma, [concurrent_pins_replace].
    - Cryptography is an argument, a class whose laws are round trips of encryption, the
      agreement of Diffie-Hellman, or that equal hashes and signatures come of equal
      inputs; random draws are arguments too.  So are zod schemas, [new URL], [net.isIP],
      base64url, JSONata and the answers of the server, of Redis and of the platform.
      Every theorem with such a hypothesis has a concrete instance as witness.
    - git and the network are arguments too: what a call or a request answers, given those
      before it, so that theorems speak of the order of calls.  Templates of actions and
      publications are rendered before.  [toLowerCase] acts on ASCII letters.
    - Operations on the files of pairings hold a lock and run one at a time; so do, here,
      the decisions of approvers.  YAML, the revision of plans by an agent, the command of
      on_reject and the states of sessions are arguments of RuntimeCommands.v and
      Resumption.v, with what is asked of them as hypotheses.
    - Most recursion is structural; [JSON_parse] consumes a character per step.  Fuel is
      used where the code loops on a condition, and is proved enough: the order of a
      graph takes as many rounds as it has nodes ([workflow_order]); a node has its
      maximum of attempts, plus one ([attempts_bounded]); a template is searched once
      per character.  Numbers are printed with the first of 17 precisions that reads
      back; [readable] names the numbers for which one does, all that witnesses use.

    ** Not modelled

    The relay's administrative endpoints, configuration and logs.  Of workflows: programs
    that executors start (shells, agents, checkouts, the helper file that hands a secret
    to git), JSONata, loops, inline agents, subflows and context nodes, the other methods
    of the runner, synchronisation with the platform and its payloads.  Of the daemon: the
    remaining routes of its servers, its session store, the discovery of other tools'
    transcripts, the adapters of agents, the command line and the worker, the local
    context store and its synchronisation.  The workflow SDK, which emits files, and the
    context engine, which is written in another language.  These are input and output over
    files, sockets, databases and programs whose behaviour is not in this repository, or
    translations of third-party formats. *)

From stdpp Require Import prelude strings gmap list.
From Stdlib Require Import ZArith Lia Sorting.

(** ** Booleans read from the code's conditions *)

(** Breaks a conjunction of tests, [a && b && ... = true], into its parts and
    turns decided propositions back into propositions. *)
Ltac split_bools :=
  repeat match goal with
  | H : _ && _ = true |- _ => apply andb_true_iff in H as [? ?]
  | H : _ || _ = false |- _ => apply orb_false_iff in H as [? ?]
  | H : negb _ = true |- _ => apply negb_true_iff in H
  | H : negb _ = false |- _ => apply negb_false_iff in H
  | H : bool_decide _ = true |- _ => apply bool_decide_eq_true in H
  | H : bool_decide _ = false |- _ => apply bool_decide_eq_false in H
  | H : (_ <=? _)%Z = true |- _ => apply Z.leb_le in H
  | H : (_ <=? _)%Z = false |- _ => apply Z.leb_gt in H
  | H : (_ <? _)%Z = true |- _ => apply Z.ltb_lt in H
  | H : (_ <? _)%Z = false |- _ => apply Z.ltb_ge in H
  | H : (_ =? _)%Z = true |- _ => apply Z.eqb_eq in H
  | H : (_ =? _)%Z = false |- _ => apply Z.eqb_neq in H
  end.

(** Case analysis on every [match] of the goal, then the contradictions. *)
Ltac branches := repeat (case_match; simplify_eq/=); try done.

(** ** Options: JavaScript's [undefined] and [null] coalescing *)

(** [a ?? b]. *)
Definition coalesce {A} (a : option A) (b : A) : A := default b a.

Definition option_eqb {A} `{EqDecision A} (a b : option A) : bool := bool_decide (a = b).

(** ** Lists *)

Section Lists.
Context {A : Type}.
Implicit Types l : list A.

(** [l.find(p)] *)
Fixpoint find_first (p : A → bool) l : option A :=
  match l with
  | [] => None
  | x :: l' => if p x then Some x else find_first p l'
  end.

Lemma find_first_Some p l x :
  find_first p l = Some x → x ∈ l ∧ p x = true.
Proof.
  induction l as [|y l IH]; simpl; [done|].
  destruct (p y) eqn:E; intros; simplify_eq; [set_solver|].
  destruct IH; [done|]. split; [set_solver|done].
Qed.

Lemma find_first_None p l :
  find_first p l = None ↔ ∀ x, x ∈ l → p x = false.
Proof.
  induction l as [|y l IH]; simpl; [set_solver|].
  destruct (p y) eqn:E; split.
  - done.
  - intros H. rewrite (H y) in E; [done|set_solver].
  - intros H x [->|Hx]%elem_of_cons; [done|by apply IH].
  - intros H. apply IH. set_solver.
Qed.

(** [l.some(p)] and [l.every(p)]. *)
Lemma existsb_elem_of (p : A → bool) l : existsb p l = true ↔ ∃ x, x ∈ l ∧ p x = true.
Proof.
  rewrite existsb_exists. by setoid_rewrite list_elem_of_In.
Qed.

Lemma forallb_elem_of (p : A → bool) l : forallb p l = true ↔ ∀ x, x ∈ l → p x = true.
Proof.
  rewrite forallb_forall. by setoid_rewrite list_elem_of_In.
Qed.

(** [l.slice(-n)], the last [n] entries: [slice(-0)] is the whole list. *)
Definition slice_last (n : nat) l : list A :=
  if decide (n = 0) then l else drop (length l - n) l.

Lemma slice_last_suffix n l : slice_last n l `suffix_of` l.
Proof.
  unfold slice_last. case_decide; [done|].
  exists (take (length l - n) l). by rewrite take_drop.
Qed.

Lemma length_slice_last n l : n ≠ 0 → length (slice_last n l) = min n (length l).
Proof.
  intros. unfold slice_last. rewrite decide_False by done. rewrite length_drop. lia.
Qed.
End Lists.

(** ** Stable sorting: [l.sort((a, b) => key(a) - key(b))] *)

Section StableSort.
Context {A : Type} (key : A → Z).
Implicit Types l : list A.

Fixpoint insert_by_key (x : A) l : list A :=
  match l with
  | [] => [x]
  | y :: l' => if (key x <=? key y)%Z then x :: l else y :: insert_by_key x l'
  end.
Definition sort_by_key l : list A := foldr insert_by_key [] l.

Definition key_le (x y : A) : Prop := (key x ≤ key y)%Z.

Lemma insert_by_key_perm x l : insert_by_key x l ≡ₚ x :: l.
Proof. induction l as [|y l IH]; simpl; [done|]. case_match; [done|]. rewrite IH. constructor. Qed.
Lemma sort_by_key_perm l : sort_by_key l ≡ₚ l.
Proof. induction l as [|x l IH]; simpl; [done|]. by rewrite insert_by_key_perm, IH. Qed.

Lemma insert_by_key_sorted x l : StronglySorted key_le l → StronglySorted key_le (insert_by_key x l).
Proof.
  induction 1 as [|y l Hl IH Hy]; simpl; [repeat constructor|].
  destruct (key x <=? key y)%Z eqn:E; split_bools.
  - constructor; [by constructor|]. constructor; [exact E|]. eapply List.Forall_impl, Hy. unfold key_le. intros; lia.
  - constructor; [done|]. rewrite insert_by_key_perm. constructor; [unfold key_le; lia|done].
Qed.
Lemma sort_by_key_sorted l : StronglySorted key_le (sort_by_key l).
Proof. induction l; simpl; [constructor|]. by apply insert_by_key_sorted. Qed.

(** A last entry that no other exceeds stays last. *)
Lemma sort_by_key_snoc l x : Forall (λ y, key_le y x) l → sort_by_key (l ++ [x]) = sort_by_key l ++ [x].
Proof.
  assert (∀ y s, key_le y x → insert_by_key y (s ++ [x]) = insert_by_key y s ++ [x]) as Hi.
  { intros y s Hy. induction s as [|z s IH]; simpl.
    - by rewrite (proj2 (Z.leb_le _ _) Hy).
    - case_match; [done|]. by rewrite IH. }
  induction 1 as [|y l Hy _ IH]; simpl; [done|]. by rewrite IH, Hi.
Qed.

Lemma sorted_take_drop n l a b : StronglySorted key_le l → a ∈ take n l → b ∈ drop n l → key_le a b.
Proof.
  intros Hs Ha Hb. rewrite <- (take_drop n l) in Hs. revert Hs Ha Hb. generalize (take n l) as l1, (drop n l) as l2.
  intros l1 l2 Hs Ha Hb. induction l1 as [|x l1 IH]; [by apply elem_of_nil in Ha|]. simpl in Hs. inversion Hs as [|? ? Hs' Hf]; subst.
  apply elem_of_cons in Ha as [->|Ha]; [|auto]. rewrite Forall_forall in Hf. apply Hf. set_solver.
Qed.
End StableSort.

(** The automation data base of the development: bookkeeping facts about maps,
    lists and counters that the components' proofs share. *)
Create HintDb viewport.
#[export] Hint Resolve suffix_length prefix_length sublist_length : viewport.
