(* ===== verification/JsString.v ===== *)
(** * JavaScript strings

    A JavaScript string is modelled by its UTF-8 encoding, a Rocq [string] of
    bytes, so that [Buffer.byteLength(s, 'utf8')] is [String.length].  Equality,
    [startsWith], [includes] and concatenation act on the bytes (UTF-8 is
    self-synchronising); [trim] removes the encodings of the white space and line
    terminators of ECMAScript, and [js_length] counts UTF-16 code units. *)

From S2P Require Import Prelude.
From stdpp Require Import prelude strings list.
From Stdlib Require Import ZArith Lia Ascii.

Definition byte_of (n : nat) : ascii := ascii_of_nat n.
Definition code (c : ascii) : nat := nat_of_ascii c.

(** ** White space *)

(** U+0009 to U+000D and U+0020. *)
Definition ws1 (a : ascii) : bool :=
  let n := code a in ((9 <=? n) && (n <=? 13)) || (n =? 32).

(** U+00A0. *)
Definition ws2 (a b : ascii) : bool := (code a =? 194) && (code b =? 160).

(** U+1680, U+2000..U+200A, U+2028, U+2029, U+202F, U+205F, U+3000, U+FEFF. *)
Definition ws3 (a b c : ascii) : bool :=
  let '(x, y, z) := (code a, code b, code c) in
  ((x =? 225) && (y =? 154) && (z =? 128)) ||
  ((x =? 226) && (y =? 128) &&
     (((128 <=? z) && (z <=? 138)) || (z =? 168) || (z =? 169) || (z =? 175))) ||
  ((x =? 226) && (y =? 129) && (z =? 159)) ||
  ((x =? 227) && (y =? 128) && (z =? 128)) ||
  ((x =? 239) && (y =? 187) && (z =? 191)).

(** Removes the longest prefix made of one-, two- and three-byte characters that
    satisfy the given tests. *)
Fixpoint strip (p1 : ascii → bool) (p2 : ascii → ascii → bool)
    (p3 : ascii → ascii → ascii → bool) (s : string) : string :=
  match s with
  | EmptyString => EmptyString
  | String a s1 =>
      if p1 a then strip p1 p2 p3 s1 else
      match s1 with
      | EmptyString => s
      | String b s2 =>
          if p2 a b then strip p1 p2 p3 s2 else
          match s2 with
          | EmptyString => s
          | String c s3 => if p3 a b c then strip p1 p2 p3 s3 else s
          end
      end
  end.

Definition trimStart (s : string) : string := strip ws1 ws2 ws3 s.
Definition trimEnd (s : string) : string :=
  String.rev (strip ws1 (λ a b, ws2 b a) (λ a b c, ws3 c b a) (String.rev s)).
Definition trim (s : string) : string := trimEnd (trimStart s).

(** [s.trim().length > 0] *)
Definition nonblank (s : string) : bool := negb (String.eqb (trim s) "").

(** ** Lengths, search and case *)

Definition byteLength (s : string) : Z := Z.of_nat (String.length s).

(** UTF-16 code units of a UTF-8 byte: continuation bytes count nothing and the
    lead byte of a four-byte character counts a surrogate pair. *)
Definition utf16_units (a : ascii) : Z :=
  let n := code a in
  if n <? 128 then 1 else if n <? 192 then 0 else if n <? 240 then 1 else 2.

Fixpoint js_length (s : string) : Z :=
  match s with
  | EmptyString => 0
  | String a s' => utf16_units a + js_length s'
  end.

Definition startsWith (s p : string) : bool := String.prefix p s.
Definition includes (s p : string) : bool :=
  match String.index 0 p s with Some _ => true | None => false end.

(** [s.slice(n)] for an [n] that is a byte offset at a character boundary. *)
Definition slice_from (n : nat) (s : string) : string :=
  String.substring n (String.length s - n) s.

(** ASCII lower case: the part of [toLowerCase] that the keywords compared in the
    code can match. *)
Definition lower_ascii (a : ascii) : ascii :=
  let n := code a in if (65 <=? n) && (n <=? 90) then byte_of (n + 32) else a.
Fixpoint lower (s : string) : string :=
  match s with
  | EmptyString => EmptyString
  | String a s' => String (lower_ascii a) (lower s')
  end.

(** [s.split(sep)] for a one-character separator. *)
Fixpoint split_on (sep : ascii) (s : string) : list string :=
  match s with
  | EmptyString => [EmptyString]
  | String a s' =>
      if Ascii.eqb a sep then EmptyString :: split_on sep s'
      else match split_on sep s' with
           | [] => [String a EmptyString]
           | w :: ws => String a w :: ws
           end
  end.

(** [ws.join(sep)]. *)
Fixpoint join (sep : string) (ws : list string) : string :=
  match ws with
  | [] => ""
  | [w] => w
  | w :: ws' => w +:+ sep +:+ join sep ws'
  end.

(** A JavaScript string is truthy when it is not empty. *)
Definition truthy_str (s : string) : bool := negb (String.eqb s "").
Definition truthy_opt (s : option string) : bool :=
  match s with Some s => truthy_str s | None => false end.

Definition has_char (c : ascii) (s : string) : bool :=
  existsb (Ascii.eqb c) (String.list_ascii_of_string s).

(** A visible ASCII character. *)
Definition visible (a : ascii) : bool := (32 <? code a) && (code a <? 128).

(** ** Facts *)

Lemma truthy_str_true s : truthy_str s = true ↔ s ≠ "".
Proof. unfold truthy_str. rewrite negb_true_iff. apply String.eqb_neq. Qed.

Lemma nonblank_true s : nonblank s = true ↔ trim s ≠ "".
Proof. apply truthy_str_true. Qed.

Lemma strip_empty p1 p2 p3 : strip p1 p2 p3 "" = "".
Proof. done. Qed.

Lemma trim_empty : trim "" = "".
Proof. done. Qed.

Lemma nonblank_truthy s : nonblank s = true → truthy_str s = true.
Proof. rewrite nonblank_true, truthy_str_true. by intros ? ->. Qed.

Lemma js_length_nonneg s : (0 ≤ js_length s)%Z.
Proof.
  induction s as [|a s IH]; simpl; [done|].
  unfold utf16_units. repeat case_match; lia.
Qed.

Lemma split_on_cons sep s : ∃ w ws, split_on sep s = w :: ws.
Proof.
  destruct s as [|a s]; simpl; [eauto|].
  case_match; [eauto|]. case_match; eauto.
Qed.

(** stdpp keeps [simpl] from unfolding [+:+]; these are its equations. *)
Lemma append_nil_l (b : string) : "" +:+ b = b.
Proof. done. Qed.
Lemma append_cons x (a b : string) : String x a +:+ b = String x (a +:+ b).
Proof. done. Qed.
#[export] Hint Rewrite append_nil_l append_cons : js_string.

Lemma append_assoc_str (a b c : string) : a +:+ (b +:+ c) = (a +:+ b) +:+ c.
Proof. induction a as [|x a IH]; autorewrite with js_string; [done|by rewrite IH]. Qed.

Lemma has_char_cons c x a : has_char c (String x a) = Ascii.eqb c x || has_char c a.
Proof. done. Qed.

Lemma has_char_app c a b : has_char c (a +:+ b) = has_char c a || has_char c b.
Proof.
  induction a as [|x a IH]; autorewrite with js_string; [done|].
  by rewrite !has_char_cons, IH, orb_assoc.
Qed.

(** A separator that occurs in neither left part determines the split. *)
Lemma append_sep_inj c a1 b1 a2 b2 :
  has_char c a1 = false → has_char c a2 = false →
  a1 +:+ String c b1 = a2 +:+ String c b2 → a1 = a2 ∧ b1 = b2.
Proof.
  revert a2. induction a1 as [|x a1 IH]; intros [|y a2] H1 H2 E;
    autorewrite with js_string in E; simplify_eq; [done| | |].
  - by rewrite has_char_cons, Ascii.eqb_refl in H2.
  - by rewrite has_char_cons, Ascii.eqb_refl in H1.
  - rewrite has_char_cons in H1, H2. split_bools. destruct (IH a2) as [-> ->]; done.
Qed.

Lemma substring_all s : String.substring 0 (String.length s) s = s.
Proof. induction s as [|a s IH]; simpl; [done|by rewrite IH]. Qed.

Lemma startsWith_app p s : startsWith (p +:+ s) p = true.
Proof.
  unfold startsWith. induction p as [|a p IH]; autorewrite with js_string; simpl.
  - by destruct s.
  - by destruct (ascii_dec a a).
Qed.

(** ** What [trim] leaves *)

(** Induction on the white space that [strip] removes. *)
Lemma strip_ind p1 p2 p3 (P : string → Prop) :
  (∀ s, strip p1 p2 p3 s = s → P s) →
  (∀ w s, w ≠ "" → strip p1 p2 p3 (w +:+ s) = strip p1 p2 p3 s → P s → P (w +:+ s)) → ∀ s, P s.
Proof.
  intros Hstop Hstep s. remember (String.length s) as n eqn:E. revert s E. induction (lt_wf n) as [n _ IH]. intros s ->.
  assert (∀ w t, w ≠ "" → s = w +:+ t → strip p1 p2 p3 (w +:+ t) = strip p1 p2 p3 t → P s) as Hrest.
  { intros w t Hw -> Eq. apply Hstep; [done..|]. apply (IH (String.length t)); [|done].
    destruct w as [|x w]; [done|]. clear. induction w; autorewrite with js_string in *; simpl in *; lia. }
  destruct s as [|a s]; [by apply Hstop|].
  destruct (p1 a) eqn:E1; [by apply (Hrest (String a "") s); simpl; rewrite ?E1|].
  destruct s as [|b s]; [apply Hstop; simpl; by rewrite E1|].
  destruct (p2 a b) eqn:E2; [by apply (Hrest (String a (String b "")) s); simpl; rewrite ?E1, ?E2|].
  destruct s as [|c s]; [apply Hstop; simpl; by rewrite E1, E2|].
  destruct (p3 a b c) eqn:E3; [by apply (Hrest (String a (String b (String c ""))) s); simpl; rewrite ?E1, ?E2, ?E3|].
  apply Hstop. simpl. by rewrite E1, E2, E3.
Qed.

Lemma strip_suffix p1 p2 p3 s : ∃ w, s = w +:+ strip p1 p2 p3 s.
Proof.
  pattern s. apply (strip_ind p1 p2 p3); [intros t ->; by exists ""|].
  intros w t _ -> [w' Hw]. exists (w +:+ w'). by rewrite <- append_assoc_str, <- Hw.
Qed.

Lemma strip_idem p1 p2 p3 s : strip p1 p2 p3 (strip p1 p2 p3 s) = strip p1 p2 p3 s.
Proof. pattern s. apply (strip_ind p1 p2 p3); [intros t E; by rewrite !E|]. intros w t _ E IH. by rewrite E. Qed.

Lemma append_eq_nil_l w t : t = w +:+ t → w = "".
Proof.
  intros E. apply (f_equal String.length) in E. destruct w as [|a w]; [done|]. exfalso. revert E. rewrite append_cons. simpl.
  assert (∀ u, String.length t <= String.length (u +:+ t)) as Hl.
  { induction u as [|b u IH]; rewrite ?append_nil_l, ?append_cons; simpl; lia. }
  specialize (Hl w). lia.
Qed.

(** The beginning of a text that starts with no white space starts with none. *)
Lemma strip_prefix p1 p2 p3 s t : strip p1 p2 p3 (s +:+ t) = s +:+ t → strip p1 p2 p3 s = s.
Proof.
  assert (∀ w u, w ≠ "" → strip p1 p2 p3 u = w +:+ u → False) as Hno.
  { intros w u Hw E. destruct (strip_suffix p1 p2 p3 u) as [v Hv]. rewrite E in Hv.
    apply Hw. rewrite append_assoc_str in Hv. apply append_eq_nil_l in Hv. by destruct v. }
  destruct s as [|a s]; [done|]. simpl. intros Eq.
  destruct (p1 a); [by destruct (Hno (String a "") (s +:+ t))|]. destruct s as [|b s]; [done|]. simpl in Eq.
  destruct (p2 a b); [by destruct (Hno (String a (String b "")) (s +:+ t))|]. destruct s as [|c s]; [done|]. simpl in Eq.
  destruct (p3 a b c); [by destruct (Hno (String a (String b (String c ""))) (s +:+ t))|done].
Qed.

Lemma rev_app_spec s t u : String.rev_app (s +:+ t) u = String.rev_app t (String.rev_app s u).
Proof. revert u. induction s as [|a s IH]; intros u; simpl; [done|apply IH]. Qed.
Lemma rev_app_append s u v : String.rev_app s (u +:+ v) = String.rev_app s u +:+ v.
Proof. revert u. induction s as [|a s IH]; intros u; simpl; [done|]. apply (IH (String a u)). Qed.
Lemma rev_append s t : String.rev (s +:+ t) = String.rev t +:+ String.rev s.
Proof. unfold String.rev. rewrite rev_app_spec. apply (rev_app_append t "" _). Qed.
Lemma rev_involutive s : String.rev (String.rev s) = s.
Proof.
  induction s as [|a s IH]; [done|]. change (String a s) with (String a "" +:+ s). by rewrite !rev_append, IH.
Qed.

Lemma trim_idem s : trim (trim s) = trim s.
Proof.
  unfold trim. set (t := trimStart s). set (p2 := λ a b, ws2 b a). set (p3 := λ a b c, ws3 c b a).
  assert (trimStart (trimEnd t) = trimEnd t) as ->.
  { destruct (strip_suffix ws1 p2 p3 (String.rev t)) as [w Hw].
    apply (f_equal String.rev) in Hw. rewrite rev_involutive, rev_append in Hw.
    apply (strip_prefix ws1 ws2 ws3 _ (String.rev w)). unfold trimEnd. fold p2 p3. rewrite <- Hw.
    unfold t, trimStart. apply strip_idem. }
  unfold trimEnd. by rewrite rev_involutive, strip_idem.
Qed.

Lemma visible_not_ws a : visible a = true → ws1 a = false ∧ ∀ b c, ws2 a b = false ∧ ws2 b a = false ∧ ws3 a b c = false ∧ ws3 b c a = false.
Proof.
  unfold visible. intros [H1%Nat.ltb_lt H2%Nat.ltb_lt]%andb_true_iff. split.
  - unfold ws1. rewrite !(proj2 (Nat.leb_gt _ 13)), andb_false_r by lia. apply Nat.eqb_neq. lia.
  - intros b c. unfold ws2, ws3.
    assert (∀ n, 128 <= n → (code a =? n)%nat = false) as Hn by (intros n ?; apply Nat.eqb_neq; lia).
    assert (∀ n, 128 <= n → (n <=? code a)%nat = false) as Hl by (intros n ?; apply Nat.leb_gt; lia).
    rewrite !Hn, !Hl by lia. rewrite !andb_false_r. done.
Qed.

Lemma trim_visible s : forallb visible (String.list_ascii_of_string s) = true → trim s = s.
Proof.
  assert (∀ s, forallb visible (String.list_ascii_of_string s) = true →
    trimStart s = s ∧ strip ws1 (λ a b, ws2 b a) (λ a b c, ws3 c b a) s = s) as Hs.
  { intros [|a t]; [done|]. simpl. intros [Ha _]%andb_true_iff. destruct (visible_not_ws a Ha) as [E1 E2].
    unfold trimStart. simpl. rewrite E1. destruct t as [|b t]; [done|]. destruct (E2 b b) as (-> & -> & _).
    destruct t as [|c t]; [done|]. destruct (E2 b c) as (_ & _ & -> & _). by destruct (E2 c b) as (_ & _ & _ & ->). }
  intros Hv. unfold trim. rewrite (proj1 (Hs s Hv)). unfold trimEnd.
  enough (forallb visible (String.list_ascii_of_string (String.rev s)) = true) as Hr
    by (rewrite (proj2 (Hs _ Hr)); apply rev_involutive).
  clear Hs. revert Hv. induction s as [|a s IH]; [done|]. simpl. intros [Ha Hv]%andb_true_iff.
  change (String a s) with (String a "" +:+ s). rewrite rev_append. simpl.
  specialize (IH Hv). revert IH. generalize (String.rev s) as u. induction u as [|b u IHu]; simpl; [by rewrite Ha|].
  intros [-> Hu]%andb_true_iff. by apply IHu.
Qed.
