(* ===== verification/JsMap.v ===== *)
(** * Insertion-ordered maps

    A JavaScript [Map] iterates its entries in insertion order, and the code uses
    that order: [keys().next()] is the oldest entry, and [delete] followed by [set]
    moves an entry to the end.  A map is the list of its entries, oldest first;
    [NoDup_keys] is the representation invariant every operation preserves.
    A [Set] is a map to [unit], or a duplicate-free list ([set_add], [set_delete]). *)

From S2P Require Import Prelude.
From stdpp Require Import prelude strings list.
From Stdlib Require Import ZArith Lia.

Section JsMap.
Context {K V : Type} `{EqDecision K}.
Implicit Types (m : list (K * V)) (k : K) (v : V).

(** ** Operations of [Map] *)

Fixpoint jm_get k m : option V :=
  match m with
  | [] => None
  | (k', v) :: m' => if decide (k = k') then Some v else jm_get k m'
  end.

(** [m.set(k, v)]: an existing key keeps its position. *)
Fixpoint jm_set k v m : list (K * V) :=
  match m with
  | [] => [(k, v)]
  | (k', v') :: m' => if decide (k = k') then (k, v) :: m' else (k', v') :: jm_set k v m'
  end.

Definition jm_filter (p : K → V → bool) m : list (K * V) :=
  List.filter (λ e, p e.1 e.2) m.

Definition jm_delete k m : list (K * V) := jm_filter (λ k' _, negb (bool_decide (k' = k))) m.

Definition jm_has k m : bool := bool_decide (is_Some (jm_get k m)).
Definition jm_size m : Z := Z.of_nat (length m).
Definition jm_keys m : list K := m.*1.
Definition jm_values m : list V := m.*2.

(** Updates the value of a present key, in place. *)
Definition jm_alter (f : V → V) k m : list (K * V) :=
  match jm_get k m with Some v => jm_set k (f v) m | None => m end.

(** ** Idioms of the code *)

(** [m.delete(k); m.set(k, v)]: the entry becomes the newest. *)
Definition jm_touch k v m : list (K * V) := jm_set k v (jm_delete k m).

(** [while (m.size > cap) m.delete(m.keys().next().value)] *)
Fixpoint jm_trim (cap : Z) m : list (K * V) :=
  match m with
  | [] => []
  | _ :: m' => if (cap <? jm_size m)%Z then jm_trim cap m' else m
  end.

(** [while (m.size >= cap) m.delete(m.keys().next().value)] *)
Definition jm_make_room (cap : Z) m : list (K * V) := jm_trim (cap - 1) m.

Definition NoDup_keys m : Prop := NoDup (jm_keys m).

(** ** Lookup *)

Lemma jm_get_set k k' v m :
  jm_get k (jm_set k' v m) = if decide (k = k') then Some v else jm_get k m.
Proof. induction m as [|[k1 v1] m IH]; csimpl; repeat case_decide; simplify_eq/=; repeat case_decide; simplify_eq; auto. Qed.

Lemma jm_get_set_eq k v m : jm_get k (jm_set k v m) = Some v.
Proof. rewrite jm_get_set. by rewrite decide_True. Qed.
Lemma jm_get_set_ne k k' v m : k ≠ k' → jm_get k (jm_set k' v m) = jm_get k m.
Proof. intros. rewrite jm_get_set. by rewrite decide_False. Qed.

(** Writing back the value of an entry. *)
Lemma jm_set_same k v m : jm_get k m = Some v → jm_set k v m = m.
Proof.
  induction m as [|[k1 v1] m IH]; csimpl; [done|]. case_decide; intros; simplify_eq; [done|].
  by rewrite IH.
Qed.

Lemma jm_get_elem k v m : jm_get k m = Some v → (k, v) ∈ m.
Proof. induction m as [|[k1 v1] m IH]; csimpl; [done|]. case_decide; intros; simplify_eq; set_solver. Qed.

Lemma jm_elem_get k v m : NoDup_keys m → (k, v) ∈ m → jm_get k m = Some v.
Proof.
  unfold NoDup_keys. induction m as [|[k1 v1] m IH]; csimpl; [set_solver|].
  intros [Hni Hnd]%NoDup_cons Hin. case_decide as Hk; subst.
  - apply elem_of_cons in Hin as [?|Hin]; [by simplify_eq|].
    destruct Hni. by apply (list_elem_of_fmap_2 fst) in Hin.
  - apply elem_of_cons in Hin as [?|Hin]; [by simplify_eq|]. by apply IH.
Qed.

Lemma jm_get_None k m : jm_get k m = None ↔ k ∉ jm_keys m.
Proof.
  unfold jm_keys. induction m as [|[k1 v1] m IH]; csimpl; [set_solver|].
  case_decide; subst; [set_solver|]. rewrite IH. set_solver.
Qed.

Lemma jm_get_Some_key k v m : jm_get k m = Some v → k ∈ jm_keys m.
Proof. intros H%jm_get_elem. by apply (list_elem_of_fmap_2 fst) in H. Qed.

Lemma jm_key_is_Some k m : k ∈ jm_keys m ↔ is_Some (jm_get k m).
Proof.
  split.
  - intros Hk. destruct (jm_get k m) eqn:E; [eauto|]. by apply jm_get_None in E.
  - intros [v Hv]. eauto using jm_get_Some_key.
Qed.

Lemma jm_get_filter p k m :
  NoDup_keys m →
  jm_get k (jm_filter p m) =
    match jm_get k m with Some v => if p k v then Some v else None | None => None end.
Proof.
  unfold NoDup_keys, jm_filter.
  induction m as [|[k1 v1] m IH]; csimpl; [done|]. intros [Hni Hnd]%NoDup_cons.
  destruct (p k1 v1) eqn:E; csimpl; case_decide; subst; rewrite ?E; auto.
  rewrite IH by done. apply jm_get_None in Hni. by rewrite Hni.
Qed.

Lemma jm_get_delete k k' m :
  jm_get k (jm_delete k' m) = if decide (k = k') then None else jm_get k m.
Proof.
  unfold jm_delete, jm_filter. induction m as [|[k1 v1] m IH]; csimpl; [by case_decide|].
  destruct (bool_decide_reflect (k1 = k')); csimpl; subst.
  - rewrite IH. repeat case_decide; congruence.
  - rewrite IH. repeat case_decide; congruence.
Qed.

Lemma jm_get_delete_eq k m : jm_get k (jm_delete k m) = None.
Proof. rewrite jm_get_delete. by rewrite decide_True. Qed.
Lemma jm_get_delete_ne k k' m : k ≠ k' → jm_get k (jm_delete k' m) = jm_get k m.
Proof. intros. rewrite jm_get_delete. by rewrite decide_False. Qed.

Lemma jm_get_alter f k k' m :
  jm_get k (jm_alter f k' m) = if decide (k = k') then f <$> jm_get k m else jm_get k m.
Proof.
  unfold jm_alter. destruct (jm_get k' m) eqn:E.
  - rewrite jm_get_set. case_decide; [|done]. subst. by rewrite E.
  - case_decide; [|done]. subst. by rewrite E.
Qed.

Lemma jm_get_touch k k' v m :
  jm_get k (jm_touch k' v m) = if decide (k = k') then Some v else jm_get k m.
Proof.
  unfold jm_touch. rewrite jm_get_set. case_decide; [done|]. by apply jm_get_delete_ne.
Qed.

(** ** Keys and sizes *)

Lemma jm_keys_set_old k v m : k ∈ jm_keys m → jm_keys (jm_set k v m) = jm_keys m.
Proof.
  unfold jm_keys. induction m as [|[k1 v1] m IH]; csimpl; [set_solver|].
  intros Hk. case_decide; subst; csimpl; [done|]. rewrite IH by set_solver. done.
Qed.

Lemma jm_keys_set_new k v m : k ∉ jm_keys m → jm_keys (jm_set k v m) = jm_keys m ++ [k].
Proof.
  unfold jm_keys. induction m as [|[k1 v1] m IH]; csimpl; [done|].
  intros Hk. case_decide; subst; csimpl; [set_solver|]. rewrite IH by set_solver. done.
Qed.

Lemma jm_keys_set k v m :
  jm_keys (jm_set k v m) = if decide (k ∈ jm_keys m) then jm_keys m else jm_keys m ++ [k].
Proof. case_decide; auto using jm_keys_set_old, jm_keys_set_new. Qed.

Lemma jm_keys_filter p m : jm_keys (jm_filter p m) `sublist_of` jm_keys m.
Proof.
  unfold jm_keys, jm_filter. induction m as [|[k v] m IH]; csimpl; [done|].
  destruct (p k v); csimpl; [by apply sublist_skip|by apply sublist_cons].
Qed.

Lemma jm_filter_suffix_keys p m k : k ∈ jm_keys (jm_filter p m) → k ∈ jm_keys m.
Proof.
  intros Hk. by eapply elem_of_sublist, jm_keys_filter.
Qed.

Lemma jm_size_nonneg m : (0 ≤ jm_size m)%Z.
Proof. unfold jm_size. lia. Qed.

Lemma jm_size_filter p m : (jm_size (jm_filter p m) ≤ jm_size m)%Z.
Proof.
  unfold jm_size. pose proof (sublist_length _ _ (jm_keys_filter p m)) as H.
  unfold jm_keys in H. rewrite !length_fmap in H. lia.
Qed.

Lemma jm_size_delete k m : (jm_size (jm_delete k m) ≤ jm_size m)%Z.
Proof. apply jm_size_filter. Qed.

Lemma jm_size_delete_present k v m :
  jm_get k m = Some v → (jm_size (jm_delete k m) + 1 ≤ jm_size m)%Z.
Proof.
  unfold jm_size. induction m as [|[k' v'] m IH]; csimpl; [done|].
  unfold jm_delete, jm_filter in *. csimpl. case_decide as Hk; intros Hv; subst.
  - rewrite bool_decide_eq_true_2 by done. csimpl.
    pose proof (jm_size_filter (λ k'0 _, negb (bool_decide (k'0 = k'))) m) as H.
    unfold jm_size, jm_filter in H. lia.
  - rewrite bool_decide_eq_false_2 by done. csimpl. specialize (IH Hv). lia.
Qed.

Lemma jm_size_keys m : jm_size m = Z.of_nat (length (jm_keys m)).
Proof. unfold jm_size, jm_keys. by rewrite length_fmap. Qed.

Lemma jm_size_set k v m :
  jm_size (jm_set k v m) = (if decide (k ∈ jm_keys m) then jm_size m else jm_size m + 1)%Z.
Proof.
  rewrite !jm_size_keys, jm_keys_set. case_decide; [done|]. rewrite length_app. csimpl. lia.
Qed.

Lemma jm_size_set_le k v m : (jm_size (jm_set k v m) ≤ jm_size m + 1)%Z.
Proof. rewrite jm_size_set. case_decide; lia. Qed.

Lemma jm_size_touch_le k v m : (jm_size (jm_touch k v m) ≤ jm_size m + 1)%Z.
Proof. unfold jm_touch. pose proof (jm_size_set_le k v (jm_delete k m)). pose proof (jm_size_delete k m). lia. Qed.

(** ** Eviction of the oldest entries *)

Lemma jm_trim_suffix cap m : jm_trim cap m `suffix_of` m.
Proof.
  induction m as [|e m IH]; csimpl; [done|]. case_match; [|done]. by apply suffix_cons_r.
Qed.

Lemma jm_trim_id cap m : (jm_size m ≤ cap)%Z → jm_trim cap m = m.
Proof. destruct m; csimpl; [done|]. intros. case_match eqn:E; [|done]. apply Z.ltb_lt in E. lia. Qed.

Lemma jm_size_trim cap m : (0 ≤ cap)%Z → jm_size (jm_trim cap m) = Z.min cap (jm_size m).
Proof.
  intros Hcap. induction m as [|e m IH]; csimpl; [unfold jm_size; csimpl; lia|].
  destruct (cap <? jm_size (e :: m))%Z eqn:E; split_bools.
  - rewrite IH. unfold jm_size in *. csimpl in *. lia.
  - lia.
Qed.

Lemma jm_size_make_room cap m : (1 ≤ cap)%Z → (jm_size (jm_make_room cap m) ≤ cap - 1)%Z.
Proof. intros. unfold jm_make_room. rewrite jm_size_trim by lia. lia. Qed.

(** The newest entry survives a trim to a positive capacity. *)
Lemma jm_trim_last cap m e : (1 ≤ cap)%Z → ∃ m', jm_trim cap (m ++ [e]) = m' ++ [e].
Proof.
  intros Hcap. induction m as [|e' m IH].
  - exists []. rewrite jm_trim_id; [done|]. unfold jm_size; csimpl; lia.
  - csimpl. case_match; [done|]. by exists (e' :: m).
Qed.

Lemma jm_get_suffix k m m' :
  NoDup_keys m → m' `suffix_of` m → ∀ v, jm_get k m' = Some v → jm_get k m = Some v.
Proof.
  intros Hnd [l ->] v Hv. apply jm_elem_get; [done|].
  apply jm_get_elem in Hv. set_solver.
Qed.

(** ** The representation invariant *)

Lemma NoDup_keys_nil : NoDup_keys [].
Proof. constructor. Qed.

Lemma NoDup_keys_set k v m : NoDup_keys m → NoDup_keys (jm_set k v m).
Proof.
  unfold NoDup_keys. rewrite jm_keys_set. case_decide; [done|].
  intros. apply NoDup_app. split; [done|]. split; [set_solver|]. apply NoDup_singleton.
Qed.

Lemma NoDup_keys_filter p m : NoDup_keys m → NoDup_keys (jm_filter p m).
Proof. unfold NoDup_keys. intros. by eapply sublist_NoDup, jm_keys_filter. Qed.

Lemma NoDup_keys_delete k m : NoDup_keys m → NoDup_keys (jm_delete k m).
Proof. apply NoDup_keys_filter. Qed.

Lemma NoDup_keys_touch k v m : NoDup_keys m → NoDup_keys (jm_touch k v m).
Proof. intros. by apply NoDup_keys_set, NoDup_keys_delete. Qed.

Lemma NoDup_keys_trim cap m : NoDup_keys m → NoDup_keys (jm_trim cap m).
Proof.
  intros Hnd. destruct (jm_trim_suffix cap m) as [l E]. unfold NoDup_keys, jm_keys in *.
  rewrite E, fmap_app in Hnd. by apply NoDup_app in Hnd as (_ & _ & ?).
Qed.

Lemma NoDup_keys_alter f k m : NoDup_keys m → NoDup_keys (jm_alter f k m).
Proof. unfold jm_alter. case_match; [apply NoDup_keys_set|done]. Qed.

(** A touched entry is the last one. *)
Lemma jm_touch_app k v m : jm_touch k v m = jm_delete k m ++ [(k, v)].
Proof.
  unfold jm_touch. assert (k ∉ jm_keys (jm_delete k m)) as Hk.
  { apply jm_get_None, jm_get_delete_eq. }
  revert Hk. generalize (jm_delete k m) as l. clear m.
  induction l as [|[k1 v1] l IH]; csimpl; [done|].
  intros Hk. case_decide; subst; [set_solver|]. by rewrite IH by set_solver.
Qed.

(** Touching an entry and trimming to a positive capacity keeps the entry. *)
Lemma jm_get_touch_trim cap k v m :
  NoDup_keys m → (1 ≤ cap)%Z → jm_get k (jm_trim cap (jm_touch k v m)) = Some v.
Proof.
  intros Hnd Hcap.
  assert (NoDup_keys (jm_trim cap (jm_touch k v m))) as Hnd'.
  { by apply NoDup_keys_trim, NoDup_keys_touch. }
  rewrite jm_touch_app in *. destruct (jm_trim_last cap (jm_delete k m) (k, v)) as [m' E]; [done|].
  rewrite E in *. apply jm_elem_get; [done|]. set_solver.
Qed.

(** What a trim keeps was there before. *)
Lemma jm_get_trim_Some cap k v m :
  NoDup_keys m → jm_get k (jm_trim cap m) = Some v → jm_get k m = Some v.
Proof. intros Hnd. apply jm_get_suffix; [done|apply jm_trim_suffix]. Qed.
End JsMap.

#[export] Hint Resolve NoDup_keys_nil NoDup_keys_set NoDup_keys_filter NoDup_keys_delete
  NoDup_keys_touch NoDup_keys_trim NoDup_keys_alter jm_size_nonneg : viewport.
#[export] Hint Rewrite @jm_get_set_eq @jm_get_delete_eq : viewport.

(** ** Sets as duplicate-free lists *)

Section JsSet.
Context {A : Type} `{EqDecision A}.
Definition set_add (x : A) (l : list A) : list A := if decide (x ∈ l) then l else l ++ [x].
Definition set_delete (x : A) (l : list A) : list A :=
  List.filter (λ y, negb (bool_decide (y = x))) l.

Lemma elem_of_set_add x y l : y ∈ set_add x l ↔ y = x ∨ y ∈ l.
Proof. unfold set_add. case_decide; set_solver. Qed.
Lemma elem_of_set_delete x y l : y ∈ set_delete x l ↔ y ≠ x ∧ y ∈ l.
Proof.
  unfold set_delete. rewrite !list_elem_of_In, filter_In.
  rewrite negb_true_iff, bool_decide_eq_false. tauto.
Qed.
Lemma NoDup_set_add x l : NoDup l → NoDup (set_add x l).
Proof.
  unfold set_add. case_decide; [done|]. intros. apply NoDup_app.
  split; [done|]. split; [set_solver|]. apply NoDup_singleton.
Qed.
End JsSet.
