(* ===== verification/Json.v ===== *)
(** * JSON values and [JSON.parse]

    The frames of the relay are JSON texts.  [JSON_parse] is the grammar of RFC
    8259 as ECMAScript's [JSON.parse] reads it: a deterministic pushdown
    transducer that consumes one character per step, so that it is total without
    fuel.  Numbers are IEEE binary64 values (the Standard Library's executable
    specification [spec_float]), correctly rounded from the decimal text. *)

From S2P Require Import Prelude JsString JsMap.
From stdpp Require Import prelude strings list.
From Stdlib Require Import ZArith Lia Ascii Floats.SpecFloat.

(** ** Values *)

Inductive json :=
| JNull
| JBool (b : bool)
| JNum (x : spec_float)
| JStr (s : string)
| JArr (l : list json)
| JObj (fields : list (string * json)).

(** A JavaScript object read by [JSON.parse]: its own properties, in insertion
    order. *)
Definition record : Type := list (string * json).

(** [frame['key']]: [None] is [undefined]. *)
Definition field (f : record) (key : string) : option json := jm_get key f.

(** ** binary64 numbers *)

Definition prec64 : Z := 53.
Definition emax64 : Z := 1024.

(** The binary64 value of an integer. *)
Definition num_of_Z (z : Z) : spec_float := binary_normalize prec64 emax64 z 0 false.

(** The integer a number is, if [Number.isInteger] holds of it. *)
Definition num_to_Z (x : spec_float) : option Z :=
  match x with
  | S754_zero _ => Some 0%Z
  | S754_finite s m e =>
      let signed (z : Z) := if s then (- z)%Z else z in
      if (0 <=? e)%Z then Some (signed (Zpos m * 2 ^ e)%Z)
      else if (Zpos m mod 2 ^ (- e) =? 0)%Z then Some (signed (Zpos m / 2 ^ (- e))%Z)
      else None
  | _ => None
  end.

(** The correctly rounded value of (-1)^s * m * 10^e.  The first two tests settle
    magnitudes above 10^310 and below 10^-330, which round to infinity and to
    zero, without computing the power. *)
Definition num_of_decimal (s : bool) (m : N) (digits e : Z) : spec_float :=
  match m with
  | N0 => S754_zero s
  | Npos p =>
      if (310 <? digits + e)%Z then S754_infinity s
      else if (digits + e <? -330)%Z then S754_zero s
      else if (0 <=? e)%Z then
        binary_normalize prec64 emax64 ((if s then Z.neg else Z.pos) p * 10 ^ e) 0 s
      else
        let '(q, e', loc) :=
          SFdiv_core_binary prec64 emax64 (Zpos p) 0 (10 ^ (- e)) 0 in
        binary_round_aux prec64 emax64 s q e' loc
  end.

(** ** Characters *)

Definition is_digit (a : ascii) : bool := let n := code a in (48 <=? n) && (n <=? 57).
Definition digit_val (a : ascii) : N := N.of_nat (code a - 48).
Definition is_json_ws (a : ascii) : bool :=
  let n := code a in (n =? 32) || (n =? 9) || (n =? 10) || (n =? 13).
Definition is_char (c : string) (a : ascii) : bool :=
  match c with String b EmptyString => Ascii.eqb a b | _ => false end.

Definition hex_val (a : ascii) : option nat :=
  let n := code a in
  if (48 <=? n) && (n <=? 57) then Some (n - 48)
  else if (65 <=? n) && (n <=? 70) then Some (n - 55)
  else if (97 <=? n) && (n <=? 102) then Some (n - 87)
  else None.

(** The UTF-8 encoding of a code point (a lone surrogate keeps its three bytes). *)
Definition utf8_encode (u : nat) : list ascii :=
  if u <? 128 then [byte_of u]
  else if u <? 2048 then [byte_of (192 + u / 64); byte_of (128 + u mod 64)]
  else if u <? 65536 then
    [byte_of (224 + u / 4096); byte_of (128 + (u / 64) mod 64); byte_of (128 + u mod 64)]
  else
    [byte_of (240 + u / 262144); byte_of (128 + (u / 4096) mod 64);
     byte_of (128 + (u / 64) mod 64); byte_of (128 + u mod 64)].

(** ** Numbers *)

Definition digits_value (ds : list ascii) : N :=
  fold_left (λ n d, (10 * n + digit_val d)%N) ds 0%N.

Fixpoint span (p : ascii → bool) (l : list ascii) : list ascii * list ascii :=
  match l with
  | [] => ([], [])
  | a :: l' => if p a then let '(x, y) := span p l' in (a :: x, y) else ([], l)
  end.

Fixpoint drop_zeros (l : list ascii) : list ascii :=
  match l with a :: l' => if is_char "0" a then drop_zeros l' else l | [] => [] end.

(** [-? (0 | [1-9][0-9]* ) (. [0-9]+)? ([eE] [+-]? [0-9]+)?] *)
Definition parse_number (l : list ascii) : option spec_float :=
  let '(neg, l1) := match l with a :: r => if is_char "-" a then (true, r) else (false, l)
                               | [] => (false, []) end in
  let '(int, l2) := span is_digit l1 in
  let int_ok := match int with
    | [] => false | [_] => true | a :: _ => negb (is_char "0" a) end in
  let '(frac, frac_ok, l3) := match l2 with
    | a :: r => if is_char "." a then
        let '(ds, r') := span is_digit r in (ds, negb (bool_decide (ds = [])), r')
        else ([], true, l2)
    | [] => ([], true, []) end in
  let '(ex, ex_ok, l4) := match l3 with
    | a :: r => if is_char "e" a || is_char "E" a then
        let '(sg, r1) := match r with
          | b :: r' => if is_char "-" b then (true, r')
                       else if is_char "+" b then (false, r') else (false, r)
          | [] => (false, []) end in
        let '(ds, r2) := span is_digit r1 in
        ((if sg : bool then Z.opp else id) (Z.of_N (digits_value ds)),
          negb (bool_decide (ds = [])), r2)
        else (0%Z, true, l3)
    | [] => (0%Z, true, []) end in
  let ds := drop_zeros (int ++ frac) in
  if int_ok && frac_ok && ex_ok && bool_decide (l4 = []) then
    Some (num_of_decimal neg (digits_value ds) (Z.of_nat (length ds))
            (ex - Z.of_nat (length frac)))
  else None.

(** ** The transducer *)

(** An enclosing array or object under construction, values in reverse; an object
    keeps the key whose value is being read. *)
Inductive frame :=
| FArr (rev_items : list json)
| FObj (fields : record) (key : string).

Inductive escape :=
| NoEsc
| Esc                       (* after a backslash *)
| Hex (todo acc : nat).     (* in \uXXXX *)

Inductive mode :=
| MValue (may_close : bool)          (* a value, or ']' just after '[' *)
| MAfter                             (* after a value *)
| MKey (fields : record) (may_close : bool)
| MColon (fields : record) (key : string)
| MStr (as_key : option record) (rev_chars : list ascii) (esc : escape) (high : option nat)
| MNum (rev_chars : list ascii)
| MLit (rest : list ascii) (value : json)
| MDone (value : json).

Record pstate := PState { p_mode : mode; p_stack : list frame }.

(** A value is complete: it ends the text, or joins the innermost frame. *)
Definition emit (v : json) (stk : list frame) : pstate :=
  match stk with
  | [] => PState (MDone v) []
  | FArr items :: stk' => PState MAfter (FArr (v :: items) :: stk')
  | FObj fields key :: stk' => PState MAfter (FObj (jm_set key v fields) key :: stk')
  end.

Definition start_value (a : ascii) (may_close : bool) (stk : list frame) : option pstate :=
  if is_json_ws a then Some (PState (MValue may_close) stk)
  else if is_char "[" a then Some (PState (MValue true) (FArr [] :: stk))
  else if is_char "{" a then Some (PState (MKey [] true) stk)
  else if code a =? 34 then Some (PState (MStr None [] NoEsc None) stk)
  else if is_char "t" a then Some (PState (MLit (String.list_ascii_of_string "rue") (JBool true)) stk)
  else if is_char "f" a then Some (PState (MLit (String.list_ascii_of_string "alse") (JBool false)) stk)
  else if is_char "n" a then Some (PState (MLit (String.list_ascii_of_string "ull") JNull) stk)
  else if is_digit a || is_char "-" a then Some (PState (MNum [a]) stk)
  else match may_close, is_char "]" a, stk with
       | true, true, FArr [] :: stk' => Some (emit (JArr []) stk')
       | _, _, _ => None
       end.

Definition after_value (a : ascii) (stk : list frame) : option pstate :=
  if is_json_ws a then Some (PState MAfter stk)
  else match stk with
       | FArr items :: stk' =>
           if is_char "," a then Some (PState (MValue false) stk)
           else if is_char "]" a then Some (emit (JArr (rev items)) stk')
           else None
       | FObj fields _ :: stk' =>
           if is_char "," a then Some (PState (MKey fields false) stk')
           else if is_char "}" a then Some (emit (JObj fields) stk')
           else None
       | [] => None
       end.

Definition finish_string (as_key : option record) (chars : list ascii) (stk : list frame) : pstate :=
  let s := String.string_of_list_ascii (rev chars) in
  match as_key with
  | Some fields => PState (MColon fields s) stk
  | None => emit (JStr s) stk
  end.

(** The pending high surrogate, if any, becomes a character of its own. *)
Definition flush_high (high : option nat) (chars : list ascii) : list ascii :=
  match high with Some u => rev (utf8_encode u) ++ chars | None => chars end.

(** A \uXXXX escape is read: a low surrogate joins the high one before it. *)
Definition code_unit (u : nat) (high : option nat) (chars : list ascii) : list ascii * option nat :=
  if (55296 <=? u) && (u <? 56320) then (flush_high high chars, Some u)
  else if (56320 <=? u) && (u <? 57344) then
    match high with
    | Some h => (rev (utf8_encode (65536 + (h - 55296) * 1024 + (u - 56320))) ++ chars, None)
    | None => (rev (utf8_encode u) ++ chars, None)
    end
  else (rev (utf8_encode u) ++ flush_high high chars, None).

Definition simple_escape (a : ascii) : option ascii :=
  let n := code a in
  if (n =? 34) || (n =? 92) || (n =? 47) then Some a
  else if is_char "b" a then Some (byte_of 8)
  else if is_char "f" a then Some (byte_of 12)
  else if is_char "n" a then Some (byte_of 10)
  else if is_char "r" a then Some (byte_of 13)
  else if is_char "t" a then Some (byte_of 9)
  else None.

Definition step_string (a : ascii) (as_key : option record) (chars : list ascii)
    (esc : escape) (high : option nat) (stk : list frame) : option pstate :=
  match esc with
  | NoEsc =>
      if code a =? 34 then Some (finish_string as_key (flush_high high chars) stk)
      else if code a =? 92 then Some (PState (MStr as_key chars Esc high) stk)
      else if code a <? 32 then None
      else Some (PState (MStr as_key (a :: flush_high high chars) NoEsc None) stk)
  | Esc =>
      if is_char "u" a then Some (PState (MStr as_key chars (Hex 4 0) high) stk)
      else match simple_escape a with
           | Some b => Some (PState (MStr as_key (b :: flush_high high chars) NoEsc None) stk)
           | None => None
           end
  | Hex todo acc =>
      match hex_val a with
      | None => None
      | Some d =>
          let acc' := 16 * acc + d in
          if todo =? 1 then
            let '(chars', high') := code_unit acc' high chars in
            Some (PState (MStr as_key chars' NoEsc high') stk)
          else Some (PState (MStr as_key chars (Hex (todo - 1) acc') high) stk)
      end
  end.

Definition is_number_char (a : ascii) : bool :=
  is_digit a || is_char "+" a || is_char "-" a || is_char "." a || is_char "e" a || is_char "E" a.

Definition finish_number (chars : list ascii) (stk : list frame) : option pstate :=
  match parse_number (rev chars) with Some x => Some (emit (JNum x) stk) | None => None end.

(** In a state that has completed a value, [a] is white space, a separator or a
    closing bracket. *)
Definition step_completed (a : ascii) (st : pstate) : option pstate :=
  match p_mode st with
  | MDone v => if is_json_ws a then Some st else None
  | MAfter => after_value a (p_stack st)
  | _ => None
  end.

Definition pstep (st : pstate) (a : ascii) : option pstate :=
  let stk := p_stack st in
  match p_mode st with
  | MValue may_close => start_value a may_close stk
  | MAfter | MDone _ => step_completed a st
  | MKey fields may_close =>
      if is_json_ws a then Some st
      else if code a =? 34 then Some (PState (MStr (Some fields) [] NoEsc None) stk)
      else if may_close && is_char "}" a then Some (emit (JObj fields) stk)
      else None
  | MColon fields key =>
      if is_json_ws a then Some st
      else if is_char ":" a then Some (PState (MValue false) (FObj fields key :: stk))
      else None
  | MStr as_key chars esc high => step_string a as_key chars esc high stk
  | MNum chars =>
      if is_number_char a then Some (PState (MNum (a :: chars)) stk)
      else match finish_number chars stk with Some st' => step_completed a st' | None => None end
  | MLit rest v =>
      match rest with
      | [] => step_completed a (emit v stk)
      | b :: rest' => if Ascii.eqb a b then Some (match rest' with
                                                 | [] => emit v stk
                                                 | _ => PState (MLit rest' v) stk end)
                      else None
      end
  end.

Fixpoint prun (l : list ascii) (st : pstate) : option pstate :=
  match l with
  | [] => Some st
  | a :: l' => match pstep st a with Some st' => prun l' st' | None => None end
  end.

(** [JSON.parse(text)]; [None] is the [SyntaxError] it throws. *)
Definition JSON_parse (text : string) : option json :=
  match prun (String.list_ascii_of_string text) (PState (MValue false) []) with
  | Some (PState (MDone v) _) => Some v
  | Some (PState (MNum chars) []) =>
      match parse_number (rev chars) with Some x => Some (JNum x) | None => None end
  | _ => None
  end.

(** ** Tests the code makes on [unknown] values *)

(** [typeof v === 'string'] and the string. *)
Definition as_string (v : option json) : option string :=
  match v with Some (JStr s) => Some s | _ => None end.
Definition is_string (v : option json) : bool :=
  match v with Some (JStr _) => true | _ => false end.
(** [v === 'literal'] *)
Definition is_str (v : option json) (s : string) : bool :=
  match v with Some (JStr s') => String.eqb s' s | _ => false end.
(** [typeof v === 'number'] *)
Definition is_number (v : option json) : bool :=
  match v with Some (JNum _) => true | _ => false end.
(** [typeof v === 'number' && Number.isInteger(v)], and the integer. *)
Definition as_int (v : option json) : option Z :=
  match v with Some (JNum x) => num_to_Z x | _ => None end.
(** [v === n] for an integer literal. *)
Definition is_int (v : option json) (n : Z) : bool :=
  match as_int v with Some z => (z =? n)%Z | None => false end.
(** [typeof v === 'number' && Number.isInteger(v) && v >= n] *)
Definition is_int_ge (v : option json) (n : Z) : bool :=
  match as_int v with Some z => (n <=? z)%Z | None => false end.
Definition is_undefined (v : option json) : bool :=
  match v with None => true | _ => false end.
(** [typeof v === 'string' && v.trim().length > 0] *)
Definition is_nonblank (v : option json) : bool :=
  match v with Some (JStr s) => nonblank s | _ => false end.

Lemma is_nonblank_string v : is_nonblank v = true → is_string v = true.
Proof. by destruct v as [[]|]. Qed.

Lemma is_str_true v s : is_str v s = true ↔ v = Some (JStr s).
Proof.
  destruct v as [[]|]; simpl; try naive_solver.
  rewrite String.eqb_eq. naive_solver.
Qed.

(** Distinct literals exclude one another. *)
Lemma is_str_excl v s t : is_str v s = true → s ≠ t → is_str v t = false.
Proof.
  rewrite is_str_true. intros -> Hst. simpl. by apply String.eqb_neq.
Qed.

Lemma is_int_true v n : is_int v n = true ↔ as_int v = Some n.
Proof.
  unfold is_int. destruct (as_int v); [|naive_solver].
  rewrite Z.eqb_eq. naive_solver.
Qed.

Lemma is_int_number v n : is_int v n = true → is_number v = true.
Proof. by destruct v as [[]|]. Qed.

#[export] Hint Resolve is_nonblank_string : viewport.

(** ** The parser on concrete texts *)

(** JSON writes its quotes as bytes 34, so the texts below are built with ['] for
    the quote. *)
Definition quoted (s : string) : string :=
  String.string_of_list_ascii
    (map (λ a, if code a =? 39 then byte_of 34 else a) (String.list_ascii_of_string s)).

Example parse_object :
  JSON_parse (quoted "{'type':'e2ee', 'seq': 12, 'ok' : [true,null,{}], 'seq':1.5e1}") =
    Some (JObj [("type", JStr "e2ee"); ("seq", JNum (num_of_Z 15));
                ("ok", JArr [JBool true; JNull; JObj []])]).
Proof. vm_compute. reflexivity. Qed.

Example parse_rejects :
  map JSON_parse (map quoted ["{'a':}"; "[1,]"; "01"; "'a"; "1 2"; "{'a':1,}"; ""; "tru"; "-"]) =
    replicate 9 None.
Proof. vm_compute. reflexivity. Qed.

Example parse_escape : JSON_parse (quoted "'\u0041\ud83d\ude00\n'") =
  Some (JStr (String.string_of_list_ascii (map byte_of [65; 240; 159; 152; 128; 10]))).
Proof. vm_compute. reflexivity. Qed.

Example parse_numbers :
  map (λ t, num_to_Z <$> (match JSON_parse t with Some (JNum x) => Some x | _ => None end))
    ["2.0"; "0.5"; "1e3"; "9007199254740993"; "-0"; "1e400"; "3e-400"] =
  [Some (Some 2%Z); Some None; Some (Some 1000%Z); Some (Some 9007199254740992%Z);
   Some (Some 0%Z); Some None; Some (Some 0%Z)].
Proof. vm_compute. reflexivity. Qed.
