(* ===== verification/JsonText.v ===== *)
(** * [JSON.stringify] of flat objects, and that [JSON.parse] reads it back

    The envelopes of the relay bridge and the metadata of its handshake are objects
    whose fields are strings and positive integers.  [stringify_record] is the text
    [JSON.stringify] gives for one; [parse_stringify] states that [JSON_parse] reads
    every such text as the same object.  Strings are well-formed Unicode. *)

From S2P Require Import Prelude JsString JsMap Json.
From stdpp Require Import prelude strings list pretty.
From Stdlib Require Import ZArith Lia Ascii Floats.SpecFloat.

Inductive scalar := SStr (s : string) | SInt (n : positive).

Definition scalar_json (v : scalar) : json :=
  match v with SStr s => JStr s | SInt n => JNum (num_of_Z (Zpos n)) end.

Definition hex_digit (n : nat) : ascii := byte_of (if n <? 10 then 48 + n else 87 + n).

(** How [JSON.stringify] writes one character of a string. *)
Definition json_escape (a : ascii) : list ascii :=
  let n := code a in
  if (n =? 34) || (n =? 92) then [byte_of 92; a]
  else if n =? 8 then [byte_of 92; "b"%char]
  else if n =? 9 then [byte_of 92; "t"%char]
  else if n =? 10 then [byte_of 92; "n"%char]
  else if n =? 12 then [byte_of 92; "f"%char]
  else if n =? 13 then [byte_of 92; "r"%char]
  else if n <? 32 then [byte_of 92; "u"%char; "0"%char; "0"%char; hex_digit (n / 16); hex_digit (n mod 16)]
  else [a].

Notation chars := String.list_ascii_of_string.

Definition quote_chars (s : string) : list ascii :=
  byte_of 34 :: concat (map json_escape (chars s)) ++ [byte_of 34].

Definition scalar_chars (v : scalar) : list ascii :=
  match v with SStr s => quote_chars s | SInt n => chars (pretty (Npos n)) end.

Definition member_chars (kv : string * scalar) : list ascii := quote_chars kv.1 ++ ":"%char :: scalar_chars kv.2.

(** The members after the first. *)
Fixpoint tail_chars (l : list (string * scalar)) : list ascii :=
  match l with [] => ["}"%char] | kv :: l => ","%char :: member_chars kv ++ tail_chars l end.

Definition record_chars (l : list (string * scalar)) : list ascii :=
  "{"%char :: match l with [] => ["}"%char] | kv :: l => member_chars kv ++ tail_chars l end.

Definition stringify_record (l : list (string * scalar)) : string := String.string_of_list_ascii (record_chars l).

(** The numbers [parse_number] does not round to infinity by their length alone. *)
Definition short_number (v : scalar) : Prop :=
  match v with SStr _ => True | SInt n => (String.length (pretty (Npos n)) <= 310)%nat end.

(** ** Running the parser over concatenations *)

Lemma prun_app l1 l2 st : prun (l1 ++ l2) st = match prun l1 st with Some st' => prun l2 st' | None => None end.
Proof. revert st. induction l1 as [|a l1 IH]; intros st; simpl; [done|]. destruct (pstep st a); [apply IH|done]. Qed.

Lemma prun_escape a l k acc stk :
  prun (json_escape a ++ l) (PState (MStr k acc NoEsc None) stk) = prun l (PState (MStr k (a :: acc) NoEsc None) stk).
Proof. destruct a as [[] [] [] [] [] [] [] []]; reflexivity. Qed.

Lemma prun_escapes s l k acc stk :
  prun (concat (map json_escape s) ++ l) (PState (MStr k acc NoEsc None) stk) =
  prun l (PState (MStr k (rev s ++ acc) NoEsc None) stk).
Proof.
  revert acc. induction s as [|a s IH]; intros acc; simpl; [done|].
  by rewrite <- app_assoc, prun_escape, IH, <- app_assoc.
Qed.

Lemma chars_rev_rev s acc : acc = [] → String.string_of_list_ascii (rev (rev (chars s) ++ acc)) = s.
Proof. intros ->. by rewrite app_nil_r, rev_involutive, String.string_of_list_ascii_of_string. Qed.

Lemma prun_key s l fields mc stk :
  prun (quote_chars s ++ l) (PState (MKey fields mc) stk) = prun l (PState (MColon fields s) stk).
Proof.
  unfold quote_chars. simpl. rewrite <- app_assoc, prun_escapes. simpl. unfold finish_string.
  by rewrite chars_rev_rev.
Qed.

(** ** Numbers *)

Lemma chars_app a b : chars (a +:+ b) = chars a ++ chars b.
Proof. induction a; simpl; [done|]. by f_equal. Qed.

Lemma digits_value_snoc ds d : digits_value (ds ++ [d]) = (10 * digits_value ds + digit_val d)%N.
Proof. unfold digits_value. by rewrite fold_left_app. Qed.

Lemma pretty_digit n : (n < 10)%N → let a := pretty_N_char n in
  is_digit a = true ∧ digit_val a = n ∧ is_char "0" a = bool_decide (n = 0)%N ∧ is_char "-" a = false.
Proof.
  intros Hn. assert (n ∈ (N.of_nat <$> List.seq 0 10)) as Hin.
  { apply list_elem_of_fmap. exists (N.to_nat n). split; [lia|]. apply list_elem_of_In, in_seq. lia. }
  simpl in Hin. repeat (apply elem_of_cons in Hin as [->|Hin]; [by vm_compute|]). by apply elem_of_nil in Hin.
Qed.

Lemma pretty_go_chars n s : (0 < n)%N → ∃ d ds,
  chars (pretty_N_go n s) = (d :: ds) ++ chars s ∧ Forall (λ a, is_digit a = true) (d :: ds) ∧
  is_char "0" d = false ∧ is_char "-" d = false ∧ digits_value (d :: ds) = n.
Proof.
  revert s. induction (N.lt_wf_0 n) as [n _ IH]; intros s Hn. rewrite pretty_N_go_step by done.
  pose proof (N.mod_lt n 10 ltac:(done)) as Hm. pose proof (N.div_mod n 10 ltac:(done)) as Hdm.
  destruct (pretty_digit _ Hm) as (D1 & D2 & D3 & D4).
  destruct (decide (0 < n / 10)%N) as [Hq|Hq].
  - destruct (IH (n / 10)%N ltac:(apply N.div_lt; lia) (String (pretty_N_char (n mod 10)) s) Hq)
      as (d & ds & E & F & G1 & G2 & V).
    exists d, (ds ++ [pretty_N_char (n mod 10)]). rewrite E. simpl. rewrite <- app_assoc. split; [done|].
    split; [apply Forall_app in F || idtac|]. { inversion F; subst. constructor; [done|]. apply Forall_app; auto. }
    split; [done|split; [done|]]. change (d :: ds ++ [pretty_N_char (n mod 10)]) with ((d :: ds) ++ [pretty_N_char (n mod 10)]).
    rewrite digits_value_snoc, V, D2. lia.
  - assert (n / 10 = 0)%N as E0 by lia. rewrite E0, pretty_N_go_0. exists (pretty_N_char (n mod 10)), [].
    split; [done|]. split; [by repeat constructor|]. split; [rewrite D3; apply bool_decide_eq_false_2; lia|].
    split; [done|]. unfold digits_value; simpl. rewrite D2. lia.
Qed.

Lemma pretty_chars n : ∃ d ds, chars (pretty (Npos n)) = d :: ds ∧ Forall (λ a, is_digit a = true) (d :: ds) ∧
  is_char "0" d = false ∧ is_char "-" d = false ∧ digits_value (d :: ds) = Npos n.
Proof.
  unfold pretty, pretty_N. rewrite decide_False by done.
  destruct (pretty_go_chars (Npos n) "" ltac:(done)) as (d & ds & E & ?). exists d, ds. rewrite E, app_nil_r. done.
Qed.

Lemma span_all p (l : list ascii) : Forall (λ a, p a = true) l → span p l = (l, []).
Proof. induction 1 as [|a l Ha _ IH]; simpl; [done|]. by rewrite Ha, IH. Qed.

Lemma parse_number_digits d ds n : Forall (λ a, is_digit a = true) (d :: ds) → is_char "0" d = false →
  is_char "-" d = false → digits_value (d :: ds) = Npos n → (length (d :: ds) <= 310)%nat →
  parse_number (d :: ds) = Some (num_of_Z (Zpos n)).
Proof.
  intros F G1 G2 V L. unfold parse_number. rewrite G2, (span_all _ _ F). rewrite app_nil_r.
  replace (drop_zeros (d :: ds)) with (d :: ds) by (cbn [drop_zeros]; by rewrite G1).
  rewrite V, bool_decide_eq_true_2 by done. cbv beta iota.
  assert (match ds with [] => true | _ :: _ => negb (is_char "0" d) end = true) as -> by (rewrite G1; by destruct ds).
  cbn [andb length]. cbv iota. f_equal. unfold num_of_decimal.
  rewrite (proj2 (Z.ltb_ge _ _)) by (simpl length in *; lia). rewrite (proj2 (Z.ltb_ge _ _)) by lia.
  simpl. by rewrite Pos.mul_1_r.
Qed.

Lemma prun_digits ds l acc stk : Forall (λ a, is_digit a = true) ds →
  prun (ds ++ l) (PState (MNum acc) stk) = prun l (PState (MNum (rev ds ++ acc)) stk).
Proof.
  intros F. revert acc. induction F as [|a ds Ha _ IH]; intros acc; [done|].
  cbn [app prun pstep p_mode p_stack]. unfold is_number_char. rewrite Ha. cbn [orb]. rewrite IH. simpl rev.
  by rewrite <- app_assoc.
Qed.

Lemma digit_starts_number d stk : is_digit d = true → start_value d false stk = Some (PState (MNum [d]) stk).
Proof. destruct d as [[] [] [] [] [] [] [] []]; try discriminate; reflexivity. Qed.

(** ** Members and records *)

(** A separator: neither part of a number nor white space. *)
Definition is_separator (c : ascii) : bool := Ascii.eqb c ","%char || Ascii.eqb c "}"%char.

Lemma prun_scalar v c l fields key stk : short_number v → is_separator c = true →
  prun (scalar_chars v ++ c :: l) (PState (MValue false) (FObj fields key :: stk)) =
  prun (c :: l) (PState MAfter (FObj (jm_set key (scalar_json v) fields) key :: stk)).
Proof.
  intros Hshort Hc. destruct v as [s|n].
  - unfold scalar_chars, quote_chars. simpl. rewrite <- app_assoc, prun_escapes. simpl. unfold finish_string.
    by rewrite chars_rev_rev.
  - destruct (pretty_chars n) as (d & ds & E & F & G1 & G2 & V). unfold short_number in Hshort.
    assert (length (d :: ds) = String.length (pretty (Npos n))) as Hlen.
    { rewrite <- E. clear. induction (pretty (Npos n)); simpl; congruence. }
    unfold scalar_chars. rewrite E.
    inversion F; subst. change ((d :: ds) ++ c :: l) with (d :: (ds ++ c :: l)). cbn [prun].
    change (pstep _ d) with (start_value d false (FObj fields key :: stk)). rewrite digit_starts_number by done.
    rewrite prun_digits by done. cbn [prun].
    assert (is_number_char c = false) as Hn.
    { unfold is_separator in Hc. apply orb_true_iff in Hc as [->%Ascii.eqb_eq| ->%Ascii.eqb_eq]; reflexivity. }
    unfold pstep at 1. cbn [p_mode p_stack]. rewrite Hn. unfold finish_number.
    rewrite rev_app_distr, rev_involutive. change (rev [d] ++ ds) with (d :: ds).
    rewrite (parse_number_digits d ds n) by (try done; lia). done.
Qed.

Definition record_fields (l : list (string * scalar)) : list (string * json) := prod_map id scalar_json <$> l.

Lemma prun_member k v c l fields mc stk : short_number v → is_separator c = true →
  prun (member_chars (k, v) ++ c :: l) (PState (MKey fields mc) stk) =
  prun (c :: l) (PState MAfter (FObj (jm_set k (scalar_json v) fields) k :: stk)).
Proof.
  intros. unfold member_chars. cbn [fst snd]. rewrite <- app_assoc, prun_key. rewrite <- app_comm_cons.
  by rewrite <- (prun_scalar v c l fields k stk).
Qed.

Lemma tail_chars_head l : ∃ c cs, tail_chars l = c :: cs ∧ is_separator c = true.
Proof. destruct l; simpl; eexists _, _; done. Qed.

Lemma jm_set_app (k : string) (v : json) fields : k ∉ jm_keys fields → jm_set k v fields = fields ++ [(k, v)].
Proof.
  induction fields as [|[k' v'] fields IH]; csimpl; [done|]. intros. case_decide; [set_solver|].
  rewrite IH; set_solver.
Qed.

Lemma prun_comma l fields k stk :
  prun (","%char :: l) (PState MAfter (FObj fields k :: stk)) = prun l (PState (MKey fields false) stk).
Proof. reflexivity. Qed.

Lemma prun_tail l : ∀ fields k, Forall (λ kv, short_number kv.2) l → NoDup (jm_keys fields ++ l.*1) →
  prun (tail_chars l) (PState MAfter [FObj fields k]) = Some (PState (MDone (JObj (fields ++ record_fields l))) []).
Proof.
  induction l as [|[k' v] l IH]; intros fields k Hs Hnd; [simpl; by rewrite app_nil_r|].
  inversion Hs as [|?? Hv Hl]; subst. cbn [tail_chars]. rewrite prun_comma.
  destruct (tail_chars_head l) as (c & cs & E & Hc). rewrite E, prun_member by done. rewrite <- E.
  rewrite jm_set_app.
  - rewrite IH; [by rewrite <- app_assoc|done|]. unfold jm_keys. rewrite fmap_app, <- app_assoc. done.
  - apply NoDup_app in Hnd as (_ & Hd & _). intros Hin. apply (Hd k' Hin). csimpl. set_solver.
Qed.

Lemma parse_stringify l : Forall (λ kv, short_number kv.2) l → NoDup l.*1 →
  JSON_parse (stringify_record l) = Some (JObj (record_fields l)).
Proof.
  intros Hs Hnd. unfold JSON_parse, stringify_record. rewrite String.list_ascii_of_string_of_list_ascii.
  unfold record_chars. destruct l as [|[k v] l]; [done|].
  change (prun ("{"%char :: ?x) (PState (MValue false) [])) with (prun x (PState (MKey [] true) [])). inversion Hs as [|?? Hv Hl]; subst.
  destruct (tail_chars_head l) as (c & cs & E & Hc). rewrite E, prun_member by done. rewrite <- E.
  rewrite prun_tail; [done|done|]. csimpl. done.
Qed.

(** ** Integers that binary64 holds exactly *)

(** Number.MAX_SAFE_INTEGER + 1 *)
Definition safe (z : Z) : Prop := (1 ≤ z < 2 ^ 53)%Z.

Lemma digits2_bounds m : (2 ^ (Zpos (digits2_pos m) - 1) ≤ Zpos m < 2 ^ Zpos (digits2_pos m))%Z.
Proof.
  induction m as [m IH|m IH|]; cbn [digits2_pos]; [| |lia].
  all: rewrite Pos2Z.inj_succ, Z.pow_succ_r by lia.
  all: replace (Z.succ (Zpos (digits2_pos m)) - 1)%Z with (Z.succ (Zpos (digits2_pos m) - 1))%Z by lia.
  all: rewrite Z.pow_succ_r by lia; lia.
Qed.

Lemma digits2_safe m : safe (Zpos m) → (Zpos (digits2_pos m) ≤ 53)%Z.
Proof.
  intros [_ Hm]. pose proof (digits2_bounds m) as [Hl _].
  destruct (Z.le_gt_cases (Zpos (digits2_pos m)) 53) as [|Hgt]; [done|exfalso].
  assert (2 ^ 53 ≤ 2 ^ (Zpos (digits2_pos m) - 1))%Z by (apply Z.pow_le_mono_r; lia). lia.
Qed.

Lemma iter_xO m d : Zpos (PosDef.Pos.iter xO m d) = (Zpos m * 2 ^ Zpos d)%Z.
Proof.
  change (PosDef.Pos.iter xO m d) with (shift_pos d m).
  rewrite shift_pos_correct, Zpower.Zpower_pos_nat, Zpower.Zpower_nat_Z, positive_nat_Z. lia.
Qed.

Lemma digits2_iter m d : Zpos (digits2_pos (PosDef.Pos.iter xO m d)) = (Zpos (digits2_pos m) + Zpos d)%Z.
Proof.
  induction d as [|d IH] using Pos.peano_ind; simpl; [lia|].
  rewrite Pos.iter_succ. cbn [digits2_pos]. rewrite Pos2Z.inj_succ, IH. lia.
Qed.

Lemma round_aux_53 m e : Zpos (digits2_pos m) = 53%Z → (-53 ≤ e ≤ 0)%Z →
  binary_round_aux prec64 emax64 false (Zpos m) e loc_Exact = S754_finite false m e.
Proof.
  intros Hd He.
  assert (shr_fexp prec64 emax64 (Zpos m) e loc_Exact = ({| shr_m := Zpos m; shr_r := false; shr_s := false |}, e)) as E.
  { unfold shr_fexp, shr, Zdigits2, fexp, emin, prec64, emax64. rewrite Hd.
    replace (Z.max (53 + e - 53) (3 - 1024 - 53) - e)%Z with 0%Z by lia. done. }
  unfold binary_round_aux. rewrite E. simpl. rewrite E. simpl.
  rewrite (proj2 (Z.leb_le _ _)); [done|]. unfold emax64, prec64. lia.
Qed.

Lemma num_safe z : safe z → num_to_Z (num_of_Z z) = Some z.
Proof.
  intros Hz. destruct z as [|m|m]; try (unfold safe in Hz; lia).
  pose proof (digits2_safe m Hz) as Hd. unfold num_of_Z, binary_normalize, binary_round.
  unfold fexp at 1, emin. rewrite Z.add_0_r.
  replace (Z.max (Zpos (digits2_pos m) - prec64) (3 - emax64 - prec64)) with (Zpos (digits2_pos m) - 53)%Z
    by (unfold prec64, emax64; lia).
  unfold shl_align. rewrite Z.sub_0_r. destruct (Zpos (digits2_pos m) - 53)%Z as [|d|d] eqn:E; [|lia|].
  - rewrite round_aux_53 by lia. cbn -[Z.mul Z.pow]. f_equal. lia.
  - rewrite round_aux_53; [|rewrite digits2_iter; lia|lia]. unfold num_to_Z. rewrite (proj2 (Z.leb_gt _ _)) by lia.
    rewrite iter_xO. change (- Z.neg d)%Z with (Zpos d). rewrite Z.mod_mul by lia. rewrite Z.div_mul by lia. done.
Qed.

(** Their decimal texts are short. *)
Lemma pretty_go_length k n s : (0 < n < 10 ^ N.of_nat k)%N → (String.length (pretty_N_go n s) <= k + String.length s)%nat.
Proof.
  revert n s. induction k as [|k IH]; intros n s Hn; [simpl in Hn; lia|].
  rewrite pretty_N_go_step by lia. destruct (decide (0 < n / 10)%N) as [Hq|Hq].
  - assert (n / 10 < 10 ^ N.of_nat k)%N.
    { rewrite Nat2N.inj_succ, N.pow_succ_r' in Hn. apply N.Div0.div_lt_upper_bound. lia. }
    pose proof (IH (n / 10)%N (String (pretty_N_char (n mod 10)) s) ltac:(lia)) as Hl. simpl in Hl. lia.
  - assert (n / 10 = 0)%N as -> by (apply N.le_0_r, N.nlt_ge, Hq). rewrite pretty_N_go_0. simpl. lia.
Qed.

Lemma short_safe n : safe (Zpos n) → short_number (SInt n).
Proof.
  intros [_ Hn]. unfold short_number, pretty, pretty_N. rewrite decide_False by done.
  etrans; [apply (pretty_go_length 16)|simpl; lia]. split; [done|].
  apply N2Z.inj_lt. rewrite N2Z.inj_pow. etrans; [exact Hn|]. done.
Qed.

Lemma is_int_safe z : safe z → as_int (Some (JNum (num_of_Z z))) = Some z.
Proof. apply num_safe. Qed.
