(* ===== verification/JsonStringify.v ===== *)
(** * [JSON.stringify] of any JSON value, and that [JSON.parse] reads it back

    [json_chars] is the text [JSON.stringify] gives for a value, numbers as
    [Number::toString] writes them: the fewest digits that read back as the number.
    [prun_json] and [parse_json] state that the parser of Json.v reads every text so
    written as the same value, so that two values with one text are equal.  Strings
    are well-formed Unicode, and the fields of a record are in the order in which the
    object enumerates them. *)

From S2P Require Import Prelude JsString JsMap Json JsonText.
From stdpp Require Import prelude strings list pretty.
From Stdlib Require Import ZArith Lia Ascii Floats.SpecFloat.

#[export] Instance spec_float_eq_dec : EqDecision spec_float.
Proof. solve_decision. Defined.

(** ** Numbers *)

(** The sizes between which a decimal text has no exponent. *)
Definition zero_chars (n : Z) : list ascii := replicate (Z.to_nat n) "0"%char.

(** The text of the digits [ds] with the decimal point after the first [n]
    (ECMA-262, Number::toString). *)
Definition format_decimal (ds : list ascii) (n : Z) : list ascii :=
  let k := Z.of_nat (length ds) in
  if (k <=? n)%Z && (n <=? 21)%Z then ds ++ zero_chars (n - k)
  else if (0 <? n)%Z && (n <=? 21)%Z then take (Z.to_nat n) ds ++ "."%char :: drop (Z.to_nat n) ds
  else if (-6 <? n)%Z && (n <=? 0)%Z then "0"%char :: "."%char :: zero_chars (- n) ++ ds
  else
    let exponent := (n - 1)%Z in
    let sign := if (0 <=? exponent)%Z then "+"%char else "-"%char in
    let tail := "e"%char :: sign :: chars (pretty (Z.to_N (Z.abs exponent))) in
    match ds with d :: (_ :: _) as more => d :: "."%char :: more ++ tail | _ => ds ++ tail end.

(** Without its final zeros; the place of the point does not change. *)
Fixpoint drop_final_zeros (ds : list ascii) : list ascii :=
  match ds with
  | [] => []
  | d :: ds => match drop_final_zeros ds with [] => if is_char "0" d then [] else [d] | ds' => d :: ds' end
  end.

(** The place of the point of num / den, below one. *)
Fixpoint point_below (fuel : nat) (num den : Z) (n : Z) : Z :=
  match fuel with
  | O => n
  | S fuel => if (den <=? num * 10)%Z then n else point_below fuel (num * 10) den (n - 1)
  end.
Definition point_of (num den : Z) : Z :=
  if (den <=? num)%Z then Z.of_nat (String.length (pretty (Z.to_N (num / den)))) else point_below 400 num den 0.

(** [num / den] to [k] digits, the nearer value first. *)
Definition candidates (num den : Z) (k : nat) : list (list ascii) :=
  let n := point_of num den in
  let p := (n - Z.of_nat k)%Z in
  let num' := if (0 <=? p)%Z then num else (num * 10 ^ (- p))%Z in
  let den' := if (0 <=? p)%Z then (den * 10 ^ p)%Z else den in
  let f := (num' / den')%Z in
  let text (s : Z) :=
    let ds := chars (pretty (Z.to_N s)) in
    format_decimal (drop_final_zeros ds) (p + Z.of_nat (length ds)) in
  if (2 * (num' mod den') <? den')%Z then [text f; text (f + 1)%Z] else [text (f + 1)%Z; text f].

(** The first candidate that reads back as [x], with as few digits as can be; 17
    digits identify every binary64 number. *)
Definition shortest (x : spec_float) (num den : Z) : list ascii :=
  default (default [] (head (candidates num den 17)))
    (find_first (λ t, bool_decide (parse_number t = Some x))
       (k ← seq 1 17; candidates num den k)).

Definition positive_chars (m : positive) (e : Z) : list ascii :=
  match num_to_Z (S754_finite false m e) with
  | Some z => if (z <? 2 ^ 53)%Z then chars (pretty (Z.to_N z))
              else shortest (S754_finite false m e) z 1
  | None => shortest (S754_finite false m e) (Zpos m) (2 ^ (- e))
  end.

Definition number_chars (x : spec_float) : list ascii :=
  match x with
  | S754_zero _ => ["0"%char]
  | S754_finite s m e => if s then "-"%char :: positive_chars m e else positive_chars m e
  | _ => chars "null"
  end.

(** ** Values *)

(** The texts of the items or members, with commas between them. *)
Fixpoint join_chars (ls : list (list ascii)) : list ascii :=
  match ls with [] => [] | [l] => l | l :: ls => l ++ ","%char :: join_chars ls end.

Fixpoint json_chars (v : json) : list ascii :=
  match v with
  | JNull => chars "null"
  | JBool true => chars "true"
  | JBool false => chars "false"
  | JNum x => number_chars x
  | JStr s => quote_chars s
  | JArr l => "["%char :: join_chars (map json_chars l) ++ ["]"%char]
  | JObj f => "{"%char :: join_chars (map (λ kv, quote_chars kv.1 ++ ":"%char :: json_chars kv.2) f) ++ ["}"%char]
  end.

Definition JSON_stringify (v : json) : string := String.string_of_list_ascii (json_chars v).

Example stringify_numbers :
  map (λ t, match JSON_parse t with Some v => JSON_stringify v | None => "?" end)
    ["120"; "-0"; "1.50"; "1e21"; "123456789012345678901234"; "0.000001"; "1e-7"; "0.1"; "-2.5e-9"; "9007199254740993"; "5e-324"; "1.7976931348623157e308"] =
  ["120"; "0"; "1.5"; "1e+21"; "1.2345678901234569e+23"; "0.000001"; "1e-7"; "0.1"; "-2.5e-9"; "9007199254740992"; "5e-324"; "1.7976931348623157e+308"].
Proof. vm_compute. reflexivity. Qed.

(** ** Values whose text reads back *)

(** Its text is a number's, and reads back as the number. *)
Definition readable (x : spec_float) : bool :=
  bool_decide (parse_number (number_chars x) = Some x) &&
  match number_chars x with
  | [] => false
  | a :: l => (is_digit a || is_char "-" a) && forallb is_number_char l
  end.

(** No object has a field twice, and the numbers are finite and not -0. *)
Fixpoint plain (v : json) : bool :=
  match v with
  | JNum x => readable x
  | JArr l => forallb plain l
  | JObj f => bool_decide (NoDup f.*1) && forallb (λ kv, plain kv.2) f
  | _ => true
  end.

(** Induction over the values inside arrays and objects. *)
Lemma json_nested_ind (P : json → Prop) :
  P JNull → (∀ b, P (JBool b)) → (∀ x, P (JNum x)) → (∀ s, P (JStr s)) →
  (∀ l, Forall P l → P (JArr l)) → (∀ f, Forall (λ kv, P kv.2) f → P (JObj f)) → ∀ v, P v.
Proof.
  intros H1 H2 H3 H4 H5 H6. fix IH 1. intros [|b|x|s|l|f].
  - exact H1.
  - apply H2.
  - apply H3.
  - apply H4.
  - apply H5. induction l as [|v l IHl]; constructor; [apply IH|exact IHl].
  - apply H6. induction f as [|[k v] f IHf]; constructor; [apply IH|exact IHf].
Qed.

(** ** The parser on the text of a value *)

Lemma number_char_start a mc stk : is_digit a || is_char "-" a = true →
  start_value a mc stk = Some (PState (MNum [a]) stk).
Proof. destruct a as [[] [] [] [] [] [] [] []]; try discriminate; reflexivity. Qed.

Lemma prun_number_chars ds l acc stk : forallb is_number_char ds = true →
  prun (ds ++ l) (PState (MNum acc) stk) = prun l (PState (MNum (rev ds ++ acc)) stk).
Proof.
  revert acc. induction ds as [|a ds IH]; intros acc; simpl; [done|]. intros [Ha Hds]%andb_true_iff.
  unfold pstep. cbn [p_mode p_stack]. rewrite Ha. cbn. rewrite IH by done. by rewrite <- app_assoc.
Qed.

Lemma completed_emit v c stk : pstep (emit v stk) c = step_completed c (emit v stk).
Proof. by destruct stk as [|[]]. Qed.

Lemma prun_number x c l mc stk : readable x = true → is_number_char c = false →
  prun (number_chars x ++ c :: l) (PState (MValue mc) stk) = prun (c :: l) (emit (JNum x) stk).
Proof.
  unfold readable. intros [Hp%bool_decide_eq_true Hs]%andb_true_iff Hc.
  destruct (number_chars x) as [|a ds]; [done|]. apply andb_true_iff in Hs as [Ha Hds].
  cbn [app prun]. unfold pstep at 1. cbn [p_mode p_stack]. rewrite number_char_start by done.
  rewrite prun_number_chars by done. cbn [prun]. unfold pstep at 1. cbn [p_mode p_stack]. rewrite Hc.
  unfold finish_number. rewrite rev_app_distr, rev_involutive. simpl ([a] ++ ds) in *.
  change (rev [a] ++ ds) with (a :: ds). rewrite Hp. by rewrite completed_emit.
Qed.

Lemma prun_string s l mc stk :
  prun (quote_chars s ++ l) (PState (MValue mc) stk) = prun l (emit (JStr s) stk).
Proof.
  unfold quote_chars. simpl. rewrite <- app_assoc, prun_escapes. simpl. unfold finish_string. by rewrite chars_rev_rev.
Qed.

(** What the parser does on the text of [v]. *)
Definition reads (v : json) : Prop := ∀ c l mc stk, is_number_char c = false →
  prun (json_chars v ++ c :: l) (PState (MValue mc) stk) = prun (c :: l) (emit v stk).

Lemma prun_items vs : Forall reads vs → ∀ l acc stk, vs ≠ [] →
  prun (join_chars (map json_chars vs) ++ "]"%char :: l) (PState (MValue (bool_decide (acc = []))) (FArr acc :: stk)) =
  prun l (emit (JArr (rev acc ++ vs)) stk).
Proof.
  induction 1 as [|v vs Hv Hvs IH]; intros l acc stk Hne; [done|].
  destruct (decide (vs = [])) as [->|Hvs'].
  - cbn [map join_chars]. rewrite Hv by done. simpl. by destruct stk as [|[]].
  - change (join_chars (map json_chars (v :: vs))) with
      (match map json_chars vs with [] => json_chars v | _ => json_chars v ++ ","%char :: join_chars (map json_chars vs) end).
    destruct (map json_chars vs) as [|x xs] eqn:E; [by destruct vs|]. rewrite <- E in *.
    rewrite <- app_assoc, <- app_comm_cons, Hv by done. cbn [prun].
    change (pstep (emit v (FArr acc :: stk)) ","%char) with (Some (PState (MValue (bool_decide (v :: acc = []))) (FArr (v :: acc) :: stk))).
    cbv iota. rewrite IH by done. simpl. by rewrite <- app_assoc.
Qed.

Lemma prun_member_value k v c l fields mc stk : reads v → is_number_char c = false →
  prun ((quote_chars k ++ ":"%char :: json_chars v) ++ c :: l) (PState (MKey fields mc) stk) =
  prun (c :: l) (PState MAfter (FObj (jm_set k v fields) k :: stk)).
Proof.
  intros Hv Hc. rewrite <- app_assoc, prun_key, <- app_comm_cons.
  change (prun (":"%char :: ?x) (PState (MColon fields k) stk)) with (prun x (PState (MValue false) (FObj fields k :: stk))).
  by rewrite Hv.
Qed.

Definition member_text (kv : string * json) : list ascii := quote_chars kv.1 ++ ":"%char :: json_chars kv.2.

Lemma prun_members f : Forall (λ kv, reads kv.2) f → ∀ l fields mc stk, f ≠ [] → NoDup (fields.*1 ++ f.*1) →
  prun (join_chars (map member_text f) ++ "}"%char :: l) (PState (MKey fields mc) stk) =
  prun l (emit (JObj (fields ++ f)) stk).
Proof.
  induction 1 as [|[k v] f Hv Hf IH]; intros l fields mc stk Hne Hnd; [done|]. simpl in Hv.
  assert (k ∉ jm_keys fields) as Hk.
  { apply NoDup_app in Hnd as (_ & Hd & _). intros Hin. apply (Hd k Hin). csimpl. set_solver. }
  destruct (decide (f = [])) as [->|Hf'].
  - cbn [map join_chars]. unfold member_text. cbn [fst snd]. rewrite prun_member_value by done.
    rewrite jm_set_app by done. simpl. by destruct stk as [|[]].
  - change (join_chars (map member_text ((k, v) :: f))) with
      (match map member_text f with [] => member_text (k, v) | _ => member_text (k, v) ++ ","%char :: join_chars (map member_text f) end).
    destruct (map member_text f) as [|x xs] eqn:E; [by destruct f|]. rewrite <- E in *.
    rewrite <- app_assoc, <- app_comm_cons. unfold member_text at 1. cbn [fst snd]. rewrite prun_member_value by done.
    change (prun (","%char :: ?x) (PState MAfter (FObj ?g k :: stk))) with (prun x (PState (MKey g false) stk)).
    rewrite jm_set_app by done. rewrite IH; [by rewrite <- app_assoc|done|].
    rewrite fmap_app, <- app_assoc. done.
Qed.

Definition is_num (v : json) : bool := match v with JNum _ => true | _ => false end.

(** The text of a value that is not a number says itself where it ends. *)
Definition reads_closed (v : json) : Prop := ∀ l mc stk,
  prun (json_chars v ++ l) (PState (MValue mc) stk) = prun l (emit v stk).

Lemma prun_array l : Forall reads l → reads_closed (JArr l).
Proof.
  intros Hl t mc stk. simpl json_chars. rewrite <- app_comm_cons, <- app_assoc.
  change (prun ("["%char :: ?x) (PState (MValue mc) stk)) with (prun x (PState (MValue true) (FArr [] :: stk))).
  destruct (decide (l = [])) as [->|Hne]; [done|]. exact (prun_items l Hl t [] stk Hne).
Qed.

Lemma prun_object f : Forall (λ kv, reads kv.2) f → NoDup f.*1 → reads_closed (JObj f).
Proof.
  intros Hf Hnd t mc stk. simpl json_chars. rewrite <- app_comm_cons, <- app_assoc.
  change (prun ("{"%char :: ?x) (PState (MValue mc) stk)) with (prun x (PState (MKey [] true) stk)).
  destruct (decide (f = [])) as [->|Hne]; [done|]. exact (prun_members f Hf t [] true stk Hne Hnd).
Qed.

Lemma prun_json v : plain v = true → reads v ∧ (is_num v = false → reads_closed v).
Proof.
  assert (∀ w, reads_closed w → reads w) as Hw by (intros w Hw c l mc stk _; apply Hw).
  induction v as [|b|x|s|l IH|f IH] using json_nested_ind; intros Hp.
  - assert (reads_closed JNull) by done. auto.
  - assert (reads_closed (JBool b)) by (intros ???; by destruct b). auto.
  - split; [|done]. intros c k mc stk Hc. by apply prun_number.
  - assert (reads_closed (JStr s)) by (intros ???; apply prun_string). auto.
  - simpl in Hp. assert (reads_closed (JArr l)); [|by auto]. apply prun_array, Forall_forall. intros v Hv.
    rewrite Forall_forall in IH. rewrite forallb_elem_of in Hp. by apply IH, Hp.
  - simpl in Hp. apply andb_true_iff in Hp as [Hnd%bool_decide_eq_true Hp].
    assert (reads_closed (JObj f)); [|by auto]. apply prun_object; [|done]. apply Forall_forall. intros kv Hv.
    rewrite Forall_forall in IH. rewrite forallb_elem_of in Hp. by apply IH, Hp.
Qed.

(** A text followed by a blank. *)
Lemma prun_json_end v : plain v = true → prun (json_chars v ++ [" "%char]) (PState (MValue false) []) = Some (PState (MDone v) []).
Proof. intros Hp. by rewrite (proj1 (prun_json v Hp) " "%char []). Qed.

Lemma json_chars_inj a b : plain a = true → plain b = true → json_chars a = json_chars b → a = b.
Proof.
  intros Ha%prun_json_end Hb%prun_json_end E. rewrite E in Ha. rewrite Ha in Hb. by injection Hb.
Qed.

Lemma stringify_inj a b : plain a = true → plain b = true → JSON_stringify a = JSON_stringify b → a = b.
Proof.
  intros Ha Hb E. apply json_chars_inj; [done..|]. apply (f_equal String.list_ascii_of_string) in E.
  unfold JSON_stringify in E. by rewrite !String.list_ascii_of_string_of_list_ascii in E.
Qed.

(** [JSON.parse(JSON.stringify(v))] is [v] again. *)
Lemma parse_json v : plain v = true → is_num v = false → JSON_parse (JSON_stringify v) = Some v.
Proof.
  intros Hp Hn. pose proof (proj2 (prun_json v Hp) Hn [] false []) as H. rewrite app_nil_r in H.
  unfold JSON_parse, JSON_stringify. by rewrite String.list_ascii_of_string_of_list_ascii, H.
Qed.

(** ** Integers *)

Lemma readable_digits d ds x : number_chars x = d :: ds → Forall (λ a, is_digit a = true) (d :: ds) →
  parse_number (d :: ds) = Some x → readable x = true.
Proof.
  intros E F Hp. unfold readable. rewrite E, bool_decide_eq_true_2 by done. inversion F as [|?? Hd Hds]; subst.
  rewrite Hd. simpl. apply forallb_elem_of. intros a Ha. rewrite Forall_forall in Hds. unfold is_number_char.
  by rewrite (Hds a Ha).
Qed.

Lemma number_chars_safe n : safe (Zpos n) → number_chars (num_of_Z (Zpos n)) = chars (pretty (Npos n)).
Proof.
  intros Hs. pose proof (num_safe _ Hs) as Hz. destruct (num_of_Z (Zpos n)) as [b|b| |b m e]; simpl in Hz; try done.
  destruct b.
  { exfalso. assert (0 ≤ Zpos m * 2 ^ e)%Z by (apply Z.mul_nonneg_nonneg; [lia|by apply Z.pow_nonneg]).
    assert (0 ≤ Zpos m / 2 ^ (- e))%Z by (destruct (Z.le_gt_cases 0 (- e));
      [apply Z.div_pos; [lia|by apply Z.pow_pos_nonneg]|rewrite Z.pow_neg_r by done; by destruct m]).
    repeat case_match; simplify_eq; lia. }
  unfold number_chars, positive_chars, num_to_Z. rewrite Hz.
  unfold safe in Hs. rewrite (proj2 (Z.ltb_lt _ _)) by lia. done.
Qed.

(** The integers below 2^53 that are not negative. *)
Lemma readable_safe z : (0 ≤ z < 2 ^ 53)%Z → readable (num_of_Z z) = true.
Proof.
  intros Hz. destruct z as [|n|n]; [by vm_compute| |lia]. assert (safe (Zpos n)) as Hs by (unfold safe; lia).
  destruct (pretty_chars n) as (d & ds & E & F & G1 & G2 & V).
  apply (readable_digits d ds); [by rewrite number_chars_safe|done|].
  apply (parse_number_digits d ds n); try done. rewrite <- E.
  pose proof (short_safe n Hs) as Hl. unfold short_number in Hl.
  assert (length (chars (pretty (Npos n))) = String.length (pretty (Npos n))) as ->; [|done].
  clear. induction (pretty (Npos n)); simpl; congruence.
Qed.
