(* ===== verification/JsNumber.v ===== *)
(** * Comparing and adding JavaScript numbers

    Numbers received as JSON are binary64 values (Json.v).  [num_lt], [num_eq] and
    [num_add] are JavaScript's <, === and +.  The lemmas give the order of the numbers
    that are not NaN, which JSON cannot write. *)

From S2P Require Import Prelude Json.
From stdpp Require Import prelude.
From Stdlib Require Import ZArith Lia Floats.SpecFloat.

Definition num_lt (x y : spec_float) : bool := SFltb x y.
Definition num_eq (x y : spec_float) : bool := SFeqb x y.
Definition num_add (x y : spec_float) : spec_float := SFadd prec64 emax64 x y.

(** A place on a line: sign, exponent and mantissa. *)
Definition num_place (x : spec_float) : Z * Z * Z :=
  match x with
  | S754_infinity true => (-2, 0, 0)
  | S754_finite true m e => (-1, - e, Zneg m)
  | S754_zero _ | S754_nan => (0, 0, 0)
  | S754_finite false m e => (1, e, Zpos m)
  | S754_infinity false => (2, 0, 0)
  end%Z.

Definition is_nan (x : spec_float) : bool := match x with S754_nan => true | _ => false end.

Definition place_lt (p q : Z * Z * Z) : Prop :=
  let '(a, b, c) := p in let '(a', b', c') := q in (a < a' ∨ a = a' ∧ (b < b' ∨ b = b' ∧ c < c'))%Z.

Lemma compare_places x y : is_nan x = false → is_nan y = false →
  match SFcompare x y with
  | Some Lt => place_lt (num_place x) (num_place y)
  | Some Eq => num_place x = num_place y
  | Some Gt => place_lt (num_place y) (num_place x)
  | None => False
  end.
Proof.
  destruct x as [[]|[]| |[] m e], y as [[]|[]| |[] m' e']; intros Hx Hy; try done; simpl; try lia.
  all: destruct (Z.compare_spec e e'); simpl; try lia; subst.
  all: rewrite Pos.compare_cont_spec; simpl; destruct (Pos.compare_spec m m'); subst; simpl; try lia; try done.
Qed.

Lemma num_lt_place x y : is_nan x = false → is_nan y = false → num_lt x y = true ↔ place_lt (num_place x) (num_place y).
Proof.
  intros Hx Hy. pose proof (compare_places x y Hx Hy) as H. unfold num_lt, SFltb.
  destruct (SFcompare x y) as [[]|]; try done; split; try done; intros; exfalso;
    destruct (num_place x) as [[??]?], (num_place y) as [[??]?]; simplify_eq; unfold place_lt in *; lia.
Qed.

Lemma num_eq_place x y : is_nan x = false → is_nan y = false → num_eq x y = true ↔ num_place x = num_place y.
Proof.
  intros Hx Hy. pose proof (compare_places x y Hx Hy) as H. unfold num_eq, SFeqb.
  destruct (SFcompare x y) as [[]|]; try done; split; try done; intros; exfalso;
    destruct (num_place x) as [[??]?], (num_place y) as [[??]?]; simplify_eq; unfold place_lt in *; lia.
Qed.

Lemma num_lt_irrefl x : num_lt x x = false.
Proof.
  destruct (is_nan x) eqn:Hx; [by destruct x|]. apply not_true_is_false. rewrite num_lt_place by done.
  destruct (num_place x) as [[??]?]. unfold place_lt. lia.
Qed.

Lemma num_eq_refl x : is_nan x = false → num_eq x x = true.
Proof. intros. by apply num_eq_place. Qed.

Lemma num_lt_trans x y z : is_nan x = false → is_nan y = false → is_nan z = false →
  num_lt x y = true → num_lt y z = true → num_lt x z = true.
Proof.
  intros Hx Hy Hz. rewrite !num_lt_place by done.
  destruct (num_place x) as [[??]?], (num_place y) as [[??]?], (num_place z) as [[??]?]. unfold place_lt. lia.
Qed.

Lemma num_trichotomy x y : is_nan x = false → is_nan y = false →
  num_lt x y = true ∨ num_eq x y = true ∨ num_lt y x = true.
Proof.
  intros Hx Hy. rewrite !num_lt_place, num_eq_place by done.
  destruct (num_place x) as [[??]?], (num_place y) as [[??]?]. unfold place_lt.
  assert (∀ a b c d e f : Z, (a, b, c) = (d, e, f) ↔ a = d ∧ b = e ∧ c = f) as -> by naive_solver. lia.
Qed.

Lemma num_lt_eq x y z : is_nan x = false → is_nan y = false → is_nan z = false →
  num_eq x y = true → num_lt x z = num_lt y z ∧ num_lt z x = num_lt z y ∧ num_eq x z = num_eq y z ∧ num_eq z x = num_eq z y.
Proof.
  intros Hx Hy Hz E. apply num_eq_place in E; [|done..].
  repeat split; apply eq_true_iff_eq; rewrite ?num_lt_place, ?num_eq_place, ?E; done.
Qed.

Lemma place_lt_irrefl p : ¬ place_lt p p.
Proof. destruct p as [[??]?]. unfold place_lt. lia. Qed.
Lemma place_lt_trans p q r : place_lt p q → place_lt q r → place_lt p r.
Proof. destruct p as [[??]?], q as [[??]?], r as [[??]?]. unfold place_lt. lia. Qed.
Lemma place_total p q : place_lt p q ∨ p = q ∨ place_lt q p.
Proof.
  destruct p as [[a b] c], q as [[a' b'] c']. unfold place_lt.
  destruct (decide (a = a')), (decide (b = b')), (decide (c = c')); subst; try lia. auto.
Qed.

(** Decides goals about the order of numbers whose places are in the context. *)
Ltac num_order :=
  repeat match goal with
  | H : num_lt _ _ = true |- _ => apply num_lt_place in H; [|done..]
  | H : num_eq _ _ = true |- _ => apply num_eq_place in H; [|done..]
  | H : num_lt _ _ = false |- _ => apply not_true_iff_false in H; rewrite num_lt_place in H by done
  | H : num_eq _ _ = false |- _ => apply not_true_iff_false in H; rewrite num_eq_place in H by done
  | |- num_lt _ _ = true => apply num_lt_place; [done..|]
  | |- num_eq _ _ = true => apply num_eq_place; [done..|]
  | |- num_lt _ _ = false => apply not_true_iff_false; rewrite num_lt_place by done; intros ?
  | |- num_eq _ _ = false => apply not_true_iff_false; rewrite num_eq_place by done; intros ?
  end.

Lemma num_below p e z : is_nan p = false → is_nan e = false → is_nan z = false →
  num_lt p z = false → num_lt e p = false → num_eq z e = false → num_lt z e = true.
Proof.
  intros. num_order. destruct (place_total (num_place z) (num_place e)) as [|[|H5]]; [done|done|exfalso].
  destruct (place_total (num_place z) (num_place p)) as [H6|[H6|H6]]; [|congruence|done].
  by eapply H3, place_lt_trans.
Qed.

Lemma num_above p e z : is_nan p = false → is_nan e = false → is_nan z = false →
  num_lt p z = false → num_lt e p = false → num_lt e z = false.
Proof.
  intros. num_order. destruct (place_total (num_place z) (num_place p)) as [H6|[H6|H6]]; [|congruence|done].
  by eapply H3, place_lt_trans.
Qed.
