(* ===== verification/CanonicalJson.v ===== *)
(** * Canonical JSON (packages/daemon/src/security/epoch-protocol.ts)

    Fingerprints and signatures are computed over [canonicalJson], the JSON text of a
    value whose objects have had their fields put in order.  [canonical_text_iff] states
    what the texts identify: two plain values have one text exactly when they are the same
    value up to the order of fields ([same]).

    A record is the list of an object's own fields in the order it enumerates them:
    array indices come first, by number, and then the other names as they were added
    ([own_order]).  [Array.prototype.sort] compares names by their UTF-16 units. *)

From S2P Require Import Prelude JsString JsMap Json JsonText JsonStringify.
From stdpp Require Import prelude strings list sorting pretty.
From Stdlib Require Import ZArith Lia Ascii Floats.SpecFloat.

(** ** The order of names *)

(** Comparing the UTF-16 units of two texts is comparing their UTF-8 bytes, but that
    the units of a character beyond U+FFFF (first byte 240 or more) come before those
    of U+E000 to U+FFFF (first byte 238 or 239). *)
Definition unit_rank (a : ascii) : nat := let n := code a in if (n =? 238) || (n =? 239) then n + 256 else n.

Fixpoint ranks_le (a b : list nat) : bool :=
  match a, b with
  | [], _ => true
  | _ :: _, [] => false
  | x :: a, y :: b => (x <? y) || ((x =? y) && ranks_le a b)
  end.

Definition name_le (a b : string) : Prop :=
  ranks_le (map unit_rank (chars a)) (map unit_rank (chars b)) = true.
#[export] Instance name_le_dec a b : Decision (name_le a b).
Proof. unfold name_le. apply _. Defined.

(** The number a name is, if it is an array index. *)
Definition array_index (k : string) : option N :=
  match chars k with
  | [] => None
  | a :: l =>
      let n := digits_value (a :: l) in
      if forallb is_digit (a :: l) && (negb (is_char "0" a) || bool_decide (l = [])) && (n <? 4294967295)%N
      then Some n else None
  end.

Definition index_le (a b : string * json) : Prop :=
  (default 0 (array_index a.1) <= default 0 (array_index b.1))%N.
#[export] Instance index_le_dec a b : Decision (index_le a b).
Proof. unfold index_le. apply _. Defined.

Definition is_index (kv : string * json) : bool := bool_decide (is_Some (array_index kv.1)).

(** The order in which an object with these fields, added one after the other,
    enumerates them. *)
Definition own_order (f : record) : record :=
  merge_sort index_le (List.filter is_index f) ++ List.filter (λ kv, negb (is_index kv)) f.

Definition field_le (a b : string * json) : Prop := name_le a.1 b.1.
#[export] Instance field_le_dec a b : Decision (field_le a b).
Proof. unfold field_le. apply _. Defined.

(** [Object.keys(value).sort()], each name with its value. *)
Definition sorted_fields (f : record) : record := merge_sort field_le f.

(** Assigning to a field called __proto__ sets the prototype of the object and adds no
    field to it. *)
Definition assignable (k : string) (_ : json) : bool := negb (String.eqb k "__proto__").

Definition canonical_fields (f : record) : record := own_order (jm_filter assignable (sorted_fields f)).

Fixpoint canonicalize (v : json) : json :=
  match v with
  | JArr l => JArr (map canonicalize l)
  | JObj f => JObj (canonical_fields (map (λ kv, (kv.1, canonicalize kv.2)) f))
  | _ => v
  end.

Definition canonicalJson (v : json) : string := JSON_stringify (canonicalize v).

Example canonical_example :
  option_map canonicalJson (JSON_parse (quoted "{'b':1,'a':[{'z':null,'y':true}],'10':2,'9':0.50,'__proto__':{'x':1}}")) =
  Some (quoted "{'9':0.5,'10':2,'a':[{'y':true,'z':null}],'b':1}").
Proof. vm_compute. reflexivity. Qed.

(** Two values that differ only in the order of fields, and in what fields named
    __proto__ hold. *)
Inductive same : json → json → Prop :=
| same_null : same JNull JNull
| same_bool b : same (JBool b) (JBool b)
| same_num x : same (JNum x) (JNum x)
| same_str s : same (JStr s) (JStr s)
| same_arr l l' : Forall2 same l l' → same (JArr l) (JArr l')
| same_obj f f' : (∀ k, k ≠ "__proto__" → option_Forall2 same (field f k) (field f' k)) → same (JObj f) (JObj f').

(** ** Sorting *)

Lemma ranks_le_total a b : ranks_le a b = true ∨ ranks_le b a = true.
Proof.
  revert b. induction a as [|x a IH]; intros [|y b]; simpl; auto.
  destruct (Nat.lt_trichotomy x y) as [H|[->|H]].
  - left. by rewrite (proj2 (Nat.ltb_lt _ _)).
  - rewrite Nat.eqb_refl. destruct (IH b) as [-> | ->]; rewrite orb_true_r; auto.
  - right. by rewrite (proj2 (Nat.ltb_lt _ _)).
Qed.

Lemma ranks_le_antisymm a b : ranks_le a b = true → ranks_le b a = true → a = b.
Proof.
  revert b. induction a as [|x a IH]; intros [|y b]; simpl; try done.
  rewrite !orb_true_iff, !andb_true_iff, !Nat.ltb_lt, !Nat.eqb_eq.
  intros [?|[-> Ha]] [?|[? Hb]]; try lia. f_equal. by apply IH.
Qed.

Lemma ranks_le_trans a b c : ranks_le a b = true → ranks_le b c = true → ranks_le a c = true.
Proof.
  revert b c. induction a as [|x a IH]; intros [|y b] [|z c]; simpl; try done.
  rewrite !orb_true_iff, !andb_true_iff, !Nat.ltb_lt, !Nat.eqb_eq.
  intros [?|[-> Ha]] [?|[-> Hb]]; [left; lia..|]. right. split; [done|]. by eapply IH.
Qed.

Lemma unit_rank_inj a b : unit_rank a = unit_rank b → a = b.
Proof.
  unfold unit_rank. intros H. rewrite <- (ascii_nat_embedding a), <- (ascii_nat_embedding b). f_equal.
  fold (code a) (code b).
  pose proof (nat_ascii_bounded a). pose proof (nat_ascii_bounded b). unfold code in *.
  repeat case_match; rewrite ?orb_true_iff, ?orb_false_iff, ?Nat.eqb_eq, ?Nat.eqb_neq in *; lia.
Qed.

#[export] Instance field_le_total : Total field_le.
Proof. intros a b. apply ranks_le_total. Qed.
#[export] Instance field_le_trans : Transitive field_le.
Proof. intros a b c. apply ranks_le_trans. Qed.
#[export] Instance index_le_total : Total index_le.
Proof. intros a b. unfold index_le. lia. Qed.
#[export] Instance index_le_trans : Transitive index_le.
Proof. intros a b c. unfold index_le. lia. Qed.

Lemma name_le_antisymm a b : name_le a b → name_le b a → a = b.
Proof.
  intros Ha Hb. pose proof (ranks_le_antisymm _ _ Ha Hb) as E.
  rewrite <- (String.string_of_list_ascii_of_string a), <- (String.string_of_list_ascii_of_string b). f_equal.
  revert E. generalize (chars a), (chars b). induction l as [|x l IH]; intros [|y l']; simpl; try done.
  intros [=E1%unit_rank_inj E2]. subst. f_equal. by apply IH.
Qed.

Lemma StronglySorted_filter {A} (R : relation A) p (l : list A) :
  StronglySorted R l → StronglySorted R (List.filter p l).
Proof.
  induction 1 as [|x l _ IH Hx]; simpl; [constructor|]. destruct (p x); [|done]. constructor; [done|].
  rewrite Forall_forall in Hx |- *. intros y Hy. apply list_elem_of_In, filter_In in Hy as [Hy _].
  by apply Hx, list_elem_of_In.
Qed.

Lemma Permutation_filter_bool {A} p (l l' : list A) : l ≡ₚ l' → List.filter p l ≡ₚ List.filter p l'.
Proof.
  induction 1 as [|x l l' _ IH|x y l|l1 l2 l3 _ IH1 _ IH2]; simpl.
  - done.
  - destruct (p x); [by rewrite IH|done].
  - destruct (p x), (p y); try done. apply perm_swap.
  - by rewrite IH1.
Qed.

Lemma own_order_Permutation f : own_order f ≡ₚ f.
Proof.
  unfold own_order. rewrite merge_sort_Permutation. induction f as [|kv f IH]; simpl; [done|].
  destruct (is_index kv); simpl; [by rewrite IH|]. by rewrite <- Permutation_middle, IH.
Qed.

Lemma canonical_fields_Permutation f : canonical_fields f ≡ₚ jm_filter assignable f.
Proof.
  unfold canonical_fields. rewrite own_order_Permutation.
  apply Permutation_filter_bool. unfold sorted_fields. apply merge_sort_Permutation.
Qed.

(** ** The fields of the canonical object *)

Lemma canonical_NoDup f : NoDup f.*1 → NoDup (canonical_fields f).*1.
Proof. intros Hf. rewrite canonical_fields_Permutation. by apply (NoDup_keys_filter assignable f). Qed.

Lemma elem_of_field f k v : NoDup f.*1 → (k, v) ∈ f ↔ field f k = Some v.
Proof. intros Hf. split; [by apply jm_elem_get|apply jm_get_elem]. Qed.

Lemma canonical_field f k : NoDup f.*1 → k ≠ "__proto__" → field (canonical_fields f) k = field f k.
Proof.
  intros Hf Hk. apply option_eq. intros v. rewrite <- !elem_of_field by (try apply canonical_NoDup; done).
  rewrite canonical_fields_Permutation, !elem_of_field by (try apply (NoDup_keys_filter assignable f); done).
  unfold field. rewrite jm_get_filter by done. destruct (jm_get k f) as [w|]; [|done].
  unfold assignable. by rewrite (proj2 (String.eqb_neq _ _)).
Qed.

(** The canonical fields do not depend on the order of the fields. *)
Lemma canonical_unique f g : NoDup f.*1 → NoDup g.*1 → (∀ k, k ≠ "__proto__" → field f k = field g k) →
  canonical_fields f = canonical_fields g.
Proof.
  intros Hf Hg Hfg. unfold canonical_fields. f_equal.
  assert (∀ h, jm_filter assignable (sorted_fields h) ≡ₚ jm_filter assignable h) as Hs.
  { intros h. apply Permutation_filter_bool, merge_sort_Permutation. }
  assert (jm_filter assignable f ≡ₚ jm_filter assignable g) as Hp.
  { apply NoDup_Permutation; [apply (NoDup_fmap_1 fst), NoDup_keys_filter; done..|]. intros [k v].
    rewrite !elem_of_field by (apply NoDup_keys_filter; done). unfold field. rewrite !jm_get_filter by done.
    unfold assignable. destruct (String.eqb_spec k "__proto__") as [->|Hk]; simpl; [by repeat case_match|].
    specialize (Hfg k Hk). unfold field in Hfg. by rewrite Hfg. }
  apply (StronglySorted_unique_strong field_le);
    [|apply StronglySorted_filter, StronglySorted_merge_sort; apply _..|by rewrite !Hs].
  intros [k v] [k' v'] H1 H2 L1 L2. rewrite Hs, elem_of_field in H1 by (apply NoDup_keys_filter; done).
  rewrite Hs, <- Hp, elem_of_field in H2 by (apply NoDup_keys_filter; done).
  assert (k = k') as <- by by apply name_le_antisymm. congruence.
Qed.

Definition canonical_members (f : record) : record := map (λ kv, (kv.1, canonicalize kv.2)) f.

Lemma canonical_members_field f k : field (canonical_members f) k = canonicalize <$> field f k.
Proof. unfold field. induction f as [|[k' v] f IH]; csimpl; [done|]. by case_decide. Qed.

Lemma canonical_members_keys f : (canonical_members f).*1 = f.*1.
Proof. induction f as [|[k v] f IH]; csimpl; [done|]. by rewrite IH. Qed.

Lemma plain_object f : plain (JObj f) = true ↔ NoDup f.*1 ∧ ∀ k v, (k, v) ∈ f → plain v = true.
Proof.
  simpl. rewrite andb_true_iff, bool_decide_eq_true, forallb_elem_of. split; intros [H1 H2]; split; try done.
  - intros k v Hv. apply (H2 (k, v) Hv).
  - intros [k v] Hv. by eapply H2.
Qed.

Lemma plain_canonicalize v : plain v = true → plain (canonicalize v) = true.
Proof.
  induction v as [|b|x|s|l IH|f IH] using json_nested_ind; try done.
  - simpl. rewrite !forallb_elem_of. rewrite Forall_forall in IH. intros Hl w Hw.
    apply list_elem_of_fmap in Hw as (v & -> & Hv). by apply IH, Hl.
  - rewrite plain_object. intros [Hnd Hf]. cbn [canonicalize]. apply plain_object. fold (canonical_members f).
    split; [apply canonical_NoDup; by rewrite canonical_members_keys|]. intros k w Hw.
    rewrite canonical_fields_Permutation in Hw. apply list_elem_of_In, filter_In in Hw as [Hw _].
    apply list_elem_of_In, list_elem_of_fmap in Hw as ([k' v] & [= -> ->] & Hv). rewrite Forall_forall in IH.
    by apply (IH (k', v)); [|eapply Hf].
Qed.

(** ** What the canonical form identifies *)

Lemma same_canonical a : ∀ b, plain a = true → plain b = true → same a b → canonicalize a = canonicalize b.
Proof.
  induction a as [|b|x|s|l IH|f IH] using json_nested_ind; intros b' Ha Hb; inversion 1 as [| | | |l1 l2 Hl|f1 f2 Hf]; subst; try done.
  - cbn [canonicalize]. f_equal. simpl in Ha, Hb. revert IH Ha Hb. clear -Hl.
    induction Hl as [|v w l l' Hvw _ IHl]; intros IH Ha Hb; [done|]. inversion IH as [|?? Hv IHs]; subst. simpl in *.
    apply andb_true_iff in Ha as [Ha1 Ha2], Hb as [Hb1 Hb2]. f_equal; [by apply Hv|by apply IHl].
  - apply plain_object in Ha as [Hnf Hpf], Hb as [Hng Hpg]. cbn [canonicalize]. f_equal.
    fold (canonical_members f) (canonical_members f2).
    apply canonical_unique; [by rewrite canonical_members_keys..|]. intros k Hk.
    rewrite !canonical_members_field. specialize (Hf k Hk).
    destruct (field f k) as [v|] eqn:Ev, (field f2 k) as [w|] eqn:Ew; inversion Hf; subst; [|done].
    rewrite Forall_forall in IH. simpl. f_equal. apply elem_of_field in Ev, Ew; [|done..].
    apply (IH (k, v)); eauto.
Qed.

Lemma canonical_same a : ∀ b, plain a = true → plain b = true → canonicalize a = canonicalize b → same a b.
Proof.
  induction a as [|b|x|s|l IH|f IH] using json_nested_ind; intros [|b'|x'|s'|l'|g] Ha Hb E; try discriminate E.
  - constructor.
  - injection E as ->. constructor.
  - injection E as ->. constructor.
  - injection E as ->. constructor.
  - injection E as E. constructor. simpl in Ha, Hb. revert l' E Ha Hb.
    induction IH as [|v l Hv _ IHl]; intros [|w l'] [=] Ha Hb; constructor; simpl in *;
      apply andb_true_iff in Ha as [Ha1 Ha2], Hb as [Hb1 Hb2]; [by apply Hv|by apply IHl].
  - injection E as E. constructor. intros k Hk. apply plain_object in Ha as [Hnf Hpf], Hb as [Hng Hpg].
    fold (canonical_members f) in E. fold (canonical_members g) in E.
    assert (field (canonical_members f) k = field (canonical_members g) k) as Ek.
    { rewrite <- (canonical_field (canonical_members f) k), E, canonical_field;
        rewrite ?canonical_members_keys; done. }
    rewrite !canonical_members_field in Ek.
    destruct (field f k) as [v|] eqn:Ev, (field g k) as [w|] eqn:Ew; try discriminate Ek; constructor.
    injection Ek as Ek. apply elem_of_field in Ev, Ew; [|done..]. rewrite Forall_forall in IH. apply (IH (k, v)); eauto.
Qed.

(** The fields of the canonical form of an object. *)
Lemma canonicalize_field f : plain (JObj f) = true → ∃ g, canonicalize (JObj f) = JObj g ∧
  ∀ k, k ≠ "__proto__" → field g k = canonicalize <$> field f k.
Proof.
  intros [Hnd _]%plain_object. eexists. split; [done|]. intros k Hk. fold (canonical_members f).
  rewrite canonical_field by (rewrite ?canonical_members_keys; done). apply canonical_members_field.
Qed.

Lemma same_canonicalize v : plain v = true → same v (canonicalize v).
Proof.
  induction v as [|b|x|s|l IH|f IH] using json_nested_ind; intros Hp; try by constructor.
  - constructor. simpl in Hp. induction IH as [|v l Hv _ IHl]; simpl in *; [constructor|].
    apply andb_true_iff in Hp as [Hp1 Hp2]. constructor; [by apply Hv|by apply IHl].
  - destruct (canonicalize_field f Hp) as (g & -> & Hg). constructor. intros k Hk. rewrite Hg by done.
    apply plain_object in Hp as [Hnd Hp]. destruct (field f k) as [v|] eqn:E; constructor.
    apply elem_of_field in E; [|done]. rewrite Forall_forall in IH. apply (IH (k, v)); eauto.
Qed.

(** C34: Among plain values, canonical JSON identifies exactly those that are equal up to the
    order of the fields of their objects: two plain values have the same canonical text if
    and only if they are the same value in this sense, arrays, numbers and nested objects
    included.  A value is plain if no object in it names a field twice, and each number in
    it is finite, is not -0 and is read back from its decimal text.  Beyond plain values
    this fails: Infinity and null share a text, and so do -0 and 0.  What a field named
    __proto__ holds is in no text. *)
Theorem canonical_text_iff a b : plain a = true → plain b = true → canonicalJson a = canonicalJson b ↔ same a b.
Proof.
  intros Ha Hb. unfold canonicalJson. split.
  - intros E%stringify_inj; [|by apply plain_canonicalize..]. by apply canonical_same.
  - intros H. f_equal. by apply same_canonical.
Qed.

Example shared_texts :
  canonicalJson (JNum (S754_infinity false)) = canonicalJson JNull ∧
  canonicalJson (JNum (S754_zero true)) = canonicalJson (JNum (S754_zero false)).
Proof. split; vm_compute; reflexivity. Qed.

Lemma canonical_text_iff_witness :
  let a := JObj [("y", JNum (num_of_Z 1)); ("x", JArr [JNull; JObj [("k", JBool true); ("j", JStr "s")]])] in
  let b := JObj [("x", JArr [JNull; JObj [("j", JStr "s"); ("k", JBool true)]]); ("y", JNum (num_of_Z 1))] in
  a ≠ b ∧ same a b.
Proof.
  intros a b. split; [discriminate|].
  apply (proj1 (canonical_text_iff a b ltac:(vm_compute; reflexivity) ltac:(vm_compute; reflexivity))).
  vm_compute. reflexivity.
Defined.
