(* ===== verification/Frames.v ===== *)
(** * Frame validation (services/relay/src/relay-frame-validation.ts)

    The relay never decrypts: it classifies the JSON object a frame carries and
    routes it by class.  Each predicate of the file is a Boolean function of the
    parsed object; the theorems show that the classes a router distinguishes are
    disjoint and that an accepted frame always has a class. *)

From S2P Require Import Prelude JsString JsMap Json.
From stdpp Require Import prelude strings list.
From Stdlib Require Import ZArith Lia.

Definition FramePayload : Type := record.

(** [JSON.parse] followed by the object test; arrays, primitives and malformed
    texts give [null]. *)
Definition parseFramePayload (text : string) : option FramePayload :=
  match JSON_parse text with
  | Some (JObj fields) => Some fields
  | _ => None
  end.

Definition isNonEmptyString (value : option json) : bool := is_nonblank value.

Definition has_profile (frame : FramePayload) : bool :=
  is_str (field frame "profile") "noise-ik" || is_str (field frame "profile") "noise-ikpsk2".

Definition isE2eeEnvelope (frame : FramePayload) : bool :=
  is_str (field frame "type") "e2ee" &&
  is_int (field frame "version") 2 &&
  has_profile frame &&
  isNonEmptyString (field frame "sessionId") &&
  is_int_ge (field frame "epoch") 1 &&
  is_int_ge (field frame "seq") 1 &&
  isNonEmptyString (field frame "iv") &&
  isNonEmptyString (field frame "tag") &&
  isNonEmptyString (field frame "ciphertext").

(** The pairing peer a [noise-ikpsk2] handshake must name. *)
Definition psk_peer_ok (frame : FramePayload) : bool :=
  negb (is_str (field frame "profile") "noise-ikpsk2" &&
        negb (is_nonblank (field frame "pairingPeerId"))).

Definition isClientControlFrame (frame : FramePayload) : bool :=
  if is_str (field frame "type") "relay_key_exchange_init" &&
     is_int (field frame "version") 3 &&
     has_profile frame &&
     is_string (field frame "requestId") &&
     is_string (field frame "clientEphemeralPublicKey") &&
     is_string (field frame "encryptedClientStatic")
  then psk_peer_ok frame
  else if is_str (field frame "type") "relay_key_exchange_init" &&
     is_int (field frame "version") 2 &&
     has_profile frame &&
     is_string (field frame "requestId") &&
     is_string (field frame "clientPublicKey") &&
     is_string (field frame "clientNonce") &&
     is_string (field frame "clientProof")
  then psk_peer_ok frame
  else false.

Definition isDaemonControlFrame (frame : FramePayload) : bool :=
  if is_str (field frame "type") "relay_key_update_required" &&
     is_string (field frame "sessionId") &&
     is_number (field frame "nextEpoch")
  then true
  else if is_str (field frame "type") "relay_key_exchange_response" &&
     is_int (field frame "version") 3 &&
     has_profile frame &&
     is_string (field frame "requestId") &&
     is_string (field frame "daemonPublicKey") &&
     is_string (field frame "daemonEphemeralPublicKey") &&
     is_string (field frame "encryptedMetadata") &&
     is_string (field frame "sessionId") &&
     is_int_ge (field frame "epoch") 1 &&
     is_string (field frame "proof")
  then true
  else is_str (field frame "type") "relay_key_exchange_response" &&
     is_int (field frame "version") 2 &&
     has_profile frame &&
     is_string (field frame "requestId") &&
     is_string (field frame "daemonNonce") &&
     is_string (field frame "sessionId") &&
     is_number (field frame "epoch") &&
     is_string (field frame "proof").

Definition ttl_ok (v : option json) : bool :=
  match v with
  | None => true
  | Some (JNum _) => match as_int v with Some n => (30 <=? n)%Z && (n <=? 3600)%Z | None => false end
  | _ => false
  end.

Definition isPairingOfferRequestFrame (frame : FramePayload) : bool :=
  is_str (field frame "type") "relay_pairing_offer_request" &&
  is_nonblank (field frame "requestId") &&
  is_nonblank (field frame "clientChannelPublicKey") &&
  ttl_ok (field frame "ttlSeconds").

Definition isPairingRedeemRequestFrame (frame : FramePayload) : bool :=
  is_str (field frame "type") "relay_pairing_redeem_request" &&
  is_nonblank (field frame "requestId") &&
  is_nonblank (field frame "offerId") &&
  is_nonblank (field frame "encIv") &&
  is_nonblank (field frame "encTag") &&
  is_nonblank (field frame "encCiphertext").

Definition isPairingResponseFrame (frame : FramePayload) : bool :=
  let type := field frame "type" in
  if negb (is_str type "relay_pairing_offer_response") &&
     negb (is_str type "relay_pairing_redeem_response") then false
  else if negb (is_nonblank (field frame "requestId")) then false
  else match field frame "ok" with
       | Some (JBool false) => is_nonblank (field frame "errorCode")
       | Some (JBool true) =>
           if is_str type "relay_pairing_offer_response" then
             is_nonblank (field frame "daemonChannelPublicKey") &&
             is_nonblank (field frame "encIv") &&
             is_nonblank (field frame "encTag") &&
             is_nonblank (field frame "encCiphertext")
           else true
       | _ => false
       end.

(** [(frame['requestId'] as string).trim()] *)
Definition trimmed_field (frame : FramePayload) (key : string) : string :=
  trim (default "" (as_string (field frame key))).

Definition extractPairingRequestId (frame : FramePayload) : option string :=
  if isPairingOfferRequestFrame frame || isPairingRedeemRequestFrame frame then
    Some (trimmed_field frame "requestId")
  else if isPairingResponseFrame frame then
    Some (trimmed_field frame "requestId")
  else None.

Definition isPairingClientFrame (frame : FramePayload) : bool :=
  isPairingOfferRequestFrame frame || isPairingRedeemRequestFrame frame.

Definition isPairingDaemonFrame (frame : FramePayload) : bool := isPairingResponseFrame frame.

Definition isKeyExchangeInitFrame (frame : FramePayload) : bool :=
  isClientControlFrame frame && is_str (field frame "type") "relay_key_exchange_init".

Definition isKeyExchangeResponseFrame (frame : FramePayload) : bool :=
  isDaemonControlFrame frame && is_str (field frame "type") "relay_key_exchange_response".

Definition isKeyUpdateRequiredFrame (frame : FramePayload) : bool :=
  isDaemonControlFrame frame && is_str (field frame "type") "relay_key_update_required".

(** ** Session events *)

Definition channel_ok (frame : FramePayload) : bool :=
  isNonEmptyString (field frame "channel") &&
  match field frame "channel" with Some (JStr s) => startsWith s "agent-session:" | _ => false end.

Definition isSessionEventSubscribeFrame (frame : FramePayload) : bool :=
  is_str (field frame "type") "viewport.session_events.subscribe/v1" &&
  channel_ok frame &&
  (is_undefined (field frame "afterSequence") || is_int_ge (field frame "afterSequence") 0).

Definition isSessionEventUnsubscribeFrame (frame : FramePayload) : bool :=
  is_str (field frame "type") "viewport.session_events.unsubscribe/v1" &&
  channel_ok frame.

(** [typeof v === 'string' && v.length <= n] *)
Definition is_string_le (v : option json) (n : Z) : bool :=
  match v with Some (JStr s) => (js_length s <=? n)%Z | _ => false end.

Definition isSessionViewerPresenceFrame (frame : FramePayload) : bool :=
  is_str (field frame "type") "viewport.session_viewer_presence/v1" &&
  channel_ok frame &&
  (is_str (field frame "action") "joined" || is_str (field frame "action") "left" ||
   is_str (field frame "action") "heartbeat") &&
  isNonEmptyString (field frame "userId") &&
  is_string_le (field frame "userId") 128 &&
  (is_undefined (field frame "displayName") || is_string_le (field frame "displayName") 255) &&
  (is_undefined (field frame "sentAt") || is_string (field frame "sentAt")).

Definition isSessionEventClientFrame (frame : FramePayload) : bool :=
  isSessionEventSubscribeFrame frame || isSessionEventUnsubscribeFrame frame ||
  isSessionViewerPresenceFrame frame.

(** [event !== undefined && typeof event === 'object' && !Array.isArray(event)]:
    [typeof null] is ['object'], so a null event passes. *)
Definition isSessionEventRelayFrame (frame : FramePayload) : bool :=
  is_str (field frame "schema") "viewport.session_event_relay_frame/v1" &&
  channel_ok frame &&
  match field frame "event" with Some (JObj _) | Some JNull => true | _ => false end.

Definition isAllowedClientFrame (text : string) : bool :=
  match parseFramePayload text with
  | None => false
  | Some frame =>
      isE2eeEnvelope frame || isClientControlFrame frame || isPairingClientFrame frame ||
      isSessionEventClientFrame frame
  end.

Definition isAllowedDaemonFrame (text : string) : bool :=
  match parseFramePayload text with
  | None => false
  | Some frame =>
      isE2eeEnvelope frame || isDaemonControlFrame frame || isPairingDaemonFrame frame ||
      isSessionEventRelayFrame frame
  end.

Definition isAllowedWorkerTransportRequestFrame (frame : FramePayload) : bool :=
  if negb (is_str (field frame "type") "viewport.worker_transport.request/v1") ||
     negb (is_nonblank (field frame "requestId")) ||
     (negb (is_str (field frame "method") "GET") &&
      negb (is_str (field frame "method") "POST") &&
      negb (is_str (field frame "method") "PATCH")) ||
     negb (match field frame "path" with
           | Some (JStr s) => startsWith s "/api/runtime/workspaces/" | _ => false end)
  then false
  else if match field frame "headers" with None | Some (JObj _) => false | _ => true end then false
  else match field frame "body" with None | Some (JStr _) => true | _ => false end.

Inductive e2eeProfile := noise_ik | noise_ikpsk2.

#[export] Instance e2eeProfile_eq_dec : EqDecision e2eeProfile.
Proof. solve_decision. Defined.

Definition extractFrameProfile (frame : FramePayload) : option e2eeProfile :=
  if is_str (field frame "profile") "noise-ik" then Some noise_ik
  else if is_str (field frame "profile") "noise-ikpsk2" then Some noise_ikpsk2
  else None.

(** ** Which [type] a class of frames carries *)

Section Types.
Variable frame : FramePayload.
Let type := field frame "type".

Lemma e2ee_type : isE2eeEnvelope frame = true → is_str type "e2ee" = true.
Proof. unfold isE2eeEnvelope. intros. split_bools. done. Qed.

Lemma client_control_type :
  isClientControlFrame frame = true → is_str type "relay_key_exchange_init" = true.
Proof. unfold isClientControlFrame. repeat case_match; intros; split_bools; done. Qed.

Lemma daemon_control_type :
  isDaemonControlFrame frame = true →
  is_str type "relay_key_update_required" = true ∨
  is_str type "relay_key_exchange_response" = true.
Proof. unfold isDaemonControlFrame. repeat case_match; intros; split_bools; auto. Qed.

Lemma pairing_client_type :
  isPairingClientFrame frame = true →
  is_str type "relay_pairing_offer_request" = true ∨
  is_str type "relay_pairing_redeem_request" = true.
Proof.
  unfold isPairingClientFrame, isPairingOfferRequestFrame, isPairingRedeemRequestFrame.
  intros [H|H]%orb_true_iff; split_bools; auto.
Qed.

Lemma pairing_daemon_type :
  isPairingDaemonFrame frame = true →
  is_str type "relay_pairing_offer_response" = true ∨
  is_str type "relay_pairing_redeem_response" = true.
Proof.
  unfold isPairingDaemonFrame, isPairingResponseFrame. subst type.
  destruct (is_str _ "relay_pairing_offer_response"); [auto|].
  destruct (is_str _ "relay_pairing_redeem_response"); [auto|done].
Qed.

Lemma session_client_type :
  isSessionEventClientFrame frame = true →
  is_str type "viewport.session_events.subscribe/v1" = true ∨
  is_str type "viewport.session_events.unsubscribe/v1" = true ∨
  is_str type "viewport.session_viewer_presence/v1" = true.
Proof.
  unfold isSessionEventClientFrame, isSessionEventSubscribeFrame,
    isSessionEventUnsubscribeFrame, isSessionViewerPresenceFrame.
  intros [[H|H]%orb_true_iff|H]%orb_true_iff; split_bools; auto.
Qed.
End Types.

#[export] Hint Resolve e2ee_type client_control_type daemon_control_type pairing_client_type
  pairing_daemon_type session_client_type : frames.

(** Two type tags cannot both hold. *)
Ltac type_clash :=
  repeat match goal with
  | H : _ ∨ _ |- _ => destruct H
  | H : is_str _ _ = true |- _ => apply is_str_true in H
  end; congruence.

(** Applies the type lemma of every class known to hold. *)
Ltac use_types :=
  repeat match goal with
  | H : isE2eeEnvelope _ = true |- _ => apply e2ee_type in H
  | H : isClientControlFrame _ = true |- _ => apply client_control_type in H
  | H : isDaemonControlFrame _ = true |- _ => apply daemon_control_type in H
  | H : isPairingClientFrame _ = true |- _ => apply pairing_client_type in H
  | H : isPairingDaemonFrame _ = true |- _ => apply pairing_daemon_type in H
  | H : isSessionEventClientFrame _ = true |- _ => apply session_client_type in H
  end.

(** ** The classes of a client frame and of a daemon frame *)

Inductive client_class :=
| CE2ee | CKeyExchangeInit | CPairing | CSessionEvent.

Definition client_class_of (frame : FramePayload) (k : client_class) : bool :=
  match k with
  | CE2ee => isE2eeEnvelope frame
  | CKeyExchangeInit => isKeyExchangeInitFrame frame
  | CPairing => isPairingClientFrame frame
  | CSessionEvent => isSessionEventClientFrame frame
  end.

Inductive daemon_class :=
| DE2ee | DKeyUpdateRequired | DKeyExchangeResponse | DPairing.

Definition daemon_class_of (frame : FramePayload) (k : daemon_class) : bool :=
  match k with
  | DE2ee => isE2eeEnvelope frame
  | DKeyUpdateRequired => isKeyUpdateRequiredFrame frame
  | DKeyExchangeResponse => isKeyExchangeResponseFrame frame
  | DPairing => isPairingDaemonFrame frame
  end.

Lemma client_control_kex frame :
  isClientControlFrame frame = isKeyExchangeInitFrame frame.
Proof.
  unfold isKeyExchangeInitFrame. destruct (isClientControlFrame frame) eqn:E; [|done].
  symmetry. simpl. by apply client_control_type.
Qed.

Lemma daemon_control_split frame :
  isDaemonControlFrame frame =
  isKeyUpdateRequiredFrame frame || isKeyExchangeResponseFrame frame.
Proof.
  unfold isKeyUpdateRequiredFrame, isKeyExchangeResponseFrame.
  destruct (isDaemonControlFrame frame) eqn:E; [|done].
  apply daemon_control_type in E as [->| ->]; simpl; [done|]. by rewrite orb_true_r.
Qed.

Lemma client_class_unique frame k1 k2 :
  client_class_of frame k1 = true → client_class_of frame k2 = true → k1 = k2.
Proof.
  destruct k1, k2; simpl; rewrite <-?client_control_kex; intros; try done; exfalso;
    use_types; type_clash.
Qed.

Lemma daemon_class_unique frame k1 k2 :
  daemon_class_of frame k1 = true → daemon_class_of frame k2 = true → k1 = k2.
Proof.
  destruct k1, k2; simpl; unfold isKeyUpdateRequiredFrame, isKeyExchangeResponseFrame;
    intros; split_bools; try done; exfalso; use_types; type_clash.
Qed.

(** A client frame is accepted exactly when it falls in one and only one of the
    four classes the router distinguishes (so the order of the router's tests is
    immaterial and no accepted frame is unroutable). *)
Theorem client_frame_classified text frame :
  parseFramePayload text = Some frame →
  (isAllowedClientFrame text = true ↔ exists! k, client_class_of frame k = true).
Proof.
  intros Hp. unfold isAllowedClientFrame. rewrite Hp, client_control_kex.
  rewrite !orb_true_iff. split.
  - intros H.
    assert (∃ k, client_class_of frame k = true) as [k Hk].
    { destruct H as [[[H|H]|H]|H];
        [by exists CE2ee|by exists CKeyExchangeInit|by exists CPairing|by exists CSessionEvent]. }
    exists k. split; [done|]. eauto using client_class_unique.
  - intros ([] & Hk & _); simpl in Hk; auto.
Qed.

Definition sample_e2ee : string :=
  quoted "{'type':'e2ee','version':2,'profile':'noise-ik','sessionId':'s','epoch':1,'seq':1,'iv':'a','tag':'b','ciphertext':'c'}".

Lemma client_frame_classified_witness :
  isAllowedClientFrame sample_e2ee = true ∧
  ∃ frame, exists! k, client_class_of frame k = true.
Proof.
  assert (isAllowedClientFrame sample_e2ee = true) as H by (vm_compute; reflexivity).
  split; [exact H|].
  destruct (parseFramePayload sample_e2ee) as [frame|] eqn:E; [|vm_compute in E; discriminate].
  exists frame. exact (proj1 (client_frame_classified sample_e2ee frame E) H).
Defined.

(** A daemon frame is accepted exactly when it is a session-event relay frame or
    in one of the four routable classes, and those four exclude one another. *)
Theorem daemon_frame_classified text frame :
  parseFramePayload text = Some frame →
  (isAllowedDaemonFrame text = true ↔
   isSessionEventRelayFrame frame = true ∨ ∃ k, daemon_class_of frame k = true) ∧
  (∀ k1 k2, daemon_class_of frame k1 = true → daemon_class_of frame k2 = true → k1 = k2).
Proof.
  intros Hp. split; [|apply daemon_class_unique].
  unfold isAllowedDaemonFrame. rewrite Hp, daemon_control_split, !orb_true_iff. split.
  - intros [[[H|[H|H]]|H]|H]; [| | | |by left]; right;
      [by exists DE2ee|by exists DKeyUpdateRequired|by exists DKeyExchangeResponse|by exists DPairing].
  - intros [H|[[] H]]; simpl in H; auto 6.
Qed.

Definition sample_kex_response : string :=
  quoted "{'type':'relay_key_exchange_response','version':2,'profile':'noise-ik','requestId':'r1','daemonNonce':'n','sessionId':'s1','epoch':1,'proof':'p'}".

Lemma daemon_frame_classified_witness :
  ∃ frame, parseFramePayload sample_kex_response = Some frame ∧
    isAllowedDaemonFrame sample_kex_response = true ∧
    (isSessionEventRelayFrame frame = true ∨ ∃ k, daemon_class_of frame k = true).
Proof.
  destruct (parseFramePayload sample_kex_response) as [frame|] eqn:E; [|vm_compute in E; discriminate].
  assert (isAllowedDaemonFrame sample_kex_response = true) as H by (vm_compute; reflexivity).
  exists frame. split; [reflexivity|]. split; [exact H|].
  exact (proj1 (proj1 (daemon_frame_classified sample_kex_response frame E)) H).
Defined.

(** ** Request identifiers *)

Lemma is_nonblank_trimmed f key :
  is_nonblank (field f key) = true → trimmed_field f key ≠ "".
Proof.
  unfold trimmed_field. destruct (field f key) as [[]|]; simpl; try done. apply nonblank_true.
Qed.

(** A pairing frame, and only a pairing frame, yields a request identifier, and
    that identifier is never empty: every pairing request can be tracked and every
    pairing response can be matched. *)
Theorem pairing_request_id_spec frame :
  (is_Some (extractPairingRequestId frame) ↔
   isPairingClientFrame frame = true ∨ isPairingDaemonFrame frame = true) ∧
  (∀ id, extractPairingRequestId frame = Some id →
     id ≠ "" ∧ id = trimmed_field frame "requestId").
Proof.
  unfold extractPairingRequestId. change (isPairingOfferRequestFrame frame ||
    isPairingRedeemRequestFrame frame) with (isPairingClientFrame frame).
  change (isPairingResponseFrame frame) with (isPairingDaemonFrame frame).
  assert (isPairingClientFrame frame = true ∨ isPairingDaemonFrame frame = true →
    is_nonblank (field frame "requestId") = true) as Hnb.
  { unfold isPairingClientFrame, isPairingOfferRequestFrame, isPairingRedeemRequestFrame,
      isPairingDaemonFrame, isPairingResponseFrame.
    intros [[H|H]%orb_true_iff|H]; [by split_bools|by split_bools|].
    destruct (is_nonblank (field frame "requestId")); [done|].
    destruct (_ && _) in H; done. }
  split.
  - destruct (isPairingClientFrame frame), (isPairingDaemonFrame frame); simpl;
      rewrite ?is_Some_alt; naive_solver.
  - intros id H. assert (id = trimmed_field frame "requestId") as -> by (repeat case_match; congruence).
    split; [|done]. apply is_nonblank_trimmed, Hnb.
    destruct (isPairingClientFrame frame), (isPairingDaemonFrame frame); auto; discriminate.
Qed.
