(* ===== verification/RateLimit.v ===== *)
(** * Rate limiters (services/relay/src/security.ts)

    Two limiters keyed by client, workspace or address, both kept in
    least-recently-used order and bounded in the number of keys.
    [Module FixedWindow] models [FixedWindowRateLimiter] over integers;
    [Module TokenBucket] models [TokenBucketRateLimiter], whose token counts are
    JavaScript numbers: rationals rounded after each operation by a rounding
    [rnd] of which only two documented facts of IEEE 754 are used (class
    [Rounding]). *)

From S2P Require Import Prelude JsString JsMap.
From stdpp Require Import prelude strings list.
From Stdlib Require Import ZArith QArith Qminmax Lqa Lia.

(** [maxBuckets]; [None] is the default [Number.POSITIVE_INFINITY]. *)
Definition trim_opt {V} (cap : option Z) (m : list (string * V)) : list (string * V) :=
  match cap with Some c => jm_trim c m | None => m end.

Definition within (cap : option Z) (n : Z) : Prop :=
  match cap with Some c => (n ≤ c)%Z | None => True end.

Lemma NoDup_keys_trim_opt {V} cap (m : list (string * V)) :
  NoDup_keys m → NoDup_keys (trim_opt cap m).
Proof. destruct cap; simpl; auto with viewport. Qed.

Lemma trim_opt_within {V} cap (m : list (string * V)) :
  (∀ c, cap = Some c → (0 ≤ c)%Z) → within cap (jm_size (trim_opt cap m)).
Proof. destruct cap; simpl; [|done]. intros H. rewrite jm_size_trim by auto. lia. Qed.

Lemma jm_get_trim_opt_touch {V} cap k (v : V) m :
  NoDup_keys m → (∀ c, cap = Some c → (1 ≤ c)%Z) →
  jm_get k (trim_opt cap (jm_touch k v m)) = Some v.
Proof.
  destruct cap; simpl; intros Hnd Hc.
  - apply jm_get_touch_trim; auto.
  - rewrite jm_get_touch. by rewrite decide_True.
Qed.

(** Touching a key that is already present does not grow the map. *)
Lemma jm_size_touch_old {V} k (v w : V) (m : list (string * V)) :
  jm_get k m = Some w → (jm_size (jm_touch k v m) ≤ jm_size m)%Z.
Proof.
  intros Hk. rewrite jm_touch_app. unfold jm_size. rewrite length_app. simpl.
  assert (length (jm_delete k m) < length m)%nat; [|lia].
  unfold jm_delete, jm_filter. revert Hk. induction m as [|[k1 v1] m IH]; simpl; [done|].
  case_decide as Hd; intros Hk; simplify_eq.
  - rewrite bool_decide_eq_true_2 by done. simpl.
    apply Nat.lt_succ_r. clear. induction m as [|[k2 v2] m IH]; simpl; [lia|].
    case_match; simpl; lia.
  - rewrite bool_decide_eq_false_2 by done. simpl. specialize (IH Hk). lia.
Qed.

(** ** Fixed windows *)

Module FixedWindow.
Record Bucket := { count : Z; windowStartMs : Z }.

Section Limiter.
Variables (maxPerWindow windowMs : Z) (maxBuckets : option Z).

Definition buckets : Type := list (string * Bucket).

Definition touchEntry (key : string) (b : Bucket) (m : buckets) : buckets := jm_touch key b m.
Definition enforceMaxBuckets (m : buckets) : buckets := trim_opt maxBuckets m.

Definition allow (key : string) (now : Z) (m : buckets) : bool * buckets :=
  match jm_get key m with
  | None =>
      (true, enforceMaxBuckets (touchEntry key {| count := 1; windowStartMs := now |} m))
  | Some current =>
      if (windowMs <=? now - windowStartMs current)%Z then
        (true, touchEntry key {| count := 1; windowStartMs := now |} m)
      else if (maxPerWindow <=? count current)%Z then
        (false, touchEntry key current m)
      else
        (true, touchEntry key {| count := count current + 1;
                                 windowStartMs := windowStartMs current |} m)
  end.

Definition sweepStale (now : Z) (m : buckets) : buckets :=
  enforceMaxBuckets
    (jm_filter (λ _ b, negb (windowMs * 2 <=? now - windowStartMs b)%Z) m).

(** The limiter's invariant: a proper LRU map within its bound, every count
    between one and the limit. *)
Definition wf (m : buckets) : Prop :=
  NoDup_keys m ∧ within maxBuckets (jm_size m) ∧
  ∀ key b, jm_get key m = Some b → (1 ≤ count b ≤ maxPerWindow)%Z.

Hypothesis max_pos : (1 ≤ maxPerWindow)%Z.
Hypothesis cap_pos : ∀ c, maxBuckets = Some c → (1 ≤ c)%Z.

Lemma cap_nonneg c : maxBuckets = Some c → (0 ≤ c)%Z.
Proof. intros H. specialize (cap_pos c H). lia. Qed.

Lemma wf_touch_old key b w m :
  wf m → jm_get key m = Some w → (1 ≤ count b ≤ maxPerWindow)%Z → wf (touchEntry key b m).
Proof.
  intros (Hnd & Hsz & Hc) Hg Hb. split; [by apply NoDup_keys_touch|]. split.
  - unfold touchEntry. pose proof (jm_size_touch_old key b w m Hg).
    destruct maxBuckets; simpl in *; [lia|done].
  - intros k b'. unfold touchEntry. rewrite jm_get_touch.
    case_decide; intros; simplify_eq; eauto.
Qed.

Lemma wf_allow key now m : wf m → wf (allow key now m).2.
Proof.
  intros Hwf. unfold allow. destruct (jm_get key m) as [b|] eqn:Hg.
  - pose proof Hwf as (_ & _ & Hc). specialize (Hc _ _ Hg).
    repeat case_match; split_bools; simpl; eapply wf_touch_old; eauto; simpl; lia.
  - destruct Hwf as (Hnd & _ & Hc). simpl. unfold enforceMaxBuckets, touchEntry. split.
    { auto using NoDup_keys_trim_opt, NoDup_keys_touch. }
    split; [apply trim_opt_within, cap_nonneg|].
    intros k b Hk. assert (jm_get k (jm_touch key {| count := 1; windowStartMs := now |} m) = Some b) as Hk'.
    { destruct maxBuckets; simpl in Hk; [|done].
      eapply jm_get_trim_Some; [by apply NoDup_keys_touch|done]. }
    rewrite jm_get_touch in Hk'. case_decide; simplify_eq; simpl; [lia|eauto].
Qed.

Lemma wf_sweepStale now m : wf m → wf (sweepStale now m).
Proof.
  intros (Hnd & _ & Hc). unfold sweepStale, enforceMaxBuckets. split.
  { auto using NoDup_keys_trim_opt, NoDup_keys_filter. }
  split; [apply trim_opt_within, cap_nonneg|].
  intros k b Hk.
  assert (jm_get k (jm_filter (λ _ b, negb (windowMs * 2 <=? now - windowStartMs b)%Z) m) = Some b) as Hk'.
  { destruct maxBuckets; simpl in Hk; [|done].
    eapply jm_get_trim_Some; [by apply NoDup_keys_filter|done]. }
  rewrite jm_get_filter in Hk' by done. repeat case_match; simplify_eq; eauto.
Qed.
End Limiter.

(** ** The guarantee over time

    A limiter with unboundedly many buckets (so that no key is evicted), called
    at non-decreasing instants. *)

Fixpoint run (maxPerWindow windowMs : Z) (calls : list (string * Z)) (m : buckets) : list (string * Z * bool) :=
  match calls with
  | [] => []
  | (key, now) :: calls' =>
      let '(ok, m') := allow maxPerWindow windowMs None key now m in
      (key, now, ok) :: run maxPerWindow windowMs calls' m'
  end.

Fixpoint nondecreasing (last : Z) (calls : list (string * Z)) : Prop :=
  match calls with
  | [] => True
  | (_, now) :: calls' => (last ≤ now)%Z ∧ nondecreasing now calls'
  end.

(** The calls of [key] allowed at an instant of [[t, t + windowMs)]. *)
Definition allowed_in (key : string) (t windowMs : Z) (log : list (string * Z * bool)) : Z :=
  Z.of_nat (length (List.filter (λ e, bool_decide (e.1.1 = key) && (t <=? e.1.2)%Z &&
    (e.1.2 <? t + windowMs)%Z && e.2) log)).

Section Guarantee.
Variables (maxPerWindow windowMs t : Z) (key : string).
Hypothesis max_pos : (1 ≤ maxPerWindow)%Z.
Hypothesis window_pos : (0 < windowMs)%Z.

(** What the limiter can still allow in [[t, t + windowMs)], given the bucket
    of [key] and the instant of the last call. *)
Definition budget (b : option Bucket) (last : Z) : Z :=
  match b with
  | None => 2 * maxPerWindow
  | Some b =>
      if (last <? t)%Z then 2 * maxPerWindow
      else if (windowStartMs b <? t)%Z then 2 * maxPerWindow - count b
      else maxPerWindow - count b
  end.

Definition timely (m : buckets) (last : Z) : Prop :=
  ∀ b, jm_get key m = Some b →
    (1 ≤ count b ≤ maxPerWindow)%Z ∧ (windowStartMs b ≤ last)%Z.

Lemma allowed_in_cons k now ok log :
  allowed_in key t windowMs ((k, now, ok) :: log) =
    ((if bool_decide (k = key) && (t <=? now)%Z && (now <? t + windowMs)%Z && ok then 1 else 0) +
     allowed_in key t windowMs log)%Z.
Proof. unfold allowed_in. simpl. destruct (_ && _); simpl; lia. Qed.

(** One call of [key]: what it is charged is paid from the budget. *)
Lemma allow_own now last m :
  timely m last → (last ≤ now)%Z →
  let '(ok, m') := allow maxPerWindow windowMs None key now m in
  timely m' now ∧
  ((t ≤ now < t + windowMs)%Z →
    ((if ok then 1 else 0) + budget (jm_get key m') now ≤ budget (jm_get key m) last)%Z) ∧
  ((now < t)%Z → (budget (jm_get key m') now ≤ budget (jm_get key m) last)%Z).
Proof.
  intros Ht Hle. unfold allow, timely, budget, touchEntry, enforceMaxBuckets, trim_opt in *.
  destruct (jm_get key m) as [b|] eqn:Hg; [specialize (Ht _ eq_refl) as [Hc Hs]|clear Ht];
    repeat (case_match; split_bools); simplify_eq;
    rewrite !jm_get_touch, !decide_True in * by done; simplify_eq; simpl in *;
    (split; [intros; simplify_eq; simpl; lia|]); split; intros; lia.
Qed.

(** A call of another key leaves the bucket of [key] alone. *)
Lemma allow_other k now m :
  k ≠ key → jm_get key (allow maxPerWindow windowMs None k now m).2 = jm_get key m.
Proof.
  intros Hk. unfold allow, touchEntry, enforceMaxBuckets, trim_opt.
  repeat case_match; simpl; rewrite jm_get_touch; by rewrite decide_False.
Qed.

Lemma budget_later b last now :
  (last ≤ now)%Z → (∀ b', b = Some b' → 1 ≤ count b' ≤ maxPerWindow)%Z →
  (budget b now ≤ budget b last)%Z.
Proof.
  intros Hle Hb. destruct b as [b|]; [|done]. specialize (Hb _ eq_refl). simpl.
  repeat case_match; split_bools; lia.
Qed.

Lemma budget_nonneg b last :
  (∀ b', b = Some b' → 1 ≤ count b' ≤ maxPerWindow)%Z → (0 ≤ budget b last)%Z.
Proof.
  intros Hb. destruct b as [b|]; simpl; [|lia]. specialize (Hb _ eq_refl).
  repeat case_match; lia.
Qed.

Lemma allowed_after calls last m :
  (t + windowMs ≤ last)%Z → nondecreasing last calls →
  allowed_in key t windowMs (run maxPerWindow windowMs calls m) = 0%Z.
Proof.
  revert last m. induction calls as [|[k now] calls IH]; intros last m Hl Hnd; simpl; [done|].
  destruct Hnd as [Hle Hnd].
  destruct (allow maxPerWindow windowMs None k now m) as [ok m'].
  rewrite allowed_in_cons, (IH now) by (done || lia).
  replace (now <? t + windowMs)%Z with false by (symmetry; apply Z.ltb_ge; lia).
  by rewrite andb_false_r.
Qed.

Lemma allowed_le_budget calls last m :
  timely m last → nondecreasing last calls →
  (allowed_in key t windowMs (run maxPerWindow windowMs calls m) ≤
     budget (jm_get key m) last)%Z.
Proof.
  revert last m. induction calls as [|[k now] calls IH]; intros last m Ht Hnd.
  { apply budget_nonneg. intros b Hb. by apply Ht. }
  destruct Hnd as [Hle Hnd].
  destruct (decide (t + windowMs ≤ now)%Z) as [Hafter|Hbefore].
  { rewrite (allowed_after _ (t + windowMs)) by done.
    apply budget_nonneg. intros b Hb. by apply Ht. }
  simpl. destruct (decide (k = key)) as [->|Hk].
  - pose proof (allow_own now last m Ht Hle) as Hown.
    destruct (allow maxPerWindow windowMs None key now m) as [ok m'].
    destruct Hown as (Ht' & Hin & Hout). specialize (IH _ _ Ht' Hnd).
    rewrite allowed_in_cons, bool_decide_eq_true_2 by done. simpl.
    destruct (t <=? now)%Z eqn:E; simpl; split_bools; [|specialize (Hout E); lia].
    rewrite (proj2 (Z.ltb_lt now (t + windowMs))) by lia. simpl.
    specialize (Hin ltac:(lia)). lia.
  - pose proof (allow_other k now m Hk) as Hoth.
    destruct (allow maxPerWindow windowMs None k now m) as [ok m'] eqn:Ea. simpl in Hoth.
    rewrite allowed_in_cons, bool_decide_eq_false_2 by done. simpl.
    specialize (IH now m'). rewrite Hoth in IH. etransitivity; [apply IH|].
    + intros b Hb. rewrite Hoth in Hb. destruct (Ht _ Hb). split; [done|lia].
    + done.
    + apply budget_later; [done|]. intros b Hb. by apply Ht.
Qed.
End Guarantee.
End FixedWindow.

(** Whatever the interleaving of keys, a fixed-window limiter with no key bound
    lets at most twice [maxPerWindow] calls of one key through in any interval of
    length [windowMs], when the clock does not go back. *)
Theorem fixed_window_bound maxPerWindow windowMs key t t0 calls :
  (1 ≤ maxPerWindow)%Z → (0 < windowMs)%Z → FixedWindow.nondecreasing t0 calls →
  (FixedWindow.allowed_in key t windowMs (FixedWindow.run maxPerWindow windowMs calls []) ≤
     2 * maxPerWindow)%Z.
Proof.
  intros Hmax Hw Hnd.
  apply (FixedWindow.allowed_le_budget maxPerWindow windowMs t key Hmax Hw calls t0 []); [|done].
  intros b Hb. done.
Qed.

Lemma fixed_window_bound_witness :
  (FixedWindow.allowed_in "ip" 50 60
     (FixedWindow.run 2 60 [("ip", 0); ("ip", 59); ("x", 59); ("ip", 60); ("ip", 61); ("ip", 62)] []) ≤ 4)%Z.
Proof.
  apply (fixed_window_bound 2 60 "ip" 50 0); [lia|lia|]. simpl. repeat split; lia.
Defined.

(** [allow] and [sweepStale] keep the fixed-window limiter well formed: distinct
    keys, no more than [maxBuckets] of them, every count between one and the limit. *)
Theorem fixed_window_wf maxPerWindow windowMs maxBuckets key now m :
  (1 ≤ maxPerWindow)%Z → (∀ c, maxBuckets = Some c → (1 ≤ c)%Z) →
  FixedWindow.wf maxPerWindow maxBuckets m →
  FixedWindow.wf maxPerWindow maxBuckets
    (FixedWindow.allow maxPerWindow windowMs maxBuckets key now m).2 ∧
  FixedWindow.wf maxPerWindow maxBuckets
    (FixedWindow.sweepStale windowMs maxBuckets now m).
Proof.
  intros Hmax Hcap Hwf. split.
  - by apply FixedWindow.wf_allow.
  - by apply FixedWindow.wf_sweepStale.
Qed.

Lemma fixed_window_wf_witness :
  FixedWindow.wf 3 (Some 1%Z)
    (FixedWindow.allow 3 60 (Some 1%Z) "b" 10
      (FixedWindow.allow 3 60 (Some 1%Z) "a" 5 []).2).2.
Proof.
  assert (FixedWindow.wf 3 (Some 1%Z) []) as H0.
  { split; [constructor|]. split; [unfold jm_size; simpl; lia|]. intros ? ? ?; discriminate. }
  assert (∀ c, Some 1%Z = Some c → (1 ≤ c)%Z) as Hc by (intros; simplify_eq; lia).
  apply (fixed_window_wf 3 60 (Some 1%Z) "b" 10); [lia|exact Hc|].
  apply (fixed_window_wf 3 60 (Some 1%Z) "a" 5); [lia|exact Hc|exact H0].
Defined.

(** ** Token buckets *)

(** The rounding of a JavaScript number operation.  IEEE 754 rounding is monotone
    and leaves the integers of magnitude up to 2^53 as they are. *)
Class Rounding := {
  rnd : Q → Q;
  rnd_mono x y : (x <= y)%Q → (rnd x <= rnd y)%Q;
  rnd_int z : (Z.abs z ≤ 2 ^ 53)%Z → (rnd (inject_Z z) == inject_Z z)%Q
}.

(** Exact arithmetic is such a rounding. *)
Definition exact_rounding : Rounding.
Proof. by refine {| rnd x := x |}. Defined.

Lemma inject_Z_pred k : (inject_Z (k - 1) == inject_Z k - 1)%Q.
Proof. unfold Z.sub. by rewrite inject_Z_plus, inject_Z_opp. Qed.

Module TokenBucket.
Record Bucket := { tokens : Q; lastRefillMs : Z }.
Definition buckets : Type := list (string * Bucket).

Section Limiter.
Context `{R : Rounding}.
Variables (capacity refillWindowMs : Z) (maxBuckets : option Z).

(** [capacity / refillWindowMs] *)
Definition refillPerMs : Q := rnd (inject_Z capacity / inject_Z refillWindowMs).

Definition refill (b : Bucket) (now : Z) : Bucket :=
  if (now <=? lastRefillMs b)%Z then b
  else
    let elapsed := (now - lastRefillMs b)%Z in
    {| tokens := Qmin (inject_Z capacity)
                   (rnd (tokens b + rnd (inject_Z elapsed * refillPerMs)));
       lastRefillMs := now |}.

Definition touchEntry (key : string) (b : Bucket) (m : buckets) : buckets := jm_touch key b m.
Definition enforceMaxBuckets (m : buckets) : buckets := trim_opt maxBuckets m.

Definition Qlt_bool (x y : Q) : bool := negb (Qle_bool y x).

Definition allow (key : string) (now : Z) (m : buckets) : bool * buckets :=
  match jm_get key m with
  | None =>
      (true, enforceMaxBuckets
               (touchEntry key {| tokens := inject_Z (capacity - 1); lastRefillMs := now |} m))
  | Some existing0 =>
      let existing := refill existing0 now in
      if Qlt_bool (tokens existing) 1 then (false, touchEntry key existing m)
      else (true, touchEntry key {| tokens := rnd (tokens existing - 1);
                                    lastRefillMs := lastRefillMs existing |} m)
  end.

Definition sweepStale (now : Z) (m : buckets) : buckets :=
  enforceMaxBuckets
    (jm_filter (λ _ b, negb (refillWindowMs * 2 <=? now - lastRefillMs b)%Z) m).

Definition in_range (b : Bucket) : Prop :=
  (0 <= tokens b)%Q ∧ (tokens b <= inject_Z capacity)%Q.

Definition wf (m : buckets) : Prop :=
  NoDup_keys m ∧ within maxBuckets (jm_size m) ∧
  ∀ key b, jm_get key m = Some b → in_range b.

Hypothesis cap_range : (1 ≤ capacity ≤ 2 ^ 53)%Z.
Hypothesis window_pos : (0 < refillWindowMs)%Z.
Hypothesis max_pos : ∀ c, maxBuckets = Some c → (1 ≤ c)%Z.

Lemma rnd_nonneg x : (0 <= x)%Q → (0 <= rnd x)%Q.
Proof.
  intros H. rewrite <-(rnd_int 0) by lia. by apply rnd_mono.
Qed.

Lemma Qlt_bool_false x y : Qlt_bool x y = false ↔ (y <= x)%Q.
Proof. unfold Qlt_bool. rewrite negb_false_iff. apply Qle_bool_iff. Qed.

Lemma refillPerMs_nonneg : (0 <= refillPerMs)%Q.
Proof.
  apply rnd_nonneg. apply Qle_shift_div_l.
  - rewrite <-(Zlt_Qlt 0). lia.
  - rewrite Qmult_0_l, <-(Zle_Qle 0). lia.
Qed.

Lemma in_range_refill b now : in_range b → in_range (refill b now).
Proof.
  intros [H0 H1]. unfold refill. destruct (now <=? lastRefillMs b)%Z eqn:E; [done|].
  split_bools. split; simpl.
  - apply Q.min_glb; [rewrite <-(Zle_Qle 0); lia|].
    apply rnd_nonneg. rewrite <-(Qplus_0_l 0). apply Qplus_le_compat; [done|].
    apply rnd_nonneg. rewrite <-(Qmult_0_l 0).
    apply Qmult_le_compat_nonneg; [|split; [lra|apply refillPerMs_nonneg]].
    split; [lra|]. rewrite <-(Zle_Qle 0). lia.
  - apply Q.le_min_l.
Qed.

Lemma in_range_consume b : in_range b → (1 <= tokens b)%Q →
  in_range {| tokens := rnd (tokens b - 1); lastRefillMs := lastRefillMs b |}.
Proof.
  intros [H0 H1] Hone. split; simpl.
  - apply rnd_nonneg. lra.
  - rewrite <-(rnd_int capacity) by lia. apply rnd_mono. lra.
Qed.

Lemma bucket_wf_touch_old key b w m :
  wf m → jm_get key m = Some w → in_range b → wf (touchEntry key b m).
Proof.
  intros (Hnd & Hsz & Hc) Hg Hb. split; [by apply NoDup_keys_touch|]. split.
  - unfold touchEntry. pose proof (jm_size_touch_old key b w m Hg).
    destruct maxBuckets; simpl in *; [lia|done].
  - intros k b'. unfold touchEntry. rewrite jm_get_touch.
    case_decide; intros; simplify_eq; eauto.
Qed.

Lemma wf_trim m : NoDup_keys m → (∀ key b, jm_get key m = Some b → in_range b) →
  wf (enforceMaxBuckets m).
Proof.
  intros Hnd Hr. unfold enforceMaxBuckets. split; [by apply NoDup_keys_trim_opt|]. split.
  - apply trim_opt_within. intros c Hc. specialize (max_pos c Hc). lia.
  - intros k b Hk. apply (Hr k). destruct maxBuckets; simpl in Hk; [|done].
    by eapply jm_get_trim_Some.
Qed.

Lemma bucket_wf_allow key now m : wf m → wf (allow key now m).2.
Proof.
  intros Hwf. unfold allow. destruct (jm_get key m) as [b|] eqn:Hg.
  - pose proof Hwf as (_ & _ & Hc). pose proof (in_range_refill b now (Hc _ _ Hg)) as Hr.
    destruct (Qlt_bool _ _) eqn:E; simpl; eapply bucket_wf_touch_old; eauto.
    apply in_range_consume; [done|]. by apply Qlt_bool_false.
  - destruct Hwf as (Hnd & _ & Hc). simpl. apply wf_trim; [by apply NoDup_keys_touch|].
    intros k b. unfold touchEntry. rewrite jm_get_touch. case_decide; intros; simplify_eq; [|eauto].
    split; simpl; rewrite <-Zle_Qle || rewrite <-(Zle_Qle 0); lia.
Qed.

Lemma bucket_wf_sweepStale now m : wf m → wf (sweepStale now m).
Proof.
  intros (Hnd & _ & Hc). unfold sweepStale. apply wf_trim; [by apply NoDup_keys_filter|].
  intros k b. rewrite jm_get_filter by done. repeat case_match; intros; simplify_eq; eauto.
Qed.

(** ** Bursts: calls of one key at one instant *)

Fixpoint burst (n : nat) (key : string) (now : Z) (m : buckets) : Z :=
  match n with
  | O => 0
  | S n' =>
      let '(ok, m') := allow key now m in
      ((if ok then 1 else 0) + burst n' key now m')%Z
  end.

Lemma refill_same b now : lastRefillMs b = now → refill b now = b.
Proof. intros <-. unfold refill. by rewrite Z.leb_refl. Qed.

Lemma burst_known n key now m b k :
  jm_get key m = Some b → lastRefillMs b = now → (0 ≤ k ≤ 2 ^ 53)%Z →
  (tokens b <= inject_Z k)%Q → (burst n key now m ≤ k)%Z.
Proof.
  revert m b k. induction n as [|n IH]; intros m b k Hg Hnow Hk Ht; simpl; [lia|].
  unfold allow. rewrite Hg, refill_same by done.
  destruct (Qlt_bool (tokens b) 1) eqn:E; simpl.
  - eapply (IH _ b); [|done..]. unfold touchEntry. rewrite jm_get_touch. by rewrite decide_True.
  - apply Qlt_bool_false in E.
    assert (1 ≤ k)%Z as Hk1.
    { rewrite Zle_Qle. change (inject_Z 1) with 1%Q. lra. }
    enough (burst n key now (touchEntry key {| tokens := rnd (tokens b - 1);
      lastRefillMs := lastRefillMs b |} m) ≤ k - 1)%Z by lia.
    eapply (IH _ {| tokens := rnd (tokens b - 1); lastRefillMs := lastRefillMs b |}).
    + unfold touchEntry. rewrite jm_get_touch. by rewrite decide_True.
    + done.
    + lia.
    + simpl. rewrite <-(rnd_int (k - 1)) by lia. apply rnd_mono.
      rewrite inject_Z_pred. lra.
Qed.
End Limiter.
End TokenBucket.

(** Whatever the rounding of JavaScript arithmetic, [allow] and [sweepStale] keep
    a token bucket limiter well formed: at most [maxBuckets] distinct keys, and
    every token count between zero and the capacity. *)
Theorem token_bucket_wf `{R : Rounding} capacity refillWindowMs maxBuckets key now m :
  (1 ≤ capacity ≤ 2 ^ 53)%Z → (0 < refillWindowMs)%Z →
  (∀ c, maxBuckets = Some c → (1 ≤ c)%Z) →
  TokenBucket.wf capacity maxBuckets m →
  TokenBucket.wf capacity maxBuckets
    (TokenBucket.allow capacity refillWindowMs maxBuckets key now m).2 ∧
  TokenBucket.wf capacity maxBuckets
    (TokenBucket.sweepStale refillWindowMs maxBuckets now m).
Proof.
  intros Hc Hw Hm Hwf. split.
  - by apply TokenBucket.bucket_wf_allow.
  - by apply TokenBucket.bucket_wf_sweepStale.
Qed.

Lemma token_bucket_empty_wf capacity maxBuckets :
  (∀ c, maxBuckets = Some c → (1 ≤ c)%Z) → TokenBucket.wf capacity maxBuckets [].
Proof.
  intros Hm. split; [constructor|]. split; [|done].
  destruct maxBuckets; simpl; [|done]. specialize (Hm _ eq_refl). unfold jm_size; simpl; lia.
Qed.

Lemma token_bucket_wf_witness :
  TokenBucket.wf 2 (Some 5%Z)
    (@TokenBucket.allow exact_rounding 2 60000 (Some 5%Z) "w" 7 []).2.
Proof.
  apply (@token_bucket_wf exact_rounding 2 60000 (Some 5%Z) "w" 7 []);
    [lia|lia|intros; simplify_eq; lia|].
  apply token_bucket_empty_wf. intros; simplify_eq; lia.
Defined.

(** Whatever the rounding, [n] calls of one key at one instant are allowed at most
    [capacity] times, however long the key had been refilling. *)
Theorem token_bucket_burst `{R : Rounding} capacity refillWindowMs maxBuckets key now n m :
  (1 ≤ capacity ≤ 2 ^ 53)%Z → (0 < refillWindowMs)%Z →
  (∀ c, maxBuckets = Some c → (1 ≤ c)%Z) →
  TokenBucket.wf capacity maxBuckets m →
  (∀ b, jm_get key m = Some b → (TokenBucket.lastRefillMs b ≤ now)%Z) →
  (TokenBucket.burst capacity refillWindowMs maxBuckets n key now m ≤ capacity)%Z.
Proof.
  intros Hc Hw Hm Hwf Hlast. destruct n as [|n]; simpl; [lia|].
  unfold TokenBucket.allow. destruct (jm_get key m) as [b|] eqn:Hg.
  - destruct Hwf as (Hnd & Hsz & Hr). specialize (Hlast _ eq_refl).
    pose proof (TokenBucket.in_range_refill capacity refillWindowMs Hc Hw b now (Hr _ _ Hg)) as [H0 H1].
    assert (TokenBucket.lastRefillMs (TokenBucket.refill capacity refillWindowMs b now) = now) as Hl.
    { unfold TokenBucket.refill. destruct (now <=? _)%Z eqn:E; split_bools; simpl; lia. }
    destruct (TokenBucket.Qlt_bool _ _) eqn:E; simpl.
    + eapply TokenBucket.burst_known; [| |lia|exact H1]; [|done].
      unfold TokenBucket.touchEntry. rewrite jm_get_touch. by rewrite decide_True.
    + apply TokenBucket.Qlt_bool_false in E.
      enough (TokenBucket.burst capacity refillWindowMs maxBuckets n key now
        (TokenBucket.touchEntry key {| TokenBucket.tokens := rnd (TokenBucket.tokens
           (TokenBucket.refill capacity refillWindowMs b now) - 1);
           TokenBucket.lastRefillMs := TokenBucket.lastRefillMs
             (TokenBucket.refill capacity refillWindowMs b now) |} m) ≤ capacity - 1)%Z by lia.
      eapply TokenBucket.burst_known; [| |lia|].
      * unfold TokenBucket.touchEntry. rewrite jm_get_touch. by rewrite decide_True.
      * done.
      * simpl. rewrite <-(rnd_int (capacity - 1)) by lia. apply rnd_mono.
        rewrite inject_Z_pred. lra.
  - enough (TokenBucket.burst capacity refillWindowMs maxBuckets n key now
        (TokenBucket.enforceMaxBuckets maxBuckets (TokenBucket.touchEntry key
          {| TokenBucket.tokens := inject_Z (capacity - 1); TokenBucket.lastRefillMs := now |} m))
        ≤ capacity - 1)%Z by lia.
    destruct Hwf as (Hnd & _).
    eapply TokenBucket.burst_known; [by apply jm_get_trim_opt_touch|done|lia|].
    apply Qle_refl.
Qed.

Lemma token_bucket_burst_witness :
  (@TokenBucket.burst exact_rounding 2 60000 None 5 "w" 7 [] ≤ 2)%Z ∧
  @TokenBucket.burst exact_rounding 2 60000 None 5 "w" 7 [] = 2%Z.
Proof.
  split; [|vm_compute; reflexivity].
  apply (@token_bucket_burst exact_rounding 2 60000 None "w" 7 5 []);
    [lia|lia|done|apply token_bucket_empty_wf; done|done].
Defined.
