(* ===== verification/Registry.v ===== *)
(** * The connection registry (services/relay/src/registry.ts, types.ts)

    One [WorkspaceState] per scope key ([workspaceId:runtimeTargetId]): the daemon
    socket, the client sockets, the session-event subscribers and the owners of the
    pending requests.  JavaScript mutates the state objects in place; here an
    operation maps the registry to the registry.  A state object captured by a
    connection's handlers and the registry's entry under the same key are the same
    object: only [pruneEmpty] removes an entry, and [pruneEmpty_exact] shows that it
    keeps the entry of every scope that has a connection. *)

From S2P Require Import Prelude JsString JsMap.
From stdpp Require Import prelude strings list.
From Stdlib Require Import ZArith Lia.

(** Sockets are compared by identity. *)
Definition WebSocket : Type := nat.

Record ClientConnectionMeta := { cm_clientId : string; cm_connectedAt : Z }.

(** The value type of [keyExchangeRequests], [sessionOwners], [pairingRequests]. *)
Record Owner := { clientWs : option WebSocket; sourceRelayId : option string; createdAt : Z }.

Record WorkspaceState := {
  workspaceId : string;
  runtimeTargetId : option string;
  daemon : option WebSocket;
  daemonIssueGeneration : option Z;
  clients : list (WebSocket * ClientConnectionMeta);
  sessionEventSubscribers : list (string * list WebSocket);
  keyExchangeRequests : list (string * Owner);
  sessionOwners : list (string * Owner);
  pairingRequests : list (string * Owner);
  lastActivityAt : Z
}.

(** ** Assignments to the fields of a state *)

Definition set_meta (w : string) (t : option string) (s : WorkspaceState) : WorkspaceState :=
  {| workspaceId := w; runtimeTargetId := t; daemon := daemon s;
     daemonIssueGeneration := daemonIssueGeneration s; clients := clients s;
     sessionEventSubscribers := sessionEventSubscribers s;
     keyExchangeRequests := keyExchangeRequests s; sessionOwners := sessionOwners s;
     pairingRequests := pairingRequests s; lastActivityAt := lastActivityAt s |}.
Definition set_daemon (d : option WebSocket) (s : WorkspaceState) : WorkspaceState :=
  {| workspaceId := workspaceId s; runtimeTargetId := runtimeTargetId s; daemon := d;
     daemonIssueGeneration := daemonIssueGeneration s; clients := clients s;
     sessionEventSubscribers := sessionEventSubscribers s;
     keyExchangeRequests := keyExchangeRequests s; sessionOwners := sessionOwners s;
     pairingRequests := pairingRequests s; lastActivityAt := lastActivityAt s |}.
Definition set_generation (g : option Z) (s : WorkspaceState) : WorkspaceState :=
  {| workspaceId := workspaceId s; runtimeTargetId := runtimeTargetId s; daemon := daemon s;
     daemonIssueGeneration := g; clients := clients s;
     sessionEventSubscribers := sessionEventSubscribers s;
     keyExchangeRequests := keyExchangeRequests s; sessionOwners := sessionOwners s;
     pairingRequests := pairingRequests s; lastActivityAt := lastActivityAt s |}.
Definition set_clients (c : list (WebSocket * ClientConnectionMeta)) (s : WorkspaceState) : WorkspaceState :=
  {| workspaceId := workspaceId s; runtimeTargetId := runtimeTargetId s; daemon := daemon s;
     daemonIssueGeneration := daemonIssueGeneration s; clients := c;
     sessionEventSubscribers := sessionEventSubscribers s;
     keyExchangeRequests := keyExchangeRequests s; sessionOwners := sessionOwners s;
     pairingRequests := pairingRequests s; lastActivityAt := lastActivityAt s |}.
Definition set_subscribers (m : list (string * list WebSocket)) (s : WorkspaceState) : WorkspaceState :=
  {| workspaceId := workspaceId s; runtimeTargetId := runtimeTargetId s; daemon := daemon s;
     daemonIssueGeneration := daemonIssueGeneration s; clients := clients s;
     sessionEventSubscribers := m;
     keyExchangeRequests := keyExchangeRequests s; sessionOwners := sessionOwners s;
     pairingRequests := pairingRequests s; lastActivityAt := lastActivityAt s |}.
Definition set_kex (m : list (string * Owner)) (s : WorkspaceState) : WorkspaceState :=
  {| workspaceId := workspaceId s; runtimeTargetId := runtimeTargetId s; daemon := daemon s;
     daemonIssueGeneration := daemonIssueGeneration s; clients := clients s;
     sessionEventSubscribers := sessionEventSubscribers s;
     keyExchangeRequests := m; sessionOwners := sessionOwners s;
     pairingRequests := pairingRequests s; lastActivityAt := lastActivityAt s |}.
Definition set_owners (m : list (string * Owner)) (s : WorkspaceState) : WorkspaceState :=
  {| workspaceId := workspaceId s; runtimeTargetId := runtimeTargetId s; daemon := daemon s;
     daemonIssueGeneration := daemonIssueGeneration s; clients := clients s;
     sessionEventSubscribers := sessionEventSubscribers s;
     keyExchangeRequests := keyExchangeRequests s; sessionOwners := m;
     pairingRequests := pairingRequests s; lastActivityAt := lastActivityAt s |}.
Definition set_pairing (m : list (string * Owner)) (s : WorkspaceState) : WorkspaceState :=
  {| workspaceId := workspaceId s; runtimeTargetId := runtimeTargetId s; daemon := daemon s;
     daemonIssueGeneration := daemonIssueGeneration s; clients := clients s;
     sessionEventSubscribers := sessionEventSubscribers s;
     keyExchangeRequests := keyExchangeRequests s; sessionOwners := sessionOwners s;
     pairingRequests := m; lastActivityAt := lastActivityAt s |}.
Definition set_activity (now : Z) (s : WorkspaceState) : WorkspaceState :=
  {| workspaceId := workspaceId s; runtimeTargetId := runtimeTargetId s; daemon := daemon s;
     daemonIssueGeneration := daemonIssueGeneration s; clients := clients s;
     sessionEventSubscribers := sessionEventSubscribers s;
     keyExchangeRequests := keyExchangeRequests s; sessionOwners := sessionOwners s;
     pairingRequests := pairingRequests s; lastActivityAt := now |}.

(** ** The registry *)

Definition Registry : Type := list (string * WorkspaceState).

(** The optional [metadata] argument of [getOrCreate]. *)
Record Metadata := { md_workspaceId : option string; md_runtimeTargetId : option string }.

Definition new_state (key : string) (metadata : option Metadata) (now : Z) : WorkspaceState :=
  {| workspaceId := default key (metadata ≫= md_workspaceId);
     runtimeTargetId := metadata ≫= md_runtimeTargetId;
     daemon := None; daemonIssueGeneration := None; clients := [];
     sessionEventSubscribers := []; keyExchangeRequests := []; sessionOwners := [];
     pairingRequests := []; lastActivityAt := now |}.

Definition getOrCreate (key : string) (metadata : option Metadata) (now : Z) (r : Registry) :
    WorkspaceState * Registry :=
  match jm_get key r with
  | None => let s := new_state key metadata now in (s, jm_set key s r)
  | Some s =>
      match metadata with
      | Some md =>
          if truthy_opt (md_workspaceId md) then
            let s' := set_meta (default "" (md_workspaceId md)) (md_runtimeTargetId md) s in
            (s', jm_set key s' r)
          else (s, r)
      | None => (s, r)
      end
  end.

Definition touch (key : string) (now : Z) (r : Registry) : Registry :=
  jm_alter (set_activity now) key r.

Definition workspaceEntries (r : Registry) : list (string * WorkspaceState) := r.

Definition totalConnectionCount (r : Registry) : Z :=
  fold_left (λ count e, count + (if daemon e.2 then 1 else 0) + jm_size (clients e.2))%Z r 0%Z.

Definition is_idle_empty (ttlMs now : Z) (s : WorkspaceState) : bool :=
  negb (bool_decide (is_Some (daemon s)) || (0 <? jm_size (clients s))%Z) &&
  negb (now - lastActivityAt s <? ttlMs)%Z.

Definition pruneEmpty (ttlMs now : Z) (r : Registry) : list string * Registry :=
  (jm_keys (jm_filter (λ _ s, is_idle_empty ttlMs now s) r),
   jm_filter (λ _ s, negb (is_idle_empty ttlMs now s)) r).

Definition drop_owned (ws : WebSocket) (m : list (string * Owner)) : list (string * Owner) :=
  jm_filter (λ _ o, negb (bool_decide (clientWs o = Some ws))) m.

Definition drop_subscriber (ws : WebSocket) (m : list (string * list WebSocket)) :
    list (string * list WebSocket) :=
  jm_filter (λ _ subs, negb (bool_decide (subs = [])))
    ((λ e, (e.1, set_delete ws e.2)) <$> m).

Definition removeClient (key : string) (ws : WebSocket) (now : Z) (r : Registry) : Registry :=
  jm_alter (λ s,
    set_activity now
      (set_subscribers (drop_subscriber ws (sessionEventSubscribers s))
        (set_owners (drop_owned ws (sessionOwners s))
          (set_kex (drop_owned ws (keyExchangeRequests s))
            (set_pairing (drop_owned ws (pairingRequests s))
              (set_clients (jm_delete ws (clients s)) s)))))) key r.

Definition clearDaemon (key : string) (ws : WebSocket) (now : Z) (r : Registry) : bool * Registry :=
  match jm_get key r with
  | None => (false, r)
  | Some s =>
      if decide (daemon s = Some ws) then
        (true, jm_set key
          (set_activity now
            (set_pairing [] (set_owners [] (set_kex [] (set_daemon None s))))) r)
      else (false, jm_set key (set_activity now s) r)
  end.

(** ** References to sockets *)

(** [ws] occurs in the state of a scope. *)
Definition owned_by (ws : WebSocket) (m : list (string * Owner)) : Prop :=
  ∃ id o, jm_get id m = Some o ∧ clientWs o = Some ws.
Definition subscribed (ws : WebSocket) (m : list (string * list WebSocket)) : Prop :=
  ∃ ch subs, jm_get ch m = Some subs ∧ ws ∈ subs.

Definition refers_to (ws : WebSocket) (s : WorkspaceState) : Prop :=
  ws ∈ jm_keys (clients s) ∨ owned_by ws (keyExchangeRequests s) ∨
  owned_by ws (sessionOwners s) ∨ owned_by ws (pairingRequests s) ∨
  subscribed ws (sessionEventSubscribers s).

(** The maps of a state are maps, its owners and subscribers are its clients, and
    no channel has an empty set of subscribers. *)
Record state_wf (s : WorkspaceState) : Prop := {
  wf_clients : NoDup_keys (clients s);
  wf_subs : NoDup_keys (sessionEventSubscribers s);
  wf_kex : NoDup_keys (keyExchangeRequests s);
  wf_owners : NoDup_keys (sessionOwners s);
  wf_pairing : NoDup_keys (pairingRequests s);
  wf_refers : ∀ ws, refers_to ws s → ws ∈ jm_keys (clients s);
  wf_nonempty : ∀ ch subs, jm_get ch (sessionEventSubscribers s) = Some subs → subs ≠ []
}.

Definition registry_wf (r : Registry) : Prop :=
  NoDup_keys r ∧ ∀ key s, jm_get key r = Some s → state_wf s.

(** ** Lemmas on the operations *)

Lemma owned_by_nil ws : ¬ owned_by ws [].
Proof. by intros (id & o & H & _). Qed.

Lemma owned_by_filter p ws m :
  NoDup_keys m → owned_by ws (jm_filter p m) → owned_by ws m.
Proof.
  intros Hnd (id & o & H & Ho). rewrite jm_get_filter in H by done.
  exists id, o. repeat case_match; simplify_eq. done.
Qed.

Lemma owned_by_drop ws ws' m :
  NoDup_keys m → owned_by ws (drop_owned ws' m) → owned_by ws m ∧ ws ≠ ws'.
Proof.
  intros Hnd (id & o & H & Ho). unfold drop_owned in H. rewrite jm_get_filter in H by done.
  destruct (jm_get id m) eqn:E; [|done]. case_match; simplify_eq. split_bools.
  split; [by exists id, o|]. intros ->. done.
Qed.

Lemma jm_keys_map_value {V W} (f : string * V → W) (m : list (string * V)) :
  jm_keys ((λ e, (e.1, f e)) <$> m) = jm_keys m.
Proof. unfold jm_keys. induction m as [|[k v] m IH]; csimpl; [done|by f_equal]. Qed.

Lemma jm_get_map_value {V W} (f : V → W) k (m : list (string * V)) :
  jm_get k ((λ e, (e.1, f e.2)) <$> m) = f <$> jm_get k m.
Proof. induction m as [|[k1 v] m IH]; csimpl; [done|]. by case_decide. Qed.

Lemma NoDup_keys_drop_subscriber ws m : NoDup_keys m → NoDup_keys (drop_subscriber ws m).
Proof.
  intros. apply NoDup_keys_filter. unfold NoDup_keys.
  by rewrite (jm_keys_map_value (λ e, set_delete ws e.2)).
Qed.

Lemma jm_get_drop_subscriber ws ch subs m :
  NoDup_keys m → jm_get ch (drop_subscriber ws m) = Some subs →
  subs ≠ [] ∧ ∃ subs', jm_get ch m = Some subs' ∧ subs = set_delete ws subs'.
Proof.
  intros Hnd. unfold drop_subscriber. rewrite jm_get_filter.
  - rewrite jm_get_map_value. destruct (jm_get ch m) as [subs'|]; simpl; [|done].
    case_match; intros; simplify_eq. split_bools. eauto.
  - unfold NoDup_keys. by rewrite (jm_keys_map_value (λ e, set_delete ws e.2)).
Qed.

Lemma subscribed_drop ws ws' m :
  NoDup_keys m → subscribed ws (drop_subscriber ws' m) → subscribed ws m ∧ ws ≠ ws'.
Proof.
  intros Hnd (ch & subs & H & Hin).
  apply jm_get_drop_subscriber in H as (_ & subs' & H & ->); [|done].
  apply elem_of_set_delete in Hin as [Hne Hin]. split; [by exists ch, subs'|done].
Qed.

Lemma state_wf_new key md now : state_wf (new_state key md now).
Proof.
  split; simpl; try apply NoDup_keys_nil.
  - intros ws [H|[H|[H|[H|H]]]]; simpl in *; [done|by apply owned_by_nil in H..|].
    by destruct H as (? & ? & ? & _).
  - done.
Qed.

(** Fields the client, owner and subscriber maps do not depend on. *)
Lemma state_wf_set_meta w t s : state_wf s → state_wf (set_meta w t s).
Proof. by intros []; split. Qed.
Lemma state_wf_set_activity now s : state_wf s → state_wf (set_activity now s).
Proof. by intros []; split. Qed.
Lemma state_wf_set_daemon d s : state_wf s → state_wf (set_daemon d s).
Proof. by intros []; split. Qed.
Lemma state_wf_set_generation g s : state_wf s → state_wf (set_generation g s).
Proof. by intros []; split. Qed.

(** An owner map all of whose sockets were referred to, or are clients. *)
Definition owners_ok (s : WorkspaceState) (m : list (string * Owner)) : Prop :=
  NoDup_keys m ∧ ∀ ws, owned_by ws m → ws ∈ jm_keys (clients s).

Ltac refers :=
  match goal with
  | H : refers_to _ _ |- _ =>
      destruct H as [H|[H|[H|[H|H]]]]; simpl in H; auto;
      match goal with W : ∀ ws, refers_to ws _ → _ |- _ => apply W; unfold refers_to; auto 8 end
  end.

Lemma state_wf_set_kex m s : state_wf s → owners_ok s m → state_wf (set_kex m s).
Proof. intros [] [? ?]. split; simpl; auto. intros ws ?. refers. Qed.
Lemma state_wf_set_owners m s : state_wf s → owners_ok s m → state_wf (set_owners m s).
Proof. intros [] [? ?]. split; simpl; auto. intros ws ?. refers. Qed.
Lemma state_wf_set_pairing m s : state_wf s → owners_ok s m → state_wf (set_pairing m s).
Proof. intros [] [? ?]. split; simpl; auto. intros ws ?. refers. Qed.

Lemma state_wf_set_subscribers m s :
  state_wf s → NoDup_keys m → (∀ ws, subscribed ws m → ws ∈ jm_keys (clients s)) →
  (∀ ch subs, jm_get ch m = Some subs → subs ≠ []) → state_wf (set_subscribers m s).
Proof. intros [] ???. split; simpl; auto. intros ws ?. refers. Qed.

Lemma state_wf_add_client ws meta s : state_wf s → state_wf (set_clients (jm_set ws meta (clients s)) s).
Proof.
  intros [Hc Hs Hk Ho Hp Hr Hne]. split; simpl; auto with viewport.
  intros ws' H. rewrite jm_key_is_Some, jm_get_set. case_decide; [eauto|].
  rewrite <-jm_key_is_Some. apply Hr. destruct H as [H|H]; [left|by right].
  simpl in H. rewrite jm_key_is_Some, jm_get_set in H. rewrite decide_False in H by done.
  by rewrite jm_key_is_Some.
Qed.

Lemma owners_ok_nil s : owners_ok s [].
Proof. split; [apply NoDup_keys_nil|]. by intros ws ?%owned_by_nil. Qed.

Lemma owners_ok_filter p s m : owners_ok s m → owners_ok s (jm_filter p m).
Proof.
  intros [Hnd H]. split; [by apply NoDup_keys_filter|].
  intros ws Hw. by apply H, (owned_by_filter p).
Qed.

Lemma owners_ok_delete id s m : owners_ok s m → owners_ok s (jm_delete id m).
Proof. apply owners_ok_filter. Qed.

Lemma owners_ok_make_room cap s m : owners_ok s m → owners_ok s (jm_make_room cap m).
Proof.
  intros [Hnd H]. split; [by apply NoDup_keys_trim|].
  intros ws (id & o & Hg & Ho). apply H. exists id, o. split; [|done].
  by eapply jm_get_trim_Some.
Qed.

Lemma owners_ok_set id o s m :
  owners_ok s m → (∀ ws, clientWs o = Some ws → ws ∈ jm_keys (clients s)) →
  owners_ok s (jm_set id o m).
Proof.
  intros [Hnd H] Ho. split; [by apply NoDup_keys_set|].
  intros ws (id' & o' & Hg & Hw). rewrite jm_get_set in Hg.
  case_decide; simplify_eq; [by apply Ho|]. apply H. by exists id', o'.
Qed.

Lemma state_wf_owners_ok s : state_wf s →
  owners_ok s (keyExchangeRequests s) ∧ owners_ok s (sessionOwners s) ∧
  owners_ok s (pairingRequests s).
Proof. intros []. repeat split; auto; intros ws ?; apply wf_refers0; unfold refers_to; auto 8. Qed.

#[export] Hint Resolve state_wf_new state_wf_set_meta state_wf_set_activity state_wf_set_daemon
  state_wf_set_generation state_wf_set_kex state_wf_set_owners state_wf_set_pairing
  state_wf_add_client owners_ok_nil owners_ok_filter owners_ok_delete owners_ok_make_room
  owners_ok_set : viewport.

(** ** Preservation of the registry's invariant *)

Lemma registry_wf_set key s r : registry_wf r → state_wf s → registry_wf (jm_set key s r).
Proof.
  intros [Hnd H] Hs. split; [by apply NoDup_keys_set|].
  intros k s'. rewrite jm_get_set. case_decide; intros; simplify_eq; eauto.
Qed.

Lemma registry_wf_alter f key r :
  registry_wf r → (∀ s, jm_get key r = Some s → state_wf s → state_wf (f s)) →
  registry_wf (jm_alter f key r).
Proof.
  intros Hr Hf. unfold jm_alter. destruct (jm_get key r) eqn:E; [|done].
  apply registry_wf_set; [done|]. apply Hf; [done|]. by apply (proj2 Hr key).
Qed.

Lemma registry_wf_getOrCreate key md now r :
  registry_wf r → registry_wf (getOrCreate key md now r).2.
Proof.
  intros Hr. unfold getOrCreate. destruct (jm_get key r) eqn:E; [|apply registry_wf_set; auto with viewport].
  pose proof (proj2 Hr _ _ E). destruct md; [|done]. destruct (truthy_opt _); [|done].
  apply registry_wf_set; auto with viewport.
Qed.

Lemma state_wf_removed ws now s :
  state_wf s →
  state_wf (set_activity now
      (set_subscribers (drop_subscriber ws (sessionEventSubscribers s))
        (set_owners (drop_owned ws (sessionOwners s))
          (set_kex (drop_owned ws (keyExchangeRequests s))
            (set_pairing (drop_owned ws (pairingRequests s))
              (set_clients (jm_delete ws (clients s)) s)))))).
Proof.
  intros [Hc Hs Hk Ho Hp Hr Hne].
  split; simpl; try (by apply NoDup_keys_filter); try (by apply NoDup_keys_drop_subscriber).
  - intros ws' H.
    assert (refers_to ws' s ∧ ws' ≠ ws) as [H1 H2].
    { unfold refers_to in *; simpl in *. destruct H as [H|[H|[H|[H|H]]]].
      - rewrite jm_key_is_Some, jm_get_delete in H. case_decide; [by destruct H|].
        rewrite <-jm_key_is_Some in H. tauto.
      - apply owned_by_drop in H; tauto.
      - apply owned_by_drop in H; tauto.
      - apply owned_by_drop in H; tauto.
      - apply subscribed_drop in H; tauto. }
    rewrite jm_key_is_Some, jm_get_delete_ne by done. by apply jm_key_is_Some, Hr.
  - intros ch subs H. by apply jm_get_drop_subscriber in H as [? _].
Qed.

(** Every operation of the registry preserves its invariant: keyed maps, no empty
    subscriber set, and every socket an owner or subscriber entry names is a client
    of the same scope. *)
Theorem registry_invariant r :
  registry_wf r →
  (∀ key md now, registry_wf (getOrCreate key md now r).2) ∧
  (∀ key now, registry_wf (touch key now r)) ∧
  (∀ key ws now, registry_wf (removeClient key ws now r)) ∧
  (∀ key ws now, registry_wf (clearDaemon key ws now r).2) ∧
  (∀ ttl now, registry_wf (pruneEmpty ttl now r).2).
Proof.
  intros Hr. split_and!.
  - intros. by apply registry_wf_getOrCreate.
  - intros. apply registry_wf_alter; auto with viewport.
  - intros. apply registry_wf_alter; [done|]. intros s _ Hs. by apply state_wf_removed.
  - intros. unfold clearDaemon. destruct (jm_get key r) eqn:E; [|done].
    pose proof (proj2 Hr _ _ E). case_decide; simpl; apply registry_wf_set; auto with viewport.
    apply state_wf_set_activity, state_wf_set_pairing; [|apply owners_ok_nil].
    apply state_wf_set_owners; [|apply owners_ok_nil].
    apply state_wf_set_kex; [|apply owners_ok_nil]. by apply state_wf_set_daemon.
  - intros. destruct Hr as [Hnd H]. split; [by apply NoDup_keys_filter|].
    intros k s Hk. simpl in Hk. rewrite jm_get_filter in Hk by done.
    repeat case_match; simplify_eq; eauto.
Qed.

Lemma registry_invariant_witness :
  registry_wf (removeClient "w:t" 3 20 (getOrCreate "w:t" None 10 []).2).
Proof.
  apply (registry_invariant (getOrCreate "w:t" None 10 []).2).
  apply (registry_invariant []). split; [constructor|]. intros ? ? H. discriminate H.
Defined.

(** Once [removeClient] has run, the scope refers to the socket nowhere: not as a
    client, not as the owner of a pairing request, key exchange or session, and not
    as a subscriber; other scopes are unchanged. *)
Theorem removeClient_forgets key ws now r s' :
  registry_wf r →
  jm_get key (removeClient key ws now r) = Some s' →
  ¬ refers_to ws s' ∧
  (∀ key', key' ≠ key → jm_get key' (removeClient key ws now r) = jm_get key' r).
Proof.
  intros Hr. unfold removeClient. rewrite jm_get_alter, decide_True by done.
  destruct (jm_get key r) as [s|] eqn:E; simpl; intros; simplify_eq. split.
  - intros H. pose proof (state_wf_removed ws now s (proj2 Hr _ _ E)) as Hwf.
    apply Hwf in H. simpl in H. rewrite jm_key_is_Some, jm_get_delete_eq in H. by destruct H.
  - intros key' Hne. rewrite jm_get_alter. by rewrite decide_False.
Qed.

Definition sample_client_state : WorkspaceState :=
  {| workspaceId := "w"; runtimeTargetId := Some "t"; daemon := Some 1;
     daemonIssueGeneration := None;
     clients := [(3, {| cm_clientId := "c"; cm_connectedAt := 5 |})];
     sessionEventSubscribers := [("agent-session:x", [3])];
     keyExchangeRequests := [("r", {| clientWs := Some 3; sourceRelayId := None; createdAt := 6 |})];
     sessionOwners := []; pairingRequests := []; lastActivityAt := 6 |}.

Lemma sample_client_state_wf : registry_wf [("w:t", sample_client_state)].
Proof.
  split; [apply NoDup_singleton|]. intros k s Hg. simpl in Hg. case_decide; simplify_eq.
  split; simpl; try apply NoDup_singleton; try apply NoDup_keys_nil.
  - intros ws [H|[H|[H|[H|H]]]]; simpl in *; try done; try (by apply owned_by_nil in H).
    + destruct H as (id & o & Hg & Ho). simpl in Hg. case_decide; simplify_eq. simpl in *.
      simplify_eq. apply list_elem_of_here.
    + destruct H as (ch & subs & Hg & Hin). simpl in Hg. case_decide; simplify_eq. set_solver.
  - intros ch subs Hg. case_decide; by simplify_eq.
Qed.

Lemma removeClient_forgets_witness :
  ∃ s', jm_get "w:t" (removeClient "w:t" 3 9 [("w:t", sample_client_state)]) = Some s' ∧
    ¬ refers_to 3 s'.
Proof.
  eexists. split; [reflexivity|].
  eapply (removeClient_forgets "w:t" 3 9 [("w:t", sample_client_state)]);
    [apply sample_client_state_wf|reflexivity].
Defined.

(** [pruneEmpty] drops a scope exactly when it has no daemon, no client and has
    been idle for the time to live, and reports exactly the scopes it drops. *)
Theorem pruneEmpty_exact ttlMs now r key :
  NoDup_keys r →
  (key ∈ (pruneEmpty ttlMs now r).1 ↔
     ∃ s, jm_get key r = Some s ∧ daemon s = None ∧ clients s = [] ∧
          (ttlMs ≤ now - lastActivityAt s)%Z) ∧
  jm_get key (pruneEmpty ttlMs now r).2 =
    (if decide (key ∈ (pruneEmpty ttlMs now r).1) then None else jm_get key r).
Proof.
  intros Hnd.
  assert (∀ s, is_idle_empty ttlMs now s = true ↔
    daemon s = None ∧ clients s = [] ∧ (ttlMs ≤ now - lastActivityAt s)%Z) as Hidle.
  { intros s. unfold is_idle_empty, jm_size.
    destruct (daemon s) as [d|] eqn:Ed; simpl.
    - naive_solver.
    - destruct (clients s) as [|c cs]; simpl; [|naive_solver].
      rewrite negb_true_iff, Z.ltb_ge. naive_solver. }
  assert (key ∈ (pruneEmpty ttlMs now r).1 ↔
    ∃ s, jm_get key r = Some s ∧ is_idle_empty ttlMs now s = true) as Hkey.
  { simpl. rewrite jm_key_is_Some, jm_get_filter by done.
    destruct (jm_get key r) as [s|]; [|by split; [intros [? ?]|intros (? & ? & ?)]].
    split.
    - intros [s' Hs']. case_match; simplify_eq. eauto.
    - intros (s' & ? & Hi). simplify_eq. rewrite Hi. eauto. }
  split; [by setoid_rewrite Hkey; setoid_rewrite Hidle|].
  case_decide as Hd; simpl; rewrite jm_get_filter by done.
  - apply Hkey in Hd as (s & -> & ->). done.
  - destruct (jm_get key r) as [s|]; [|done]. destruct (is_idle_empty ttlMs now s) eqn:E; [|done].
    destruct Hd. apply Hkey. eauto.
Qed.

Lemma pruneEmpty_exact_witness :
  "w:t" ∈ (pruneEmpty 100 250 (getOrCreate "w:t" None 10 []).2).1.
Proof.
  apply (pruneEmpty_exact 100 250 (getOrCreate "w:t" None 10 []).2 "w:t").
  - apply NoDup_singleton.
  - eexists. split; [reflexivity|]. simpl. repeat split; lia.
Defined.
