(* ===== verification/Admission.v ===== *)
(** * Admission of a connection

    [Module Status] models relay-status-payloads.ts, [Module Upgrade] models
    upgrade-auth.ts and the administrator's token of security.ts, [Module Validate]
    models admission.ts and [Module Connection] relay-connection-admission.ts (all
    under services/relay/src).  The zod schemas, the hash and the call to the server
    are arguments. *)

From S2P Require Import Prelude JsString JsMap Json Frames.
From stdpp Require Import prelude strings list.
From Stdlib Require Import ZArith Lia Ascii.

(** ** Data (types.ts) *)

Inductive RelayRole := workspace_daemon | client | worker.
Inductive ClientScope := scope_runtime | scope_pairing | scope_session_events.
Inductive RelayMode := dev | staging | prod.

#[export] Instance RelayRole_eq_dec : EqDecision RelayRole.
Proof. solve_decision. Defined.
#[export] Instance ClientScope_eq_dec : EqDecision ClientScope.
Proof. solve_decision. Defined.
#[export] Instance RelayMode_eq_dec : EqDecision RelayMode.
Proof. solve_decision. Defined.

(** The claims the relay reads. *)
Record AdmissionClaims := {
  cl_clientId : option string;
  cl_managedExecutorId : option string;
  cl_runtimeTargetId : option string;
  cl_machineId : option string;
  cl_workspaceId : option string;
  cl_scope : option ClientScope;
  cl_sessionChannels : option (list string);
  cl_e2eeProfile : option e2eeProfile;
  cl_daemonIssueGeneration : option Z
}.

Definition scope_name (s : ClientScope) : string :=
  match s with
  | scope_runtime => "runtime" | scope_pairing => "pairing" | scope_session_events => "session-events"
  end.
Definition role_name (r : RelayRole) : string :=
  match r with workspace_daemon => "workspace-daemon" | client => "client" | worker => "worker" end.

(** [{ key: value }] with [undefined] left out, as [JSON.stringify] does. *)
Definition opt_field (key : string) (v : option string) : record :=
  match v with Some s => [(key, JStr s)] | None => [] end.

(** ** relay-status-payloads.ts *)

Module Status.
Definition runtimeScopeKey (workspaceId : string) (runtimeTargetId : option string) : string :=
  if truthy_opt runtimeTargetId then workspaceId +:+ ":" +:+ default "" runtimeTargetId
  else workspaceId.

Definition relayStatusPayload (workspaceId : string) (runtimeTargetId machineId : option string) : record :=
  [("type", JStr "relay_status"); ("code", JStr "DAEMON_UNAVAILABLE");
   ("message", JStr "No machine runtime is connected for this runtime target");
   ("workspaceId", JStr workspaceId); ("retryable", JBool true)] ++
  (if truthy_opt runtimeTargetId then opt_field "runtimeTargetId" runtimeTargetId else []) ++
  (if truthy_opt machineId then opt_field "machineId" machineId else []).

Definition missingRuntimeTargetPayload (workspaceId : string) : record :=
  [("type", JStr "relay_status"); ("code", JStr "RUNTIME_TARGET_REQUIRED");
   ("message", JStr "Runtime client must specify a runtime target");
   ("workspaceId", JStr workspaceId); ("retryable", JBool false)].

Definition relayRedirectPayload (workspaceId relayWsBaseUrl : string)
    (runtimeTargetId : option string) : record :=
  [("type", JStr "relay_status"); ("code", JStr "RELAY_REDIRECT");
   ("message", JStr "Workspace is assigned to a different relay instance");
   ("workspaceId", JStr workspaceId)] ++ opt_field "runtimeTargetId" runtimeTargetId ++
  [("relayWsBaseUrl", JStr relayWsBaseUrl)].
End Status.

(** ** Tokens (upgrade-auth.ts, and the administrator's token of security.ts) *)

Module Upgrade.
(** The encodings of LF, CR, U+2028 and U+2029, which [.] does not match. *)
Definition line_terminators : list string :=
  map (λ l, String.string_of_list_ascii (map byte_of l))
    [[10]; [13]; [226; 128; 168]; [226; 128; 169]].
Definition has_line_terminator (s : string) : bool := existsb (includes s) line_terminators.

(** The string ends in a line terminator. *)
Definition ends_line (s : string) : bool :=
  existsb (λ t, String.eqb (slice_from (String.length s - String.length t) s) t) line_terminators.

(** The string after its first character, if that is white space. *)
Definition drop_space (s : string) : option string :=
  match s with
  | String a (String b (String c s3) as s2 as s1) =>
      if ws1 a then Some (String b (String c s3)) else
      if ws2 a b then Some (String c s3) else
      if ws3 a b c then Some s3 else None
  | String a (String b EmptyString) =>
      if ws1 a then Some (String b EmptyString) else if ws2 a b then Some EmptyString else None
  | String a EmptyString => if ws1 a then Some EmptyString else None
  | EmptyString => None
  end.

(** [s.match(/^Bearer\s+(.+)$/i)], and the trimmed capture.  [\s+] takes all the
    white space, unless nothing is left for [.+]: then it gives back its last
    character. *)
Definition bearer_match (s : string) : option string :=
  if String.eqb (lower (String.substring 0 6 s)) "bearer" then
    match drop_space (slice_from 6 s) with
    | None => None
    | Some r1 =>
        let rest := trimStart r1 in
        if String.eqb rest "" then
          if String.eqb r1 "" || ends_line r1 then None else Some ""
        else if has_line_terminator rest then None else Some (trim rest)
    end
  else None.

Section Auth.
(** [TokenSchema.safeParse(t).success]: a zod string of 10 to 4096 characters. *)
Variable TokenSchema : string → bool.

Definition parseBearer (authorizationHeader : option string) : option string :=
  if truthy_opt authorizationHeader then
    let token := default "" (bearer_match (default "" authorizationHeader)) in
    if truthy_str token then if TokenSchema token then Some token else None else None
  else None.

(** One candidate of the [Sec-WebSocket-Protocol] header. *)
Definition protocol_token (candidate : string) : option string :=
  if startsWith candidate "auth." then
    let token := slice_from 5 candidate in
    if TokenSchema token then Some token else None
  else None.

Definition candidates (header : string) : list string :=
  List.filter (λ e, negb (String.eqb e "")) (map trim (split_on "," header)).

Definition parseProtocolToken (protocolHeader : option string) : option string :=
  if truthy_opt protocolHeader then
    head (omap protocol_token (candidates (default "" protocolHeader)))
  else None.

Inductive UpgradeTokenSource := src_header | src_protocol | src_query.
Inductive UpgradeAuthResult :=
| AuthOk (token : string) (source : UpgradeTokenSource)
| MISSING_AUTH_TOKEN
| QUERY_TOKEN_NOT_ALLOWED.

Definition resolveUpgradeAuth (relayMode : RelayMode)
    (authorizationHeader protocolHeader queryToken : option string) : UpgradeAuthResult :=
  let fromHeader := parseBearer authorizationHeader in
  if truthy_opt fromHeader then AuthOk (default "" fromHeader) src_header else
  let fromProtocol := parseProtocolToken protocolHeader in
  if truthy_opt fromProtocol then AuthOk (default "" fromProtocol) src_protocol else
  let fromQuery := trim (coalesce queryToken "") in
  if negb (truthy_str fromQuery) then MISSING_AUTH_TOKEN
  else if negb (bool_decide (relayMode = dev)) then QUERY_TOKEN_NOT_ALLOWED
  else if negb (TokenSchema fromQuery) then MISSING_AUTH_TOKEN
  else AuthOk fromQuery src_query.

Lemma parseBearer_ok h t :
  parseBearer h = Some t →
  TokenSchema t = true ∧ truthy_str t = true ∧ ∃ s, h = Some s ∧ bearer_match s = Some t.
Proof.
  unfold parseBearer. destruct h as [s|]; simpl; [|done].
  destruct (truthy_str s); [|done]. destruct (bearer_match s) as [b|] eqn:Eb0; simpl; [|done].
  destruct (truthy_str b) eqn:Eb1; [|done]. destruct (TokenSchema b) eqn:Et; [|done].
  intros; simplify_eq. split_and!; eauto.
Qed.

Lemma parseProtocolToken_ok h t :
  parseProtocolToken h = Some t →
  TokenSchema t = true ∧ ∃ s c, h = Some s ∧ c ∈ candidates s ∧
    startsWith c "auth." = true ∧ t = slice_from 5 c.
Proof.
  unfold parseProtocolToken. destruct h as [s|]; simpl; [|done].
  destruct (truthy_str s); [|done]. intros Hh.
  assert (t ∈ omap protocol_token (candidates s)) as Ht.
  { destruct (omap _ _); simplify_eq/=. set_solver. }
  apply list_elem_of_omap in Ht as (c & Hc & Hp). unfold protocol_token in Hp.
  destruct (startsWith c "auth.") eqn:Es; [|done].
  destruct (TokenSchema _) eqn:Et; [|done]. simplify_eq. eauto 8.
Qed.
End Auth.

(** ** security.ts: the administrator's token *)

(** Padding to a common length, then a comparison of the padded buffers and of the
    lengths. *)
Definition bytes (s : string) : list ascii := String.list_ascii_of_string s.
Definition pad (n : nat) (l : list ascii) : list ascii := l ++ replicate (n - length l) zero.

Definition secureCompare (aRaw bRaw : string) : bool :=
  let a := bytes aRaw in
  let b := bytes bRaw in
  let compareLength := Nat.max (Nat.max (length a) (length b)) 1 in
  let equal := bool_decide (pad compareLength a = pad compareLength b) in
  equal && (length a =? length b)%nat.

Lemma secureCompare_eq a b : secureCompare a b = true ↔ a = b.
Proof.
  unfold secureCompare. rewrite andb_true_iff, bool_decide_eq_true, Nat.eqb_eq. split.
  - intros [Hp Hl]. unfold pad in Hp. apply app_inj_1 in Hp as [He _]; [|done].
    apply (f_equal String.string_of_list_ascii) in He. unfold bytes in He.
    by rewrite !String.string_of_list_ascii_of_string in He.
  - by intros ->.
Qed.

Definition extractAdminToken (authorization xRelayAdminToken : option string) : option string :=
  match authorization ≫= bearer_match with
  | Some t => Some t
  | None =>
      match xRelayAdminToken with
      | Some x => if nonblank x then Some (trim x) else None
      | None => None
      end
  end.

Section Admin.
(** SHA-256, in hexadecimal. *)
Variable hashToken : string → string.

Definition isAdminAuthorized (authorization xRelayAdminToken adminTokenHash : option string)
    (enabled : bool) : bool :=
  if negb enabled then false
  else if negb (truthy_opt adminTokenHash) then false
  else
    let headerToken := extractAdminToken authorization xRelayAdminToken in
    if negb (truthy_opt headerToken) then false
    else secureCompare (hashToken (default "" headerToken)) (default "" adminTokenHash).
End Admin.
End Upgrade.

(** ** The server's verdict (admission.ts) *)

Module Validate.
(** Property access on a JSON value. *)
Definition prop (v : json) (key : string) : option json :=
  match v with JObj f => field f key | _ => None end.

Definition truthy_json (v : option json) : bool :=
  match v with
  | None | Some JNull | Some (JBool false) => false
  | Some (JNum x) => match x with SpecFloat.S754_zero _ | SpecFloat.S754_nan => false | _ => true end
  | Some (JStr s) => truthy_str s
  | Some _ => true
  end.

Definition js_or (a b : option json) : option json := if truthy_json a then a else b.

(** What [postJson] resolves or rejects to; a body that is not JSON is [None]. *)
Inductive PostResult :=
| Responded (status : Z) (body : option json)
| Failed (message : option string).    (* [None]: not an [Error] *)

Inductive AdmissionResult :=
| AdmissionOk (status : Z) (claims : AdmissionClaims)
| AdmissionDenied (status : Z) (reason : json).

Section Validate.
(** [AdmissionClaimsSchema.safeParse]: the claims, when they fit the schema. *)
Variable AdmissionClaimsSchema : option json → option AdmissionClaims.

Definition validateAdmission (post : PostResult) : AdmissionResult :=
  match post with
  | Failed (Some m) =>
      if includes (lower m) "response too large" then
        AdmissionDenied 502 (JStr "ADMISSION_RESPONSE_TOO_LARGE")
      else AdmissionDenied 504 (JStr m)
  | Failed None => AdmissionDenied 504 (JStr "ADMISSION_TIMEOUT")
  | Responded status body =>
      if negb (truthy_json body) then AdmissionDenied status (JStr "INVALID_JSON") else
      let b := default JNull body in
      let admissionOk := (200 <=? status)%Z && (status <? 300)%Z &&
                         match prop b "ok" with Some (JBool true) => true | _ => false end in
      if negb admissionOk then
        AdmissionDenied status
          (default (JStr "VALIDATION_FAILED")
            (js_or (prop b "reason") (js_or (prop b "error") (Some (JStr "VALIDATION_FAILED")))))
      else match AdmissionClaimsSchema (prop b "claims") with
           | None => AdmissionDenied status (JStr "INVALID_CLAIMS")
           | Some claims => AdmissionOk status claims
           end
  end.
End Validate.
End Validate.

(** ** The connection's claims against its request (relay-connection-admission.ts) *)

Module Connection.
Record Rejection := {
  logEvent : string; reason : string; closeReason : string;
  logDetails : record; sendMissingRuntimeTarget : bool
}.

Inductive Result :=
| Granted (clientScopeClaim : option ClientScope) (runtimeTargetId machineId : option string)
| Rejected (r : Rejection).

Definition reject (event why close : string) (details : record) : Result :=
  Rejected {| logEvent := event; reason := why; closeReason := close;
              logDetails := details ++ [("reason", JStr why)]; sendMissingRuntimeTarget := false |}.

(** [typeof claims?.workspaceId === 'string' ? claims.workspaceId.trim() : ''] *)
Definition claimedWorkspaceId (claims : option AdmissionClaims) : string :=
  match claims ≫= cl_workspaceId with Some w => trim w | None => "" end.
Definition claimedRuntimeTargetId (claims : option AdmissionClaims) : string :=
  match claims ≫= cl_runtimeTargetId with Some t => trim t | None => "" end.

(** Whether a role and scope need a runtime target. *)
Definition needs_target (role : RelayRole) (scope : option ClientScope) : bool :=
  bool_decide (role = workspace_daemon) ||
  (bool_decide (role = client) &&
   (bool_decide (scope = Some scope_runtime) || bool_decide (scope = Some scope_session_events))).

Definition resolveConnectionAdmission (role : RelayRole) (workspaceId : string)
    (requestedRuntimeTargetId : option string) (ip : string)
    (claims : option AdmissionClaims) : Result :=
  let clientScopeClaim := claims ≫= cl_scope in
  let claimedWs := claimedWorkspaceId claims in
  if String.eqb claimedWs "" then
    reject "connection_rejected" "missing_workspace_claim" "missing workspace claim"
      [("workspaceId", JStr workspaceId); ("role", JStr (role_name role)); ("ip", JStr ip)]
  else if negb (String.eqb claimedWs workspaceId) then
    reject "connection_rejected" "workspace_claim_mismatch" "workspace claim mismatch"
      [("workspaceId", JStr workspaceId); ("claimedWorkspaceId", JStr claimedWs);
       ("role", JStr (role_name role)); ("ip", JStr ip)]
  else
  let claimedT := claimedRuntimeTargetId claims in
  if truthy_opt requestedRuntimeTargetId &&
     negb (String.eqb claimedT (default "" requestedRuntimeTargetId)) then
    reject "connection_rejected" "runtime_target_claim_mismatch" "runtime target claim mismatch"
      [("workspaceId", JStr workspaceId);
       ("requestedRuntimeTargetId", JStr (default "" requestedRuntimeTargetId));
       ("claimedRuntimeTargetId", JStr claimedT);
       ("role", JStr (role_name role)); ("ip", JStr ip)]
  else
  let runtimeTargetId :=
    if truthy_str claimedT then Some claimedT else requestedRuntimeTargetId in
  let machineId := trim <$> (claims ≫= cl_machineId) in
  if bool_decide (role = client) && negb (bool_decide (is_Some clientScopeClaim)) then
    reject "client_connection_rejected" "invalid_scope_claim" "invalid scope claim"
      [("workspaceId", JStr workspaceId); ("ip", JStr ip)]
  else if needs_target role clientScopeClaim && negb (truthy_opt runtimeTargetId) then
    Rejected {| logEvent := "connection_rejected"; reason := "missing_runtime_target_claim";
                closeReason := "missing runtime target claim";
                logDetails := [("workspaceId", JStr workspaceId); ("role", JStr (role_name role));
                               ("ip", JStr ip); ("reason", JStr "missing_runtime_target_claim")];
                sendMissingRuntimeTarget := true |}
  else Granted clientScopeClaim runtimeTargetId machineId.

(** The tests the code makes, as a proposition. *)
Definition admissible (role : RelayRole) (w : string) (req : option string)
    (claims : option AdmissionClaims) : Prop :=
  claimedWorkspaceId claims = w ∧ w ≠ "" ∧
  (truthy_opt req = true → req = Some (claimedRuntimeTargetId claims)) ∧
  (role = client → is_Some (claims ≫= cl_scope)) ∧
  (needs_target role (claims ≫= cl_scope) = true →
     claimedRuntimeTargetId claims ≠ "").

(** The target of an admissible connection. *)
Definition target_of (claims : option AdmissionClaims) (req : option string) : option string :=
  if truthy_str (claimedRuntimeTargetId claims) then Some (claimedRuntimeTargetId claims) else req.

Lemma target_test claims req :
  truthy_opt req && negb (String.eqb (claimedRuntimeTargetId claims) (default "" req)) = false ↔
  (truthy_opt req = true → req = Some (claimedRuntimeTargetId claims)).
Proof.
  destruct req as [r|]; simpl; [|done]. destruct (truthy_str r); simpl; [|naive_solver].
  rewrite negb_false_iff, String.eqb_eq. naive_solver.
Qed.

Lemma scope_test (role : RelayRole) (scope : option ClientScope) :
  bool_decide (role = client) && negb (bool_decide (is_Some scope)) = false ↔
  (role = client → is_Some scope).
Proof.
  rewrite andb_false_iff, negb_false_iff, bool_decide_eq_true, bool_decide_eq_false.
  split; [tauto|]. intros H. destruct (decide (role = client)); tauto.
Qed.

Lemma target_of_truthy claims req :
  (truthy_opt req = true → req = Some (claimedRuntimeTargetId claims)) →
  truthy_opt (target_of claims req) = true ↔ claimedRuntimeTargetId claims ≠ "".
Proof.
  intros Hreq. rewrite <-truthy_str_true. unfold target_of.
  destruct (truthy_str (claimedRuntimeTargetId claims)) eqn:E; [done|].
  split; [|done]. intros Hr. specialize (Hreq Hr) as ->. simpl in Hr. congruence.
Qed.

Lemma granted_iff role w req ip claims scope target machine :
  resolveConnectionAdmission role w req ip claims = Granted scope target machine ↔
  admissible role w req claims ∧ scope = claims ≫= cl_scope ∧
  target = target_of claims req ∧ machine = trim <$> (claims ≫= cl_machineId).
Proof.
  unfold resolveConnectionAdmission, reject, admissible. cbv zeta. fold (target_of claims req).
  destruct (String.eqb_spec (claimedWorkspaceId claims) "") as [Hw|Hw]; [naive_solver|].
  destruct (String.eqb_spec (claimedWorkspaceId claims) w) as [Ew|Ew]; simpl; [|naive_solver].
  destruct (_ && _) eqn:Et.
  { split; [done|]. intros [(_ & _ & H & _) _]. apply (proj2 (target_test _ _)) in H. congruence. }
  pose proof (proj1 (target_test _ _) Et) as Hreq.
  destruct (bool_decide (role = client) && _) eqn:Es.
  { split; [done|]. intros [(_ & _ & _ & H & _) _]. apply (proj2 (scope_test _ _)) in H. congruence. }
  pose proof (proj1 (scope_test _ _) Es) as Hsc. pose proof (target_of_truthy claims req Hreq) as Ht.
  destruct (needs_target _ _) eqn:En; simpl.
  - destruct (truthy_opt (target_of claims req)) eqn:E; simpl; split.
    + intros; simplify_eq. naive_solver.
    + by intros (_ & -> & -> & ->).
    + done.
    + intros [(_ & _ & _ & _ & H) _]. naive_solver.
  - split; [intros; simplify_eq; naive_solver|]. by intros (_ & -> & -> & ->).
Qed.
End Connection.

(** ** Properties *)

(** A connection is admitted exactly when the workspace claim names the requested
    workspace, the target claim names the requested target if there is one, a client
    has a scope, and daemons and runtime or session-event clients claim a target; the
    scope and target used afterwards are those of the claims. *)
Theorem connection_admission_iff role w req ip claims scope target :
  (∃ machine, Connection.resolveConnectionAdmission role w req ip claims =
     Connection.Granted scope target machine) ↔
  (Connection.claimedWorkspaceId claims = w ∧ w ≠ "" ∧
   (truthy_opt req = true → req = Some (Connection.claimedRuntimeTargetId claims)) ∧
   (role = client → is_Some (claims ≫= cl_scope)) ∧
   (Connection.needs_target role (claims ≫= cl_scope) = true →
      Connection.claimedRuntimeTargetId claims ≠ "")) ∧
  scope = claims ≫= cl_scope ∧
  target = (if truthy_str (Connection.claimedRuntimeTargetId claims)
            then Some (Connection.claimedRuntimeTargetId claims) else req).
Proof.
  setoid_rewrite Connection.granted_iff. unfold Connection.admissible, Connection.target_of.
  naive_solver.
Qed.

Lemma scope_key_truthy w t : truthy_opt t = true → ∃ u, t = Some u ∧ u ≠ "" ∧
  Status.runtimeScopeKey w t = w +:+ String ":" u.
Proof.
  intros H. unfold Status.runtimeScopeKey. rewrite H. destruct t as [u|]; [|done].
  exists u. split; [done|]. split; [by apply truthy_str_true|]. done.
Qed.

Lemma scope_key_falsy w t : truthy_opt t = false → Status.runtimeScopeKey w t = w.
Proof. intros H. unfold Status.runtimeScopeKey. by rewrite H. Qed.

Lemma has_char_sep c w u : has_char c (w +:+ String c u) = true.
Proof. by rewrite has_char_app, has_char_cons, Ascii.eqb_refl, orb_true_r. Qed.

Lemma runtimeScopeKey_inj w1 t1 w2 t2 :
  has_char ":" w1 = false → has_char ":" w2 = false →
  Status.runtimeScopeKey w1 t1 = Status.runtimeScopeKey w2 t2 →
  w1 = w2 ∧ truthy_opt t1 = truthy_opt t2 ∧ (truthy_opt t1 = true → t1 = t2).
Proof.
  intros H1 H2.
  destruct (truthy_opt t1) eqn:E1, (truthy_opt t2) eqn:E2;
    try (apply scope_key_truthy with (w := w1) in E1 as (u1 & -> & _ & ->));
    try (apply scope_key_truthy with (w := w2) in E2 as (u2 & -> & _ & ->));
    rewrite ?scope_key_falsy by done.
  - intros [-> ->]%append_sep_inj; done.
  - intros <-. by rewrite has_char_sep in H2.
  - intros ->. by rewrite has_char_sep in H1.
  - by intros ->.
Qed.

(** Scope keys identify the workspace and the runtime target, for workspace
    identifiers without a colon. *)
Theorem scope_key_inj w1 t1 w2 t2 :
  has_char ":" w1 = false → has_char ":" w2 = false →
  Status.runtimeScopeKey w1 t1 = Status.runtimeScopeKey w2 t2 →
  w1 = w2 ∧ truthy_opt t1 = truthy_opt t2 ∧ (truthy_opt t1 = true → t1 = t2).
Proof. apply runtimeScopeKey_inj. Qed.

Lemma scope_key_inj_witness :
  Status.runtimeScopeKey "wrk_1" (Some "rt_a") = Status.runtimeScopeKey "wrk_1" (Some "rt_a") ∧
  Some "rt_a" = Some "rt_a".
Proof.
  split; [reflexivity|].
  eapply (scope_key_inj "wrk_1" (Some "rt_a") "wrk_1" (Some "rt_a")); reflexivity.
Defined.

(** The request schema and the claims allow a colon in a workspace identifier: then
    two workspaces share a key. *)
Lemma scope_key_collision :
  Status.runtimeScopeKey "acme" (Some "eu:rt") = Status.runtimeScopeKey "acme:eu" (Some "rt").
Proof. reflexivity. Qed.

(** An upgrade is authenticated by a token of the schema only, taken from the
    Authorization header, else from the first usable [auth.] subprotocol, else from
    the query string, and from the query string in development mode only. *)
Theorem upgrade_auth_spec (TokenSchema : string → bool) mode auth proto query t src :
  Upgrade.resolveUpgradeAuth TokenSchema mode auth proto query = Upgrade.AuthOk t src →
  TokenSchema t = true ∧ t ≠ "" ∧
  match src with
  | Upgrade.src_header => auth ≫= Upgrade.bearer_match = Some t
  | Upgrade.src_protocol =>
      Upgrade.parseBearer TokenSchema auth = None ∧
      ∃ s c, proto = Some s ∧ c ∈ Upgrade.candidates s ∧
        startsWith c "auth." = true ∧ t = slice_from 5 c
  | Upgrade.src_query =>
      mode = dev ∧ Upgrade.parseBearer TokenSchema auth = None ∧
      truthy_opt (Upgrade.parseProtocolToken TokenSchema proto) = false ∧
      trim <$> query = Some t
  end.
Proof.
  unfold Upgrade.resolveUpgradeAuth.
  destruct (Upgrade.parseBearer TokenSchema auth) as [b|] eqn:Eb; simpl.
  { pose proof (Upgrade.parseBearer_ok _ _ _ Eb) as (? & Ht & s & -> & Hm). rewrite Ht.
    intros; simplify_eq. by apply truthy_str_true in Ht. }
  destruct (Upgrade.parseProtocolToken TokenSchema proto) as [p|] eqn:Ep; simpl.
  - pose proof (Upgrade.parseProtocolToken_ok _ _ _ Ep) as (? & Hs).
    destruct (truthy_str p) eqn:Et.
    + intros; simplify_eq. apply truthy_str_true in Et. eauto.
    + unfold coalesce. destruct query as [q|]; [|done]. simpl. branches. intros; simplify_eq.
      split_bools. by rewrite truthy_str_true in *.
  - unfold coalesce. destruct query as [q|]; [|done]. simpl. branches. intros; simplify_eq.
    split_bools. by rewrite truthy_str_true in *.
Qed.

Lemma upgrade_auth_spec_witness :
  Some "tok-0123456789" = Some "tok-0123456789".
Proof.
  exact (proj2 (proj2 (upgrade_auth_spec (λ t, (10 <=? js_length t)%Z) prod
    (Some "bearer  tok-0123456789 ") None None "tok-0123456789" Upgrade.src_header eq_refl))).
Defined.

(** An administrator's request is authorized exactly when the endpoints are
    enabled, a token hash is configured and the hash of a non-empty presented token
    is that hash. *)
Theorem admin_authorized_iff (hashToken : string → string) auth xtoken hash enabled :
  Upgrade.isAdminAuthorized hashToken auth xtoken hash enabled = true ↔
  enabled = true ∧ ∃ h t, hash = Some h ∧ h ≠ "" ∧ t ≠ "" ∧
    Upgrade.extractAdminToken auth xtoken = Some t ∧ hashToken t = h.
Proof.
  unfold Upgrade.isAdminAuthorized. destruct enabled; simpl; [|naive_solver].
  destruct hash as [h|]; simpl; [|naive_solver].
  destruct (truthy_str h) eqn:Eh; simpl.
  - apply truthy_str_true in Eh.
    destruct (Upgrade.extractAdminToken auth xtoken) as [t|]; simpl; [|naive_solver].
    destruct (truthy_str t) eqn:Et; simpl.
    + apply truthy_str_true in Et. rewrite Upgrade.secureCompare_eq. naive_solver.
    + assert (t = "") by (by apply negb_false_iff, String.eqb_eq in Et). naive_solver.
  - assert (h = "") by (by apply negb_false_iff, String.eqb_eq in Eh). naive_solver.
Qed.

(** The server's verdict admits a connection exactly when the response is a 2xx
    JSON object with [ok: true] whose claims fit the schema; a failed or oversized
    call, a body that is not JSON and unknown claims are denials. *)
Theorem validate_admission_iff (Schema : option json → option AdmissionClaims) post status claims :
  Validate.validateAdmission Schema post = Validate.AdmissionOk status claims ↔
  ∃ body, post = Validate.Responded status (Some (JObj body)) ∧
    (200 ≤ status < 300)%Z ∧ field body "ok" = Some (JBool true) ∧
    Schema (field body "claims") = Some claims.
Proof.
  destruct post as [st body|[m|]]; simpl; [|case_match|]; try naive_solver.
  destruct body as [b|]; simpl; [|naive_solver].
  destruct b as [| | | | |f]; try (by repeat case_match; naive_solver).
  all: try (simpl; repeat case_match; rewrite ?andb_false_r in *; naive_solver).
  simpl. destruct (field f "ok") as [[|[]| | | |]|] eqn:Eok;
    rewrite ?andb_false_r, ?andb_true_r; simpl; try naive_solver.
  destruct ((200 <=? st)%Z && (st <? 300)%Z) eqn:Est; simpl.
  - split_bools. destruct (Schema (field f "claims")) eqn:Ec; naive_solver.
  - split; [done|]. intros (body & ? & ? & _). simplify_eq.
    rewrite andb_false_iff, Z.leb_gt, Z.ltb_ge in Est. lia.
Qed.
