(* ===== verification/Address.v ===== *)
(** * The address of a client (services/relay/src/security.ts, lines 5-21 and 67-118)

    The relay counts connections and upgrades by address; behind a proxy that is
    configured as trusted the address is the one the proxy forwards.  [net.isIP] and the
    matching of [net.BlockList] are arguments; [Number] of a string is modelled. *)

From S2P Require Import Prelude JsString JsMap Json.
From stdpp Require Import prelude strings list.
From Stdlib Require Import ZArith Lia Ascii.

(** ** [Number(text)] *)

Module Num.
Definition radix_digits (radix : nat) (l : list ascii) : option Z :=
  match l with
  | [] => None
  | _ => foldl (λ acc a, n ← acc; d ← hex_val a;
                  if (d <? radix)%nat then Some (Z.of_nat radix * n + Z.of_nat d)%Z else None) (Some 0%Z) l
  end.

(** [StrUnsignedDecimalLiteral] without [Infinity], with the sign before it: digits,
    a point and digits, one of the two not empty, and an exponent. *)
Definition decimal (neg : bool) (l : list ascii) : option SpecFloat.spec_float :=
  let '(int, l2) := span is_digit l in
  let '(frac, l3) := match l2 with
    | a :: r => if is_char "." a then span is_digit r else ([], l2)
    | [] => ([], []) end in
  let '(ex, ex_ok, l4) := match l3 with
    | a :: r => if is_char "e" a || is_char "E" a then
        let '(sg, r1) := match r with
          | b :: r' => if is_char "-" b then (true, r')
                       else if is_char "+" b then (false, r') else (false, r)
          | [] => (false, []) end in
        let '(ds, r2) := span is_digit r1 in
        ((if sg : bool then Z.opp else id) (Z.of_N (digits_value ds)),
          negb (bool_decide (ds = [])), r2)
        else (0%Z, true, l3)
    | [] => (0%Z, true, []) end in
  let ds := drop_zeros (int ++ frac) in
  if negb (bool_decide (int ++ frac = [])) && ex_ok && bool_decide (l4 = []) then
    Some (num_of_decimal neg (digits_value ds) (Z.of_nat (length ds)) (ex - Z.of_nat (length frac)))
  else None.

(** The number, or [None] for [NaN]. *)
Definition Number (text : string) : option SpecFloat.spec_float :=
  let l := String.list_ascii_of_string (trim text) in
  match l with
  | [] => Some (SpecFloat.S754_zero false)
  | z :: b :: rest =>
      if is_char "0" z && (is_char "x" b || is_char "X" b) then num_of_Z <$> radix_digits 16 rest
      else if is_char "0" z && (is_char "o" b || is_char "O" b) then num_of_Z <$> radix_digits 8 rest
      else if is_char "0" z && (is_char "b" b || is_char "B" b) then num_of_Z <$> radix_digits 2 rest
      else if is_char "-" z then
        if String.eqb (trim text) "-Infinity" then Some (SpecFloat.S754_infinity true) else decimal true (b :: rest)
      else if is_char "+" z then
        if String.eqb (trim text) "+Infinity" then Some (SpecFloat.S754_infinity false) else decimal false (b :: rest)
      else if String.eqb (trim text) "Infinity" then Some (SpecFloat.S754_infinity false)
      else decimal false l
  | _ => decimal false l
  end.

Example number_values :
  map (λ t, num_to_Z <$> Number t) [""; " 24 "; "0x10"; "8.0"; "1e1"; "-1"; "1/2"; "abc"; "."; "-"] =
  [Some (Some 0); Some (Some 24); Some (Some 16); Some (Some 8); Some (Some 10); Some (Some (-1));
   None; None; None; None]%Z.
Proof. vm_compute. reflexivity. Qed.
End Num.

(** ** security.ts *)

Inductive Family := ipv4 | ipv6.
#[export] Instance Family_eq_dec : EqDecision Family.
Proof. solve_decision. Defined.

(** The entries of a [net.BlockList]. *)
Inductive rule := RAddress (ip : string) (f : Family) | RSubnet (ip : string) (prefix : Z) (f : Family).

Section Address.
(** [net.isIP]: 4, 6, or 0 for a text that is no address. *)
Variable isIP : string → option Family.
(** Whether an address of a family is one of an entry's. *)
Variable matches : rule → string → Family → bool.

Definition normalizeIp (value : string) : string :=
  if startsWith value "::ffff:" then slice_from 7 value else value.

(** [s.slice(0, i)] and [s.slice(i + 1)] at the first ['/']. *)
Fixpoint cut_slash (s : string) : option (string * string) :=
  match s with
  | EmptyString => None
  | String a s' => if is_char "/" a then Some ("", s') else
                   '(x, y) ← cut_slash s'; Some (String a x, y)
  end.

Definition max_prefix (f : Family) : Z := match f with ipv4 => 32 | ipv6 => 128 end.

(** What one entry of [trustedProxies] adds. *)
Definition proxy_rule (rawEntry : string) : option rule :=
  let entry := normalizeIp (trim rawEntry) in
  if negb (truthy_str entry) then None else
  match cut_slash entry with
  | None => f ← isIP entry; Some (RAddress entry f)
  | Some (ipPart, prefixPart) =>
      let ip := normalizeIp ipPart in
      prefix ← (x ← Num.Number prefixPart; num_to_Z x);
      f ← isIP ip;
      if (prefix <? 0)%Z || (max_prefix f <? prefix)%Z then None else Some (RSubnet ip prefix f)
  end.

Definition buildTrustedProxyMatcher (trustedProxies : list string) : list rule := omap proxy_rule trustedProxies.

Definition isTrustedProxyAddress (remoteAddress : string) (trustedProxies : list string) : bool :=
  let remote := normalizeIp remoteAddress in
  match isIP remote with
  | None => false
  | Some f => existsb (λ r, matches r remote f) (buildTrustedProxyMatcher trustedProxies)
  end.

Definition first_item (header : string) : string :=
  match split_on "," header with w :: _ => w | [] => "" end.

Definition extractIpAddressWithTrustedProxies (remoteAddress forwarded : option string)
    (trustedProxies : list string) : string :=
  let remote := normalizeIp (match remoteAddress with
    | Some a => if truthy_str a then a else "unknown" | None => "unknown" end) in
  match forwarded with
  | Some header =>
      if isTrustedProxyAddress remote trustedProxies && nonblank header then
        let first := trim (first_item header) in
        normalizeIp (if truthy_str first then first else "unknown")
      else remote
  | None => remote
  end.

Definition extractIpAddress (remoteAddress forwarded : option string) : string :=
  extractIpAddressWithTrustedProxies remoteAddress forwarded [].

(** The address of the peer, as the relay writes it. *)
Definition peer (remoteAddress : option string) : string :=
  normalizeIp (match remoteAddress with
    | Some a => if truthy_str a then a else "unknown" | None => "unknown" end).
End Address.

(** A client chooses the address it is counted under only through a configured proxy:
    the address is the peer's own unless the peer is, by its normalized address, in
    one of the entries of [trustedProxies] that are an address or a subnet with a
    prefix in range, and then it is the first item of the header. *)
Theorem forwarded_needs_trust isIP matches remote forwarded proxies :
  extractIpAddressWithTrustedProxies isIP matches remote forwarded proxies = peer remote ∨
  ∃ header entry r f,
    forwarded = Some header ∧ entry ∈ proxies ∧ proxy_rule isIP entry = Some r ∧
    isIP (normalizeIp (peer remote)) = Some f ∧ matches r (normalizeIp (peer remote)) f = true ∧
    match r with RAddress _ _ => True | RSubnet _ p g => (0 ≤ p ≤ max_prefix g)%Z end ∧
    extractIpAddressWithTrustedProxies isIP matches remote forwarded proxies =
      normalizeIp (let first := trim (first_item header) in if truthy_str first then first else "unknown").
Proof.
  unfold extractIpAddressWithTrustedProxies. fold (peer remote).
  destruct forwarded as [header|]; [|by left].
  destruct (isTrustedProxyAddress _ _ _ _) eqn:Et; [|by left].
  destruct (nonblank header); [|by left]. right. unfold isTrustedProxyAddress in Et.
  destruct (isIP _) as [f|] eqn:Ef; [|done]. apply existsb_exists in Et as (r & Hin & Hm).
  apply list_elem_of_In in Hin. unfold buildTrustedProxyMatcher in Hin.
  apply list_elem_of_omap in Hin as (entry & He & Hr).
  exists header, entry, r, f. split_and!; try done.
  destruct r as [|ip p g]; [done|]. unfold proxy_rule in Hr. cbv zeta in Hr.
  destruct (negb _); [done|]. destruct (cut_slash _) as [[ipPart prefixPart]|]; 
    [|by destruct (isIP (normalizeIp (trim entry))); simplify_eq/=].
  destruct (Num.Number prefixPart) as [x|]; [|done]. simpl in Hr.
  destruct (num_to_Z x) as [n|]; [|done]. simpl in Hr. destruct (isIP (normalizeIp ipPart)) as [h|]; [|done].
  simpl in Hr. destruct (_ || _) eqn:Eb; simplify_eq. split_bools. lia.
Qed.

(** An entry with nothing after the slash is the subnet of every address: [Number] of the
    empty string is 0. *)
Lemma empty_prefix_trusts_all isIP :
  isIP "10.0.0.1" = Some ipv4 → proxy_rule isIP "10.0.0.1/" = Some (RSubnet "10.0.0.1" 0 ipv4).
Proof.
  intros H. unfold proxy_rule. change (normalizeIp (trim "10.0.0.1/")) with "10.0.0.1/".
  cbn -[Num.Number]. change (normalizeIp "10.0.0.1") with "10.0.0.1". rewrite H.
  by vm_compute.
Qed.
