(* ===== verification/RelayState.v ===== *)
(** * The state and the effects of a relay process

    [RelayState] gathers what services/relay/src/index.ts keeps: the registry, the
    sockets, the handlers attached to them, the counters and the rate limiters, and
    the continuations of the asynchronous calls that are in flight.  Handlers are
    programs of a state monad [M]; what they send to the outside (frames, closes,
    calls to the backplane, log lines) is the trace.  The last part is a small program
    logic for [M], [triple]. *)

From S2P Require Import Prelude JsString JsMap Json Frames RateLimit Registry Admission.
From stdpp Require Import prelude strings list.
From Stdlib Require Import ZArith Lia.

(** ** Configuration (the fields of config.ts that the relay's core reads) *)

Record RelayConfig := {
  relayMode : RelayMode;
  relayId : string;
  publicWsBaseUrl : string;
  clientRedirectEnabled : bool;
  presenceSyncEnabled : bool;
  maxFrameBytes : Z;
  maxPendingBytes : Z;
  maxPairingRequestTrack : Z;
  maxSessionOwnerTrack : Z;
  maxTotalConnections : Z;
  maxConnectionsPerIp : Z;
  maxClientsPerWorkspace : Z;
  emptyWorkspaceTtlMs : Z;
  idleTimeoutMs : Z;
  pongTimeoutMs : Z;
  maxUpgradeRatePerMinute : Z; maxUpgradeRateBuckets : Z;
  maxKeyExchangeInitPerMinute : Z; kexRateLimiterMaxKeys : Z;
  maxPairingFramesPerMinute : Z; pairingRateLimiterMaxKeys : Z;
  maxRuntimeFramesPerMinute : Z; runtimeRateLimiterMaxKeys : Z;
  maxRuntimeFramesPerMinuteWorkspace : Z; runtimeWorkspaceRateLimiterMaxKeys : Z;
  maxDaemonRuntimeFramesPerMinute : Z; daemonRateLimiterMaxKeys : Z
}.

(** ** Sockets *)

Inductive ReadyState := CONNECTING | OPEN | CLOSING | CLOSED.
#[export] Instance ReadyState_eq_dec : EqDecision ReadyState.
Proof. solve_decision. Defined.

(** The fields of a [ws] socket the relay reads. *)
Record Sock := { readyState : ReadyState; bufferedAmount : Z }.

(** What the handlers that [registerConnection] attaches to a socket capture; it
    includes what [wsIp], [wsWorkspace] and [wsRole] record. *)
Record Conn := {
  c_role : RelayRole;
  c_workspaceId : string;
  c_scopeKey : string;
  c_runtimeTargetId : option string;
  c_machineId : option string;
  c_ip : string;
  c_claims : option AdmissionClaims
}.

Record Heartbeat := {
  awaitingPong : bool; lastPongAt : Z; pingSentAt : Z; hb_lastActivityAt : Z
}.

Record Limiters := {
  kexFrames : FixedWindow.buckets;
  pairingFrames : FixedWindow.buckets;
  runtimeClient : TokenBucket.buckets;
  runtimeWorkspace : TokenBucket.buckets;
  daemonFrames : TokenBucket.buckets;
  upgrades : FixedWindow.buckets
}.

(** ** Effects *)

(** A frame on the wire: the text of another peer, or [JSON.stringify] of a value
    the relay builds. *)
Inductive payload := PText (text : string) | PJson (value : record).

Inductive effect :=
| ESend (ws : WebSocket) (p : payload)
| EClose (ws : WebSocket) (code : Z) (reason : string)
| ETerminate (ws : WebSocket) (reason : string)
| EPing (ws : WebSocket)
| ELog (level event : string) (details : record)
| EResolvePresence (workspaceId runtimeTargetId : string)
| EUpsertPresence (workspaceId : string) (connected : bool) (runtimeTargetId machineId : option string)
| EPublishClientToDaemon (workspaceId runtimeTargetId : string) (machineId : option string)
    (text : string) (targetRelayId : string)
| EPublishDaemonToClients (workspaceId runtimeTargetId text targetRelayId : string)
| EFetch (method path : string) (headers : list (string * string)) (body : option string).

(** ** Calls in flight *)

Record RuntimeRoutingTarget := {
  rt_workspaceId : string; rt_runtimeTargetId : string; rt_machineId : option string;
  rt_clientId : string; rt_payload : string
}.

(** An upgrade request whose query was valid (index.ts). *)
Record UpgradeRequest := {
  up_role : RelayRole; up_workspaceId : string; up_runtimeTargetId : option string; up_ip : string
}.

(** What resumes when an awaited call answers. *)
Inductive Task :=
| AwaitAdmission (request : UpgradeRequest)
| AwaitUpgradePresence (request : UpgradeRequest) (claims : AdmissionClaims)
| AwaitPresence (ws : WebSocket) (target : RuntimeRoutingTarget)
| AwaitPublish (ws : WebSocket) (target : RuntimeRoutingTarget) (preferredRelay : string)
| AwaitFetch (ws : WebSocket) (workspaceId requestId method path managedExecutorId : string).

Record RelayState := {
  registry : Registry;
  socks : list (WebSocket * Sock);
  conns : list (WebSocket * Conn);
  heartbeats : list (WebSocket * Heartbeat);
  ipConnectionCounts : list (string * Z);
  limiters : Limiters;
  counters : list (string * Z);
  gauges : list (string * Z);
  pending : list Task;
  trace : list effect
}.

Definition initial_state : RelayState :=
  {| registry := []; socks := []; conns := []; heartbeats := []; ipConnectionCounts := [];
     limiters := {| kexFrames := []; pairingFrames := []; runtimeClient := [];
                    runtimeWorkspace := []; daemonFrames := []; upgrades := [] |};
     counters := []; gauges := []; pending := []; trace := [] |}.

(** *** Assignments to one field *)

Definition put_registry (x : Registry) (s : RelayState) : RelayState :=
  {| registry := x; socks := socks s; conns := conns s; heartbeats := heartbeats s;
     ipConnectionCounts := ipConnectionCounts s; limiters := limiters s;
     counters := counters s; gauges := gauges s; pending := pending s; trace := trace s |}.
Definition put_socks (x : list (WebSocket * Sock)) (s : RelayState) : RelayState :=
  {| registry := registry s; socks := x; conns := conns s; heartbeats := heartbeats s;
     ipConnectionCounts := ipConnectionCounts s; limiters := limiters s;
     counters := counters s; gauges := gauges s; pending := pending s; trace := trace s |}.
Definition put_conns (x : list (WebSocket * Conn)) (s : RelayState) : RelayState :=
  {| registry := registry s; socks := socks s; conns := x; heartbeats := heartbeats s;
     ipConnectionCounts := ipConnectionCounts s; limiters := limiters s;
     counters := counters s; gauges := gauges s; pending := pending s; trace := trace s |}.
Definition put_heartbeats (x : list (WebSocket * Heartbeat)) (s : RelayState) : RelayState :=
  {| registry := registry s; socks := socks s; conns := conns s; heartbeats := x;
     ipConnectionCounts := ipConnectionCounts s; limiters := limiters s;
     counters := counters s; gauges := gauges s; pending := pending s; trace := trace s |}.
Definition put_ipConnectionCounts (x : list (string * Z)) (s : RelayState) : RelayState :=
  {| registry := registry s; socks := socks s; conns := conns s;
     heartbeats := heartbeats s; ipConnectionCounts := x; limiters := limiters s;
     counters := counters s; gauges := gauges s; pending := pending s; trace := trace s |}.
Definition put_limiters (x : Limiters) (s : RelayState) : RelayState :=
  {| registry := registry s; socks := socks s; conns := conns s;
     heartbeats := heartbeats s; ipConnectionCounts := ipConnectionCounts s; limiters := x;
     counters := counters s; gauges := gauges s; pending := pending s; trace := trace s |}.
Definition put_counters (x : list (string * Z)) (s : RelayState) : RelayState :=
  {| registry := registry s; socks := socks s; conns := conns s;
     heartbeats := heartbeats s; ipConnectionCounts := ipConnectionCounts s;
     limiters := limiters s; counters := x; gauges := gauges s; pending := pending s;
     trace := trace s |}.
Definition put_gauges (x : list (string * Z)) (s : RelayState) : RelayState :=
  {| registry := registry s; socks := socks s; conns := conns s;
     heartbeats := heartbeats s; ipConnectionCounts := ipConnectionCounts s;
     limiters := limiters s; counters := counters s; gauges := x; pending := pending s;
     trace := trace s |}.
Definition put_pending (x : list Task) (s : RelayState) : RelayState :=
  {| registry := registry s; socks := socks s; conns := conns s;
     heartbeats := heartbeats s; ipConnectionCounts := ipConnectionCounts s;
     limiters := limiters s; counters := counters s; gauges := gauges s; pending := x;
     trace := trace s |}.
Definition put_trace (x : list effect) (s : RelayState) : RelayState :=
  {| registry := registry s; socks := socks s; conns := conns s;
     heartbeats := heartbeats s; ipConnectionCounts := ipConnectionCounts s;
     limiters := limiters s; counters := counters s; gauges := gauges s;
     pending := pending s; trace := x |}.
Definition put_kexFrames (x : FixedWindow.buckets) (l : Limiters) : Limiters :=
  {| kexFrames := x; pairingFrames := pairingFrames l; runtimeClient := runtimeClient l;
     runtimeWorkspace := runtimeWorkspace l; daemonFrames := daemonFrames l;
     upgrades := upgrades l |}.
Definition put_pairingFrames (x : FixedWindow.buckets) (l : Limiters) : Limiters :=
  {| kexFrames := kexFrames l; pairingFrames := x; runtimeClient := runtimeClient l;
     runtimeWorkspace := runtimeWorkspace l; daemonFrames := daemonFrames l;
     upgrades := upgrades l |}.
Definition put_runtimeClient (x : TokenBucket.buckets) (l : Limiters) : Limiters :=
  {| kexFrames := kexFrames l; pairingFrames := pairingFrames l; runtimeClient := x;
     runtimeWorkspace := runtimeWorkspace l; daemonFrames := daemonFrames l;
     upgrades := upgrades l |}.
Definition put_runtimeWorkspace (x : TokenBucket.buckets) (l : Limiters) : Limiters :=
  {| kexFrames := kexFrames l; pairingFrames := pairingFrames l;
     runtimeClient := runtimeClient l; runtimeWorkspace := x;
     daemonFrames := daemonFrames l; upgrades := upgrades l |}.
Definition put_daemonFrames (x : TokenBucket.buckets) (l : Limiters) : Limiters :=
  {| kexFrames := kexFrames l; pairingFrames := pairingFrames l;
     runtimeClient := runtimeClient l; runtimeWorkspace := runtimeWorkspace l;
     daemonFrames := x; upgrades := upgrades l |}.
Definition put_upgrades (x : FixedWindow.buckets) (l : Limiters) : Limiters :=
  {| kexFrames := kexFrames l; pairingFrames := pairingFrames l;
     runtimeClient := runtimeClient l; runtimeWorkspace := runtimeWorkspace l;
     daemonFrames := daemonFrames l; upgrades := x |}.

(** ** The monad of the handlers *)

Definition M (A : Type) : Type := RelayState → A * RelayState.

Definition ret {A} (a : A) : M A := λ s, (a, s).
Definition bind {A B} (m : M A) (k : A → M B) : M B := λ s, let '(a, s') := m s in k a s'.

Declare Scope relay_scope.
Notation "x ← y ; z" := (bind y (λ x, z)) : relay_scope.
Notation "x ;; z" := (bind x (λ _, z)) : relay_scope.
Open Scope relay_scope.

Definition gets {A} (f : RelayState → A) : M A := λ s, (f s, s).
Definition modify (f : RelayState → RelayState) : M unit := λ s, (tt, f s).

(** ** Primitives *)

Definition emit (e : effect) : M unit := modify (λ s, put_trace (trace s ++ [e]) s).

(** [metrics.increment(name, by)] and [metrics.setGauge] (metrics.ts). *)
Definition increment_by (name : string) (by_ : Z) : M unit :=
  modify (λ s, put_counters (jm_set name (default 0 (jm_get name (counters s)) + by_)%Z (counters s)) s).
Definition increment (name : string) : M unit := increment_by name 1.
Definition setGauge (name : string) (value : Z) : M unit :=
  modify (λ s, put_gauges (jm_set name value (gauges s)) s).

Definition log_warn (event : string) (details : record) : M unit := emit (ELog "warn" event details).
Definition log_info (event : string) (details : record) : M unit := emit (ELog "info" event details).

Definition ready (ws : WebSocket) (s : RelayState) : ReadyState :=
  from_option readyState CLOSED (jm_get ws (socks s)).
Definition is_open (ws : WebSocket) (s : RelayState) : bool := bool_decide (ready ws s = OPEN).
Definition isOpen (ws : WebSocket) : M bool := gets (is_open ws).

(** [ws.close(code, reason)]: the WebSocket standard moves an open socket to
    [CLOSING]. *)
Definition start_closing (k : Sock) : Sock :=
  {| readyState := match readyState k with CLOSED => CLOSED | _ => CLOSING end;
     bufferedAmount := bufferedAmount k |}.
Definition closeWithReason (ws : WebSocket) (code : Z) (reason : string) : M unit :=
  emit (EClose ws code reason);; modify (λ s, put_socks (jm_alter start_closing ws (socks s)) s).

(** ** The scope's state *)

(** The registry's entry of a key; [getOrCreate] made it before any use. *)
Definition entry (key : string) (s : RelayState) : WorkspaceState :=
  default (new_state key None 0) (jm_get key (registry s)).
Definition current (key : string) : M WorkspaceState := gets (entry key).
Definition mutate (key : string) (f : WorkspaceState → WorkspaceState) : M unit :=
  modify (λ s, put_registry (jm_alter f key (registry s)) s).
Definition on_registry (f : Registry → Registry) : M unit :=
  modify (λ s, put_registry (f (registry s)) s).

(** ** A program logic

    [triple I m R]: from a state in [I], [m] ends in a state in [I] with a result in
    [R]. *)

Definition triple {A} (I : RelayState → Prop) (m : M A) (R : A → Prop) : Prop :=
  ∀ s, I s → I (m s).2 ∧ R (m s).1.
Notation preserves I m := (triple I m (λ _, True)).

Section Triple.
Context (I : RelayState → Prop).

Lemma triple_ret {A} (a : A) (R : A → Prop) : R a → triple I (ret a) R.
Proof. by intros ? s. Qed.

Lemma triple_bind {A B} (m : M A) (k : A → M B) (R : A → Prop) (Q : B → Prop) :
  triple I m R → (∀ a, R a → triple I (k a) Q) → triple I (bind m k) Q.
Proof.
  intros Hm Hk s Hs. specialize (Hm s Hs) as [HI HR].
  unfold bind. destruct (m s) as [a s'] eqn:E. simpl in *. by apply Hk.
Qed.

Lemma preserves_bind {A B} (m : M A) (k : A → M B) (Q : B → Prop) :
  preserves I m → (∀ a, triple I (k a) Q) → triple I (bind m k) Q.
Proof. intros Hm Hk. eapply triple_bind; [apply Hm|auto]. Qed.

Lemma triple_weaken {A} (m : M A) (R Q : A → Prop) :
  triple I m R → (∀ a, R a → Q a) → triple I m Q.
Proof. intros Hm HQ s Hs. destruct (Hm s Hs); auto. Qed.

Lemma preserves_of {A} (m : M A) (R : A → Prop) : triple I m R → preserves I m.
Proof. intros. by eapply triple_weaken. Qed.

Lemma triple_gets {A} (f : RelayState → A) (R : A → Prop) :
  (∀ s, I s → R (f s)) → triple I (gets f) R.
Proof. intros H s Hs. simpl. auto. Qed.

Lemma preserves_gets {A} (f : RelayState → A) : preserves I (gets f).
Proof. by apply triple_gets. Qed.

Lemma preserves_modify f : (∀ s, I s → I (f s)) → preserves I (modify f).
Proof. intros H s Hs. simpl. auto. Qed.
End Triple.
