(* ===== verification/Routing.v ===== *)
(** * Frame routing (services/relay/src/relay-routing.ts, relay-runtime-routing.ts)

    The handlers in the order of the source, as programs of the monad [M].  One event
    reads the clock once ([now]).  The [state] object a connection captures is the
    registry's entry under the connection's scope key.  The limiters of the routing
    context are always present (index.ts creates them), so that the [resolve...]
    functions return them. *)

From S2P Require Import Prelude JsString JsMap Json Frames RateLimit Registry Admission RelayState.
From stdpp Require Import prelude strings list.
From Stdlib Require Import ZArith Lia Ascii.
Open Scope relay_scope.

Definition PAIRING_REQUEST_TTL_MS : Z := 2 * 60000.
Definition KEY_EXCHANGE_REQUEST_TTL_MS : Z := 2 * 60000.
Definition SESSION_OWNER_TTL_MS : Z := 30 * 60000.

Definition profileStrength (profile : e2eeProfile) : Z :=
  match profile with noise_ikpsk2 => 2 | noise_ik => 1 end.
Definition profile_name (profile : e2eeProfile) : string :=
  match profile with noise_ikpsk2 => "noise-ikpsk2" | noise_ik => "noise-ik" end.

(** ** Tracking maps *)

(** The loop shared by the three [pruneStale...] functions: entries older than the
    time to live go. *)
Definition prune_owners (ttl now : Z) (m : list (string * Owner)) : list (string * Owner) :=
  jm_filter (λ _ o, negb (ttl <? now - createdAt o)%Z) m.

(** The loop shared by the three [track...] functions. *)
Definition track_owner (id : string) (o : Owner) (maxTracked : Z) (m : list (string * Owner)) :
    list (string * Owner) :=
  jm_set id o (jm_make_room maxTracked m).

Definition pruneStalePairingRequests (now : Z) (st : WorkspaceState) : WorkspaceState :=
  set_pairing (prune_owners PAIRING_REQUEST_TTL_MS now (pairingRequests st)) st.
Definition trackPairingRequest (requestId : string) (owner : Owner) (maxTracked : Z)
    (st : WorkspaceState) : WorkspaceState :=
  set_pairing (track_owner requestId owner maxTracked (pairingRequests st)) st.
Definition pruneStaleKeyExchangeRequests (now : Z) (st : WorkspaceState) : WorkspaceState :=
  set_kex (prune_owners KEY_EXCHANGE_REQUEST_TTL_MS now (keyExchangeRequests st)) st.
Definition trackKeyExchangeRequest (requestId : string) (owner : Owner) (maxTracked : Z)
    (st : WorkspaceState) : WorkspaceState :=
  set_kex (track_owner requestId owner maxTracked (keyExchangeRequests st)) st.
Definition trackSessionOwner (sessionId : string) (owner : Owner) (maxTracked : Z)
    (st : WorkspaceState) : WorkspaceState :=
  set_owners (track_owner sessionId owner maxTracked (sessionOwners st)) st.
Definition pruneStaleSessionOwners (now : Z) (st : WorkspaceState) : WorkspaceState :=
  set_owners (prune_owners SESSION_OWNER_TTL_MS now (sessionOwners st)) st.

(** ** Claims and headers *)

Definition sessionEventChannels (claims : option AdmissionClaims) : list string :=
  List.filter (λ channel, startsWith channel "agent-session:")
    (map trim (default [] (claims ≫= cl_sessionChannels))).

Definition stringValue (value : option string) : option string :=
  match value with Some v => if nonblank v then Some (trim v) else None | None => None end.

Definition responseHeaders (headers : list (string * string)) : list (string * string) :=
  fold_left (λ result h,
    let normalized := lower h.1 in
    if bool_decide (normalized ∈ ["authorization"; "set-cookie"; "cookie"]) then result
    else jm_set normalized h.2 result) headers [].

Definition forwarded_headers : list string :=
  ["authorization"; "accept"; "content-type"; "x-viewport-run-lease"; "x-viewport-assignment-claim";
   "x-viewport-worker-fingerprint"; "x-viewport-worker-timestamp"; "x-viewport-worker-nonce";
   "x-viewport-worker-body-sha256"; "x-viewport-worker-signature"; "x-viewport-server-id"].

Definition filteredWorkerHeaders (value : option json) : list (string * string) :=
  match value with
  | Some (JObj fields) =>
      omap (λ e, match e.2 with
                 | JStr raw => if bool_decide (lower e.1 ∈ forwarded_headers) then Some (e.1, raw) else None
                 | _ => None
                 end) fields
  | _ => []
  end.

(** [encodeURIComponent]: the bytes of UTF-8 other than the unreserved characters. *)
Definition unreserved (a : ascii) : bool :=
  let n := code a in
  ((48 <=? n) && (n <=? 57)) || ((65 <=? n) && (n <=? 90)) || ((97 <=? n) && (n <=? 122)) ||
  existsb (λ b, Ascii.eqb a b) ["-"; "_"; "."; "!"; "~"; "*"; "'"; "("; ")"]%char.
Definition hex_digit (n : nat) : ascii := byte_of (if n <? 10 then n + 48 else n + 55).
Fixpoint encodeURIComponent (s : string) : string :=
  match s with
  | EmptyString => EmptyString
  | String a s' =>
      if unreserved a then String a (encodeURIComponent s')
      else String "%" (String (hex_digit (code a / 16)) (String (hex_digit (code a mod 16))
             (encodeURIComponent s')))
  end.

Definition worker_prefix (workspaceId managedExecutorId : string) : string :=
  "/api/runtime/workspaces/" +:+ encodeURIComponent workspaceId +:+ "/managed-executors/" +:+
  encodeURIComponent managedExecutorId.

Definition workerRequestPathAllowed (path workspaceId managedExecutorId : string) : bool :=
  let prefix := worker_prefix workspaceId managedExecutorId in
  String.eqb path prefix || startsWith path (prefix +:+ "/").

(** ** The handlers *)

Section Handlers.
Context `{R : Rounding} (cfg : RelayConfig) (now : Z).

Definition safeSend (ws : WebSocket) (p : payload) : M bool :=
  r ← gets (ready ws);
  if negb (bool_decide (r = OPEN)) then ret false else
  buffered ← gets (λ s, from_option bufferedAmount 0%Z (jm_get ws (socks s)));
  if (maxPendingBytes cfg <? buffered)%Z then
    increment "relay_ws_slow_client_terminated_total";;
    closeWithReason ws 4008 "buffer overflow";;
    ret false
  else emit (ESend ws p);; ret true.

Definition send_ (ws : WebSocket) (p : payload) : M unit := safeSend ws p;; ret tt.

(** *** Rate limits *)

Definition limit_fixed (get : Limiters → FixedWindow.buckets)
    (put : FixedWindow.buckets → Limiters → Limiters) (perMinute maxKeys : Z) (key : string) : M bool :=
  λ s, let '(ok, b) := FixedWindow.allow perMinute 60000 (Some maxKeys) key now (get (limiters s)) in
       (ok, put_limiters (put b (limiters s)) s).
Definition limit_tokens (get : Limiters → TokenBucket.buckets)
    (put : TokenBucket.buckets → Limiters → Limiters) (perMinute maxKeys : Z) (key : string) : M bool :=
  λ s, let '(ok, b) := TokenBucket.allow perMinute 60000 (Some maxKeys) key now (get (limiters s)) in
       (ok, put_limiters (put b (limiters s)) s).

(** The limiters of [resolveRuntimeLimiters], [resolveControlFrameLimiters] and
    [resolveDaemonFrameLimiter]. *)
Definition byClient_allow : string → M bool :=
  limit_tokens runtimeClient put_runtimeClient
    (maxRuntimeFramesPerMinute cfg) (runtimeRateLimiterMaxKeys cfg).
Definition byWorkspace_allow : string → M bool :=
  limit_tokens runtimeWorkspace put_runtimeWorkspace
    (maxRuntimeFramesPerMinuteWorkspace cfg) (runtimeWorkspaceRateLimiterMaxKeys cfg).
Definition kex_allow : string → M bool :=
  limit_fixed kexFrames put_kexFrames (maxKeyExchangeInitPerMinute cfg) (kexRateLimiterMaxKeys cfg).
Definition pairing_allow : string → M bool :=
  limit_fixed pairingFrames put_pairingFrames
    (maxPairingFramesPerMinute cfg) (pairingRateLimiterMaxKeys cfg).
Definition daemonFrame_allow : string → M bool :=
  limit_tokens daemonFrames put_daemonFrames
    (maxDaemonRuntimeFramesPerMinute cfg) (daemonRateLimiterMaxKeys cfg).

(** [byClient.allow(clientId) && byWorkspace.allow(workspaceId)]: a refused client
    does not consume from the workspace. *)
Definition runtime_allow (clientId workspaceId : string) : M bool :=
  ok ← byClient_allow clientId;
  if ok then byWorkspace_allow workspaceId else ret false.

(** *** Daemon to clients *)

(** [registry.getOrCreate(key, { workspaceId })], which leaves the target undefined. *)
Definition getOrCreate_ws (key workspaceId : string) : M unit :=
  on_registry (λ r, (getOrCreate key
    (Some {| md_workspaceId := Some workspaceId; md_runtimeTargetId := None |}) now r).2).

(** The two ways to reach the owner of a request or session: its socket here, or
    the relay it came from. *)
Definition deliver_to_owner (workspaceId scopeKey text : string) (owner : Owner)
    (local_metric bus_metric dropped_metric : string) : M bool :=
  local_open ← match clientWs owner with Some w => isOpen w | None => ret false end;
  match clientWs owner, local_open with
  | Some w, true => send_ w (PText text);; increment local_metric;; ret true
  | _, _ =>
      st ← current scopeKey;
      if truthy_opt (sourceRelayId owner) && truthy_opt (runtimeTargetId st) then
        emit (EPublishDaemonToClients workspaceId (default "" (runtimeTargetId st)) text
                (default "" (sourceRelayId owner)));;
        increment bus_metric;; ret true
      else increment dropped_metric;; ret false
  end.

Definition routeSessionOwnedFrame (workspaceId scopeKey sessionId text : string) : M bool :=
  getOrCreate_ws scopeKey workspaceId;;
  mutate scopeKey (pruneStaleSessionOwners now);;
  st ← current scopeKey;
  match jm_get sessionId (sessionOwners st) with
  | None => increment "relay_session_frame_dropped_total";; ret false
  | Some owner =>
      deliver_to_owner workspaceId scopeKey text owner
        "relay_session_frame_routed_local_total" "relay_session_frame_routed_bus_total"
        "relay_session_frame_dropped_total"
  end.

(** Sends to every open socket of the list, and counts the frames that left. *)
Fixpoint deliver_all (p : payload) (subscribers : list WebSocket) : M Z :=
  match subscribers with
  | [] => ret 0%Z
  | w :: rest =>
      open ← isOpen w;
      sent ← (if open : bool then safeSend w p else ret false);
      n ← deliver_all p rest;
      ret ((if sent : bool then 1 else 0) + n)%Z
  end.

(** [typeof frame['channel'] === 'string' ? frame['channel'].trim() : ''] *)
Definition channel_of (parsedFrame : FramePayload) : string := trimmed_field parsedFrame "channel".

Definition routeSessionEventRelayFrame (workspaceId scopeKey text : string)
    (parsedFrame : FramePayload) : M bool :=
  let channel := channel_of parsedFrame in
  if negb (truthy_str channel) then
    increment "relay_session_event_frame_dropped_total";; ret false
  else
    getOrCreate_ws scopeKey workspaceId;;
    st ← current scopeKey;
    match jm_get channel (sessionEventSubscribers st) with
    | None | Some [] => increment "relay_session_event_frame_dropped_total";; ret false
    | Some subscribers =>
        delivered ← deliver_all (PText text) subscribers;
        if (delivered =? 0)%Z then
          increment "relay_session_event_frame_dropped_total";; ret false
        else increment_by "relay_session_event_frame_delivered_total" delivered;; ret true
    end.

(** *** Session-event clients *)

Definition channel_denied (type channel workspaceId : string) : record :=
  [("type", JStr type); ("channel", JStr channel); ("reason", JStr "CHANNEL_NOT_AUTHORIZED");
   ("workspaceId", JStr workspaceId)].

Definition routeSessionViewerPresenceFrame (ws : WebSocket) (workspaceId scopeKey : string)
    (claims : option AdmissionClaims) (clientId text : string) (parsedFrame : FramePayload) : M unit :=
  let channel := channel_of parsedFrame in
  if negb (truthy_str channel) || negb (bool_decide (channel ∈ sessionEventChannels claims)) then
    increment "relay_session_viewer_presence_rejected_total";;
    send_ ws (PJson (channel_denied "viewport.session_viewer_presence_denied/v1" channel workspaceId))
  else
    ok ← runtime_allow clientId workspaceId;
    if negb ok then
      increment "relay_session_viewer_presence_rate_limited_total";;
      closeWithReason ws 4008 "presence rate limit exceeded"
    else
      getOrCreate_ws scopeKey workspaceId;;
      st ← current scopeKey;
      delivered ← deliver_all (PText text)
        (set_delete ws (default [] (jm_get channel (sessionEventSubscribers st))));
      if (0 <? delivered)%Z then
        increment_by "relay_session_viewer_presence_fanned_total" delivered
      else increment "relay_session_viewer_presence_no_peers_total".

Definition subscribe (channel : string) (ws : WebSocket) (st : WorkspaceState) : WorkspaceState :=
  set_subscribers
    (jm_set channel (set_add ws (default [] (jm_get channel (sessionEventSubscribers st))))
      (sessionEventSubscribers st)) st.

Definition unsubscribe (channel : string) (ws : WebSocket) (st : WorkspaceState) : WorkspaceState :=
  set_subscribers
    (match jm_get channel (sessionEventSubscribers st) with
     | None => sessionEventSubscribers st
     | Some subs =>
         let subs' := set_delete ws subs in
         if bool_decide (subs' = []) then jm_delete channel (sessionEventSubscribers st)
         else jm_set channel subs' (sessionEventSubscribers st)
     end) st.

Definition handleSessionEventClientFrame (ws : WebSocket) (workspaceId scopeKey : string)
    (claims : option AdmissionClaims) (parsedFrame : FramePayload) : M unit :=
  let channel := channel_of parsedFrame in
  if negb (truthy_str channel) || negb (bool_decide (channel ∈ sessionEventChannels claims)) then
    increment "relay_session_event_subscribe_rejected_total";;
    send_ ws (PJson (channel_denied "viewport.session_events.subscribe_denied/v1" channel workspaceId))
  else
    getOrCreate_ws scopeKey workspaceId;;
    if isSessionEventSubscribeFrame parsedFrame then
      mutate scopeKey (subscribe channel ws);;
      increment "relay_session_event_subscribed_total";;
      send_ ws (PJson
        [("type", JStr "viewport.session_events.subscribed/v1"); ("channel", JStr channel);
         ("afterSequence",
            match as_int (field parsedFrame "afterSequence"), field parsedFrame "afterSequence" with
            | Some _, Some v => v
            | _, _ => JNum (num_of_Z 0)
            end);
         ("authoritativeSource", JStr "session_events");
         ("websocketRequiredForBackfill", JBool false)])
    else if isSessionEventUnsubscribeFrame parsedFrame then
      mutate scopeKey (unsubscribe channel ws);;
      increment "relay_session_event_unsubscribed_total";;
      send_ ws (PJson [("type", JStr "viewport.session_events.unsubscribed/v1");
                       ("channel", JStr channel)])
    else ret tt.

(** *** Workers *)

Definition worker_response (requestId : string) (status : Z) (headers : list (string * string))
    (body : json) : record :=
  [("type", JStr "viewport.worker_transport.response/v1"); ("requestId", JStr requestId);
   ("status", JNum (num_of_Z status));
   ("headers", JObj (map (λ h, (h.1, JStr h.2)) headers)); ("body", body)].

Definition json_headers : list (string * string) := [("content-type", "application/json")].

(** The body [JSON.stringify({ ok: false, reason })]. *)
Definition failure_body (reason : string) : json :=
  JStr (quoted "{'ok':false,'reason':'" +:+ reason +:+ quoted "'}").

(** Up to the call of [fetch]. *)
Definition forwardWorkerTransportRequest (ws : WebSocket) (workspaceId : string)
    (claims : option AdmissionClaims) (frame : FramePayload) : M unit :=
  let requestId := default "" (as_string (field frame "requestId")) in
  let method := default "" (as_string (field frame "method")) in
  let requestPath := default "" (as_string (field frame "path")) in
  let managedExecutorId := stringValue (claims ≫= cl_managedExecutorId) in
  match managedExecutorId with
  | Some executor =>
      if workerRequestPathAllowed requestPath workspaceId executor then
        emit (EFetch method requestPath (filteredWorkerHeaders (field frame "headers"))
                (if String.eqb method "GET" then None
                 else Some (default "" (as_string (field frame "body")))));;
        modify (λ s, put_pending
          (pending s ++ [AwaitFetch ws workspaceId requestId method requestPath executor]) s)
      else
        increment "relay_worker_transport_rejected_total";;
        send_ ws (PJson (worker_response requestId 403 json_headers
                           (failure_body "WORKER_TRANSPORT_PATH_DENIED")))
  | None =>
      increment "relay_worker_transport_rejected_total";;
      send_ ws (PJson (worker_response requestId 403 json_headers
                         (failure_body "WORKER_TRANSPORT_PATH_DENIED")))
  end.

Inductive FetchResult :=
| Fetched (status : Z) (headers : list (string * string)) (body : string)
| FetchFailed (error : string).

(** After the call of [fetch]. *)
Definition forward_answered (ws : WebSocket)
    (workspaceId requestId method path managedExecutorId : string) (answer : FetchResult) : M unit :=
  match answer with
  | Fetched status headers body =>
      increment "relay_worker_transport_forwarded_total";;
      send_ ws (PJson (worker_response requestId status (responseHeaders headers) (JStr body)))
  | FetchFailed error =>
      increment "relay_worker_transport_forward_failed_total";;
      log_warn "worker_transport_forward_failed"
        [("workspaceId", JStr workspaceId); ("managedExecutorId", JStr managedExecutorId);
         ("method", JStr method); ("path", JStr path); ("error", JStr error)];;
      send_ ws (PJson (worker_response requestId 502 json_headers
                         (failure_body "WORKER_TRANSPORT_FORWARD_FAILED")))
  end.

(** *** Responses to requests *)

Definition routeKeyExchangeResponse (workspaceId scopeKey text : string)
    (parsedFrame : FramePayload) : M bool :=
  let requestId := trimmed_field parsedFrame "requestId" in
  let sessionId := trimmed_field parsedFrame "sessionId" in
  if negb (truthy_str requestId) || negb (truthy_str sessionId) then
    increment "relay_key_exchange_response_dropped_total";; ret true
  else
    getOrCreate_ws scopeKey workspaceId;;
    mutate scopeKey (pruneStaleKeyExchangeRequests now);;
    st ← current scopeKey;
    match jm_get requestId (keyExchangeRequests st) with
    | None =>
        increment "relay_key_exchange_response_dropped_total";;
        log_warn "key_exchange_response_owner_missing"
          [("workspaceId", JStr workspaceId); ("requestId", JStr requestId);
           ("sessionId", JStr sessionId)];;
        ret true
    | Some owner =>
        mutate scopeKey (λ st, set_kex (jm_delete requestId (keyExchangeRequests st)) st);;
        mutate scopeKey (trackSessionOwner sessionId
          {| clientWs := clientWs owner; sourceRelayId := sourceRelayId owner; createdAt := now |}
          (maxSessionOwnerTrack cfg));;
        deliver_to_owner workspaceId scopeKey text owner
          "relay_key_exchange_response_routed_local_total"
          "relay_key_exchange_response_routed_bus_total"
          "relay_key_exchange_response_dropped_total";;
        ret true
    end.

Definition routePairingResponse (workspaceId scopeKey text : string)
    (parsedFrame : FramePayload) : M bool :=
  getOrCreate_ws scopeKey workspaceId;;
  mutate scopeKey (pruneStalePairingRequests now);;
  let requestId := extractPairingRequestId parsedFrame in
  if negb (truthy_opt requestId) then
    increment "relay_pairing_response_dropped_total";; ret true
  else
    let requestId := default "" requestId in
    st ← current scopeKey;
    match jm_get requestId (pairingRequests st) with
    | None =>
        increment "relay_pairing_response_dropped_total";;
        log_warn "pairing_response_owner_missing"
          [("workspaceId", JStr workspaceId); ("requestId", JStr requestId)];;
        ret true
    | Some owner =>
        mutate scopeKey (λ st, set_pairing (jm_delete requestId (pairingRequests st)) st);;
        deliver_to_owner workspaceId scopeKey text owner
          "relay_pairing_response_routed_local_total" "relay_pairing_response_routed_bus_total"
          "relay_pairing_response_dropped_total";;
        ret true
    end.

(** The three [pruneStale...] calls that precede the use of a state. *)
Definition prune_all (scopeKey : string) : M unit :=
  mutate scopeKey (pruneStalePairingRequests now);;
  mutate scopeKey (pruneStaleKeyExchangeRequests now);;
  mutate scopeKey (pruneStaleSessionOwners now).

(** *** Frames from another relay *)

Inductive Direction := client_to_daemon | daemon_to_clients.
Definition direction_name (d : Direction) : string :=
  match d with client_to_daemon => "client_to_daemon" | daemon_to_clients => "daemon_to_clients" end.

(** The fields of a [RelayBusFrame] that routing reads (bus.ts). *)
Record RelayBusFrame := {
  bf_workspaceId : string; bf_runtimeTargetId : option string; bf_direction : Direction;
  bf_sourceRelayId : string; bf_payload : string
}.

Definition bus_rejected (frame : RelayBusFrame) (reason : string) : M unit :=
  log_warn "bus_frame_rejected"
    [("workspaceId", JStr (bf_workspaceId frame));
     ("direction", JStr (direction_name (bf_direction frame))); ("reason", JStr reason)].

Definition remote_owner (frame : RelayBusFrame) : Owner :=
  {| clientWs := None; sourceRelayId := Some (bf_sourceRelayId frame); createdAt := now |}.

(** Sends to the daemon of a scope when it is connected and open. *)
Definition daemon_open (scopeKey : string) : M (option WebSocket) :=
  st ← current scopeKey;
  match daemon st with
  | None => ret None
  | Some d => open ← isOpen d; ret (if open : bool then Some d else None)
  end.

Definition track_key_exchange (scopeKey : string) (owner : Owner) (parsed : FramePayload) : M unit :=
  let requestId := trimmed_field parsed "requestId" in
  if truthy_str requestId then
    mutate scopeKey (trackKeyExchangeRequest requestId owner (maxPairingRequestTrack cfg))
  else ret tt.

Definition track_pairing (scopeKey : string) (owner : Owner) (parsed : FramePayload) : M unit :=
  let requestId := extractPairingRequestId parsed in
  if truthy_opt requestId then
    mutate scopeKey
      (trackPairingRequest (default "" requestId) owner (maxPairingRequestTrack cfg))
  else ret tt.

Definition route_bus_client (scopeKey : string) (frame : RelayBusFrame) : M unit :=
  match parseFramePayload (bf_payload frame) with
  | Some parsed =>
      (if isKeyExchangeInitFrame parsed
       then track_key_exchange scopeKey (remote_owner frame) parsed else ret tt);;
      (if isPairingClientFrame parsed
       then track_pairing scopeKey (remote_owner frame) parsed else ret tt)
  | None => ret tt
  end;;
  d ← daemon_open scopeKey;
  match d with
  | Some d => send_ d (PText (bf_payload frame));; increment "relay_bus_frames_to_daemon_total"
  | None => increment "relay_bus_frames_dropped_total"
  end.

Definition count_routed (routed : bool) : M unit :=
  if routed then increment "relay_bus_frames_to_clients_total" else ret tt.

(** An unparsable payload matches none of the tests of the source. *)
Definition route_bus_daemon (scopeKey : string) (frame : RelayBusFrame) : M unit :=
  let workspaceId := bf_workspaceId frame in
  let text := bf_payload frame in
  let parsed := default [] (parseFramePayload text) in
  let sessionId := as_string (field parsed "sessionId") in
  if isKeyExchangeResponseFrame parsed then
    routeKeyExchangeResponse workspaceId scopeKey text parsed;;
    increment "relay_bus_frames_to_clients_total"
  else if isPairingDaemonFrame parsed then
    routePairingResponse workspaceId scopeKey text parsed;;
    increment "relay_bus_frames_to_clients_total"
  else if isSessionEventRelayFrame parsed then
    routed ← routeSessionEventRelayFrame workspaceId scopeKey text parsed;
    count_routed routed
  else match isE2eeEnvelope parsed || isKeyUpdateRequiredFrame parsed, sessionId with
  | true, Some sid =>
      routed ← routeSessionOwnedFrame workspaceId scopeKey sid text;
      count_routed routed
  | _, _ =>
      increment "relay_bus_frames_rejected_total";;
      bus_rejected frame "unroutable_daemon_frame"
  end.

Definition routeBusFrame (frame : RelayBusFrame) : M unit :=
  if negb (truthy_opt (bf_runtimeTargetId frame)) then
    increment "relay_bus_frames_rejected_total";;
    bus_rejected frame "missing_runtime_target"
  else
    let scopeKey := Status.runtimeScopeKey (bf_workspaceId frame) (bf_runtimeTargetId frame) in
    on_registry (λ r, (getOrCreate scopeKey
      (Some {| md_workspaceId := Some (bf_workspaceId frame);
               md_runtimeTargetId := bf_runtimeTargetId frame |}) now r).2);;
    on_registry (touch scopeKey now);;
    prune_all scopeKey;;
    match bf_direction frame with
    | client_to_daemon =>
        if negb (isAllowedClientFrame (bf_payload frame)) then
          increment "relay_bus_frames_rejected_total";;
          bus_rejected frame "invalid_client_frame"
        else route_bus_client scopeKey frame
    | daemon_to_clients =>
        if negb (isAllowedDaemonFrame (bf_payload frame)) then
          increment "relay_bus_frames_rejected_total";;
          bus_rejected frame "invalid_daemon_frame"
        else
          ok ← daemonFrame_allow (bf_workspaceId frame);
          if negb ok then
            increment "relay_bus_frames_daemon_rate_limited_total";;
            bus_rejected frame "daemon_rate_limit"
          else route_bus_daemon scopeKey frame
    end.

(** *** No daemon here (relay-runtime-routing.ts) *)

(** Up to the first [await]. *)
Definition routeClientMessageWithoutLocalDaemon (ws : WebSocket) (workspaceId : string)
    (runtimeTargetId machineId : option string) (clientId payload : string) : M unit :=
  if negb (truthy_opt runtimeTargetId) then
    increment "relay_client_messages_dropped_total";;
    send_ ws (PJson (Status.missingRuntimeTargetPayload workspaceId));;
    log_warn "client_message_dropped"
      [("workspaceId", JStr workspaceId); ("clientId", JStr clientId);
       ("reason", JStr "missing_runtime_target")]
  else
    let target := {| rt_workspaceId := workspaceId;
                     rt_runtimeTargetId := default "" runtimeTargetId;
                     rt_machineId := machineId; rt_clientId := clientId; rt_payload := payload |} in
    emit (EResolvePresence workspaceId (rt_runtimeTargetId target));;
    modify (λ s, put_pending (pending s ++ [AwaitPresence ws target]) s).

(** The presence record of a runtime (presence.ts). *)
Record Presence := { pr_daemonConnected : bool; pr_relayId : string; pr_relayWsBaseUrl : string }.

Definition daemon_unavailable (ws : WebSocket) (target : RuntimeRoutingTarget) : M unit :=
  increment "relay_client_messages_dropped_total";;
  send_ ws (PJson (Status.relayStatusPayload (rt_workspaceId target)
                     (Some (rt_runtimeTargetId target)) (rt_machineId target)));;
  log_warn "client_message_dropped"
    ([("workspaceId", JStr (rt_workspaceId target)); ("clientId", JStr (rt_clientId target));
      ("runtimeTargetId", JStr (rt_runtimeTargetId target))] ++
     opt_field "machineId" (rt_machineId target) ++ [("reason", JStr "daemon_unavailable")]).

(** After [resolvePresence] has answered. *)
Definition presence_answered (ws : WebSocket) (target : RuntimeRoutingTarget)
    (preferred : option Presence) : M unit :=
  match preferred with
  | Some p =>
      if pr_daemonConnected p && negb (String.eqb (pr_relayId p) (relayId cfg)) then
        (if clientRedirectEnabled cfg then
           send_ ws (PJson (Status.relayRedirectPayload (rt_workspaceId target)
                              (pr_relayWsBaseUrl p) (Some (rt_runtimeTargetId target))))
         else ret tt);;
        emit (EPublishClientToDaemon (rt_workspaceId target) (rt_runtimeTargetId target)
                (rt_machineId target) (rt_payload target) (pr_relayId p));;
        modify (λ s, put_pending (pending s ++ [AwaitPublish ws target (pr_relayId p)]) s)
      else daemon_unavailable ws target
  | None => daemon_unavailable ws target
  end.

(** After [publishClientToDaemon] has answered. *)
Definition publish_answered (ws : WebSocket) (target : RuntimeRoutingTarget)
    (preferredRelay : string) (published : bool) : M unit :=
  if published then
    increment "relay_client_messages_routed_bus_total";;
    log_info "client_message_routed_bus"
      [("workspaceId", JStr (rt_workspaceId target)); ("clientId", JStr (rt_clientId target));
       ("targetRelayId", JStr preferredRelay)]
  else daemon_unavailable ws target.
End Handlers.
