(* ===== verification/Handlers.v ===== *)
(** * Connections (registerConnection in services/relay/src/relay-routing.ts, and the
    socket helpers of index.ts it is given)

    [registerConnection] admits a socket and attaches the handlers of its role:
    [worker_message], [daemon_message] and [client_message], [worker_close],
    [daemon_close] and [client_close]. *)

From S2P Require Import Prelude JsString JsMap Json Frames RateLimit Registry Admission RelayState Routing.
From stdpp Require Import prelude strings list.
From Stdlib Require Import ZArith Lia Ascii.
Open Scope relay_scope.

(** ** Socket helpers (index.ts) *)

Definition adjustIpConnectionCount (ip : string) (delta : Z) : M unit :=
  modify (λ s,
    let next := (default 0 (jm_get ip (ipConnectionCounts s)) + delta)%Z in
    put_ipConnectionCounts
      (if (next <=? 0)%Z then jm_delete ip (ipConnectionCounts s)
       else jm_set ip next (ipConnectionCounts s)) s).

Definition updateGauges : M unit :=
  total ← gets (λ s, totalConnectionCount (registry s));
  setGauge "relay_connections_total" total;;
  n ← gets (λ s, Z.of_nat (length (workspaceEntries (registry s))));
  setGauge "relay_workspaces_total" n.

Definition setupHeartbeat (now : Z) (ws : WebSocket) : M unit :=
  modify (λ s, put_heartbeats (jm_set ws
    {| awaitingPong := false; lastPongAt := now; pingSentAt := 0; hb_lastActivityAt := now |}
    (heartbeats s)) s).

Definition markWsActivity (now : Z) (ws : WebSocket) : M unit :=
  modify (λ s, put_heartbeats (jm_alter (λ h,
    {| awaitingPong := awaitingPong h; lastPongAt := lastPongAt h;
       pingSentAt := pingSentAt h; hb_lastActivityAt := now |}) ws (heartbeats s)) s).

(** The handlers of a connection are attached, or gone with its socket. *)
Definition attach (ws : WebSocket) (c : Conn) : M unit :=
  modify (λ s, put_conns (jm_set ws c (conns s)) s).
Definition detach (ws : WebSocket) : M unit :=
  modify (λ s, put_conns (jm_delete ws (conns s)) s).

(** A method of the registry that answers. *)
Definition registry_call {A} (f : Registry → A * Registry) : M A :=
  λ s, ((f (registry s)).1, put_registry (f (registry s)).2 s).

(** ** What the handlers read from the claims *)

Definition c_clientId (c : Conn) : string := default "client_unknown" (c_claims c ≫= cl_clientId).
Definition c_clientScope (c : Conn) : ClientScope :=
  match c_claims c ≫= cl_scope with
  | Some scope_pairing => scope_pairing
  | Some scope_session_events => scope_session_events
  | _ => scope_runtime
  end.
Definition c_expectedProfile (c : Conn) : option e2eeProfile := c_claims c ≫= cl_e2eeProfile.

(** The claim's issue generation, when it is a natural number. *)
Definition claim_generation (claims : option AdmissionClaims) : option Z :=
  match claims ≫= cl_daemonIssueGeneration with
  | Some g => if (0 <=? g)%Z then Some g else None
  | None => None
  end.

Definition executor_field (claims : option AdmissionClaims) : record :=
  opt_field "managedExecutorId" (claims ≫= cl_managedExecutorId).

Section Handlers.
Context `{R : Rounding} (cfg : RelayConfig) (now : Z).

Notation safeSend := (safeSend cfg).
Notation send_ := (send_ cfg).

(** ** The worker's handlers *)

Definition worker_message (ws : WebSocket) (c : Conn) (text : string) : M unit :=
  markWsActivity now ws;;
  let size := byteLength text in
  ok ← daemonFrame_allow cfg now (c_workspaceId c);
  if negb ok then
    increment "relay_frames_daemon_rate_limited_total";;
    log_warn "worker_frame_rate_limited"
      [("workspaceId", JStr (c_workspaceId c)); ("ip", JStr (c_ip c))];;
    closeWithReason ws 4008 "worker rate limit exceeded"
  else if (maxFrameBytes cfg <? size)%Z then
    increment "relay_ws_frame_too_large_total";;
    closeWithReason ws 1009 "frame too large"
  else
    match parseFramePayload text with
    | Some parsed =>
        if isAllowedWorkerTransportRequestFrame parsed then
          forwardWorkerTransportRequest cfg ws (c_workspaceId c) (c_claims c) parsed
        else
          increment "relay_frames_daemon_rejected_total";;
          log_warn "worker_frame_rejected"
            [("workspaceId", JStr (c_workspaceId c)); ("reason", JStr "invalid_worker_transport_frame")]
    | None =>
        increment "relay_frames_daemon_rejected_total";;
        log_warn "worker_frame_rejected"
          [("workspaceId", JStr (c_workspaceId c)); ("reason", JStr "invalid_worker_transport_frame")]
    end.

Definition worker_close (c : Conn) : M unit :=
  adjustIpConnectionCount (c_ip c) (-1);;
  increment "relay_ws_connections_closed_total";;
  log_info "worker_disconnected"
    ([("workspaceId", JStr (c_workspaceId c))] ++ executor_field (c_claims c) ++
     [("ip", JStr (c_ip c))]);;
  updateGauges.

(** ** The daemon's handlers *)

Definition daemon_rejected (c : Conn) (reason : string) : M unit :=
  log_warn "daemon_frame_rejected"
    [("workspaceId", JStr (c_workspaceId c)); ("reason", JStr reason)].

Definition profile_too_weak (expected got : option e2eeProfile) : bool :=
  match expected, got with
  | Some e, Some g => (profileStrength g <? profileStrength e)%Z
  | _, _ => false
  end.

(** The routes of an admissible daemon frame. *)
Definition route_daemon_frame (c : Conn) (text : string) (parsed : FramePayload) : M unit :=
  let size := byteLength text in
  let counted : M unit :=
    increment "relay_frames_daemon_to_clients_total";;
    increment_by "relay_bytes_daemon_to_clients_total" size in
  let sessionId := as_string (field parsed "sessionId") in
  if isPairingDaemonFrame parsed then
    routePairingResponse cfg now (c_workspaceId c) (c_scopeKey c) text parsed;; counted
  else if isKeyExchangeResponseFrame parsed then
    routeKeyExchangeResponse cfg now (c_workspaceId c) (c_scopeKey c) text parsed;; counted
  else match isE2eeEnvelope parsed || isKeyUpdateRequiredFrame parsed, sessionId with
  | true, Some sid =>
      routeSessionOwnedFrame cfg now (c_workspaceId c) (c_scopeKey c) sid text;; counted
  | _, _ => counted;; daemon_rejected c "unroutable_daemon_frame"
  end.

Definition daemon_message (ws : WebSocket) (c : Conn) (text : string) : M unit :=
  markWsActivity now ws;;
  let size := byteLength text in
  ok ← daemonFrame_allow cfg now (c_workspaceId c);
  if negb ok then
    increment "relay_frames_daemon_rate_limited_total";;
    log_warn "daemon_frame_rate_limited"
      [("workspaceId", JStr (c_workspaceId c)); ("ip", JStr (c_ip c))];;
    closeWithReason ws 4008 "daemon rate limit exceeded"
  else if (maxFrameBytes cfg <? size)%Z then
    increment "relay_ws_frame_too_large_total";;
    closeWithReason ws 1009 "frame too large"
  else if negb (isAllowedDaemonFrame text) then
    increment "relay_frames_daemon_rejected_total";;
    daemon_rejected c "invalid_daemon_frame"
  else
    let parsed := default [] (parseFramePayload text) in
    let frameProfile := extractFrameProfile parsed in
    if profile_too_weak (c_expectedProfile c) frameProfile then
      increment "relay_frames_daemon_rejected_profile_mismatch_total";;
      log_warn "daemon_frame_rejected"
        ([("workspaceId", JStr (c_workspaceId c)); ("reason", JStr "profile_mismatch")] ++
         opt_field "expectedProfile" (profile_name <$> c_expectedProfile c) ++
         opt_field "gotProfile" (profile_name <$> frameProfile));;
      closeWithReason ws 4008 "daemon frame profile mismatch"
    else route_daemon_frame c text parsed.

Definition daemon_close (ws : WebSocket) (c : Conn) : M unit :=
  cleared ← registry_call (clearDaemon (c_scopeKey c) ws now);
  (if cleared : bool then
     emit (EUpsertPresence (c_workspaceId c) false (c_runtimeTargetId c) (c_machineId c))
   else ret tt);;
  adjustIpConnectionCount (c_ip c) (-1);;
  increment "relay_ws_connections_closed_total";;
  log_info "daemon_disconnected"
    ([("workspaceId", JStr (c_workspaceId c))] ++
     opt_field "runtimeTargetId" (c_runtimeTargetId c) ++ opt_field "machineId" (c_machineId c) ++
     [("ip", JStr (c_ip c)); ("clearedCurrentDaemon", JBool cleared)]);;
  updateGauges.

(** ** The client's handlers *)

Definition client_rejected (c : Conn) (reason : string) : M unit :=
  log_warn "client_frame_rejected"
    [("workspaceId", JStr (c_workspaceId c)); ("clientId", JStr (c_clientId c));
     ("reason", JStr reason)].

Definition status_frame (c : Conn) (code message : string) : record :=
  [("type", JStr "relay_status"); ("code", JStr code); ("message", JStr message);
   ("workspaceId", JStr (c_workspaceId c))].

Definition session_events_message (ws : WebSocket) (c : Conn) (text : string)
    (parsed : FramePayload) : M unit :=
  if negb (isSessionEventClientFrame parsed) then
    increment "relay_frames_client_rejected_scope_total";;
    client_rejected c "scope_mismatch_session_events_only";;
    send_ ws (PJson (status_frame c "SESSION_EVENTS_SCOPE_ONLY"
      "session-events scoped clients can only subscribe to authorized session event channels"))
  else if isSessionViewerPresenceFrame parsed then
    routeSessionViewerPresenceFrame cfg now ws (c_workspaceId c) (c_scopeKey c) (c_claims c)
      (c_clientId c) text parsed
  else handleSessionEventClientFrame cfg now ws (c_workspaceId c) (c_scopeKey c) (c_claims c) parsed.

Definition local_owner (ws : WebSocket) : Owner :=
  {| clientWs := Some ws; sourceRelayId := None; createdAt := now |}.

Definition limiter_key (c : Conn) : string :=
  c_workspaceId c +:+ ":" +:+ c_clientId c +:+ ":" +:+ c_ip c.

(** Each stage of the runtime and pairing path answers whether to go on. *)
Definition scope_profile_stage (ws : WebSocket) (c : Conn) (parsed : FramePayload) : M bool :=
  let isPairingFrame := isPairingClientFrame parsed in
  if bool_decide (c_clientScope c = scope_pairing) && negb isPairingFrame then
    increment "relay_frames_client_rejected_scope_total";;
    client_rejected c "scope_mismatch_pairing_only";;
    closeWithReason ws 4008 "pairing scope only";; ret false
  else if bool_decide (c_clientScope c = scope_runtime) && isPairingFrame then
    increment "relay_frames_client_rejected_scope_total";;
    client_rejected c "scope_mismatch_runtime_only";;
    closeWithReason ws 4008 "runtime scope only";; ret false
  else
    match c_expectedProfile c, extractFrameProfile parsed with
    | Some expected, Some got =>
        if bool_decide (expected = got) then ret true else
          increment "relay_frames_client_rejected_profile_mismatch_total";;
          log_warn "client_frame_rejected"
            [("workspaceId", JStr (c_workspaceId c)); ("clientId", JStr (c_clientId c));
             ("reason", JStr "profile_mismatch"); ("expectedProfile", JStr (profile_name expected));
             ("gotProfile", JStr (profile_name got))];;
          closeWithReason ws 4008 "client frame profile mismatch";; ret false
    | _, _ => ret true
    end.

Definition key_exchange_stage (ws : WebSocket) (c : Conn) (parsed : FramePayload) : M bool :=
  if is_str (field parsed "type") "relay_key_exchange_init" then
    ok ← kex_allow cfg now (limiter_key c);
    if negb ok then
      increment "relay_frames_client_kex_rate_limited_total";;
      log_warn "client_frame_rate_limited"
        [("workspaceId", JStr (c_workspaceId c)); ("clientId", JStr (c_clientId c));
         ("reason", JStr "kex_rate_limit")];;
      closeWithReason ws 4008 "key exchange rate limit exceeded";; ret false
    else track_key_exchange cfg (c_scopeKey c) (local_owner ws) parsed;; ret true
  else ret true.

Definition runtime_limit_stage (ws : WebSocket) (c : Conn) (parsed : FramePayload) : M bool :=
  if isE2eeEnvelope parsed then
    ok ← runtime_allow cfg now (c_clientId c) (c_workspaceId c);
    if negb ok then
      increment "relay_frames_client_runtime_rate_limited_total";;
      closeWithReason ws 4008 "runtime rate limit exceeded";; ret false
    else ret true
  else ret true.

Definition pairing_stage (ws : WebSocket) (c : Conn) (parsed : FramePayload) : M bool :=
  if isPairingClientFrame parsed then
    ok ← pairing_allow cfg now (limiter_key c);
    if negb ok then
      increment "relay_frames_client_pairing_rate_limited_total";;
      closeWithReason ws 4008 "pairing rate limit exceeded";; ret false
    else track_pairing cfg (c_scopeKey c) (local_owner ws) parsed;; ret true
  else ret true.

Definition forward_stage (ws : WebSocket) (c : Conn) (text : string) : M unit :=
  d ← daemon_open (c_scopeKey c);
  match d with
  | None =>
      routeClientMessageWithoutLocalDaemon cfg ws (c_workspaceId c) (c_runtimeTargetId c)
        (c_machineId c) (c_clientId c) text
  | Some d =>
      increment "relay_frames_client_to_daemon_total";;
      increment_by "relay_bytes_client_to_daemon_total" (byteLength text);;
      send_ d (PText text)
  end.

Definition and_then (m : M bool) (k : M unit) : M unit :=
  go ← m; if go : bool then k else ret tt.

Definition runtime_message (ws : WebSocket) (c : Conn) (text : string) (parsed : FramePayload) : M unit :=
  if isSessionEventClientFrame parsed then
    increment "relay_frames_client_rejected_scope_total";;
    client_rejected c "scope_mismatch_runtime_or_pairing_only";;
    closeWithReason ws 4008 "session-events scope required"
  else
    prune_all now (c_scopeKey c);;
    and_then (scope_profile_stage ws c parsed)
      (and_then (key_exchange_stage ws c parsed)
        (and_then (runtime_limit_stage ws c parsed)
          (and_then (pairing_stage ws c parsed)
            (forward_stage ws c text)))).

Definition client_message (ws : WebSocket) (c : Conn) (text : string) : M unit :=
  markWsActivity now ws;;
  if (maxFrameBytes cfg <? byteLength text)%Z then
    increment "relay_ws_frame_too_large_total";;
    closeWithReason ws 1009 "frame too large"
  else if negb (isAllowedClientFrame text) then
    increment "relay_frames_client_rejected_total";;
    client_rejected c "invalid_client_frame";;
    send_ ws (PJson (status_frame c "INVALID_FRAME"
      "client frame must be a valid runtime or pairing control frame"))
  else
    match parseFramePayload text with
    | None => increment "relay_frames_client_rejected_total"
    | Some parsed =>
        if bool_decide (c_clientScope c = scope_session_events)
        then session_events_message ws c text parsed
        else runtime_message ws c text parsed
    end.

Definition client_close (ws : WebSocket) (c : Conn) : M unit :=
  on_registry (removeClient (c_scopeKey c) ws now);;
  adjustIpConnectionCount (c_ip c) (-1);;
  increment "relay_ws_connections_closed_total";;
  log_info "client_disconnected"
    [("workspaceId", JStr (c_workspaceId c)); ("clientId", JStr (c_clientId c)); ("ip", JStr (c_ip c))];;
  updateGauges.

(** ** registerConnection *)

Definition register_worker (ws : WebSocket) (c : Conn) : M unit :=
  attach ws c;;
  adjustIpConnectionCount (c_ip c) 1;;
  setupHeartbeat now ws;;
  increment "relay_ws_connections_opened_total";;
  log_info "worker_connected"
    ([("workspaceId", JStr (c_workspaceId c))] ++ executor_field (c_claims c) ++
     [("ip", JStr (c_ip c))]);;
  updateGauges.

Definition connection_rejected (ws : WebSocket) (c : Conn) (reason close : string) (extra : record) : M unit :=
  increment "relay_ws_connections_rejected_total";;
  log_warn "daemon_connection_rejected"
    ([("workspaceId", JStr (c_workspaceId c)); ("ip", JStr (c_ip c)); ("reason", JStr reason)] ++ extra);;
  closeWithReason ws 4008 close.

Definition stale_generation (claim latest : option Z) : bool :=
  match claim, latest with Some g, Some l => (g <? l)%Z | _, _ => false end.

(** [state.daemon = ws], the generation, and the two [clear()] calls. *)
Definition install_daemon (ws : WebSocket) (generation : option Z) (st : WorkspaceState) : WorkspaceState :=
  let st := set_daemon (Some ws) st in
  let st := match generation with Some _ => set_generation generation st | None => st end in
  set_owners [] (set_kex [] st).

Definition register_daemon (ws : WebSocket) (c : Conn) : M unit :=
  let daemonIssueGeneration := claim_generation (c_claims c) in
  st ← current (c_scopeKey c);
  if stale_generation daemonIssueGeneration (Registry.daemonIssueGeneration st) then
    connection_rejected ws c "stale_daemon_issue_generation" "stale daemon generation"
      [("claimGeneration", JNum (num_of_Z (default 0%Z daemonIssueGeneration)));
       ("latestGeneration", JNum (num_of_Z (default 0%Z (Registry.daemonIssueGeneration st))))]
  else
    busy ← daemon_open (c_scopeKey c);
    match busy with
    | Some _ => connection_rejected ws c "daemon_already_connected" "daemon already connected" []
    | None =>
        attach ws c;;
        adjustIpConnectionCount (c_ip c) 1;;
        setupHeartbeat now ws;;
        increment "relay_ws_connections_opened_total";;
        mutate (c_scopeKey c) (install_daemon ws daemonIssueGeneration);;
        emit (EUpsertPresence (c_workspaceId c) true (c_runtimeTargetId c) (c_machineId c));;
        log_info "daemon_connected"
          ([("workspaceId", JStr (c_workspaceId c))] ++
           opt_field "runtimeTargetId" (c_runtimeTargetId c) ++
           opt_field "machineId" (c_machineId c) ++ [("ip", JStr (c_ip c))]);;
        updateGauges
    end.

Definition register_client (ws : WebSocket) (c : Conn) : M unit :=
  attach ws c;;
  adjustIpConnectionCount (c_ip c) 1;;
  setupHeartbeat now ws;;
  increment "relay_ws_connections_opened_total";;
  mutate (c_scopeKey c) (λ st, set_clients
    (jm_set ws {| cm_clientId := c_clientId c; cm_connectedAt := now |} (clients st)) st);;
  log_info "client_connected"
    [("workspaceId", JStr (c_workspaceId c)); ("clientId", JStr (c_clientId c)); ("ip", JStr (c_ip c))];;
  updateGauges.

Definition registerConnection (ws : WebSocket) (role : RelayRole) (workspaceId : string)
    (requestedRuntimeTargetId : option string) (ip : string) (claims : option AdmissionClaims) : M unit :=
  match Connection.resolveConnectionAdmission role workspaceId requestedRuntimeTargetId ip claims with
  | Connection.Rejected rej =>
      increment "relay_ws_connections_rejected_total";;
      log_warn (Connection.logEvent rej) (Connection.logDetails rej);;
      (if Connection.sendMissingRuntimeTarget rej
       then send_ ws (PJson (Status.missingRuntimeTargetPayload workspaceId)) else ret tt);;
      closeWithReason ws 4008 (Connection.closeReason rej)
  | Connection.Granted _ runtimeTargetId machineId =>
      let scopeKey := Status.runtimeScopeKey workspaceId runtimeTargetId in
      on_registry (λ r, (getOrCreate scopeKey
        (Some {| md_workspaceId := Some workspaceId; md_runtimeTargetId := runtimeTargetId |}) now r).2);;
      on_registry (touch scopeKey now);;
      prune_all now scopeKey;;
      let c := {| c_role := role; c_workspaceId := workspaceId; c_scopeKey := scopeKey;
                  c_runtimeTargetId := runtimeTargetId; c_machineId := machineId;
                  c_ip := ip; c_claims := claims |} in
      match role with
      | worker => register_worker ws c
      | workspace_daemon => register_daemon ws c
      | client => register_client ws c
      end
  end.
End Handlers.
