(* ===== verification/Relay.v ===== *)
(** * The relay process (services/relay/src/index.ts)

    The events of the process and what each does to the state: upgrade requests, the
    answers of the calls in flight, socket events, frames from the bus and the timers.
    Between two events the state is at rest, as in Node's event loop. *)

From S2P Require Import Prelude JsString JsMap Json Frames RateLimit Registry Admission.
From S2P Require Import RelayState Routing Handlers.
From stdpp Require Import prelude strings list.
From Stdlib Require Import ZArith Lia Ascii.
Open Scope relay_scope.

(** ** Upgrade requests *)

(** What the handler reads from the HTTP request; [rq_query] is what
    [UpgradeQuerySchema.safeParse] makes of the query, [None] when it fails. *)
Record HttpUpgrade := {
  rq_ip : string;
  rq_pathname : string;
  rq_query : option (RelayRole * string * option string);
  rq_authorization : option string;
  rq_protocol : option string;
  rq_token : option string
}.

Inductive UpgradeVerdict :=
| Refused (status : option Z)                 (* the socket is destroyed *)
| Validating (token : string) (request : UpgradeRequest).

(** The answers of the calls in flight. *)
Inductive Answer :=
| AnsAdmission (result : Validate.AdmissionResult)
| AnsPresence (presence : option Presence)
| AnsPublished (published : bool)
| AnsFetch (result : FetchResult)
| AnsError (message : string).

Section Relay.
Context `{R : Rounding} (TokenSchema : string → bool) (cfg : RelayConfig) (now : Z).

Notation send_ := (send_ cfg).

Definition upgradeLimiter_allow (ip : string) : M bool :=
  limit_fixed now upgrades put_upgrades (maxUpgradeRatePerMinute cfg) (maxUpgradeRateBuckets cfg) ip.

Definition refuse (metric : string) (status : Z) : M UpgradeVerdict :=
  increment metric;; ret (Refused (Some status)).

(** [registry.getOrCreate(key)] for a client, and whether its scope is full. *)
Definition workspace_full (role : RelayRole) (workspaceId : string) (runtimeTargetId : option string) : M bool :=
  if bool_decide (role = client) then
    let key := Status.runtimeScopeKey workspaceId runtimeTargetId in
    on_registry (λ r, (getOrCreate key None now r).2);;
    st ← current key;
    ret (maxClientsPerWorkspace cfg <=? jm_size (clients st))%Z
  else ret false.

Definition upgrade_checked (rq : HttpUpgrade) : M UpgradeVerdict :=
  if negb (String.eqb (rq_pathname rq) "/ws") then ret (Refused None) else
  match rq_query rq with
  | None => refuse "relay_upgrade_invalid_query_total" 400
  | Some (role, workspaceId, runtimeTargetId) =>
      match Upgrade.resolveUpgradeAuth TokenSchema (relayMode cfg)
              (rq_authorization rq) (rq_protocol rq) (rq_token rq) with
      | Upgrade.AuthOk token _ =>
          full ← workspace_full role workspaceId runtimeTargetId;
          if full : bool then refuse "relay_upgrade_rejected_workspace_clients_total" 429
          else ret (Validating token {| up_role := role; up_workspaceId := workspaceId;
                                        up_runtimeTargetId := runtimeTargetId; up_ip := rq_ip rq |})
      | _ => refuse "relay_upgrade_missing_auth_total" 401
      end
  end.

(** Up to the call of [validateAdmission]. *)
Definition upgrade_request (rq : HttpUpgrade) : M UpgradeVerdict :=
  ok ← upgradeLimiter_allow (rq_ip rq);
  if negb ok then refuse "relay_upgrade_rate_limited_total" 429 else
  total ← gets (λ s, totalConnectionCount (registry s));
  if (maxTotalConnections cfg <=? total)%Z then
    refuse "relay_upgrade_rejected_total_connections_total" 503 else
  here ← gets (λ s, default 0%Z (jm_get (rq_ip rq) (ipConnectionCounts s)));
  if (maxConnectionsPerIp cfg <=? here)%Z then
    refuse "relay_upgrade_rejected_ip_connections_total" 429 else
  upgrade_checked rq.

Definition on_upgrade (rq : HttpUpgrade) : M unit :=
  v ← upgrade_request rq;
  match v with
  | Refused _ => ret tt
  | Validating _ request => modify (λ s, put_pending (pending s ++ [AwaitAdmission request]) s)
  end.

(** The callback of [wss.handleUpgrade] with the new, open socket. *)
Definition handle_upgrade (ws : WebSocket) (rq : UpgradeRequest) (claims : AdmissionClaims)
    (redirectWsBaseUrl : option string) : M unit :=
  modify (λ s, put_socks (jm_set ws {| readyState := OPEN; bufferedAmount := 0 |} (socks s)) s);;
  registerConnection cfg now ws (up_role rq) (up_workspaceId rq) (up_runtimeTargetId rq) (up_ip rq)
    (Some claims);;
  if truthy_opt redirectWsBaseUrl then
    increment "relay_client_redirect_total";;
    send_ ws (PJson (Status.relayRedirectPayload (up_workspaceId rq)
                       (default "" redirectWsBaseUrl) None))
  else ret tt.

(** After [validateAdmission]. *)
Definition admission_answered (ws : WebSocket) (rq : UpgradeRequest)
    (result : Validate.AdmissionResult) : M unit :=
  match result with
  | Validate.AdmissionDenied status reason =>
      increment "relay_admission_denied_total";;
      log_warn "admission_denied"
        [("role", JStr (role_name (up_role rq))); ("workspaceId", JStr (up_workspaceId rq));
         ("reason", reason); ("status", JNum (num_of_Z status)); ("ip", JStr (up_ip rq))]
  | Validate.AdmissionOk _ claims =>
      increment "relay_admission_ok_total";;
      if bool_decide (up_role rq = client) && clientRedirectEnabled cfg &&
         truthy_opt (up_runtimeTargetId rq) then
        emit (EResolvePresence (up_workspaceId rq) (default "" (up_runtimeTargetId rq)));;
        modify (λ s, put_pending (pending s ++ [AwaitUpgradePresence rq claims]) s)
      else handle_upgrade ws rq claims None
  end.

(** After [resolvePresence], in the upgrade handler. *)
Definition redirect_of (preferred : option Presence) : option string :=
  match preferred with
  | Some p => if pr_daemonConnected p && negb (String.eqb (pr_relayWsBaseUrl p) (publicWsBaseUrl cfg))
              then Some (pr_relayWsBaseUrl p) else None
  | None => None
  end.

Definition upgrade_error (ip message : string) : M unit :=
  increment "relay_upgrade_errors_total";;
  emit (ELog "error" "upgrade_error" [("ip", JStr ip); ("error", JStr message)]).

(** The continuation of a call in flight; [ws] is the socket a completed upgrade
    creates.  An answer of the wrong kind does not occur. *)
Definition resume (ws : WebSocket) (task : Task) (answer : Answer) : M unit :=
  match task, answer with
  | AwaitAdmission rq, AnsAdmission result => admission_answered ws rq result
  | AwaitUpgradePresence rq claims, AnsPresence p => handle_upgrade ws rq claims (redirect_of p)
  | (AwaitAdmission rq | AwaitUpgradePresence rq _), AnsError m => upgrade_error (up_ip rq) m
  | AwaitPresence w target, AnsPresence p => presence_answered cfg w target p
  | AwaitPublish w target relay, AnsPublished b => publish_answered cfg w target relay b
  | AwaitFetch w workspaceId requestId method path executor, AnsFetch r =>
      forward_answered cfg w workspaceId requestId method path executor r
  | _, _ => ret tt
  end.

(** ** Socket events *)

Definition on_message (ws : WebSocket) (text : string) : M unit :=
  c ← gets (λ s, jm_get ws (conns s));
  match c with
  | None => ret tt
  | Some c =>
      match c_role c with
      | worker => worker_message cfg now ws c text
      | workspace_daemon => daemon_message cfg now ws c text
      | client => client_message cfg now ws c text
      end
  end.

Definition drop_socket (ws : WebSocket) : M unit :=
  detach ws;;
  modify (λ s, put_heartbeats (jm_delete ws (heartbeats s)) s);;
  modify (λ s, put_socks (jm_delete ws (socks s)) s).

Definition on_close (ws : WebSocket) : M unit :=
  c ← gets (λ s, jm_get ws (conns s));
  drop_socket ws;;
  match c with
  | None => ret tt
  | Some c =>
      match c_role c with
      | worker => worker_close c
      | workspace_daemon => daemon_close now ws c
      | client => client_close now ws c
      end
  end.

Definition on_pong (ws : WebSocket) : M unit :=
  modify (λ s, put_heartbeats (jm_alter (λ h,
    {| awaitingPong := false; lastPongAt := now; pingSentAt := pingSentAt h;
       hb_lastActivityAt := now |}) ws (heartbeats s)) s).

(** ** Timers *)

Definition terminateWithReason (ws : WebSocket) (reason : string) : M unit :=
  log_warn "ws_terminated" [("reason", JStr reason)];;
  emit (ETerminate ws reason);;
  modify (λ s, put_socks (jm_alter start_closing ws (socks s)) s).

Definition heartbeat_one (ws : WebSocket) : M unit :=
  h ← gets (λ s, jm_get ws (heartbeats s));
  match h with
  | None => ret tt
  | Some h =>
      if (idleTimeoutMs cfg <? now - hb_lastActivityAt h)%Z then
        increment "relay_ws_idle_terminated_total";; terminateWithReason ws "idle timeout"
      else if awaitingPong h && (pongTimeoutMs cfg <? now - pingSentAt h)%Z then
        increment "relay_ws_stale_terminated_total";; terminateWithReason ws "heartbeat timeout"
      else
        modify (λ s, put_heartbeats (jm_set ws
          {| awaitingPong := true; lastPongAt := lastPongAt h; pingSentAt := now;
             hb_lastActivityAt := hb_lastActivityAt h |} (heartbeats s)) s);;
        emit (EPing ws)
  end.

Fixpoint for_each {A} (l : list A) (f : A → M unit) : M unit :=
  match l with [] => ret tt | x :: l' => f x;; for_each l' f end.

Definition sweep_limiters (l : Limiters) : Limiters :=
  {| upgrades := FixedWindow.sweepStale 60000 (Some (maxUpgradeRateBuckets cfg)) now (upgrades l);
     kexFrames := FixedWindow.sweepStale 60000 (Some (kexRateLimiterMaxKeys cfg)) now (kexFrames l);
     pairingFrames :=
       FixedWindow.sweepStale 60000 (Some (pairingRateLimiterMaxKeys cfg)) now (pairingFrames l);
     runtimeClient :=
       TokenBucket.sweepStale 60000 (Some (runtimeRateLimiterMaxKeys cfg)) now (runtimeClient l);
     runtimeWorkspace :=
       TokenBucket.sweepStale 60000 (Some (runtimeWorkspaceRateLimiterMaxKeys cfg)) now
         (runtimeWorkspace l);
     daemonFrames :=
       TokenBucket.sweepStale 60000 (Some (daemonRateLimiterMaxKeys cfg)) now (daemonFrames l) |}.

Definition heartbeatInterval : M unit :=
  all ← gets (λ s, jm_keys (socks s));
  for_each all heartbeat_one;;
  modify (λ s, put_limiters (sweep_limiters (limiters s)) s).

Definition cleanupInterval : M unit :=
  removed ← registry_call (pruneEmpty (emptyWorkspaceTtlMs cfg) now);
  for_each removed (λ key,
    log_info "workspace_evicted" [("workspaceId", JStr key)];;
    increment "relay_workspace_evictions_total");;
  updateGauges.

(** One turn of the loop of [presenceSyncInterval], which awaits between turns. *)
Definition presence_sync (key : string) : M unit :=
  if negb (presenceSyncEnabled cfg) then ret tt else
  st ← gets (λ s, jm_get key (registry s));
  match st with
  | None => ret tt
  | Some st =>
      d ← daemon_open key;
      match d with
      | Some _ => emit (EUpsertPresence (workspaceId st) true (runtimeTargetId st) None)
      | None => ret tt
      end
  end.

Definition shutdown : M unit :=
  all ← gets (λ s, jm_keys (socks s));
  for_each all (λ ws, closeWithReason ws 1001 "relay shutting down").

(** ** Events *)

(** A socket's state as the [ws] library changes it: it never reopens. *)
Definition ready_rank (r : ReadyState) : nat :=
  match r with CONNECTING => 0 | OPEN => 1 | CLOSING => 2 | CLOSED => 3 end.

Definition sock_progress (ws : WebSocket) (k : Sock) : M unit :=
  modify (λ s,
    match jm_get ws (socks s) with
    | Some k0 => if ready_rank (readyState k0) <=? ready_rank (readyState k)
                 then put_socks (jm_set ws k (socks s)) s else s
    | None => s
    end).
End Relay.

Inductive Event :=
| Upgrade (rq : HttpUpgrade)
| Answered (n : nat) (answer : Answer) (ws : WebSocket)
| Message (ws : WebSocket) (text : string)
| Close (ws : WebSocket)
| Pong (ws : WebSocket)
| SockProgress (ws : WebSocket) (k : Sock)
| BusFrame (frame : RelayBusFrame)
| HeartbeatTick
| CleanupTick
| PresenceSync (key : string)
| Shutdown.

Section Steps.
Context `{R : Rounding} (TokenSchema : string → bool) (cfg : RelayConfig).

Definition on_answer (now : Z) (n : nat) (answer : Answer) (ws : WebSocket) : M unit :=
  t ← gets (λ s, pending s !! n);
  match t with
  | None => ret tt
  | Some t =>
      modify (λ s, put_pending (delete n (pending s)) s);;
      resume cfg now ws t answer
  end.

Definition handle (now : Z) (ev : Event) : M unit :=
  match ev with
  | Upgrade rq => on_upgrade TokenSchema cfg now rq
  | Answered n answer ws => on_answer now n answer ws
  | Message ws text => on_message cfg now ws text
  | Close ws => on_close now ws
  | Pong ws => on_pong now ws
  | SockProgress ws k => sock_progress ws k
  | BusFrame frame => routeBusFrame cfg now frame
  | HeartbeatTick => heartbeatInterval cfg now
  | CleanupTick => cleanupInterval cfg now
  | PresenceSync key => presence_sync cfg key
  | Shutdown => shutdown
  end.

(** One event, at a time: [trace] is what the event emits. *)
Definition step (now : Z) (ev : Event) (s : RelayState) : RelayState :=
  (handle now ev (put_trace [] s)).2.

(** A new socket is an object the process does not refer to yet. *)
Definition task_socket (t : Task) : option WebSocket :=
  match t with
  | AwaitPresence ws _ | AwaitPublish ws _ _ | AwaitFetch ws _ _ _ _ _ => Some ws
  | _ => None
  end.
Definition fresh (ws : WebSocket) (s : RelayState) : Prop :=
  jm_get ws (socks s) = None ∧ jm_get ws (conns s) = None ∧
  ∀ t, t ∈ pending s → task_socket t ≠ Some ws.

Definition enabled (ev : Event) (s : RelayState) : Prop :=
  match ev with Answered _ _ ws => fresh ws s | _ => True end.

Inductive reachable : RelayState → Prop :=
| reach_init : reachable initial_state
| reach_step s now ev : reachable s → enabled ev s → reachable (step now ev s).
End Steps.
