(* ===== verification/RelayLogic.v ===== *)
(** * The relay's invariant and the rules of the handlers' primitives

    [J g] is the invariant that holds between and inside events, relative to a
    [Ghost] [g]: what the event may rely on and what its effects must satisfy.  The
    rules [triple (J g) m R] of the primitives make the hint data base [relay], with
    which [run] proves a handler by following its syntax. *)

From S2P Require Import Prelude JsString JsMap Json Frames RateLimit Registry Admission.
From S2P Require Import RelayState Routing Handlers.
From stdpp Require Import prelude strings list.
From Stdlib Require Import ZArith Lia Ascii.
Open Scope relay_scope.

Definition Conns : Type := list (WebSocket * Conn).

(** The frames a peer's text travels in. *)
Definition relayed (e : effect) : bool :=
  match e with
  | ESend _ (PText _) | EPublishClientToDaemon _ _ _ _ _ | EPublishDaemonToClients _ _ _ _ => true
  | _ => false
  end.

Record Ghost := {
  g_conns : Conns;                  (* the attached handlers *)
  g_link : Conns;                   (* the connections the registry reflects *)
  g_counts : list (string * Z);     (* connections per address *)
  g_gens : string → option Z;       (* lower bounds of issue generations *)
  g_notarget : string → Prop;       (* scopes whose target is undefined *)
  g_ok : effect → Prop              (* the effects allowed *)
}.

(** [ws] is a connection of a role in a scope. *)
Definition member (C : Conns) (ws : WebSocket) (role : RelayRole) (key : string) : Prop :=
  ∃ c, jm_get ws C = Some c ∧ c_role c = role ∧ c_scopeKey c = key.

(** The registry's clients and daemons are the connections. *)
Record Linked (C : Conns) (r : Registry) : Prop := {
  ln_client : ∀ key st ws, jm_get key r = Some st → ws ∈ jm_keys (clients st) → member C ws client key;
  ln_conn : ∀ ws key, member C ws client key →
    ∃ st, jm_get key r = Some st ∧ ws ∈ jm_keys (clients st);
  ln_daemon : ∀ key st ws, jm_get key r = Some st → daemon st = Some ws →
    member C ws workspace_daemon key
}.

(** The configured bounds are positive (config.ts enforces minima of at least one). *)
Class TrackBounds (cfg : RelayConfig) : Prop := {
  track_pos : (1 ≤ maxPairingRequestTrack cfg)%Z;
  owners_pos : (1 ≤ maxSessionOwnerTrack cfg)%Z
}.

Section Logic.
Context `{R : Rounding} (cfg : RelayConfig) (now : Z).

Definition bounded (st : WorkspaceState) : Prop :=
  (jm_size (keyExchangeRequests st) ≤ maxPairingRequestTrack cfg)%Z ∧
  (jm_size (pairingRequests st) ≤ maxPairingRequestTrack cfg)%Z ∧
  (jm_size (sessionOwners st) ≤ maxSessionOwnerTrack cfg)%Z.
Definition state_ok (st : WorkspaceState) : Prop := state_wf st ∧ bounded st.

Record J (g : Ghost) (s : RelayState) : Prop := {
  J_keys : NoDup_keys (registry s);
  J_ok : ∀ key st, jm_get key (registry s) = Some st → state_ok st;
  J_conns : conns s = g_conns g;
  J_link : Linked (g_link g) (registry s);
  J_counts : ipConnectionCounts s = g_counts g;
  J_gens : ∀ key x, g_gens g key = Some x →
    ∃ st y, jm_get key (registry s) = Some st ∧ daemonIssueGeneration st = Some y ∧ (x ≤ y)%Z;
  J_target : ∀ key, g_notarget g key → runtimeTargetId (entry key s) = None;
  J_trace : ∀ e, e ∈ trace s → g_ok g e
}.

Context `{Bounds : !TrackBounds cfg}.

(** What a handler learns from reading the state of a scope. *)
Record scoped (g : Ghost) (key : string) (st : WorkspaceState) : Prop := {
  sc_ok : state_ok st;
  sc_refers : ∀ ws, refers_to ws st → member (g_link g) ws client key;
  sc_daemon : ∀ ws, daemon st = Some ws → member (g_link g) ws workspace_daemon key;
  sc_target : g_notarget g key → runtimeTargetId st = None
}.

Lemma bounded_new key md t : bounded (new_state key md t).
Proof.
  pose proof (track_pos (cfg := cfg)). pose proof (owners_pos (cfg := cfg)).
  unfold bounded, jm_size. simpl. lia.
Qed.

Lemma state_ok_new key md t : state_ok (new_state key md t).
Proof. split; [apply state_wf_new|apply bounded_new]. Qed.

Lemma refers_new ws key md t : ¬ refers_to ws (new_state key md t).
Proof.
  intros H. pose proof (wf_refers _ (state_wf_new key md t) ws H) as Hin. simpl in Hin.
  by apply not_elem_of_nil in Hin.
Qed.

Section Rules.
Context (g : Ghost).

Lemma J_frame (f : RelayState → RelayState) :
  (∀ s, registry (f s) = registry s ∧ conns (f s) = conns s ∧
        ipConnectionCounts (f s) = ipConnectionCounts s ∧ trace (f s) = trace s) →
  preserves (J g) (modify f).
Proof.
  intros Hf. apply preserves_modify. intros s []. destruct (Hf s) as (Hr & Hc & Hi & Ht).
  split; rewrite ?Hr, ?Hc, ?Hi, ?Ht; auto. intros key Hk. unfold entry. rewrite Hr.
  by apply J_target0.
Qed.

Lemma triple_current key : triple (J g) (current key) (scoped g key).
Proof.
  apply triple_gets. intros s [Hk Hok _ Hl _ _ Hnt _]. pose proof (Hnt key) as Hnt.
  unfold entry in *. destruct (jm_get key (registry s)) as [st|] eqn:E; simpl in *.
  - split; eauto.
    + intros ws Hr. eapply ln_client; eauto. by apply (wf_refers _ (proj1 (Hok _ _ E))).
    + intros ws Hd. eapply ln_daemon; eauto.
  - split; [apply state_ok_new|by intros ws ?%refers_new|done|done].
Qed.

Lemma triple_emit e : g_ok g e → preserves (J g) (emit e).
Proof.
  intros He. apply preserves_modify. intros s []. split; simpl; auto.
  intros e'. rewrite elem_of_app, list_elem_of_singleton. intros [?| ->]; auto.
Qed.

(** An update of a scope that keeps its connections, target and generation. *)
Definition gentle (key : string) (f : WorkspaceState → WorkspaceState) : Prop :=
  ∀ st, state_ok st → (∀ ws, member (g_link g) ws client key → ws ∈ jm_keys (clients st)) →
  state_ok (f st) ∧ clients (f st) = clients st ∧ daemon (f st) = daemon st ∧
  daemonIssueGeneration (f st) = daemonIssueGeneration st ∧
  (g_notarget g key → runtimeTargetId (f st) = runtimeTargetId st).

Lemma entry_alter key f k s :
  entry k (put_registry (jm_alter f key (registry s)) s) =
    match jm_get k (registry s) with
    | Some st => if decide (k = key) then f st else st
    | None => new_state k None 0
    end.
Proof.
  unfold entry. simpl. rewrite jm_get_alter. repeat case_decide; destruct (jm_get _ _); done.
Qed.

Lemma J_alter key f s : gentle key f → J g s → J g (put_registry (jm_alter f key (registry s)) s).
Proof.
  intros Hf Hj. pose proof Hj as [Hk Hok Hc Hl Hi Hg Hnt Ht].
  assert (∀ st, jm_get key (registry s) = Some st →
    state_ok (f st) ∧ clients (f st) = clients st ∧ daemon (f st) = daemon st ∧
    daemonIssueGeneration (f st) = daemonIssueGeneration st ∧
    (g_notarget g key → runtimeTargetId (f st) = runtimeTargetId st)) as Hst.
  { intros st E. apply Hf; [eauto|]. intros ws Hm.
    destruct (ln_conn _ _ Hl ws key Hm) as (st' & ? & ?). by simplify_eq. }
  assert (∀ k st', jm_get k (jm_alter f key (registry s)) = Some st' →
    ∃ st, jm_get k (registry s) = Some st ∧ (st' = st ∨ (k = key ∧ st' = f st))) as Hget.
  { intros k st'. rewrite jm_get_alter. case_decide; subst; [|by eauto].
    destruct (jm_get key (registry s)); intros; simplify_eq/=; eauto. }
  split; simpl; auto.
  - auto with viewport.
  - intros k st' E. destruct (Hget _ _ E) as (st & E' & [->|[-> ->]]); [eauto|].
    by apply Hst.
  - split.
    + intros k st' ws E. destruct (Hget _ _ E) as (st & E' & [->|[-> ->]]);
        [by eapply ln_client|]. destruct (Hst _ E') as (_ & -> & _). by eapply ln_client.
    + intros ws k Hm. destruct (ln_conn _ _ Hl ws k Hm) as (st & E & Hin).
      rewrite jm_get_alter, E. case_decide; subst; [|by eauto]. exists (f st).
      destruct (Hst _ E) as (_ & -> & _). done.
    + intros k st' ws E. destruct (Hget _ _ E) as (st & E' & [->|[-> ->]]);
        [by eapply ln_daemon|]. destruct (Hst _ E') as (_ & _ & -> & _). by eapply ln_daemon.
  - intros k x Hx. destruct (Hg k x Hx) as (st & y & E & Hy & ?).
    rewrite jm_get_alter, E. case_decide; subst; [|by eauto 10]. exists (f st), y.
    destruct (Hst _ E) as (_ & _ & _ & -> & _). done.
  - intros k Hn. specialize (Hnt k Hn). rewrite entry_alter. unfold entry in Hnt.
    destruct (jm_get k (registry s)) as [st|] eqn:E; [|done].
    case_decide; subst; [|done]. destruct (Hst _ E) as (_ & _ & _ & _ & Hkeep).
    by rewrite Hkeep.
Qed.

Lemma triple_mutate key f : gentle key f → preserves (J g) (mutate key f).
Proof. intros Hf. apply preserves_modify. intros s. by apply J_alter. Qed.

(** *** Updates of the tracking maps *)

Lemma size_track id o cap m : (1 ≤ cap)%Z → (jm_size (track_owner id o cap m) ≤ cap)%Z.
Proof.
  intros Hcap. unfold track_owner. pose proof (jm_size_set_le id o (jm_make_room cap m)).
  pose proof (jm_size_make_room cap m Hcap). lia.
Qed.

Lemma owners_ok_track id o cap st m :
  owners_ok st m → (∀ w, clientWs o = Some w → w ∈ jm_keys (clients st)) →
  owners_ok st (track_owner id o cap m).
Proof. intros. apply owners_ok_set; [|done]. by apply owners_ok_make_room. Qed.

(** The owner of a tracked entry is a client of the scope, or remote. *)
Definition owner_in (key : string) (o : Owner) : Prop :=
  ∀ w, clientWs o = Some w → member (g_link g) w client key.

(** An update of one tracking map that keeps it within its bound. *)
Lemma gentle_kex key f :
  (∀ st, state_ok st → (∀ ws, member (g_link g) ws client key → ws ∈ jm_keys (clients st)) →
    owners_ok st (f (keyExchangeRequests st)) ∧
    (jm_size (f (keyExchangeRequests st)) ≤ maxPairingRequestTrack cfg)%Z) →
  gentle key (λ st, set_kex (f (keyExchangeRequests st)) st).
Proof.
  intros Hf st Hok Hm. destruct (Hf st Hok Hm), Hok as [? (? & ? & ?)].
  split; [split; [by apply state_wf_set_kex|split_and!; simpl; lia]|done].
Qed.
Lemma gentle_pairing key f :
  (∀ st, state_ok st → (∀ ws, member (g_link g) ws client key → ws ∈ jm_keys (clients st)) →
    owners_ok st (f (pairingRequests st)) ∧
    (jm_size (f (pairingRequests st)) ≤ maxPairingRequestTrack cfg)%Z) →
  gentle key (λ st, set_pairing (f (pairingRequests st)) st).
Proof.
  intros Hf st Hok Hm. destruct (Hf st Hok Hm), Hok as [? (? & ? & ?)].
  split; [split; [by apply state_wf_set_pairing|split_and!; simpl; lia]|done].
Qed.
Lemma gentle_owners key f :
  (∀ st, state_ok st → (∀ ws, member (g_link g) ws client key → ws ∈ jm_keys (clients st)) →
    owners_ok st (f (sessionOwners st)) ∧
    (jm_size (f (sessionOwners st)) ≤ maxSessionOwnerTrack cfg)%Z) →
  gentle key (λ st, set_owners (f (sessionOwners st)) st).
Proof.
  intros Hf st Hok Hm. destruct (Hf st Hok Hm), Hok as [? (? & ? & ?)].
  split; [split; [by apply state_wf_set_owners|split_and!; simpl; lia]|done].
Qed.

Ltac filtered :=
  intros st [Hwf (? & ? & ?)] _; destruct (state_wf_owners_ok st Hwf) as (? & ? & ?);
  split; [by apply owners_ok_filter|];
  etrans; [apply jm_size_filter|done].

Lemma gentle_prune_pairing key : gentle key (pruneStalePairingRequests now).
Proof. apply (gentle_pairing key (prune_owners _ _)). filtered. Qed.
Lemma gentle_prune_kex key : gentle key (pruneStaleKeyExchangeRequests now).
Proof. apply (gentle_kex key (prune_owners _ _)). filtered. Qed.
Lemma gentle_prune_owners key : gentle key (pruneStaleSessionOwners now).
Proof. apply (gentle_owners key (prune_owners _ _)). filtered. Qed.
Lemma gentle_delete_kex key id :
  gentle key (λ st, set_kex (jm_delete id (keyExchangeRequests st)) st).
Proof. apply (gentle_kex key (jm_delete id)). filtered. Qed.
Lemma gentle_delete_pairing key id :
  gentle key (λ st, set_pairing (jm_delete id (pairingRequests st)) st).
Proof. apply (gentle_pairing key (jm_delete id)). filtered. Qed.

Ltac tracked Hin :=
  intros st [Hwf (? & ? & ?)] Hm; destruct (state_wf_owners_ok st Hwf) as (? & ? & ?);
  split; [apply owners_ok_track; [done|intros w Hw; by apply Hm, Hin]|by apply size_track; apply track_pos || apply owners_pos].

Lemma gentle_track_kex key id o : owner_in key o →
  gentle key (trackKeyExchangeRequest id o (maxPairingRequestTrack cfg)).
Proof. intros Hin. apply (gentle_kex key (track_owner _ _ _)). tracked Hin. Qed.
Lemma gentle_track_pairing key id o : owner_in key o →
  gentle key (trackPairingRequest id o (maxPairingRequestTrack cfg)).
Proof. intros Hin. apply (gentle_pairing key (track_owner _ _ _)). tracked Hin. Qed.
Lemma gentle_track_session key id o : owner_in key o →
  gentle key (trackSessionOwner id o (maxSessionOwnerTrack cfg)).
Proof. intros Hin. apply (gentle_owners key (track_owner _ _ _)). tracked Hin. Qed.

(** *** Updates of the subscribers *)

Lemma gentle_subscribers key f :
  (∀ st, state_ok st → (∀ ws, member (g_link g) ws client key → ws ∈ jm_keys (clients st)) →
    NoDup_keys (f st) ∧ (∀ ws, subscribed ws (f st) → ws ∈ jm_keys (clients st)) ∧
    (∀ ch subs, jm_get ch (f st) = Some subs → subs ≠ [])) →
  gentle key (λ st, set_subscribers (f st) st).
Proof.
  intros Hf st Hok Hm. destruct (Hf st Hok Hm) as (? & ? & ?), Hok as [? (? & ? & ?)].
  split; [split; [by apply state_wf_set_subscribers|split_and!; simpl; lia]|done].
Qed.

Lemma subscribed_client st ch subs w :
  state_wf st → jm_get ch (sessionEventSubscribers st) = Some subs → w ∈ subs →
  w ∈ jm_keys (clients st).
Proof. intros Hwf Hg Hw. apply Hwf. unfold refers_to, subscribed. eauto 10. Qed.

Lemma gentle_subscribe key channel ws :
  member (g_link g) ws client key → gentle key (subscribe channel ws).
Proof.
  intros Hmem. apply (gentle_subscribers key (λ st, jm_set channel _ _)).
  intros st [Hwf _] Hm. pose proof Hwf as []. split_and!.
  - auto with viewport.
  - intros w (ch & subs & Hg & Hin). rewrite jm_get_set in Hg. case_decide; simplify_eq.
    + apply elem_of_set_add in Hin as [->|Hin]; [auto|].
      destruct (jm_get channel _) eqn:E; simpl in Hin; [by eapply subscribed_client|set_solver].
    + by eapply subscribed_client.
  - intros ch subs Hg. rewrite jm_get_set in Hg. case_decide; simplify_eq; [|eauto].
    intros Hnil. apply (not_elem_of_nil ws). rewrite <-Hnil. apply elem_of_set_add. by left.
Qed.

Lemma gentle_unsubscribe key channel ws : gentle key (unsubscribe channel ws).
Proof.
  unfold unsubscribe. apply gentle_subscribers.
  intros st [Hwf _] Hm. pose proof Hwf as [].
  destruct (jm_get channel (sessionEventSubscribers st)) as [subs|] eqn:E; cbv zeta.
  2: { split_and!; [done|by intros w (ch & subs & ? & ?); eapply subscribed_client|done]. }
  case_bool_decide as Hnil; split_and!; auto with viewport.
  - intros w (ch & subs' & Hg & Hin). rewrite jm_get_delete in Hg. case_decide; [done|].
    by eapply subscribed_client.
  - intros ch subs' Hg. rewrite jm_get_delete in Hg. case_decide; [done|eauto].
  - intros w (ch & subs' & Hg & Hin). rewrite jm_get_set in Hg. case_decide; simplify_eq.
    + apply elem_of_set_delete in Hin as [_ Hin]. by eapply subscribed_client.
    + by eapply subscribed_client.
  - intros ch subs' Hg. rewrite jm_get_set in Hg. case_decide; simplify_eq; eauto.
Qed.

(** *** The registry *)

Lemma gentle_touch key : gentle key (set_activity now).
Proof.
  intros st [Hwf (? & ? & ?)] _.
  split; [split; [by apply state_wf_set_activity|split_and!; simpl; lia]|done].
Qed.

Lemma gentle_set_meta key w t : (∀ k, ¬ g_notarget g k) → gentle key (set_meta w t).
Proof.
  intros Hnt st [Hwf (? & ? & ?)] _. split.
  - split; [by apply state_wf_set_meta|split_and!; simpl; lia].
  - split_and!; try done. by intros ?%Hnt.
Qed.

Lemma J_create key md t s :
  (∀ k, ¬ g_notarget g k) → jm_get key (registry s) = None → J g s →
  J g (put_registry (jm_set key (new_state key md t) (registry s)) s).
Proof.
  intros Hnt Hnone [Hk Hok Hc Hl Hi Hg _ Ht].
  assert (∀ k st, jm_get k (registry s) = Some st → k ≠ key) as Hne by (by intros k st ? ->; simplify_eq).
  split; simpl; auto with viewport.
  - intros k st. rewrite jm_get_set. case_decide; intros; simplify_eq; eauto using state_ok_new.
  - split.
    + intros k st ws. rewrite jm_get_set. case_decide; intros E Hin; simplify_eq.
      * by apply not_elem_of_nil in Hin.
      * by eapply ln_client.
    + intros ws k Hm. destruct (ln_conn _ _ Hl ws k Hm) as (st & E & ?).
      exists st. by rewrite jm_get_set_ne by eauto.
    + intros k st ws. rewrite jm_get_set. case_decide; intros E Hd; simplify_eq.
      by eapply ln_daemon.
  - intros k x Hx. destruct (Hg k x Hx) as (st & y & E & ?).
    exists st, y. by rewrite jm_get_set_ne by eauto.
  - by intros k ?%Hnt.
Qed.

Lemma J_getOrCreate key md s :
  (∀ k, ¬ g_notarget g k) → J g s → J g (put_registry (getOrCreate key md now (registry s)).2 s).
Proof.
  intros Hnt Hj. unfold getOrCreate. destruct (jm_get key (registry s)) as [st|] eqn:E.
  - assert (put_registry (registry s) s = s) as Hid by (by destruct s).
    destruct md as [md|]; simpl; [|by rewrite Hid].
    destruct (truthy_opt (md_workspaceId md)); simpl; [|by rewrite Hid].
    replace (jm_set key _ (registry s)) with
      (jm_alter (set_meta (default "" (md_workspaceId md)) (md_runtimeTargetId md)) key (registry s))
      by (unfold jm_alter; by rewrite E).
    by apply J_alter; [apply gentle_set_meta|].
  - by apply J_create.
Qed.

Lemma triple_getOrCreate key md :
  (∀ k, ¬ g_notarget g k) →
  preserves (J g) (on_registry (λ r, (getOrCreate key md now r).2)).
Proof. intros Hnt. apply preserves_modify. intros s. by apply J_getOrCreate. Qed.

Lemma triple_touch key : preserves (J g) (on_registry (touch key now)).
Proof. apply preserves_modify. intros s. by apply J_alter, gentle_touch. Qed.
End Rules.

(** *** After [getOrCreate(key, { workspaceId })] the scope has no target *)

Definition with_notarget (P : string → Prop) (g : Ghost) : Ghost :=
  {| g_conns := g_conns g; g_link := g_link g; g_counts := g_counts g; g_gens := g_gens g;
     g_notarget := P; g_ok := g_ok g |}.

Lemma J_notarget P g s :
  J g s → (∀ k, P k → runtimeTargetId (entry k s) = None) → J (with_notarget P g) s.
Proof. by intros [] ?; split. Qed.

Lemma J_forget P g s : (∀ k, ¬ g_notarget g k) → J (with_notarget P g) s → J g s.
Proof. intros Hnt []; split; auto. by intros k ?%Hnt. Qed.

Definition targetless (workspaceId key k : string) : Prop := workspaceId ≠ "" ∧ k = key.

Lemma J_getOrCreate_ws g key workspaceId s :
  (∀ k, ¬ g_notarget g k) → J g s →
  J (with_notarget (targetless workspaceId key) g) (getOrCreate_ws now key workspaceId s).2.
Proof.
  intros Hnt Hj. apply J_notarget; [by apply J_getOrCreate|].
  intros k [Hw ->]. apply truthy_str_true in Hw. unfold entry, getOrCreate_ws, getOrCreate. simpl.
  rewrite Hw. destruct (jm_get key (registry s)); simpl; by rewrite jm_get_set_eq.
Qed.

Lemma triple_getOrCreate_ws {A} g key workspaceId (m : M A) Q :
  (∀ k, ¬ g_notarget g k) →
  triple (J (with_notarget (targetless workspaceId key) g)) m Q →
  triple (J g) (getOrCreate_ws now key workspaceId;; m) Q.
Proof.
  intros Hnt Hm s Hs. unfold bind.
  destruct (getOrCreate_ws now key workspaceId s) as [u s'] eqn:E.
  assert (J (with_notarget (targetless workspaceId key) g) s') as Hs'.
  { replace s' with (getOrCreate_ws now key workspaceId s).2 by (by rewrite E).
    by apply J_getOrCreate_ws. }
  destruct (Hm s' Hs'). split; [by eapply J_forget|done].
Qed.
End Logic.
