(* ===== verification/RelayRoutes.v ===== *)
(** * The rules of the handlers

    Every handler of Routing.v and Handlers.v keeps the invariant [J g] when the
    frames it may relay are allowed by [g]: to the clients of the scope for a daemon's
    frame, to its daemon for a client's. *)

From S2P Require Import Prelude JsString JsMap Json Frames RateLimit Registry Admission.
From S2P Require Import RelayState Routing Handlers RelayLogic.
From stdpp Require Import prelude strings list.
From Stdlib Require Import ZArith Lia Ascii.
Open Scope relay_scope.

Create HintDb relay.
#[export] Hint Resolve preserves_gets triple_current triple_emit triple_mutate triple_touch
  triple_getOrCreate
  gentle_prune_pairing gentle_prune_kex gentle_prune_owners gentle_delete_kex gentle_delete_pairing
  gentle_track_kex gentle_track_pairing gentle_track_session gentle_subscribe gentle_unsubscribe : relay.
#[export] Hint Extern 1 (preserves _ (ret _)) => (by apply triple_ret) : relay.

(** Binds the result of a step whose rule is given. *)
Tactic Notation "bind_by" uconstr(rule) := eapply triple_bind; [eapply rule; apply _|].

(** Follows the syntax of a handler, with the rules of the data base. *)
Ltac run :=
  cbv zeta;
  first
    [ solve [eauto 6 with relay]
    | match goal with
      | |- triple _ (bind _ _) _ => eapply triple_bind; [solve [eauto 6 with relay]|intros; run]
      | |- triple _ (bind _ _) _ => apply preserves_bind; [run|intros; run]
      | |- triple _ (if ?b then _ else _) _ => destruct b eqn:?; run
      | |- triple _ (match ?x with _ => _ end) _ => destruct x eqn:?; run
      end
    | idtac ].

Section Rules.
Context `{R : Rounding} (cfg : RelayConfig) (now : Z).
Context `{Bounds : !TrackBounds cfg}.

Notation J := (J cfg).

(** ** Primitives *)

Section Base.
Context (g : Ghost).
Hypothesis base : ∀ e, relayed e = false → g_ok g e.

Lemma triple_frame (f : RelayState → RelayState) :
  (∀ s, registry (f s) = registry s ∧ conns (f s) = conns s ∧
        ipConnectionCounts (f s) = ipConnectionCounts s ∧ trace (f s) = trace s) →
  preserves (J g) (modify f).
Proof. apply J_frame. Qed.

Lemma triple_increment_by name n : preserves (J g) (increment_by name n).
Proof. by apply triple_frame. Qed.
Lemma triple_increment name : preserves (J g) (increment name).
Proof. apply triple_increment_by. Qed.
Lemma triple_setGauge name n : preserves (J g) (setGauge name n).
Proof. by apply triple_frame. Qed.
Lemma triple_emit_base e : relayed e = false → preserves (J g) (emit e).
Proof. intros. by apply triple_emit, base. Qed.
Lemma triple_log_warn e d : preserves (J g) (log_warn e d).
Proof. by apply triple_emit_base. Qed.
Lemma triple_log_info e d : preserves (J g) (log_info e d).
Proof. by apply triple_emit_base. Qed.
Lemma triple_isOpen ws : preserves (J g) (isOpen ws).
Proof. apply preserves_gets. Qed.
Lemma triple_pending f : preserves (J g) (modify (λ s, put_pending (f s) s)).
Proof. by apply triple_frame. Qed.

Lemma triple_closeWithReason ws code reason : preserves (J g) (closeWithReason ws code reason).
Proof. apply preserves_bind; [by apply triple_emit_base|]. intros. by apply triple_frame. Qed.

Lemma triple_limit_fixed get put a b key : preserves (J g) (limit_fixed now get put a b key).
Proof.
  intros s Hs. unfold limit_fixed. destruct (FixedWindow.allow _ _ _ _ _ _) as [ok bk]. simpl.
  split; [|done]. by apply (triple_frame (put_limiters (put bk (limiters s))) (λ _, conj eq_refl (conj eq_refl (conj eq_refl eq_refl))) s).
Qed.
Lemma triple_limit_tokens get put a b key : preserves (J g) (limit_tokens now get put a b key).
Proof.
  intros s Hs. unfold limit_tokens. destruct (TokenBucket.allow _ _ _ _ _ _) as [ok bk]. simpl.
  split; [|done]. by apply (triple_frame (put_limiters (put bk (limiters s))) (λ _, conj eq_refl (conj eq_refl (conj eq_refl eq_refl))) s).
Qed.
End Base.
Hint Resolve triple_increment_by triple_increment triple_setGauge triple_emit_base triple_log_warn
  triple_log_info triple_isOpen triple_pending triple_closeWithReason triple_limit_fixed
  triple_limit_tokens : relay.

Section Sends.
Context (g : Ghost).
Hypothesis base : ∀ e, relayed e = false → g_ok g e.

Lemma triple_safeSend ws p : g_ok g (ESend ws p) → preserves (J g) (safeSend cfg ws p).
Proof. intros Hp. unfold safeSend. run. Qed.
Hint Resolve triple_safeSend : relay.

Lemma triple_send ws p : g_ok g (ESend ws p) → preserves (J g) (send_ cfg ws p).
Proof. intros Hp. unfold send_. run. Qed.
Lemma triple_send_json ws r : preserves (J g) (send_ cfg ws (PJson r)).
Proof. by apply triple_send, base. Qed.

Lemma triple_runtime_allow a b : preserves (J g) (runtime_allow cfg now a b).
Proof. unfold runtime_allow, byClient_allow, byWorkspace_allow. run. Qed.

Lemma triple_deliver_all p l :
  (∀ w, w ∈ l → g_ok g (ESend w p)) → preserves (J g) (deliver_all cfg p l).
Proof.
  induction l as [|w l IH]; intros Hl; simpl; [by apply triple_ret|].
  assert (g_ok g (ESend w p)) by (apply Hl; set_solver).
  assert (preserves (J g) (deliver_all cfg p l)) by (apply IH; set_solver).
  run.
Qed.

Lemma triple_daemon_open key :
  triple (J g) (daemon_open key)
    (λ d, ∀ w, d = Some w → member (g_link g) w workspace_daemon key).
Proof.
  unfold daemon_open. bind_by triple_current. intros st Hst.
  destruct (daemon st) as [d|] eqn:E; [|by apply triple_ret].
  eapply preserves_bind; [apply triple_isOpen|]. intros [].
  - apply triple_ret. intros w ?. simplify_eq. by eapply sc_daemon.
  - by apply triple_ret.
Qed.

Definition may_publish (key workspaceId text : string) : Prop :=
  g_notarget g key ∨ ∀ t r, g_ok g (EPublishDaemonToClients workspaceId t text r).

Lemma triple_deliver_to_owner workspaceId key text owner a b c :
  owner_in g key owner →
  (∀ w, member (g_link g) w client key → g_ok g (ESend w (PText text))) →
  may_publish key workspaceId text →
  preserves (J g) (deliver_to_owner cfg workspaceId key text owner a b c).
Proof.
  intros Ho Hsend Hpub. unfold deliver_to_owner.
  apply preserves_bind; [destruct (clientWs owner); run|]. intros open.
  assert (preserves (J g) (st ← current key;
    if truthy_opt (sourceRelayId owner) && truthy_opt (runtimeTargetId st)
    then emit (EPublishDaemonToClients workspaceId (default "" (runtimeTargetId st)) text
                 (default "" (sourceRelayId owner)));; increment b;; ret true
    else increment c;; ret false)).
  { bind_by triple_current. intros st Hst.
    destruct (_ && _) eqn:E; [|run]. apply andb_true_iff in E as [_ E].
    apply preserves_bind; [|intros; run]. apply triple_emit.
    destruct Hpub as [Hn|Hp]; [|done]. by rewrite (sc_target _ _ _ _ Hst Hn) in E. }
  destruct (clientWs owner) as [w|] eqn:Ew; [|done]. destruct open; [|done].
  apply preserves_bind; [apply triple_send, Hsend, Ho; done|intros; run].
Qed.
End Sends.
Hint Resolve triple_safeSend triple_send triple_send_json triple_runtime_allow triple_deliver_all
  triple_daemon_open : relay.

(** ** Routing *)

Section Routes.
Context (g : Ghost) (key text : string).
Hypothesis base : ∀ e, relayed e = false → g_ok g e.
Hypothesis no_notarget : ∀ k, ¬ g_notarget g k.

(** The text may go to every client of the scope. *)
Definition to_clients : Prop :=
  ∀ w, member (g_link g) w client key → g_ok g (ESend w (PText text)).
Definition to_daemon : Prop :=
  ∀ w, member (g_link g) w workspace_daemon key → g_ok g (ESend w (PText text)).

(** Frames for clients of other relays go out for the workspace only. *)
Definition to_bus (workspaceId : string) : Prop :=
  workspaceId ≠ "" ∨ ∀ t r, g_ok g (EPublishDaemonToClients workspaceId t text r).

Notation ghost w := (with_notarget (targetless w key) g).

Lemma may_publish_ws w : to_bus w → may_publish (ghost w) key w text.
Proof. intros [H|H]; [by left|by right]. Qed.

Lemma sc_owner g' st id o m :
  scoped cfg g' key st → jm_get id m = Some o →
  m = keyExchangeRequests st ∨ m = sessionOwners st ∨ m = pairingRequests st →
  owner_in g' key o.
Proof.
  intros Hst Hg Hm w Hw. apply (sc_refers _ _ _ _ Hst). unfold refers_to, owned_by.
  destruct Hm as [->|[->| ->]]; eauto 10.
Qed.

Lemma triple_routeSessionOwnedFrame w sid :
  to_clients → to_bus w → preserves (J g) (routeSessionOwnedFrame cfg now w key sid text).
Proof.
  intros Hc Hb. apply triple_getOrCreate_ws; [apply _|done|].
  apply preserves_bind; [run|]. intros _. bind_by triple_current. intros st Hst.
  destruct (jm_get sid (sessionOwners st)) as [o|] eqn:E; [|run].
  apply triple_deliver_to_owner; auto using may_publish_ws. by eapply sc_owner; eauto.
Qed.

Lemma triple_routeKeyExchangeResponse w frame :
  to_clients → to_bus w → preserves (J g) (routeKeyExchangeResponse cfg now w key text frame).
Proof.
  intros Hc Hb. unfold routeKeyExchangeResponse. cbv zeta.
  destruct (_ || _); [run|]. apply triple_getOrCreate_ws; [apply _|done|].
  apply preserves_bind; [run|]. intros _. bind_by triple_current. intros st Hst.
  destruct (jm_get _ (keyExchangeRequests st)) as [o|] eqn:E; [|run].
  assert (owner_in (ghost w) key o) as Ho by (eapply sc_owner; eauto).
  apply preserves_bind; [run|]. intros _.
  apply preserves_bind; [by apply triple_mutate, gentle_track_session|]. intros _.
  apply preserves_bind; [|intros; run].
  apply triple_deliver_to_owner; auto using may_publish_ws.
Qed.

Lemma triple_routePairingResponse w frame :
  to_clients → to_bus w → preserves (J g) (routePairingResponse cfg now w key text frame).
Proof.
  intros Hc Hb. apply triple_getOrCreate_ws; [apply _|done|]. cbv zeta.
  apply preserves_bind; [run|]. intros _. destruct (negb _); [run|].
  bind_by triple_current. intros st Hst.
  destruct (jm_get _ (pairingRequests st)) as [o|] eqn:E; [|run].
  assert (owner_in (ghost w) key o) as Ho by (eapply sc_owner; eauto).
  apply preserves_bind; [run|]. intros _. apply preserves_bind; [|intros; run].
  apply triple_deliver_to_owner; auto using may_publish_ws.
Qed.

Lemma triple_routeSessionEventRelayFrame w frame :
  to_clients → preserves (J g) (routeSessionEventRelayFrame cfg now w key text frame).
Proof.
  intros Hc. unfold routeSessionEventRelayFrame. cbv zeta.
  destruct (negb _); [run|]. apply triple_getOrCreate_ws; [apply _|done|].
  bind_by triple_current. intros st Hst.
  destruct (jm_get _ (sessionEventSubscribers st)) as [[|w0 l]|] eqn:E; [run| |run].
  apply preserves_bind; [|intros; run]. apply triple_deliver_all; [done|].
  intros w1 Hw1. apply Hc. apply (sc_refers _ _ _ _ Hst). unfold refers_to, subscribed. eauto 10.
Qed.

(** A viewer's presence goes to the other subscribers. *)
Lemma triple_routeSessionViewerPresenceFrame ws w claims clientId frame :
  (channel_of frame ∈ sessionEventChannels claims →
     ∀ w, member (g_link g) w client key → w ≠ ws → g_ok g (ESend w (PText text))) →
  preserves (J g) (routeSessionViewerPresenceFrame cfg now ws w key claims clientId text frame).
Proof.
  intros Hc. unfold routeSessionViewerPresenceFrame. cbv zeta.
  destruct (_ || _) eqn:Ech; [run|]. apply orb_false_iff in Ech as [_ Ech]. split_bools.
  apply preserves_bind; [run|]. intros ok. destruct (negb ok); [run|]. apply triple_getOrCreate_ws; [apply _|done|].
  bind_by triple_current. intros st Hst. apply preserves_bind; [|intros; run].
  apply triple_deliver_all; [done|]. intros w1 Hw1.
  apply elem_of_set_delete in Hw1 as [Hne Hw1]. apply Hc; [done| |done].
  apply (sc_refers _ _ _ _ Hst). unfold refers_to, subscribed.
  destruct (jm_get _ _) eqn:E; simpl in Hw1; [eauto 10|]. by apply not_elem_of_nil in Hw1.
Qed.

Lemma triple_handleSessionEventClientFrame ws w claims frame :
  member (g_link g) ws client key →
  preserves (J g) (handleSessionEventClientFrame cfg now ws w key claims frame).
Proof.
  intros Hm. unfold handleSessionEventClientFrame. cbv zeta.
  destruct (_ || _); [run|]. apply triple_getOrCreate_ws; [apply _|done|]. run.
Qed.

Lemma triple_prune_all : preserves (J g) (prune_all now key).
Proof. unfold prune_all. run. Qed.

Lemma triple_track_key_exchange o frame :
  owner_in g key o → preserves (J g) (track_key_exchange cfg key o frame).
Proof. intros Ho. unfold track_key_exchange. run. Qed.
Lemma triple_track_pairing o frame :
  owner_in g key o → preserves (J g) (track_pairing cfg key o frame).
Proof. intros Ho. unfold track_pairing. run. Qed.

Lemma triple_routeClientMessageWithoutLocalDaemon ws w t m c p :
  preserves (J g) (routeClientMessageWithoutLocalDaemon cfg ws w t m c p).
Proof. unfold routeClientMessageWithoutLocalDaemon. run. Qed.

Lemma triple_forwardWorkerTransportRequest ws w claims frame :
  preserves (J g) (forwardWorkerTransportRequest cfg ws w claims frame).
Proof. unfold forwardWorkerTransportRequest. run. Qed.

(** ** Frames from the bus *)

Lemma triple_route_bus_client frame :
  bf_payload frame = text → to_daemon → preserves (J g) (route_bus_client cfg now key frame).
Proof.
  intros Hp Hd. unfold route_bus_client. rewrite Hp.
  assert (owner_in g key (remote_owner now frame)) as Ho by done.
  apply preserves_bind.
  - destruct (parseFramePayload _); [|run]. apply preserves_bind; [|intros _].
    + destruct (isKeyExchangeInitFrame _); [by apply triple_track_key_exchange|run].
    + destruct (isPairingClientFrame _); [by apply triple_track_pairing|run].
  - intros _. bind_by triple_daemon_open. intros [d|] Hdm; [|run].
    apply preserves_bind; [|intros; run]. by apply triple_send, Hd, Hdm.
Qed.

Lemma triple_route_bus_daemon frame :
  bf_payload frame = text → to_clients → to_bus (bf_workspaceId frame) →
  preserves (J g) (route_bus_daemon cfg now key frame).
Proof.
  intros Hp Hc Hb. unfold route_bus_daemon, count_routed, bus_rejected. cbv zeta. rewrite Hp.
  destruct (isKeyExchangeResponseFrame _).
  { apply preserves_bind; [by apply triple_routeKeyExchangeResponse|intros; run]. }
  destruct (isPairingDaemonFrame _).
  { apply preserves_bind; [by apply triple_routePairingResponse|intros; run]. }
  destruct (isSessionEventRelayFrame _).
  { apply preserves_bind; [by apply triple_routeSessionEventRelayFrame|intros; run]. }
  destruct (_ || _); [destruct (as_string _)|]; [|run|run].
  apply preserves_bind; [by apply triple_routeSessionOwnedFrame|intros; run].
Qed.
End Routes.

Lemma triple_routeBusFrame g frame :
  (∀ e, relayed e = false → g_ok g e) → (∀ k, ¬ g_notarget g k) →
  let key := Status.runtimeScopeKey (bf_workspaceId frame) (bf_runtimeTargetId frame) in
  match bf_direction frame with
  | client_to_daemon =>
      isAllowedClientFrame (bf_payload frame) = true → to_daemon g key (bf_payload frame)
  | daemon_to_clients =>
      (isAllowedDaemonFrame (bf_payload frame) = true → to_clients g key (bf_payload frame)) ∧
      to_bus g (bf_payload frame) (bf_workspaceId frame)
  end →
  preserves (J g) (routeBusFrame cfg now frame).
Proof.
  intros base Hnt key Hd. unfold routeBusFrame, bus_rejected. fold key.
  destruct (negb (truthy_opt _)); [run|]. cbv zeta.
  apply preserves_bind; [by apply triple_getOrCreate|intros _].
  apply preserves_bind; [run|intros _].
  apply preserves_bind; [by apply triple_prune_all|intros _].
  destruct (bf_direction frame).
  - destruct (isAllowedClientFrame _) eqn:Ea; simpl; [|run].
    eapply triple_route_bus_client; eauto.
  - destruct Hd as [Hd Hb]. destruct (isAllowedDaemonFrame _) eqn:Ea; simpl; [|run].
    apply preserves_bind; [unfold daemonFrame_allow; run|]. intros ok. destruct (negb ok); [run|].
    eapply triple_route_bus_daemon; eauto.
Qed.
End Rules.
