(* ===== verification/RelayHandlers.v ===== *)
(** * What the message handlers may send

    The rules of [client_message], [daemon_message] and [worker_message]: the
    invariant is kept, and the peers a frame's text reaches are those of
    [client_may] and [daemon_may]. *)

From S2P Require Import Prelude JsString JsMap Json Frames RateLimit Registry Admission.
From S2P Require Import RelayState Routing Handlers RelayLogic RelayRoutes.
From stdpp Require Import prelude strings list.
From Stdlib Require Import ZArith Lia Ascii.
Open Scope relay_scope.

(** The frames a client of a scope may have forwarded to its daemon. *)
Definition forwardable (c : Conn) (frame : FramePayload) : Prop :=
  match c_clientScope c with
  | scope_runtime =>
      isPairingClientFrame frame = false ∧ isSessionEventClientFrame frame = false
  | scope_pairing => isPairingClientFrame frame = true
  | scope_session_events => False
  end ∧
  ∀ expected got, c_expectedProfile c = Some expected → extractFrameProfile frame = Some got →
    expected = got.

(** Where the text of a client's frame may go: to the daemon of its scope; a viewer's
    presence on an authorized channel, to other clients of its scope. *)
Definition client_may (C : Conns) (ws : WebSocket) (c : Conn) (text : string) (e : effect) : Prop :=
  relayed e = true →
  ∃ w frame, e = ESend w (PText text) ∧ parseFramePayload text = Some frame ∧
    isAllowedClientFrame text = true ∧
    ((member C w workspace_daemon (c_scopeKey c) ∧ forwardable c frame) ∨
     (member C w client (c_scopeKey c) ∧ w ≠ ws ∧ c_clientScope c = scope_session_events ∧
      isSessionViewerPresenceFrame frame = true ∧
      channel_of frame ∈ sessionEventChannels (c_claims c))).

(** Where the text of a daemon's frame may go: to the clients of its scope. *)
Definition daemon_may (C : Conns) (c : Conn) (text : string) (e : effect) : Prop :=
  relayed e = true →
  ∃ w, e = ESend w (PText text) ∧ member C w client (c_scopeKey c) ∧
    isAllowedDaemonFrame text = true.

Definition silent (e : effect) : Prop := relayed e = false.

Section Messages.
Context `{R : Rounding} (cfg : RelayConfig) (now : Z) `{Bounds : !TrackBounds cfg}.
Notation J := (J cfg).
Hint Resolve triple_increment_by triple_increment triple_setGauge triple_emit_base triple_log_warn
  triple_log_info triple_isOpen triple_pending triple_closeWithReason triple_limit_fixed
  triple_limit_tokens triple_send_json triple_runtime_allow triple_prune_all
  triple_forwardWorkerTransportRequest triple_routeClientMessageWithoutLocalDaemon : relay.

Section Handlers.
Context (g : Ghost).
Hypothesis base : ∀ e, relayed e = false → g_ok g e.
Hypothesis no_notarget : ∀ k, ¬ g_notarget g k.

Lemma triple_markWsActivity ws : preserves (J g) (markWsActivity now ws).
Proof. by apply triple_frame. Qed.
Lemma triple_setupHeartbeat ws : preserves (J g) (setupHeartbeat now ws).
Proof. by apply triple_frame. Qed.
Hint Resolve triple_markWsActivity : relay.
Lemma triple_updateGauges : preserves (J g) updateGauges.
Proof. unfold updateGauges. run. Qed.

Lemma triple_worker_message ws c text : preserves (J g) (worker_message cfg now ws c text).
Proof. unfold worker_message, daemonFrame_allow. run. Qed.

(** *** Daemons *)

Lemma triple_route_daemon_frame c text frame :
  to_clients g (c_scopeKey c) text → to_bus g text (c_workspaceId c) →
  preserves (J g) (route_daemon_frame cfg now c text frame).
Proof.
  intros Hc Hb. unfold route_daemon_frame, daemon_rejected. cbv zeta.
  destruct (isPairingDaemonFrame _).
  { apply preserves_bind; [by apply triple_routePairingResponse|intros; run]. }
  destruct (isKeyExchangeResponseFrame _).
  { apply preserves_bind; [by apply triple_routeKeyExchangeResponse|intros; run]. }
  destruct (_ || _); [destruct (as_string _)|]; [|run|run].
  apply preserves_bind; [by apply triple_routeSessionOwnedFrame|intros; run].
Qed.

Lemma triple_daemon_message ws c text :
  (isAllowedDaemonFrame text = true → to_clients g (c_scopeKey c) text) →
  to_bus g text (c_workspaceId c) →
  preserves (J g) (daemon_message cfg now ws c text).
Proof.
  intros Hc Hb. unfold daemon_message, daemon_rejected, daemonFrame_allow. cbv zeta.
  apply preserves_bind; [run|intros _]. apply preserves_bind; [run|intros ok].
  destruct (negb ok); [run|]. destruct (_ <? _)%Z; [run|].
  destruct (isAllowedDaemonFrame text); simpl; [|run].
  destruct (profile_too_weak _ _); [run|]. by apply triple_route_daemon_frame; auto.
Qed.

(** *** Clients *)

Section Client.
Context (ws : WebSocket) (c : Conn) (text : string) (frame : FramePayload).
Hypothesis linked : member (g_link g) ws client (c_scopeKey c).

Lemma triple_session_events_message :
  (isSessionViewerPresenceFrame frame = true →
   channel_of frame ∈ sessionEventChannels (c_claims c) →
   ∀ w, member (g_link g) w client (c_scopeKey c) → w ≠ ws → g_ok g (ESend w (PText text))) →
  preserves (J g) (session_events_message cfg now ws c text frame).
Proof.
  intros Hp. unfold session_events_message, client_rejected.
  destruct (negb _); [run|]. destruct (isSessionViewerPresenceFrame frame).
  - apply triple_routeSessionViewerPresenceFrame; auto.
  - by apply triple_handleSessionEventClientFrame.
Qed.

(** The conditions of [forwardable] on the scope and on the profile. *)
Lemma triple_scope_profile_stage :
  c_clientScope c ≠ scope_session_events → isSessionEventClientFrame frame = false →
  triple (J g) (scope_profile_stage ws c frame) (λ go, go = true → forwardable c frame).
Proof.
  intros Hs He. unfold scope_profile_stage, forwardable, client_rejected. cbv zeta.
  assert (∀ (m : M unit), preserves (J g) m → ∀ R : bool → Prop, R false →
    triple (J g) (m;; ret false) R) as Hstop.
  { intros m Hm Q HQ. apply preserves_bind; [done|intros]. by apply triple_ret. }
  destruct (c_clientScope c); simpl; [| |done];
    rewrite ?bool_decide_eq_false_2, ?bool_decide_eq_true_2 by done; simpl;
    destruct (isPairingClientFrame frame); simpl;
    try (repeat (apply preserves_bind; [run|intros _]); by apply triple_ret);
    (destruct (c_expectedProfile c) as [e|]; [|apply triple_ret; naive_solver]);
    (destruct (extractFrameProfile frame) as [p|]; [|apply triple_ret; naive_solver]);
    (case_bool_decide; [apply triple_ret; naive_solver|]);
    repeat (apply preserves_bind; [run|intros _]); by apply triple_ret.
Qed.

Lemma local_owner_in : owner_in g (c_scopeKey c) (local_owner now ws).
Proof. intros w ?. by simplify_eq/=. Qed.
Hint Resolve local_owner_in triple_track_key_exchange triple_track_pairing : relay.

Lemma triple_key_exchange_stage : preserves (J g) (key_exchange_stage cfg now ws c frame).
Proof. unfold key_exchange_stage, kex_allow. run. Qed.
Lemma triple_runtime_limit_stage : preserves (J g) (runtime_limit_stage cfg now ws c frame).
Proof. unfold runtime_limit_stage. run. Qed.
Lemma triple_pairing_stage : preserves (J g) (pairing_stage cfg now ws c frame).
Proof. unfold pairing_stage, pairing_allow. run. Qed.

Lemma triple_forward_stage :
  to_daemon g (c_scopeKey c) text → preserves (J g) (forward_stage cfg ws c text).
Proof.
  intros Hd. unfold forward_stage. bind_by triple_daemon_open. intros [d|] Hdm; [|run].
  do 2 (apply preserves_bind; [run|intros _]). by apply triple_send, Hd, Hdm.
Qed.

Lemma triple_and_then (m : M bool) k (Q : Prop) :
  triple (J g) m (λ go, go = true → Q) → (Q → preserves (J g) k) →
  preserves (J g) (and_then m k).
Proof.
  intros Hm Hk. unfold and_then. eapply triple_bind; [done|]. intros [] HQ; [auto|run].
Qed.

Lemma triple_runtime_message :
  c_clientScope c ≠ scope_session_events →
  (forwardable c frame → to_daemon g (c_scopeKey c) text) →
  preserves (J g) (runtime_message cfg now ws c text frame).
Proof.
  intros Hs Hd. unfold runtime_message, client_rejected.
  destruct (isSessionEventClientFrame frame) eqn:He; [run|].
  apply preserves_bind; [run|intros _].
  eapply triple_and_then; [by apply triple_scope_profile_stage|]. intros Hf.
  apply (triple_and_then _ _ True); [eapply triple_weaken; [apply triple_key_exchange_stage|done]|].
  intros _.
  apply (triple_and_then _ _ True); [eapply triple_weaken; [apply triple_runtime_limit_stage|done]|].
  intros _.
  apply (triple_and_then _ _ True); [eapply triple_weaken; [apply triple_pairing_stage|done]|].
  intros _. by apply triple_forward_stage, Hd.
Qed.
End Client.

Lemma triple_client_message ws c text :
  member (g_link g) ws client (c_scopeKey c) →
  (∀ e, client_may (g_link g) ws c text e → g_ok g e) →
  preserves (J g) (client_message cfg now ws c text).
Proof.
  intros Hm Hok. unfold client_message, client_rejected.
  apply preserves_bind; [run|intros _]. destruct (_ <? _)%Z; [run|].
  destruct (isAllowedClientFrame text) eqn:Ea; simpl; [|run].
  destruct (parseFramePayload text) as [frame|] eqn:Ep; [|run].
  case_bool_decide as Hs.
  - apply triple_session_events_message; [done|]. intros Hp Hch w Hw Hne.
    apply Hok. intros _. exists w, frame. split_and!; auto 10.
  - apply triple_runtime_message; [done|done|]. intros Hf w Hw.
    apply Hok. intros _. exists w, frame. split_and!; auto.
Qed.
End Handlers.
End Messages.
