(* ===== verification/RelayInvariant.v ===== *)
(** * The invariant of the relay

    [inv] holds in every reachable state ([inv_reachable]): the registry's clients and
    daemons are exactly the live connections, owners and subscribers are clients of
    their scope, the tracking maps are within their bounds and the counter of every
    address is the number of its connections. *)

From S2P Require Import Prelude JsString JsMap Json Frames RateLimit Registry Admission.
From S2P Require Import RelayState Routing Handlers Relay RelayLogic RelayRoutes RelayHandlers.
From stdpp Require Import prelude strings list.
From Stdlib Require Import ZArith Lia Ascii.
Open Scope relay_scope.

(** ** Connections per address *)

Definition count_ip (ip : string) (C : Conns) : Z :=
  Z.of_nat (length (List.filter (λ e, bool_decide (c_ip e.2 = ip)) C)).

Definition counts_ok (m : list (string * Z)) (C : Conns) : Prop :=
  NoDup_keys m ∧ ∀ ip, jm_get ip m = if (count_ip ip C =? 0)%Z then None else Some (count_ip ip C).

(** The update of [adjustIpConnectionCount]. *)
Definition adjust_count (ip : string) (delta : Z) (m : list (string * Z)) : list (string * Z) :=
  let next := (default 0 (jm_get ip m) + delta)%Z in
  if (next <=? 0)%Z then jm_delete ip m else jm_set ip next m.

Lemma count_ip_nonneg ip C : (0 ≤ count_ip ip C)%Z.
Proof. unfold count_ip. lia. Qed.

Lemma count_ip_set ip ws c C :
  jm_get ws C = None →
  count_ip ip (jm_set ws c C) = (count_ip ip C + if decide (c_ip c = ip) then 1 else 0)%Z.
Proof.
  unfold count_ip. induction C as [|[w c'] C IH]; simpl.
  - intros _. repeat case_decide; repeat case_bool_decide; simpl; try done; lia.
  - destruct (decide (ws = w)) as [|]; [done|]. intros Hn. specialize (IH Hn). simpl.
    case_bool_decide; simpl; rewrite ?Nat2Z.inj_succ; lia.
Qed.

Lemma jm_delete_cons {K V} `{EqDecision K} (k k' : K) (v : V) m :
  jm_delete k ((k', v) :: m) =
    if decide (k = k') then jm_delete k m else (k', v) :: jm_delete k m.
Proof.
  unfold jm_delete, jm_filter. simpl. case_decide; subst.
  - by rewrite bool_decide_eq_true_2.
  - by rewrite bool_decide_eq_false_2 by congruence.
Qed.

Lemma jm_delete_fresh {K V} `{EqDecision K} (k : K) (m : list (K * V)) :
  jm_get k m = None → jm_delete k m = m.
Proof.
  induction m as [|[k' v] m IH]; [done|]. rewrite jm_delete_cons. simpl.
  destruct (decide (k = k')) as [|Hd]; [done|]. intros Hn. by rewrite IH.
Qed.

Lemma count_ip_delete ip ws c C :
  NoDup_keys C → jm_get ws C = Some c →
  count_ip ip (jm_delete ws C) = (count_ip ip C - if decide (c_ip c = ip) then 1 else 0)%Z.
Proof.
  unfold NoDup_keys. induction C as [|[w c'] C IH]; [done|]. rewrite jm_delete_cons. csimpl.
  intros [Hni Hnd]%NoDup_cons. destruct (decide (ws = w)) as [|Hd]; intros; simplify_eq.
  - rewrite jm_delete_fresh by (by apply jm_get_None). unfold count_ip. simpl.
    case_bool_decide; case_decide; simpl; rewrite ?Nat2Z.inj_succ; simplify_eq; lia.
  - specialize (IH Hnd ltac:(done)). unfold count_ip in *. simpl.
    case_bool_decide; simpl; rewrite ?Nat2Z.inj_succ; lia.
Qed.

Lemma counts_ok_adjust ip delta m C C' :
  counts_ok m C →
  (∀ i, count_ip i C' = (count_ip i C + if decide (ip = i) then delta else 0)%Z) →
  counts_ok (adjust_count ip delta m) C'.
Proof.
  intros [Hnd Hm] Hc. unfold adjust_count. split.
  { case_match; auto with viewport. }
  intros i. pose proof (count_ip_nonneg i C'). pose proof (count_ip_nonneg i C).
  specialize (Hc i). pose proof (Hm i) as Hi.
  assert (default 0 (jm_get ip m) = count_ip ip C)%Z as Hd.
  { rewrite Hm. destruct (Z.eqb_spec (count_ip ip C) 0); simpl; lia. }
  rewrite Hd. destruct (decide (ip = i)) as [->|Hne].
  - destruct (_ <=? 0)%Z eqn:E; split_bools.
    + rewrite jm_get_delete_eq. destruct (Z.eqb_spec (count_ip i C') 0); [done|lia].
    + rewrite jm_get_set_eq. destruct (Z.eqb_spec (count_ip i C') 0); [lia|]. f_equal. lia.
  - replace (count_ip i C') with (count_ip i C) by lia. rewrite <-Hi.
    destruct (_ <=? 0)%Z; [rewrite jm_get_delete_ne|rewrite jm_get_set_ne]; done.
Qed.

(** ** The invariant *)

(** What admission established about a connection. *)
Record conn_ok (c : Conn) : Prop := {
  co_workspace : c_workspaceId c ≠ "";
  co_claim : Connection.claimedWorkspaceId (c_claims c) = c_workspaceId c;
  co_key : c_scopeKey c = Status.runtimeScopeKey (c_workspaceId c) (c_runtimeTargetId c);
  co_scope : c_role c = client → is_Some (c_claims c ≫= cl_scope);
  co_target : Connection.needs_target (c_role c) (c_claims c ≫= cl_scope) = true →
    c_runtimeTargetId c = Some (Connection.claimedRuntimeTargetId (c_claims c))
}.

Definition ghost_of (s : RelayState) (ok : effect → Prop) : Ghost :=
  {| g_conns := conns s; g_link := conns s; g_counts := ipConnectionCounts s;
     g_gens := λ key, jm_get key (registry s) ≫= daemonIssueGeneration;
     g_notarget := λ _, False; g_ok := ok |}.

Section Invariant.
Context `{R : Rounding} (cfg : RelayConfig) `{Bounds : !TrackBounds cfg}.
Notation J := (J cfg).

Record inv (s : RelayState) : Prop := {
  inv_keys : NoDup_keys (registry s);
  inv_states : ∀ key st, jm_get key (registry s) = Some st → state_ok cfg st;
  inv_conns : NoDup_keys (conns s);
  inv_linked : Linked (conns s) (registry s);
  inv_counts : counts_ok (ipConnectionCounts s) (conns s);
  inv_admitted : ∀ ws c, jm_get ws (conns s) = Some c → conn_ok c
}.

Lemma inv_init : inv initial_state.
Proof.
  split; simpl; try apply NoDup_keys_nil; try done.
  - split; [done| |done]. by intros ws key (c & ? & _).
  - split; [apply NoDup_keys_nil|done].
Qed.

(** At the start of an event. *)
Lemma J_start s ok : inv s → J (ghost_of s ok) (put_trace [] s).
Proof.
  intros []. split; simpl; auto.
  - intros key x Hx. destruct (jm_get key (registry s)) as [st|]; [|done].
    exists st, x. simpl in Hx. split_and!; [done|done|lia].
  - done.
  - by intros e ?%not_elem_of_nil.
Qed.

(** Connections come and go: the ghost of the new connections. *)
Definition with_conns (C : Conns) (m : list (string * Z)) (g : Ghost) : Ghost :=
  {| g_conns := C; g_link := C; g_counts := m; g_gens := g_gens g;
     g_notarget := g_notarget g; g_ok := g_ok g |}.

(** At the end of an event. *)
Lemma inv_end g s :
  J g s → g_link g = g_conns g → NoDup_keys (g_conns g) → counts_ok (g_counts g) (g_conns g) →
  (∀ ws c, jm_get ws (g_conns g) = Some c → conn_ok c) → inv s.
Proof.
  intros [] Hl ???. destruct g; simpl in *; subst. by split.
Qed.

Lemma inv_unchanged s ok s' : inv s → J (ghost_of s ok) s' → inv s'.
Proof. intros [] HJ. by eapply inv_end; [exact HJ|..]. Qed.

(** [J] reads four fields only. *)
Lemma J_ext g s s' :
  registry s' = registry s → conns s' = conns s → ipConnectionCounts s' = ipConnectionCounts s →
  trace s' = trace s → J g s → J g s'.
Proof.
  intros Hr Hc Hi Ht [? ? ? ? ? ? Hnt ?]. split; rewrite ?Hr, ?Hc, ?Hi, ?Ht; auto.
  intros key Hk. unfold entry. rewrite Hr. by apply Hnt.
Qed.

(** ** A connection joins *)

Lemma member_set C ws c w role key :
  jm_get ws C = None →
  member (jm_set ws c C) w role key ↔
    (w = ws ∧ c_role c = role ∧ c_scopeKey c = key) ∨ member C w role key.
Proof.
  intros Hn. unfold member. setoid_rewrite jm_get_set. case_decide; subst.
  - split; [naive_solver|]. intros [(_ & ? & ?)|(? & ? & _)]; [eauto|congruence].
  - naive_solver.
Qed.

(** What joining does to the state of the scope. *)
Definition joins (ws : WebSocket) (role : RelayRole) (st st' : WorkspaceState) : Prop :=
  (∀ w, w ∈ jm_keys (clients st') ↔ (w = ws ∧ role = client) ∨ w ∈ jm_keys (clients st)) ∧
  (∀ w, daemon st' = Some w → (w = ws ∧ role = workspace_daemon) ∨ daemon st = Some w) ∧
  (∀ y, daemonIssueGeneration st = Some y →
     ∃ y', daemonIssueGeneration st' = Some y' ∧ (y ≤ y')%Z).

Lemma J_join g s s' ws c st st' :
  let key := c_scopeKey c in
  jm_get key (registry s) = Some st →
  NoDup_keys (registry s') →
  (∀ k, jm_get k (registry s') = if decide (k = key) then Some st' else jm_get k (registry s)) →
  conns s' = jm_set ws c (conns s) → trace s' = trace s →
  jm_get ws (g_conns g) = None → g_link g = g_conns g → (∀ k, ¬ g_notarget g k) →
  state_ok cfg st' → joins ws (c_role c) st st' → J g s →
  J (with_conns (jm_set ws c (g_conns g)) (ipConnectionCounts s') g) s'.
Proof.
  intros key Hst Hnd Hreg Hc Ht Hfresh Hlink Hnt Hok (Hcl & Hd & Hgen) [? Hoks Hconns Hl ? Hg _ Htr].
  rewrite Hlink in Hl.
  split; simpl; auto; rewrite ?Ht, ?Hc, ?Hconns; auto.
  - intros k st1. rewrite Hreg. case_decide; intros; simplify_eq; eauto.
  - split.
    + intros k st1 w. rewrite Hreg, member_set by done. case_decide; intros E Hin; simplify_eq.
      * apply Hcl in Hin as [[-> ?]|Hin]; [by left|right]. by eapply ln_client.
      * right. by eapply ln_client.
    + intros w k. rewrite member_set, Hreg by done. intros [(-> & Hr & <-)|Hm].
      * rewrite decide_True by done. exists st'. split; [done|]. apply Hcl. by left.
      * destruct (ln_conn _ _ Hl w k Hm) as (st1 & E & Hin). case_decide; simplify_eq; [|by eauto].
        exists st'. split; [done|]. apply Hcl. by right.
    + intros k st1 w. rewrite Hreg, member_set by done. case_decide; intros E Hdw; simplify_eq.
      * apply Hd in Hdw as [[-> ?]|Hdw]; [by left|right]. by eapply ln_daemon.
      * right. by eapply ln_daemon.
  - intros k x Hx. destruct (Hg k x Hx) as (st1 & y & E & Hy & ?). rewrite Hreg.
    case_decide; simplify_eq; [|by eauto 10]. destruct (Hgen y Hy) as (y' & ? & ?).
    exists st', y'. split_and!; [done|done|lia].
  - by intros k ?%Hnt.
Qed.

(** ** A connection leaves *)

Lemma member_delete C ws c w role key :
  jm_get ws C = Some c →
  member (jm_delete ws C) w role key ↔ w ≠ ws ∧ member C w role key.
Proof.
  intros Hn. unfold member. setoid_rewrite jm_get_delete. case_decide; subst; naive_solver.
Qed.

Definition leaves (ws : WebSocket) (role : RelayRole) (st st' : WorkspaceState) : Prop :=
  (∀ w, w ∈ jm_keys (clients st') ↔ w ∈ jm_keys (clients st) ∧ ¬ (w = ws ∧ role = client)) ∧
  (∀ w, daemon st' = Some w → daemon st = Some w ∧ ¬ (w = ws ∧ role = workspace_daemon)) ∧
  daemonIssueGeneration st' = daemonIssueGeneration st.

Lemma J_leave g s s' ws c :
  let key := c_scopeKey c in
  NoDup_keys (registry s') →
  (∀ k st', jm_get k (registry s') = Some st' → state_ok cfg st' ∧
     ∃ st, jm_get k (registry s) = Some st ∧
       (if decide (k = key) then leaves ws (c_role c) st st' else st' = st)) →
  (∀ k, is_Some (jm_get k (registry s)) → is_Some (jm_get k (registry s'))) →
  conns s' = jm_delete ws (conns s) → trace s' = trace s →
  jm_get ws (g_conns g) = Some c → g_link g = g_conns g → (∀ k, ¬ g_notarget g k) → J g s →
  J (with_conns (jm_delete ws (g_conns g)) (ipConnectionCounts s') g) s'.
Proof.
  intros key Hnd Hreg Hdom Hc Ht Hws Hlink Hnt [? Hoks Hconns Hl ? Hg _ Htr].
  rewrite Hlink in Hl.
  assert (∀ w role k, member (g_conns g) w role k → w = ws → role = c_role c ∧ k = key) as Hone.
  { intros w role k (c' & ? & <- & <-) ->. by simplify_eq. }
  assert (∀ k st', jm_get k (registry s') = Some st' → ∃ st, jm_get k (registry s) = Some st ∧
    (∀ w, w ∈ jm_keys (clients st') ↔ w ∈ jm_keys (clients st) ∧ w ≠ ws) ∧
    (∀ w, daemon st' = Some w → daemon st = Some w ∧ w ≠ ws) ∧
    daemonIssueGeneration st' = daemonIssueGeneration st) as Hget.
  { intros k st' E. destruct (Hreg k st' E) as (_ & st & E' & Hk). exists st. split; [done|].
    case_decide as Hkey; [destruct Hk as (Hk1 & Hk2 & Hk3)|subst st'].
    - split_and!; [|intros w Hw; destruct (Hk2 w Hw) as [Hd Hne]; split; [done|]|done].
      + intros w. rewrite Hk1. split; intros [Hin Hne]; split; try done; [|tauto].
        intros ->. destruct (Hone ws client k (ln_client _ _ Hl _ _ _ E' Hin) eq_refl). auto.
      + intros ->. destruct (Hone ws _ k (ln_daemon _ _ Hl _ _ _ E' Hd) eq_refl). auto.
    - split_and!; [|intros w Hw; split; [done|]|done].
      + intros w. split; [|by intros [? _]]. intros Hin. split; [done|]. intros ->.
        destruct (Hone ws client k (ln_client _ _ Hl _ _ _ E' Hin) eq_refl). auto.
      + intros ->. destruct (Hone ws _ k (ln_daemon _ _ Hl _ _ _ E' Hw) eq_refl). auto. }
  split; simpl; auto; rewrite ?Ht, ?Hc, ?Hconns; auto.
  - intros k st' E. by apply Hreg in E as [? _].
  - split.
    + intros k st' w E Hin. rewrite member_delete by done.
      destruct (Hget k st' E) as (st & E' & Hcl & _). destruct (proj1 (Hcl w) Hin).
      split; [done|]. by eapply ln_client.
    + intros w k. rewrite member_delete by done. intros [Hne Hm].
      destruct (ln_conn _ _ Hl w k Hm) as (st & E & Hin).
      destruct (Hdom k) as [st' E']; [by eauto|]. exists st'. split; [done|].
      destruct (Hget k st' E') as (st1 & ? & Hcl & _). simplify_eq. by apply Hcl.
    + intros k st' w E Hin. rewrite member_delete by done.
      destruct (Hget k st' E) as (st & E' & _ & Hd & _). destruct (Hd w Hin).
      split; [done|]. by eapply ln_daemon.
  - intros k x Hx. destruct (Hg k x Hx) as (st & y & E & Hy & ?).
    destruct (Hdom k) as [st' E']; [by eauto|].
    destruct (Hget k st' E') as (st1 & ? & _ & _ & Hgen). simplify_eq.
    exists st', y. rewrite Hgen. done.
  - by intros k ?%Hnt.
Qed.
End Invariant.
