(* ===== verification/RelaySteps.v ===== *)
(** * Every step keeps the invariant

    The rules of [registerConnection] and [on_close], which change the connections,
    then [inv_step] and [inv_reachable]. *)

From S2P Require Import Prelude JsString JsMap Json Frames RateLimit Registry Admission.
From S2P Require Import RelayState Routing Handlers Relay RelayLogic RelayRoutes RelayHandlers RelayInvariant.
From stdpp Require Import prelude strings list relations.
From Stdlib Require Import ZArith Lia Ascii.
Open Scope relay_scope.

Section Steps.
Context `{R : Rounding} (cfg : RelayConfig) (now : Z) `{Bounds : !TrackBounds cfg}.
Notation J := (J cfg).
Hint Resolve triple_increment_by triple_increment triple_setGauge triple_emit_base triple_log_warn
  triple_log_info triple_isOpen triple_pending triple_closeWithReason triple_send_json
  triple_updateGauges triple_prune_all : relay.

Lemma bind_snd {A B} (m : M A) (k : A → M B) s : (bind m k s).2 = (k (m s).1 (m s).2).2.
Proof. unfold bind. by destruct (m s). Qed.

Lemma state_ok_change (f : WorkspaceState → WorkspaceState) st :
  state_wf (f st) → keyExchangeRequests (f st) = keyExchangeRequests st →
  pairingRequests (f st) = pairingRequests st → sessionOwners (f st) = sessionOwners st →
  state_ok cfg st → state_ok cfg (f st).
Proof. intros ? Hk Hp Ho [_ ?]. split; [done|]. unfold bounded in *. by rewrite Hk, Hp, Ho. Qed.

Lemma J_after {A} g (m : M A) s : preserves (J g) m → J g s → J g (m s).2.
Proof. intros Hm Hs. exact (proj1 (Hm s Hs)). Qed.

(** ** Joining *)

Section Join.
Context (g : Ghost) (ws : WebSocket) (c : Conn).
Hypothesis base : ∀ e, relayed e = false → g_ok g e.
Hypothesis no_notarget : ∀ k, ¬ g_notarget g k.
Hypothesis linked : g_link g = g_conns g.
Hypothesis new : jm_get ws (g_conns g) = None.

Definition joined : Ghost :=
  with_conns (jm_set ws c (g_conns g)) (adjust_count (c_ip c) 1 (g_counts g)) g.

(** A joining update of an existing scope. *)
Lemma J_joined s s' f st :
  jm_get (c_scopeKey c) (registry s) = Some st →
  registry s' = jm_alter f (c_scopeKey c) (registry s) →
  conns s' = jm_set ws c (conns s) → trace s' = trace s →
  ipConnectionCounts s' = adjust_count (c_ip c) 1 (ipConnectionCounts s) →
  state_ok cfg (f st) → joins ws (c_role c) st (f st) →
  J g s → J joined s'.
Proof.
  intros Hst Hr Hc Ht Hi Hok Hj HJ.
  unfold joined. rewrite <-(J_counts _ _ _ HJ), <-Hi.
  eapply J_join; eauto.
  - rewrite Hr. apply NoDup_keys_alter, HJ.
  - intros k. rewrite Hr, jm_get_alter. case_decide; subst; [by rewrite Hst|done].
Qed.

Lemma joins_client meta st :
  joins ws client st (set_clients (jm_set ws meta (clients st)) st).
Proof.
  split_and!; simpl; [|by auto|intros y ?; exists y; split; [done|lia]].
  intros w. rewrite !jm_key_is_Some, jm_get_set. case_decide; subst; [|naive_solver].
  split; [by left|eauto].
Qed.

Lemma J_register_client s :
  c_role c = client → is_Some (jm_get (c_scopeKey c) (registry s)) → J g s →
  J joined (register_client now ws c s).2.
Proof.
  intros Hrole [st Hst] HJ.
  set (F := (attach ws c;; adjustIpConnectionCount (c_ip c) 1;; setupHeartbeat now ws;;
    increment "relay_ws_connections_opened_total";;
    mutate (c_scopeKey c) (λ st, set_clients
      (jm_set ws {| cm_clientId := c_clientId c; cm_connectedAt := now |} (clients st)) st)) s).
  assert (J joined F.2) as HF.
  { eapply (J_joined s F.2 (λ st, set_clients (jm_set ws _ (clients st)) st) st); try done.
    - apply state_ok_change; try done; [|by eapply J_ok].
      apply state_wf_add_client. by eapply (J_ok _ _ _ HJ).
    - rewrite Hrole. apply joins_client. }
  change ((register_client now ws c s).2) with
    ((log_info "client_connected"
        [("workspaceId", JStr (c_workspaceId c)); ("clientId", JStr (c_clientId c));
         ("ip", JStr (c_ip c))];; updateGauges) F.2).2.
  apply J_after; [run|done].
Qed.

Lemma J_register_worker s :
  c_role c = worker → is_Some (jm_get (c_scopeKey c) (registry s)) → J g s →
  J joined (register_worker now ws c s).2.
Proof.
  intros Hrole [st Hst] HJ.
  set (F := (attach ws c;; adjustIpConnectionCount (c_ip c) 1;; setupHeartbeat now ws;;
    increment "relay_ws_connections_opened_total") s).
  assert (J joined F.2) as HF.
  { eapply (J_joined s F.2 id st); try done.
    - simpl. unfold jm_alter. rewrite Hst. simpl. symmetry. by apply jm_set_same.
    - by eapply J_ok.
    - rewrite Hrole. split_and!; [naive_solver|by auto|intros y ?; exists y; split; [done|lia]]. }
  change ((register_worker now ws c s).2) with
    ((log_info "worker_connected"
        ([("workspaceId", JStr (c_workspaceId c))] ++ executor_field (c_claims c) ++
         [("ip", JStr (c_ip c))]);; updateGauges) F.2).2.
  apply J_after; [run|done].
Qed.

Lemma joins_daemon gen st :
  stale_generation gen (daemonIssueGeneration st) = false →
  joins ws workspace_daemon st (install_daemon ws gen st).
Proof.
  intros Hgen. unfold joins, install_daemon. destruct gen as [x|]; simpl.
  - split_and!; [naive_solver|naive_solver|]. intros y Hy. rewrite Hy in Hgen. simpl in Hgen.
    split_bools. exists x. split; [done|lia].
  - split_and!; [naive_solver|naive_solver|]. intros y Hy. exists y. split; [done|lia].
Qed.

Lemma state_ok_install gen st : state_ok cfg st → state_ok cfg (install_daemon ws gen st).
Proof.
  intros [Hwf (? & ? & ?)]. pose proof (track_pos (cfg := cfg)). pose proof (owners_pos (cfg := cfg)).
  split.
  - unfold install_daemon.
    apply state_wf_set_owners; [|apply owners_ok_nil]. apply state_wf_set_kex; [|apply owners_ok_nil].
    destruct gen; [apply state_wf_set_generation|]; by apply state_wf_set_daemon.
  - unfold install_daemon, bounded, jm_size in *. destruct gen; simpl; lia.
Qed.

(** A daemon is refused, and nothing changes; or it joins. *)
Lemma J_register_daemon s :
  c_role c = workspace_daemon → is_Some (jm_get (c_scopeKey c) (registry s)) → J g s →
  J g (register_daemon now ws c s).2 ∨ J joined (register_daemon now ws c s).2.
Proof.
  intros Hrole [st Hst] HJ.
  assert (entry (c_scopeKey c) s = st) as He by (unfold entry; by rewrite Hst).
  unfold register_daemon. rewrite bind_snd. simpl. rewrite He.
  destruct (stale_generation _ _) eqn:Egen.
  { left. unfold connection_rejected. apply J_after; [run|done]. }
  rewrite bind_snd. 
  assert ((daemon_open (c_scopeKey c) s).2 = s) as Hs.
  { unfold daemon_open, bind, current, gets. by destruct (daemon _). }
  rewrite Hs. destruct (daemon_open (c_scopeKey c) s).1 as [d|].
  { left. unfold connection_rejected. apply J_after; [run|done]. }
  right.
  set (F := (attach ws c;; adjustIpConnectionCount (c_ip c) 1;; setupHeartbeat now ws;;
    increment "relay_ws_connections_opened_total";;
    mutate (c_scopeKey c) (install_daemon ws (claim_generation (c_claims c)))) s).
  assert (J joined F.2) as HF.
  { eapply (J_joined s F.2 (install_daemon ws (claim_generation (c_claims c))) st); try done.
    - apply state_ok_install. by eapply J_ok.
    - rewrite Hrole. by apply joins_daemon. }
  set (tail := (emit (EUpsertPresence (c_workspaceId c) true (c_runtimeTargetId c) (c_machineId c));;
    log_info "daemon_connected"
      ([("workspaceId", JStr (c_workspaceId c))] ++
       opt_field "runtimeTargetId" (c_runtimeTargetId c) ++
       opt_field "machineId" (c_machineId c) ++ [("ip", JStr (c_ip c))]);; updateGauges)).
  assert (preserves (J joined) tail) as Htail by (unfold tail; run).
  exact (J_after _ _ _ Htail HF).
Qed.
End Join.

(** ** registerConnection *)

Lemma exists_mutate key k f s :
  is_Some (jm_get key (registry s)) → is_Some (jm_get key (registry (mutate k f s).2)).
Proof. simpl. rewrite jm_get_alter. case_decide; [|done]. intros [st ->]. by eexists. Qed.

Lemma exists_getOrCreate key md r : is_Some (jm_get key (getOrCreate key md now r).2).
Proof.
  unfold getOrCreate. destruct (jm_get key r) eqn:E; simpl; [|by rewrite jm_get_set_eq].
  destruct md; simpl; [|by rewrite E]. destruct (truthy_opt _); simpl; [|by rewrite E].
  by rewrite jm_get_set_eq.
Qed.

Lemma conn_ok_granted role w req ip claims scope target machine :
  Connection.resolveConnectionAdmission role w req ip claims = Connection.Granted scope target machine →
  conn_ok {| c_role := role; c_workspaceId := w; c_scopeKey := Status.runtimeScopeKey w target;
             c_runtimeTargetId := target; c_machineId := machine; c_ip := ip; c_claims := claims |}.
Proof.
  intros ((Hw & Hne & _ & Hs & Ht) & -> & -> & _)%Connection.granted_iff.
  split; simpl; try done. intros Hn. apply Ht, truthy_str_true in Hn.
  unfold Connection.target_of. by rewrite Hn.
Qed.

Lemma J_registerConnection g s ws role w req ip claims :
  (∀ e, relayed e = false → g_ok g e) → (∀ k, ¬ g_notarget g k) → g_link g = g_conns g →
  jm_get ws (g_conns g) = None → J g s →
  J g (registerConnection cfg now ws role w req ip claims s).2 ∨
  ∃ c, conn_ok c ∧ J (joined g ws c) (registerConnection cfg now ws role w req ip claims s).2.
Proof.
  intros base Hnt Hlink Hnew HJ. unfold registerConnection.
  destruct (Connection.resolveConnectionAdmission _ _ _ _ _) as [scope target machine|rej] eqn:Ea.
  2: { left. apply J_after; [run|done]. }
  apply conn_ok_granted in Ea. cbv zeta. set (c := {| c_role := role |}) in *.
  set (key := Status.runtimeScopeKey w target) in *. change key with (c_scopeKey c).
  set (md := Some {| md_workspaceId := Some w; md_runtimeTargetId := target |}).
  set (pre := (on_registry (λ r, (getOrCreate key md now r).2);; on_registry (touch key now);;
               prune_all now key)).
  assert (J g (pre s).2) as Hpre.
  { apply J_after; [|done]. unfold pre. apply preserves_bind; [by apply triple_getOrCreate|intros]. run. }
  assert (is_Some (jm_get key (registry (pre s).2))) as Hex.
  { unfold pre. rewrite !bind_snd. unfold prune_all. rewrite !bind_snd.
    repeat apply exists_mutate. apply exists_getOrCreate. }
  assert (∀ tail : M unit,
    ((on_registry (λ r, (getOrCreate key md now r).2);; on_registry (touch key now);;
      prune_all now key;; tail) s).2 = (tail (pre s).2).2) as Heq by reflexivity.
  rewrite Heq. destruct role.
  - destruct (J_register_daemon g ws c base Hnt Hlink Hnew _ eq_refl Hex Hpre); eauto.
  - right. exists c. split; [done|]. by apply J_register_client.
  - right. exists c. split; [done|]. by apply J_register_worker.
Qed.

(** ** Leaving *)

Section Leave.
Context (g : Ghost) (ws : WebSocket).
Hypothesis base : ∀ e, relayed e = false → g_ok g e.
Hypothesis no_notarget : ∀ k, ¬ g_notarget g k.
Hypothesis linked : g_link g = g_conns g.

(** The ghost once [ws] is gone, before and after the count of its address. *)
Definition gone : Ghost := with_conns (jm_delete ws (g_conns g)) (g_counts g) g.
Definition left_ (c : Conn) : Ghost :=
  with_conns (jm_delete ws (g_conns g)) (adjust_count (c_ip c) (-1) (g_counts g)) g.

Lemma J_adjust_gone c s : J gone s → J (left_ c) (adjustIpConnectionCount (c_ip c) (-1) s).2.
Proof. intros [? ? ? ? Hc ? ? ?]. split; simpl; auto. unfold adjust_count. by rewrite Hc. Qed.

(** The registry after a leaving update of the connection's scope. *)
Lemma J_gone s s' c f :
  jm_get ws (g_conns g) = Some c →
  registry s' = jm_alter f (c_scopeKey c) (registry s) →
  conns s' = jm_delete ws (conns s) → trace s' = trace s →
  ipConnectionCounts s' = ipConnectionCounts s →
  (∀ st, state_ok cfg st → state_ok cfg (f st) ∧ leaves ws (c_role c) st (f st)) →
  J g s → J gone s'.
Proof.
  intros Hws Hr Hc Ht Hi Hf HJ.
  unfold gone. rewrite <-(J_counts _ _ _ HJ), <-Hi.
  eapply (J_leave cfg g s s' ws c); try done; rewrite ?Hr.
  - apply NoDup_keys_alter, HJ.
  - intros k st'. rewrite jm_get_alter. case_decide as Hk; subst.
    + destruct (jm_get (c_scopeKey c) (registry s)) as [st|] eqn:E; [|done]. simpl.
      intros ?; simplify_eq. destruct (Hf st) as [? ?]; [by eapply J_ok|]. eauto.
    + intros E. split; [by eapply J_ok|eauto].
  - intros k [st E]. rewrite jm_get_alter, E. case_decide; eauto.
Qed.

(** The update [removeClient] makes. *)
Definition removed (st : WorkspaceState) : WorkspaceState :=
  set_activity now
    (set_subscribers (drop_subscriber ws (sessionEventSubscribers st))
      (set_owners (drop_owned ws (sessionOwners st))
        (set_kex (drop_owned ws (keyExchangeRequests st))
          (set_pairing (drop_owned ws (pairingRequests st))
            (set_clients (jm_delete ws (clients st)) st))))).

Lemma leaves_removed st : leaves ws client st (removed st).
Proof.
  split_and!; simpl; [|naive_solver|done]. intros w.
  rewrite !jm_key_is_Some, jm_get_delete. case_decide; subst; [|naive_solver].
  split; [by intros []|naive_solver].
Qed.

Lemma state_ok_removed st : state_ok cfg st → state_ok cfg (removed st).
Proof.
  intros [Hwf (? & ? & ?)]. split; [by apply state_wf_removed|].
  unfold bounded. simpl. unfold drop_owned.
  split_and!; (etrans; [apply jm_size_filter|done]).
Qed.

(** The update [clearDaemon] makes. *)
Definition cleared (st : WorkspaceState) : WorkspaceState :=
  if decide (daemon st = Some ws) then
    set_activity now (set_pairing [] (set_owners [] (set_kex [] (set_daemon None st))))
  else set_activity now st.

Lemma clearDaemon_alter key r : (clearDaemon key ws now r).2 = jm_alter cleared key r.
Proof.
  unfold clearDaemon, cleared, jm_alter. destruct (jm_get key r) as [st|]; [|done].
  by case_decide.
Qed.

Lemma state_ok_cleared st :
  state_ok cfg st → state_ok cfg (cleared st) ∧ leaves ws workspace_daemon st (cleared st).
Proof.
  intros [Hwf (? & ? & ?)].
  pose proof (track_pos (cfg := cfg)). pose proof (owners_pos (cfg := cfg)).
  unfold cleared. case_decide as Hd.
  - split.
    + split; [|unfold bounded, jm_size; simpl; lia].
      apply state_wf_set_activity, state_wf_set_pairing; [|apply owners_ok_nil].
      apply state_wf_set_owners; [|apply owners_ok_nil].
      apply state_wf_set_kex; [|apply owners_ok_nil]. by apply state_wf_set_daemon.
    + split_and!; simpl; [naive_solver|done|done].
  - split; [by apply (state_ok_change (set_activity now)); [apply state_wf_set_activity|..]|].
    split_and!; simpl; [naive_solver| |done]. intros w Hw. split; [done|]. intros [-> _]. done.
Qed.

Lemma J_on_close s :
  J g s →
  (jm_get ws (g_conns g) = None ∧ J g (on_close now ws s).2) ∨
  (∃ c, jm_get ws (g_conns g) = Some c ∧ J (left_ c) (on_close now ws s).2).
Proof.
  intros HJ. unfold on_close. rewrite bind_snd. simpl. rewrite (J_conns _ _ _ HJ).
  destruct (jm_get ws (g_conns g)) as [c|] eqn:Ews.
  2: { left. split; [done|]. eapply J_ext; [..|exact HJ]; simpl; try done.
       rewrite jm_delete_fresh; [done|]. by rewrite (J_conns _ _ _ HJ). }
  right. exists c. split; [done|]. rewrite bind_snd. set (s1 := (drop_socket ws s).2).
  assert (∀ e, relayed e = false → g_ok (left_ c) e) as base' by done.
  assert (∀ m : M unit, preserves (J (left_ c)) m → ∀ s2, J gone s2 →
    J (left_ c) ((adjustIpConnectionCount (c_ip c) (-1);; m) s2).2) as Htail.
  { intros m Hm s2 H2. rewrite bind_snd. apply J_after; [done|]. by apply J_adjust_gone. }
  destruct (c_role c) eqn:Er.
  - unfold daemon_close. rewrite bind_snd.
    set (b := clearDaemon (c_scopeKey c) ws now (registry s1)).
    change (registry_call (clearDaemon (c_scopeKey c) ws now) s1) with (b.1, put_registry b.2 s1).
    simpl fst. simpl snd. rewrite bind_snd. apply Htail; [run|].
    assert (J gone (put_registry b.2 s1)) as Hg.
    { eapply (J_gone s _ c cleared); try done.
      - unfold b. simpl. by rewrite clearDaemon_alter.
      - intros st. rewrite Er. apply state_ok_cleared. }
    apply J_after; [|done]. destruct b.1; [by apply triple_emit, base|by apply triple_ret].
  - unfold client_close. rewrite bind_snd. apply Htail; [run|].
    eapply (J_gone s _ c removed); try done. intros st Hst. rewrite Er.
    split; [by apply state_ok_removed|apply leaves_removed].
  - unfold worker_close. apply Htail; [run|].
    eapply (J_gone s s1 c (λ st, st)); try done.
    + simpl. unfold jm_alter. destruct (jm_get _ (registry s)) eqn:E; [|done].
      simpl. by rewrite jm_set_same.
    + intros st Hst. rewrite Er. split; [done|]. split_and!; simpl; naive_solver.
Qed.
End Leave.
End Steps.

(** ** What an event may relay *)

(** A frame from another relay goes to the daemon or the clients of its scope. *)
Definition bus_may (C : Conns) (frame : RelayBusFrame) (e : effect) : Prop :=
  let key := Status.runtimeScopeKey (bf_workspaceId frame) (bf_runtimeTargetId frame) in
  relayed e = true →
  (∃ w, e = ESend w (PText (bf_payload frame)) ∧
     match bf_direction frame with
     | client_to_daemon =>
         member C w workspace_daemon key ∧ isAllowedClientFrame (bf_payload frame) = true
     | daemon_to_clients =>
         member C w client key ∧ isAllowedDaemonFrame (bf_payload frame) = true
     end) ∨
  (bf_workspaceId frame = "" ∧ ∃ t r, e = EPublishDaemonToClients "" t (bf_payload frame) r).

(** A client's frame leaves for the relay its runtime's presence names. *)
Definition answer_may (pending : list Task) (n : nat) (answer : Answer) (e : effect) : Prop :=
  relayed e = true →
  ∃ ws target p, pending !! n = Some (AwaitPresence ws target) ∧ answer = AnsPresence (Some p) ∧
    pr_daemonConnected p = true ∧
    e = EPublishClientToDaemon (rt_workspaceId target) (rt_runtimeTargetId target)
          (rt_machineId target) (rt_payload target) (pr_relayId p).

Definition may (ev : Event) (s : RelayState) (e : effect) : Prop :=
  match ev with
  | Message ws text =>
      match jm_get ws (conns s) with
      | None => silent e
      | Some c =>
          match c_role c with
          | worker => silent e
          | workspace_daemon => daemon_may (conns s) c text e
          | client => client_may (conns s) ws c text e
          end
      end
  | BusFrame frame => bus_may (conns s) frame e
  | Answered n answer _ => answer_may (pending s) n answer e
  | _ => silent e
  end.

Lemma may_silent ev s e : relayed e = false → may ev s e.
Proof.
  intros He. destruct ev; simpl; try done; try (intros ?; congruence).
  destruct (jm_get _ _) as [c|]; [|done].
  destruct (c_role c); try done; intros ?; congruence.
Qed.

Section Events.
Context `{R : Rounding} (TokenSchema : string → bool) (cfg : RelayConfig) (now : Z).
Context `{Bounds : !TrackBounds cfg}.
Notation J := (J cfg).
Hint Resolve triple_increment_by triple_increment triple_setGauge triple_emit_base triple_log_warn
  triple_log_info triple_isOpen triple_pending triple_closeWithReason triple_send_json
  triple_updateGauges triple_prune_all triple_limit_fixed : relay.

Section Quiet.
Context (g : Ghost).
Hypothesis base : ∀ e, relayed e = false → g_ok g e.
Hypothesis no_notarget : ∀ k, ¬ g_notarget g k.

Lemma triple_for_each {A} (l : list A) (f : A → M unit) :
  (∀ x, preserves (J g) (f x)) → preserves (J g) (for_each l f).
Proof. intros Hf. induction l; simpl; run. Qed.

Lemma triple_on_upgrade rq : preserves (J g) (on_upgrade TokenSchema cfg now rq).
Proof.
  assert (∀ m st, preserves (J g) (refuse m st)) as Hr by (intros; unfold refuse; run).
  assert (∀ r w t, preserves (J g) (workspace_full cfg now r w t)) as Hw.
  { intros. unfold workspace_full. cbv zeta. case_match; [|run].
    apply preserves_bind; [by apply triple_getOrCreate|intros _].
    bind_by triple_current. intros st _. run. }
  unfold on_upgrade, upgrade_request, upgrade_checked, upgradeLimiter_allow. run.
Qed.

Lemma triple_heartbeatInterval : preserves (J g) (heartbeatInterval cfg now).
Proof.
  assert (∀ ws why, preserves (J g) (terminateWithReason ws why)) as Ht.
  { intros. unfold terminateWithReason. apply preserves_bind; [run|intros].
    apply preserves_bind; [run|intros]. by apply triple_frame. }
  assert (∀ ws, preserves (J g) (heartbeat_one cfg now ws)) as Hh.
  { intros. unfold heartbeat_one. apply preserves_bind; [run|intros [h|]]; [|run].
    destruct (_ <? _)%Z; [run|]. destruct (_ && _); [run|].
    apply preserves_bind; [by apply triple_frame|intros; run]. }
  unfold heartbeatInterval. apply preserves_bind; [run|intros].
  apply preserves_bind; [by apply triple_for_each|intros; by apply triple_frame].
Qed.

Lemma triple_presence_sync key : preserves (J g) (presence_sync cfg key).
Proof.
  unfold presence_sync. case_match; [run|]. apply preserves_bind; [run|intros [st|]]; [|run].
  bind_by triple_daemon_open. intros [d|] _; run.
Qed.

Lemma triple_shutdown : preserves (J g) shutdown.
Proof.
  unfold shutdown. apply preserves_bind; [run|intros]. apply triple_for_each. intros. run.
Qed.

Lemma triple_on_pong ws : preserves (J g) (on_pong now ws).
Proof. by apply triple_frame. Qed.

Lemma triple_sock_progress ws k : preserves (J g) (sock_progress ws k).
Proof. apply triple_frame. intros s. by repeat case_match. Qed.

Lemma triple_presence_answered ws target p :
  (∀ q, p = Some q → pr_daemonConnected q = true →
    g_ok g (EPublishClientToDaemon (rt_workspaceId target) (rt_runtimeTargetId target)
      (rt_machineId target) (rt_payload target) (pr_relayId q))) →
  preserves (J g) (presence_answered cfg ws target p).
Proof.
  intros Hp. unfold presence_answered, daemon_unavailable. destruct p as [q|]; [|run].
  destruct (_ && _) eqn:E; [|run]. apply andb_true_iff in E as [E _].
  apply preserves_bind; [run|intros]. apply preserves_bind; [|intros; run].
  by apply triple_emit, Hp.
Qed.

Lemma triple_publish_answered ws target relay b :
  preserves (J g) (publish_answered cfg ws target relay b).
Proof. unfold publish_answered, daemon_unavailable. run. Qed.

Lemma triple_forward_answered ws a b c d e r :
  preserves (J g) (forward_answered cfg ws a b c d e r).
Proof. unfold forward_answered. run. Qed.
End Quiet.

(** ** Upgrades that complete *)

Lemma J_handle_upgrade g s ws rq claims redirect :
  (∀ e, relayed e = false → g_ok g e) → (∀ k, ¬ g_notarget g k) → g_link g = g_conns g →
  jm_get ws (g_conns g) = None → J g s →
  J g (handle_upgrade cfg now ws rq claims redirect s).2 ∨
  ∃ c, conn_ok c ∧ J (joined g ws c) (handle_upgrade cfg now ws rq claims redirect s).2.
Proof.
  intros base Hnt Hl Hnew HJ. unfold handle_upgrade. rewrite bind_snd.
  set (s1 := (modify _ s).2).
  assert (J g s1) as H1 by (by eapply J_ext; [..|exact HJ]). rewrite bind_snd.
  assert (∀ g', (∀ e, relayed e = false → g_ok g' e) → preserves (J g')
    (if truthy_opt redirect then
       increment "relay_client_redirect_total";;
       send_ cfg ws (PJson (Status.relayRedirectPayload (up_workspaceId rq) (default "" redirect) None))
     else ret tt)) as Htail by (intros g' Hb; run).
  destruct (J_registerConnection cfg now g s1 ws (up_role rq) (up_workspaceId rq)
    (up_runtimeTargetId rq) (up_ip rq) (Some claims) base Hnt Hl Hnew H1) as [Hj|(c & Hc & Hj)].
  - left. apply J_after; [by apply Htail|done].
  - right. exists c. split; [done|]. apply J_after; [by apply Htail|done].
Qed.

Lemma J_on_answer g s n answer ws :
  (∀ e, answer_may (pending s) n answer e → g_ok g e) → (∀ k, ¬ g_notarget g k) →
  g_link g = g_conns g → jm_get ws (g_conns g) = None → J g s →
  J g (on_answer cfg now n answer ws s).2 ∨
  ∃ c, conn_ok c ∧ J (joined g ws c) (on_answer cfg now n answer ws s).2.
Proof.
  intros Hok Hnt Hl Hnew HJ.
  assert (∀ e, relayed e = false → g_ok g e) as base by (intros e He; apply Hok; intros ?; congruence).
  unfold on_answer. rewrite bind_snd. simpl.
  destruct (pending s !! n) as [t|] eqn:Et; [|by left]. rewrite bind_snd.
  set (s1 := (modify _ s).2).
  assert (J g s1) as H1 by (by eapply J_ext; [..|exact HJ]).
  assert (∀ m : M unit, preserves (J g) m → J g (m s1).2) as Hm by (intros; by apply J_after).
  destruct t, answer; unfold resume; try (left; apply Hm; unfold upgrade_error; run; fail).
  - unfold admission_answered. destruct result as [st claims|st why]; [|left; apply Hm; run].
    rewrite bind_snd.
    assert (J g (increment "relay_admission_ok_total" s1).2) as H2 by (apply J_after; [run|done]).
    destruct (_ && _).
    + left. apply J_after; [run|done].
    + by apply J_handle_upgrade.
  - by apply J_handle_upgrade.
  - left. apply Hm, triple_presence_answered; [done|]. intros q -> Hq. apply Hok. intros _.
    exists ws0, target, q. done.
  - left. by apply Hm, triple_publish_answered.
  - left. by apply Hm, triple_forward_answered.
Qed.

(** ** Every event *)

Lemma J_message s ws text :
  inv cfg s → let ev := Message ws text in
  J (ghost_of s (may ev s)) (step TokenSchema cfg now ev s).
Proof.
  intros Hinv ev. pose proof (J_start cfg s (may ev s) Hinv) as HJ.
  assert (∀ e, relayed e = false → g_ok (ghost_of s (may ev s)) e) as base by apply may_silent.
  assert (∀ k, ¬ g_notarget (ghost_of s (may ev s)) k) as Hnt by (by intros k []).
  unfold step. simpl handle. unfold on_message. rewrite bind_snd. simpl.
  destruct (jm_get ws (conns s)) as [c|] eqn:Ews; [|done].
  assert (∀ e, match c_role c with
    | worker => silent e | workspace_daemon => daemon_may (conns s) c text e
    | client => client_may (conns s) ws c text e end → g_ok (ghost_of s (may ev s)) e) as Hmay
    by (intros; simpl; by rewrite Ews).
  pose proof (inv_admitted _ _ Hinv _ _ Ews) as Hc.
  destruct (c_role c) eqn:Er; apply J_after; try done.
  - apply triple_daemon_message; [apply _|done|done| |unfold to_bus; left; apply Hc].
    intros Ha w Hw. apply Hmay. intros _. by exists w.
  - apply triple_client_message; [apply _|done|done| |].
    + by exists c.
    + intros e He. by apply Hmay.
  - by apply triple_worker_message.
Qed.

Lemma J_bus s frame :
  inv cfg s → let ev := BusFrame frame in
  J (ghost_of s (may ev s)) (step TokenSchema cfg now ev s).
Proof.
  intros Hinv ev. pose proof (J_start cfg s (may ev s) Hinv) as HJ.
  assert (∀ e, relayed e = false → g_ok (ghost_of s (may ev s)) e) as base by apply may_silent.
  apply J_after; [|done]. apply triple_routeBusFrame; [apply _|done|by intros k []|].
  assert (∀ e, bus_may (conns s) frame e → g_ok (ghost_of s (may ev s)) e) as Hok by done.
  unfold bus_may in Hok. destruct (bf_direction frame).
  - intros Ha w Hw. apply Hok. intros _. left. exists w. done.
  - split.
    + intros Ha w Hw. apply Hok. intros _. left. exists w. done.
    + destruct (decide (bf_workspaceId frame = "")) as [He|]; [|by left]. right.
      intros t r. apply Hok. intros _. right. rewrite He. eauto.
Qed.

(** An event keeps the connections, or one joins, or one leaves. *)
Lemma J_step s ev :
  inv cfg s → enabled ev s → ev ≠ CleanupTick →
  let g := ghost_of s (may ev s) in let s' := step TokenSchema cfg now ev s in
  J g s' ∨
  (∃ ws c, jm_get ws (conns s) = None ∧ conn_ok c ∧ J (joined g ws c) s') ∨
  (∃ ws c, jm_get ws (conns s) = Some c ∧ J (left_ g ws c) s').
Proof.
  intros Hinv Hen Hne g s'. pose proof (J_start cfg s (may ev s) Hinv) as HJ. fold g in HJ.
  assert (∀ e, relayed e = false → g_ok g e) as base by apply may_silent.
  assert (∀ k, ¬ g_notarget g k) as Hnt by (by intros k []).
  destruct ev; try done.
  - left. by apply J_after; [apply triple_on_upgrade|].
  - destruct Hen as (_ & Hnew & _).
    destruct (J_on_answer g (put_trace [] s) n answer ws) as [Hj|(c & ? & Hj)]; try done; [by left|].
    right. left. by exists ws, c.
  - left. by apply J_message.
  - destruct (J_on_close cfg now g ws base Hnt eq_refl (put_trace [] s) HJ) as [[_ Hj]|(c & ? & Hj)].
    + by left.
    + right. right. by exists ws, c.
  - left. apply J_after; [by apply triple_on_pong|done].
  - left. apply J_after; [by apply triple_sock_progress|done].
  - left. by apply J_bus.
  - left. apply J_after; [by apply triple_heartbeatInterval|done].
  - left. apply J_after; [by apply triple_presence_sync|done].
  - left. apply J_after; [by apply triple_shutdown|done].
Qed.

(** *** Cleaning up *)

Definition forget_gens (g : Ghost) : Ghost :=
  {| g_conns := g_conns g; g_link := g_link g; g_counts := g_counts g; g_gens := λ _, None;
     g_notarget := g_notarget g; g_ok := g_ok g |}.

Lemma J_prune g s :
  (∀ k, ¬ g_notarget g k) → J g s →
  J (forget_gens g)
    (put_registry (pruneEmpty (emptyWorkspaceTtlMs cfg) now (registry s)).2 s).
Proof.
  intros Hnt [Hk Hok Hc Hl Hi _ _ Ht]. simpl.
  assert (∀ key st, jm_get key (jm_filter (λ _ s, negb (is_idle_empty (emptyWorkspaceTtlMs cfg) now s))
    (registry s)) = Some st → jm_get key (registry s) = Some st) as Hsub.
  { intros key st. rewrite jm_get_filter by done. repeat case_match; intros; by simplify_eq. }
  split; simpl; auto with viewport; try done.
  - intros key st E%Hsub. eauto.
  - split.
    + intros key st ws E%Hsub. by eapply ln_client.
    + intros ws key Hm. destruct (ln_conn _ _ Hl ws key Hm) as (st & E & Hin).
      exists st. split; [|done]. rewrite jm_get_filter, E by done.
      assert (is_idle_empty (emptyWorkspaceTtlMs cfg) now st = false) as ->; [|done].
      unfold is_idle_empty, jm_size. destruct (clients st) as [|e l]; [by apply not_elem_of_nil in Hin|].
      by rewrite orb_true_r.
    + intros key st ws E%Hsub. by eapply ln_daemon.
  - by intros k ?%Hnt.
Qed.

Lemma J_cleanup s :
  inv cfg s → J (forget_gens (ghost_of s silent)) (step TokenSchema cfg now CleanupTick s).
Proof.
  intros Hinv. pose proof (J_start cfg s silent Hinv) as HJ.
  unfold step. simpl handle. unfold cleanupInterval. rewrite bind_snd.
  apply J_after; [|apply J_prune; [by intros k []|done]].
  assert (∀ e, relayed e = false → g_ok (forget_gens (ghost_of s silent)) e) as base by done.
  apply preserves_bind; [apply triple_for_each; intros; run|intros; run].
Qed.

(** ** The invariant is kept *)

Lemma inv_joined s ok ws c s' :
  inv cfg s → conn_ok c → jm_get ws (conns s) = None → J (joined (ghost_of s ok) ws c) s' → inv cfg s'.
Proof.
  intros Hinv Hc Hn HJ. eapply inv_end; [exact HJ|done|..]; simpl.
  - apply NoDup_keys_set, Hinv.
  - apply counts_ok_adjust with (C := conns s); [apply Hinv|].
    intros i. by apply count_ip_set.
  - intros w c'. rewrite jm_get_set. case_decide; intros; simplify_eq; [done|by eapply inv_admitted].
Qed.

Lemma inv_left s ok ws c s' :
  inv cfg s → jm_get ws (conns s) = Some c → J (left_ (ghost_of s ok) ws c) s' → inv cfg s'.
Proof.
  intros Hinv Hws HJ. eapply inv_end; [exact HJ|done|..]; simpl.
  - apply NoDup_keys_delete, Hinv.
  - apply counts_ok_adjust with (C := conns s); [apply Hinv|].
    intros i. rewrite (count_ip_delete i ws c) by (done || apply Hinv).
    case_decide; lia.
  - intros w c'. rewrite jm_get_delete. case_decide; [done|by eapply inv_admitted].
Qed.

Lemma inv_step s ev : inv cfg s → enabled ev s → inv cfg (step TokenSchema cfg now ev s).
Proof.
  intros Hinv Hen.
  assert (ev = CleanupTick ∨ ev ≠ CleanupTick) as [->|Hne] by (destruct ev; auto).
  - eapply inv_end; [by apply J_cleanup|..]; simpl; try done; apply Hinv.
  - destruct (J_step s ev Hinv Hen Hne) as [HJ|[(ws & c & ? & ? & HJ)|(ws & c & ? & HJ)]].
    + by eapply inv_unchanged.
    + by eapply inv_joined.
    + by eapply inv_left.
Qed.

(** The effects of an event are those it may have. *)
Lemma step_effects s ev e :
  inv cfg s → enabled ev s → e ∈ trace (step TokenSchema cfg now ev s) → may ev s e.
Proof.
  intros Hinv Hen.
  assert (ev = CleanupTick ∨ ev ≠ CleanupTick) as [->|Hne] by (destruct ev; auto).
  - apply (J_trace _ _ _ (J_cleanup s Hinv)).
  - destruct (J_step s ev Hinv Hen Hne) as [HJ|[(ws & c & ? & ? & HJ)|(ws & c & ? & HJ)]];
      apply (J_trace _ _ _ HJ).
Qed.

(** Issue generations never decrease. *)
Lemma step_generations s ev key x :
  inv cfg s → enabled ev s → ev ≠ CleanupTick →
  jm_get key (registry s) ≫= daemonIssueGeneration = Some x →
  ∃ st y, jm_get key (registry (step TokenSchema cfg now ev s)) = Some st ∧
    daemonIssueGeneration st = Some y ∧ (x ≤ y)%Z.
Proof.
  intros Hinv Hen Hne.
  destruct (J_step s ev Hinv Hen Hne) as [HJ|[(ws & c & ? & ? & HJ)|(ws & c & ? & HJ)]];
    apply (J_gens _ _ _ HJ).
Qed.
End Events.

Section Reachable.
Context `{R : Rounding} (TokenSchema : string → bool) (cfg : RelayConfig).
Context `{Bounds : !TrackBounds cfg}.

Lemma inv_reachable s : reachable TokenSchema cfg s → inv cfg s.
Proof. induction 1; [apply inv_init|by apply inv_step]. Qed.
End Reachable.

(** ** Frames that wait

    A client's frame that found no daemon waits in [pending] for the presence service's
    answer.  [waiting Q]: what waits satisfies [Q]; every handler but that of a client's
    message keeps it. *)

Definition waiting (Q : WebSocket → RuntimeRoutingTarget → Prop) (s : RelayState) : Prop :=
  ∀ ws target, AwaitPresence ws target ∈ pending s → Q ws target.

Create HintDb waits.

(** Follows the syntax of a handler. *)
Ltac waits_step :=
  match goal with
  | |- triple _ (ret _) _ => by apply triple_ret
  | |- triple _ (gets _) _ => apply preserves_gets
  | |- triple _ (bind _ _) _ => apply preserves_bind; [|intros]
  | |- triple _ (match ?x with _ => _ end) _ => destruct x
  end.
Ltac waits := cbv zeta;
  repeat first [solve [eauto 2 with waits nocore] | progress cbv zeta | waits_step].

Section Waiting.
Context `{R : Rounding} (TokenSchema : string → bool) (cfg : RelayConfig) (now : Z).
Context (Q : WebSocket → RuntimeRoutingTarget → Prop).
Notation W := (waiting Q).

Lemma waits_modify f : (∀ s, pending (f s) = pending s) → preserves W (modify f).
Proof. intros Hf. apply preserves_modify. intros s. unfold waiting. by rewrite Hf. Qed.
Lemma waits_later t : (∀ ws target, t = AwaitPresence ws target → Q ws target) →
  preserves W (modify (λ s, put_pending (pending s ++ [t]) s)).
Proof.
  intros Ht. apply preserves_modify. intros s Hs ws target. simpl.
  rewrite elem_of_app, list_elem_of_singleton. intros [?|Heq]; auto.
Qed.
Lemma waits_fixed get put a b k : preserves W (limit_fixed now get put a b k).
Proof. intros s Hs. unfold limit_fixed. by destruct (FixedWindow.allow _ _ _ _ _ _). Qed.
Lemma waits_tokens get put a b k : preserves W (limit_tokens now get put a b k).
Proof. intros s Hs. unfold limit_tokens. by destruct (TokenBucket.allow _ _ _ _ _ _). Qed.
Lemma waits_registry {A} (f : Registry → A * Registry) : preserves W (registry_call f).
Proof. by intros s Hs. Qed.
Lemma waits_for_each {A} (l : list A) (f : A → M unit) :
  (∀ x, preserves W (f x)) → preserves W (for_each l f).
Proof. intros Hf. induction l; simpl; [by apply triple_ret|]. by apply preserves_bind. Qed.
#[local] Hint Resolve waits_fixed waits_tokens waits_registry waits_for_each : waits.
#[local] Hint Extern 2 (triple _ (modify _) _) =>
  first [apply waits_modify; intros; by repeat case_match | by apply waits_later] : waits.
#[local] Hint Extern 2 (triple _ (emit _) _) => by apply waits_modify : waits.
#[local] Hint Extern 2 (triple _ (increment _) _) => by apply waits_modify : waits.
#[local] Hint Extern 2 (triple _ (increment_by _ _) _) => by apply waits_modify : waits.
#[local] Hint Extern 2 (triple _ (mutate _ _) _) => by apply waits_modify : waits.
#[local] Hint Extern 2 (triple _ (on_registry _) _) => by apply waits_modify : waits.

Ltac by_syntax x := unfold x; waits.

Lemma waits_close ws code why : preserves W (closeWithReason ws code why).
Proof. unfold closeWithReason. waits. Qed.
Lemma waits_safeSend ws p : preserves W (safeSend cfg ws p).
Proof. pose proof waits_close. unfold safeSend. waits. Qed.
Lemma waits_send ws p : preserves W (send_ cfg ws p).
Proof. pose proof waits_safeSend. unfold send_. waits. Qed.
#[local] Hint Resolve waits_close waits_safeSend waits_send : waits.
Lemma waits_deliver_all p l : preserves W (deliver_all cfg p l).
Proof. induction l; simpl; unfold isOpen; waits. Qed.
#[local] Hint Resolve waits_deliver_all : waits.

Lemma waits_deliver ws key text owner a b c :
  preserves W (deliver_to_owner cfg ws key text owner a b c).
Proof. unfold deliver_to_owner, isOpen, current. waits. Qed.
Lemma waits_daemon_open key : preserves W (daemon_open key).
Proof. unfold daemon_open, isOpen, current. waits. Qed.
Lemma waits_prune_all key : preserves W (prune_all now key).
Proof. unfold prune_all. waits. Qed.
#[local] Hint Resolve waits_deliver waits_daemon_open waits_prune_all : waits.

Lemma waits_owned ws key sid text : preserves W (routeSessionOwnedFrame cfg now ws key sid text).
Proof. unfold routeSessionOwnedFrame, getOrCreate_ws, current. waits. Qed.
Lemma waits_kex ws key text f : preserves W (routeKeyExchangeResponse cfg now ws key text f).
Proof. unfold routeKeyExchangeResponse, getOrCreate_ws, current, log_warn. waits. Qed.
Lemma waits_pairing ws key text f : preserves W (routePairingResponse cfg now ws key text f).
Proof. unfold routePairingResponse, getOrCreate_ws, current, log_warn. waits. Qed.
Lemma waits_event ws key text f : preserves W (routeSessionEventRelayFrame cfg now ws key text f).
Proof. unfold routeSessionEventRelayFrame, getOrCreate_ws, current. waits. Qed.
#[local] Hint Resolve waits_owned waits_kex waits_pairing waits_event : waits.

Lemma waits_bus frame : preserves W (routeBusFrame cfg now frame).
Proof.
  unfold routeBusFrame, route_bus_client, route_bus_daemon, bus_rejected, count_routed,
    track_key_exchange, track_pairing, daemonFrame_allow, log_warn. waits.
Qed.
Lemma waits_worker ws c text : preserves W (worker_message cfg now ws c text).
Proof.
  unfold worker_message, forwardWorkerTransportRequest, markWsActivity, daemonFrame_allow, log_warn. waits.
Qed.
Lemma waits_daemon ws c text : preserves W (daemon_message cfg now ws c text).
Proof.
  unfold daemon_message, route_daemon_frame, daemon_rejected, markWsActivity, daemonFrame_allow, log_warn.
  waits.
Qed.

Lemma waits_allow clientId ws : preserves W (runtime_allow cfg now clientId ws).
Proof. unfold runtime_allow, byClient_allow, byWorkspace_allow. waits. Qed.
#[local] Hint Resolve waits_allow : waits.

(** A client's message may add the frame itself, under the client's own scope. *)
Lemma waits_client ws c text :
  (∀ target, rt_workspaceId target = c_workspaceId c →
     c_runtimeTargetId c = Some (rt_runtimeTargetId target) → rt_payload target = text →
     isAllowedClientFrame text = true → Q ws target) →
  preserves W (client_message cfg now ws c text).
Proof.
  intros HQ. unfold client_message, client_rejected, markWsActivity.
  destruct (isAllowedClientFrame text) eqn:Ha; simpl; [|unfold log_warn; waits].
  assert (preserves W (forward_stage cfg ws c text)) as Hf.
  { unfold forward_stage, routeClientMessageWithoutLocalDaemon, log_warn.
    apply preserves_bind; [waits|intros [d|]; [waits|]].
    destruct (c_runtimeTargetId c) as [t|] eqn:Et; simpl; [|waits].
    destruct (negb (truthy_str t)); [waits|]. apply preserves_bind; [waits|intros].
    apply waits_later. intros w target Heq. simplify_eq. by apply HQ. }
  unfold session_events_message, runtime_message, client_rejected, log_warn,
    routeSessionViewerPresenceFrame, handleSessionEventClientFrame,
    getOrCreate_ws, current, and_then, scope_profile_stage, key_exchange_stage,
    runtime_limit_stage, pairing_stage, kex_allow, pairing_allow, track_key_exchange, track_pairing,
    client_rejected, log_warn.
  waits.
Qed.

Lemma waits_gauges : preserves W updateGauges.
Proof. unfold updateGauges, setGauge. waits. Qed.
Lemma waits_count ip d : preserves W (adjustIpConnectionCount ip d).
Proof. unfold adjustIpConnectionCount. waits. Qed.
#[local] Hint Resolve waits_gauges waits_count : waits.

Lemma waits_register ws role w t ip claims :
  preserves W (registerConnection cfg now ws role w t ip claims).
Proof.
  unfold registerConnection, register_worker, register_daemon, register_client, connection_rejected,
    attach, setupHeartbeat, log_warn, log_info, isOpen, current. waits.
Qed.
#[local] Hint Resolve waits_register : waits.
Lemma waits_resume ws t answer : preserves W (resume cfg now ws t answer).
Proof.
  unfold resume, admission_answered, handle_upgrade, upgrade_error, presence_answered,
    publish_answered, forward_answered, daemon_unavailable, log_warn, log_info.
  destruct t, answer; waits.
Qed.
Lemma waits_close_event ws : preserves W (on_close now ws).
Proof.
  unfold on_close, drop_socket, detach, worker_close, daemon_close, client_close, log_info. waits.
Qed.

(** Every event but a client's message. *)
Lemma waits_handle ev s :
  W s →
  (∀ ws text c, ev = Message ws text → jm_get ws (conns s) = Some c → c_role c = client →
     ∀ target, rt_workspaceId target = c_workspaceId c →
     c_runtimeTargetId c = Some (rt_runtimeTargetId target) → rt_payload target = text →
     isAllowedClientFrame text = true → Q ws target) →
  W (step TokenSchema cfg now ev s).
Proof.
  intros Hs HQ. assert (W (put_trace [] s)) as Hs' by done. unfold step, handle.
  assert (∀ m : M unit, preserves W m → W (m (put_trace [] s)).2) as Hm
    by (intros m Hm; by apply Hm).
  destruct ev.
  - apply Hm. unfold on_upgrade, upgrade_request, upgrade_checked, upgradeLimiter_allow,
      workspace_full, refuse, current. waits.
  - unfold on_answer. rewrite bind_snd. simpl. destruct (pending s !! n); [|done].
    rewrite bind_snd. apply waits_resume. intros w target. simpl. intros Hin.
    apply Hs. apply list_elem_of_lookup in Hin as [i Hi].
    destruct (decide (i < n)) as [Hlt|Hge].
    + rewrite list_lookup_delete_lt in Hi by done. by eapply list_elem_of_lookup_2.
    + rewrite list_lookup_delete_ge in Hi by lia. by eapply list_elem_of_lookup_2.
  - unfold on_message. rewrite bind_snd. simpl.
    destruct (jm_get ws (conns s)) as [c|] eqn:Ews; [|done].
    destruct (c_role c) eqn:Er; [by apply waits_daemon| |by apply waits_worker].
    apply waits_client; [|done]. intros. by eapply HQ.
  - apply Hm, waits_close_event.
  - apply Hm. unfold on_pong. waits.
  - apply Hm. unfold sock_progress. waits.
  - apply Hm, waits_bus.
  - apply Hm. unfold heartbeatInterval, heartbeat_one, terminateWithReason, log_warn. waits.
    apply waits_for_each. intros. waits.
  - apply Hm. unfold cleanupInterval, log_info. waits.
  - apply Hm. unfold presence_sync. waits.
  - apply Hm. unfold shutdown. waits.
Qed.
End Waiting.

(** ** Where a waiting frame comes from *)

Section Sent.
Context `{R : Rounding} (TokenSchema : string → bool) (cfg : RelayConfig).

Definition next (s s' : RelayState) : Prop :=
  ∃ now ev, enabled ev s ∧ s' = step TokenSchema cfg now ev s.

(** In the run up to [s], the client [ws] of connection [c] sent [text], an allowed
    frame. *)
Definition sent (s : RelayState) (ws : WebSocket) (c : Conn) (text : string) : Prop :=
  ∃ s0 now, reachable TokenSchema cfg s0 ∧ jm_get ws (conns s0) = Some c ∧ c_role c = client ∧
    isAllowedClientFrame text = true ∧
    rtc next (step TokenSchema cfg now (Message ws text) s0) s.

Lemma sent_next s s' ws c text : next s s' → sent s ws c text → sent s' ws c text.
Proof. intros Hn (s0 & now & ? & ? & ? & ? & ?). exists s0, now. split_and!; try done. by eapply rtc_r. Qed.

Lemma waiting_sent s :
  reachable TokenSchema cfg s →
  waiting (λ ws target, ∃ c, sent s ws c (rt_payload target) ∧
    rt_workspaceId target = c_workspaceId c ∧
    c_runtimeTargetId c = Some (rt_runtimeTargetId target)) s.
Proof.
  induction 1 as [|s now ev Hr IH Hen].
  - by intros ws target ?%not_elem_of_nil.
  - apply waits_handle.
    + intros ws target Hin. destruct (IH ws target Hin) as (c & Hs & ?). exists c.
      split; [|done]. eapply sent_next; [by exists now, ev|done].
    + intros ws text c -> Hws Hc target ? ? Ht Ha. exists c. split; [|done]. subst text.
      exists s, now. done.
Qed.
End Sent.
