(* ===== verification/RelayRun.v ===== *)
(** * Concrete runs of the relay

    [run] replays a list of timed events and [reachable_run] makes it a witness of
    reachability; the sample run connects a daemon and two clients of one scope, a
    session-event client and a daemon of another tenant. *)

From S2P Require Import Prelude JsString JsMap Json Frames RateLimit Registry Admission.
From S2P Require Import RelayState Routing Handlers Relay RelayLogic.
From stdpp Require Import prelude strings list.
From Stdlib Require Import ZArith Lia Ascii.

Definition freshb (ws : WebSocket) (s : RelayState) : bool :=
  bool_decide (jm_get ws (socks s) = None) && bool_decide (jm_get ws (conns s) = None) &&
  forallb (λ t, negb (bool_decide (task_socket t = Some ws))) (pending s).

Definition enabledb (ev : Event) (s : RelayState) : bool :=
  match ev with Answered _ _ ws => freshb ws s | _ => true end.

#[export] Instance Sock_eq_dec : EqDecision Sock.
Proof. solve_decision. Defined.

Lemma enabledb_enabled ev s : enabledb ev s = true → enabled ev s.
Proof.
  destruct ev; try done. simpl. unfold freshb, fresh. intros H. split_bools.
  split_and!; try done. intros t Ht. rewrite forallb_elem_of in H0. specialize (H0 t Ht).
  by split_bools.
Qed.

Section Run.
Context `{R : Rounding} (TokenSchema : string → bool) (cfg : RelayConfig).

Fixpoint run_from (events : list (Z * Event)) (s : RelayState) : option RelayState :=
  match events with
  | [] => Some s
  | (now, ev) :: rest =>
      if enabledb ev s then run_from rest (step TokenSchema cfg now ev s) else None
  end.

Lemma reachable_run events s s' :
  reachable TokenSchema cfg s → run_from events s = Some s' → reachable TokenSchema cfg s'.
Proof.
  revert s. induction events as [|[now ev] rest IH]; simpl; intros s Hs; [by intros; simplify_eq|].
  destruct (enabledb ev s) eqn:E; [|done]. apply IH. apply reach_step; [done|].
  by apply enabledb_enabled.
Qed.
End Run.

(** ** A configuration and a run *)

Definition sample_cfg : RelayConfig :=
  {| relayMode := prod; relayId := "relay-a"; publicWsBaseUrl := "wss://a";
     clientRedirectEnabled := false; presenceSyncEnabled := true;
     maxFrameBytes := 65536; maxPendingBytes := 1000000;
     maxPairingRequestTrack := 2; maxSessionOwnerTrack := 2;
     maxTotalConnections := 100; maxConnectionsPerIp := 10; maxClientsPerWorkspace := 1;
     emptyWorkspaceTtlMs := 1000; idleTimeoutMs := 60000; pongTimeoutMs := 10000;
     maxUpgradeRatePerMinute := 60; maxUpgradeRateBuckets := 100;
     maxKeyExchangeInitPerMinute := 60; kexRateLimiterMaxKeys := 100;
     maxPairingFramesPerMinute := 60; pairingRateLimiterMaxKeys := 100;
     maxRuntimeFramesPerMinute := 60; runtimeRateLimiterMaxKeys := 100;
     maxRuntimeFramesPerMinuteWorkspace := 600; runtimeWorkspaceRateLimiterMaxKeys := 100;
     maxDaemonRuntimeFramesPerMinute := 600; daemonRateLimiterMaxKeys := 100 |}.

#[export] Instance sample_bounds : TrackBounds sample_cfg.
Proof. split; simpl; lia. Qed.

#[export] Existing Instance exact_rounding.

Definition any_token (t : string) : bool := (10 <=? js_length t)%Z.

Definition sample_claims (w t : string) (scope : option ClientScope) (gen : option Z) : AdmissionClaims :=
  {| cl_clientId := Some "cl"; cl_managedExecutorId := None; cl_runtimeTargetId := Some t;
     cl_machineId := None; cl_workspaceId := Some w; cl_scope := scope;
     cl_sessionChannels := Some ["agent-session:x"]; cl_e2eeProfile := None;
     cl_daemonIssueGeneration := gen |}.

(** The request and the answers that connect socket [ws]. *)
Definition connect (now : Z) (ws : WebSocket) (role : RelayRole) (w t : string)
    (scope : option ClientScope) : list (Z * Event) :=
  [(now, Upgrade {| rq_ip := "10.0.0.1"; rq_pathname := "/ws"; rq_query := Some (role, w, None);
                    rq_authorization := Some "Bearer token-0123456789"; rq_protocol := None;
                    rq_token := None |});
   (now, Answered 0 (AnsAdmission (Validate.AdmissionOk 200 (sample_claims w t scope (Some 3%Z)))) ws)].

Definition sample_events : list (Z * Event) :=
  connect 1 1 workspace_daemon "wrk" "rt" None ++
  connect 2 2 client "wrk" "rt" (Some scope_runtime) ++
  connect 3 3 client "wrk" "rt" (Some scope_session_events) ++
  connect 4 4 client "wrk" "rt" (Some scope_session_events) ++
  connect 5 5 client "wrk" "rt" (Some scope_pairing) ++
  connect 6 6 workspace_daemon "other" "rt" None.

Definition sample_state : RelayState :=
  default initial_state (run_from any_token sample_cfg sample_events initial_state).

Lemma sample_reachable : reachable any_token sample_cfg sample_state.
Proof.
  assert (run_from any_token sample_cfg sample_events initial_state = Some sample_state) as H
    by (vm_compute; reflexivity).
  exact (reachable_run _ _ _ _ _ (reach_init _ _) H).
Qed.
