(* ===== verification/RelayProps.v ===== *)
(** * Properties of the relay

    What holds of every reachable state of the relay process and of every event in
    it: the connections and the registry agree, peers reach only their own scope, the
    claims bound what a client may send, responses are delivered once, generations of
    daemons only grow. *)

From S2P Require Import Prelude JsString JsMap Json Frames RateLimit Registry Admission.
From S2P Require Import RelayState Routing Handlers Relay RelayLogic RelayRoutes RelayHandlers.
From S2P Require Import RelayInvariant RelaySteps RelayRun.
From stdpp Require Import prelude strings list.
From Stdlib Require Import ZArith Lia Ascii.
Open Scope relay_scope.

(** The conditions of the sample run. *)
Ltac sample := first [exact sample_reachable | exact I | vm_compute; reflexivity | apply _].

Section Properties.
Context `{R : Rounding} (TokenSchema : string → bool) (cfg : RelayConfig).
Context `{Bounds : !TrackBounds cfg}.

(** ** Helper lemmas on the effects of an event *)

Lemma reachable_effects s now ev e :
  reachable TokenSchema cfg s → enabled ev s → e ∈ trace (step TokenSchema cfg now ev s) → may ev s e.
Proof.
  intros Hr Hen He.
  exact (step_effects TokenSchema cfg now s ev e (inv_reachable TokenSchema cfg s Hr) Hen He).
Qed.

Lemma message_effects s now ws c text e :
  reachable TokenSchema cfg s → jm_get ws (conns s) = Some c →
  e ∈ trace (step TokenSchema cfg now (Message ws text) s) →
  match c_role c with
  | worker => silent e
  | workspace_daemon => daemon_may (conns s) c text e
  | client => client_may (conns s) ws c text e
  end.
Proof.
  intros Hr Hws He. pose proof (reachable_effects s now (Message ws text) e Hr I He) as Hm.
  simpl in Hm. by rewrite Hws in Hm.
Qed.

Lemma same_workspace s w1 w2 c1 c2 :
  reachable TokenSchema cfg s → jm_get w1 (conns s) = Some c1 → jm_get w2 (conns s) = Some c2 →
  c_scopeKey c1 = c_scopeKey c2 →
  has_char ":" (c_workspaceId c1) = false → has_char ":" (c_workspaceId c2) = false →
  c_workspaceId c1 = c_workspaceId c2.
Proof.
  intros Hr0 H1 H2 Hk Hc1 Hc2. pose proof (inv_reachable TokenSchema cfg s Hr0) as Hr.
  apply (inv_admitted _ _ Hr) in H1 as []. apply (inv_admitted _ _ Hr) in H2 as [].
  rewrite co_key, co_key0 in Hk. by apply runtimeScopeKey_inj in Hk as [? _].
Qed.
(** A message's text goes to another connection of its sender's scope. *)
Lemma message_target C ws c text e :
  jm_get ws C = Some c → relayed e = true →
  match c_role c with
  | worker => silent e
  | workspace_daemon => daemon_may C c text e
  | client => client_may C ws c text e
  end →
  ∃ w c', e = ESend w (PText text) ∧ w ≠ ws ∧ jm_get w C = Some c' ∧ c_scopeKey c' = c_scopeKey c.
Proof.
  intros Hws Hrel Hmay.
  assert (∀ w role, member C w role (c_scopeKey c) → role ≠ c_role c → w ≠ ws) as Hother.
  { intros w role (c' & Hw & <- & _) Hne ->. by simplify_eq. }
  assert (∀ w role, member C w role (c_scopeKey c) →
    ∃ c', jm_get w C = Some c' ∧ c_scopeKey c' = c_scopeKey c) as Hin
    by (intros w role (c' & ? & _ & ?); eauto).
  destruct (c_role c).
  - destruct (Hmay Hrel) as (w & -> & Hm & _). destruct (Hin _ _ Hm) as (c' & ? & ?).
    exists w, c'. split_and!; try done. by eapply Hother.
  - destruct (Hmay Hrel) as (w & frame & -> & _ & _ & [[Hm _]|(Hm & ? & _)]);
      destruct (Hin _ _ Hm) as (c' & ? & ?); exists w, c'; split_and!; try done. by eapply Hother.
  - unfold silent in Hmay. congruence.
Qed.
End Properties.

(** ** Tenants *)

(** C1: a peer's text leaves the relay in three ways only, always unchanged.  To a socket:
    then the event is the message of another connection of the same scope (of the same
    workspace, where workspace identifiers have no colon), or a bus frame that names the
    socket's scope.  To the bus for a daemon elsewhere, at once or after the presence
    service's answer: then it is the allowed frame a client sent earlier in the run, and
    it is published under that client's own workspace and runtime target.  To the bus for
    clients elsewhere: then it came from the bus, naming no workspace, and is published
    naming none. *)
Theorem tenant_isolation `{Rounding} TokenSchema cfg `{!TrackBounds cfg} s now ev e :
  reachable TokenSchema cfg s → enabled ev s →
  e ∈ trace (step TokenSchema cfg now ev s) → relayed e = true →
  match e with
  | ESend w (PText text) =>
      ∃ c', jm_get w (conns s) = Some c' ∧
        ((∃ ws c, ev = Message ws text ∧ jm_get ws (conns s) = Some c ∧ w ≠ ws ∧
            c_scopeKey c' = c_scopeKey c ∧
            (has_char ":" (c_workspaceId c) = false → has_char ":" (c_workspaceId c') = false →
             c_workspaceId c' = c_workspaceId c)) ∨
         (∃ frame, ev = BusFrame frame ∧ bf_payload frame = text ∧
            c_scopeKey c' = Status.runtimeScopeKey (bf_workspaceId frame) (bf_runtimeTargetId frame)))
  | EPublishClientToDaemon workspaceId runtimeTargetId _ text _ =>
      ∃ ws c, sent TokenSchema cfg s ws c text ∧ c_workspaceId c = workspaceId ∧
        c_runtimeTargetId c = Some runtimeTargetId
  | EPublishDaemonToClients workspaceId _ text _ =>
      ∃ frame, ev = BusFrame frame ∧ bf_workspaceId frame = "" ∧ workspaceId = "" ∧
        bf_payload frame = text
  | _ => False
  end.
Proof.
  intros Hr Hen He Hrel. pose proof (reachable_effects TokenSchema cfg s now ev e Hr Hen He) as Hm.
  destruct ev; simpl in Hm; try (unfold silent in Hm; congruence).
  - destruct (Hm Hrel) as (ws' & target & p & Hp & -> & _ & ->). simpl.
    destruct (waiting_sent TokenSchema cfg s Hr ws' target) as (c & Hs & Hw & Ht);
      [by eapply list_elem_of_lookup_2|]. by exists ws', c.
  - destruct (jm_get ws (conns s)) as [c|] eqn:Hws; [|unfold silent in Hm; congruence].
    destruct (message_target (conns s) ws c text e Hws) as (w & c' & -> & Hne & Hw & Hk); [done..|].
    exists c'. split; [done|]. left. exists ws, c. split_and!; try done.
    intros. eapply (same_workspace TokenSchema cfg s w ws); eauto.
  - destruct (Hm Hrel) as [(w & -> & Hd)|(Hw & t & r & ->)]; [|by exists frame].
    destruct (bf_direction frame), Hd as [(c' & Hw & _ & Hk) _]; exists c'; (split; [done|]);
      right; by exists frame.
Qed.

(** The runtime client's envelope reaches the daemon. *)
Lemma sample_forward now : now = 10%Z →
  ESend 1 (PText sample_e2ee) ∈ trace (step any_token sample_cfg now (Message 2 sample_e2ee) sample_state).
Proof.
  intros ->.
  assert (trace (step any_token sample_cfg 10 (Message 2 sample_e2ee) sample_state) =
    [ESend 1 (PText sample_e2ee)]) as -> by (vm_compute; reflexivity).
  apply list_elem_of_here.
Qed.

(** A connection of the sample state. *)
Definition sample_conn (role : RelayRole) (scope : option ClientScope) : Conn :=
  {| c_role := role; c_workspaceId := "wrk"; c_scopeKey := "wrk:rt"; c_runtimeTargetId := Some "rt";
     c_machineId := None; c_ip := "10.0.0.1"; c_claims := Some (sample_claims "wrk" "rt" scope (Some 3%Z)) |}.

(** The daemon's connection closes; the next envelope waits for the presence service,
    which names another relay. *)
Definition waiting_state : RelayState :=
  default initial_state (run_from any_token sample_cfg
    [(11%Z, Close 1); (12%Z, Message 2 sample_e2ee)] sample_state).
Definition elsewhere : Answer :=
  AnsPresence (Some {| pr_daemonConnected := true; pr_relayId := "relay-b"; pr_relayWsBaseUrl := "" |}).

Lemma waiting_reachable : reachable any_token sample_cfg waiting_state.
Proof.
  assert (run_from any_token sample_cfg [(11%Z, Close 1); (12%Z, Message 2 sample_e2ee)] sample_state =
    Some waiting_state) as H by (vm_compute; reflexivity).
  exact (reachable_run _ _ _ _ _ sample_reachable H).
Qed.

Lemma tenant_isolation_witness :
  (∃ c', jm_get 1 (conns sample_state) = Some c' ∧ c_scopeKey c' = "wrk:rt") ∧
  (EPublishClientToDaemon "wrk" "rt" None sample_e2ee "relay-b" ∈
     trace (step any_token sample_cfg 13 (Answered 0 elsewhere 9) waiting_state) ∧
   ∃ ws c, sent any_token sample_cfg waiting_state ws c sample_e2ee ∧ c_workspaceId c = "wrk").
Proof.
  split.
  - destruct (tenant_isolation any_token sample_cfg sample_state 10 (Message 2 sample_e2ee)
      (ESend 1 (PText sample_e2ee)) sample_reachable I (sample_forward 10 eq_refl) eq_refl)
      as (c' & H & [(ws & c & Hev & Hws & _ & Hk & _)|(frame & Hev & _)]); [|discriminate Hev].
    exists c'. split; [exact H|]. rewrite Hk. injection Hev as <-. vm_compute in Hws.
    injection Hws as <-. reflexivity.
  - assert (EPublishClientToDaemon "wrk" "rt" None sample_e2ee "relay-b" ∈
      trace (step any_token sample_cfg 13 (Answered 0 elsewhere 9) waiting_state)) as H.
    { assert (trace (step any_token sample_cfg 13 (Answered 0 elsewhere 9) waiting_state) =
        [EPublishClientToDaemon "wrk" "rt" None sample_e2ee "relay-b"]) as ->
        by (vm_compute; reflexivity). apply list_elem_of_here. }
    split; [exact H|].
    destruct (tenant_isolation any_token sample_cfg waiting_state 13 (Answered 0 elsewhere 9)
      (EPublishClientToDaemon "wrk" "rt" None sample_e2ee "relay-b") waiting_reachable
      (enabledb_enabled (Answered 0 elsewhere 9) waiting_state ltac:(vm_compute; reflexivity)) H eq_refl)
      as (ws & c & Hs & Hw & _).
    exists ws, c. exact (conj Hs Hw).
Defined.

(** Events other than the messages of daemons and clients, bus frames and the
    answers of the presence service relay no peer's text at all. *)
Theorem quiet_events `{Rounding} TokenSchema cfg `{!TrackBounds cfg} s now ev e :
  reachable TokenSchema cfg s → enabled ev s →
  match ev with
  | Message ws _ => ∀ c, jm_get ws (conns s) = Some c → c_role c = worker
  | BusFrame _ | Answered _ (AnsPresence _) _ => False
  | _ => True
  end →
  e ∈ trace (step TokenSchema cfg now ev s) → relayed e = false.
Proof.
  intros Hr Hen Hev He. pose proof (reachable_effects TokenSchema cfg s now ev e Hr Hen He) as Hm.
  clear He. rename Hm into He.
  destruct ev; simpl in *; try done.
  - destruct (relayed e) eqn:E; [|done]. destruct (He E) as (? & ? & ? & ? & -> & _). done.
  - destruct (jm_get ws (conns s)) as [c|]; [|done]. by rewrite (Hev c eq_refl) in He.
Qed.

Lemma quiet_events_witness :
  Forall (λ e, relayed e = false) (trace (step any_token sample_cfg 99999 HeartbeatTick sample_state)).
Proof.
  apply Forall_forall. intros e. apply (quiet_events any_token sample_cfg sample_state 99999 HeartbeatTick e); sample.
Defined.

(** ** Scopes *)

(** C3: a client's frame reaches a daemon only if it is a valid client frame of the
    client's scope: pairing frames from pairing clients, other frames than pairing and
    session-event frames from runtime clients, nothing from session-event clients;
    and its profile is the claimed one. *)
Theorem client_scope_enforced `{Rounding} TokenSchema cfg `{!TrackBounds cfg} s now ws c text w d :
  reachable TokenSchema cfg s → jm_get ws (conns s) = Some c → c_role c = client →
  ESend w (PText text) ∈ trace (step TokenSchema cfg now (Message ws text) s) →
  jm_get w (conns s) = Some d → c_role d = workspace_daemon →
  isAllowedClientFrame text = true ∧
  ∃ frame, parseFramePayload text = Some frame ∧
    c_clientScope c ≠ scope_session_events ∧ isSessionEventClientFrame frame = false ∧
    (isPairingClientFrame frame = true ↔ c_clientScope c = scope_pairing) ∧
    (∀ expected got, c_claims c ≫= cl_e2eeProfile = Some expected →
       extractFrameProfile frame = Some got → got = expected).
Proof.
  intros Hr Hws Hrole He Hd Hdr. pose proof (message_effects TokenSchema cfg s now ws c text _ Hr Hws He) as Hmay.
  rewrite Hrole in Hmay.
  destruct (Hmay eq_refl) as (w' & frame & Heq & Hp & Ha & [[_ Hf]|(Hm & _)]); simplify_eq.
  2: { destruct Hm as (d' & ? & ? & _). congruence. }
  split; [done|]. exists frame. split; [done|]. destruct Hf as [Hf Hprof].
  assert (isPairingClientFrame frame = true → isSessionEventClientFrame frame = false) as Hex.
  { intros H1. destruct (isSessionEventClientFrame frame) eqn:H2; [|done].
    pose proof (client_class_unique frame CPairing CSessionEvent H1 H2). done. }
  destruct (c_clientScope c); [destruct Hf as [Hf1 Hf2]|..|done]; split_and!; try done; auto.
  - by rewrite Hf1.
  - by intros; symmetry; eapply Hprof.
  - by intros; symmetry; eapply Hprof.
Qed.

Lemma client_scope_enforced_witness :
  isAllowedClientFrame sample_e2ee = true.
Proof.
  exact (proj1 (client_scope_enforced any_token sample_cfg sample_state 10 2
    (sample_conn client (Some scope_runtime)) sample_e2ee 1 (sample_conn workspace_daemon None)
    sample_reachable ltac:(vm_compute; reflexivity) eq_refl (sample_forward 10 eq_refl)
    ltac:(vm_compute; reflexivity) eq_refl)).
Defined.

(** A client's frame reaches another client only as a viewer's presence: the sender
    has the session-events scope and a claim to the channel, and never hears itself. *)
Theorem viewer_presence_only `{Rounding} TokenSchema cfg `{!TrackBounds cfg} s now ws c text w d :
  reachable TokenSchema cfg s → jm_get ws (conns s) = Some c → c_role c = client →
  ESend w (PText text) ∈ trace (step TokenSchema cfg now (Message ws text) s) →
  jm_get w (conns s) = Some d → c_role d = client →
  w ≠ ws ∧ c_clientScope c = scope_session_events ∧ c_scopeKey d = c_scopeKey c ∧
  ∃ frame, parseFramePayload text = Some frame ∧ isSessionViewerPresenceFrame frame = true ∧
    channel_of frame ∈ sessionEventChannels (c_claims c).
Proof.
  intros Hr Hws Hrole He Hd Hdr. pose proof (message_effects TokenSchema cfg s now ws c text _ Hr Hws He) as Hmay.
  rewrite Hrole in Hmay.
  destruct (Hmay eq_refl) as (w' & frame & Heq & Hp & Ha & [[Hm _]|(Hm & ? & ? & ? & ?)]); simplify_eq;
    destruct Hm as (d' & ? & ? & ?); simplify_eq; [congruence|].
  split_and!; eauto.
Qed.

Definition sample_subscribe : string :=
  quoted "{'type':'viewport.session_events.subscribe/v1','channel':'agent-session:x'}".
Definition sample_presence : string :=
  quoted "{'type':'viewport.session_viewer_presence/v1','channel':'agent-session:x','action':'joined','userId':'u'}".

(** Two viewers subscribe. *)
Definition viewers_state : RelayState :=
  default initial_state (run_from any_token sample_cfg
    [(20%Z, Message 3 sample_subscribe); (21%Z, Message 4 sample_subscribe)] sample_state).

Lemma viewers_reachable : reachable any_token sample_cfg viewers_state.
Proof.
  assert (run_from any_token sample_cfg
    [(20%Z, Message 3 sample_subscribe); (21%Z, Message 4 sample_subscribe)] sample_state =
    Some viewers_state) as H by (vm_compute; reflexivity).
  exact (reachable_run _ _ _ _ _ sample_reachable H).
Qed.

Lemma viewer_presence_only_witness :
  trace (step any_token sample_cfg 30 (Message 3 sample_presence) viewers_state) =
    [ESend 4 (PText sample_presence)] ∧ 4 ≠ 3.
Proof.
  assert (trace (step any_token sample_cfg 30 (Message 3 sample_presence) viewers_state) =
    [ESend 4 (PText sample_presence)]) as H by (vm_compute; reflexivity).
  split; [exact H|].
  refine (proj1 (viewer_presence_only any_token sample_cfg viewers_state 30 3
    (sample_conn client (Some scope_session_events)) sample_presence 4
    (sample_conn client (Some scope_session_events)) viewers_reachable _ eq_refl _ _ eq_refl)).
  - vm_compute. reflexivity.
  - rewrite H. apply list_elem_of_here.
  - vm_compute. reflexivity.
Defined.

(** C2: a frame from another relay goes, unchanged, to the daemon or to the clients of
    the scope it names, according to its direction, and only if it is a valid frame of
    that direction.  The one exception is a frame that names the empty workspace: it may
    also be published again, unchanged and still naming the empty workspace, for the
    clients of another relay; it too reaches no socket of another scope. *)
Theorem bus_frame_isolation `{Rounding} TokenSchema cfg `{!TrackBounds cfg} s now frame e :
  reachable TokenSchema cfg s →
  e ∈ trace (step TokenSchema cfg now (BusFrame frame) s) → relayed e = true →
  (∃ w c', e = ESend w (PText (bf_payload frame)) ∧ jm_get w (conns s) = Some c' ∧
    c_scopeKey c' = Status.runtimeScopeKey (bf_workspaceId frame) (bf_runtimeTargetId frame) ∧
    match bf_direction frame with
    | client_to_daemon => c_role c' = workspace_daemon ∧ isAllowedClientFrame (bf_payload frame) = true
    | daemon_to_clients => c_role c' = client ∧ isAllowedDaemonFrame (bf_payload frame) = true
    end) ∨
  (bf_workspaceId frame = "" ∧ ∃ t r, e = EPublishDaemonToClients "" t (bf_payload frame) r).
Proof.
  intros Hr He Hrel.
  pose proof (reachable_effects TokenSchema cfg s now (BusFrame frame) e Hr I He) as Hm.
  destruct (Hm Hrel) as [(w & -> & Hd)|?]; [left|by right].
  destruct (bf_direction frame), Hd as [(c' & ? & ? & ?) ?]; exists w, c'; done.
Qed.

Definition sample_bus_frame : RelayBusFrame :=
  {| bf_workspaceId := "wrk"; bf_runtimeTargetId := Some "rt"; bf_direction := client_to_daemon;
     bf_sourceRelayId := "relay-b"; bf_payload := sample_e2ee |}.

Lemma bus_frame_isolation_witness :
  ∃ w c', ESend 1 (PText sample_e2ee) = ESend w (PText sample_e2ee) ∧
    jm_get w (conns sample_state) = Some c' ∧ c_scopeKey c' = "wrk:rt".
Proof.
  assert (trace (step any_token sample_cfg 10 (BusFrame sample_bus_frame) sample_state) =
    [ESend 1 (PText sample_e2ee)]) as H by (vm_compute; reflexivity).
  destruct (bus_frame_isolation any_token sample_cfg sample_state 10 sample_bus_frame
    (ESend 1 (PText sample_e2ee)) sample_reachable
    ltac:(rewrite H; apply list_elem_of_here) eq_refl) as [(w & c' & H1 & H2 & H3 & _)|[Hw _]].
  - exists w, c'. exact (conj H1 (conj H2 H3)).
  - discriminate Hw.
Defined.

(** ** The state *)

(** C4: in every reachable state the clients and the daemon of a scope are connections
    with that role and scope, every client connection is registered in its scope, and
    every socket that owns a request or a session or subscribes to a channel is a
    client of the scope. *)
Theorem relay_invariant `{Rounding} TokenSchema cfg `{!TrackBounds cfg} s :
  reachable TokenSchema cfg s →
  (∀ key st ws, jm_get key (registry s) = Some st →
     (ws ∈ jm_keys (clients st) ↔
        ∃ c, jm_get ws (conns s) = Some c ∧ c_role c = client ∧ c_scopeKey c = key) ∧
     (daemon st = Some ws →
        ∃ c, jm_get ws (conns s) = Some c ∧ c_role c = workspace_daemon ∧ c_scopeKey c = key) ∧
     (refers_to ws st → ws ∈ jm_keys (clients st))) ∧
  (∀ ws c, jm_get ws (conns s) = Some c → c_role c = client →
     is_Some (jm_get (c_scopeKey c) (registry s))).
Proof.
  intros Hr. destruct (inv_reachable TokenSchema cfg s Hr) as [_ Hst _ Hl _ _]. split.
  - intros key st ws Hk. split_and!.
    + split; [by eapply ln_client|]. intros Hm.
      destruct (ln_conn _ _ Hl ws key Hm) as (st' & ? & ?). by simplify_eq.
    + by eapply ln_daemon.
    + apply (Hst key st Hk).
  - intros ws c Hws Hc. destruct (ln_conn _ _ Hl ws (c_scopeKey c)) as (st & -> & _); [by exists c|eauto].
Qed.

Lemma relay_invariant_witness : is_Some (jm_get "wrk:rt" (registry sample_state)).
Proof.
  exact (proj2 (relay_invariant any_token sample_cfg sample_state sample_reachable) 2
    (sample_conn client (Some scope_runtime)) ltac:(vm_compute; reflexivity) eq_refl).
Defined.

(** C5: in every reachable state the tracked key exchanges, pairing requests and
    session owners of every scope are within the configured bounds. *)
Theorem tracking_bounded `{Rounding} TokenSchema cfg `{!TrackBounds cfg} s key st :
  reachable TokenSchema cfg s → jm_get key (registry s) = Some st →
  (jm_size (keyExchangeRequests st) ≤ maxPairingRequestTrack cfg)%Z ∧
  (jm_size (pairingRequests st) ≤ maxPairingRequestTrack cfg)%Z ∧
  (jm_size (sessionOwners st) ≤ maxSessionOwnerTrack cfg)%Z.
Proof. intros Hr Hk. apply (inv_states _ _ (inv_reachable TokenSchema cfg s Hr) key st Hk). Qed.

Lemma tracking_bounded_witness :
  ∃ st, jm_get "wrk:rt" (registry sample_state) = Some st ∧
    (jm_size (pairingRequests st) ≤ 2)%Z.
Proof.
  destruct (jm_get "wrk:rt" (registry sample_state)) as [st|] eqn:E; [|vm_compute in E; discriminate].
  exists st. split; [reflexivity|].
  exact (proj1 (proj2 (tracking_bounded any_token sample_cfg sample_state "wrk:rt" st sample_reachable E))).
Defined.

(** In every reachable state the counter of an address is the number of its live
    connections, and an address without connections has no counter. *)
Theorem ip_counts_exact `{Rounding} TokenSchema cfg `{!TrackBounds cfg} s ip :
  reachable TokenSchema cfg s →
  let n := Z.of_nat (length (List.filter (λ e, bool_decide (c_ip e.2 = ip)) (conns s))) in
  jm_get ip (ipConnectionCounts s) = (if (n =? 0)%Z then None else Some n).
Proof. intros Hr. apply (inv_counts _ _ (inv_reachable TokenSchema cfg s Hr)). Qed.

Lemma ip_counts_exact_witness :
  jm_get "10.0.0.1" (ipConnectionCounts sample_state) = Some 6%Z.
Proof.
  rewrite (ip_counts_exact any_token sample_cfg sample_state "10.0.0.1" sample_reachable).
  vm_compute. reflexivity.
Defined.

(** Every live connection was admitted by its claims: they name its workspace and,
    for daemons and runtime or session-event clients, its runtime target, and these
    determine its scope. *)
Theorem connections_claimed `{Rounding} TokenSchema cfg `{!TrackBounds cfg} s ws c :
  reachable TokenSchema cfg s → jm_get ws (conns s) = Some c →
  c_workspaceId c ≠ "" ∧
  Connection.claimedWorkspaceId (c_claims c) = c_workspaceId c ∧
  c_scopeKey c = Status.runtimeScopeKey (c_workspaceId c) (c_runtimeTargetId c) ∧
  (Connection.needs_target (c_role c) (c_claims c ≫= cl_scope) = true →
     c_runtimeTargetId c = Some (Connection.claimedRuntimeTargetId (c_claims c))).
Proof.
  intros Hr Hws. destruct (inv_admitted _ _ (inv_reachable TokenSchema cfg s Hr) ws c Hws). done.
Qed.

Lemma connections_claimed_witness :
  c_runtimeTargetId (sample_conn client (Some scope_runtime)) = Some "rt".
Proof.
  destruct (connections_claimed any_token sample_cfg sample_state 2
    (sample_conn client (Some scope_runtime)) sample_reachable ltac:(vm_compute; reflexivity))
    as (_ & _ & _ & Ht).
  exact (Ht ltac:(vm_compute; reflexivity)).
Defined.

(** Until a scope is evicted, the issue generation of its daemons never decreases. *)
Theorem generations_monotone `{Rounding} TokenSchema cfg `{!TrackBounds cfg} s now ev key x :
  reachable TokenSchema cfg s → enabled ev s → ev ≠ CleanupTick →
  jm_get key (registry s) ≫= daemonIssueGeneration = Some x →
  ∃ y, jm_get key (registry (step TokenSchema cfg now ev s)) ≫= daemonIssueGeneration = Some y ∧
    (x ≤ y)%Z.
Proof.
  intros Hr Hen Hne Hx.
  destruct (step_generations TokenSchema cfg now s ev key x (inv_reachable TokenSchema cfg s Hr) Hen Hne Hx)
    as (st & y & -> & ? & ?).
  by exists y.
Qed.

Lemma generations_monotone_witness :
  ∃ y, jm_get "wrk:rt" (registry (step any_token sample_cfg 40 (Close 1) sample_state)) ≫=
         daemonIssueGeneration = Some y ∧ (3 ≤ y)%Z.
Proof.
  apply (generations_monotone any_token sample_cfg sample_state 40 (Close 1) "wrk:rt" 3); try sample.
  discriminate.
Defined.

(** No event publishes a frame for the clients of another relay, unless a bus frame
    without a workspace asks for it: the branches of the code that do are not
    reachable. *)
Theorem no_cross_relay_responses `{Rounding} TokenSchema cfg `{!TrackBounds cfg} s now ev w t text r :
  reachable TokenSchema cfg s → enabled ev s →
  match ev with BusFrame frame => bf_workspaceId frame ≠ "" | _ => True end →
  EPublishDaemonToClients w t text r ∉ trace (step TokenSchema cfg now ev s).
Proof.
  intros Hr Hen Hev He. pose proof (reachable_effects TokenSchema cfg s now ev _ Hr Hen He) as Hm.
  destruct ev; simpl in Hm; try done.
  - destruct (Hm eq_refl) as (? & ? & ? & _ & _ & _ & ?). done.
  - destruct (jm_get ws (conns s)) as [c|]; [|done]. destruct (c_role c); [| |done].
    + by destruct (Hm eq_refl) as (? & ? & _).
    + by destruct (Hm eq_refl) as (? & ? & ? & _).
  - destruct (Hm eq_refl) as [(? & ? & _)|[? _]]; done.
Qed.

(** A client of another relay has asked for a pairing: the daemon's answer reaches
    nobody. *)
Definition sample_offer : string :=
  quoted "{'type':'relay_pairing_offer_request','requestId':'r1','clientChannelPublicKey':'k'}".
Definition sample_offer_response : string :=
  quoted "{'type':'relay_pairing_offer_response','requestId':'r1','ok':false,'errorCode':'E'}".
Definition remote_offer : RelayBusFrame :=
  {| bf_workspaceId := "wrk"; bf_runtimeTargetId := Some "rt"; bf_direction := client_to_daemon;
     bf_sourceRelayId := "relay-b"; bf_payload := sample_offer |}.
Definition offered_state : RelayState :=
  step any_token sample_cfg 50 (BusFrame remote_offer) sample_state.

Lemma no_cross_relay_responses_witness :
  trace offered_state = [ESend 1 (PText sample_offer)] ∧
  (∀ t r, EPublishDaemonToClients "wrk" t sample_offer_response r ∉
     trace (step any_token sample_cfg 51 (Message 1 sample_offer_response) offered_state)).
Proof.
  split; [vm_compute; reflexivity|]. intros t r.
  apply (no_cross_relay_responses any_token sample_cfg offered_state 51
    (Message 1 sample_offer_response) "wrk" t sample_offer_response r); try exact I.
  apply reach_step; [exact sample_reachable|exact I].
Defined.
