(* ===== verification/RelayResponses.v ===== *)
(** * Requests and responses

    What becomes of a daemon's responses: a pairing or key-exchange response reaches
    the client that asked, once, and a key exchange makes that client the owner of the
    session; and which daemon serves a scope. *)

From S2P Require Import Prelude JsString JsMap Json Frames RateLimit Registry Admission.
From S2P Require Import RelayState Routing Handlers Relay RelayLogic RelaySteps RelayRun.
From stdpp Require Import prelude strings list.
From Stdlib Require Import ZArith Lia Ascii.
Open Scope relay_scope.

(** ** The entry of a scope, along a handler *)

Section Entries.
Context (now : Z) (key : string).

Definition exists_entry (s : RelayState) : Prop := is_Some (jm_get key (registry s)).

Lemma entry_getOrCreate_ws w s :
  exists_entry (getOrCreate_ws now key w s).2 ∧
  keyExchangeRequests (entry key (getOrCreate_ws now key w s).2) = keyExchangeRequests (entry key s) ∧
  pairingRequests (entry key (getOrCreate_ws now key w s).2) = pairingRequests (entry key s) ∧
  sessionOwners (entry key (getOrCreate_ws now key w s).2) = sessionOwners (entry key s) ∧
  trace (getOrCreate_ws now key w s).2 = trace s ∧ socks (getOrCreate_ws now key w s).2 = socks s.
Proof.
  split; [apply exists_getOrCreate|].
  unfold entry, getOrCreate_ws, getOrCreate. simpl.
  destruct (jm_get key (registry s)) as [st|] eqn:E; simpl; [|by rewrite jm_get_set_eq].
  destruct (truthy_str w); simpl; [by rewrite jm_get_set_eq|by rewrite E].
Qed.

Lemma entry_mutate f s : exists_entry s →
  exists_entry (mutate key f s).2 ∧ entry key (mutate key f s).2 = f (entry key s) ∧
  trace (mutate key f s).2 = trace s ∧ socks (mutate key f s).2 = socks s.
Proof.
  intros He. split; [by apply exists_mutate|]. destruct He as [st E].
  unfold entry. simpl. rewrite jm_get_alter, decide_True, E by done. done.
Qed.
End Entries.

Section Delivery.
Context (cfg : RelayConfig).

(** [ws] can take a frame. *)
Definition writable (ws : WebSocket) (s : RelayState) : Prop :=
  ∃ k, jm_get ws (socks s) = Some k ∧ readyState k = OPEN ∧
    (bufferedAmount k ≤ maxPendingBytes cfg)%Z.

Lemma safeSend_writable ws p s : writable ws s →
  safeSend cfg ws p s = (true, put_trace (trace s ++ [ESend ws p]) s).
Proof.
  intros (k & E & Ho & Hb). unfold safeSend, bind, gets, ready. rewrite E. simpl.
  rewrite Ho. rewrite bool_decide_eq_true_2 by done. simpl. rewrite E. simpl.
  destruct (Z.ltb_spec (maxPendingBytes cfg) (bufferedAmount k)); [lia|]. done.
Qed.

Lemma deliver_writable w key text o a b c ws s :
  clientWs o = Some ws → writable ws s →
  (deliver_to_owner cfg w key text o a b c s).2 =
    (increment a (put_trace (trace s ++ [ESend ws (PText text)]) s)).2.
Proof.
  intros Ho Hw. pose proof Hw as (k & E & Hopen & _).
  unfold deliver_to_owner. rewrite bind_snd, Ho.
  assert ((isOpen ws s).1 = true) as ->.
  { unfold isOpen, gets, is_open, ready. rewrite E. simpl. by apply bool_decide_eq_true_2. }
  cbv iota. unfold send_. rewrite !bind_snd. change (isOpen ws s).2 with s.
  by rewrite safeSend_writable.
Qed.

(** Delivery changes no scope. *)
Lemma deliver_registry w key text o a b c s :
  registry (deliver_to_owner cfg w key text o a b c s).2 = registry s.
Proof.
  assert (∀ ws p s, registry (safeSend cfg ws p s).2 = registry s) as Hsend.
  { intros ws p s'. unfold safeSend. rewrite !bind_snd. simpl fst. destruct (negb _); [done|].
    rewrite bind_snd. simpl fst. by destruct (_ <? _)%Z. }
  unfold deliver_to_owner. rewrite bind_snd.
  destruct (clientWs o) as [ws|]; simpl; [destruct (is_open ws s); simpl|].
  - unfold send_. rewrite !bind_snd. exact (Hsend ws (PText text) s).
  - rewrite bind_snd. simpl. by destruct (_ && _).
  - rewrite bind_snd. simpl. by destruct (_ && _).
Qed.
End Delivery.

Lemma prune_owners_get ttl now id o m :
  NoDup_keys m → jm_get id m = Some o → (now - createdAt o ≤ ttl)%Z →
  jm_get id (prune_owners ttl now m) = Some o.
Proof.
  intros Hnd Hg Ht. unfold prune_owners. rewrite jm_get_filter, Hg by done.
  destruct (Z.ltb_spec ttl (now - createdAt o)); [lia|done].
Qed.

Lemma prune_owners_None ttl now id m :
  jm_get id m = None → jm_get id (prune_owners ttl now m) = None.
Proof.
  rewrite !jm_get_None. intros Hn Hin. apply Hn. by eapply jm_filter_suffix_keys.
Qed.

Lemma entry_of_registry key s s' : registry s' = registry s → entry key s' = entry key s.
Proof. unfold entry. by intros ->. Qed.

(** Looking a request up after [getOrCreate] and the pruning of its map. *)
Section Lookup.
Context (now : Z) (w key : string) (s : RelayState).
Let s0 := (getOrCreate_ws now key w s).2.

Lemma lookup_pairing :
  let s1 := (mutate key (pruneStalePairingRequests now) s0).2 in
  exists_entry key s1 ∧ trace s1 = trace s ∧ socks s1 = socks s ∧
  pairingRequests (entry key s1) =
    prune_owners PAIRING_REQUEST_TTL_MS now (pairingRequests (entry key s)).
Proof.
  intros s1. destruct (entry_getOrCreate_ws now key w s) as (H0 & _ & Hp & _ & Ht & Hs).
  destruct (entry_mutate key (pruneStalePairingRequests now) s0 H0) as (H1 & He & Ht1 & Hs1).
  split_and!; [exact H1|by rewrite <-Ht|by rewrite <-Hs|]. rewrite <-Hp. exact (f_equal _ He).
Qed.

Lemma lookup_kex :
  let s1 := (mutate key (pruneStaleKeyExchangeRequests now) s0).2 in
  exists_entry key s1 ∧ trace s1 = trace s ∧ socks s1 = socks s ∧
  keyExchangeRequests (entry key s1) =
    prune_owners KEY_EXCHANGE_REQUEST_TTL_MS now (keyExchangeRequests (entry key s)).
Proof.
  intros s1. destruct (entry_getOrCreate_ws now key w s) as (H0 & Hk & _ & _ & Ht & Hs).
  destruct (entry_mutate key (pruneStaleKeyExchangeRequests now) s0 H0) as (H1 & He & Ht1 & Hs1).
  split_and!; [exact H1|by rewrite <-Ht|by rewrite <-Hs|]. rewrite <-Hk. exact (f_equal _ He).
Qed.

Lemma lookup_session :
  let s1 := (mutate key (pruneStaleSessionOwners now) s0).2 in
  exists_entry key s1 ∧ trace s1 = trace s ∧ socks s1 = socks s ∧
  sessionOwners (entry key s1) =
    prune_owners SESSION_OWNER_TTL_MS now (sessionOwners (entry key s)).
Proof.
  intros s1. destruct (entry_getOrCreate_ws now key w s) as (H0 & _ & _ & Ho & Ht & Hs).
  destruct (entry_mutate key (pruneStaleSessionOwners now) s0 H0) as (H1 & He & Ht1 & Hs1).
  split_and!; [exact H1|by rewrite <-Ht|by rewrite <-Hs|]. rewrite <-Ho. exact (f_equal _ He).
Qed.
End Lookup.

(** ** The routes, by the outcome of the lookup *)

Section Routes.
Context (cfg : RelayConfig) (now : Z) (w key text : string) (frame : FramePayload).

Lemma pairing_missing s id :
  extractPairingRequestId frame = Some id → id ≠ "" →
  jm_get id (pairingRequests (entry key s)) = None →
  let s' := (routePairingResponse cfg now w key text frame s).2 in
  trace s' = trace s ++ [ELog "warn" "pairing_response_owner_missing"
                           [("workspaceId", JStr w); ("requestId", JStr id)]] ∧
  jm_get id (pairingRequests (entry key s')) = None.
Proof.
  intros Hid Hne Hn. unfold routePairingResponse. rewrite !bind_snd. cbv zeta. rewrite Hid.
  apply truthy_str_true in Hne. assert (truthy_opt (Some id) = true) as -> by exact Hne. cbv beta iota delta [negb]. rewrite bind_snd.
  destruct (lookup_pairing now w key s) as (H1 & Ht & _ & Hp).
  set (s1 := (mutate key (pruneStalePairingRequests now) (getOrCreate_ws now key w s).2).2) in *.
  change (current key s1) with (entry key s1, s1). simpl fst. simpl snd. change (default "" (Some id)) with id.
  rewrite Hp, prune_owners_None by done.
  split; [by rewrite <-Ht|].
  change (jm_get id (pairingRequests (entry key s1)) = None). by rewrite Hp, prune_owners_None.
Qed.

Lemma pairing_found s id o ws :
  NoDup_keys (pairingRequests (entry key s)) →
  extractPairingRequestId frame = Some id → id ≠ "" →
  jm_get id (pairingRequests (entry key s)) = Some o →
  (now - createdAt o ≤ PAIRING_REQUEST_TTL_MS)%Z →
  let s' := (routePairingResponse cfg now w key text frame s).2 in
  jm_get id (pairingRequests (entry key s')) = None ∧
  (clientWs o = Some ws → writable cfg ws s → trace s' = trace s ++ [ESend ws (PText text)]).
Proof.
  intros Hnd Hid Hne Hg Htl. unfold routePairingResponse. rewrite !bind_snd. cbv zeta. rewrite Hid.
  apply truthy_str_true in Hne. assert (truthy_opt (Some id) = true) as -> by exact Hne. cbv beta iota delta [negb]. rewrite bind_snd.
  destruct (lookup_pairing now w key s) as (H1 & Ht & Hs & Hp).
  set (s1 := (mutate key (pruneStalePairingRequests now) (getOrCreate_ws now key w s).2).2) in *.
  change (current key s1) with (entry key s1, s1). simpl fst. simpl snd. change (default "" (Some id)) with id.
  rewrite Hp, (prune_owners_get _ _ id o) by done. rewrite !bind_snd.
  destruct (entry_mutate key (λ st, set_pairing (jm_delete id (pairingRequests st)) st) s1 H1)
    as (H2 & He & Ht2 & Hs2).
  set (s2 := (mutate key _ s1).2) in *. split.
  - simpl. rewrite (entry_of_registry key s2) by apply deliver_registry. rewrite He. simpl.
    apply jm_get_delete_eq.
  - intros Ho (k & Ek & Hw). simpl. erewrite deliver_writable; [|done|].
    + by rewrite <-Ht, <-Ht2.
    + exists k. by rewrite Hs2, Hs.
Qed.

(** The owner of the session that a key exchange starts. *)
Definition session_owner (o : Owner) : Owner :=
  {| clientWs := clientWs o; sourceRelayId := sourceRelayId o; createdAt := now |}.

Lemma kex_found s o ws :
  let rid := trimmed_field frame "requestId" in
  let sid := trimmed_field frame "sessionId" in
  NoDup_keys (keyExchangeRequests (entry key s)) → rid ≠ "" → sid ≠ "" →
  jm_get rid (keyExchangeRequests (entry key s)) = Some o →
  (now - createdAt o ≤ KEY_EXCHANGE_REQUEST_TTL_MS)%Z →
  let s' := (routeKeyExchangeResponse cfg now w key text frame s).2 in
  jm_get rid (keyExchangeRequests (entry key s')) = None ∧
  sessionOwners (entry key s') =
    track_owner sid (session_owner o) (maxSessionOwnerTrack cfg) (sessionOwners (entry key s)) ∧
  (clientWs o = Some ws → writable cfg ws s →
     trace s' = trace s ++ [ESend ws (PText text)] ∧ socks s' = socks s).
Proof.
  intros rid sid Hnd Hr%truthy_str_true Hs%truthy_str_true Hg Htl.
  unfold routeKeyExchangeResponse. cbv zeta. fold rid sid. rewrite Hr, Hs.
  cbv beta iota delta [negb orb]. rewrite !bind_snd.
  destruct (lookup_kex now w key s) as (H1 & Ht & Hso & Hk).
  destruct (entry_getOrCreate_ws now key w s) as (H0 & _ & _ & Hown & _).
  set (s0 := (getOrCreate_ws now key w s).2) in *.
  destruct (entry_mutate key (pruneStaleKeyExchangeRequests now) s0 H0) as (_ & He1 & _).
  set (s1 := (mutate key (pruneStaleKeyExchangeRequests now) s0).2) in *.
  change (current key s1) with (entry key s1, s1). simpl fst. simpl snd.
  rewrite Hk, (prune_owners_get _ _ rid o) by done. rewrite !bind_snd.
  destruct (entry_mutate key (λ st, set_kex (jm_delete rid (keyExchangeRequests st)) st) s1 H1)
    as (H2 & He2 & Ht2 & Hs2).
  set (s2 := (mutate key _ s1).2) in *.
  destruct (entry_mutate key (trackSessionOwner sid (session_owner o) (maxSessionOwnerTrack cfg)) s2 H2)
    as (H3 & He3 & Ht3 & Hs3).
  change {| clientWs := clientWs o; sourceRelayId := sourceRelayId o; createdAt := now |}
    with (session_owner o) in *.
  set (s3 := (mutate key (trackSessionOwner sid _ _) s2).2) in *. simpl snd.
  rewrite (entry_of_registry key s3) by apply deliver_registry.
  rewrite He3, He2. split; [apply jm_get_delete_eq|]. split.
  - simpl. rewrite He1. simpl. by rewrite Hown.
  - intros Ho (k & Ek & Hw). erewrite deliver_writable; [|done|].
    + split; [by rewrite <-Ht, <-Ht2, <-Ht3|by rewrite <-Hso, <-Hs2, <-Hs3].
    + exists k. by rewrite Hs3, Hs2, Hso.
Qed.

Lemma session_found s sid o ws :
  NoDup_keys (sessionOwners (entry key s)) → jm_get sid (sessionOwners (entry key s)) = Some o →
  (now - createdAt o ≤ SESSION_OWNER_TTL_MS)%Z → clientWs o = Some ws → writable cfg ws s →
  trace (routeSessionOwnedFrame cfg now w key sid text s).2 = trace s ++ [ESend ws (PText text)].
Proof.
  intros Hnd Hg Htl Ho (k & Ek & Hw). unfold routeSessionOwnedFrame. rewrite !bind_snd.
  destruct (lookup_session now w key s) as (H1 & Ht & Hs & Hp).
  set (s1 := (mutate key (pruneStaleSessionOwners now) (getOrCreate_ws now key w s).2).2) in *.
  change (current key s1) with (entry key s1, s1). simpl fst. simpl snd.
  rewrite Hp, (prune_owners_get _ _ sid o) by done. erewrite deliver_writable; [|done|].
  - by rewrite <-Ht.
  - exists k. by rewrite Hs.
Qed.
End Routes.

(** ** Properties *)

(** A tracked pairing request is answered once: the response goes to the client that
    asked, if it can take a frame, and the request is forgotten, so that a second
    response with the same identifier reaches nobody. *)
Theorem pairing_response_once cfg now now' w key text text' frame frame' s id o ws :
  NoDup_keys (pairingRequests (entry key s)) →
  extractPairingRequestId frame = Some id → extractPairingRequestId frame' = Some id → id ≠ "" →
  jm_get id (pairingRequests (entry key s)) = Some o →
  (now - createdAt o ≤ PAIRING_REQUEST_TTL_MS)%Z → clientWs o = Some ws → writable cfg ws s →
  let s1 := (routePairingResponse cfg now w key text frame s).2 in
  let s2 := (routePairingResponse cfg now' w key text' frame' s1).2 in
  trace s1 = trace s ++ [ESend ws (PText text)] ∧
  ∃ log, relayed log = false ∧ trace s2 = trace s1 ++ [log].
Proof.
  intros Hnd Hf Hf' Hid Hg Htl Ho Hw s1 s2.
  destruct (pairing_found cfg now w key text frame s id o ws Hnd Hf Hid Hg Htl) as [Hn Hs].
  destruct (pairing_missing cfg now' w key text' frame' s1 id Hf' Hid Hn) as [Ht _].
  split; [by apply Hs|]. eexists. split; [|exact Ht]. done.
Qed.

(** A pairing client's offer is tracked. *)
Definition sample_offer : string :=
  quoted "{'type':'relay_pairing_offer_request','requestId':'r1','clientChannelPublicKey':'k'}".
Definition sample_offer_response : FramePayload :=
  [("type", JStr "relay_pairing_offer_response"); ("requestId", JStr "r1"); ("ok", JBool false);
   ("errorCode", JStr "E")].
Definition pairing_state : RelayState :=
  put_trace [] (step any_token sample_cfg 50 (Message 5 sample_offer) sample_state).

Lemma pairing_response_once_witness :
  trace (routePairingResponse sample_cfg 51 "wrk" "wrk:rt" "resp" sample_offer_response pairing_state).2 =
    [ESend 5 (PText "resp")].
Proof.
  refine (proj1 (pairing_response_once sample_cfg 51 52 "wrk" "wrk:rt" "resp" "again"
    sample_offer_response sample_offer_response pairing_state "r1"
    {| clientWs := Some 5; sourceRelayId := None; createdAt := 50 |} 5 _ _ _ _ _ _ _ _)).
  - vm_compute. apply NoDup_singleton.
  - vm_compute. reflexivity.
  - vm_compute. reflexivity.
  - discriminate.
  - vm_compute. reflexivity.
  - simpl. unfold PAIRING_REQUEST_TTL_MS. lia.
  - reflexivity.
  - exists {| readyState := OPEN; bufferedAmount := 0 |}. split; [vm_compute; reflexivity|].
    split; [reflexivity|simpl; lia].
Defined.

(** A key-exchange response makes the client that asked the owner of the session: the
    response goes to it, the request is spent, and the frames of that session then go to
    it and to nobody else, for as long as the owner is fresh. *)
Theorem kex_binds_session cfg `{!TrackBounds cfg} now now' w key text text' frame s o ws :
  let rid := trimmed_field frame "requestId" in
  let sid := trimmed_field frame "sessionId" in
  NoDup_keys (keyExchangeRequests (entry key s)) → NoDup_keys (sessionOwners (entry key s)) →
  rid ≠ "" → sid ≠ "" → jm_get rid (keyExchangeRequests (entry key s)) = Some o →
  (now - createdAt o ≤ KEY_EXCHANGE_REQUEST_TTL_MS)%Z → (now' - now ≤ SESSION_OWNER_TTL_MS)%Z →
  clientWs o = Some ws → writable cfg ws s →
  let s1 := (routeKeyExchangeResponse cfg now w key text frame s).2 in
  let s2 := (routeSessionOwnedFrame cfg now' w key sid text' s1).2 in
  jm_get rid (keyExchangeRequests (entry key s1)) = None ∧
  trace s1 = trace s ++ [ESend ws (PText text)] ∧
  trace s2 = trace s1 ++ [ESend ws (PText text')].
Proof.
  intros rid sid Hnd Hnd' Hr Hs Hg Htl Htl' Ho Hw s1 s2.
  destruct (kex_found cfg now w key text frame s o ws Hnd Hr Hs Hg Htl) as (Hn & Hown & Hd).
  destruct (Hd Ho Hw) as [Ht Hso]. fold s1 in Ht, Hso, Hown.
  split; [done|]. split; [done|].
  apply (session_found cfg now' w key text' s1 sid (session_owner now o) ws).
  - rewrite Hown. unfold track_owner. apply NoDup_keys_set. by apply NoDup_keys_trim.
  - rewrite Hown. apply jm_get_set_eq.
  - exact Htl'.
  - exact Ho.
  - destruct Hw as (k & Ek & ?). exists k. by rewrite Hso.
Qed.

Definition sample_kex_init : string :=
  quoted "{'type':'relay_key_exchange_init','version':2,'profile':'noise-ik','requestId':'r1','clientPublicKey':'p','clientNonce':'n','clientProof':'q'}".
Definition kex_response : FramePayload := [("requestId", JStr "r1"); ("sessionId", JStr "s1")].
Definition kex_state : RelayState :=
  put_trace [] (step any_token sample_cfg 50 (Message 2 sample_kex_init) sample_state).

Lemma kex_binds_session_witness :
  trace (routeKeyExchangeResponse sample_cfg 51 "wrk" "wrk:rt" "resp" kex_response kex_state).2 =
    [ESend 2 (PText "resp")].
Proof.
  refine (proj1 (proj2 (kex_binds_session sample_cfg 51 52 "wrk" "wrk:rt" "resp" "frame"
    kex_response kex_state {| clientWs := Some 2; sourceRelayId := None; createdAt := 50 |} 2
    _ _ _ _ _ _ _ _ _))).
  - vm_compute. apply NoDup_singleton.
  - vm_compute. apply NoDup_nil_2.
  - discriminate.
  - discriminate.
  - vm_compute. reflexivity.
  - simpl. unfold KEY_EXCHANGE_REQUEST_TTL_MS. lia.
  - unfold SESSION_OWNER_TTL_MS. lia.
  - reflexivity.
  - exists {| readyState := OPEN; bufferedAmount := 0 |}. split; [vm_compute; reflexivity|].
    split; [reflexivity|simpl; lia].
Defined.

(** A daemon is refused, and its socket closed, exactly when its claim is older than
    the last generation of the scope or the scope has an open daemon; otherwise it
    becomes the scope's daemon, its generation is recorded, and the pending key
    exchanges and the session owners of its predecessor are dropped. *)
Theorem daemon_registration now ws c s st :
  jm_get (c_scopeKey c) (registry s) = Some st →
  let s' := (register_daemon now ws c s).2 in
  let gen := claim_generation (c_claims c) in
  if stale_generation gen (daemonIssueGeneration st) ||
     from_option (λ d, is_open d s) false (daemon st)
  then registry s' = registry s ∧ conns s' = conns s ∧
       ∃ details why, trace s' =
         trace s ++ [ELog "warn" "daemon_connection_rejected" details; EClose ws 4008 why]
  else conns s' = jm_set ws c (conns s) ∧
       (∃ st', jm_get (c_scopeKey c) (registry s') = Some st' ∧ daemon st' = Some ws ∧
          daemonIssueGeneration st' = (if gen then gen else daemonIssueGeneration st) ∧
          keyExchangeRequests st' = [] ∧ sessionOwners st' = [] ∧
          clients st' = clients st ∧ pairingRequests st' = pairingRequests st) ∧
       (∀ k, k ≠ c_scopeKey c → jm_get k (registry s') = jm_get k (registry s)).
Proof.
  intros Hst. cbv zeta. unfold register_daemon. rewrite bind_snd.
  assert (current (c_scopeKey c) s = (st, s)) as ->.
  { unfold current, gets, entry. by rewrite Hst. }
  simpl fst. simpl snd. cbv zeta.
  assert (∀ reason close extra, ∃ details why,
    registry (connection_rejected ws c reason close extra s).2 = registry s ∧
    conns (connection_rejected ws c reason close extra s).2 = conns s ∧
    trace (connection_rejected ws c reason close extra s).2 =
      trace s ++ [ELog "warn" "daemon_connection_rejected" details; EClose ws 4008 why]) as Hrej.
  { intros. do 2 eexists. split_and!; [reflexivity..|]. simpl. by rewrite <-app_assoc. }
  destruct (stale_generation _ _) eqn:Eg; simpl orb.
  { edestruct Hrej as (details & why & Hr & Hc & Ht). split; [exact Hr|]. split; [exact Hc|]. by exists details, why. }
  rewrite bind_snd.
  assert (daemon_open (c_scopeKey c) s =
    ((if from_option (λ d, is_open d s) false (daemon st) then daemon st else None), s)) as ->.
  { unfold daemon_open, bind, current, gets, entry, isOpen. rewrite Hst. simpl.
    destruct (daemon st) as [d|]; simpl; [|done]. unfold gets. by destruct (is_open d s). }
  simpl fst. simpl snd.
  destruct (daemon st) as [d|] eqn:Ed; cbv beta iota delta [from_option]; [destruct (is_open d s)|].
  { edestruct Hrej as (details & why & Hr & Hc & Ht). split; [exact Hr|]. split; [exact Hc|]. by exists details, why. }
  all: split; [reflexivity|]; split;
    [eexists; split; [simpl; rewrite jm_get_alter, decide_True, Hst by done; reflexivity|];
     by destruct (claim_generation (c_claims c))
    |intros k Hk; simpl; rewrite jm_get_alter; by rewrite decide_False].
Qed.

Lemma daemon_registration_witness :
  conns (register_daemon 60 9 {| c_role := workspace_daemon; c_workspaceId := "wrk";
      c_scopeKey := "wrk:rt"; c_runtimeTargetId := Some "rt"; c_machineId := None; c_ip := "ip";
      c_claims := Some (sample_claims "wrk" "rt" None (Some 7%Z)) |} sample_state).2 =
  conns sample_state.
Proof.
  destruct (jm_get "wrk:rt" (registry sample_state)) as [st|] eqn:E; [|vm_compute in E; discriminate].
  pose proof (daemon_registration 60 9 {| c_role := workspace_daemon; c_workspaceId := "wrk";
      c_scopeKey := "wrk:rt"; c_runtimeTargetId := Some "rt"; c_machineId := None; c_ip := "ip";
      c_claims := Some (sample_claims "wrk" "rt" None (Some 7%Z)) |} sample_state st E) as H.
  cbv zeta in H.
  assert (from_option (λ d, is_open d sample_state) false (daemon st) = true) as Hd.
  { vm_compute in E. injection E as <-. vm_compute. reflexivity. }
  rewrite Hd, orb_true_r in H. exact (proj1 (proj2 H)).
Defined.

(** [safeSend] puts a frame on a socket exactly when the socket is open and its
    backlog is within the limit; a slow socket is closed instead, and a socket that is
    not open is left alone. *)
Theorem safeSend_spec cfg ws p s :
  let buffered := from_option bufferedAmount 0%Z (jm_get ws (socks s)) in
  let s' := (safeSend cfg ws p s).2 in
  (safeSend cfg ws p s).1 = is_open ws s && (buffered <=? maxPendingBytes cfg)%Z ∧
  trace s' = trace s ++
    (if negb (is_open ws s) then []
     else if (buffered <=? maxPendingBytes cfg)%Z then [ESend ws p]
     else [EClose ws 4008 "buffer overflow"]) ∧
  registry s' = registry s ∧ conns s' = conns s.
Proof.
  cbv zeta. unfold safeSend, bind, gets. simpl. unfold is_open.
  destruct (bool_decide (ready ws s = OPEN)); simpl; [|by rewrite app_nil_r].
  rewrite Z.ltb_antisym. by destruct (_ <=? _)%Z.
Qed.

(** ** What the code leaves open *)

(** The limit of clients per workspace is checked on the scope the request names, not on
    the one the claims name: without a target in the request, it is never reached.  The
    sample configuration allows one client; the sample run has connected four. *)
Lemma client_limit_bypassed :
  maxClientsPerWorkspace sample_cfg = 1%Z ∧
  (λ st, jm_size (clients st)) <$> jm_get "wrk:rt" (registry sample_state) = Some 4%Z.
Proof. split; [reflexivity|vm_compute; reflexivity]. Qed.

(** A worker's path is tested as text, before [new URL] resolves dot segments. *)
Lemma worker_path_traversal :
  workerRequestPathAllowed
    (worker_prefix "wrk" "exec" +:+ "/../../../wrk2/managed-executors/other") "wrk" "exec" = true.
Proof. vm_compute. reflexivity. Qed.
