(* ===== verification/Bus.v ===== *)
(** * The relay bus (services/relay/src/bus-signing.ts, bus.ts, redis-backplane.ts)

    [Module Signing] models the signature of a bus frame; [Module Freshness] the maps
    that reject replays, which bus.ts and redis-backplane.ts both keep; [Module Bus] and
    [Module Redis] the two clients.  HMAC-SHA-256 is an argument, and so are the
    answers of the server and of Redis. *)

From S2P Require Import Prelude JsString JsMap Json Frames Admission.
From stdpp Require Import prelude strings list pretty.
From Stdlib Require Import ZArith Lia Ascii.

Inductive Direction := client_to_daemon | daemon_to_clients.
#[export] Instance Direction_eq_dec : EqDecision Direction.
Proof. solve_decision. Defined.

Definition direction_name (d : Direction) : string :=
  match d with client_to_daemon => "client_to_daemon" | daemon_to_clients => "daemon_to_clients" end.

Definition newline : ascii := byte_of 10.
Definition nl : string := String newline "".

(** ** bus-signing.ts *)

Module Signing.
Record BusSignatureFields := {
  workspaceId : string; runtimeTargetId : option string; machineId : option string;
  sourceRelayId : string; targetRelayId : option string; direction : Direction;
  payload : string; issuedAtMs : Z
}.

(** [String(issuedAtMs)] is the decimal text of an integer below 10^21. *)
Definition busSignatureBase (f : BusSignatureFields) : string :=
  JsString.join nl [workspaceId f; default "" (runtimeTargetId f); default "" (machineId f);
           sourceRelayId f; default "" (targetRelayId f); direction_name (direction f);
           pretty (issuedAtMs f); payload f].

Section Hmac.
(** [createHmac('sha256', key).update(text).digest('base64url')] *)
Variable hmac : string → string → string.

Definition signBusFrame (fields : BusSignatureFields) (key : string) : string :=
  hmac key (busSignatureBase fields).

Definition verifyBusFrameSignature (fields : BusSignatureFields) (key signature : string) : bool :=
  Upgrade.secureCompare (signBusFrame fields key) signature.
End Hmac.

(** The header fields have no line break; [undefined] and the empty string are
    signed alike. *)
Definition plain (f : BusSignatureFields) : Prop :=
  Forall (λ s, has_char newline s = false)
    [workspaceId f; default "" (runtimeTargetId f); default "" (machineId f);
     sourceRelayId f; default "" (targetRelayId f)].

Lemma direction_plain d : has_char newline (direction_name d) = false.
Proof. by destruct d. Qed.

Lemma direction_name_inj d1 d2 : direction_name d1 = direction_name d2 → d1 = d2.
Proof. by destruct d1, d2. Qed.

Lemma pretty_N_go_plain x s :
  has_char newline s = false → has_char newline (pretty_N_go x s) = false.
Proof.
  revert s. induction (N.lt_wf_0 x) as [x _ IH]. intros s Hs.
  destruct (decide (0 < x)%N) as [Hx|Hx].
  - rewrite pretty_N_go_step by done. apply IH; [by apply N.div_lt|].
    rewrite has_char_cons, Hs, orb_false_r. unfold pretty_N_char.
    by repeat case_match.
  - replace x with 0%N by lia. by rewrite pretty_N_go_0.
Qed.

Lemma pretty_Z_plain (z : Z) : has_char newline (pretty z) = false.
Proof.
  assert (∀ n : N, has_char newline (pretty n) = false) as Hn.
  { intros n. unfold pretty, pretty_N. case_decide; [done|]. by apply pretty_N_go_plain. }
  unfold pretty, pretty_Z. destruct z as [|p|p]; [done|apply (Hn (Npos p))|].
  rewrite has_char_app. apply orb_false_iff. split; [done|exact (Hn (Npos p))].
Qed.

Lemma join_nl_inj a l1 b l2 :
  l1 ≠ [] → l2 ≠ [] → has_char newline a = false → has_char newline b = false →
  JsString.join nl (a :: l1) = JsString.join nl (b :: l2) → a = b ∧ JsString.join nl l1 = JsString.join nl l2.
Proof.
  intros H1 H2 Ha Hb. destruct l1 as [|x1 l1]; [done|]. destruct l2 as [|x2 l2]; [done|].
  intros E. exact (append_sep_inj newline a _ b _ Ha Hb E).
Qed.

(** The text that is signed determines the frame. *)
Lemma busSignatureBase_inj f g :
  plain f → plain g → busSignatureBase f = busSignatureBase g →
  workspaceId f = workspaceId g ∧ default "" (runtimeTargetId f) = default "" (runtimeTargetId g) ∧
  default "" (machineId f) = default "" (machineId g) ∧ sourceRelayId f = sourceRelayId g ∧
  default "" (targetRelayId f) = default "" (targetRelayId g) ∧ direction f = direction g ∧
  issuedAtMs f = issuedAtMs g ∧ payload f = payload g.
Proof.
  unfold plain. rewrite !Forall_cons. intros (F1 & F2 & F3 & F4 & F5 & _) (G1 & G2 & G3 & G4 & G5 & _).
  unfold busSignatureBase. intros E.
  apply join_nl_inj in E as [? E]; [|done..].
  apply join_nl_inj in E as [? E]; [|done..].
  apply join_nl_inj in E as [? E]; [|done..].
  apply join_nl_inj in E as [? E]; [|done..].
  apply join_nl_inj in E as [? E]; [|done..].
  apply join_nl_inj in E as [Hd E]; [|done|done|apply direction_plain..].
  apply join_nl_inj in E as [Hz E]; [|done|done|apply pretty_Z_plain..].
  apply direction_name_inj in Hd. apply (inj pretty) in Hz. done.
Qed.
End Signing.

(** ** Replay protection (bus.ts and redis-backplane.ts) *)

Module Freshness.
Record State := {
  lastAcceptedIssuedAtMs : list (string * Z);
  lastAcceptedSignature : list (string * string);
  seenSignedFrames : list (string * Z)
}.

Definition empty : State :=
  {| lastAcceptedIssuedAtMs := []; lastAcceptedSignature := []; seenSignedFrames := [] |}.

Definition freshness_key (source workspace target : string) : string :=
  JsString.join nl [source; workspace; target].
Definition seen_key (source workspace target signature : string) : string :=
  JsString.join nl [source; workspace; target; signature].

(** The two tests that reject a replayed frame; [signature] is [None] when the frame
    has no string for one. *)
Definition replayed (fkey skey : string) (signature : option string) (issued : Z) (st : State) : bool :=
  match jm_get skey (seenSignedFrames st) with
  | Some seenIssuedAt => (issued <=? seenIssuedAt)%Z
  | None => false
  end ||
  match jm_get fkey (lastAcceptedIssuedAtMs st) with
  | Some previous =>
      (issued <? previous)%Z ||
      ((issued =? previous)%Z &&
       match jm_get fkey (lastAcceptedSignature st) with
       | Some previousSignature => bool_decide (signature = Some previousSignature)
       | None => false
       end)
  | None => false
  end.

(** [while (m.size > cap)]: the oldest key leaves both maps. *)
Fixpoint trim_both (cap : Z) (issued : list (string * Z)) (signatures : list (string * string)) :
    list (string * Z) * list (string * string) :=
  match issued with
  | [] => (issued, signatures)
  | (oldest, _) :: rest =>
      if (cap <? jm_size issued)%Z then trim_both cap rest (jm_delete oldest signatures)
      else (issued, signatures)
  end.

(** The updates that record an accepted frame. *)
Definition remember (trackMax : Z) (fkey skey signature : string) (issued : Z) (st : State) : State :=
  let '(i, s) := trim_both trackMax (jm_touch fkey issued (lastAcceptedIssuedAtMs st))
                                    (jm_touch fkey signature (lastAcceptedSignature st)) in
  {| lastAcceptedIssuedAtMs := i; lastAcceptedSignature := s;
     seenSignedFrames :=
       jm_trim (Z.max (trackMax * 4) 100000) (jm_touch skey issued (seenSignedFrames st)) |}.

Record wf (trackMax : Z) (st : State) : Prop := {
  wf_issued : NoDup_keys (lastAcceptedIssuedAtMs st);
  wf_seen : NoDup_keys (seenSignedFrames st);
  wf_signatures : NoDup_keys (lastAcceptedSignature st);
  wf_same_keys : ∀ k, k ∈ jm_keys (lastAcceptedSignature st) ↔ k ∈ jm_keys (lastAcceptedIssuedAtMs st);
  wf_issued_size : (jm_size (lastAcceptedIssuedAtMs st) ≤ trackMax)%Z;
  wf_seen_size : (jm_size (seenSignedFrames st) ≤ Z.max (trackMax * 4) 100000)%Z
}.

Lemma trim_both_fst cap issued signatures : (trim_both cap issued signatures).1 = jm_trim cap issued.
Proof.
  revert signatures. induction issued as [|[k v] rest IH]; intros signatures; simpl; [done|].
  by case_match.
Qed.

(** The two maps keep the same keys. *)
Lemma trim_both_keys cap issued signatures :
  NoDup_keys issued → NoDup_keys signatures →
  (∀ k, k ∈ jm_keys signatures ↔ k ∈ jm_keys issued) →
  NoDup_keys (trim_both cap issued signatures).2 ∧
  ∀ k, k ∈ jm_keys (trim_both cap issued signatures).2 ↔ k ∈ jm_keys (jm_trim cap issued).
Proof.
  revert signatures. induction issued as [|[k0 v0] rest IH]; intros signatures Hi Hs Hk; simpl; [done|].
  case_match; [|done]. unfold NoDup_keys, jm_keys in Hi. rewrite fmap_cons in Hi.
  apply NoDup_cons in Hi as [Hni Hi]. apply IH; [done|auto with viewport|]. intros k.
  rewrite jm_key_is_Some, jm_get_delete. case_decide as Hd; subst.
  - split; [by intros []|]. intros Hin. by destruct Hni.
  - rewrite <-jm_key_is_Some, Hk. unfold jm_keys. rewrite fmap_cons, elem_of_cons. naive_solver.
Qed.

Lemma jm_keys_touch {V} k k' (v : V) (m : list (string * V)) :
  k ∈ jm_keys (jm_touch k' v m) ↔ k = k' ∨ k ∈ jm_keys m.
Proof.
  rewrite !jm_key_is_Some, jm_get_touch. case_decide; subst; [|naive_solver].
  split; [by left|eauto].
Qed.

Lemma wf_empty trackMax : (0 ≤ trackMax)%Z → wf trackMax empty.
Proof. intros. split; simpl; try apply NoDup_keys_nil; unfold jm_size; simpl; [done|lia..]. Qed.

Lemma wf_remember trackMax fkey skey signature issued st :
  (0 ≤ trackMax)%Z → wf trackMax st → wf trackMax (remember trackMax fkey skey signature issued st).
Proof.
  intros Hmax [Hi Hse Hs Hk _ _].
  pose proof (trim_both_fst trackMax (jm_touch fkey issued (lastAcceptedIssuedAtMs st))
    (jm_touch fkey signature (lastAcceptedSignature st))) as Hf.
  destruct (trim_both_keys trackMax (jm_touch fkey issued (lastAcceptedIssuedAtMs st))
    (jm_touch fkey signature (lastAcceptedSignature st))) as [Hn Hsame]; auto with viewport.
  { intros k. by rewrite !jm_keys_touch, Hk. }
  unfold remember. destruct (trim_both _ _ _) as [i s]. simpl in *. subst i.
  split; simpl; auto with viewport.
  - rewrite jm_size_trim by done. lia.
  - rewrite jm_size_trim by lia. lia.
Qed.

(** An accepted frame is remembered. *)
Lemma remember_seen trackMax fkey skey signature issued st :
  (1 ≤ trackMax)%Z → wf trackMax st →
  let st' := remember trackMax fkey skey signature issued st in
  jm_get skey (seenSignedFrames st') = Some issued ∧
  jm_get fkey (lastAcceptedIssuedAtMs st') = Some issued.
Proof.
  intros Hmax [Hi Hse _ _ _ _]. cbv zeta. unfold remember.
  pose proof (trim_both_fst trackMax (jm_touch fkey issued (lastAcceptedIssuedAtMs st))
    (jm_touch fkey signature (lastAcceptedSignature st))) as Hf.
  destruct (trim_both _ _ _) as [i s]. simpl in *. subst i.
  split; apply jm_get_touch_trim; try done; lia.
Qed.

Definition seen_cap (trackMax : Z) : Z := Z.max (trackMax * 4) 100000.
Definition seen_size (st : State) : Z := jm_size (seenSignedFrames st).

(** Below the cap the map of seen frames only grows. *)
Lemma remember_get trackMax fkey skey signature issued st k :
  (seen_size st < seen_cap trackMax)%Z →
  let st' := remember trackMax fkey skey signature issued st in
  jm_get k (seenSignedFrames st') =
    (if decide (k = skey) then Some issued else jm_get k (seenSignedFrames st)) ∧
  (seen_size st' ≤ seen_size st + 1)%Z.
Proof.
  intros Hc. cbv zeta. unfold remember, seen_size in *. destruct (trim_both _ _ _) as [i s]. simpl.
  pose proof (jm_size_touch_le skey issued (seenSignedFrames st)) as Hs.
  rewrite jm_trim_id by (unfold seen_cap in Hc; lia). split; [apply jm_get_touch|done].
Qed.

Lemma not_replayed_newer fkey skey signature issued st j :
  replayed fkey skey signature issued st = false →
  jm_get skey (seenSignedFrames st) = Some j → (j < issued)%Z.
Proof. unfold replayed. intros [H _]%orb_false_iff Hj. rewrite Hj in H. by split_bools. Qed.
End Freshness.

(** ** bus.ts *)

(** ** The clients *)

Record RelayBusFrame := {
  id : Z; workspaceId : string; runtimeTargetId : string; machineId : option string;
  sourceRelayId : string; targetRelayId : option string; direction : Direction;
  payload : string; issuedAtMs : option SpecFloat.spec_float; signature : option string
}.

Record BusConfig := {
  relayId : string; maxFrameBytes : Z; busHmacKey : option string;
  busSignatureMaxSkewMs : Z; busFreshnessTrackMax : Z;
  redisKeyPrefix : string; redisQueueMax : Z
}.

(** What becomes of a received frame: dropped, dropped and counted, or accepted. *)
Inductive outcome := Skip | Count (metric : string) | Accept (frame : RelayBusFrame).

Definition parse_direction (v : option json) : option Direction :=
  if is_str v "client_to_daemon" then Some client_to_daemon
  else if is_str v "daemon_to_clients" then Some daemon_to_clients
  else None.

Definition as_number (v : option json) : option SpecFloat.spec_float :=
  match v with Some (JNum x) => Some x | _ => None end.

(** [JSON.stringify] leaves out the fields that are [undefined]. *)
Definition defined_fields (l : list (string * option json)) : record :=
  omap (λ '(k, v), (λ x, (k, x)) <$> v) l.

Definition string_or_null (s : option string) : json := match s with Some s => JStr s | None => JNull end.

(** A relay other than this one is named. *)
Definition for_other_relay (cfg : BusConfig) (target : option string) : bool :=
  match target with
  | Some t => nonblank t && negb (String.eqb t (relayId cfg))
  | None => false
  end.

(** *** What an accepted frame is *)

(** The fields whose signature was verified. *)
Definition signed_fields (f : RelayBusFrame) (issued : Z) : Signing.BusSignatureFields :=
  {| Signing.workspaceId := workspaceId f; Signing.runtimeTargetId := Some (runtimeTargetId f);
     Signing.machineId := machineId f; Signing.sourceRelayId := sourceRelayId f;
     Signing.targetRelayId := targetRelayId f; Signing.direction := direction f;
     Signing.payload := payload f; Signing.issuedAtMs := issued |}.

Definition fkey_of (f : RelayBusFrame) : string :=
  Freshness.freshness_key (sourceRelayId f) (workspaceId f) (runtimeTargetId f).
Definition skey_of (f : RelayBusFrame) : string :=
  Freshness.seen_key (sourceRelayId f) (workspaceId f) (runtimeTargetId f) (default "" (signature f)).
Definition issued_of (f : RelayBusFrame) : option Z := as_int (JNum <$> issuedAtMs f).

(** The frame passed the tests of its signature, and was recorded. *)
Record verified (hmac : string → string → string) (cfg : BusConfig) (key : string) (now : Z)
    (f : RelayBusFrame) (issued : Z) (st st' : Freshness.State) : Prop := {
  v_issued : issued_of f = Some issued;
  v_signature : signature f = Some (Signing.signBusFrame hmac (signed_fields f issued) key);
  v_recent : (Z.abs (now - issued) ≤ busSignatureMaxSkewMs cfg)%Z;
  v_new : Freshness.replayed (fkey_of f) (skey_of f) (signature f) issued st = false;
  v_recorded : st' = Freshness.remember (busFreshnessTrackMax cfg) (fkey_of f) (skey_of f)
                       (Signing.signBusFrame hmac (signed_fields f issued) key) issued st
}.

(** What one received entry does to the maps: nothing, or the record of a verified
    frame. *)
Inductive receives (hmac : string → string → string) (cfg : BusConfig) (key : string) (now : Z) :
    Freshness.State → outcome → Freshness.State → Prop :=
  | receives_skip st : receives hmac cfg key now st Skip st
  | receives_count st m : receives hmac cfg key now st (Count m) st
  | receives_accept st f issued st' :
      verified hmac cfg key now f issued st st' → receives hmac cfg key now st (Accept f) st'.

(** Every frame of [acc] is in the map of seen frames, at its time or a later one. *)
Definition covers (acc : list RelayBusFrame) (st : Freshness.State) : Prop :=
  ∀ f, f ∈ acc → ∃ i j, issued_of f = Some i ∧
    jm_get (skey_of f) (Freshness.seenSignedFrames st) = Some j ∧ (i ≤ j)%Z.

(** [g] is not the frame [f] again. *)
Definition newer (f g : RelayBusFrame) : Prop :=
  sourceRelayId f = sourceRelayId g → workspaceId f = workspaceId g →
  runtimeTargetId f = runtimeTargetId g → signature f = signature g →
  ∃ i j, issued_of f = Some i ∧ issued_of g = Some j ∧ (i < j)%Z.

(** The accepted frames after those of [acc] are newer than the frames before them. *)
Inductive fresh_after : list RelayBusFrame → list RelayBusFrame → Prop :=
  | fresh_nil acc : fresh_after acc []
  | fresh_cons acc g rest :
      Forall (λ f, newer f g) acc → fresh_after (g :: acc) rest → fresh_after acc (g :: rest).

Lemma receives_covers hmac cfg key now st o st' acc :
  receives hmac cfg key now st o st' → covers acc st →
  (Freshness.seen_size st < Freshness.seen_cap (busFreshnessTrackMax cfg))%Z →
  (Freshness.seen_size st' ≤ Freshness.seen_size st + 1)%Z ∧
  match o with
  | Accept g => Forall (λ f, newer f g) acc ∧ covers (g :: acc) st'
  | _ => covers acc st'
  end.
Proof.
  intros [|?|st0 g issued st1 [Hi Hsig _ Hnew ->]] Hcov Hsize; [split; [lia|done]..|].
  destruct (Freshness.remember_get (busFreshnessTrackMax cfg) (fkey_of g) (skey_of g)
    (Signing.signBusFrame hmac (signed_fields g issued) key) issued st0 (skey_of g) Hsize) as [_ Hle].
  split; [done|]. split.
  - apply Forall_forall. intros f Hf Es Ew Et Eg. destruct (Hcov f Hf) as (i & j & Hif & Hj & Hij).
    exists i, issued. split_and!; [done..|].
    assert (skey_of f = skey_of g) as E by (unfold skey_of; by rewrite Es, Ew, Et, Eg). rewrite E in Hj.
    pose proof (Freshness.not_replayed_newer _ _ _ _ _ _ Hnew Hj). lia.
  - intros f [->|Hf]%elem_of_cons.
    + exists issued, issued. split_and!; [done| |lia].
      destruct (Freshness.remember_get (busFreshnessTrackMax cfg) (fkey_of g) (skey_of g)
        (Signing.signBusFrame hmac (signed_fields g issued) key) issued st0 (skey_of g) Hsize) as [-> _].
      by rewrite decide_True.
    + destruct (Hcov f Hf) as (i & j & Hif & Hj & Hij).
      destruct (Freshness.remember_get (busFreshnessTrackMax cfg) (fkey_of g) (skey_of g)
        (Signing.signBusFrame hmac (signed_fields g issued) key) issued st0 (skey_of f) Hsize) as [Hg _].
      destruct (decide (skey_of f = skey_of g)) as [E|Hne].
      * exists i, issued. split_and!; [done..|]. rewrite E in Hj.
        pose proof (Freshness.not_replayed_newer _ _ _ _ _ _ Hnew Hj). lia.
      * exists i, j. by rewrite Hg.
Qed.

(** Several pulls one after the other: the frames they return, and the last state. *)
Fixpoint pulls {A S} (pull : Z → A → S → list RelayBusFrame * list string * S)
    (answers : list (Z * A)) (st : S) : list RelayBusFrame * S :=
  match answers with
  | [] => ([], st)
  | (now, a) :: rest =>
      let '(frames, _, st1) := pull now a st in
      let '(more, st2) := pulls pull rest st1 in
      (frames ++ more, st2)
  end.

Lemma fresh_after_weaken acc acc' l : acc ⊆ acc' → fresh_after acc' l → fresh_after acc l.
Proof.
  intros Hsub Hf. revert acc Hsub. induction Hf as [acc'|acc' g rest Hg _ IH]; intros acc Hsub; constructor.
  - rewrite Forall_forall in *. auto.
  - apply IH. intros f. rewrite !elem_of_cons. naive_solver.
Qed.

Lemma fresh_after_app acc l1 l2 :
  fresh_after acc l1 → fresh_after (reverse l1 ++ acc) l2 → fresh_after acc (l1 ++ l2).
Proof.
  induction 1 as [acc|acc g rest Hg _ IH]; intros H2; [done|]. simpl. constructor; [done|].
  apply IH. by rewrite reverse_cons, <-(assoc_L (++)) in H2.
Qed.

(** ** bus.ts *)

Module Bus.
Section Pull.
Variable hmac : string → string → string.
(** [String(v)] of a value that is not a string. *)
Variable ToString : option json → string.
Variable cfg : BusConfig.

Record State := { sinceId : Z; fresh : Freshness.State }.

Definition template (v : option json) : string :=
  match v with Some (JStr s) => s | _ => ToString v end.

(** The signature's tests, and the freshness maps after them: [None] when the frame
    passes. *)
Definition check_signature (key : string) (now : Z) (candidate : record)
    (w t source text : string) (d : Direction) (st : Freshness.State) :
    option string * Freshness.State :=
  match as_int (field candidate "issuedAtMs") with
  | None => (Some "relay_bus_pull_invalid_signature_total", st)
  | Some issued =>
      if (busSignatureMaxSkewMs cfg <? Z.abs (now - issued))%Z then
        (Some "relay_bus_pull_stale_signature_total", st)
      else
        let machine := default "" (as_string (field candidate "machineId")) in
        let sig := field candidate "signature" in
        let fkey := Freshness.freshness_key source w t in
        let skey := Freshness.seen_key source w t (template sig) in
        if Freshness.replayed fkey skey (as_string sig) issued st then
          (Some "relay_bus_pull_replayed_signature_total", st)
        else
          match sig with
          | Some (JStr signature) =>
              if negb (nonblank signature) then
                (Some "relay_bus_pull_invalid_signature_total", st)
              else if negb (Signing.verifyBusFrameSignature hmac
                {| Signing.workspaceId := w; Signing.runtimeTargetId := Some t;
                   Signing.machineId := if truthy_str machine then Some machine else None;
                   Signing.sourceRelayId := source;
                   Signing.targetRelayId := as_string (field candidate "targetRelayId");
                   Signing.direction := d; Signing.payload := text;
                   Signing.issuedAtMs := issued |} key signature) then
                (Some "relay_bus_pull_invalid_signature_total", st)
              else (None, Freshness.remember (busFreshnessTrackMax cfg) fkey skey signature issued st)
          | _ => (Some "relay_bus_pull_invalid_signature_total", st)
          end
  end.

Definition frame_of (n : Z) (candidate : record) (w t source text : string) (d : Direction) :
    RelayBusFrame :=
  {| id := n; workspaceId := w; runtimeTargetId := t;
     machineId := as_string (field candidate "machineId"); sourceRelayId := source;
     targetRelayId := as_string (field candidate "targetRelayId"); direction := d;
     payload := text; issuedAtMs := as_number (field candidate "issuedAtMs");
     signature := as_string (field candidate "signature") |}.

(** The tests that follow the bookkeeping of [sinceId]. *)
Definition accept_known (now n : Z) (candidate : record) (st : Freshness.State) :
    outcome * Freshness.State :=
  if is_str (field candidate "sourceRelayId") (relayId cfg) then (Skip, st) else
  match as_string (field candidate "workspaceId"), as_string (field candidate "runtimeTargetId"),
        as_string (field candidate "sourceRelayId"), as_string (field candidate "payload") with
  | Some w, Some t, Some source, Some text =>
      if negb (nonblank t) then (Skip, st)
      else if for_other_relay cfg (as_string (field candidate "targetRelayId")) then (Skip, st)
      else if (maxFrameBytes cfg <? byteLength text)%Z then
        (Count "relay_bus_pull_frame_too_large_total", st)
      else
        match parse_direction (field candidate "direction") with
        | None => (Skip, st)
        | Some d =>
            match busHmacKey cfg with
            | None => (Accept (frame_of n candidate w t source text d), st)
            | Some key =>
                match check_signature key now candidate w t source text d st with
                | (Some metric, st') => (Count metric, st')
                | (None, st') => (Accept (frame_of n candidate w t source text d), st')
                end
            end
        end
  | _, _, _, _ => (Skip, st)
  end.

(** One turn of the loop of [pull]. *)
Definition accept_one (now : Z) (candidate : record) (st : State) : outcome * State :=
  match as_int (field candidate "id") with
  | Some n =>
      if (n <=? 0)%Z then (Skip, st) else
      let since := if (sinceId st <? n)%Z then n else sinceId st in
      let '(o, f) := accept_known now n candidate (fresh st) in
      (o, {| sinceId := since; fresh := f |})
  | None => (Skip, st)
  end.

(** The loop: the accepted frames, the metrics of the rejected ones, and whether it
    reached the end: reading a property of [null] throws. *)
Fixpoint pull_loop (now : Z) (framesRaw : list json) (st : State) :
    list RelayBusFrame * list string * State * bool :=
  match framesRaw with
  | [] => ([], [], st, true)
  | JNull :: _ => ([], [], st, false)
  | v :: rest =>
      let candidate := match v with JObj c => c | _ => [] end in
      let '(o, st1) := accept_one now candidate st in
      let '(frames, metrics, st2, finished) := pull_loop now rest st1 in
      match o with
      | Skip => (frames, metrics, st2, finished)
      | Count m => (frames, m :: metrics, st2, finished)
      | Accept f => (f :: frames, metrics, st2, finished)
      end
  end.

(** The body of the request of [pull]. *)
Definition pull_request (enabled : bool) (busPullLimit busPullWaitMs : Z) (st : State) : option record :=
  if enabled then
    Some [("relayId", JStr (relayId cfg)); ("sinceId", JNum (num_of_Z (sinceId st)));
          ("limit", JNum (num_of_Z busPullLimit));
          ("waitMs", JNum (num_of_Z (Z.min 2000 (Z.max 0 busPullWaitMs))))]
  else None.

Definition framesRaw (body : json) : list json :=
  match Validate.prop body "frames" with Some (JArr l) => l | _ => [] end.

(** [pull] after the server's answer: [None] when the call failed. *)
Definition pull (now : Z) (answer : option (Z * json)) (st : State) :
    list RelayBusFrame * list string * State :=
  match answer with
  | None => ([], ["relay_bus_pull_failed_total"], st)
  | Some (status, body) =>
      if (status <? 200)%Z || (300 <=? status)%Z ||
         negb (match Validate.prop body "ok" with Some (JBool true) => true | _ => false end)
      then ([], ["relay_bus_pull_failed_total"], st)
      else
        let '(frames, metrics, st', finished) := pull_loop now (framesRaw body) st in
        if finished then
          (frames, metrics ++ (if bool_decide (frames = []) then [] else ["relay_bus_pull_ok_total"]), st')
        else ([], metrics ++ ["relay_bus_pull_failed_total"], st')
  end.

(** [publish], up to the call of the server: refused, with its metrics, or the
    request's body. *)
Definition publish (enabled : bool) (now : Z) (w : string) (t machine : option string)
    (d : Direction) (text : string) (target : option string) : list string + record :=
  if negb enabled then inl [] else
  match t with
  | None => inl ["relay_bus_publish_failed_total"]
  | Some t =>
      if negb (truthy_str t) || negb (nonblank t) then inl ["relay_bus_publish_failed_total"]
      else
        let signed := {| Signing.workspaceId := w; Signing.runtimeTargetId := Some t;
                         Signing.machineId := machine; Signing.sourceRelayId := relayId cfg;
                         Signing.targetRelayId := target; Signing.direction := d;
                         Signing.payload := text; Signing.issuedAtMs := now |} in
        inr (defined_fields
          [("workspaceId", Some (JStr w)); ("runtimeTargetId", Some (JStr t));
           ("machineId", JStr <$> machine); ("sourceRelayId", Some (JStr (relayId cfg)));
           ("targetRelayId", Some (string_or_null target));
           ("direction", Some (JStr (direction_name d))); ("payload", Some (JStr text));
           ("issuedAtMs", (λ _, JNum (num_of_Z now)) <$> busHmacKey cfg);
           ("signature", (λ key, JStr (Signing.signBusFrame hmac signed key)) <$> busHmacKey cfg)])
  end.

Definition publishClientToDaemon enabled now w t machine text (target : option string) :=
  publish enabled now w t machine client_to_daemon text (Some (coalesce target "")).
Definition publishDaemonToClients enabled now w t machine text (target : option string) :=
  publish enabled now w t machine daemon_to_clients text target.

(** [publish] after the server's answer: [None] when the call failed. *)
Definition published (answer : option (Z * json)) : bool * string :=
  match answer with
  | Some (status, body) =>
      if (200 <=? status)%Z && (status <? 300)%Z &&
         match Validate.prop body "ok" with Some (JBool true) => true | _ => false end
      then (true, "relay_bus_publish_ok_total") else (false, "relay_bus_publish_failed_total")
  | None => (false, "relay_bus_publish_failed_total")
  end.

Lemma check_signature_receives key now n c w t source text d st m st' :
  check_signature key now c w t source text d st = (m, st') →
  receives hmac cfg key now st
    (match m with Some metric => Count metric | None => Accept (frame_of n c w t source text d) end) st'.
Proof.
  unfold check_signature.
  destruct (as_int (field c "issuedAtMs")) as [issued|] eqn:Ei; [|intros; simplify_eq; constructor].
  destruct (busSignatureMaxSkewMs cfg <? _)%Z eqn:Esk; [intros; simplify_eq; constructor|].
  split_bools. cbv zeta.
  destruct (Freshness.replayed _ _ _ _ _) eqn:Er; [intros; simplify_eq; constructor|].
  destruct (field c "signature") as [[]|] eqn:Esig; rewrite ?Esig in Er; simpl in Er; try (intros; simplify_eq; constructor).
  destruct (nonblank s); simpl; [|intros; simplify_eq; constructor].
  destruct (Signing.verifyBusFrameSignature _ _ _ _) eqn:Ev; simpl; intros; simplify_eq; [|constructor].
  apply Upgrade.secureCompare_eq in Ev. apply (receives_accept _ _ _ _ _ _ issued).
  assert (s = Signing.signBusFrame hmac
    (signed_fields (frame_of n c w t source text d) issued) key) as Hs.
  { rewrite <-Ev. unfold signed_fields, frame_of, Signing.signBusFrame, Signing.busSignatureBase. simpl.
    by destruct (as_string (field c "machineId")) as [[|? ?]|]. }
  split; unfold issued_of, fkey_of, skey_of; rewrite <-?Hs; unfold frame_of; simpl;
    rewrite ?Esig; try done.
  unfold as_int in Ei. by destruct (field c "issuedAtMs") as [[]|].
Qed.

Lemma accept_known_receives key now n c st o st' :
  busHmacKey cfg = Some key → accept_known now n c st = (o, st') → receives hmac cfg key now st o st'.
Proof.
  intros Hkey. unfold accept_known. rewrite Hkey.
  repeat (case_match; try (intros; simplify_eq; constructor));
    intros; simplify_eq; by eapply (check_signature_receives _ _ n) in H8.
Qed.

Lemma accept_known_ok now n c st f st' :
  accept_known now n c st = (Accept f, st') →
  sourceRelayId f ≠ relayId cfg ∧ nonblank (runtimeTargetId f) = true ∧
  for_other_relay cfg (targetRelayId f) = false ∧ (byteLength (payload f) ≤ maxFrameBytes cfg)%Z.
Proof.
  unfold accept_known. intros E.
  repeat (case_match; try (by simplify_eq)); simplify_eq; split_bools;
    (split_and!; [|done..]); simpl;
    (destruct (field c "sourceRelayId") as [[]|]; simplify_eq/=; by apply String.eqb_neq).
Qed.

Lemma accept_one_receives key now c st o st' :
  busHmacKey cfg = Some key → accept_one now c st = (o, st') →
  receives hmac cfg key now (fresh st) o (fresh st').
Proof.
  intros Hkey. unfold accept_one.
  destruct (as_int _) as [n|]; [|intros; simplify_eq; constructor].
  destruct (n <=? 0)%Z; [intros; simplify_eq; constructor|]. cbv zeta.
  destruct (accept_known _ _ _ _) as [o1 f1] eqn:E. intros; simplify_eq/=.
  by eapply accept_known_receives.
Qed.

Lemma pull_loop_fresh key now raws st frames ms st' fin acc :
  busHmacKey cfg = Some key → pull_loop now raws st = (frames, ms, st', fin) →
  covers acc (fresh st) →
  (Freshness.seen_size (fresh st) + Z.of_nat (length raws) ≤
    Freshness.seen_cap (busFreshnessTrackMax cfg))%Z →
  fresh_after acc frames ∧ covers (reverse frames ++ acc) (fresh st') ∧
  (Freshness.seen_size (fresh st') ≤ Freshness.seen_size (fresh st) + Z.of_nat (length raws))%Z.
Proof.
  intros Hkey. revert st frames ms st' fin acc.
  induction raws as [|v raws IH]; intros st frames ms st' fin acc E Hcov Hsize; simpl in *.
  { simplify_eq. split_and!; [constructor|done|lia]. }
  assert (v = JNull ∨ v ≠ JNull) as [->|Hv] by (destruct v; auto); [simplify_eq; split_and!; [constructor|done|lia]|].
  set (candidate := match v with JObj c => c | _ => [] end) in *.
  destruct (accept_one now candidate st) as [o st1] eqn:E1.
  destruct (pull_loop now raws st1) as [[[fs m2] st2] fin2] eqn:E2.
  assert (match o with
          | Skip => (fs, m2, st2, fin2) | Count m => (fs, m :: m2, st2, fin2)
          | Accept f => (f :: fs, m2, st2, fin2) end = (frames, ms, st', fin)) as Eo
    by (destruct v; done).
  apply (accept_one_receives key) in E1; [|done].
  destruct (receives_covers _ _ _ _ _ _ _ _ E1 Hcov) as [Hs1 Hc1]; [lia|].
  destruct o as [|m|f]; simplify_eq.
  - edestruct IH as (? & ? & ?); [done..|lia|]. split_and!; [done..|lia].
  - edestruct IH as (? & ? & ?); [done..|lia|]. split_and!; [done..|lia].
  - destruct Hc1 as [Hn Hc1]. edestruct IH as (? & Hc & ?); [done..|lia|].
    split_and!; [by constructor|by rewrite reverse_cons, <-(assoc_L (++))|lia].
Qed.

Lemma accept_one_sinceId now c st o st' :
  accept_one now c st = (o, st') → (sinceId st ≤ sinceId st')%Z.
Proof.
  unfold accept_one. destruct (as_int _) as [n|]; [|intros; by simplify_eq].
  destruct (n <=? 0)%Z; [intros; by simplify_eq|]. cbv zeta.
  destruct (accept_known _ _ _ _) as [o1 f1]. intros; simplify_eq/=.
  destruct (sinceId st <? n)%Z eqn:E; split_bools; lia.
Qed.
End Pull.
End Bus.

(** ** redis-backplane.ts *)

Module Redis.
Section Redis.
Variable hmac : string → string → string.
Variable cfg : BusConfig.

Definition string_or_undefined (v : option json) : bool := is_undefined v || is_string v.
Definition number_or_undefined (v : option json) : bool := is_undefined v || is_number v.

Definition isRedisBusEnvelope (value : json) : bool :=
  match value with
  | JObj c =>
      is_string (field c "workspaceId") && is_string (field c "runtimeTargetId") &&
      is_nonblank (field c "runtimeTargetId") && string_or_undefined (field c "machineId") &&
      is_string (field c "sourceRelayId") && is_string (field c "payload") &&
      match field c "targetRelayId" with Some JNull | Some (JStr _) => true | _ => false end &&
      bool_decide (is_Some (parse_direction (field c "direction"))) &&
      number_or_undefined (field c "issuedAtMs") && string_or_undefined (field c "signature")
  | _ => false
  end.

Definition parseRedisBusEnvelope (raw : string) : option record :=
  match JSON_parse raw with
  | Some (JObj c) => if isRedisBusEnvelope (JObj c) then Some c else None
  | _ => None
  end.

Definition queueKey (relay : string) : string := redisKeyPrefix cfg +:+ ":queue:" +:+ relay.

(** The commands of [publish]: RPUSH of the serialized envelope on the queue, and
    LTRIM to the newest [trim] entries. *)
Record Push := { queue : string; envelope : record; trim_to : option Z }.

Definition publish (now : Z) (w : string) (t machine : option string) (d : Direction)
    (text target : string) : list string + Push :=
  match t with
  | None => inl ["relay_bus_publish_failed_total"]
  | Some t =>
      if negb (truthy_str t) || negb (nonblank t) then inl ["relay_bus_publish_failed_total"]
      else
        let signed := {| Signing.workspaceId := w; Signing.runtimeTargetId := Some t;
                         Signing.machineId := machine; Signing.sourceRelayId := relayId cfg;
                         Signing.targetRelayId := Some target; Signing.direction := d;
                         Signing.payload := text; Signing.issuedAtMs := now |} in
        inr {| queue := queueKey target;
               envelope := defined_fields
                 [("workspaceId", Some (JStr w)); ("runtimeTargetId", Some (JStr t));
                  ("machineId", JStr <$> machine); ("sourceRelayId", Some (JStr (relayId cfg)));
                  ("targetRelayId", Some (JStr target));
                  ("direction", Some (JStr (direction_name d))); ("payload", Some (JStr text));
                  ("issuedAtMs", Some (JNum (num_of_Z now)));
                  ("signature", (λ key, JStr (Signing.signBusFrame hmac signed key)) <$> busHmacKey cfg)];
               trim_to := if (0 <? redisQueueMax cfg)%Z then Some (redisQueueMax cfg) else None |}
  end.

Definition publishClientToDaemon now w t machine text (target : option string) :=
  publish now w t machine client_to_daemon text (coalesce target "").

(** A response needs the relay that it is for. *)
Definition publishDaemonToClients now w t machine text (target : option string) : list string + Push :=
  match target with
  | Some relay =>
      if truthy_str relay then publish now w t machine daemon_to_clients text relay
      else inl ["relay_bus_publish_failed_total"]
  | None => inl ["relay_bus_publish_failed_total"]
  end.

(** [publish] after its commands. *)
Definition published (ok : bool) : bool * string :=
  if ok then (true, "relay_bus_publish_ok_total") else (false, "relay_bus_publish_failed_total").

(** The timeout of BLPOP, in seconds. *)
Definition pull_timeout_seconds (busPullWaitMs : Z) : Z :=
  if (busPullWaitMs <=? 0)%Z then 1 else Z.max 1 ((busPullWaitMs + 999) / 1000).

(** The signature's tests, and the freshness maps after them. *)
Definition check_signature (key : string) (now : Z) (c : record) (w t source text : string)
    (d : Direction) (st : Freshness.State) : option string * Freshness.State :=
  match as_int (field c "issuedAtMs"), as_string (field c "signature") with
  | Some issued, Some signature =>
      if negb (nonblank signature) then (Some "relay_bus_pull_invalid_signature_total", st)
      else if (busSignatureMaxSkewMs cfg <? Z.abs (now - issued))%Z then
        (Some "relay_bus_pull_stale_signature_total", st)
      else
        let fkey := Freshness.freshness_key source w t in
        let skey := Freshness.seen_key source w t signature in
        if Freshness.replayed fkey skey (Some signature) issued st then
          (Some "relay_bus_pull_replayed_signature_total", st)
        else if negb (Signing.verifyBusFrameSignature hmac
          {| Signing.workspaceId := w; Signing.runtimeTargetId := Some t;
             Signing.machineId := as_string (field c "machineId");
             Signing.sourceRelayId := source;
             Signing.targetRelayId := as_string (field c "targetRelayId");
             Signing.direction := d; Signing.payload := text;
             Signing.issuedAtMs := issued |} key signature) then
          (Some "relay_bus_pull_invalid_signature_total", st)
        else (None, Freshness.remember (busFreshnessTrackMax cfg) fkey skey signature issued st)
  | _, _ => (Some "relay_bus_pull_invalid_signature_total", st)
  end.

Definition frame_of (n : Z) (c : record) (w t source text : string) (d : Direction) : RelayBusFrame :=
  {| id := n; workspaceId := w; runtimeTargetId := t; machineId := as_string (field c "machineId");
     sourceRelayId := source; targetRelayId := as_string (field c "targetRelayId");
     direction := d; payload := text; issuedAtMs := as_number (field c "issuedAtMs");
     signature := as_string (field c "signature") |}.

(** One turn of the loop of [pullFrames]; [n] is [now + accepted.length]. *)
Definition accept_one (now n : Z) (raw : string) (st : Freshness.State) : outcome * Freshness.State :=
  match parseRedisBusEnvelope raw with
  | None => (Skip, st)
  | Some c =>
      let str key := default "" (as_string (field c key)) in
      let '(w, t, source, text) :=
        (str "workspaceId", str "runtimeTargetId", str "sourceRelayId", str "payload") in
      if (maxFrameBytes cfg <? byteLength text)%Z then
        (Count "relay_bus_pull_frame_too_large_total", st)
      else if for_other_relay cfg (as_string (field c "targetRelayId")) then (Skip, st)
      else
        match parse_direction (field c "direction") with
        | None => (Skip, st)
        | Some d =>
            match busHmacKey cfg with
            | None => (Accept (frame_of n c w t source text d), st)
            | Some key =>
                match check_signature key now c w t source text d st with
                | (Some metric, st') => (Count metric, st')
                | (None, st') => (Accept (frame_of n c w t source text d), st')
                end
            end
        end
  end.

Fixpoint pull_loop (now n : Z) (entries : list string) (st : Freshness.State) :
    list RelayBusFrame * list string * Freshness.State :=
  match entries with
  | [] => ([], [], st)
  | raw :: rest =>
      let '(o, st1) := accept_one now n raw st in
      let n' := match o with Accept _ => (n + 1)%Z | _ => n end in
      let '(frames, metrics, st2) := pull_loop now n' rest st1 in
      match o with
      | Skip => (frames, metrics, st2)
      | Count m => (frames, m :: metrics, st2)
      | Accept f => (f :: frames, metrics, st2)
      end
  end.

(** [pullFrames] after BLPOP and LPOP: no entry, the entries, or a failed call. *)
Definition pullFrames (now : Z) (answer : option (list string)) (st : Freshness.State) :
    list RelayBusFrame * list string * Freshness.State :=
  match answer with
  | None => ([], ["relay_bus_pull_failed_total"], st)
  | Some [] => ([], [], st)
  | Some entries =>
      let '(frames, metrics, st') := pull_loop now now entries st in
      (frames, metrics ++ ["relay_bus_pull_ok_total"], st')
  end.

Lemma redis_check_signature_receives key now n c w t source text d st m st' :
  check_signature key now c w t source text d st = (m, st') →
  receives hmac cfg key now st
    (match m with Some metric => Count metric | None => Accept (frame_of n c w t source text d) end) st'.
Proof.
  unfold check_signature.
  destruct (as_int (field c "issuedAtMs")) as [issued|] eqn:Ei; [|intros; simplify_eq; constructor].
  destruct (as_string (field c "signature")) as [s|] eqn:Esig; [|intros; simplify_eq; constructor].
  destruct (nonblank s); simpl; [|intros; simplify_eq; constructor].
  destruct (busSignatureMaxSkewMs cfg <? _)%Z eqn:Esk; [intros; simplify_eq; constructor|].
  split_bools. cbv zeta.
  destruct (Freshness.replayed _ _ _ _ _) eqn:Er; [intros; simplify_eq; constructor|].
  destruct (Signing.verifyBusFrameSignature _ _ _ _) eqn:Ev; simpl; intros; simplify_eq; [|constructor].
  apply Upgrade.secureCompare_eq in Ev. apply (receives_accept _ _ _ _ _ _ issued).
  split; unfold issued_of, fkey_of, skey_of, signed_fields, frame_of; simpl; rewrite ?Esig, ?Ev; try done.
  unfold as_int in Ei. by destruct (field c "issuedAtMs") as [[]|].
Qed.

Lemma redis_accept_one_receives key now n raw st o st' :
  busHmacKey cfg = Some key → accept_one now n raw st = (o, st') → receives hmac cfg key now st o st'.
Proof.
  intros Hkey. unfold accept_one. rewrite Hkey.
  destruct (parseRedisBusEnvelope raw) as [c|]; [|intros; simplify_eq; constructor].
  cbv zeta beta iota. destruct (_ <? _)%Z; [intros; simplify_eq; constructor|].
  destruct (for_other_relay _ _); [intros; simplify_eq; constructor|].
  destruct (parse_direction _) as [d|]; [|intros; simplify_eq; constructor].
  destruct (check_signature _ _ _ _ _ _ _ _ _) as [m st1] eqn:E.
  apply (redis_check_signature_receives _ _ n) in E. by destruct m; intros; simplify_eq.
Qed.

Lemma accept_one_ok now n raw st f st' :
  accept_one now n raw st = (Accept f, st') →
  nonblank (runtimeTargetId f) = true ∧
  for_other_relay cfg (targetRelayId f) = false ∧ (byteLength (payload f) ≤ maxFrameBytes cfg)%Z.
Proof.
  unfold accept_one. destruct (parseRedisBusEnvelope raw) as [c|] eqn:Ec; [|done].
  assert (is_nonblank (field c "runtimeTargetId") = true) as Hn.
  { unfold parseRedisBusEnvelope in Ec. destruct (JSON_parse raw) as [[]|]; try done.
    case_match eqn:Eb; [|done]. simplify_eq. unfold isRedisBusEnvelope in Eb. split_bools. done. }
  cbv zeta beta iota. intros E.
  repeat (case_match; try (by simplify_eq)); simplify_eq; split_bools;
    (split_and!; [|done..]); unfold is_nonblank in Hn; simpl;
    by destruct (field c "runtimeTargetId") as [[]|].
Qed.

Lemma redis_pull_loop_fresh key now n raws st frames ms st' acc :
  busHmacKey cfg = Some key → pull_loop now n raws st = (frames, ms, st') → covers acc st →
  (Freshness.seen_size st + Z.of_nat (length raws) ≤ Freshness.seen_cap (busFreshnessTrackMax cfg))%Z →
  fresh_after acc frames ∧ covers (reverse frames ++ acc) st' ∧
  (Freshness.seen_size st' ≤ Freshness.seen_size st + Z.of_nat (length raws))%Z.
Proof.
  intros Hkey. revert n st frames ms st' acc.
  induction raws as [|raw raws IH]; intros n st frames ms st' acc E Hcov Hsize; simpl in *.
  { simplify_eq. split_and!; [constructor|done|lia]. }
  destruct (accept_one now n raw st) as [o st1] eqn:E1.
  destruct (pull_loop now _ raws st1) as [[fs m2] st2] eqn:E2.
  apply (redis_accept_one_receives key) in E1; [|done].
  destruct (receives_covers _ _ _ _ _ _ _ _ E1 Hcov) as [Hs1 Hc1]; [lia|].
  destruct o as [|m|f]; simplify_eq.
  - edestruct IH as (? & ? & ?); [done..|lia|]. split_and!; [done..|lia].
  - edestruct IH as (? & ? & ?); [done..|lia|]. split_and!; [done..|lia].
  - destruct Hc1 as [Hn Hc1]. edestruct IH as (? & Hc & ?); [done..|lia|].
    split_and!; [by constructor|by rewrite reverse_cons, <-(assoc_L (++))|lia].
Qed.
End Redis.
End Redis.

(** ** What the relay bus promises

    The properties of bus-signing.ts, bus.ts and redis-backplane.ts: what a signature
    binds, what an accepted frame is, that replays are rejected over any sequence of
    pulls, and that a published frame is accepted by the relay it is for. *)
(** ** Properties *)

(** The text that is signed determines every signed field of a frame, when the
    header fields have no line break (an absent target or machine is signed as an
    empty one): two frames with one signature are the same frame, or the two texts
    that were signed are a collision of the MAC. *)
Theorem bus_signature_binds (hmac : string → string → string) key f g :
  Signing.plain f → Signing.plain g →
  Signing.signBusFrame hmac f key = Signing.signBusFrame hmac g key →
  (Signing.workspaceId f = Signing.workspaceId g ∧
   default "" (Signing.runtimeTargetId f) = default "" (Signing.runtimeTargetId g) ∧
   default "" (Signing.machineId f) = default "" (Signing.machineId g) ∧
   Signing.sourceRelayId f = Signing.sourceRelayId g ∧
   default "" (Signing.targetRelayId f) = default "" (Signing.targetRelayId g) ∧
   Signing.direction f = Signing.direction g ∧ Signing.issuedAtMs f = Signing.issuedAtMs g ∧
   Signing.payload f = Signing.payload g) ∨
  (Signing.busSignatureBase f ≠ Signing.busSignatureBase g ∧
   hmac key (Signing.busSignatureBase f) = hmac key (Signing.busSignatureBase g)).
Proof.
  intros Hf Hg E. destruct (decide (Signing.busSignatureBase f = Signing.busSignatureBase g)) as [Eb|];
    [left; by apply Signing.busSignatureBase_inj|by right].
Qed.

Definition sample_fields : Signing.BusSignatureFields :=
  {| Signing.workspaceId := "wrk"; Signing.runtimeTargetId := Some "rt"; Signing.machineId := None;
     Signing.sourceRelayId := "relay-b"; Signing.targetRelayId := Some "relay-a";
     Signing.direction := client_to_daemon; Signing.payload := "text"; Signing.issuedAtMs := 1000 |}.

(** A MAC for the witnesses: the text itself. *)
Definition sample_hmac (key text : string) : string := text.

Lemma sample_fields_plain : Signing.plain sample_fields.
Proof. unfold Signing.plain. repeat (apply List.Forall_cons; [reflexivity|]). apply List.Forall_nil. Qed.

(** An absent machine and an empty one are signed alike. *)
Definition sample_fields' : Signing.BusSignatureFields :=
  {| Signing.workspaceId := "wrk"; Signing.runtimeTargetId := Some "rt"; Signing.machineId := Some "";
     Signing.sourceRelayId := "relay-b"; Signing.targetRelayId := Some "relay-a";
     Signing.direction := client_to_daemon; Signing.payload := "text"; Signing.issuedAtMs := 1000 |}.

Lemma bus_signature_binds_witness :
  Signing.signBusFrame sample_hmac sample_fields "k" = Signing.signBusFrame sample_hmac sample_fields' "k" ∧
  Signing.payload sample_fields = Signing.payload sample_fields'.
Proof.
  split; [reflexivity|].
  destruct (bus_signature_binds sample_hmac "k" sample_fields sample_fields') as [H|[Hne _]].
  - exact sample_fields_plain.
  - exact sample_fields_plain.
  - reflexivity.
  - exact (proj2 (proj2 (proj2 (proj2 (proj2 (proj2 (proj2 H))))))).
  - destruct (Hne eq_refl).
Defined.

(** The tests of a frame that do not use the signature. *)
Definition addressed (cfg : BusConfig) (f : RelayBusFrame) : Prop :=
  nonblank (runtimeTargetId f) = true ∧ for_other_relay cfg (targetRelayId f) = false ∧
  (byteLength (payload f) ≤ maxFrameBytes cfg)%Z.

Definition sample_bus_cfg : BusConfig :=
  {| relayId := "relay-a"; maxFrameBytes := 1000; busHmacKey := Some "k";
     busSignatureMaxSkewMs := 5000; busFreshnessTrackMax := 10;
     redisKeyPrefix := "vp"; redisQueueMax := 100 |}.

Definition sample_ToString (v : option json) : string := "".

(** The integer [n] as a JSON number. *)
Definition jint (n : positive) : json := JNum (num_of_Z (Zpos n)).

Definition sample_signature : string := Signing.signBusFrame sample_hmac sample_fields "k".

Definition sample_envelope : record :=
  [("id", jint 7); ("workspaceId", JStr "wrk"); ("runtimeTargetId", JStr "rt");
   ("sourceRelayId", JStr "relay-b"); ("targetRelayId", JStr "relay-a");
   ("direction", JStr "client_to_daemon"); ("payload", JStr "text");
   ("issuedAtMs", jint 1000); ("signature", JStr sample_signature)].

Definition sample_since : Bus.State := {| Bus.sinceId := 0; Bus.fresh := Freshness.empty |}.

(** C40: with a key configured, a frame that [pull] accepts is addressed to this relay or
    to any, not oversized, from another relay, signed with the key for exactly its
    content, recent, and not replayed; the position in the server's log never goes
    back. *)
Theorem bus_accepts_authentic hmac ToString cfg key now c st f st' :
  busHmacKey cfg = Some key →
  Bus.accept_one hmac ToString cfg now c st = (Accept f, st') →
  addressed cfg f ∧ sourceRelayId f ≠ relayId cfg ∧
  (∃ issued, verified hmac cfg key now f issued (Bus.fresh st) (Bus.fresh st')) ∧
  (Bus.sinceId st ≤ Bus.sinceId st')%Z.
Proof.
  intros Hkey E. pose proof (Bus.accept_one_receives _ _ _ _ _ _ _ _ _ Hkey E) as Hr.
  pose proof (Bus.accept_one_sinceId _ _ _ _ _ _ _ _ E) as Hsince. unfold Bus.accept_one in E.
  destruct (as_int (field c "id")) as [n|]; [|done]. destruct (n <=? 0)%Z; [done|]. cbv zeta in E.
  destruct (Bus.accept_known _ _ _ _ _ _ _) as [o fr] eqn:Ek. simplify_eq.
  apply Bus.accept_known_ok in Ek as (? & ? & ? & ?). inversion Hr; subst. unfold addressed. eauto 10.
Qed.

Lemma bus_accepts_authentic_witness : ∃ f st',
  Bus.accept_one sample_hmac sample_ToString sample_bus_cfg 1200 sample_envelope sample_since = (Accept f, st') ∧
  addressed sample_bus_cfg f.
Proof.
  eexists _, _. split; [vm_compute; reflexivity|].
  refine (proj1 (bus_accepts_authentic sample_hmac sample_ToString sample_bus_cfg "k" 1200
    sample_envelope sample_since _ _ _ _)); vm_compute; reflexivity.
Defined.

(** The entries a server's answer has. *)
Definition received (a : Z * option (Z * json)) : nat :=
  match a.2 with Some (_, body) => length (Bus.framesRaw body) | None => 0%nat end.

Lemma pulls_fresh hmac ToString cfg key answers st acc :
  busHmacKey cfg = Some key → covers acc (Bus.fresh st) →
  (Freshness.seen_size (Bus.fresh st) + Z.of_nat (sum_list_with received answers) ≤
    Freshness.seen_cap (busFreshnessTrackMax cfg))%Z →
  fresh_after acc (pulls (Bus.pull hmac ToString cfg) answers st).1.
Proof.
  intros Hkey. revert st acc. induction answers as [|[now a] rest IH]; intros st acc Hcov Hsize; simpl.
  { constructor. }
  destruct (Bus.pull hmac ToString cfg now a st) as [[fs ms] st1] eqn:E.
  destruct (pulls _ rest st1) as [more st2] eqn:Em. simpl in *.
  assert (fresh_after acc fs ∧ ∃ acc', covers acc' (Bus.fresh st1) ∧ reverse fs ++ acc ⊆ acc' ∧
    (Freshness.seen_size (Bus.fresh st1) ≤
      Freshness.seen_size (Bus.fresh st) + Z.of_nat (received (now, a)))%Z) as (Hf & acc' & Hc & Hl & Hs).
  { unfold Bus.pull, received in *. simpl in *.
    destruct a as [[status body]|]; [|simplify_eq; split; [constructor|exists acc; split_and!; [done..|lia]]].
    case_match; [simplify_eq; split; [constructor|exists acc; split_and!; [done..|lia]]|].
    destruct (Bus.pull_loop _ _ _ _ _ _) as [[[fs' ms'] st'] fin] eqn:El.
    eapply Bus.pull_loop_fresh in El as (Hf & Hc & Hs); [|done..|lia].
    destruct fin; simplify_eq; [by eauto 10|]. split; [constructor|].
    exists (reverse fs' ++ acc). split_and!; [done| |done]. by apply list_subseteq_app_r. }
  apply fresh_after_app; [done|]. apply (fresh_after_weaken _ acc'); [done|].
  replace more with (pulls (Bus.pull hmac ToString cfg) rest st1).1 by (by rewrite Em).
  apply IH; [done|lia].
Qed.

(** C39: however many times [pull] runs, the frames it accepts are new: a frame with the
    source, workspace, target and signature of an earlier one has a later time, as long
    as the relay has received fewer frames than the map of seen frames holds. *)
Theorem bus_no_replay hmac ToString cfg key answers :
  busHmacKey cfg = Some key →
  (Z.of_nat (sum_list_with received answers) ≤ Freshness.seen_cap (busFreshnessTrackMax cfg))%Z →
  fresh_after [] (pulls (Bus.pull hmac ToString cfg) answers sample_since).1.
Proof.
  intros Hkey Hsize. apply (pulls_fresh _ _ _ key); [done| |exact Hsize].
  intros f Hf. by apply elem_of_nil in Hf.
Qed.

(** The server repeats a frame: only its first appearance is accepted. *)
Definition sample_answer : Z * option (Z * json) :=
  (1200, Some (200, JObj [("ok", JBool true); ("frames", JArr [JObj sample_envelope; JObj sample_envelope])]))%Z.

Lemma bus_no_replay_witness :
  length (pulls (Bus.pull sample_hmac sample_ToString sample_bus_cfg) [sample_answer; sample_answer]
    sample_since).1 = 1%nat ∧
  fresh_after [] (pulls (Bus.pull sample_hmac sample_ToString sample_bus_cfg)
    [sample_answer; sample_answer] sample_since).1.
Proof.
  split; [vm_compute; reflexivity|].
  apply (bus_no_replay sample_hmac sample_ToString sample_bus_cfg "k"); [reflexivity|].
  vm_compute. discriminate.
Defined.

(** The record [c] has the fields of a published frame. *)
Record carries (c : record) (f : Signing.BusSignatureFields) (t signature : string) : Prop := {
  ca_workspace : field c "workspaceId" = Some (JStr (Signing.workspaceId f));
  ca_target : field c "runtimeTargetId" = Some (JStr t);
  ca_machine : field c "machineId" = JStr <$> Signing.machineId f;
  ca_source : field c "sourceRelayId" = Some (JStr (Signing.sourceRelayId f));
  ca_relay : field c "targetRelayId" = Some (string_or_null (Signing.targetRelayId f));
  ca_direction : field c "direction" = Some (JStr (direction_name (Signing.direction f)));
  ca_payload : field c "payload" = Some (JStr (Signing.payload f));
  ca_issued : field c "issuedAtMs" = Some (JNum (num_of_Z (Signing.issuedAtMs f)));
  ca_signature : field c "signature" = Some (JStr signature)
}.

Lemma as_string_or_null o : as_string (Some (string_or_null o)) = o.
Proof. by destruct o. Qed.
Lemma as_string_machine (m : option string) : as_string (JStr <$> m) = m.
Proof. by destruct m. Qed.
Lemma parse_direction_name d : parse_direction (Some (JStr (direction_name d))) = Some d.
Proof. by destruct d. Qed.

Lemma sign_machine hmac f key m :
  default "" (Signing.machineId f) = m →
  Signing.signBusFrame hmac
    {| Signing.workspaceId := Signing.workspaceId f; Signing.runtimeTargetId := Signing.runtimeTargetId f;
       Signing.machineId := if truthy_str m then Some m else None;
       Signing.sourceRelayId := Signing.sourceRelayId f; Signing.targetRelayId := Signing.targetRelayId f;
       Signing.direction := Signing.direction f; Signing.payload := Signing.payload f;
       Signing.issuedAtMs := Signing.issuedAtMs f |} key = Signing.signBusFrame hmac f key.
Proof.
  intros <-. unfold Signing.signBusFrame, Signing.busSignatureBase. simpl.
  by destruct (Signing.machineId f) as [[|? ?]|].
Qed.

Lemma accept_carried hmac ToString cfg key now' n c f t :
  busHmacKey cfg = Some key → carries c f t (Signing.signBusFrame hmac f key) →
  Signing.runtimeTargetId f = Some t → nonblank t = true →
  Signing.sourceRelayId f ≠ relayId cfg → for_other_relay cfg (Signing.targetRelayId f) = false →
  (byteLength (Signing.payload f) ≤ maxFrameBytes cfg)%Z →
  num_to_Z (num_of_Z (Signing.issuedAtMs f)) = Some (Signing.issuedAtMs f) →
  (Z.abs (now' - Signing.issuedAtMs f) ≤ busSignatureMaxSkewMs cfg)%Z →
  nonblank (Signing.signBusFrame hmac f key) = true →
  ∃ st', Bus.accept_known hmac ToString cfg now' n c Freshness.empty =
    (Accept (Bus.frame_of n c (Signing.workspaceId f) t (Signing.sourceRelayId f) (Signing.payload f)
               (Signing.direction f)), st').
Proof.
  intros Hkey [Hw Ht Hm Hs Hr Hd Hp Hi Hg] Htf Hnt Hne Hfor Hlen Hnow Hskew Hsig.
  unfold Bus.accept_known. rewrite Hs, Hw, Ht, Hp, Hr, Hd, Hkey, parse_direction_name, as_string_or_null, Hfor.
  unfold is_str. rewrite (proj2 (String.eqb_neq _ _)) by done. cbn [as_string]. rewrite Hnt. simpl.
  rewrite (proj2 (Z.ltb_ge _ _)) by done.
  unfold Bus.check_signature. rewrite Hi, Hg, Hm, Hr, as_string_or_null, as_string_machine. cbn [as_int].
  rewrite Hnow, (proj2 (Z.ltb_ge _ _)) by done. cbv zeta.
  replace (Freshness.replayed _ _ _ _ Freshness.empty) with false by done. simpl. rewrite Hsig. simpl.
  unfold Signing.verifyBusFrameSignature.
  pose proof (sign_machine hmac f key _ eq_refl) as E. rewrite Htf in E. rewrite E.
  rewrite (proj2 (Upgrade.secureCompare_eq _ _) eq_refl). simpl. eauto.
Qed.

Lemma frame_carried c f t sig n :
  carries c f t sig → num_to_Z (num_of_Z (Signing.issuedAtMs f)) = Some (Signing.issuedAtMs f) →
  let g := Bus.frame_of n c (Signing.workspaceId f) t (Signing.sourceRelayId f) (Signing.payload f)
             (Signing.direction f) in
  machineId g = Signing.machineId f ∧ targetRelayId g = Signing.targetRelayId f ∧
  issued_of g = Some (Signing.issuedAtMs f).
Proof.
  intros [_ _ Hm _ Hr _ _ Hi _] Hnow. cbv zeta. unfold Bus.frame_of, issued_of. cbn [machineId targetRelayId issuedAtMs].
  by rewrite Hm, Hr, Hi, as_string_or_null, as_string_machine.
Qed.

(** A frame that one relay publishes is accepted by the relay it is for: with the same
    key on both, the record that [publish] sends, read back with the number the server
    gave it, passes every test of [pull] while it is recent and not yet seen, and the
    accepted frame has the published fields. *)
Theorem bus_publish_accepted hmac ToString cfg_a cfg_b key now now' n num w t machine d text target body st :
  busHmacKey cfg_a = Some key → busHmacKey cfg_b = Some key → relayId cfg_a ≠ relayId cfg_b →
  for_other_relay cfg_b target = false → (byteLength text ≤ maxFrameBytes cfg_b)%Z →
  num_to_Z (num_of_Z now) = Some now → (Z.abs (now' - now) ≤ busSignatureMaxSkewMs cfg_b)%Z →
  num_to_Z num = Some n → (0 < n)%Z →
  nonblank (Signing.signBusFrame hmac
    {| Signing.workspaceId := w; Signing.runtimeTargetId := Some t; Signing.machineId := machine;
       Signing.sourceRelayId := relayId cfg_a; Signing.targetRelayId := target;
       Signing.direction := d; Signing.payload := text; Signing.issuedAtMs := now |} key) = true →
  Bus.publish hmac cfg_a true now w (Some t) machine d text target = inr body →
  Bus.fresh st = Freshness.empty →
  ∃ f st', Bus.accept_one hmac ToString cfg_b now' (("id", JNum num) :: body) st = (Accept f, st') ∧
    workspaceId f = w ∧ runtimeTargetId f = t ∧ machineId f = machine ∧ sourceRelayId f = relayId cfg_a ∧
    targetRelayId f = target ∧ direction f = d ∧ payload f = text ∧ issued_of f = Some now.
Proof.
  set (f := {| Signing.workspaceId := w |}). intros Ha Hb Hne Hfor Hlen Hnow Hskew Hnum Hpos Hsig Hpub Hst.
  unfold Bus.publish in Hpub.
  destruct (nonblank t) eqn:Et; [|by rewrite orb_true_r in Hpub]. rewrite orb_false_r, Ha in Hpub.
  destruct (negb (truthy_str t)); [done|]. cbn in Hpub. injection Hpub as <-.
  unfold Bus.accept_one. assert (∀ l, field (("id", JNum num) :: l) "id" = Some (JNum num)) as -> by done.
  cbn [as_int]. rewrite Hnum. rewrite (proj2 (Z.leb_gt n 0)) by lia. cbv zeta.
  set (c := ("id", JNum num) :: _).
  assert (carries c f t (Signing.signBusFrame hmac f key)) as Hc by (by split; destruct machine).
  rewrite Hst.
  destruct (accept_carried hmac ToString cfg_b key now' n c f t Hb Hc) as [st' ->]; [done..|].
  destruct (frame_carried c f t _ n Hc Hnow) as (? & ? & ?). eexists _, _. by split_and!.
Qed.

Definition sample_bus_cfg_b : BusConfig :=
  {| relayId := "relay-b"; maxFrameBytes := 1000; busHmacKey := Some "k";
     busSignatureMaxSkewMs := 5000; busFreshnessTrackMax := 10;
     redisKeyPrefix := "vp"; redisQueueMax := 100 |}.

Definition sample_published : record :=
  match Bus.publish sample_hmac sample_bus_cfg_b true 1000 "wrk" (Some "rt") (Some "m") client_to_daemon
          "text" (Some "relay-a") with inr body => body | inl _ => [] end.

Lemma bus_publish_accepted_witness : ∃ body f st',
  Bus.publish sample_hmac sample_bus_cfg_b true 1000 "wrk" (Some "rt") (Some "m") client_to_daemon "text"
    (Some "relay-a") = inr body ∧
  Bus.accept_one sample_hmac sample_ToString sample_bus_cfg 1200 (("id", jint 7) :: body) sample_since =
    (Accept f, st') ∧ payload f = "text".
Proof.
  destruct (bus_publish_accepted sample_hmac sample_ToString sample_bus_cfg_b sample_bus_cfg "k" 1000 1200 7
    (num_of_Z 7) "wrk" "rt" (Some "m") client_to_daemon "text" (Some "relay-a")
    sample_published sample_since) as (f & st' & H & _ & _ & _ & _ & _ & _ & Hp & _);
    [reflexivity|reflexivity|discriminate|reflexivity|vm_compute; discriminate|vm_compute; reflexivity|
     vm_compute; discriminate|vm_compute; reflexivity|reflexivity|vm_compute; reflexivity|
     vm_compute; reflexivity|reflexivity|].
  exists sample_published, f, st'. split; [reflexivity|]. split; [exact H|exact Hp].
Defined.

(** The same of the entries [pullFrames] pops from the queue of Redis, except that
    the frames of this relay itself are not left out. *)
Theorem redis_accepts_authentic hmac cfg key now n raw st f st' :
  busHmacKey cfg = Some key →
  Redis.accept_one hmac cfg now n raw st = (Accept f, st') →
  addressed cfg f ∧ ∃ issued, verified hmac cfg key now f issued st st'.
Proof.
  intros Hkey E. pose proof (Redis.redis_accept_one_receives _ _ _ _ _ _ _ _ _ Hkey E) as Hr.
  apply Redis.accept_one_ok in E as (? & ? & ?). inversion Hr; subst. unfold addressed. eauto 10.
Qed.

(** The text of [sample_envelope], with its signature's line breaks escaped. *)
Definition sample_raw : string :=
  quoted "{'workspaceId':'wrk','runtimeTargetId':'rt','sourceRelayId':'relay-b','targetRelayId':'relay-a','direction':'client_to_daemon','payload':'text','issuedAtMs':1000,'signature':'wrk\nrt\n\nrelay-b\nrelay-a\nclient_to_daemon\n1000\ntext'}".

Lemma redis_accepts_authentic_witness : ∃ f st',
  Redis.accept_one sample_hmac sample_bus_cfg 1200 1200 sample_raw Freshness.empty = (Accept f, st') ∧
  addressed sample_bus_cfg f.
Proof.
  eexists _, _. split; [vm_compute; reflexivity|].
  refine (proj1 (redis_accepts_authentic sample_hmac sample_bus_cfg "k" 1200 1200 sample_raw
    Freshness.empty _ _ _ _)); vm_compute; reflexivity.
Defined.

Definition popped (a : Z * option (list string)) : nat := match a.2 with Some l => length l | None => 0%nat end.

Lemma redis_pulls_fresh hmac cfg key answers st acc :
  busHmacKey cfg = Some key → covers acc st →
  (Freshness.seen_size st + Z.of_nat (sum_list_with popped answers) ≤
    Freshness.seen_cap (busFreshnessTrackMax cfg))%Z →
  fresh_after acc (pulls (Redis.pullFrames hmac cfg) answers st).1.
Proof.
  intros Hkey. revert st acc. induction answers as [|[now a] rest IH]; intros st acc Hcov Hsize; simpl.
  { constructor. }
  destruct (Redis.pullFrames hmac cfg now a st) as [[fs ms] st1] eqn:E.
  destruct (pulls _ rest st1) as [more st2] eqn:Em. simpl in *.
  assert (fresh_after acc fs ∧ covers (reverse fs ++ acc) st1 ∧
    (Freshness.seen_size st1 ≤ Freshness.seen_size st + Z.of_nat (popped (now, a)))%Z) as (Hf & Hc & Hs).
  { unfold Redis.pullFrames, popped in *. simpl in *.
    destruct a as [[|raw raws]|]; [by simplify_eq; split_and!; [constructor|done|lia]| |
      by simplify_eq; split_and!; [constructor|done|lia]].
    destruct (Redis.pull_loop _ _ _ _ _ _) as [[fs' ms'] st'] eqn:El. simplify_eq.
    eapply Redis.redis_pull_loop_fresh in El; [done..|simpl in *; lia]. }
  apply fresh_after_app; [done|].
  replace more with (pulls (Redis.pullFrames hmac cfg) rest st1).1 by (by rewrite Em).
  apply IH; [done|lia].
Qed.

(** However many times [pullFrames] runs, the entries it accepts are new. *)
Theorem redis_no_replay hmac cfg key answers :
  busHmacKey cfg = Some key →
  (Z.of_nat (sum_list_with popped answers) ≤ Freshness.seen_cap (busFreshnessTrackMax cfg))%Z →
  fresh_after [] (pulls (Redis.pullFrames hmac cfg) answers Freshness.empty).1.
Proof.
  intros Hkey Hsize. apply (redis_pulls_fresh _ _ key); [done| |exact Hsize].
  intros f Hf. by apply elem_of_nil in Hf.
Qed.

Lemma redis_no_replay_witness :
  length (pulls (Redis.pullFrames sample_hmac sample_bus_cfg) [(1200, Some [sample_raw; sample_raw])%Z]
    Freshness.empty).1 = 1%nat ∧
  fresh_after [] (pulls (Redis.pullFrames sample_hmac sample_bus_cfg) [(1200, Some [sample_raw; sample_raw])%Z]
    Freshness.empty).1.
Proof.
  split; [vm_compute; reflexivity|].
  apply (redis_no_replay sample_hmac sample_bus_cfg "k"); [reflexivity|]. vm_compute. discriminate.
Defined.
