(* ===== verification/Presence.v ===== *)
(** * Relay presence (services/relay/src/presence.ts, redis-backplane.ts, backplane.ts)

    Which relay holds the daemon of a workspace.  [Module Presence] models the client of
    the server's API, [Module RedisPresence] the keys of Redis, and [Module Backplane]
    the three backplanes that index.ts chooses from.  Both clients keep the same cache
    of answers, which is here one definition; the URL parser is an argument, and so are
    the answers of the server and of Redis. *)

From S2P Require Import Prelude JsString JsMap Json Frames Admission Bus.
From stdpp Require Import prelude strings list.
From Stdlib Require Import ZArith Lia.

(** What the code reads of [new URL(text)]. *)
Record Url := {
  protocol : string; hostname : string; username : string; password : string;
  search : string; hash : string
}.

Record PresenceConfig := {
  relayId : string; relayMode : RelayMode; redirectAllowedHosts : list string;
  publicWsBaseUrl : string; tlsHost : string; presenceResolveCacheMax : Z;
  redisPresenceTtlMs : Z; redisKeyPrefix : string
}.

Record PresenceEntry := {
  pe_relayId : string; pe_relayWsBaseUrl : string; pe_daemonConnected : bool;
  pe_runtimeTargetId : option string; pe_machineId : option string; pe_expiresAt : Z
}.

(** What one answer of the server or of Redis is good for: nothing, the removal of the
    cached answer, or a new one. *)
Inductive verdict := VFailed | VAbsent | VFound (entry : PresenceEntry).

Section Presence.
(** [new URL(text)], [None] when it throws. *)
Variable parseUrl : string → option Url.
Variable cfg : PresenceConfig.

Definition isAllowedRedirectWsBaseUrl (relayWsBaseUrl : string) : bool :=
  match parseUrl relayWsBaseUrl with
  | None => false
  | Some parsed =>
      let protocol := lower (protocol parsed) in
      if negb (String.eqb protocol "ws:") && negb (String.eqb protocol "wss:") then false
      else if bool_decide (relayMode cfg = prod) && negb (String.eqb protocol "wss:") then false
      else if negb (truthy_str (hostname parsed)) then false
      else if truthy_str (username parsed) || truthy_str (password parsed) ||
              truthy_str (search parsed) || truthy_str (hash parsed) then false
      else if bool_decide (redirectAllowedHosts cfg ≠ []) then
        bool_decide (lower (hostname parsed) ∈ redirectAllowedHosts cfg)
      else if bool_decide (relayMode cfg = prod) then
        let own := match parseUrl (publicWsBaseUrl cfg) with
                   | Some u => [lower (hostname u)] | None => [] end in
        bool_decide (lower (hostname parsed) ∈ own ++ [lower (tlsHost cfg)])
      else true
  end.

(** ** The cache of both clients *)

Definition Cache : Type := list (string * PresenceEntry).

(** The cached answer, when it has not expired. *)
Definition resolve_cached (now : Z) (cacheKey : string) (cache : Cache) : option PresenceEntry * Cache :=
  match jm_get cacheKey cache with
  | Some cached =>
      if (now <? pe_expiresAt cached)%Z then (Some cached, jm_touch cacheKey cached cache) else (None, cache)
  | None => (None, cache)
  end.

Definition resolve_answered (cacheKey : string) (v : verdict) (cache : Cache) :
    option PresenceEntry * list string * Cache :=
  match v with
  | VFailed => (None, ["relay_presence_resolve_failed_total"], cache)
  | VAbsent => (None, [], jm_delete cacheKey cache)
  | VFound entry =>
      (Some entry, ["relay_presence_resolve_ok_total"],
       jm_trim (presenceResolveCacheMax cfg) (jm_touch cacheKey entry cache))
  end.

(** ** presence.ts *)

Definition presenceCacheKey (workspaceId : string) (runtimeTargetId : option string) : string :=
  match runtimeTargetId with
  | Some t => if truthy_str t then workspaceId +:+ ":" +:+ t else workspaceId
  | None => workspaceId
  end.

Definition is_true (v : option json) : bool := match v with Some (JBool true) => true | _ => false end.

(** The answer of [/presence/resolve]: its status and body, [None] when the call failed. *)
Definition resolve_verdict (now : Z) (answer : option (Z * json)) : verdict :=
  match answer with
  | None => VFailed
  | Some (status, body) =>
      let prop := Validate.prop body in
      if (status <? 200)%Z || (300 <=? status)%Z || negb (Validate.truthy_json (prop "ok")) then VFailed
      else
        let relayId := default "" (as_string (prop "relayId")) in
        let relayWsBaseUrl := default "" (as_string (prop "relayWsBaseUrl")) in
        if negb (is_true (prop "daemonConnected")) || negb (truthy_str relayId) ||
           negb (truthy_str relayWsBaseUrl) then VAbsent
        else if negb (isAllowedRedirectWsBaseUrl relayWsBaseUrl) then VFailed
        else VFound {| pe_relayId := relayId; pe_relayWsBaseUrl := relayWsBaseUrl;
                       pe_daemonConnected := true;
                       pe_runtimeTargetId := as_string (prop "runtimeTargetId");
                       pe_machineId := as_string (prop "machineId");
                       pe_expiresAt := now + 2000 |}
  end.

(** [upsert]: the request's body, and what its answer counts. *)
Definition upsert (enabled : bool) (w : string) (daemonConnected : bool) (t machine : option string) :
    option record :=
  if enabled then
    Some (defined_fields
      [("workspaceId", Some (JStr w)); ("runtimeTargetId", JStr <$> t); ("machineId", JStr <$> machine);
       ("relayId", Some (JStr (relayId cfg))); ("relayWsBaseUrl", Some (JStr (publicWsBaseUrl cfg)));
       ("daemonConnected", Some (JBool daemonConnected))])
  else None.

Definition upserted (answer : option (Z * json)) : string :=
  match answer with
  | Some (status, body) =>
      if (200 <=? status)%Z && (status <? 300)%Z && is_true (Validate.prop body "ok")
      then "relay_presence_upsert_ok_total" else "relay_presence_upsert_failed_total"
  | None => "relay_presence_upsert_failed_total"
  end.

(** ** redis-backplane.ts *)

Definition presenceKey (workspaceId : string) (runtimeTargetId : option string) : string :=
  let base := redisKeyPrefix cfg +:+ ":presence:" +:+ workspaceId in
  match runtimeTargetId with
  | Some t => if truthy_str t then base +:+ ":" +:+ t else base
  | None => base
  end.

Record RedisPresenceEntry := {
  rp_relayId : string; rp_relayWsBaseUrl : string; rp_daemonConnected : bool;
  rp_runtimeTargetId : option string; rp_machineId : option string
}.

Definition parseRedisPresenceEntry (raw : option string) : option RedisPresenceEntry :=
  match raw with
  | None => None
  | Some text =>
      if negb (truthy_str text) then None else
      match JSON_parse text with
      | Some (JObj entry) =>
          match field entry "relayId", field entry "relayWsBaseUrl", field entry "daemonConnected",
                field entry "updatedAtMs" with
          | Some (JStr relayId), Some (JStr url), Some (JBool connected), Some (JNum _) =>
              Some {| rp_relayId := relayId; rp_relayWsBaseUrl := url; rp_daemonConnected := connected;
                      rp_runtimeTargetId := as_string (field entry "runtimeTargetId");
                      rp_machineId := as_string (field entry "machineId") |}
          | _, _, _, _ => None
          end
      | _ => None
      end
  end.

(** The answer of GET, [None] when the command failed. *)
Definition redis_verdict (now : Z) (answer : option (option string)) : verdict :=
  match answer with
  | None => VFailed
  | Some raw =>
      match parseRedisPresenceEntry raw with
      | Some entry =>
          if negb (rp_daemonConnected entry) then VAbsent
          else if negb (isAllowedRedirectWsBaseUrl (rp_relayWsBaseUrl entry)) then VFailed
          else VFound {| pe_relayId := rp_relayId entry; pe_relayWsBaseUrl := rp_relayWsBaseUrl entry;
                         pe_daemonConnected := true; pe_runtimeTargetId := rp_runtimeTargetId entry;
                         pe_machineId := rp_machineId entry;
                         pe_expiresAt := now + Z.min (redisPresenceTtlMs cfg) 2000 |}
      | None => VAbsent
      end
  end.

(** The commands of [upsertPresence]. *)
Inductive redis_command := Del (key : string) | SetPx (key : string) (value : record) (px : Z).

Definition upsertPresence (now : Z) (w : string) (daemonConnected : bool) (t machine : option string) :
    redis_command :=
  let key := presenceKey w t in
  if daemonConnected then
    SetPx key (defined_fields
      [("relayId", Some (JStr (relayId cfg))); ("relayWsBaseUrl", Some (JStr (publicWsBaseUrl cfg)));
       ("daemonConnected", Some (JBool true)); ("runtimeTargetId", JStr <$> t);
       ("machineId", JStr <$> machine); ("updatedAtMs", Some (JNum (num_of_Z now)))])
      (redisPresenceTtlMs cfg)
  else Del key.

(** After the command: the cache forgets a deleted key. *)
Definition upsertPresence_done (ok : bool) (command : redis_command) (cache : Cache) : string * Cache :=
  if ok then
    ("relay_presence_upsert_ok_total",
     match command with Del key => jm_delete key cache | SetPx _ _ _ => cache end)
  else ("relay_presence_upsert_failed_total", cache).
End Presence.

(** ** Runs of a backplane's cache *)

(** The calls that touch the cache, with their times. *)
Inductive Op (A : Type) :=
  | Lookup (key : string)
  | Answer (key : string) (answer : A)
  | Forget (key : string).
Arguments Lookup {A} key.
Arguments Answer {A} key answer.
Arguments Forget {A} key.

Section Run.
Context {A : Type}.
Variable cfg : PresenceConfig.
Variable verdict_of : Z → A → verdict.

Definition op_step (now : Z) (op : Op A) (cache : Cache) : option PresenceEntry * Cache :=
  match op with
  | Lookup key => resolve_cached now key cache
  | Answer key a => let '(e, _, cache') := resolve_answered cfg key (verdict_of now a) cache in (e, cache')
  | Forget key => (None, jm_delete key cache)
  end.

Definition op_key (op : Op A) : string := match op with Lookup k | Answer k _ | Forget k => k end.

(** The entries that the calls return, with their times and keys, and the last cache. *)
Fixpoint op_run (ops : list (Z * Op A)) (cache : Cache) : list (Z * string * PresenceEntry) * Cache :=
  match ops with
  | [] => ([], cache)
  | (now, op) :: rest =>
      let '(e, cache1) := op_step now op cache in
      let '(out, cache2) := op_run rest cache1 in
      (match e with Some e => (now, op_key op, e) :: out | None => out end, cache2)
  end.

(** [e] was found for [key] by one of [ops]. *)
Definition found_by (ops : list (Z * Op A)) (key : string) (e : PresenceEntry) : Prop :=
  ∃ t0 a, (t0, Answer key a) ∈ ops ∧ verdict_of t0 a = VFound e.

Record cache_ok (ops : list (Z * Op A)) (cache : Cache) : Prop := {
  cache_nodup : NoDup_keys cache;
  cache_size : (jm_size cache ≤ presenceResolveCacheMax cfg)%Z;
  cache_found : ∀ k e, jm_get k cache = Some e → found_by ops k e
}.

Lemma op_step_ok seen now op cache e cache' :
  (0 ≤ presenceResolveCacheMax cfg)%Z → cache_ok seen cache → op_step now op cache = (e, cache') →
  cache_ok ((now, op) :: seen) cache' ∧
  ∀ e', e = Some e' → ∃ t0 a, (t0, Answer (op_key op) a) ∈ (now, op) :: seen ∧
    verdict_of t0 a = VFound e' ∧ (t0 = now ∨ (now < pe_expiresAt e')%Z).
Proof.
  intros Hmax [Hn Hs Hf].
  assert (∀ k e, found_by seen k e → found_by ((now, op) :: seen) k e) as Hmono.
  { intros k e0 (t0 & a & Hin & Ha). exists t0, a. split; [by right|done]. }
  assert (∀ k, cache_ok ((now, op) :: seen) (jm_delete k cache)) as Hdel.
  { intros k. split; [auto with viewport| |].
    - pose proof (jm_size_delete k cache). lia.
    - intros k' e0. rewrite jm_get_delete. case_decide; [done|]. eauto. }
  assert (cache_ok ((now, op) :: seen) cache) as Hsame by (split; eauto).
  destruct op as [key|key a|key]; simpl; [| |by intros; simplify_eq].
  - unfold resolve_cached. destruct (jm_get key cache) as [cached|] eqn:Ec; [|by intros; simplify_eq].
    destruct (now <? _)%Z eqn:Et; [|by intros; simplify_eq]. split_bools. intros; simplify_eq. split.
    + destruct (Hdel key). split; [auto with viewport| |].
      * unfold jm_touch. rewrite jm_size_set, decide_False by (by apply jm_get_None, jm_get_delete_eq).
        pose proof (jm_size_delete_present key cached cache Ec). lia.
      * intros k e0. rewrite jm_get_touch. case_decide; [intros [= <-]; subst k|]; by eauto.
    + intros e' [= <-]. destruct (Hf _ _ Ec) as (t0 & a & Hin & Ha). exists t0, a.
      split; [by right|]. split; [done|by right].
  - unfold resolve_answered. destruct (verdict_of now a) as [| |e0] eqn:Ev; intros; simplify_eq; [done..|].
    split.
    + split; [auto with viewport|rewrite jm_size_trim by done; lia|].
      intros k e' Hk%jm_get_trim_Some; [|auto with viewport]. revert Hk. rewrite jm_get_touch.
      case_decide; [|by eauto]. intros [= <-]. subst k. exists now, a. split; [by left|done].
    + intros e' [= <-]. exists now, a. split; [by left|]. split; [done|by left].
Qed.

Lemma op_run_ok seen ops cache :
  (0 ≤ presenceResolveCacheMax cfg)%Z → cache_ok seen cache →
  (jm_size (op_run ops cache).2 ≤ presenceResolveCacheMax cfg)%Z ∧
  ∀ now k e, (now, k, e) ∈ (op_run ops cache).1 → ∃ t0 a, (t0, Answer k a) ∈ ops ++ seen ∧
    verdict_of t0 a = VFound e ∧ (t0 = now ∨ (now < pe_expiresAt e)%Z).
Proof.
  intros Hmax. revert seen cache. induction ops as [|[now op] rest IH]; intros seen cache Hok; simpl.
  { split; [by apply Hok|]. intros ??? []%elem_of_nil. }
  destruct (op_step now op cache) as [e cache1] eqn:E1.
  destruct (op_run rest cache1) as [out cache2] eqn:E2.
  destruct (op_step_ok _ _ _ _ _ _ Hmax Hok E1) as [Hok1 He].
  destruct (IH _ _ Hok1) as [Hsz Hout]. rewrite E2 in Hsz, Hout. simpl in *. split; [done|].
  assert (∀ now' k e', (now', k, e') ∈ out → ∃ t0 a, (t0, Answer k a) ∈ (now, op) :: rest ++ seen ∧
    verdict_of t0 a = VFound e' ∧ (t0 = now' ∨ (now' < pe_expiresAt e')%Z)) as Hrest.
  { intros now' k e' Hin. destruct (Hout _ _ _ Hin) as (t0 & a & H & ? & ?). exists t0, a.
    split; [|done]. apply elem_of_app in H as [H|[->|H]%elem_of_cons]; [right|by left|right];
      apply elem_of_app; auto. }
  destruct e as [e|]; [|done]. intros now' k e' [[= -> -> ->]|Hin]%elem_of_cons; [|by apply Hrest].
  destruct (He _ eq_refl) as (t0 & a & H & ? & ?). exists t0, a. split; [|done].
  apply elem_of_cons in H as [->|H]; [by left|right; apply elem_of_app; by right].
Qed.
End Run.

(** ** The guard of redirects *)

(** The hosts a redirect may name: the configured ones, else this relay's own in
    production, else any. *)
Definition allowed_host (parseUrl : string → option Url) (cfg : PresenceConfig) (host : string) : Prop :=
  (redirectAllowedHosts cfg ≠ [] ∧ host ∈ redirectAllowedHosts cfg) ∨
  (redirectAllowedHosts cfg = [] ∧
    (relayMode cfg = prod →
      (∃ u, parseUrl (publicWsBaseUrl cfg) = Some u ∧ host = lower (hostname u)) ∨ host = lower (tlsHost cfg))).

Record allowed_redirect (parseUrl : string → option Url) (cfg : PresenceConfig) (url : string) (u : Url) : Prop := {
  ar_parsed : parseUrl url = Some u;
  ar_protocol : lower (protocol u) = "wss:" ∨ (lower (protocol u) = "ws:" ∧ relayMode cfg ≠ prod);
  ar_plain : username u = "" ∧ password u = "" ∧ search u = "" ∧ hash u = "";
  ar_hostname : hostname u ≠ "";
  ar_host : allowed_host parseUrl cfg (lower (hostname u))
}.

Lemma guard_true (b r : bool) : (if b then false else r) = true ↔ b = false ∧ r = true.
Proof. destruct b; naive_solver. Qed.

Lemma truthy_str_false s : truthy_str s = false ↔ s = "".
Proof. unfold truthy_str. by rewrite negb_false_iff, String.eqb_eq. Qed.

Lemma isAllowedRedirectWsBaseUrl_iff parseUrl cfg url :
  isAllowedRedirectWsBaseUrl parseUrl cfg url = true ↔ ∃ u, allowed_redirect parseUrl cfg url u.
Proof.
  unfold isAllowedRedirectWsBaseUrl. destruct (parseUrl url) as [u|] eqn:Eu; [|split; [done|]].
  2: { intros [u [? _ _ _ _]]. congruence. }
  assert ((∃ u, allowed_redirect parseUrl cfg url u) ↔ allowed_redirect parseUrl cfg url u) as ->.
  { split; [|eauto]. intros [u' H]. pose proof (ar_parsed _ _ _ _ H). by simplify_eq. }
  cbv zeta. set (host := lower (hostname u)).
  assert (allowed_redirect parseUrl cfg url u ↔
    (lower (protocol u) = "wss:" ∨ (lower (protocol u) = "ws:" ∧ relayMode cfg ≠ prod)) ∧
    (username u = "" ∧ password u = "" ∧ search u = "" ∧ hash u = "") ∧ hostname u ≠ "" ∧
    allowed_host parseUrl cfg host) as ->.
  { split; [by intros []|]. intros (? & ? & ? & ?). by split. }
  rewrite !guard_true, !negb_false_iff, !orb_false_iff, !truthy_str_false, truthy_str_true.
  assert (
    (negb (lower (protocol u) =? "ws:")%string && negb (lower (protocol u) =? "wss:")%string = false ∧
     bool_decide (relayMode cfg = prod) && negb (lower (protocol u) =? "wss:")%string = false) ↔
    (lower (protocol u) = "wss:" ∨ (lower (protocol u) = "ws:" ∧ relayMode cfg ≠ prod))) as <-.
  { rewrite !andb_false_iff, !negb_false_iff, !bool_decide_eq_false, !String.eqb_eq.
    destruct (decide (relayMode cfg = prod)); naive_solver. }
  assert (allowed_host parseUrl cfg host ↔ (if bool_decide (redirectAllowedHosts cfg ≠ [])
    then bool_decide (host ∈ redirectAllowedHosts cfg) else if bool_decide (relayMode cfg = prod) then
      bool_decide (host ∈ match parseUrl (publicWsBaseUrl cfg) with
                          | Some u0 => [lower (hostname u0)] | None => [] end ++ [lower (tlsHost cfg)])
      else true) = true) as ->; [|tauto].
  unfold allowed_host. case_bool_decide as Hh.
  { rewrite bool_decide_eq_true. split; [by intros [[_ ?]|[? _]]|by left]. }
  case_bool_decide as Hp.
  - rewrite bool_decide_eq_true, elem_of_app, list_elem_of_singleton.
    destruct (parseUrl (publicWsBaseUrl cfg)) as [v|]; rewrite ?list_elem_of_singleton, ?elem_of_nil; split.
    + intros [[]|[_ H]]; [done|]. destruct (H Hp) as [(? & [= <-] & ?)|?]; auto.
    + intros H. right. split; [done|]. destruct H; eauto.
    + intros [[]|[_ H]]; [done|]. destruct (H Hp) as [(? & ? & ?)|?]; [done|auto].
    + intros [[]|H]. right. auto.
  - split; [done|]. intros _. right. by split.
Qed.

(** ** backplane.ts *)

Module Backplane.
Inductive RelayBackplaneMode := single | server | redis.

(** [createRelayBackplane] and the constants of the class it makes. *)
Definition crossRelayEnabled (mode : RelayBackplaneMode) : bool :=
  match mode with single => false | server | redis => true end.
Definition pollIntervalMs (mode : RelayBackplaneMode) (busPollIntervalMs : Z) : option Z :=
  match mode with single => None | server | redis => Some busPollIntervalMs end.

(** The answers the two clients wait for. *)
Inductive answer := FromServer (a : option (Z * json)) | FromRedis (a : option (option string)).

Definition verdict_of (parseUrl : string → option Url) (cfg : PresenceConfig) (now : Z) (a : answer) : verdict :=
  match a with
  | FromServer a => resolve_verdict parseUrl cfg now a
  | FromRedis a => redis_verdict parseUrl cfg now a
  end.

Lemma verdict_found parseUrl cfg now a e :
  verdict_of parseUrl cfg now a = VFound e →
  isAllowedRedirectWsBaseUrl parseUrl cfg (pe_relayWsBaseUrl e) = true ∧
  pe_daemonConnected e = true ∧ (pe_expiresAt e ≤ now + 2000)%Z.
Proof.
  destruct a as [a|a]; simpl; unfold resolve_verdict, redis_verdict; intros E;
    repeat (case_match; try done); simplify_eq; simpl; split_bools; (split_and!; [done..|lia]).
Qed.
End Backplane.

(** A relay that a client is redirected to comes from an answer for this workspace
    and target less than two seconds old, with its daemon connected, and the guard of
    redirects let its address through; the cache keeps its bound.  The guard lets
    exactly these through: a [wss:] address ([ws:] too outside production) without
    credentials, query or fragment, whose host is configured, or in production this
    relay's own when none is. *)
Theorem presence_redirect_safe parseUrl cfg ops :
  (0 ≤ presenceResolveCacheMax cfg)%Z →
  let '(out, cache) := op_run cfg (Backplane.verdict_of parseUrl cfg) ops [] in
  (jm_size cache ≤ presenceResolveCacheMax cfg)%Z ∧
  (∀ now key e, (now, key, e) ∈ out →
    pe_daemonConnected e = true ∧ (∃ u, allowed_redirect parseUrl cfg (pe_relayWsBaseUrl e) u) ∧
    ∃ t0 a, (t0, Answer key a) ∈ ops ∧ Backplane.verdict_of parseUrl cfg t0 a = VFound e ∧
      (now < t0 + 2000)%Z) ∧
  ∀ url, isAllowedRedirectWsBaseUrl parseUrl cfg url = true ↔ ∃ u, allowed_redirect parseUrl cfg url u.
Proof.
  intros Hmax. destruct (op_run _ _ _ _) as [out cache] eqn:E.
  destruct (op_run_ok cfg (Backplane.verdict_of parseUrl cfg) [] ops [] Hmax) as [Hs Hout].
  { split; [apply NoDup_keys_nil|done|done]. }
  rewrite E in Hs, Hout. split_and!; [done| |apply isAllowedRedirectWsBaseUrl_iff].
  intros now key e Hin. destruct (Hout _ _ _ Hin) as (t0 & a & Ha & Hv & Ht).
  destruct (Backplane.verdict_found _ _ _ _ _ Hv) as (Hok & ? & ?). rewrite app_nil_r in Ha.
  split_and!; [done|by apply isAllowedRedirectWsBaseUrl_iff|]. exists t0, a. split_and!; [done..|]. lia.
Qed.

Definition sample_url (text : string) : option Url :=
  if String.eqb text "wss://b.example" then
    Some {| protocol := "wss:"; hostname := "b.example"; username := ""; password := ""; search := ""; hash := "" |}
  else None.

Definition sample_presence_cfg : PresenceConfig :=
  {| relayId := "a"; relayMode := prod; redirectAllowedHosts := ["b.example"]; publicWsBaseUrl := "wss://a.example";
     tlsHost := "a.example"; presenceResolveCacheMax := 1; redisPresenceTtlMs := 9000; redisKeyPrefix := "vp" |}.

Definition sample_ops : list (Z * Op Backplane.answer) :=
  [(1000, Answer "w" (Backplane.FromServer (Some (200, JObj [("ok", JBool true); ("daemonConnected", JBool true);
     ("relayId", JStr "b"); ("relayWsBaseUrl", JStr "wss://b.example")]))));
   (2000, Lookup "w"); (3000, Lookup "w")]%Z.

Lemma presence_redirect_safe_witness :
  length (op_run sample_presence_cfg (Backplane.verdict_of sample_url sample_presence_cfg) sample_ops []).1 = 2%nat ∧
  (jm_size (op_run sample_presence_cfg (Backplane.verdict_of sample_url sample_presence_cfg) sample_ops []).2 ≤ 1)%Z.
Proof.
  split; [vm_compute; reflexivity|].
  assert (0 ≤ presenceResolveCacheMax sample_presence_cfg)%Z as H by (vm_compute; discriminate).
  pose proof (presence_redirect_safe sample_url sample_presence_cfg sample_ops H) as P.
  destruct (op_run _ _ _ _) as [out cache]. exact (proj1 P).
Defined.
