(* ===== verification/WorkflowRun.v ===== *)
(** * Workflow runs and their store (packages/daemon/src/workflows/run-types.ts, store.ts,
    runner-canceler.ts, runtime-helpers.ts)

    A run is a record that several actors read, change and save: the scheduler, the
    executors of its nodes, a user who cancels it.  Every save merges the record with
    the one on disk.  [Module Store] models the merge, [Module Cancel] the cancellation;
    the fields that neither they nor the scheduler read are kept in [ns_rest] and
    [r_rest]. *)

From S2P Require Import Prelude JsString JsMap Json.
From stdpp Require Import prelude strings list sorting.
From Stdlib Require Import ZArith Lia.

(** ** run-types.ts *)

Inductive WorkflowRunStatus := RQueued | RRunning | RBlocked | RCompleted | RFailed | RCanceled.
#[export] Instance WorkflowRunStatus_eq_dec : EqDecision WorkflowRunStatus.
Proof. solve_decision. Defined.

Inductive WorkflowNodeStatus :=
  NQueued | NRunning | NBlocked | NCompleted | NFailed | NSkipped | NCanceled.
#[export] Instance WorkflowNodeStatus_eq_dec : EqDecision WorkflowNodeStatus.
Proof. solve_decision. Defined.

Inductive IterationStatus := IRunning | ICompleted | IFailed | ISkipped | ICanceled.
#[export] Instance IterationStatus_eq_dec : EqDecision IterationStatus.
Proof. solve_decision. Defined.

Inductive InlineAgentStatus := AQueued | ARunning | ACompleted | AFailed | ACanceled.
#[export] Instance InlineAgentStatus_eq_dec : EqDecision InlineAgentStatus.
Proof. solve_decision. Defined.

Record WorkflowLoopIterationRecord := {
  it_status : IterationStatus; it_completedAt : option Z; it_error : option string;
  it_sessionId : option string; it_rest : record
}.

Record WorkflowInlineAgentRunState := {
  ia_status : InlineAgentStatus; ia_completedAt : option Z; ia_error : option string;
  ia_sessionId : option string; ia_rest : record
}.

Record WorkflowNodeRunState := {
  ns_id : string; ns_status : WorkflowNodeStatus; ns_startedAt : option Z; ns_completedAt : option Z;
  ns_output : option string; ns_exitCode : option Z; ns_error : option string;
  ns_skipReason : option string; ns_attempts : option Z; ns_sessionId : option string;
  ns_iterations : list WorkflowLoopIterationRecord;
  ns_inlineAgents : list (string * WorkflowInlineAgentRunState);
  ns_rest : record
}.

Record WorkflowRunEvent := {
  ev_id : string; ev_timestamp : Z; ev_type : string; ev_nodeId : option string; ev_message : string;
  ev_data : record
}.

Record WorkflowRunRecord := {
  r_id : string; r_status : WorkflowRunStatus; r_nodes : list (string * WorkflowNodeRunState);
  r_events : list WorkflowRunEvent; r_startedAt : option Z; r_updatedAt : Z; r_completedAt : option Z;
  r_error : option string; r_rest : record
}.

(** *** Writes to the fields *)

Definition node_status (x : WorkflowNodeStatus) (s : WorkflowNodeRunState) : WorkflowNodeRunState :=
  {| ns_id := ns_id s; ns_status := x; ns_startedAt := ns_startedAt s; ns_completedAt := ns_completedAt s;
     ns_output := ns_output s; ns_exitCode := ns_exitCode s; ns_error := ns_error s;
     ns_skipReason := ns_skipReason s; ns_attempts := ns_attempts s; ns_sessionId := ns_sessionId s;
     ns_iterations := ns_iterations s; ns_inlineAgents := ns_inlineAgents s; ns_rest := ns_rest s |}.
Definition node_startedAt (x : option Z) (s : WorkflowNodeRunState) : WorkflowNodeRunState :=
  {| ns_id := ns_id s; ns_status := ns_status s; ns_startedAt := x; ns_completedAt := ns_completedAt s;
     ns_output := ns_output s; ns_exitCode := ns_exitCode s; ns_error := ns_error s;
     ns_skipReason := ns_skipReason s; ns_attempts := ns_attempts s; ns_sessionId := ns_sessionId s;
     ns_iterations := ns_iterations s; ns_inlineAgents := ns_inlineAgents s; ns_rest := ns_rest s |}.
Definition node_completedAt (x : option Z) (s : WorkflowNodeRunState) : WorkflowNodeRunState :=
  {| ns_id := ns_id s; ns_status := ns_status s; ns_startedAt := ns_startedAt s; ns_completedAt := x;
     ns_output := ns_output s; ns_exitCode := ns_exitCode s; ns_error := ns_error s;
     ns_skipReason := ns_skipReason s; ns_attempts := ns_attempts s; ns_sessionId := ns_sessionId s;
     ns_iterations := ns_iterations s; ns_inlineAgents := ns_inlineAgents s; ns_rest := ns_rest s |}.
Definition node_output (x : option string) (e : option Z) (s : WorkflowNodeRunState) : WorkflowNodeRunState :=
  {| ns_id := ns_id s; ns_status := ns_status s; ns_startedAt := ns_startedAt s; ns_completedAt := ns_completedAt s;
     ns_output := x; ns_exitCode := e; ns_error := ns_error s;
     ns_skipReason := ns_skipReason s; ns_attempts := ns_attempts s; ns_sessionId := ns_sessionId s;
     ns_iterations := ns_iterations s; ns_inlineAgents := ns_inlineAgents s; ns_rest := ns_rest s |}.
Definition node_error (x : option string) (s : WorkflowNodeRunState) : WorkflowNodeRunState :=
  {| ns_id := ns_id s; ns_status := ns_status s; ns_startedAt := ns_startedAt s; ns_completedAt := ns_completedAt s;
     ns_output := ns_output s; ns_exitCode := ns_exitCode s; ns_error := x;
     ns_skipReason := ns_skipReason s; ns_attempts := ns_attempts s; ns_sessionId := ns_sessionId s;
     ns_iterations := ns_iterations s; ns_inlineAgents := ns_inlineAgents s; ns_rest := ns_rest s |}.
Definition node_skipReason (x : option string) (s : WorkflowNodeRunState) : WorkflowNodeRunState :=
  {| ns_id := ns_id s; ns_status := ns_status s; ns_startedAt := ns_startedAt s; ns_completedAt := ns_completedAt s;
     ns_output := ns_output s; ns_exitCode := ns_exitCode s; ns_error := ns_error s;
     ns_skipReason := x; ns_attempts := ns_attempts s; ns_sessionId := ns_sessionId s;
     ns_iterations := ns_iterations s; ns_inlineAgents := ns_inlineAgents s; ns_rest := ns_rest s |}.
Definition node_attempts (x : option Z) (s : WorkflowNodeRunState) : WorkflowNodeRunState :=
  {| ns_id := ns_id s; ns_status := ns_status s; ns_startedAt := ns_startedAt s; ns_completedAt := ns_completedAt s;
     ns_output := ns_output s; ns_exitCode := ns_exitCode s; ns_error := ns_error s;
     ns_skipReason := ns_skipReason s; ns_attempts := x; ns_sessionId := ns_sessionId s;
     ns_iterations := ns_iterations s; ns_inlineAgents := ns_inlineAgents s; ns_rest := ns_rest s |}.

Definition run_nodes (x : list (string * WorkflowNodeRunState)) (r : WorkflowRunRecord) : WorkflowRunRecord :=
  {| r_id := r_id r; r_status := r_status r; r_nodes := x; r_events := r_events r;
     r_startedAt := r_startedAt r; r_updatedAt := r_updatedAt r; r_completedAt := r_completedAt r;
     r_error := r_error r; r_rest := r_rest r |}.
Definition run_status (x : WorkflowRunStatus) (r : WorkflowRunRecord) : WorkflowRunRecord :=
  {| r_id := r_id r; r_status := x; r_nodes := r_nodes r; r_events := r_events r;
     r_startedAt := r_startedAt r; r_updatedAt := r_updatedAt r; r_completedAt := r_completedAt r;
     r_error := r_error r; r_rest := r_rest r |}.
Definition run_startedAt (x : option Z) (r : WorkflowRunRecord) : WorkflowRunRecord :=
  {| r_id := r_id r; r_status := r_status r; r_nodes := r_nodes r; r_events := r_events r;
     r_startedAt := x; r_updatedAt := r_updatedAt r; r_completedAt := r_completedAt r;
     r_error := r_error r; r_rest := r_rest r |}.
Definition run_updatedAt (x : Z) (r : WorkflowRunRecord) : WorkflowRunRecord :=
  {| r_id := r_id r; r_status := r_status r; r_nodes := r_nodes r; r_events := r_events r;
     r_startedAt := r_startedAt r; r_updatedAt := x; r_completedAt := r_completedAt r;
     r_error := r_error r; r_rest := r_rest r |}.
Definition run_completedAt (x : option Z) (r : WorkflowRunRecord) : WorkflowRunRecord :=
  {| r_id := r_id r; r_status := r_status r; r_nodes := r_nodes r; r_events := r_events r;
     r_startedAt := r_startedAt r; r_updatedAt := r_updatedAt r; r_completedAt := x;
     r_error := r_error r; r_rest := r_rest r |}.
Definition run_error (x : option string) (r : WorkflowRunRecord) : WorkflowRunRecord :=
  {| r_id := r_id r; r_status := r_status r; r_nodes := r_nodes r; r_events := r_events r;
     r_startedAt := r_startedAt r; r_updatedAt := r_updatedAt r; r_completedAt := r_completedAt r;
     r_error := x; r_rest := r_rest r |}.
Definition run_events (x : list WorkflowRunEvent) (r : WorkflowRunRecord) : WorkflowRunRecord :=
  {| r_id := r_id r; r_status := r_status r; r_nodes := r_nodes r; r_events := x;
     r_startedAt := r_startedAt r; r_updatedAt := r_updatedAt r; r_completedAt := r_completedAt r;
     r_error := r_error r; r_rest := r_rest r |}.

(** [state = run.nodes[id]; if (state) state...] *)
Definition on_node (id : string) (f : WorkflowNodeRunState → WorkflowNodeRunState) (r : WorkflowRunRecord) :
    WorkflowRunRecord := run_nodes (jm_alter f id (r_nodes r)) r.

Definition status_of (id : string) (r : WorkflowRunRecord) : option WorkflowNodeStatus :=
  ns_status <$> jm_get id (r_nodes r).

(** [addEvent]; the identifier is the [randomUUID] the caller drew. *)
Definition addEvent (uuid : string) (now : Z) (type message : string) (data : record) (nodeId : option string)
    (r : WorkflowRunRecord) : WorkflowRunRecord :=
  run_events (r_events r ++
    [{| ev_id := uuid; ev_timestamp := now; ev_type := type; ev_nodeId := nodeId; ev_message := message;
        ev_data := data |}]) r.

(** ** Terminal states *)

Definition terminal_node (s : WorkflowNodeStatus) : bool :=
  match s with NCompleted | NFailed | NSkipped | NCanceled => true | _ => false end.
Definition terminal_run (s : WorkflowRunStatus) : bool :=
  match s with RCompleted | RFailed | RCanceled => true | _ => false end.

(** ** store.ts *)

Module Store.

(** [(a.completedAt ?? 0) > (b.completedAt ?? 0)] *)
Definition later (a b : option Z) : bool := (coalesce b 0 <? coalesce a 0)%Z.

Definition shouldPreserveExistingNode (snapshotNode existingNode : WorkflowNodeRunState) : bool :=
  if negb (terminal_node (ns_status existingNode)) then false
  else if bool_decide (ns_status existingNode = NCanceled) && negb (bool_decide (ns_status snapshotNode = NCanceled))
  then true
  else if negb (terminal_node (ns_status snapshotNode)) then true
  else later (ns_completedAt existingNode) (ns_completedAt snapshotNode).

Definition merge_node (nodes : list (string * WorkflowNodeRunState)) (e : string * WorkflowNodeRunState) :
    list (string * WorkflowNodeRunState) :=
  match jm_get e.1 nodes with
  | None => jm_set e.1 e.2 nodes
  | Some snapshotNode =>
      if shouldPreserveExistingNode snapshotNode e.2 then jm_set e.1 e.2 nodes else nodes
  end.

Definition mergeExistingTerminalNodes (snapshot existing : list (string * WorkflowNodeRunState)) :
    list (string * WorkflowNodeRunState) := fold_left merge_node existing snapshot.

(** The existing run's status, end and error replace the snapshot's. *)
Definition preserves_run (snapshot existing : WorkflowRunRecord) : bool :=
  if negb (terminal_run (r_status existing)) then false
  else if bool_decide (r_status existing = RCanceled) && negb (bool_decide (r_status snapshot = RCanceled)) then true
  else if terminal_run (r_status snapshot) then later (r_completedAt existing) (r_completedAt snapshot)
  else true.

Definition mergeExistingTerminalRun (snapshot existing r : WorkflowRunRecord) : WorkflowRunRecord :=
  if preserves_run snapshot existing then
    run_error (r_error existing) (run_completedAt (r_completedAt existing) (run_status (r_status existing) r))
  else r.

Definition mergeStartedAt (snapshotStartedAt existingStartedAt : option Z) : option Z :=
  match snapshotStartedAt, existingStartedAt with
  | None, e => e
  | s, None => s
  | Some s, Some e => Some (Z.min s e)
  end.

(** [new Map(snapshot.events.map(e => [e.id, e]))], and the existing events that are not
    in it. *)
Definition events_map (l : list WorkflowRunEvent) : list (string * WorkflowRunEvent) :=
  fold_left (λ m e, jm_set (ev_id e) e m) l [].
Definition merge_events (snapshot existing : list WorkflowRunEvent) : list WorkflowRunEvent :=
  jm_values (fold_left (λ m e, if jm_has (ev_id e) m then m else jm_set (ev_id e) e m) existing
    (events_map snapshot)).

(** [sort((a, b) => a.timestamp - b.timestamp)], a stable sort. *)
Fixpoint insert_event (e : WorkflowRunEvent) (l : list WorkflowRunEvent) : list WorkflowRunEvent :=
  match l with
  | [] => [e]
  | x :: l' => if (ev_timestamp x <=? ev_timestamp e)%Z then x :: insert_event e l' else e :: l
  end.
Definition sort_events (l : list WorkflowRunEvent) : list WorkflowRunEvent :=
  fold_left (λ acc e, insert_event e acc) l [].

Definition mergeExistingRun (snapshot : WorkflowRunRecord) (disk : option WorkflowRunRecord) : WorkflowRunRecord :=
  match disk with
  | None => snapshot
  | Some existing =>
      let r := run_nodes (mergeExistingTerminalNodes (r_nodes snapshot) (r_nodes existing)) snapshot in
      let r := mergeExistingTerminalRun snapshot existing r in
      let r := run_events (sort_events (merge_events (r_events snapshot) (r_events existing))) r in
      let r := run_startedAt (mergeStartedAt (r_startedAt snapshot) (r_startedAt existing)) r in
      run_updatedAt (Z.max (r_updatedAt snapshot) (r_updatedAt existing)) r
  end.

(** One write of [save]: writes of one run are queued, so that they happen one after
    the other. *)
Definition save (disk : option WorkflowRunRecord) (snapshot : WorkflowRunRecord) : option WorkflowRunRecord :=
  Some (mergeExistingRun snapshot disk).

Definition saves (disk : option WorkflowRunRecord) (l : list WorkflowRunRecord) : option WorkflowRunRecord :=
  fold_left save l disk.

Definition appendEvent (disk : option WorkflowRunRecord) (event : WorkflowRunEvent) :
    option (option WorkflowRunRecord) :=
  match disk with
  | None => None
  | Some run => Some (save disk (run_updatedAt (ev_timestamp event) (run_events (r_events run ++ [event]) run)))
  end.
End Store.

(** ** runner-canceler.ts *)

Module Cancel.

Definition cancelIteration (message : string) (timestamp : Z) (i : WorkflowLoopIterationRecord) :
    WorkflowLoopIterationRecord :=
  match it_status i with
  | IFailed | ICompleted | ISkipped | ICanceled => i
  | IRunning => {| it_status := ICanceled; it_completedAt := Some timestamp; it_error := Some message;
                   it_sessionId := it_sessionId i; it_rest := it_rest i |}
  end.

Definition cancelInlineAgent (message : string) (timestamp : Z) (a : WorkflowInlineAgentRunState) :
    WorkflowInlineAgentRunState :=
  match ia_status a with
  | AQueued | ARunning =>
      {| ia_status := ACanceled; ia_completedAt := Some timestamp; ia_error := Some message;
         ia_sessionId := ia_sessionId a; ia_rest := ia_rest a |}
  | _ => a
  end.

Definition cancelNode (message : string) (timestamp : Z) (n : WorkflowNodeRunState) : WorkflowNodeRunState :=
  let n := match ns_status n with
           | NQueued | NRunning | NBlocked =>
               node_completedAt (Some timestamp) (node_error (Some message) (node_status NCanceled n))
           | _ => n
           end in
  {| ns_id := ns_id n; ns_status := ns_status n; ns_startedAt := ns_startedAt n; ns_completedAt := ns_completedAt n;
     ns_output := ns_output n; ns_exitCode := ns_exitCode n; ns_error := ns_error n;
     ns_skipReason := ns_skipReason n; ns_attempts := ns_attempts n; ns_sessionId := ns_sessionId n;
     ns_iterations := map (cancelIteration message timestamp) (ns_iterations n);
     ns_inlineAgents := map (λ e, (e.1, cancelInlineAgent message timestamp e.2)) (ns_inlineAgents n);
     ns_rest := ns_rest n |}.

Definition collectWorkflowSessionIds (r : WorkflowRunRecord) : list string :=
  fold_left (λ acc s, match s with Some id => if truthy_str id then set_add id acc else acc | None => acc end)
    (flat_map (λ n, ns_sessionId n.2 :: map it_sessionId (ns_iterations n.2) ++
                    map (λ a, ia_sessionId a.2) (ns_inlineAgents n.2)) (r_nodes r)) [].

(** [cancelRun] on the record it read: the sessions it kills and the record it saves,
    or the record as it is when it has ended. *)
Definition cancelRun (uuid : string) (now : Z) (message : option string) (actor : record) (r : WorkflowRunRecord) :
    option (list string * WorkflowRunRecord) :=
  match r_status r with
  | RCompleted | RFailed | RCanceled => None
  | _ =>
      let message := coalesce message "Workflow run canceled" in
      let sessionIds := collectWorkflowSessionIds r in
      let r := run_nodes (map (λ e, (e.1, cancelNode message now e.2)) (r_nodes r)) r in
      let r := run_updatedAt now (run_completedAt (Some now) (run_error (Some message) (run_status RCanceled r))) in
      Some (sessionIds, addEvent uuid now "run-canceled" message
        (("killedSessionIds", JArr (map JStr sessionIds)) :: actor) None r)
  end.
End Cancel.

(** ** What a merge keeps *)

(** The keys of the JavaScript object [nodes] are distinct. *)
Definition run_wf (r : WorkflowRunRecord) : Prop := NoDup_keys (r_nodes r).

Section Merge.
Import Store.

Lemma merge_lookup k snapshot existing :
  NoDup_keys existing →
  jm_get k (mergeExistingTerminalNodes snapshot existing) =
    match jm_get k snapshot, jm_get k existing with
    | s, None => s
    | None, Some e => Some e
    | Some s, Some e => Some (if shouldPreserveExistingNode s e then e else s)
    end.
Proof.
  unfold mergeExistingTerminalNodes, NoDup_keys, jm_keys. revert snapshot.
  induction existing as [|[k1 e1] l IH]; intros snapshot Hnd; csimpl; [by destruct (jm_get k snapshot)|].
  apply NoDup_cons in Hnd as [Hni Hnd]. rewrite (IH _ Hnd). unfold merge_node. csimpl.
  case_decide as Hk; subst.
  - assert (jm_get k1 l = None) as -> by (by apply jm_get_None).
    destruct (jm_get k1 snapshot) as [s|] eqn:Es; [|by rewrite jm_get_set_eq].
    destruct (shouldPreserveExistingNode s e1); [by rewrite jm_get_set_eq|by rewrite Es].
  - destruct (jm_get k1 snapshot) as [s|] eqn:Es; [|by rewrite jm_get_set_ne].
    destruct (shouldPreserveExistingNode s e1); [by rewrite jm_get_set_ne|done].
Qed.

Lemma merge_nodup snapshot existing :
  NoDup_keys snapshot → NoDup_keys (mergeExistingTerminalNodes snapshot existing).
Proof.
  unfold mergeExistingTerminalNodes. revert snapshot.
  induction existing as [|e l IH]; intros snapshot Hnd; csimpl; [done|]. apply IH. unfold merge_node.
  destruct (jm_get e.1 snapshot); [case_match|]; auto with viewport.
Qed.

Lemma preserve_terminal s e :
  terminal_node (ns_status e) = true →
  terminal_node (ns_status (if shouldPreserveExistingNode s e then e else s)) = true.
Proof.
  unfold shouldPreserveExistingNode. intros He. rewrite He. simpl.
  destruct (_ && _); [done|]. destruct (terminal_node (ns_status s)) eqn:Es; simpl; [by case_match|done].
Qed.

Lemma preserve_canceled s e :
  ns_status e = NCanceled → ns_status (if shouldPreserveExistingNode s e then e else s) = NCanceled.
Proof.
  unfold shouldPreserveExistingNode. intros He. rewrite He. simpl.
  destruct (decide (ns_status s = NCanceled)) as [Hs|Hs]; simpl.
  - rewrite Hs. simpl. by case_match.
  - by rewrite bool_decide_eq_false_2.
Qed.

Lemma merge_run_fields snapshot existing :
  r_nodes (mergeExistingRun snapshot (Some existing)) =
    mergeExistingTerminalNodes (r_nodes snapshot) (r_nodes existing) ∧
  r_status (mergeExistingRun snapshot (Some existing)) =
    (if preserves_run snapshot existing then r_status existing else r_status snapshot) ∧
  r_events (mergeExistingRun snapshot (Some existing)) =
    sort_events (merge_events (r_events snapshot) (r_events existing)) ∧
  r_updatedAt (mergeExistingRun snapshot (Some existing)) = Z.max (r_updatedAt snapshot) (r_updatedAt existing).
Proof.
  unfold mergeExistingRun, mergeExistingTerminalRun. by destruct (preserves_run snapshot existing).
Qed.

Lemma preserves_run_terminal snapshot existing :
  terminal_run (r_status existing) = true →
  terminal_run (if preserves_run snapshot existing then r_status existing else r_status snapshot) = true.
Proof.
  unfold preserves_run. intros He. rewrite He. simpl. destruct (_ && _); [done|].
  destruct (terminal_run (r_status snapshot)) eqn:Es; [by case_match|done].
Qed.

Lemma preserves_run_canceled snapshot existing :
  r_status existing = RCanceled →
  (if preserves_run snapshot existing then r_status existing else r_status snapshot) = RCanceled.
Proof.
  unfold preserves_run. intros He. rewrite He. simpl.
  destruct (decide (r_status snapshot = RCanceled)) as [Hs|Hs]; simpl.
  - rewrite Hs. simpl. by case_match.
  - by rewrite bool_decide_eq_false_2.
Qed.

(** *** Events *)

Lemma elem_of_insert_event x e l : x ∈ insert_event e l ↔ x = e ∨ x ∈ l.
Proof.
  induction l as [|y l IH]; simpl; [by rewrite list_elem_of_singleton, elem_of_nil; naive_solver|].
  case_match; rewrite !elem_of_cons, ?IH; naive_solver.
Qed.

Lemma elem_of_sort_events x l : x ∈ sort_events l ↔ x ∈ l.
Proof.
  unfold sort_events. assert (∀ acc, x ∈ fold_left (λ acc e, insert_event e acc) l acc ↔ x ∈ acc ∨ x ∈ l) as H.
  { induction l as [|e l IH]; intros acc; simpl; [by rewrite elem_of_nil; naive_solver|].
    rewrite IH, elem_of_insert_event, elem_of_cons. naive_solver. }
  rewrite H, elem_of_nil. naive_solver.
Qed.

Definition by_time (a b : WorkflowRunEvent) : Prop := (ev_timestamp a ≤ ev_timestamp b)%Z.

Lemma insert_event_sorted e l : StronglySorted by_time l → StronglySorted by_time (insert_event e l).
Proof.
  induction 1 as [|x l Hl IH Hx]; simpl; [by repeat constructor|].
  destruct (ev_timestamp x <=? ev_timestamp e)%Z eqn:E; split_bools.
  - constructor; [done|]. apply Forall_forall. intros y [->|Hy]%elem_of_insert_event; [done|].
    by rewrite Forall_forall in Hx; apply Hx.
  - constructor; [by constructor|]. constructor; [unfold by_time; lia|].
    eapply Forall_impl; [exact Hx|]. intros y. unfold by_time. lia.
Qed.

Lemma sort_events_sorted l : StronglySorted by_time (sort_events l).
Proof.
  unfold sort_events. assert (∀ acc, StronglySorted by_time acc →
    StronglySorted by_time (fold_left (λ acc e, insert_event e acc) l acc)) as H.
  { induction l as [|e l IH]; intros acc Hacc; simpl; [done|]. by apply IH, insert_event_sorted. }
  apply H. constructor.
Qed.

(** The map of events is keyed by the events' identifiers. *)
Definition keyed (m : list (string * WorkflowRunEvent)) : Prop := ∀ k e, (k, e) ∈ m → ev_id e = k.

Lemma keyed_set e m : keyed m → keyed (jm_set (ev_id e) e m).
Proof.
  unfold keyed. intros Hk k v. induction m as [|[k1 v1] m IH]; csimpl.
  - rewrite list_elem_of_singleton. by intros [= -> ->].
  - case_decide as Hd; rewrite elem_of_cons; intros [[= -> ->]|Hin]; try done.
    + apply Hk. by right.
    + apply Hk. by left.
    + apply IH; [|done]. intros k' e' H. apply Hk. by right.
Qed.

Definition has_event (id : string) (l : list WorkflowRunEvent) : Prop := ∃ e, e ∈ l ∧ ev_id e = id.

Lemma events_fold_has (f : list (string * WorkflowRunEvent) → WorkflowRunEvent → list (string * WorkflowRunEvent)) l m id :
  (∀ m e, f m e = m ∧ jm_has (ev_id e) m = true ∨ f m e = jm_set (ev_id e) e m) → keyed m →
  keyed (fold_left f l m) ∧
  (id ∈ jm_keys (fold_left f l m) ↔ id ∈ jm_keys m ∨ has_event id l).
Proof.
  intros Hf. revert m. induction l as [|e l IH]; intros m Hm; simpl.
  { split; [done|]. unfold has_event. split; [by left|]. intros [?|(e & He & _)]; [done|].
    by apply elem_of_nil in He. }
  assert (keyed (f m e)) as Hk by (destruct (Hf m e) as [[-> _]| ->]; [done|by apply keyed_set]).
  destruct (IH _ Hk) as [H1 H2]. split; [done|]. rewrite H2.
  assert (id ∈ jm_keys (f m e) ↔ id ∈ jm_keys m ∨ id = ev_id e) as ->.
  { destruct (Hf m e) as [[-> Hh]| ->].
    - unfold jm_has in Hh. apply bool_decide_eq_true, jm_key_is_Some in Hh. naive_solver.
    - rewrite !jm_key_is_Some, jm_get_set. case_decide; subst; [|naive_solver]. split; [by right|eauto]. }
  unfold has_event. setoid_rewrite elem_of_cons. naive_solver.
Qed.

Lemma keyed_values m id : keyed m → (id ∈ jm_keys m ↔ has_event id (jm_values m)).
Proof.
  intros Hk. unfold jm_keys, jm_values, has_event. split.
  - intros ([k e] & -> & Hin)%list_elem_of_fmap. exists e. split; [|by apply Hk in Hin].
    apply list_elem_of_fmap. by exists (k, e).
  - intros (e & ([k e'] & -> & Hin)%list_elem_of_fmap & <-). simpl.
    apply list_elem_of_fmap. exists (k, e'). split; [by apply Hk|done].
Qed.

(** A merge keeps the events of both records. *)
Lemma has_event_merge id snapshot existing :
  has_event id (merge_events snapshot existing) ↔ has_event id snapshot ∨ has_event id existing.
Proof.
  unfold merge_events, events_map.
  assert (∀ (m : list (string * WorkflowRunEvent)) e, (λ m e, jm_set (ev_id e) e m) m e = m ∧
    jm_has (ev_id e) m = true ∨ (λ m e, jm_set (ev_id e) e m) m e = jm_set (ev_id e) e m) as Hf1 by (by right).
  assert (∀ (m : list (string * WorkflowRunEvent)) e, (λ m e, if jm_has (ev_id e) m then m else jm_set (ev_id e) e m) m e = m ∧
    jm_has (ev_id e) m = true ∨
    (λ m e, if jm_has (ev_id e) m then m else jm_set (ev_id e) e m) m e = jm_set (ev_id e) e m) as Hf2.
  { intros m e. destruct (jm_has (ev_id e) m) eqn:E; [by left|by right]. }
  destruct (events_fold_has _ snapshot [] id Hf1) as [K1 H1]; [intros ?? []%elem_of_nil|].
  destruct (events_fold_has _ existing _ id Hf2 K1) as [K2 H2].
  rewrite <-(keyed_values _ id K2), H2, H1. unfold jm_keys. rewrite elem_of_nil. naive_solver.
Qed.
End Merge.
