(* ===== verification/Workflow.v ===== *)
(** * The rules of workflow scheduling (packages/daemon/src/workflows/trigger-rule.ts,
    retry-classifier.ts, runner-shared.ts, parser.ts, runner-scheduler.ts,
    node-executor.ts)

    [Module Graph] models the order of the parser, [Module Trigger] and [Module Retry]
    the rules of nodes, [Module Scheduler] one turn of the scheduling loop and the end of
    a layer, and [Module Executor] what [executeWorkflowNode] does around the executor
    of a node's type.  WorkflowSystem.v puts them together.  The [sort] of names is a
    parameter where the code compares by locale. *)

From S2P Require Import Prelude JsString JsMap Json WorkflowRun.
From stdpp Require Import prelude strings list sorting pretty.
From Stdlib Require Import ZArith Lia.

Inductive WorkflowTriggerRule := all_success | all_done | one_success.
#[export] Instance WorkflowTriggerRule_eq_dec : EqDecision WorkflowTriggerRule.
Proof. solve_decision. Defined.

Inductive OnFailure := halt | continue_ | skip_dependents.
#[export] Instance OnFailure_eq_dec : EqDecision OnFailure.
Proof. solve_decision. Defined.

Record WorkflowRetryPolicy := {
  maxAttempts : Z; backoffSeconds : option Z; transient : option (list string); fatal : option (list string)
}.

Inductive RetryDecision := retry | fatal_.
#[export] Instance RetryDecision_eq_dec : EqDecision RetryDecision.
Proof. solve_decision. Defined.

(** What the scheduler reads of a node's definition. *)
Record WorkflowNode := {
  wn_type : string; wn_needs : option (list string); wn_triggerRule : option WorkflowTriggerRule;
  wn_when : option string; wn_retry : option WorkflowRetryPolicy; wn_onFailure : option OnFailure
}.

(** [definition.nodes], in the order of [Object.entries]. *)
Definition WorkflowDefinition : Type := list (string * WorkflowNode).

Definition needs_of (node : WorkflowNode) : list string := coalesce (wn_needs node) [].

(** ** parser.ts *)

Module Graph.

Inductive Order := Ordered (ids : list string) | Cycle | OutOfFuel.

Definition needs_in (definition : WorkflowDefinition) (nodeId : string) : list string :=
  match jm_get nodeId definition with Some node => needs_of node | None => [] end.

Section Order.
(** [ready.sort((a, b) => a.localeCompare(b))] *)
Variable sort : list string → list string.
Variable definition : WorkflowDefinition.

Definition is_ready (complete : list string) (nodeId : string) : bool :=
  forallb (λ dependency, bool_decide (dependency ∈ complete)) (needs_in definition nodeId).

Fixpoint order_loop (fuel : nat) (pending complete ordered : list string) : Order :=
  match pending with
  | [] => Ordered ordered
  | _ =>
      match fuel with
      | O => OutOfFuel
      | S fuel =>
          let ready := List.filter (is_ready complete) pending in
          match ready with
          | [] => Cycle
          | _ =>
              let ready := sort ready in
              order_loop fuel (List.filter (λ p, negb (bool_decide (p ∈ ready))) pending)
                (complete ++ ready) (ordered ++ ready)
          end
      end
  end.

(** One round of the loop takes at least one node, so that as many rounds as nodes are
    enough. *)
Definition workflowNodeOrder : Order :=
  order_loop (length definition) (jm_keys definition) [] [].
End Order.
End Graph.

(** ** trigger-rule.ts *)

Module Trigger.

Record TriggerEvaluation := { ready : bool; reason : option string }.

Definition status_name (s : WorkflowNodeStatus) : string :=
  match s with
  | NQueued => "queued" | NRunning => "running" | NBlocked => "blocked" | NCompleted => "completed"
  | NFailed => "failed" | NSkipped => "skipped" | NCanceled => "canceled"
  end.

Definition count_status (p : WorkflowNodeStatus → bool) (parents : list WorkflowNodeRunState) : nat :=
  length (List.filter (λ parent, p (ns_status parent)) parents).

Definition is_completed (s : WorkflowNodeStatus) : bool := bool_decide (s = NCompleted).

Definition evaluateTriggerRule (rule : option WorkflowTriggerRule) (parents : list WorkflowNodeRunState) :
    TriggerEvaluation :=
  if bool_decide (parents = []) then {| ready := true; reason := None |} else
  let successes := count_status is_completed parents in
  let terminals := count_status terminal_node parents in
  match coalesce rule all_success with
  | all_success =>
      if (successes =? length parents)%nat then {| ready := true; reason := None |}
      else
        let failedParent := List.find (λ parent, negb (is_completed (ns_status parent))) parents in
        {| ready := false;
           reason := Some ("triggerRule=all_success: parent " +:+
             match failedParent with
             | Some p => ns_id p +:+ " is " +:+ status_name (ns_status p)
             | None => "unknown is not completed" end) |}
  | all_done =>
      if (terminals =? length parents)%nat then {| ready := true; reason := None |}
      else {| ready := false; reason := Some "triggerRule=all_done: not all parents reached a terminal state" |}
  | one_success =>
      if (1 <=? successes)%nat then {| ready := true; reason := None |}
      else {| ready := false; reason := Some "triggerRule=one_success: no parent reached completed" |}
  end.

Definition isTriggerSkipReason (reason : option string) : bool :=
  match reason with Some r => startsWith r "triggerRule=" | None => false end.

(** [needs.map(id => run.nodes[id]).filter(Boolean)] *)
Definition getNodeParents (run : WorkflowRunRecord) (needs : option (list string)) : list WorkflowNodeRunState :=
  omap (λ parentId, jm_get parentId (r_nodes run)) (coalesce needs []).
End Trigger.

(** ** retry-classifier.ts *)

Module Retry.
Section Retry.
(** [String.prototype.toLowerCase] *)
Variable toLowerCase : string → string.

Definition matches_any (message : string) (patterns : list string) : bool :=
  existsb (λ pattern, includes (toLowerCase message) (toLowerCase pattern)) patterns.

Definition classifyRetry (message : string) (policy : option WorkflowRetryPolicy) : RetryDecision :=
  match policy with
  | None => fatal_
  | Some policy =>
      if match fatal policy with Some l => matches_any message l | None => false end then fatal_
      else match transient policy with
           | Some l => if matches_any message l then retry else fatal_
           | None => retry
           end
  end.
End Retry.
End Retry.

(** ** runner-shared.ts *)

Definition parent_terminal (run : WorkflowRunRecord) (parentId : string) : bool :=
  match jm_get parentId (r_nodes run) with Some parent => terminal_node (ns_status parent) | None => true end.

Definition findReadyNodeIds (run : WorkflowRunRecord) (parsed : WorkflowDefinition) : list string :=
  omap (λ '(nodeId, node),
    match jm_get nodeId (r_nodes run) with
    | Some state =>
        if bool_decide (ns_status state = NQueued) && forallb (parent_terminal run) (needs_of node)
        then Some nodeId else None
    | None => None
    end) parsed.

(** [addEvent], with the identifier that [randomUUID] draws for the next event. *)
Definition log (uuid : nat → string) (now : Z) (type message : string) (data : record) (nodeId : option string)
    (r : WorkflowRunRecord) : WorkflowRunRecord :=
  addEvent (uuid (length (r_events r))) now type message data nodeId r.

(** ** runner-scheduler.ts *)

Module Scheduler.
Section Scheduler.
Variable parsed : WorkflowDefinition.
(** [evaluateConditionExpression] of a node's [when]; [None] when it throws. *)
Variable evalWhen : WorkflowRunRecord → string → option bool.
Variable uuid : nat → string.

(** The first lines of [run]; [issues] is what [preflightWorkflow] found. *)
Definition begin_run (now : Z) (resumed : bool) (issues : list json) (run : WorkflowRunRecord) :
    WorkflowRunRecord :=
  let run := run_startedAt (Some (coalesce (r_startedAt run) now)) (run_status RRunning run) in
  let run := log uuid now "run-started" (if resumed then "Workflow run resumed" else "Workflow run started")
               [] None (run_updatedAt now run) in
  match issues with
  | [] => run
  | _ => log uuid now "run-blocked" "Workflow blocked by preflight" [("issues", JArr issues)] None
           (run_updatedAt now (run_completedAt (Some now) (run_status RBlocked run)))
  end.

(** The reason to skip a node, or none; [None] when an expression is invalid. *)
Definition evaluateNodeGuards (run : WorkflowRunRecord) (node : WorkflowNode) : option (option string) :=
  let trigger := Trigger.evaluateTriggerRule (wn_triggerRule node) (Trigger.getNodeParents run (wn_needs node)) in
  if negb (Trigger.ready trigger) && Trigger.isTriggerSkipReason (Trigger.reason trigger)
  then Some (Trigger.reason trigger)
  else match wn_when node with
       | Some w =>
           if truthy_str w then
             truthy ← evalWhen run w;
             Some (if truthy : bool then None else Some ("when: " +:+ w +:+ " → false"))
           else Some None
       | None => Some None
       end.

Record Layer := { toExecute : list string; skipped : list (string * string) }.

Fixpoint classifyLayer (run : WorkflowRunRecord) (nodeIds : list string) : option Layer :=
  match nodeIds with
  | [] => Some {| toExecute := []; skipped := [] |}
  | nodeId :: rest =>
      match jm_get nodeId parsed with
      | None => classifyLayer run rest
      | Some node =>
          reason ← evaluateNodeGuards run node;
          layer ← classifyLayer run rest;
          Some (match reason with
                | Some r => {| toExecute := toExecute layer; skipped := (nodeId, r) :: skipped layer |}
                | None => {| toExecute := nodeId :: toExecute layer; skipped := skipped layer |}
                end)
      end
  end.

Definition markSkipped (now : Z) (nodeId reason : string) (run : WorkflowRunRecord) : WorkflowRunRecord :=
  match jm_get nodeId (r_nodes run) with
  | None => run
  | Some _ =>
      let run := on_node nodeId (λ s,
        node_completedAt (Some now) (node_skipReason (Some reason) (node_status NSkipped s))) run in
      log uuid now "node-skipped" ("Node " +:+ nodeId +:+ " skipped: " +:+ reason) [("reason", JStr reason)]
        (Some nodeId) (run_updatedAt now run)
  end.

Definition apply_skips (now : Z) (l : list (string * string)) (run : WorkflowRunRecord) : WorkflowRunRecord :=
  fold_left (λ r '(nodeId, reason), markSkipped now nodeId reason r) l run.

(** One turn of the loop on the record it read, up to the launch of a layer. *)
Inductive Turn :=
| TReturn                                                   (* the run is not running *)
| TBreak                                                    (* every node is terminal *)
| TWait                                                     (* a node is running *)
| TBlocked                                                  (* a node waits for approval *)
| TOrphaned (run : WorkflowRunRecord)                       (* to be saved *)
| TThrow                                                    (* an invalid [when] *)
| TLayer (run : WorkflowRunRecord) (save : bool) (ids : list string).

Definition has_status (s : WorkflowNodeStatus) (l : list WorkflowNodeRunState) : bool :=
  existsb (λ n, bool_decide (ns_status n = s)) l.

Definition incomplete (run : WorkflowRunRecord) : list WorkflowNodeRunState :=
  List.filter (λ n, negb (terminal_node (ns_status n))) (jm_values (r_nodes run)).

(** [sort()] compares code units, as [String.le] does on the characters that the
    parser allows in the name of a node. *)
Definition turn (now : Z) (freshRun : WorkflowRunRecord) : Turn :=
  if negb (bool_decide (r_status freshRun = RRunning)) then TReturn else
  match findReadyNodeIds freshRun parsed with
  | [] =>
      match incomplete freshRun with
      | [] => TBreak
      | l =>
          if has_status NRunning l then TWait
          else if has_status NBlocked l then TBlocked
          else
            let ids := merge_sort String.le (map ns_id l) in
            let error := "Workflow scheduler found queued nodes with unmet dependencies: " +:+
                         JsString.join ", " ids in
            TOrphaned (log uuid now "run-blocked"
              "Workflow blocked because queued nodes have unmet dependencies" [("nodeIds", JArr (map JStr ids))]
              None (run_updatedAt now (run_error (Some error) (run_status RBlocked freshRun))))
      end
  | ready =>
      match classifyLayer freshRun ready with
      | None => TThrow
      | Some layer =>
          TLayer (apply_skips now (skipped layer) freshRun) (negb (bool_decide (skipped layer = [])))
            (toExecute layer)
      end
  end.

(** The traces of rejected tasks on the timeline of the record read after the layer. *)
Definition trace_rejected (now : Z) (reasons : list string) (updated : WorkflowRunRecord) : WorkflowRunRecord :=
  fold_left (λ r reason, log uuid now "run-failed"
    ("Layer task rejected without node-level handling: " +:+ reason) [("reason", JStr reason)] None r) reasons updated.

(** The end of a layer, on the record read after that one has been saved. *)
Inductive After := AFailed (run : WorkflowRunRecord) | ABlockedLayer | ANext.

Definition halts (nodeId : string) : bool :=
  match coalesce (node ← jm_get nodeId parsed; wn_onFailure node) halt with halt => true | _ => false end.

Definition failed_in (run : WorkflowRunRecord) (nodeId : string) : bool :=
  bool_decide (status_of nodeId run = Some NFailed).

Definition after_layer (now : Z) (ids : list string) (refreshed : WorkflowRunRecord) : After :=
  match List.find halts (List.filter (failed_in refreshed) ids) with
  | Some nodeId =>
      let message := coalesce (s ← jm_get nodeId (r_nodes refreshed); ns_error s) ("Node " +:+ nodeId +:+ " failed") in
      AFailed (log uuid now "run-failed" ("Workflow run failed: " +:+ message) [] None
        (run_updatedAt now (run_completedAt (Some now) (run_error (Some message) (run_status RFailed refreshed)))))
  | None =>
      if existsb (λ nodeId, bool_decide (status_of nodeId refreshed = Some NBlocked)) ids then ABlockedLayer else ANext
  end.

(** The last lines of [run]: nothing when the run is no longer running. *)
Definition finish (now : Z) (complete : WorkflowRunRecord) : option WorkflowRunRecord :=
  if bool_decide (r_status complete = RRunning) then
    Some (log uuid now "run-completed" "Workflow run completed" [] None
      (run_updatedAt now (run_completedAt (Some now) (run_status RCompleted complete))))
  else None.
End Scheduler.
End Scheduler.

(** ** node-executor.ts *)

Module Executor.
Section Executor.
Variable toLowerCase : string → string.
(** [new Date(t).toISOString()] *)
Variable toISOString : Z → string.
Variable uuid : nat → string.

(** [isRecord(value) ? value : {}] *)
Definition record_or_empty (v : option json) : record := match v with Some (JObj f) => f | _ => [] end.

(** [state.metadata = { ...(state.metadata ?? {}), [key]: value }] *)
Definition node_metadata (key : string) (value : record → json) (s : WorkflowNodeRunState) : WorkflowNodeRunState :=
  let metadata := record_or_empty (field (ns_rest s) "metadata") in
  {| ns_id := ns_id s; ns_status := ns_status s; ns_startedAt := ns_startedAt s; ns_completedAt := ns_completedAt s;
     ns_output := ns_output s; ns_exitCode := ns_exitCode s; ns_error := ns_error s;
     ns_skipReason := ns_skipReason s; ns_attempts := ns_attempts s; ns_sessionId := ns_sessionId s;
     ns_iterations := ns_iterations s; ns_inlineAgents := ns_inlineAgents s;
     ns_rest := jm_set "metadata" (JObj (jm_set key (value metadata) metadata)) (ns_rest s) |}.

(** The contract is an object when it is there. *)
Definition has_contract (run : WorkflowRunRecord) : bool :=
  match field (r_rest run) "workflowAuthorityContract" with Some (JObj _) => true | _ => false end.

Definition nodeContractEnforcement (run : WorkflowRunRecord) : json :=
  let contract := has_contract run in
  JObj [("context", JStr (if contract then "contract_guarded" else "enforced"));
        ("data_capture", JStr "enforced"); ("credentials", JStr "materialization_guarded");
        ("side_effects", JStr (if contract then "contract_guarded" else "approval_guarded"));
        ("repos", JStr (if contract then "contract_guarded" else "modeled"));
        ("tools", JStr "modeled"); ("budgets", JStr "modeled")].

Definition preExecuteNodeContractAcknowledgement (run : WorkflowRunRecord) (nodeId : string) (node : WorkflowNode)
    (acknowledgedAt : Z) : json :=
  JObj [("schema", JStr "viewport.node_contract_acknowledgement/v1"); ("status", JStr "acknowledged");
        ("source", JStr "daemon_pre_execute");
        ("runner", JStr (coalesce (as_string (field (r_rest run) "machineId")) "local-daemon"));
        ("node_id", JStr nodeId); ("node_type", JStr (wn_type node));
        ("acknowledged_at", JStr (toISOString acknowledgedAt)); ("enforcement", nodeContractEnforcement run);
        ("modeled", JArr (map JStr (if has_contract run then ["tools"; "budgets"] else ["repos"; "tools"; "budgets"])))].

(** The node may be executed: it has a state, neither completed nor skipped. *)
Definition executable (run : WorkflowRunRecord) (nodeId : string) : bool :=
  match status_of nodeId run with
  | None | Some NCompleted | Some NSkipped => false
  | _ => true
  end.

(** Up to the first save. *)
Definition start_node (now : Z) (nodeId : string) (node : WorkflowNode) (run : WorkflowRunRecord) : WorkflowRunRecord :=
  let ack := preExecuteNodeContractAcknowledgement run nodeId node now in
  let enforcement := nodeContractEnforcement run in
  let run := on_node nodeId (λ s,
    node_metadata "node_contract_ack" (λ _, ack) (node_startedAt (Some now) (node_status NRunning s))) run in
  let run := log uuid now "node-contract-acknowledged"
    ("Node " +:+ nodeId +:+ " authority contract acknowledged before execution")
    [("nodeId", JStr nodeId); ("nodeType", JStr (wn_type node)); ("status", JStr "acknowledged");
     ("enforcement", enforcement)] (Some nodeId) (run_updatedAt now run) in
  log uuid now "node-started" ("Node " +:+ nodeId +:+ " started") [] (Some nodeId) run.

(** An attempt that succeeds. *)
Definition complete_node (now : Z) (nodeId : string) (run : WorkflowRunRecord) : WorkflowRunRecord :=
  let run := on_node nodeId (λ s, node_completedAt (Some now) (node_status NCompleted s)) run in
  log uuid now "node-completed" ("Node " +:+ nodeId +:+ " completed") [] (Some nodeId) (run_updatedAt now run).

Definition attempts_allowed (node : WorkflowNode) : Z := coalesce (maxAttempts <$> wn_retry node) 1%Z.
Definition backoffMs (node : WorkflowNode) : Z := (coalesce (wn_retry node ≫= backoffSeconds) 0 * 1000)%Z.

(** What the executor of the node's type threw: the message, and for a shell the output
    and the exit code. *)
Record Thrown := { th_message : string; th_shell : option (string * option Z) }.

Definition keep_shell (nodeId : string) (t : Thrown) (run : WorkflowRunRecord) : WorkflowRunRecord :=
  match th_shell t with
  | Some (output, exitCode) =>
      on_node nodeId (λ s, node_output (if truthy_str output then Some output else ns_output s) exitCode s) run
  | None => run
  end.

(** Attempt [attempt] has thrown and another one follows. *)
Definition retries (node : WorkflowNode) (attempt : Z) (message : string) : bool :=
  bool_decide (Retry.classifyRetry toLowerCase message (wn_retry node) = retry) &&
  (0 <? attempts_allowed node - attempt)%Z.

Definition retry_node (now : Z) (nodeId : string) (node : WorkflowNode) (attempt : Z) (message : string)
    (run : WorkflowRunRecord) : WorkflowRunRecord :=
  run_updatedAt now (log uuid now "node-retry"
    ("Node " +:+ nodeId +:+ " retry " +:+ pretty (attempt + 1)%Z +:+ "/" +:+ pretty (attempts_allowed node) +:+
     ": " +:+ message)
    [("attempt", JNum (num_of_Z attempt)); ("message", JStr message); ("backoffMs", JNum (num_of_Z (backoffMs node)))]
    (Some nodeId) run).

(** [metadata.action] of a node, and the recovery that [dead_letter] adds to it. *)
Definition action_of (s : WorkflowNodeRunState) : record :=
  record_or_empty (field (record_or_empty (field (ns_rest s) "metadata")) "action").
Definition string_or_null (v : option json) : json := match as_string v with Some s => JStr s | None => JNull end.
Definition recovery (attempt : Z) (message : string) (action : record) : record :=
  let idempotencyKey := string_or_null (field action "idempotencyKey") in
  [("state", JStr "dead_letter"); ("reason", JStr message); ("attempts", JNum (num_of_Z attempt));
   ("retryableByRerun", JBool (truthy_opt (as_string (Some idempotencyKey)))); ("idempotencyKey", idempotencyKey);
   ("digest", string_or_null (field action "digest"))].

Definition dead_letter (now : Z) (nodeId : string) (attempt : Z) (message : string) (run : WorkflowRunRecord) :
    WorkflowRunRecord :=
  let action := from_option action_of [] (jm_get nodeId (r_nodes run)) in
  let r := recovery attempt message action in
  let run := on_node nodeId (node_metadata "action" (λ _, JObj (jm_set "recovery" (JObj r) action))) run in
  log uuid now "action-dead-letter"
    ("Action node " +:+ nodeId +:+ " needs remediation after " +:+ pretty attempt +:+ " attempt" +:+
     (if (attempt =? 1)%Z then "" else "s")) r (Some nodeId) run.

Definition fail_node (now : Z) (nodeId : string) (node : WorkflowNode) (attempt : Z) (message : string)
    (run : WorkflowRunRecord) : WorkflowRunRecord :=
  let run := on_node nodeId (λ s, node_attempts (Some attempt) (node_completedAt (Some now)
    (node_error (Some message) (node_status NFailed s)))) run in
  let run := run_updatedAt now run in
  let run := if String.eqb (wn_type node) "action" then dead_letter now nodeId attempt message run else run in
  log uuid now "node-failed" ("Node " +:+ nodeId +:+ " failed: " +:+ message)
    [("attempts", JNum (num_of_Z attempt))] (Some nodeId) run.

Inductive Verdict := Again (run : WorkflowRunRecord) | GiveUp (run : WorkflowRunRecord).

(** The [catch] of attempt [attempt], and what follows the loop. *)
Definition on_throw (now : Z) (nodeId : string) (node : WorkflowNode) (attempt : Z) (t : Thrown)
    (run : WorkflowRunRecord) : Verdict :=
  let run := keep_shell nodeId t run in
  if retries node attempt (th_message t)
  then Again (retry_node now nodeId node attempt (th_message t) run)
  else GiveUp (fail_node now nodeId node attempt (th_message t) run).

(** The loop of attempts, for an executor that throws [throws k] at attempt [k]: the
    attempts made, and the message of the failure if none of them succeeded. *)
Fixpoint attempts (fuel : nat) (node : WorkflowNode) (attempt : Z) (throws : Z → option string) :
    option (Z * option string) :=
  match fuel with
  | O => None
  | S fuel =>
      if (attempt <? attempts_allowed node)%Z then
        let attempt := (attempt + 1)%Z in
        match throws attempt with
        | None => Some (attempt, None)
        | Some message =>
            if retries node attempt message then attempts fuel node attempt throws
            else Some (attempt, Some message)
        end
      else Some (attempt, Some "null")
  end.
End Executor.
End Executor.
