(* ===== verification/WorkflowRules.v ===== *)
(** * What the rules of the scheduler decide

    Lemmas on Workflow.v: the statuses that each operation sets, the nodes that are
    ready, the layer that a turn launches, and the order of a graph. *)

From S2P Require Import Prelude JsString JsMap Json WorkflowRun Workflow.
From stdpp Require Import prelude strings list.
From Stdlib Require Import ZArith Lia.

(** ** Statuses *)

(** The node exists and has ended. *)
Definition done_at (k : string) (r : WorkflowRunRecord) : bool := from_option terminal_node false (status_of k r).

(** Every node has ended. *)
Definition ended (r : WorkflowRunRecord) : Prop := ∀ k s, status_of k r = Some s → terminal_node s = true.

Lemma status_on_node k k' f r :
  status_of k (on_node k' f r) = if decide (k = k') then ns_status ∘ f <$> jm_get k (r_nodes r) else status_of k r.
Proof.
  unfold status_of, on_node. simpl. rewrite jm_get_alter. case_decide; [|done]. by destruct (jm_get k _).
Qed.

Lemma keys_on_node k f r : jm_keys (r_nodes (on_node k f r)) = jm_keys (r_nodes r).
Proof.
  unfold on_node, jm_alter. simpl. destruct (jm_get k (r_nodes r)) eqn:E; [|done].
  apply jm_keys_set_old. by eapply jm_get_Some_key.
Qed.

Lemma status_is_Some k r : is_Some (status_of k r) ↔ k ∈ jm_keys (r_nodes r).
Proof. unfold status_of. by rewrite fmap_is_Some, jm_key_is_Some. Qed.

Lemma parent_terminal_done r p : parent_terminal r p = from_option terminal_node true (status_of p r).
Proof. unfold parent_terminal, status_of. by destruct (jm_get p (r_nodes r)). Qed.

(** What an operation of the scheduler does to the statuses: the run's, and those of
    some nodes that exist. *)
Record sets (f : string → option WorkflowNodeStatus) (st : WorkflowRunStatus) (r r' : WorkflowRunRecord) : Prop := {
  sets_keys : jm_keys (r_nodes r') = jm_keys (r_nodes r);
  sets_run : r_status r' = st;
  sets_node : ∀ k, status_of k r' = match status_of k r, f k with Some _, Some s => Some s | old, _ => old end
}.

(** One node, or none. *)
Definition only (k : string) (s : WorkflowNodeStatus) (k' : string) : option WorkflowNodeStatus :=
  if decide (k' = k) then Some s else None.
Definition none_at (k : string) : option WorkflowNodeStatus := None.

Lemma sets_id r : sets none_at (r_status r) r r.
Proof. split; [done..|]. intros k. by destruct (status_of k r). Qed.

Lemma sets_same st r r' : r_nodes r' = r_nodes r → r_status r' = st → sets none_at st r r'.
Proof. intros Hn Hs. split; [by rewrite Hn|done|]. intros k. unfold status_of. rewrite Hn. by destruct (jm_get k _). Qed.

Lemma sets_on_node k f s st r r' :
  r_nodes r' = r_nodes (on_node k f r) → (∀ n, ns_status (f n) = s) → r_status r' = st → sets (only k s) st r r'.
Proof.
  intros Hn Hf Hs. split; [by rewrite Hn, keys_on_node|done|]. intros k'.
  assert (status_of k' r' = status_of k' (on_node k f r)) as -> by (unfold status_of; by rewrite Hn).
  rewrite status_on_node. unfold only, status_of.
  case_decide; [|by destruct (jm_get k' _)]. destruct (jm_get k' (r_nodes r)); simpl; [by rewrite Hf|done].
Qed.

Lemma sets_kept k f st r r' :
  r_nodes r' = r_nodes (on_node k f r) → (∀ n, ns_status (f n) = ns_status n) → r_status r' = st → sets none_at st r r'.
Proof.
  intros Hn Hf Hs. split; [by rewrite Hn, keys_on_node|done|]. intros k'.
  assert (status_of k' r' = status_of k' (on_node k f r)) as -> by (unfold status_of; by rewrite Hn).
  rewrite status_on_node. unfold none_at, status_of.
  case_decide; destruct (jm_get k' (r_nodes r)); simpl; by rewrite ?Hf.
Qed.

Lemma sets_then f st1 st2 r1 r2 r3 :
  sets f st1 r1 r2 → sets none_at st2 r2 r3 → sets f st2 r1 r3.
Proof.
  intros [K1 S1 N1] [K2 S2 N2]. split; [congruence|done|]. intros k. rewrite N2, N1. unfold none_at.
  by destruct (status_of k r1), (f k).
Qed.

Lemma sets_before f st1 st2 r1 r2 r3 :
  sets none_at st1 r1 r2 → sets f st2 r2 r3 → sets f st2 r1 r3.
Proof.
  intros [K1 S1 N1] [K2 S2 N2]. split; [congruence|done|]. intros k. rewrite N2, N1. unfold none_at.
  by destruct (status_of k r1).
Qed.

Lemma sets_logged f st r r' uuid now type message data nodeId :
  sets f st r r' → sets f st r (log uuid now type message data nodeId r').
Proof. intros [Hk Hr Hn]. by split. Qed.

(** *** The operations *)

Section Operations.
Variable uuid : nat → string.

Lemma begin_run_sets now resumed issues r :
  sets none_at (match issues with [] => RRunning | _ => RBlocked end) r
    (Scheduler.begin_run uuid now resumed issues r).
Proof. apply sets_same; by destruct issues. Qed.

Lemma markSkipped_sets now k reason r : sets (only k NSkipped) (r_status r) r (Scheduler.markSkipped uuid now k reason r).
Proof.
  unfold Scheduler.markSkipped. destruct (jm_get k (r_nodes r)) eqn:E.
  - by eapply sets_on_node.
  - split; [done..|]. intros k'. unfold only, status_of. case_decide; subst; [by rewrite E|]. by destruct (jm_get k' _).
Qed.

Lemma apply_skips_sets now l r :
  sets (λ k, if decide (k ∈ l.*1) then Some NSkipped else None) (r_status r) r (Scheduler.apply_skips uuid now l r).
Proof.
  unfold Scheduler.apply_skips. revert r. induction l as [|[k reason] l IH]; intros r; cbn [fold_left].
  { split; [done..|]. intros k. by destruct (status_of k r). }
  destruct (markSkipped_sets now k reason r) as [K1 S1 N1], (IH (Scheduler.markSkipped uuid now k reason r)) as [K2 S2 N2].
  split; [congruence..|]. intros k'. rewrite N2, N1. unfold only.
  destruct (status_of k' r); [|done].
  destruct (decide (k' = k)), (decide (k' ∈ l.*1)); case_decide as H; try done;
    rewrite fmap_cons, elem_of_cons in H; naive_solver.
Qed.

Lemma trace_rejected_sets now reasons r : sets none_at (r_status r) r (Scheduler.trace_rejected uuid now reasons r).
Proof.
  unfold Scheduler.trace_rejected. revert r. induction reasons as [|x l IH]; intros r; simpl; [apply sets_id|].
  match goal with |- sets _ _ _ (fold_left _ _ ?r2) =>
    eapply (sets_before _ _ _ _ r2); [by apply sets_same|exact (IH r2)] end.
Qed.

Lemma start_node_sets iso now k node r :
  sets (only k NRunning) (r_status r) r (Executor.start_node iso uuid now k node r).
Proof. unfold Executor.start_node. by eapply sets_on_node. Qed.

Lemma complete_node_sets now k r : sets (only k NCompleted) (r_status r) r (Executor.complete_node uuid now k r).
Proof. unfold Executor.complete_node. by eapply sets_on_node. Qed.

Lemma keep_shell_sets k t r : sets none_at (r_status r) r (Executor.keep_shell k t r).
Proof.
  unfold Executor.keep_shell. destruct (Executor.th_shell t) as [[output code]|]; [by eapply sets_kept|apply sets_id].
Qed.

Lemma dead_letter_sets now k n message r : sets none_at (r_status r) r (Executor.dead_letter uuid now k n message r).
Proof. unfold Executor.dead_letter. by eapply sets_kept. Qed.

Lemma fail_node_sets now k node n message r :
  sets (only k NFailed) (r_status r) r (Executor.fail_node uuid now k node n message r).
Proof.
  unfold Executor.fail_node. destruct (String.eqb _ _); [|by eapply sets_on_node].
  apply sets_logged. match goal with |- sets _ _ _ (Executor.dead_letter _ _ _ _ _ ?r2) =>
    eapply (sets_then _ _ _ _ r2); [|exact (dead_letter_sets now k n message r2)] end. by eapply sets_on_node.
Qed.

Lemma on_throw_sets lower now k node n t r :
  match Executor.on_throw lower uuid now k node n t r with
  | Executor.Again r' => sets none_at (r_status r) r r'
  | Executor.GiveUp r' => sets (only k NFailed) (r_status r) r r'
  end.
Proof.
  unfold Executor.on_throw. pose proof (keep_shell_sets k t r) as Hk. pose proof (sets_run _ _ _ _ Hk) as E.
  destruct (Executor.retries _ _ _ _).
  - eapply sets_then; [exact Hk|]. apply sets_same; [done|]. by rewrite <-E.
  - eapply sets_before; [exact Hk|]. rewrite <-E. apply fail_node_sets.
Qed.
End Operations.

(** ** Ready nodes *)

Lemma findReadyNodeIds_spec run parsed k :
  k ∈ findReadyNodeIds run parsed ↔
  status_of k run = Some NQueued ∧ ∃ node, (k, node) ∈ parsed ∧ ∀ p, p ∈ needs_of node → parent_terminal run p = true.
Proof.
  unfold findReadyNodeIds. rewrite list_elem_of_omap. unfold status_of. split.
  - intros ([k' node] & Hin & H). destruct (jm_get k' (r_nodes run)) as [s|] eqn:E; [|done].
    destruct (_ && _) eqn:Hb; simplify_eq. apply andb_true_iff in Hb as [Hq%bool_decide_eq_true Hn].
    rewrite E. simpl. rewrite Hq. split; [done|]. exists node. split; [done|]. by apply forallb_elem_of.
  - intros (Hs & node & Hin & Hn). exists (k, node). split; [done|].
    destruct (jm_get k (r_nodes run)) as [s|]; simpl in Hs; [|done]. rewrite (bool_decide_eq_true_2 _) by congruence.
    by apply forallb_elem_of in Hn as ->.
Qed.

Lemma omap_keys_sublist {A B} (f : A * B → option A) (l : list (A * B)) :
  (∀ e k, f e = Some k → k = e.1) → omap f l `sublist_of` l.*1.
Proof.
  intros Hf. induction l as [|e l IH]; csimpl; [done|]. destruct (f e) eqn:E; [|by apply sublist_cons].
  rewrite (Hf _ _ E). by apply sublist_skip.
Qed.

Lemma findReadyNodeIds_nodup run parsed : NoDup_keys parsed → NoDup (findReadyNodeIds run parsed).
Proof.
  intros Hnd. eapply sublist_NoDup; [apply Hnd|]. apply omap_keys_sublist.
  intros [k node] k' H. simpl in *. by repeat case_match; simplify_eq.
Qed.

(** ** Layers *)

Section Layer.
Variable parsed : WorkflowDefinition.
Variable evalWhen : WorkflowRunRecord → string → option bool.
Notation guards := (Scheduler.evaluateNodeGuards evalWhen).

Record layer_of (run : WorkflowRunRecord) (ids : list string) (layer : Scheduler.Layer) : Prop := {
  l_execute : Scheduler.toExecute layer `sublist_of` ids;
  l_skipped : (Scheduler.skipped layer).*1 `sublist_of` ids;
  l_split : ∀ k, is_Some (jm_get k parsed) → k ∈ ids → k ∈ Scheduler.toExecute layer ∨ k ∈ (Scheduler.skipped layer).*1;
  l_execute_guard : ∀ k, k ∈ Scheduler.toExecute layer → ∃ node, jm_get k parsed = Some node ∧ guards run node = Some None;
  l_skipped_guard : ∀ k r, (k, r) ∈ Scheduler.skipped layer →
    ∃ node, jm_get k parsed = Some node ∧ guards run node = Some (Some r)
}.

Lemma classifyLayer_spec run ids layer :
  Scheduler.classifyLayer parsed evalWhen run ids = Some layer → layer_of run ids layer.
Proof.
  revert layer. induction ids as [|k ids IH]; intros layer; simpl.
  { intros; simplify_eq. split; simpl; try done; intros; set_solver. }
  destruct (jm_get k parsed) as [node|] eqn:Ek.
  2: { intros [H1 H2 H3 H4 H5]%IH. split; [by apply sublist_cons|by apply sublist_cons| |done|done].
       intros k' Hk' [->|]%elem_of_cons; [rewrite Ek in Hk'; by destruct Hk'|eauto]. }
  intros (reason & Hg & H)%bind_Some. apply bind_Some in H as (rest & Hc & H).
  destruct (IH rest Hc) as [H1 H2 H3 H4 H5]. destruct reason as [r|]; simplify_eq; split; csimpl.
  - by apply sublist_cons.
  - by apply sublist_skip.
  - intros k' Hk' [->|Hin]%elem_of_cons; [right; left|]. destruct (H3 k' Hk' Hin); [by left|right; by right].
  - done.
  - intros k' r' [[= -> ->]|Hin]%elem_of_cons; eauto.
  - by apply sublist_skip.
  - by apply sublist_cons.
  - intros k' Hk' [->|Hin]%elem_of_cons; [left; left|]. destruct (H3 k' Hk' Hin); [left; by right|by right].
  - intros k' [->|Hin]%elem_of_cons; eauto.
  - done.
Qed.

Lemma layer_disjoint run ids layer k :
  layer_of run ids layer → k ∈ Scheduler.toExecute layer → k ∉ (Scheduler.skipped layer).*1.
Proof.
  intros [_ _ _ H4 H5] Hk ([k' r] & -> & Hs)%list_elem_of_fmap.
  destruct (H4 _ Hk) as (node & E & Hg), (H5 _ _ Hs) as (node' & E' & Hg'). simpl in *. congruence.
Qed.

(** The layer that a turn launches. *)
Record launches (uuid : nat → string) (now : Z) (d r : WorkflowRunRecord) (save : bool) (ids : list string) : Prop := {
  t_running : r_status d = RRunning;
  t_nodup : NoDup_keys parsed → NoDup ids;
  t_ready : ∀ k, k ∈ ids → status_of k d = Some NQueued ∧ status_of k r = Some NQueued ∧
    ∃ node, jm_get k parsed = Some node ∧ guards d node = Some None ∧
            (NoDup_keys parsed → ∀ p, p ∈ needs_of node → parent_terminal d p = true);
  t_sets : ∃ sk, sets (λ k, if decide (k ∈ sk) then Some NSkipped else None) RRunning d r ∧
    (∀ k, k ∈ sk → status_of k d = Some NQueued) ∧ (ids = [] → sk ≠ []) ;
  t_unsaved : save = false → r = d
}.

Lemma turn_launches uuid now d r save ids :
  Scheduler.turn parsed evalWhen uuid now d = Scheduler.TLayer r save ids → launches uuid now d r save ids.
Proof.
  unfold Scheduler.turn. destruct (bool_decide (r_status d = RRunning)) eqn:Er; split_bools; simpl; [|done].
  destruct (findReadyNodeIds d parsed) as [|k0 l] eqn:Ef; [repeat case_match; done|].
  match goal with |- match ?x with _ => _ end = _ → _ =>
    change x with (Scheduler.classifyLayer parsed evalWhen d (k0 :: l)) end. rewrite <-Ef.
  destruct (Scheduler.classifyLayer parsed evalWhen d (findReadyNodeIds d parsed)) as [layer|] eqn:Ec; [|done].
  intros; simplify_eq. pose proof (classifyLayer_spec _ _ _ Ec) as Hl. pose proof Hl as [H1 H2 H3 H4 H5].
  pose proof (apply_skips_sets uuid now (Scheduler.skipped layer) d) as Hs. rewrite Er in Hs.
  assert (∀ k, k ∈ (Scheduler.skipped layer).*1 → status_of k d = Some NQueued) as Hq.
  { intros k Hk. pose proof (elem_of_sublist _ _ _ Hk H2) as Hr. by apply findReadyNodeIds_spec in Hr as [? _]. }
  split; [done| | | |].
  - intros Hnd. eapply sublist_NoDup; [|exact H1]. by apply findReadyNodeIds_nodup.
  - intros k Hk. pose proof (elem_of_sublist _ _ _ Hk H1) as Hr.
    apply findReadyNodeIds_spec in Hr as (Hst & node & Hin & Hn). split; [done|]. split.
    + rewrite (sets_node _ _ _ _ Hs), Hst, decide_False; [done|]. by eapply layer_disjoint.
    + destruct (H4 k Hk) as (nd & E & G). exists nd. split_and!; [done..|].
      intros Hnd. apply (jm_elem_get _ _ _ Hnd) in Hin. by simplify_eq.
  - eexists; split_and!; [exact Hs|exact Hq|]. intros He Hn.
    assert (k0 ∈ findReadyNodeIds d parsed) as Hk0 by (rewrite Ef; by left).
    assert (is_Some (jm_get k0 parsed)) as Hp.
    { apply findReadyNodeIds_spec in Hk0 as (_ & node & Hin & _). apply jm_key_is_Some.
      unfold jm_keys. apply list_elem_of_fmap. by exists (k0, node). }
    destruct (H3 k0 Hp Hk0) as [H|H]; [rewrite He in H|rewrite Hn in H]; by apply elem_of_nil in H.
  - intros H. apply negb_false_iff, bool_decide_eq_true in H. by rewrite H.
Qed.
End Layer.

(** ** The other turns, the end of a layer and the end of a run *)

Section Ends.
Variable parsed : WorkflowDefinition.
Variable evalWhen : WorkflowRunRecord → string → option bool.
Variable uuid : nat → string.

Lemma incomplete_elem r n : n ∈ Scheduler.incomplete r ↔ n ∈ jm_values (r_nodes r) ∧ terminal_node (ns_status n) = false.
Proof.
  unfold Scheduler.incomplete. by rewrite list_elem_of_In, filter_In, negb_true_iff, <-list_elem_of_In.
Qed.

Lemma value_status r k n : jm_get k (r_nodes r) = Some n → n ∈ jm_values (r_nodes r) ∧ status_of k r = Some (ns_status n).
Proof.
  intros H. unfold status_of. rewrite H. split; [|done]. apply jm_get_elem in H.
  apply list_elem_of_fmap. by exists (k, n).
Qed.

Lemma turn_breaks now d k s :
  Scheduler.turn parsed evalWhen uuid now d = Scheduler.TBreak → status_of k d = Some s → terminal_node s = true.
Proof.
  unfold Scheduler.turn. intros H Hs. unfold status_of in Hs.
  destruct (jm_get k (r_nodes d)) as [n|] eqn:E; simplify_eq/=. apply value_status in E as [E _].
  destruct (terminal_node (ns_status n)) eqn:Et; [done|].
  destruct (Scheduler.incomplete d) eqn:Ei; [|by repeat case_match].
  assert (n ∈ Scheduler.incomplete d) as Hin by by apply incomplete_elem. rewrite Ei in Hin. by apply elem_of_nil in Hin.
Qed.

Lemma turn_waits now d :
  run_wf d → Scheduler.turn parsed evalWhen uuid now d = Scheduler.TWait → ∃ k, status_of k d = Some NRunning.
Proof.
  unfold Scheduler.turn. intros Hwf H. destruct (negb _); [done|]. destruct (findReadyNodeIds d parsed); [|by repeat case_match].
  destruct (Scheduler.incomplete d) as [|n0 l] eqn:Ei; [done|]. rewrite <-Ei in H.
  destruct (Scheduler.has_status NRunning (Scheduler.incomplete d)) eqn:Er; [|by repeat case_match].
  unfold Scheduler.has_status in Er. apply existsb_elem_of in Er as (n & Hn & Hr%bool_decide_eq_true).
  apply incomplete_elem in Hn as [Hn _]. apply list_elem_of_fmap in Hn as ([k n'] & -> & Hin).
  exists k. unfold status_of. rewrite (jm_elem_get _ _ _ Hwf Hin). simpl in *. by rewrite Hr.
Qed.

Lemma turn_orphans now d r :
  Scheduler.turn parsed evalWhen uuid now d = Scheduler.TOrphaned r →
  sets none_at RBlocked d r ∧ findReadyNodeIds d parsed = [] ∧
  (∀ k, status_of k d ≠ Some NRunning) ∧ (∀ k, status_of k d ≠ Some NBlocked) ∧
  ∃ n, n ∈ jm_values (r_nodes d) ∧ terminal_node (ns_status n) = false.
Proof.
  unfold Scheduler.turn. intros H. destruct (negb _); [done|].
  destruct (findReadyNodeIds d parsed); [|by repeat case_match].
  destruct (Scheduler.incomplete d) as [|n0 l] eqn:Ei; [done|]. rewrite <-Ei in H.
  assert (∀ s k, terminal_node s = false → Scheduler.has_status s (Scheduler.incomplete d) = false →
    status_of k d ≠ Some s) as Hno.
  { intros s k Ht Hs Hk. unfold status_of in Hk. destruct (jm_get k (r_nodes d)) as [n|] eqn:E; simplify_eq/=.
    apply value_status in E as [E _]. unfold Scheduler.has_status in Hs. apply not_true_iff_false in Hs. apply Hs, existsb_elem_of.
    exists n. rewrite incomplete_elem. split; [done|]. by apply bool_decide_eq_true. }
  destruct (Scheduler.has_status NRunning _) eqn:E1; [done|].
  destruct (Scheduler.has_status NBlocked _) eqn:E2; [done|]. simplify_eq. split_and!; [by apply sets_same|done|auto..|].
  exists n0. apply incomplete_elem. rewrite Ei. by left.
Qed.

Lemma after_layer_sets now ids d r :
  Scheduler.after_layer parsed uuid now ids d = Scheduler.AFailed r → sets none_at RFailed d r.
Proof.
  unfold Scheduler.after_layer. intros H. destruct (List.find _ _); [|by destruct (existsb _ _)].
  simplify_eq. by apply sets_same.
Qed.

Lemma finish_sets now d r :
  Scheduler.finish uuid now d = Some r → sets none_at RCompleted d r ∧ r_status d = RRunning.
Proof. unfold Scheduler.finish. case_bool_decide; [|done]. intros; simplify_eq. split; [by apply sets_same|done]. Qed.

(** *** Cancellation *)

Lemma cancel_sets u now message actor r ids r' :
  Cancel.cancelRun u now message actor r = Some (ids, r') →
  sets (λ k, match status_of k r with Some s => if terminal_node s then None else Some NCanceled | None => None end)
    RCanceled r r' ∧ terminal_run (r_status r) = false.
Proof.
  unfold Cancel.cancelRun. intros H. split; [|by destruct (r_status r)].
  assert (r' = addEvent u now "run-canceled" (coalesce message "Workflow run canceled")
    (("killedSessionIds", JArr (map JStr (Cancel.collectWorkflowSessionIds r))) :: actor) None
    (run_updatedAt now (run_completedAt (Some now) (run_error (Some (coalesce message "Workflow run canceled"))
      (run_status RCanceled (run_nodes (map (λ e, (e.1, Cancel.cancelNode (coalesce message "Workflow run canceled") now e.2))
        (r_nodes r)) r)))))) as -> by (by destruct (r_status r); simplify_eq). clear H.
  split; [|done|]; simpl.
  - unfold jm_keys. rewrite <-list_fmap_compose. by apply list_fmap_ext.
  - intros k. unfold status_of. simpl. induction (r_nodes r) as [|[k1 n] l IH]; [done|]. csimpl.
    case_decide; [|exact IH]. simpl. unfold Cancel.cancelNode. by destruct (ns_status n) eqn:E; simpl; rewrite ?E.
Qed.
End Ends.
