(* ===== verification/WorkflowSystem.v ===== *)
(** * A workflow run in progress (packages/daemon/src/workflows/runner-scheduler.ts,
    node-executor.ts, store.ts, runner-canceler.ts)

    The scheduler, the tasks of a layer and the users who cancel run concurrently.  The
    tasks of a layer share one record in memory; the scheduler and a canceler read the
    record of the disk; [save] takes a snapshot and queues its merge with the record of
    the disk.  Each step is what one of them does between two [await]s.

    What the executors of the node types do (prompts, shells, loops, actions) is bounded
    by the relations [works] and [blocks]: they change any value, but the only statuses
    they change are those of the code ([condition], [blockForApproval] and the schedule
    gate).  A human-review gate saves a second time ([Blocking]) before it returns.  Not
    modelled: disks that fail, the approval of a blocked node, which starts another
    scheduler, the recorder of hook events and the commands of the platform. *)

From S2P Require Import Prelude JsString JsMap Json WorkflowRun Workflow.
From stdpp Require Import prelude strings list.
From Stdlib Require Import ZArith Lia.

(** What has become of the callback of a node of the layer. *)
Inductive Settle := SCompleted | SBlocked | SRejected (message : string) | SNoop.
Inductive Task := Running (attempt : Z) | Blocking | Settled (s : Settle).

Inductive End := EReturned | ECompleted | EFailed | EBlocked | EOrphaned | EPreflight | EThrew | ESafety.

Inductive Pc :=
| PPreflight                                                     (* in [preflightWorkflow] *)
| PBegin (ok : bool)                                             (* saving the start *)
| PTurn (safety : Z)                                             (* before [++safety] *)
| PLaunch (safety : Z) (ids : list string)                       (* saving the skips *)
| PLayer (safety : Z) (tasks : list (string * Task))             (* in [Promise.allSettled] *)
| PAfter (safety : Z) (ids : list string) (ok : bool)            (* saving the outputs *)
| PFinish                                                        (* after the loop *)
| PEnd (e : End).

(** A queued snapshot, and whether the scheduler or its tasks saved it. *)
Record Snapshot := { sn_own : bool; sn_run : WorkflowRunRecord }.

Record Sys := {
  disk : WorkflowRunRecord;
  queue : list Snapshot;
  mem : WorkflowRunRecord;                (* the record the scheduler holds *)
  canceling : list WorkflowRunRecord;     (* the records cancelers have read *)
  pc : Pc
}.

(** [mergeExistingRun] and the rename, for a run that is on disk. *)
Definition write (snapshot d : WorkflowRunRecord) : WorkflowRunRecord := Store.mergeExistingRun snapshot (Some d).

(** The saves that the scheduler and its tasks await are done. *)
Definition own_written (q : list Snapshot) : bool := forallb (λ e, negb (sn_own e)) q.

Definition own (r : WorkflowRunRecord) : Snapshot := {| sn_own := true; sn_run := r |}.

Definition goto (p : Pc) (s : Sys) : Sys :=
  {| disk := disk s; queue := queue s; mem := mem s; canceling := canceling s; pc := p |}.
(** The scheduler changes its record. *)
Definition hold (r : WorkflowRunRecord) (s : Sys) : Sys :=
  {| disk := disk s; queue := queue s; mem := r; canceling := canceling s; pc := pc s |}.
(** The scheduler changes its record and saves it. *)
Definition hold_and_save (r : WorkflowRunRecord) (s : Sys) : Sys :=
  {| disk := disk s; queue := queue s ++ [own r]; mem := r; canceling := canceling s; pc := pc s |}.

(** *** The executors *)

Record works (nodeId : string) (m m' : WorkflowRunRecord) : Prop := {
  w_keys : jm_keys (r_nodes m') = jm_keys (r_nodes m);
  w_run : r_status m' = r_status m;
  w_own : status_of nodeId m' = status_of nodeId m;
  w_status : ∀ k, status_of k m' = status_of k m ∨
    (status_of k m = Some NQueued ∧ status_of k m' = Some NSkipped)
}.

Record blocks (nodeId : string) (m m' : WorkflowRunRecord) : Prop := {
  b_keys : jm_keys (r_nodes m') = jm_keys (r_nodes m);
  b_run : r_status m' = RBlocked;
  b_node : status_of nodeId m' = Some NBlocked;
  b_status : ∀ k, k ≠ nodeId → status_of k m' = status_of k m
}.

(** [captureNodeStructuredOutputs] of the completed nodes: values, and the failure of a
    node whose required output is invalid, which ends the run of the scheduler. *)
Record captures (ids : list string) (ok : bool) (m m' : WorkflowRunRecord) : Prop := {
  c_keys : jm_keys (r_nodes m') = jm_keys (r_nodes m);
  c_run : r_status m' = r_status m;
  c_status : ∀ k, status_of k m' = status_of k m ∨
    (ok = false ∧ k ∈ ids ∧ status_of k m = Some NCompleted ∧ status_of k m' = Some NFailed)
}.

Definition settled (t : Task) : bool := match t with Settled _ => true | _ => false end.

(** Who makes a step: the store, the scheduler, an executor at work or at the end of an
    attempt, and a canceler who reads or saves. *)
Inductive actor := Writes | Schedules | Works | Settles | Reads | Cancels.

Section System.
Variable toLowerCase : string → string.
Variable toISOString : Z → string.
Variable parsed : WorkflowDefinition.
Variable evalWhen : WorkflowRunRecord → string → option bool.

(** The callbacks of [layer.toExecute.map], each up to its first [await]: the record in
    memory, the snapshots they queue and the tasks. *)
Fixpoint launch (uuid : nat → string) (now : Z) (ids : list string) (m : WorkflowRunRecord) :
    WorkflowRunRecord * list Snapshot * list (string * Task) :=
  match ids with
  | [] => (m, [], [])
  | nodeId :: rest =>
      match jm_get nodeId parsed, Executor.executable m nodeId with
      | Some node, true =>
          let m1 := Executor.start_node toISOString uuid now nodeId node m in
          let '(m2, saves, tasks) := launch uuid now rest m1 in
          (m2, own m1 :: saves, (nodeId, Running 1) :: tasks)
      | _, _ =>
          let '(m2, saves, tasks) := launch uuid now rest m in
          (m2, saves, (nodeId, Settled SNoop) :: tasks)
      end
  end.

Definition launch_all (uuid : nat → string) (now safety : Z) (ids : list string) (s : Sys) : Sys :=
  let '(m, saves, tasks) := launch uuid now ids (mem s) in
  {| disk := disk s; queue := queue s ++ saves; mem := m; canceling := canceling s; pc := PLayer safety tasks |}.

(** One turn: what the scheduler does with the record it has just read. *)
Definition take_turn (uuid : nat → string) (now safety : Z) (s : Sys) : Sys :=
  if (10000 <? safety + 1)%Z then goto (PEnd ESafety) s else
  match Scheduler.turn parsed evalWhen uuid now (disk s) with
  | Scheduler.TReturn => goto (PEnd EReturned) s
  | Scheduler.TBreak => goto PFinish s
  | Scheduler.TWait => goto (PTurn (safety + 1)) s
  | Scheduler.TBlocked => goto (PEnd EBlocked) s
  | Scheduler.TOrphaned r => goto (PEnd EOrphaned) (hold_and_save r s)
  | Scheduler.TThrow => goto (PEnd EThrew) s
  | Scheduler.TLayer r save ids =>
      goto (PLaunch (safety + 1) ids) (if save : bool then hold_and_save r s else hold r s)
  end.

Definition end_layer (uuid : nat → string) (now safety : Z) (ids : list string) (s : Sys) : Sys :=
  match Scheduler.after_layer parsed uuid now ids (disk s) with
  | Scheduler.AFailed r => goto (PEnd EFailed) (hold_and_save r s)
  | Scheduler.ABlockedLayer => goto (PEnd EBlocked) s
  | Scheduler.ANext => goto (PTurn safety) s
  end.

Definition end_run (uuid : nat → string) (now : Z) (s : Sys) : Sys :=
  match Scheduler.finish uuid now (disk s) with
  | Some r => goto (PEnd ECompleted) (hold_and_save r s)
  | None => goto (PEnd EReturned) s
  end.

Definition task_set (nodeId : string) (t : Task) (s : Sys) : Sys :=
  match pc s with
  | PLayer safety tasks => goto (PLayer safety (jm_set nodeId t tasks)) s
  | _ => s
  end.

Inductive step : actor → Sys → Sys → Prop :=
(* the store *)
| step_write s e q :
    queue s = e :: q →
    step Writes s {| disk := write (sn_run e) (disk s); queue := q; mem := mem s; canceling := canceling s; pc := pc s |}
(* the scheduler *)
| step_begin s uuid now resumed issues :
    pc s = PPreflight →
    step Schedules s (goto (PBegin (match issues with [] => true | _ => false end))
                        (hold_and_save (Scheduler.begin_run uuid now resumed issues (mem s)) s))
| step_begun s ok :
    pc s = PBegin ok → own_written (queue s) = true →
    step Schedules s (goto (if ok : bool then PTurn 0 else PEnd EPreflight) s)
| step_turn s uuid now safety :
    pc s = PTurn safety → step Schedules s (take_turn uuid now safety s)
| step_no_layer s safety :
    pc s = PLaunch safety [] → own_written (queue s) = true → step Schedules s (goto (PTurn safety) s)
| step_launch s uuid now safety ids :
    pc s = PLaunch safety ids → ids ≠ [] → own_written (queue s) = true →
    step Schedules s (launch_all uuid now safety ids s)
| step_settled s uuid now safety tasks reasons ok updated :
    pc s = PLayer safety tasks → forallb (λ t, settled t.2) tasks = true → own_written (queue s) = true →
    captures (jm_keys tasks) ok (Scheduler.trace_rejected uuid now reasons (disk s)) updated →
    step Schedules s (goto (PAfter safety (jm_keys tasks) ok) (hold_and_save updated s))
| step_after s uuid now safety ids ok :
    pc s = PAfter safety ids ok → own_written (queue s) = true →
    step Schedules s (if ok : bool then end_layer uuid now safety ids s else goto (PEnd EThrew) s)
| step_finish s uuid now : pc s = PFinish → step Schedules s (end_run uuid now s)
(* the tasks *)
| step_work s safety tasks nodeId k m :
    pc s = PLayer safety tasks → jm_get nodeId tasks = Some (Running k) → works nodeId (mem s) m →
    step Works s (hold m s)
| step_save s safety tasks nodeId k :
    pc s = PLayer safety tasks → jm_get nodeId tasks = Some (Running k) → step Works s (hold_and_save (mem s) s)
| step_completed s uuid now safety tasks nodeId k :
    pc s = PLayer safety tasks → jm_get nodeId tasks = Some (Running k) →
    step Settles s (task_set nodeId (Settled SCompleted)
             (hold_and_save (Executor.complete_node uuid now nodeId (mem s)) s))
| step_blocked s safety tasks nodeId k m t :
    pc s = PLayer safety tasks → jm_get nodeId tasks = Some (Running k) → blocks nodeId (mem s) m →
    t = Blocking ∨ t = Settled SBlocked →
    step Settles s (task_set nodeId t (hold_and_save m s))
| step_gate_blocked s safety tasks nodeId m :
    pc s = PLayer safety tasks → jm_get nodeId tasks = Some Blocking → works nodeId (mem s) m →
    step Settles s (task_set nodeId (Settled SBlocked) (hold_and_save m s))
| step_retry s uuid now safety tasks nodeId node t k m :
    pc s = PLayer safety tasks → jm_get nodeId tasks = Some (Running k) → jm_get nodeId parsed = Some node →
    Executor.on_throw toLowerCase uuid now nodeId node k t (mem s) = Executor.Again m →
    step Settles s (task_set nodeId (Running (k + 1)) (hold_and_save m s))
| step_failed s uuid now safety tasks nodeId node t k m :
    pc s = PLayer safety tasks → jm_get nodeId tasks = Some (Running k) → jm_get nodeId parsed = Some node →
    Executor.on_throw toLowerCase uuid now nodeId node k t (mem s) = Executor.GiveUp m →
    step Settles s (task_set nodeId (Settled (SRejected (Executor.th_message t))) (hold_and_save m s))
(* the cancelers, who kill the sessions between the two steps *)
| step_cancel_read s :
    terminal_run (r_status (disk s)) = false →
    step Reads s {| disk := disk s; queue := queue s; mem := mem s; canceling := disk s :: canceling s; pc := pc s |}
| step_cancel_save s l1 r l2 uuid now message actor sessionIds r' :
    canceling s = l1 ++ r :: l2 → Cancel.cancelRun uuid now message actor r = Some (sessionIds, r') →
    step Cancels s {| disk := disk s; queue := queue s ++ [{| sn_own := false; sn_run := r' |}]; mem := mem s;
              canceling := l1 ++ l2; pc := pc s |}.

(** The states of a scheduler started on the record [d0]. *)
Definition started (d0 : WorkflowRunRecord) : Sys :=
  {| disk := d0; queue := []; mem := d0; canceling := []; pc := PPreflight |}.

Inductive reaches (d0 : WorkflowRunRecord) : Sys → Prop :=
| reaches_start : reaches d0 (started d0)
| reaches_step e s s' : reaches d0 s → step e s s' → reaches d0 s'.
End System.
