(* ===== verification/WorkflowExecutors.v ===== *)
(** * The executors that change statuses (packages/daemon/src/workflows/node-executor.ts,
    node-registry.ts)

    Conditions, artifacts, the schedule gate and the request for an approval, and that
    they stay within [works] and [blocks], the bounds that WorkflowSystem.v puts on the
    work of executors. *)

From S2P Require Import Prelude JsString JsMap Json WorkflowRun Workflow WorkflowRules WorkflowSystem.
From stdpp Require Import prelude strings list.
From Stdlib Require Import ZArith Lia.

Section Executors.
(** [new Date(t).toISOString()] of a time in the range of dates. *)
Variable toISOString : Z → string.
Variable uuid : nat → string.

(** ** Conditions and artifacts *)

(** [state.outputs = { ...(state.outputs ?? {}), ...entries }] *)
Definition node_outputs (entries : record) (s : WorkflowNodeRunState) : WorkflowNodeRunState :=
  let outputs := Executor.record_or_empty (field (ns_rest s) "outputs") in
  {| ns_id := ns_id s; ns_status := ns_status s; ns_startedAt := ns_startedAt s; ns_completedAt := ns_completedAt s;
     ns_output := ns_output s; ns_exitCode := ns_exitCode s; ns_error := ns_error s;
     ns_skipReason := ns_skipReason s; ns_attempts := ns_attempts s; ns_sessionId := ns_sessionId s;
     ns_iterations := ns_iterations s; ns_inlineAgents := ns_inlineAgents s;
     ns_rest := jm_set "outputs" (JObj (fold_left (λ o e, jm_set e.1 e.2 o) entries outputs)) (ns_rest s) |}.

Definition set_output (output : string) (s : WorkflowNodeRunState) : WorkflowNodeRunState :=
  node_output (Some output) (ns_exitCode s) s.

Definition skip_branch (now : Z) (nodeId branch expression branchNodeId : string) (run : WorkflowRunRecord) :
    WorkflowRunRecord :=
  if negb (bool_decide (status_of branchNodeId run = Some NQueued)) then run else
  let run := on_node branchNodeId (λ s, node_completedAt (Some now)
    (node_skipReason (Some ("condition:" +:+ nodeId +:+ ":" +:+ branch)) (node_status NSkipped s))) run in
  log uuid now "node-skipped" ("Node " +:+ branchNodeId +:+ " skipped by condition " +:+ nodeId)
    [("conditionNodeId", JStr nodeId); ("branch", JStr branch); ("expression", JStr expression)]
    (Some branchNodeId) run.

(** After the expression has been evaluated to [matched]. *)
Definition condition (now : Z) (nodeId expression : string) (then_ else_ : option (list string)) (matched : bool)
    (run : WorkflowRunRecord) : WorkflowRunRecord :=
  let selected := if matched then coalesce then_ [] else coalesce else_ [] in
  let skipped := if matched then coalesce else_ [] else coalesce then_ [] in
  let branch := if matched then "then" else "else" in
  let names l := JArr (map JStr l) in
  let run := on_node nodeId (λ s,
    node_outputs [("result", JBool matched); ("branch", JStr branch); ("selected", names selected);
                  ("skipped", names skipped)]
      (set_output (if matched then "true" else "false") s)) run in
  let run := fold_left (λ r b, skip_branch now nodeId branch expression b r) skipped run in
  log uuid now "condition-evaluated" ("Condition node " +:+ nodeId +:+ " selected " +:+ branch)
    [("expression", JStr expression); ("result", JBool matched); ("branch", JStr branch);
     ("selected", names selected); ("skipped", names skipped)] (Some nodeId) run.

(** ** Approvals *)

(** [Number.parseInt] of digits: [None] for [Infinity]. *)
Definition finite_int (digits : Z) : option Z :=
  if (2 ^ 1024 - 2 ^ 970 <=? digits)%Z then None else Some digits.

Definition seconds : list string := ["s"; "sec"; "secs"; "second"; "seconds"].
Definition minutes : list string := ["m"; "min"; "mins"; "minute"; "minutes"].
Definition hours : list string := ["h"; "hr"; "hrs"; "hour"; "hours"].
Definition days : list string := ["d"; "day"; "days"].

(** The match of the pattern: the digits and the unit in lower case. *)
Definition match_timeout (raw : string) : option (Z * string) :=
  let '(digits, rest) := span is_digit (String.list_ascii_of_string raw) in
  let unit := lower (trimStart (String.string_of_list_ascii rest)) in
  if bool_decide (digits = []) then None
  else if bool_decide (unit ∈ seconds ++ minutes ++ hours ++ days) then Some (Z.of_N (digits_value digits), unit)
  else None.

Inductive TimeoutAt := NoTimeout | At (iso : string) | InvalidDate.

Definition max_date : Z := 8640000000000000.

Definition timeoutAtIso (value : option json) (requestedAt : Z) : TimeoutAt :=
  match value with
  | Some (JStr value) =>
      match match_timeout (trim value) with
      | None => NoTimeout
      | Some (digits, unit) =>
          match finite_int digits with
          | None => NoTimeout
          | Some amount =>
              if (amount <=? 0)%Z then NoTimeout else
              let multiplier : Z :=
                if startsWith unit "s" then 1000%Z else if startsWith unit "m" then 60000%Z
                else if startsWith unit "h" then 3600000%Z else 86400000%Z in
              let t := (requestedAt + amount * multiplier)%Z in
              if (t <=? max_date)%Z then At (toISOString t) else InvalidDate
          end
      end
  | _ => NoTimeout
  end.

Definition stringValue (value : option json) : option string :=
  match value with Some (JStr s) => if nonblank s then Some s else None | _ => None end.

(** [options] holds values of any type.  [None] when the date of the timeout is out of
    range, where [toISOString] throws. *)
Definition approvalBlockMetadata (options : record) (requestedAt : Z) : option record :=
  let gateIntent := stringValue (field options "gateIntent") in
  let onTimeout := stringValue (field options "onTimeout") in
  let intent := match gateIntent with
                | Some g => if bool_decide (g ∈ ["plan"; "approval"]) then [("gate_intent", JStr g)] else []
                | None => []
                end in
  let tags := match field options "reviewerTags" with
              | Some (JArr l) =>
                  match omap (λ v, JStr <$> stringValue (Some v)) l with
                  | [] => []
                  | tags => [("reviewer_tags", JArr tags)]
                  end
              | _ => []
              end in
  let on := match onTimeout with
            | Some o => if bool_decide (o ∈ ["escalate"; "auto-approve"; "cancel"]) then [("on_timeout", JStr o)] else []
            | None => []
            end in
  match timeoutAtIso (field options "timeout") requestedAt with
  | NoTimeout => Some (intent ++ tags ++ on)
  | At iso => Some (intent ++ tags ++ on ++ (if truthy_str iso then [("timeout_at", JStr iso)] else []))
  | InvalidDate => None
  end.

(** [state.metadata = { ...(state.metadata ?? {}), ...entries }; state.approval = value] *)
Definition node_approval (entries : record) (approval : json) (s : WorkflowNodeRunState) : WorkflowNodeRunState :=
  let metadata := Executor.record_or_empty (field (ns_rest s) "metadata") in
  {| ns_id := ns_id s; ns_status := ns_status s; ns_startedAt := ns_startedAt s; ns_completedAt := ns_completedAt s;
     ns_output := ns_output s; ns_exitCode := ns_exitCode s; ns_error := ns_error s;
     ns_skipReason := ns_skipReason s; ns_attempts := ns_attempts s; ns_sessionId := ns_sessionId s;
     ns_iterations := ns_iterations s; ns_inlineAgents := ns_inlineAgents s;
     ns_rest := jm_set "approval" approval
       (jm_set "metadata" (JObj (fold_left (λ o e, jm_set e.1 e.2 o) entries metadata)) (ns_rest s)) |}.

Definition blockForApproval (now : Z) (nodeId prompt : string) (options : record) (run : WorkflowRunRecord) :
    option WorkflowRunRecord :=
  match jm_get nodeId (r_nodes run) with
  | None => Some run
  | Some _ =>
      entries ← approvalBlockMetadata options now;
      let approval := JObj [("prompt", JStr prompt); ("requestedAt", JNum (num_of_Z now))] in
      let run := on_node nodeId (λ s, node_approval entries approval (node_status NBlocked s)) run in
      let run := run_updatedAt now (run_status RBlocked run) in
      let run := log uuid now "approval-requested" ("Approval requested for node " +:+ nodeId)
                   [("prompt", JStr prompt)] (Some nodeId) run in
      Some (log uuid now "run-blocked" ("Workflow blocked by approval gate: " +:+ nodeId) [] (Some nodeId) run)
  end.

(** The schedule gate, with the time [waitUntil] still to come; [gate] is its definition. *)
Definition schedule_gate (now waitUntil : Z) (nodeId : string) (gate : json) (run : WorkflowRunRecord) :
    WorkflowRunRecord :=
  let iso := toISOString waitUntil in
  let run := on_node nodeId (λ s, set_output ("Waiting until " +:+ iso) (node_status NBlocked s)) run in
  log uuid now "gate-blocked" ("Schedule gate " +:+ nodeId +:+ " is waiting until " +:+ iso)
    [("gate", gate); ("waitUntil", JStr iso)] (Some nodeId) (run_updatedAt now (run_status RBlocked run)).

(** ** They stay within the bounds *)

Lemma kept_works nodeId r r' : sets none_at (r_status r) r r' → works nodeId r r'.
Proof.
  intros [Hk Hr Hs]. assert (∀ k, status_of k r' = status_of k r) as E by (intros k; rewrite Hs; by destruct (status_of k r)).
  split; auto.
Qed.

Lemma works_trans nodeId r1 r2 r3 : works nodeId r1 r2 → works nodeId r2 r3 → works nodeId r1 r3.
Proof.
  intros [K1 R1 O1 S1] [K2 R2 O2 S2]. split; [congruence..|]. intros k. destruct (S1 k) as [E1|[E1 E1']], (S2 k) as [E2|[E2 E2']].
  - left. congruence.
  - right. split; congruence.
  - right. split; congruence.
  - right. split; congruence.
Qed.

Lemma skip_branch_works now nodeId branch expression b r :
  status_of nodeId r ≠ Some NQueued → works nodeId r (skip_branch now nodeId branch expression b r).
Proof.
  intros Hn. unfold skip_branch. destruct (bool_decide (status_of b r = Some NQueued)) eqn:E; simpl; split_bools.
  2: { apply kept_works, sets_id. }
  assert (sets (only b NSkipped) (r_status r) r (skip_branch now nodeId branch expression b r)) as [Hk Hr Hs].
  { unfold skip_branch. rewrite bool_decide_true by done. simpl. by eapply sets_on_node. }
  unfold skip_branch in *. rewrite bool_decide_true in * by done. simpl in *. split; [done|done| |].
  - rewrite Hs. unfold only. case_decide; [by subst|]. by destruct (status_of nodeId r).
  - intros k. rewrite Hs. unfold only. case_decide; [subst; rewrite E; by right|left; by destruct (status_of k r)].
Qed.

Lemma condition_works now nodeId expression then_ else_ matched r :
  status_of nodeId r ≠ Some NQueued → works nodeId r (condition now nodeId expression then_ else_ matched r).
Proof.
  intros Hn. unfold condition. set (r1 := on_node nodeId _ r).
  assert (works nodeId r r1) as H1 by (apply kept_works; by eapply sets_kept).
  eapply works_trans; [exact H1|]. clearbody r1.
  assert (status_of nodeId r1 ≠ Some NQueued) as Hn1 by (by rewrite (w_own _ _ _ H1)).
  match goal with |- works _ _ (log _ _ _ _ _ _ ?r2) =>
    apply (works_trans _ _ r2); [|apply kept_works; by apply sets_same] end.
  generalize (if matched then coalesce else_ [] else coalesce then_ []).
  intros l. clear H1 Hn. revert r1 Hn1. induction l as [|b l IH]; intros r1 Hn1; cbn [fold_left]; [apply kept_works, sets_id|].
  pose proof (skip_branch_works now nodeId (if matched then "then" else "else") expression b r1 Hn1) as Hb.
  eapply works_trans; [exact Hb|]. apply IH. by rewrite (w_own _ _ _ Hb).
Qed.

Lemma sets_blocks k r r' : sets (only k NBlocked) RBlocked r r' → is_Some (status_of k r) → blocks k r r'.
Proof.
  intros [Hk Hr Hs] [st E]. split; [done|done| |].
  - rewrite Hs, E. unfold only. by rewrite decide_True.
  - intros k' Hne. rewrite Hs. unfold only. rewrite decide_False by done. by destruct (status_of k' r).
Qed.

Lemma blockForApproval_blocks now nodeId prompt options r r' :
  is_Some (status_of nodeId r) → blockForApproval now nodeId prompt options r = Some r' → blocks nodeId r r'.
Proof.
  intros Hst H. apply sets_blocks; [|done]. unfold blockForApproval in H.
  apply status_is_Some, jm_key_is_Some in Hst as [s E]. rewrite E in H.
  apply bind_Some in H as (entries & _ & [= <-]). by eapply sets_on_node.
Qed.

Lemma schedule_gate_blocks now waitUntil nodeId gate r :
  is_Some (status_of nodeId r) → blocks nodeId r (schedule_gate now waitUntil nodeId gate r).
Proof. intros Hst. apply sets_blocks; [|done]. by eapply sets_on_node. Qed.
End Executors.
