(* ===== verification/WorkflowInvariant.v ===== *)
(** * The invariant of a workflow run in progress

    What holds of every record that the scheduler, its tasks and the cancelers read and
    save ([fine]), how the record of the disk relates to the one the scheduler holds
    ([coherent]), and what holds at each point of the scheduler ([at_pc]).  Every step
    of WorkflowSystem.v preserves them. *)

From S2P Require Import Prelude JsString JsMap Json WorkflowRun Workflow WorkflowRules WorkflowSystem.
From stdpp Require Import prelude strings list.
From Stdlib Require Import ZArith Lia.

(** ** Writes *)

Lemma done_at_true k r : done_at k r = true ↔ ∃ s, status_of k r = Some s ∧ terminal_node s = true.
Proof. unfold done_at. destruct (status_of k r); simpl; naive_solver. Qed.

(** A write keeps the node of the disk when it has ended, and otherwise takes that of
    the snapshot. *)
Lemma write_status k m d :
  run_wf d → is_Some (status_of k m) →
  status_of k (write m d) = status_of k m ∧ (done_at k d = true → done_at k m = true) ∨
  status_of k (write m d) = status_of k d ∧ done_at k d = true.
Proof.
  intros Hd Hm. unfold done_at, status_of in *. unfold write.
  rewrite (proj1 (merge_run_fields m d)), merge_lookup by done.
  destruct (jm_get k (r_nodes m)) as [s|]; [|by destruct Hm].
  destruct (jm_get k (r_nodes d)) as [e|]; simpl; [|by left].
  unfold Store.shouldPreserveExistingNode.
  destruct (terminal_node (ns_status e)), (terminal_node (ns_status s)) eqn:?, (_ && _); simpl; try (by auto);
    case_match; auto.
Qed.

Lemma write_run m d :
  r_status (write m d) = r_status m ∨ r_status (write m d) = r_status d ∧ terminal_run (r_status d) = true.
Proof.
  unfold write. destruct (merge_run_fields m d) as (_ & -> & _). unfold Store.preserves_run.
  destruct (terminal_run (r_status d)); simpl; [|by left]. repeat case_match; auto.
Qed.

Section Records.
Variable parsed : WorkflowDefinition.
(** The nodes of the run. *)
Variable K : list string.

(** A node that has been launched has parents that have ended. *)
Definition began (s : WorkflowNodeStatus) : bool :=
  match s with NRunning | NBlocked | NCompleted | NFailed => true | _ => false end.
Definition ordered (r : WorkflowRunRecord) : Prop :=
  ∀ k s node p, status_of k r = Some s → began s = true → jm_get k parsed = Some node → p ∈ needs_of node →
    parent_terminal r p = true.

(** A run that is completed or canceled has no node left. *)
Definition closed (s : WorkflowRunStatus) : bool :=
  match s with RCompleted | RCanceled => true | _ => false end.

Record fine (r : WorkflowRunRecord) : Prop := {
  f_wf : run_wf r;
  f_keys : ∀ k, is_Some (status_of k r) ↔ k ∈ K;
  f_ordered : ordered r;
  f_closed : closed (r_status r) = true → ended r
}.

Lemma fine_status k r s : fine r → status_of k r = Some s → k ∈ K.
Proof. intros Hf Hs. apply (f_keys _ Hf). by rewrite Hs. Qed.

Lemma parent_terminal_sub r r' p :
  (∀ k, is_Some (status_of k r') → is_Some (status_of k r)) →
  (done_at p r = true → done_at p r' = true) →
  parent_terminal r p = true → parent_terminal r' p = true.
Proof.
  rewrite !parent_terminal_done. unfold done_at. intros Hk Hd Hp. specialize (Hk p).
  destruct (status_of p r'); simpl in *; [|done]. destruct (status_of p r); simpl in *; [auto|].
  by destruct Hk as [? ?].
Qed.

Lemma write_keys k m d : fine m → fine d → is_Some (status_of k (write m d)) ↔ k ∈ K.
Proof.
  intros Hm Hd. split.
  - intros Hs. destruct (decide (k ∈ K)) as [|Hk]; [done|]. exfalso.
    rewrite <-(f_keys _ Hm) in Hk. pose proof Hk as Hk'. rewrite (f_keys _ Hm), <-(f_keys _ Hd) in Hk'.
    unfold write, status_of in *. rewrite (proj1 (merge_run_fields m d)), merge_lookup in Hs by apply Hd.
    rewrite fmap_is_Some in *. destruct (jm_get k (r_nodes m)); [by eauto|].
    destruct (jm_get k (r_nodes d)); [by eauto|]. by destruct Hs.
  - intros Hk. pose proof (proj2 (f_keys _ Hm k) Hk) as Hsm. pose proof (proj2 (f_keys _ Hd k) Hk) as Hsd.
    destruct (write_status k m d (f_wf _ Hd) Hsm) as [[-> _]|[-> _]]; done.
Qed.

(** What has ended on disk stays ended. *)
Lemma write_done k m d : fine m → fine d → done_at k d = true → done_at k (write m d) = true.
Proof.
  intros Hm Hd Hk. assert (is_Some (status_of k m)) as Hs.
  { apply (f_keys _ Hm). apply done_at_true in Hk as (s & E & _). by eapply fine_status. }
  destruct (write_status k m d (f_wf _ Hd) Hs) as [[E H]|[E H]]; unfold done_at in *; rewrite E; auto.
Qed.

Lemma write_done_snapshot k m d : fine m → fine d → done_at k m = true → done_at k (write m d) = true.
Proof.
  intros Hm Hd Hk. assert (is_Some (status_of k m)) as Hs by (apply done_at_true in Hk as (s & -> & _); done).
  destruct (write_status k m d (f_wf _ Hd) Hs) as [[E H]|[E H]]; unfold done_at in *; by rewrite E.
Qed.

Lemma ended_done r : fine r → ended r ↔ ∀ k, k ∈ K → done_at k r = true.
Proof.
  intros Hf. unfold ended. setoid_rewrite done_at_true. split.
  - intros H k Hk. apply (f_keys _ Hf) in Hk as [s Hs]. eauto.
  - intros H k s Hs. destruct (H k (fine_status _ _ _ Hf Hs)) as (s' & ? & ?). congruence.
Qed.

Lemma fine_write m d : fine m → fine d → fine (write m d).
Proof.
  intros Hm Hd. pose proof (λ k, write_keys k m d Hm Hd) as Hk. split; [|done| |].
  - unfold run_wf, write. rewrite (proj1 (merge_run_fields m d)). apply merge_nodup, Hm.
  - intros k s node p Hs Hb Hn Hp.
    assert (is_Some (status_of k m)) as Hsm by (apply (f_keys _ Hm), Hk; by rewrite Hs).
    destruct (write_status k m d (f_wf _ Hd) Hsm) as [[E _]|[E _]]; rewrite E in Hs.
    + apply (parent_terminal_sub m); [intros ?; by rewrite Hk, (f_keys _ Hm)|by apply write_done_snapshot|].
      by eapply (f_ordered _ Hm).
    + apply (parent_terminal_sub d); [intros ?; by rewrite Hk, (f_keys _ Hd)|by apply write_done|].
      by eapply (f_ordered _ Hd).
  - intros Hc k s Hs. destruct (write_run m d) as [E|[E _]]; rewrite E in Hc.
    + pose proof (f_closed _ Hm Hc) as He.
      assert (done_at k (write m d) = true) as Hdn; [|unfold done_at in Hdn; by rewrite Hs in Hdn].
      apply write_done_snapshot; [done..|]. apply ended_done; [done..|]. apply Hk. by rewrite Hs.
    + pose proof (f_closed _ Hd Hc) as He.
      assert (done_at k (write m d) = true) as Hdn; [|unfold done_at in Hdn; by rewrite Hs in Hdn].
      apply write_done; [done..|]. apply ended_done; [done..|]. apply Hk. by rewrite Hs.
Qed.
End Records.

(** ** The disk and the record of the scheduler *)

(** The disk once the scheduler's own saves are written. *)
Fixpoint drain (q : list Snapshot) (d : WorkflowRunRecord) : WorkflowRunRecord :=
  match q with
  | [] => d
  | e :: q => drain q (if sn_own e then write (sn_run e) d else d)
  end.

(** A node that has not ended on disk is as the scheduler holds it. *)
Definition coherent (m d : WorkflowRunRecord) : Prop :=
  ∀ k, done_at k d = false → status_of k m = status_of k d.

Lemma drain_app q1 q2 d : drain (q1 ++ q2) d = drain q2 (drain q1 d).
Proof. revert d. induction q1; intros d; simpl; auto. Qed.

Lemma drain_written q d : own_written q = true → drain q d = d.
Proof.
  revert d. induction q as [|e q IH]; intros d; simpl; [done|].
  intros [He Hq]%andb_true_iff. apply negb_true_iff in He. rewrite He. auto.
Qed.

Section Coherence.
Context {parsed : WorkflowDefinition} {K : list string}.
Notation fine := (fine parsed K).

Definition fine_snapshot (e : Snapshot) : Prop := fine (sn_run e) ∧ (sn_own e = false → ended (sn_run e)).

Lemma fine_drain q d : Forall fine_snapshot q → fine d → fine (drain q d).
Proof.
  intros Hq. revert d. induction Hq as [|e q [He _] _ IH]; intros d Hd; simpl; [done|].
  apply IH. destruct (sn_own e); [by apply fine_write|done].
Qed.

Lemma drain_done k q d : Forall fine_snapshot q → fine d → done_at k d = true → done_at k (drain q d) = true.
Proof.
  intros Hq. revert d. induction Hq as [|e q [He _] _ IH]; intros d Hd Hk; simpl; [done|].
  destruct (sn_own e); [|by apply IH]. apply IH; [by apply fine_write|]. by eapply write_done.
Qed.

Lemma coherent_refl d : coherent d d.
Proof. by intros k _. Qed.

Lemma coherent_write m d : fine m → fine d → coherent m (write m d).
Proof.
  intros Hm Hd k Hk. destruct (status_of k m) as [s|] eqn:Es.
  - assert (is_Some (status_of k m)) as Hs by by rewrite Es.
    destruct (write_status k m d (f_wf _ _ _ Hd) Hs) as [[-> _]|[E H]]; [done|].
    unfold done_at in Hk, H. rewrite E in Hk. congruence.
  - destruct (status_of k (write m d)) eqn:E; [|done].
    assert (is_Some (status_of k (write m d))) as Hs by by rewrite E.
    apply (write_keys _ _ _ _ _ Hm Hd) in Hs. apply (f_keys _ _ _ Hm) in Hs. rewrite Es in Hs. by destruct Hs.
Qed.

Lemma coherent_ended m d : fine m → fine d → (∀ k, k ∈ K → done_at k d = true) → coherent m d.
Proof.
  intros Hm Hd He k Hk. destruct (decide (k ∈ K)) as [Hin|Hin]; [rewrite He in Hk; done|].
  destruct (status_of k m) as [s|] eqn:E1; [by apply (fine_status _ _ _ _ _ Hm) in E1|].
  destruct (status_of k d) as [s|] eqn:E2; [by apply (fine_status _ _ _ _ _ Hd) in E2|done].
Qed.

Lemma coherent_sets m r d st : sets none_at st m r → coherent m d → coherent r d.
Proof. intros [_ _ Hn] Hc k Hk. rewrite Hn. rewrite (Hc k Hk). by destruct (status_of k d). Qed.

(** Writing a canceler's snapshot ends every node. *)
Lemma write_ended m d k : fine m → fine d → ended m → k ∈ K → done_at k (write m d) = true.
Proof. intros Hm Hd He Hk. eapply write_done_snapshot; [done..|]. by eapply ended_done. Qed.
End Coherence.

(** ** Counting *)

Lemma length_filter_le {A} (p q : A → bool) l :
  (∀ x, x ∈ l → p x = true → q x = true) → (length (List.filter p l) ≤ length (List.filter q l))%nat.
Proof.
  induction l as [|y l IH]; intros H; simpl; [done|].
  pose proof (IH (λ x Hx, H x (list_elem_of_further _ _ _ Hx))). pose proof (H y ltac:(by left)).
  destruct (p y), (q y); simpl; first [lia|naive_solver].
Qed.

Lemma length_filter_lt {A} (p q : A → bool) l x :
  (∀ x, x ∈ l → p x = true → q x = true) → x ∈ l → q x = true → p x = false →
  (length (List.filter p l) < length (List.filter q l))%nat.
Proof.
  intros H Hx Hq Hp. apply list_elem_of_split in Hx as (l1 & l2 & ->). rewrite !List.filter_app. simpl.
  rewrite Hq, Hp, !length_app. simpl.
  pose proof (length_filter_le p q l1 ltac:(set_solver)). pose proof (length_filter_le p q l2 ltac:(set_solver)). lia.
Qed.

Section Count.
Variable K : list string.

(** The queued nodes of a run. *)
Definition is_queued (r : WorkflowRunRecord) (k : string) : bool := bool_decide (status_of k r = Some NQueued).
Definition queued_count (r : WorkflowRunRecord) : Z := Z.of_nat (length (List.filter (is_queued r) K)).

Lemma queued_count_nonneg r : (0 ≤ queued_count r)%Z.
Proof. unfold queued_count. lia. Qed.

Lemma queued_count_le r r' :
  (∀ k, status_of k r' = Some NQueued → status_of k r = Some NQueued) → (queued_count r' ≤ queued_count r)%Z.
Proof.
  intros H. apply Nat2Z.inj_le, length_filter_le. intros k _. unfold is_queued. rewrite !bool_decide_eq_true. auto.
Qed.

Lemma queued_count_lt k r r' :
  (∀ k, status_of k r' = Some NQueued → status_of k r = Some NQueued) →
  k ∈ K → status_of k r = Some NQueued → status_of k r' ≠ Some NQueued → (queued_count r' + 1 ≤ queued_count r)%Z.
Proof.
  intros H Hk Hq Hn. assert (length (List.filter (is_queued r') K) < length (List.filter (is_queued r) K))%nat.
  { apply (length_filter_lt _ _ _ k); [|done|by apply bool_decide_eq_true|by apply bool_decide_eq_false].
    intros k' _. unfold is_queued. rewrite !bool_decide_eq_true. auto. }
  unfold queued_count. lia.
Qed.
End Count.

(** ** Changes that keep a record [fine] *)

Section Changes.
Context {parsed : WorkflowDefinition} {K : list string}.
Notation fine := (fine parsed K).

Definition parents_done (r : WorkflowRunRecord) (k : string) : Prop :=
  ∀ node p, jm_get k parsed = Some node → p ∈ needs_of node → parent_terminal r p = true.

Lemma fine_change r r' :
  fine r → jm_keys (r_nodes r') = jm_keys (r_nodes r) →
  (∀ k, done_at k r = true → done_at k r' = true) →
  (∀ k s', status_of k r' = Some s' → began s' = true →
     (∃ s, status_of k r = Some s ∧ began s = true) ∨ parents_done r k) →
  (closed (r_status r') = true → closed (r_status r) = true ∨ ∀ k, k ∈ K → done_at k r' = true) →
  fine r'.
Proof.
  intros Hf Hk Hd Hb Hc.
  assert (∀ k, is_Some (status_of k r') ↔ is_Some (status_of k r)) as Hs by (intros k; by rewrite !status_is_Some, Hk).
  assert (∀ k, is_Some (status_of k r') ↔ k ∈ K) as HK by (intros k; rewrite Hs; apply Hf).
  split; [|done| |].
  - unfold run_wf, NoDup_keys. rewrite Hk. apply Hf.
  - intros k s' node p Hk' Hs' Hn Hp. apply (parent_terminal_sub r); [by intros ? ?%Hs|by apply Hd|].
    destruct (Hb k s' Hk' Hs') as [(s & ? & ?)|Hp']; [by eapply (f_ordered _ _ _ Hf)|by eapply Hp'].
  - intros Hr. destruct (Hc Hr) as [E|He].
    + pose proof (proj1 (ended_done _ _ _ Hf) (f_closed _ _ _ Hf E)) as He. intros k s Hks.
      assert (done_at k r' = true) as Hdn by (apply Hd, He, HK; by rewrite Hks). unfold done_at in Hdn. by rewrite Hks in Hdn.
    + intros k s Hks. assert (done_at k r' = true) as Hdn by (apply He, HK; by rewrite Hks).
      unfold done_at in Hdn. by rewrite Hks in Hdn.
Qed.

(** The statuses of the nodes are kept. *)
Lemma fine_same r r' :
  fine r → jm_keys (r_nodes r') = jm_keys (r_nodes r) → (∀ k, status_of k r' = status_of k r) →
  (closed (r_status r') = true → closed (r_status r) = true ∨ ∀ k, k ∈ K → done_at k r = true) → fine r'.
Proof.
  intros Hf Hk Hs Hc. assert (∀ k, done_at k r' = done_at k r) as Hd by (intros k; unfold done_at; by rewrite Hs).
  apply (fine_change r); [done..|by intros k; rewrite Hd| |setoid_rewrite Hd; done].
  - intros k s' E ?. left. exists s'. by rewrite <-Hs.
Qed.

Lemma sets_none_status st r r' k : sets none_at st r r' → status_of k r' = status_of k r.
Proof. intros H. rewrite (sets_node _ _ _ _ H). by destruct (status_of k r). Qed.

Lemma fine_none st r r' :
  sets none_at st r r' → fine r → (closed st = true → closed (r_status r) = true ∨ ∀ k, k ∈ K → done_at k r = true) → fine r'.
Proof.
  intros Hs Hf Hc. apply (fine_same r); [done|by apply Hs|by intros; eapply sets_none_status|].
  by rewrite (sets_run _ _ _ _ Hs).
Qed.

(** The nodes that have ended stay ended when only others change. *)
Lemma done_sets f st r r' k :
  sets f st r r' → (∀ s, f k = Some s → done_at k r = true → terminal_node s = true) →
  done_at k r = true → done_at k r' = true.
Proof.
  intros [_ _ Hs] Hf Hd. unfold done_at in *. rewrite Hs. destruct (status_of k r) as [s|]; [|done].
  destruct (f k) as [s'|] eqn:E; [|done]. simpl in *. by eapply Hf.
Qed.

(** One node changes, which has not ended: it ends, or its parents have ended. *)
Lemma fine_only k0 s0 r r' :
  fine r → jm_keys (r_nodes r') = jm_keys (r_nodes r) → (closed (r_status r') = true → closed (r_status r) = true) →
  (∀ k, k ≠ k0 → status_of k r' = status_of k r) → status_of k0 r' = Some s0 →
  done_at k0 r = false → (∃ s, status_of k0 r = Some s ∧ began s = true) ∨ parents_done r k0 → fine r'.
Proof.
  intros Hf Hk Hr Hs H0 Hd Hb. apply (fine_change r); [done..| | |auto].
  - intros k Hdk. destruct (decide (k = k0)) as [->|Hne]; [congruence|]. unfold done_at. by rewrite Hs.
  - intros k s' E Hs'. destruct (decide (k = k0)) as [->|Hne]; [done|]. left. exists s'. by rewrite <-(Hs k Hne).
Qed.

(** Queued nodes are skipped. *)
Lemma fine_skips r r' :
  fine r → jm_keys (r_nodes r') = jm_keys (r_nodes r) → (closed (r_status r') = true → closed (r_status r) = true) →
  (∀ k, status_of k r' = status_of k r ∨ status_of k r = Some NQueued ∧ status_of k r' = Some NSkipped) → fine r'.
Proof.
  intros Hf Hk Hr Hs. apply (fine_change r); [done..| | |auto].
  - intros k. unfold done_at. destruct (Hs k) as [->|[-> ->]]; done.
  - intros k s' E Hb. destruct (Hs k) as [E'|[_ E']]; [|by simplify_eq]. left. exists s'. by rewrite <-E'.
Qed.

(** A completed node whose outputs are invalid fails. *)
Lemma fine_captures r r' ids ok : fine r → captures ids ok r r' → fine r'.
Proof.
  intros Hf [Hk Hr Hs]. apply (fine_change r); [done..| | |rewrite Hr; auto].
  - intros k. unfold done_at. destruct (Hs k) as [->|(_ & _ & -> & ->)]; done.
  - intros k s' E Hb. destruct (Hs k) as [E'|(_ & _ & E' & _)]; left; [exists s'|exists NCompleted]; [by rewrite <-E'|done].
Qed.

Lemma fine_cancel u now message actor r ids r' :
  Cancel.cancelRun u now message actor r = Some (ids, r') → fine r → fine r' ∧ ended r'.
Proof.
  intros [[Hk0 Hr Hs] _]%cancel_sets Hf.
  assert (∀ k s, status_of k r' = Some s →
    terminal_node s = true ∧ (began s = true → status_of k r = Some s)) as Ht.
  { intros k s E. rewrite Hs in E. destruct (status_of k r) as [s'|]; [|done].
    destruct (terminal_node s') eqn:Et; by simplify_eq. }
  assert (ended r') as He by by intros k s [? _]%Ht.
  split; [|done]. apply (fine_change r); [done..| | |].
  - intros k. unfold done_at. rewrite Hs. destruct (status_of k r) as [s'|]; simpl; [|done]. intros E. by rewrite E.
  - intros k s' [_ E]%Ht Hb. left. eauto.
  - intros _. right. intros k Hk. rewrite <-(f_keys _ _ _ Hf), status_is_Some, <-Hk0, <-status_is_Some in Hk.
    destruct Hk as [s E]. apply done_at_true. eauto.
Qed.
End Changes.

(** ** The invariant *)

Definition unsettled (p : Pc) : bool :=
  match p with PLayer _ tasks => negb (forallb (λ t, settled t.2) tasks) | _ => false end.

Definition no_running (r : WorkflowRunRecord) : Prop := ∀ k, status_of k r ≠ Some NRunning.

Section Invariant.
Variable toLowerCase : string → string.
Variable toISOString : Z → string.
Variable parsed : WorkflowDefinition.
Variable evalWhen : WorkflowRunRecord → string → option bool.
Hypothesis parsed_nodup : NoDup_keys parsed.
Variable K : list string.
(** The nodes that are queued when the scheduler starts. *)
Variable Q : Z.
Notation fine := (fine parsed K).
Notation count := (queued_count K).
Notation step := (step toLowerCase toISOString parsed evalWhen).

Definition launchable (r : WorkflowRunRecord) (k : string) : Prop :=
  status_of k r = Some NQueued ∧ is_Some (jm_get k parsed) ∧ @parents_done parsed r k.

(** The graph leaves no queued node behind. *)
Definition sound_graph : Prop :=
  ∀ uuid now d r, fine d → Scheduler.turn parsed evalWhen uuid now d ≠ Scheduler.TOrphaned r.

Definition at_pc (s : Sys) : Prop :=
  match pc s with
  | PPreflight | PBegin _ => no_running (mem s) ∧ (count (mem s) ≤ Q)%Z
  | PTurn n => own_written (queue s) = true ∧ no_running (mem s) ∧ (0 ≤ n ∧ count (mem s) + n ≤ Q)%Z
  | PLaunch n ids =>
      no_running (mem s) ∧ NoDup ids ∧ (∀ k, k ∈ ids → launchable (mem s) k) ∧
      (0 ≤ n ∧ count (mem s) + n ≤ Q + if decide (ids = []) then 0 else 1)%Z
  | PLayer n tasks =>
      NoDup_keys tasks ∧ (∀ k, status_of k (mem s) = Some NRunning ↔ ∃ a, jm_get k tasks = Some (Running a)) ∧
      (0 ≤ n ∧ count (mem s) + n ≤ Q)%Z
  | PAfter n _ _ => no_running (mem s) ∧ (0 ≤ n ∧ count (mem s) + n ≤ Q)%Z
  | PFinish => ∀ k, k ∈ K → done_at k (disk s) = true
  | PEnd e => (e = ESafety → (10000 ≤ Q)%Z) ∧ (sound_graph → e ≠ EOrphaned)
  end.

Record inv (s : Sys) : Prop := {
  i_disk : fine (disk s);
  i_mem : fine (mem s);
  i_queue : Forall (@fine_snapshot parsed K) (queue s);
  i_canceling : Forall fine (canceling s);
  i_coherent : unsettled (pc s) = false → coherent (mem s) (drain (queue s) (disk s));
  i_pc : at_pc s
}.

Lemma inv_goto p s :
  inv s → (unsettled p = false → unsettled (pc s) = false) → at_pc (goto p s) → inv (goto p s).
Proof. intros [] Hu Hp. split; simpl; auto. Qed.

Lemma inv_hold r p s :
  inv s → fine r → (unsettled p = false → coherent r (drain (queue s) (disk s))) → at_pc (goto p (hold r s)) →
  inv (goto p (hold r s)).
Proof. intros [] Hr Hc Hp. split; simpl; auto. Qed.

(** A step that changes the record and saves it. *)
Lemma inv_save r p s :
  inv s → fine r → at_pc (goto p (hold_and_save r s)) → inv (goto p (hold_and_save r s)).
Proof.
  intros [Hd Hm Hq Hc _ _] Hr Hp. split; simpl; try done.
  - apply Forall_app_2; [done|]. apply Forall_singleton. split; [done|discriminate].
  - intros _. rewrite drain_app. simpl. apply (coherent_write (parsed := parsed) (K := K)); [done|]. by apply fine_drain.
Qed.

(** What the scheduler reads is what it holds, but for the nodes that have ended. *)
Lemma read_coherent s :
  inv s → unsettled (pc s) = false → own_written (queue s) = true → coherent (mem s) (disk s).
Proof. intros Hi Hu Hq. by rewrite <-(drain_written _ (disk s) Hq); apply Hi. Qed.

Lemma read_no_running m d : coherent m d → no_running m → no_running d.
Proof.
  intros Hc Hm k Hk. apply (Hm k). rewrite Hc; [done|]. unfold done_at. by rewrite Hk.
Qed.

Lemma read_count m d : coherent m d → (count d ≤ count m)%Z.
Proof.
  intros Hc. apply queued_count_le. intros k Hk. rewrite Hc; [done|]. unfold done_at. by rewrite Hk.
Qed.

Lemma none_no_running st r r' : sets none_at st r r' → no_running r → no_running r'.
Proof. intros Hs Hr k. rewrite (sets_none_status _ _ _ _ Hs). apply Hr. Qed.

Lemma none_count st r r' : sets none_at st r r' → (count r' ≤ count r)%Z.
Proof. intros Hs. apply queued_count_le. intros k. by rewrite (sets_none_status _ _ _ _ Hs). Qed.

(** *** The scheduler *)

Lemma launches_fine uuid now d r save ids :
  launches parsed evalWhen uuid now d r save ids → fine d → fine r.
Proof.
  intros [Hr _ _ (sk & [Hk Hr' Hs] & Hq & _) _] Hd. apply (fine_skips d); [done..|by rewrite Hr'|].
  intros k. rewrite Hs. destruct (decide (k ∈ sk)) as [Hin|]; [|by left; destruct (status_of k d)].
  right. by rewrite (Hq k Hin).
Qed.

Lemma launches_sub uuid now d r save ids k :
  launches parsed evalWhen uuid now d r save ids → status_of k r = status_of k d ∨
    status_of k d = Some NQueued ∧ status_of k r = Some NSkipped.
Proof.
  intros [_ _ _ (sk & [_ _ Hs] & Hq & _) _]. rewrite Hs.
  destruct (decide (k ∈ sk)) as [Hin|]; [|by left; destruct (status_of k d)]. right. by rewrite (Hq k Hin).
Qed.

Lemma launches_count uuid now d r save ids :
  launches parsed evalWhen uuid now d r save ids → fine d →
  (count r + 1 ≤ count d + if decide (ids = []) then 0 else 1)%Z.
Proof.
  intros Hl Hd. assert (∀ k, status_of k r = Some NQueued → status_of k d = Some NQueued) as Hsub.
  { intros k Hk. by destruct (launches_sub _ _ _ _ _ _ k Hl) as [<-|[? E]]. }
  case_decide as He; [|pose proof (queued_count_le K d r Hsub); lia].
  destruct Hl as [_ _ _ (sk & [_ _ Hs] & Hq & Hne) _]. destruct sk as [|k sk]; [by destruct (Hne He)|].
  pose proof (Hq k ltac:(by left)) as Hk.
  pose proof (queued_count_lt K k d r Hsub (fine_status _ _ _ _ _ Hd Hk) Hk) as Hlt.
  rewrite Hs, Hk, decide_True in Hlt by (by left). specialize (Hlt ltac:(discriminate)). lia.
Qed.

Lemma take_turn_inv uuid now n s : inv s → pc s = PTurn n → inv (take_turn parsed evalWhen uuid now n s).
Proof.
  intros Hi Hpc. pose proof (i_pc _ Hi) as Hat. unfold at_pc in Hat. rewrite Hpc in Hat.
  destruct Hat as (Hw & Hrun & H0 & Hc).
  assert (coherent (mem s) (disk s)) as Hco by (apply read_coherent; [done|by rewrite Hpc|done]).
  pose proof (read_count _ _ Hco) as Hcd. pose proof (read_no_running _ _ Hco Hrun) as Hnd.
  assert (∀ e, e ≠ ESafety → e ≠ EOrphaned → inv (goto (PEnd e) s)) as Hend.
  { intros e He Ho. apply inv_goto; [done|by rewrite Hpc|]. by split. }
  unfold take_turn. destruct (10000 <? n + 1)%Z eqn:Esafe; split_bools.
  { apply inv_goto; [done|by rewrite Hpc|]. unfold at_pc; simpl. split; [|done]. intros _.
    pose proof (queued_count_nonneg K (mem s)). lia. }
  destruct (Scheduler.turn parsed evalWhen uuid now (disk s)) eqn:Et; [by apply Hend| | |by apply Hend| |by apply Hend|].
  - apply inv_goto; [done|by rewrite Hpc|]. unfold at_pc; simpl. apply ended_done with parsed; [apply Hi|].
    intros k st. by eapply turn_breaks.
  - apply turn_waits in Et as [k Hk]; [by apply Hnd in Hk|apply Hi].
  - pose proof Et as Ho. apply turn_orphans in Et as (Hs & _).
    apply inv_save; [done|by eapply fine_none; [exact Hs|apply Hi|]|].
    split; [done|]. intros Hsg _. eapply Hsg; [apply Hi|exact Ho].
  - apply turn_launches in Et. pose proof (launches_fine _ _ _ _ _ _ Et (i_disk _ Hi)) as Hr.
    pose proof (launches_count _ _ _ _ _ _ Et (i_disk _ Hi)) as Hcount.
    assert (no_running run ∧ NoDup ids ∧ (∀ k, k ∈ ids → launchable run k) ∧
      (0 ≤ n + 1 ∧ count run + (n + 1) ≤ Q + if decide (ids = []) then 0 else 1)%Z) as Hat.
    { split_and!; [| |intros k Hk|lia|case_decide; lia].
      - intros k Hk. destruct (launches_sub _ _ _ _ _ _ k Et) as [E|[_ E]]; [|congruence].
        apply (Hnd k). congruence.
      - by apply (t_nodup _ _ _ _ _ _ _ _ Et).
      - destruct (t_ready _ _ _ _ _ _ _ _ Et k Hk) as (_ & Hq & node & En & _ & Hp).
        split_and!; [done|by eauto|]. intros node' p En' Hin. simplify_eq.
        apply (parent_terminal_sub (disk s)); [| |by apply Hp].
        + intros k'. rewrite (f_keys _ _ _ Hr), (f_keys _ _ _ (i_disk _ Hi)). done.
        + unfold done_at. by destruct (launches_sub _ _ _ _ _ _ p Et) as [->|[-> ->]]. }
    destruct save; [by apply inv_save|]. apply inv_hold; [done..| |done].
    intros _. rewrite drain_written by done. rewrite (t_unsaved _ _ _ _ _ _ _ _ Et eq_refl). apply coherent_refl.
Qed.

Lemma launchable_start uuid now k node r k' :
  launchable r k → k' ≠ k → launchable r k' → launchable (Executor.start_node toISOString uuid now k node r) k'.
Proof.
  intros (Hq & _ & _) Hne (Hq' & Hp' & Hd'). pose proof (start_node_sets uuid toISOString now k node r) as [Hk _ Hs].
  split_and!; [|done|].
  - rewrite Hs, Hq'. unfold only. by rewrite decide_False.
  - intros nd p Hn Hp. apply (parent_terminal_sub r); [|intros Hdp|by eapply Hd'].
    2: { eapply done_sets; [apply (start_node_sets uuid toISOString now k node r)| |done]. unfold only. intros s.
         case_decide; [|done]. subst. unfold done_at. rewrite Hq. done. }
    intros k2. by rewrite !status_is_Some, Hk.
Qed.

Lemma launch_spec uuid now ids m m' saves tasks :
  NoDup ids → fine m → (∀ k, k ∈ ids → launchable m k) →
  launch toISOString parsed uuid now ids m = (m', saves, tasks) →
  fine m' ∧ Forall (@fine_snapshot parsed K) saves ∧
  (∀ k, status_of k m' = if decide (k ∈ ids) then Some NRunning else status_of k m) ∧
  (∀ k, jm_get k tasks = if decide (k ∈ ids) then Some (Running 1) else None) ∧ jm_keys tasks = ids.
Proof.
  revert m m' saves tasks. induction ids as [|k ids IH]; intros m m' saves tasks Hnd Hm Hl; simpl.
  { intros; simplify_eq. split_and!; [done|constructor|done..]. }
  apply NoDup_cons in Hnd as [Hni Hnd]. pose proof (Hl k ltac:(by left)) as Hk.
  pose proof Hk as (Hq & [node En] & Hd). rewrite En. unfold Executor.executable. rewrite Hq.
  pose proof (start_node_sets uuid toISOString now k node m) as [K1 R1 S1].
  set (m1 := Executor.start_node toISOString uuid now k node m) in *.
  destruct (launch toISOString parsed uuid now ids m1) as [[m2 saves2] tasks2] eqn:E. intros; simplify_eq.
  assert (fine m1) as Hm1.
  { apply (fine_only k NRunning m); [done..|by rewrite R1| | |by unfold done_at; rewrite Hq|by right].
    - intros k' Hne. rewrite S1. unfold only. rewrite decide_False by done. by destruct (status_of k' m).
    - rewrite S1, Hq. unfold only. by rewrite decide_True. }
  destruct (IH m1 m' saves2 tasks2 Hnd Hm1) as (F & G & S & T & U); [|done|].
  { intros k' Hk'. apply launchable_start; [done|set_solver|apply Hl; by right]. }
  split_and!; [done| | | |by unfold jm_keys in *; csimpl; rewrite U].
  - constructor; [|done]. split; [done|discriminate].
  - intros k'. rewrite S, S1. unfold only. destruct (decide (k' ∈ k :: ids)) as [H|H]; rewrite elem_of_cons in H.
    + destruct (decide (k' ∈ ids)); [done|]. destruct H as [->|]; [|done]. by rewrite Hq, decide_True.
    + rewrite !decide_False by tauto. by destruct (status_of k' m).
  - intros k'. simpl. case_decide as Hne; [rewrite Hne, decide_True; [done|by left]|].
    rewrite T. destruct (decide (k' ∈ k :: ids)) as [H|H]; rewrite elem_of_cons in H.
    + rewrite decide_True; [done|]. destruct H; [congruence|done].
    + by rewrite decide_False by tauto.
Qed.

Lemma launch_all_inv uuid now n ids s :
  inv s → pc s = PLaunch n ids → ids ≠ [] → inv (launch_all toISOString parsed uuid now n ids s).
Proof.
  intros [Hd Hm Hq Hc _ Hat] Hpc Hne. unfold at_pc in Hat. rewrite Hpc in Hat.
  destruct Hat as (Hrun & Hnd & Hl & H0 & Hcount). rewrite decide_False in Hcount by done.
  unfold launch_all. destruct (launch toISOString parsed uuid now ids (mem s)) as [[m saves] tasks] eqn:E.
  destruct (launch_spec _ _ _ _ _ _ _ Hnd Hm Hl E) as (F & G & S & T & U).
  destruct ids as [|k ids]; [done|]. pose proof (S k) as Sk. pose proof (T k) as Tk.
  rewrite decide_True in Sk by (by left). rewrite decide_True in Tk by (by left).
  split; simpl; [done..|by apply Forall_app_2|done| |].
  - intros Hu. apply negb_false_iff in Hu. rewrite forallb_elem_of in Hu.
    apply jm_get_elem in Tk. by apply Hu in Tk.
  - unfold at_pc; simpl. split_and!; [by unfold NoDup_keys; rewrite U| |done|].
    + intros k'. rewrite S, T. case_decide; [by split; eauto|]. split; [by intros ?%Hrun|by intros [? ?]].
    + destruct (Hl k ltac:(by left)) as [Hk _].
      pose proof (queued_count_lt K k (mem s) m) as Hlt. rewrite Sk in Hlt.
      specialize (Hlt ltac:(intros k'; rewrite S; by case_decide) (fine_status _ _ _ _ _ Hm Hk) Hk ltac:(done)). lia.
Qed.

Lemma settled_no_running tasks m :
  forallb (λ t : string * Task, settled t.2) tasks = true →
  (∀ k, status_of k m = Some NRunning ↔ ∃ a, jm_get k tasks = Some (Running a)) → no_running m.
Proof.
  rewrite forallb_elem_of. intros Hs Ht k Hk. apply Ht in Hk as [a Ha]. apply jm_get_elem in Ha. by apply Hs in Ha.
Qed.

Lemma settle_inv uuid now n tasks reasons ok updated s :
  inv s → pc s = PLayer n tasks → forallb (λ t, settled t.2) tasks = true → own_written (queue s) = true →
  captures (jm_keys tasks) ok (Scheduler.trace_rejected uuid now reasons (disk s)) updated →
  inv (goto (PAfter n (jm_keys tasks) ok) (hold_and_save updated s)).
Proof.
  intros Hi Hpc Hset Hw Hcap. pose proof (i_pc _ Hi) as Hat. unfold at_pc in Hat. rewrite Hpc in Hat.
  destruct Hat as (_ & Ht & H0 & Hcount).
  assert (unsettled (pc s) = false) as Hu by (rewrite Hpc; simpl; by rewrite Hset).
  pose proof (read_coherent _ Hi Hu Hw) as Hco.
  pose proof (trace_rejected_sets uuid now reasons (disk s)) as Htr.
  set (tr := Scheduler.trace_rejected uuid now reasons (disk s)) in *.
  assert (fine tr) as Hf by (eapply fine_none; [exact Htr|apply Hi|by left]).
  pose proof (read_no_running _ _ Hco (settled_no_running _ _ Hset Ht)) as Hnr.
  pose proof (none_no_running _ _ _ Htr Hnr) as Hntr. destruct Hcap as [Hk Hr Hst] eqn:Ecap. clear Ecap.
  apply inv_save; [done|by eapply fine_captures|]. unfold at_pc; simpl. split_and!; [|done|].
  - intros k Hk'. destruct (Hst k) as [E|(_ & _ & _ & E)]; [apply (Hntr k)|]; congruence.
  - assert (count updated ≤ count tr)%Z.
    { apply queued_count_le. intros k Hk'. destruct (Hst k) as [E|(_ & _ & _ & E)]; congruence. }
    pose proof (none_count _ _ _ Htr). pose proof (read_count _ _ Hco). lia.
Qed.

Lemma end_layer_inv uuid now n ids ok s :
  inv s → pc s = PAfter n ids ok → own_written (queue s) = true → inv (end_layer parsed uuid now n ids s).
Proof.
  intros Hi Hpc Hw. pose proof (i_pc _ Hi) as Hat. unfold at_pc in Hat. rewrite Hpc in Hat.
  unfold end_layer. destruct (Scheduler.after_layer parsed uuid now ids (disk s)) eqn:E.
  - apply after_layer_sets in E. apply inv_save; [done| |by split]. by eapply fine_none; [exact E|apply Hi|].
  - apply inv_goto; [done|by rewrite Hpc|by split].
  - apply inv_goto; [done|by rewrite Hpc|]. unfold at_pc; simpl. tauto.
Qed.

Lemma end_run_inv uuid now s : inv s → pc s = PFinish → inv (end_run uuid now s).
Proof.
  intros Hi Hpc. pose proof (i_pc _ Hi) as Hat. unfold at_pc in Hat. rewrite Hpc in Hat.
  unfold end_run. destruct (Scheduler.finish uuid now (disk s)) eqn:E.
  - apply finish_sets in E as [E _]. apply inv_save; [done| |by split].
    eapply fine_none; [exact E|apply Hi|by right].
  - apply inv_goto; [done|by rewrite Hpc|by split].
Qed.

(** *** The tasks *)

(** A task settles or goes on: its node runs exactly while it does. *)
Lemma task_inv n tasks k a t m s :
  inv s → pc s = PLayer n tasks → jm_get k tasks = Some a → fine m →
  (∀ k', k' ≠ k → status_of k' m = Some NRunning ↔ status_of k' (mem s) = Some NRunning) →
  (status_of k m = Some NRunning ↔ ∃ b, t = Running b) →
  (∀ k', status_of k' m = Some NQueued → status_of k' (mem s) = Some NQueued) →
  inv (task_set k t (hold_and_save m s)).
Proof.
  intros Hi Hpc Ha Hm Hother Hown Hq. pose proof (i_pc _ Hi) as Hat. unfold at_pc in Hat. rewrite Hpc in Hat.
  destruct Hat as (Hnt & Ht & H0 & Hc). unfold task_set. simpl. rewrite Hpc. apply inv_save; [done..|].
  unfold at_pc; simpl. split_and!; [by apply NoDup_keys_set| |done|].
  - intros k'. rewrite jm_get_set. case_decide as Hk; [subst; rewrite Hown; naive_solver|].
    by rewrite Hother, Ht by done.
  - pose proof (queued_count_le K (mem s) m Hq). lia.
Qed.

(** The node of a running task runs. *)
Lemma running_task n tasks k a s :
  inv s → pc s = PLayer n tasks → jm_get k tasks = Some (Running a) → status_of k (mem s) = Some NRunning.
Proof.
  intros Hi Hpc Ha. pose proof (i_pc _ Hi) as Hat. unfold at_pc in Hat. rewrite Hpc in Hat. apply Hat. eauto.
Qed.

(** The node of a task ends. *)
Lemma task_only_inv n tasks k a t s0 m s :
  inv s → pc s = PLayer n tasks → jm_get k tasks = Some (Running a) → s0 ≠ NRunning → s0 ≠ NQueued →
  (∀ b, t ≠ Running b) → jm_keys (r_nodes m) = jm_keys (r_nodes (mem s)) →
  (closed (r_status m) = true → closed (r_status (mem s)) = true) →
  status_of k m = Some s0 → (∀ k', k' ≠ k → status_of k' m = status_of k' (mem s)) →
  inv (task_set k t (hold_and_save m s)).
Proof.
  intros Hi Hpc Ha Hs1 Hs2 Ht Hk Hr Hown Hother. pose proof (running_task _ _ _ _ _ Hi Hpc Ha) as Hrun.
  eapply task_inv; [done|done|exact Ha| | | |].
  - apply (fine_only k s0 (mem s)); [apply Hi|done..|by unfold done_at; rewrite Hrun|]. left. by exists NRunning.
  - intros k' Hne. by rewrite Hother.
  - rewrite Hown. split; [by intros [=]|by intros [b ->]; destruct (Ht b)].
  - intros k'. destruct (decide (k' = k)) as [->|Hne]; [rewrite Hown; by intros [=]|by rewrite Hother].
Qed.

(** A task that goes on: the record changes but for the nodes that run. *)
Lemma task_kept_inv n tasks k a b m s :
  inv s → pc s = PLayer n tasks → jm_get k tasks = Some (Running a) → fine m →
  (∀ k', status_of k' m = status_of k' (mem s)) →
  inv (task_set k (Running b) (hold_and_save m s)).
Proof.
  intros Hi Hpc Ha Hm Hs. pose proof (running_task _ _ _ _ _ Hi Hpc Ha) as Hrun.
  eapply task_inv; [done|done|exact Ha|done| | |]; [by intros; rewrite Hs| |by intros ?; rewrite Hs].
  rewrite Hs. naive_solver.
Qed.

Lemma only_other st k s0 r r' k' : sets (only k s0) st r r' → k' ≠ k → status_of k' r' = status_of k' r.
Proof.
  intros [_ _ Hs] Hne. rewrite Hs. unfold only. rewrite decide_False by done. by destruct (status_of k' r).
Qed.

Lemma only_own st k s0 r r' : sets (only k s0) st r r' → is_Some (status_of k r) → status_of k r' = Some s0.
Proof. intros [_ _ Hs] [s1 E]. rewrite Hs, E. unfold only. by rewrite decide_True. Qed.

(** The node of a task ends by an operation of the executor. *)
Lemma task_sets_inv n tasks k a t s0 m s :
  inv s → pc s = PLayer n tasks → jm_get k tasks = Some (Running a) → s0 ≠ NRunning → s0 ≠ NQueued →
  (∀ b, t ≠ Running b) → sets (only k s0) (r_status (mem s)) (mem s) m → inv (task_set k t (hold_and_save m s)).
Proof.
  intros Hi Hpc Ha H1 H2 Ht Hs. pose proof (running_task _ _ _ _ _ Hi Hpc Ha) as Hrun.
  apply (task_only_inv n tasks k a t s0); try done.
  - apply Hs.
  - by rewrite (sets_run _ _ _ _ Hs).
  - eapply only_own; [exact Hs|by rewrite Hrun].
  - intros k' Hne. by eapply only_other.
Qed.

Lemma works_fine k r r' : works k r r' → fine r → fine r'.
Proof. intros [Hk Hr _ Hs] Hf. apply (fine_skips r); [done..|by rewrite Hr|done]. Qed.

Lemma works_running k r r' k' : works k r r' → status_of k' r' = Some NRunning ↔ status_of k' r = Some NRunning.
Proof. intros [_ _ _ Hs]. destruct (Hs k') as [->|[-> ->]]; naive_solver. Qed.

Lemma works_queued k r r' k' : works k r r' → status_of k' r' = Some NQueued → status_of k' r = Some NQueued.
Proof. intros [_ _ _ Hs]. by destruct (Hs k') as [->|[-> ->]]. Qed.

Lemma work_inv n tasks k a m s :
  inv s → pc s = PLayer n tasks → jm_get k tasks = Some (Running a) → works k (mem s) m → inv (hold m s).
Proof.
  intros Hi Hpc Ha Hw. pose proof (i_pc _ Hi) as Hat. unfold at_pc in Hat. rewrite Hpc in Hat.
  destruct Hat as (Hnt & Ht & H0 & Hc). pose proof (works_fine _ _ _ Hw (i_mem _ Hi)) as Hm. destruct Hi as [? ? ? ? _ _].
  split; simpl; [done..| |].
  - rewrite Hpc. simpl. intros Hu%negb_false_iff. rewrite forallb_elem_of in Hu. apply jm_get_elem in Ha. by apply Hu in Ha.
  - unfold at_pc; simpl. rewrite Hpc. split_and!; [done| |done|].
    + intros k'. by rewrite (works_running _ _ _ _ Hw).
    + pose proof (queued_count_le K (mem s) m (λ k', works_queued _ _ _ k' Hw)). lia.
Qed.

(** *** The store and the cancelers *)

Lemma write_inv s e q :
  inv s → queue s = e :: q →
  inv {| disk := write (sn_run e) (disk s); queue := q; mem := mem s; canceling := canceling s; pc := pc s |}.
Proof.
  intros [Hd Hm Hq Hc Hco Hat] E. rewrite E in Hq. apply Forall_cons in Hq as [[He Hend] Hq].
  pose proof (fine_write _ _ _ _ He Hd) as Hd'.
  split; simpl; [done..| |].
  - intros Hu. specialize (Hco Hu). rewrite E in Hco. simpl in Hco. destruct (sn_own e) eqn:Eo; [done|].
    apply (coherent_ended (parsed := parsed) (K := K)); [done|by apply fine_drain|].
    intros k Hk. apply (drain_done (parsed := parsed) (K := K)); [done..|].
    apply (write_ended (parsed := parsed) (K := K)); auto.
  - unfold at_pc in *. simpl. destruct (pc s); try done.
    + destruct Hat as (Hw & ?). rewrite E in Hw. simpl in Hw. apply andb_true_iff in Hw as [_ Hw]. done.
    + intros k Hk. eapply write_done; eauto.
Qed.

Lemma cancel_save_inv s l1 r l2 u now message actor ids r' :
  inv s → canceling s = l1 ++ r :: l2 → Cancel.cancelRun u now message actor r = Some (ids, r') →
  inv {| disk := disk s; queue := queue s ++ [{| sn_own := false; sn_run := r' |}]; mem := mem s;
         canceling := l1 ++ l2; pc := pc s |}.
Proof.
  intros [Hd Hm Hq Hc Hco Hat] E Hr. rewrite E in Hc. apply Forall_app in Hc as [Hc1 Hc2].
  apply Forall_cons in Hc2 as [Hf Hc2]. destruct (fine_cancel _ _ _ _ _ _ _ Hr Hf) as [Hf' He].
  split; simpl; [done..|by apply Forall_app_2, Forall_singleton|by apply Forall_app_2| |].
  - intros Hu. rewrite drain_app. simpl. by apply Hco.
  - unfold at_pc in *. simpl. destruct (pc s); try done. destruct Hat as (Hw & ?). split; [|done].
    unfold own_written in *. by rewrite forallb_app, Hw.
Qed.

Lemma start_inv d : fine d → no_running d → (count d ≤ Q)%Z → inv (started d).
Proof.
  intros Hd Hr Hc. split; simpl; [done|done|constructor|constructor| |by unfold at_pc]. intros _. apply coherent_refl.
Qed.

Theorem step_inv e s s' : step e s s' → inv s → inv s'.
Proof.
  intros Hstep Hi. pose proof (i_pc _ Hi) as Hat. unfold at_pc in Hat. destruct Hstep.
  - by apply write_inv.
  - rewrite H in Hat. destruct Hat as [Hrun Hc]. pose proof (begin_run_sets uuid now resumed issues (mem s)) as Hs.
    apply inv_save; [done|eapply fine_none; [exact Hs|apply Hi|by destruct issues]|]. unfold at_pc; simpl.
    split; [by eapply none_no_running|]. pose proof (none_count _ _ _ Hs). lia.
  - rewrite H in Hat. destruct Hat as [Hrun Hc]. apply inv_goto; [done|by rewrite H|].
    destruct ok; unfold at_pc; simpl; [|by split]. split_and!; [done..|lia|lia].
  - by apply take_turn_inv.
  - rewrite H in Hat. destruct Hat as (Hrun & _ & _ & H1 & Hc). rewrite decide_True in Hc by done.
    apply inv_goto; [done|by rewrite H|]. unfold at_pc; simpl. split_and!; [done..|lia].
  - by apply launch_all_inv.
  - by eapply settle_inv.
  - destruct ok; [by eapply end_layer_inv|]. apply inv_goto; [done|by rewrite H|by split].
  - by apply end_run_inv.
  - by eapply work_inv.
  - pose proof (inv_save (mem s) (pc s) s Hi (i_mem _ Hi)) as Hs. apply Hs. unfold at_pc in *. simpl.
    rewrite H in *. exact Hat.
  - eapply (task_sets_inv _ _ _ _ _ NCompleted); [done..|apply complete_node_sets].
  - destruct H1 as [Hk Hr Hown Hother].
    eapply (task_only_inv safety tasks nodeId k t NBlocked); [done..| |done|by rewrite Hr|done|done].
    by destruct H2 as [->| ->].
  - pose proof (works_fine _ _ _ H1 (i_mem _ Hi)) as Hm.
    eapply task_inv; [done|done|exact H0|done|by intros; apply (works_running _ _ _ _ H1)| |by intros ? ?%(works_queued _ _ _ _ H1)].
    rewrite (works_running _ _ _ _ H1). rewrite H in Hat. destruct Hat as (_ & Ht & _). rewrite Ht. naive_solver.
  - pose proof (on_throw_sets uuid toLowerCase now nodeId node k t (mem s)) as Hs. rewrite H2 in Hs.
    eapply task_kept_inv; [done..| |by intros; eapply sets_none_status]. eapply fine_none; [exact Hs|apply Hi|by left].
  - pose proof (on_throw_sets uuid toLowerCase now nodeId node k t (mem s)) as Hs. rewrite H2 in Hs.
    by eapply (task_sets_inv _ _ _ _ _ NFailed).
  - destruct Hi. split; simpl; auto.
  - by eapply cancel_save_inv.
Qed.

Theorem reaches_inv d s :
  fine d → no_running d → (count d ≤ Q)%Z → reaches toLowerCase toISOString parsed evalWhen d s → inv s.
Proof. intros Hd Hr Hc. induction 1; [by apply start_inv|by eapply step_inv]. Qed.
End Invariant.
