(* ===== verification/WorkflowGraph.v ===== *)
(** * The order of a workflow's graph (packages/daemon/src/workflows/parser.ts)

    [workflowNodeOrder] ends, and gives every node after its needs, or finds nodes that
    need each other.  A run of an ordered graph never leaves a queued node behind. *)

From S2P Require Import Prelude JsString JsMap Json WorkflowRun Workflow WorkflowRules WorkflowSystem.
From S2P Require Import WorkflowInvariant.
From stdpp Require Import prelude strings list.
From Stdlib Require Import ZArith Lia.

Section Order.
Variable sort : list string → list string.
Hypothesis sort_permutation : ∀ l, sort l ≡ₚ l.
Variable definition : WorkflowDefinition.
Notation needs := (Graph.needs_in definition).

Lemma elem_of_filter (p : string → bool) l k : k ∈ List.filter p l ↔ k ∈ l ∧ p k = true.
Proof. by rewrite list_elem_of_In, filter_In, <-list_elem_of_In. Qed.

Lemma is_ready_spec complete k :
  Graph.is_ready definition complete k = true ↔ ∀ p, p ∈ needs k → p ∈ complete.
Proof. unfold Graph.is_ready. rewrite forallb_elem_of. by setoid_rewrite bool_decide_eq_true. Qed.

Lemma filter_split (p : string → bool) l :
  l ≡ₚ List.filter p l ++ List.filter (λ k, negb (p k)) l.
Proof.
  induction l as [|k l IH]; simpl; [done|]. destruct (p k); simpl; [by rewrite <-IH|].
  by rewrite <-Permutation_middle, <-IH.
Qed.

(** What a round leaves pending. *)
Lemma round_pending complete pending :
  let ready := sort (List.filter (Graph.is_ready definition complete) pending) in
  List.filter (λ k, negb (bool_decide (k ∈ ready))) pending =
  List.filter (λ k, negb (Graph.is_ready definition complete k)) pending.
Proof.
  intros ready. assert (∀ k, k ∈ ready ↔ k ∈ pending ∧ Graph.is_ready definition complete k = true) as Hr.
  { intros k. unfold ready. rewrite sort_permutation. apply elem_of_filter. }
  clearbody ready. assert (∀ l, (∀ k, k ∈ l → k ∈ pending) →
    List.filter (λ k, negb (bool_decide (k ∈ ready))) l =
    List.filter (λ k, negb (Graph.is_ready definition complete k)) l) as H; [|by apply H].
  induction l as [|k l IH]; intros Hl; simpl; [done|].
  assert (bool_decide (k ∈ ready) = Graph.is_ready definition complete k) as ->.
  { pose proof (Hl k ltac:(by left)). apply eq_true_iff_eq. rewrite bool_decide_eq_true, Hr. naive_solver. }
  rewrite IH; [done|]. intros k' Hk'. apply Hl. by right.
Qed.

(** Every node comes after its needs. *)
Definition topological (before ids : list string) : Prop :=
  ∀ l1 k l2 p, ids = l1 ++ k :: l2 → p ∈ needs k → p ∈ before ∨ p ∈ l1.

Lemma topological_app before l1 l2 :
  (∀ k p, k ∈ l1 → p ∈ needs k → p ∈ before) → topological (before ++ l1) l2 → topological before (l1 ++ l2).
Proof.
  intros H1 H2 m1 k m2 p E Hp. apply app_eq_inv in E as [(l & -> & E)|(l & -> & ->)].
  - destruct l as [|k' l]; simplify_eq/=.
    + destruct (H2 [] k m2 p) as [H|H%elem_of_nil]; [done..| |done].
      apply elem_of_app in H as [?|?]; [by left|right]. by rewrite ?app_nil_r in *.
    + left. eapply H1; [|done]. apply elem_of_app. right. by left.
  - rewrite elem_of_app. destruct (H2 l k m2 p) as [H|H]; [done..| |by auto].
    apply elem_of_app in H. tauto.
Qed.

Lemma order_loop_spec fuel pending complete ordered :
  (length pending ≤ fuel)%nat →
  match Graph.order_loop sort definition fuel pending complete ordered with
  | Graph.Ordered ids => ∃ rest, ids = ordered ++ rest ∧ rest ≡ₚ pending ∧ topological complete rest
  | Graph.Cycle => ∃ s, s ≠ [] ∧ (∀ k, k ∈ s → k ∈ pending) ∧
      ∀ k, k ∈ s → ∃ p, p ∈ needs k ∧ p ∉ complete ∧ (p ∈ pending → p ∈ s)
  | Graph.OutOfFuel => False
  end.
Proof.
  revert pending complete ordered. induction fuel as [|fuel IH]; intros pending complete ordered Hlen.
  { destruct pending; simpl in *; [|lia]. exists []. rewrite app_nil_r. split_and!; [done..|]. by intros [] ? ? ? ?. }
  destruct pending as [|k0 l]; [simpl; exists []; rewrite app_nil_r; split_and!; [done..|]; by intros [] ? ? ? ?|].
  cbn [Graph.order_loop]. remember (k0 :: l) as pending eqn:Ep.
  destruct (List.filter (Graph.is_ready definition complete) pending) as [|r1 rs] eqn:Er.
  { exists pending. subst. split_and!; [done..|]. intros k Hk.
    destruct (Graph.is_ready definition complete k) eqn:Ek.
    - assert (k ∈ List.filter (Graph.is_ready definition complete) (k0 :: l)) as H by by apply elem_of_filter.
      rewrite Er in H. by apply elem_of_nil in H.
    - apply not_true_iff_false in Ek.
      assert (¬ ∀ p, p ∈ needs k → p ∈ complete) as Hn by by rewrite <-is_ready_spec.
      destruct (decide (Forall (λ p, p ∈ complete) (needs k))) as [Hf|Hf].
      + destruct Hn. by apply Forall_forall.
      + apply not_Forall_Exists in Hf; [|intros ?; apply _]. apply Exists_exists in Hf as (p & ? & ?). eauto. }
  rewrite <-Er. pose proof (round_pending complete pending) as Hround. simpl in Hround. rewrite Hround.
  set (ready := sort (List.filter (Graph.is_ready definition complete) pending)) in *.
  set (next := List.filter (λ k, negb (Graph.is_ready definition complete k)) pending) in *.
  pose proof (filter_split (Graph.is_ready definition complete) pending) as Hsplit. fold next in Hsplit.
  assert (ready ≡ₚ List.filter (Graph.is_ready definition complete) pending) as Hready by apply sort_permutation.
  rewrite <-Hready in Hsplit.
  assert (length next ≤ fuel)%nat as Hnext.
  { pose proof (Permutation_length Hsplit) as Hl. pose proof (Permutation_length Hready) as Hl2.
    rewrite Er in Hl2. rewrite length_app in Hl. simpl in Hl2. lia. }
  assert (∀ k p, k ∈ ready → p ∈ needs k → p ∈ complete) as Hcomplete.
  { intros k p Hk. rewrite Hready in Hk. apply elem_of_filter in Hk as [_ Hk]. by apply is_ready_spec. }
  specialize (IH next (complete ++ ready) (ordered ++ ready) Hnext).
  destruct (Graph.order_loop sort definition fuel next (complete ++ ready) (ordered ++ ready)) as [ids| |]; [| |done].
  - destruct IH as (rest & -> & Hp & Ht). exists (ready ++ rest). rewrite <-app_assoc. split_and!; [done| |].
    + by rewrite Hp, <-Hsplit.
    + by apply topological_app.
  - destruct IH as (s & Hs & Hsub & Hc). exists s. split_and!; [done| |].
    + intros k Hk. rewrite Hsplit. apply elem_of_app. right. by apply Hsub.
    + intros k Hk. destruct (Hc k Hk) as (p & Hp & Hn & Hin). rewrite elem_of_app in Hn.
      exists p. split_and!; [done|tauto|]. rewrite Hsplit, elem_of_app. tauto.
Qed.

Lemma workflowNodeOrder_cases :
  match Graph.workflowNodeOrder sort definition with
  | Graph.Ordered ids => ids ≡ₚ jm_keys definition ∧ topological [] ids
  | Graph.Cycle => ∃ s, s ≠ [] ∧ (∀ k, k ∈ s → k ∈ jm_keys definition) ∧
      ∀ k, k ∈ s → ∃ p, p ∈ needs k ∧ (p ∈ jm_keys definition → p ∈ s)
  | Graph.OutOfFuel => False
  end.
Proof.
  unfold Graph.workflowNodeOrder. pose proof (order_loop_spec (length definition) (jm_keys definition) [] []) as H.
  unfold jm_keys in *. rewrite length_fmap in H. specialize (H (le_n _)).
  destruct (Graph.order_loop _ _ _ _ _ _); [| |done].
  - by destruct H as (rest & -> & ? & ?).
  - destruct H as (s & ? & ? & Hc). exists s. split_and!; [done..|]. intros k Hk. destruct (Hc k Hk) as (p & ? & _ & ?). eauto.
Qed.
End Order.

(** ** Runs of an ordered graph *)

Section Sound.
Variable parsed : WorkflowDefinition.
Variable evalWhen : WorkflowRunRecord → string → option bool.
Notation fine := (fine parsed (jm_keys parsed)).

(** When no node runs or waits and none is ready, every node has ended. *)
Lemma ordered_all_done d ids :
  NoDup_keys parsed → fine d → ids ≡ₚ jm_keys parsed → topological parsed [] ids →
  findReadyNodeIds d parsed = [] → no_running d → (∀ k, status_of k d ≠ Some NBlocked) →
  ∀ k, k ∈ jm_keys parsed → done_at k d = true.
Proof.
  intros Hnd Hd Hp Ht Hr Hrun Hbl. assert (∀ l1 l2, ids = l1 ++ l2 → ∀ k, k ∈ l1 → done_at k d = true) as H.
  2: { intros k Hk. apply (H ids []); [by rewrite app_nil_r|by rewrite Hp]. }
  induction l1 as [|k l1 IH] using rev_ind; intros l2 E k' Hk'; [by apply elem_of_nil in Hk'|].
  rewrite <-app_assoc in E. apply elem_of_app in Hk' as [Hk'|Hk'%list_elem_of_singleton]; [by eapply IH|subst k'].
  assert (k ∈ jm_keys parsed) as Hk by (rewrite <-Hp, E; set_solver).
  destruct (done_at k d) eqn:Ed; [done|]. exfalso.
  assert (status_of k d = Some NQueued) as Hq.
  { pose proof (proj2 (f_keys _ _ _ Hd k) Hk) as [st Hst]. unfold done_at in Ed. rewrite Hst in *. simpl in Ed.
    specialize (Hrun k). specialize (Hbl k). rewrite Hst in *. by destruct st. }
  pose proof Hk as Hk2. apply jm_key_is_Some in Hk2 as [node En].
  assert (k ∈ findReadyNodeIds d parsed) as Hin; [|rewrite Hr in Hin; by apply elem_of_nil in Hin].
  apply findReadyNodeIds_spec. split; [done|]. exists node. split; [by apply jm_get_elem|].
  intros p Hpn. destruct (Ht l1 k l2 p) as [H|H]; [done| |by apply elem_of_nil in H|].
  - unfold Graph.needs_in. by rewrite En.
  - pose proof (IH _ E p H) as Hdp. apply done_at_true in Hdp as (st & Hst & Hte).
    rewrite parent_terminal_done, Hst. done.
Qed.

Lemma ordered_sound ids :
  NoDup_keys parsed → ids ≡ₚ jm_keys parsed → topological parsed [] ids →
  sound_graph parsed evalWhen (jm_keys parsed).
Proof.
  intros Hnd Hp Ht uuid now d r Hd Ho. apply turn_orphans in Ho as (_ & Hr & Hrun & Hbl & n & Hn & Hnt).
  apply list_elem_of_fmap in Hn as ([k n'] & -> & Hin). simpl in *.
  assert (status_of k d = Some (ns_status n')) as Hs by (unfold status_of; by rewrite (jm_elem_get _ _ _ (f_wf _ _ _ Hd) Hin)).
  pose proof (ordered_all_done d ids Hnd Hd Hp Ht Hr Hrun Hbl k (fine_status _ _ _ _ _ Hd Hs)) as Hdone.
  unfold done_at in Hdone. rewrite Hs in Hdone. simpl in Hdone. congruence.
Qed.
End Sound.
