(* ===== verification/WorkflowProgress.v ===== *)
(** * Every run of the scheduler ends

    A measure that decreases, in lexicographic order, with every step but the work of an
    executor inside an attempt and the reads of cancelers: what is left of the turns,
    the attempts left to the tasks of the layer, and the saves to be written. *)

From S2P Require Import Prelude JsString JsMap Json WorkflowRun Workflow WorkflowRules WorkflowSystem.
From S2P Require Import WorkflowInvariant.
From stdpp Require Import prelude strings list.
From Stdlib Require Import ZArith Lia Wellfounded.

Section Progress.
Variable toLowerCase : string → string.
Variable toISOString : Z → string.
Variable parsed : WorkflowDefinition.
Variable evalWhen : WorkflowRunRecord → string → option bool.
Hypothesis parsed_nodup : NoDup_keys parsed.
Variable K : list string.
Variable Q : Z.
Notation inv := (inv parsed evalWhen K Q).
Notation step := (step toLowerCase toISOString parsed evalWhen).

(** The steps that bring the run nearer to its end. *)
Definition progress (s s' : Sys) : Prop := ∃ e, step e s s' ∧ e ≠ Works ∧ e ≠ Reads.

(** *** The measure *)

Definition turns_left (p : Pc) : Z :=
  match p with
  | PPreflight => 5 * (Q + 2) + 1
  | PBegin _ => 5 * (Q + 2)
  | PTurn n => 5 * (Q + 1 - n) - 1
  | PLaunch n _ => 5 * (Q + 1 - n) + 3
  | PLayer n _ => 5 * (Q + 1 - n) + 2
  | PAfter n _ _ => 5 * (Q + 1 - n) + 1
  | PFinish => 1
  | PEnd _ => 0
  end.

Definition allowed (k : string) : Z := from_option Executor.attempts_allowed 0%Z (jm_get k parsed).

Definition task_left (k : string) (t : Task) : nat :=
  match t with Running a => 2 + Z.to_nat (allowed k - a) | Blocking => 1 | Settled _ => 0 end.

Definition tasks_left (p : Pc) : nat :=
  match p with PLayer _ tasks => sum_list_with (λ t, task_left t.1 t.2) tasks | _ => 0 end.

Definition saves_left (s : Sys) : nat := length (queue s) + 2 * length (canceling s).

Definition measure (s : Sys) : nat * (nat * nat) :=
  (Z.to_nat (turns_left (pc s)), (tasks_left (pc s), saves_left s)).

Definition before (a b : nat * (nat * nat)) : Prop :=
  (a.1 < b.1 ∨ a.1 = b.1 ∧ (a.2.1 < b.2.1 ∨ a.2.1 = b.2.1 ∧ a.2.2 < b.2.2))%nat.

Lemma before_wf : well_founded before.
Proof.
  intros [a [b c]]. revert b c. induction a as [a IHa] using lt_wf_ind. intros b.
  induction b as [b IHb] using lt_wf_ind. intros c. induction c as [c IHc] using lt_wf_ind.
  constructor. intros [a' [b' c']] [H|[Ha [H|[Hb H]]]]; simpl in *; subst; auto.
Qed.

Lemma tasks_left_set n tasks k t t' :
  jm_get k tasks = Some t → (task_left k t' < task_left k t)%nat →
  (tasks_left (PLayer n (jm_set k t' tasks)) < tasks_left (PLayer n tasks))%nat.
Proof.
  simpl. induction tasks as [|[k1 t1] l IH]; simpl; [done|]. case_decide; subst; simpl.
  - intros [= ->]. lia.
  - intros Ht Hlt. specialize (IH Ht Hlt). lia.
Qed.

Lemma retries_allowed now k node a t m m' uuid :
  jm_get k parsed = Some node →
  Executor.on_throw toLowerCase uuid now k node a t m = Executor.Again m' → (0 < allowed k - a)%Z.
Proof.
  unfold Executor.on_throw, Executor.retries, allowed. intros ->. simpl.
  destruct (_ && _) eqn:E; [|done]. intros _. by split_bools.
Qed.

Lemma task_set_before n tasks k t t' m s :
  pc s = PLayer n tasks → jm_get k tasks = Some t → (task_left k t' < task_left k t)%nat →
  before (measure (task_set k t' (hold_and_save m s))) (measure s).
Proof.
  intros Hpc Hk Hlt. unfold task_set, measure, before. simpl. rewrite Hpc. simpl. right. split; [done|]. left.
  by eapply (tasks_left_set n).
Qed.

(** A step of the scheduler leaves fewer turns. *)
Lemma turns_before s s' :
  (0 ≤ turns_left (pc s') < turns_left (pc s))%Z → before (measure s') (measure s).
Proof. intros H. left. simpl. lia. Qed.

Lemma take_turn_before uuid now n s :
  inv s → pc s = PTurn n → before (measure (take_turn parsed evalWhen uuid now n s)) (measure s).
Proof.
  intros Hi Hpc. pose proof (i_pc _ _ _ _ _ Hi) as Hat. unfold at_pc in Hat. rewrite Hpc in Hat.
  destruct Hat as (Hw & Hrun & H0 & Hc). pose proof (queued_count_nonneg K (mem s)) as Hq.
  assert (coherent (mem s) (disk s)) as Hco by (eapply read_coherent; [done|by rewrite Hpc|done]).
  apply turns_before. rewrite Hpc. unfold take_turn. destruct (10000 <? n + 1)%Z; [simpl; lia|].
  destruct (Scheduler.turn parsed evalWhen uuid now (disk s)) eqn:Et; simpl; try lia.
  - apply turn_waits in Et as [k Hk]; [|apply Hi]. by apply (read_no_running _ _ Hco Hrun) in Hk.
Qed.

Lemma progress_before s s' : inv s → progress s s' → before (measure s') (measure s).
Proof.
  intros Hi (e & Hs & Hw & Hr). pose proof (i_pc _ _ _ _ _ Hi) as Hat. unfold at_pc in Hat.
  pose proof (queued_count_nonneg K (mem s)) as Hq.
  destruct Hs; try done; try (rewrite H in Hat).
  - right. split; [done|]. right. split; [done|]. unfold measure, saves_left. simpl. rewrite H. simpl. lia.
  - apply turns_before. rewrite H. simpl. lia.
  - apply turns_before. rewrite H. destruct ok; simpl; lia.
  - by apply take_turn_before.
  - apply turns_before. rewrite H. simpl. destruct Hat as (_ & _ & _ & Hc). case_decide; [simpl; lia|done].
  - apply turns_before. rewrite H. unfold launch_all. destruct (launch _ _ _ _ _ _) as [[? ?] ?]. simpl.
    destruct Hat as (_ & _ & _ & Hc). case_decide; lia.
  - apply turns_before. rewrite H. simpl. lia.
  - apply turns_before. rewrite H. destruct ok; [|simpl; lia]. unfold end_layer.
    destruct (Scheduler.after_layer _ _ _ _ _); simpl; lia.
  - apply turns_before. rewrite H. unfold end_run. destruct (Scheduler.finish _ _ _); simpl; lia.
  - eapply task_set_before; [done..|simpl; lia].
  - eapply task_set_before; [done..|]. destruct H2 as [->| ->]; simpl; lia.
  - eapply task_set_before; [done..|simpl; lia].
  - eapply task_set_before; [done..|]. apply retries_allowed in H2; [|done]. simpl. lia.
  - eapply task_set_before; [done..|simpl; lia].
  - right. split; [done|]. right. split; [done|]. unfold measure, saves_left. simpl. rewrite H, !length_app. simpl. lia.
Qed.

Lemma progress_acc s : inv s → Acc (λ s2 s1, progress s1 s2) s.
Proof.
  remember (measure s) as n eqn:E. revert s E. induction (before_wf n) as [n _ IH]. intros s -> Hi. constructor.
  intros s2 Hp. eapply IH; [by apply progress_before|done|]. destruct Hp as (e & Hs & _).
  by eapply step_inv.
Qed.

(** *** No state is stuck *)

Lemma works_refl k m : works k m m.
Proof. split; auto. Qed.

Lemma not_written q : own_written q = false → q ≠ [].
Proof. by destruct q. Qed.

Lemma write_progress s : own_written (queue s) = false → ∃ s', progress s s'.
Proof.
  intros H%not_written. destruct (queue s) as [|e q] eqn:E; [done|].
  eexists; exists Writes. split_and!; [by eapply step_write|done|done].
Qed.

Lemma unsettled_elem (tasks : list (string * Task)) :
  forallb (λ t, settled t.2) tasks = false → ∃ e, e ∈ tasks ∧ settled e.2 = false.
Proof.
  induction tasks as [|e l IH]; simpl; [done|]. intros [H|H]%andb_false_iff; [exists e; split; [by left|done]|].
  destruct (IH H) as (e' & ? & ?). exists e'. split; [by right|done].
Qed.

Lemma can_progress s : inv s → (∃ e, pc s = PEnd e) ∨ ∃ s', progress s s'.
Proof.
  intros Hi. pose proof (i_pc _ _ _ _ _ Hi) as Hat. unfold at_pc in Hat.
  destruct (pc s) as [|ok|n|n ids|n tasks|n ids ok| |e] eqn:Hpc; [| | | | | | |by eauto]; right.
  - eexists; exists Schedules. split_and!; [|done|done].
    by apply (step_begin _ _ _ _ s (λ _, "") 0%Z false []).
  - destruct (own_written (queue s)) eqn:Hw; [|by apply write_progress].
    eexists; exists Schedules. split_and!; [by eapply step_begun|done|done].
  - eexists; exists Schedules. split_and!; [by apply (step_turn _ _ _ _ s (λ _, "") 0%Z n)|done|done].
  - destruct (own_written (queue s)) eqn:Hw; [|by apply write_progress].
    destruct (decide (ids = [])) as [->|Hne]; eexists; exists Schedules.
    + split_and!; [by eapply step_no_layer|done|done].
    + split_and!; [by apply (step_launch _ _ _ _ s (λ _, "") 0%Z n ids)|done|done].
  - destruct (forallb (λ t, settled t.2) tasks) eqn:Hset.
    + destruct (own_written (queue s)) eqn:Hw; [|by apply write_progress].
      eexists; exists Schedules. split_and!; [|done|done].
      apply (step_settled _ _ _ _ s (λ _, "") 0%Z n tasks [] true (disk s)); [done..|]. split; [done..|by left].
    + assert (∃ k t, jm_get k tasks = Some t ∧ settled t = false) as (k & t & Ht & Hns).
      { apply unsettled_elem in Hset as ([k t] & Hin & Hs). exists k, t. split; [|done].
        by apply jm_elem_get; [apply Hat|]. }
      destruct t as [a| |]; [| |done]; eexists; exists Settles; split_and!.
      1: by apply (step_completed _ _ _ _ s (λ _, "") 0%Z n tasks k a).
      3: by eapply step_gate_blocked, works_refl.
      all: done.
  - destruct (own_written (queue s)) eqn:Hw; [|by apply write_progress].
    eexists; exists Schedules. split_and!; [by apply (step_after _ _ _ _ s (λ _, "") 0%Z n ids ok)|done|done].
  - eexists; exists Schedules. split_and!; [by apply (step_finish _ _ _ _ s (λ _, "") 0%Z)|done|done].
Qed.
End Progress.
