(* ===== verification/WorkflowProps.v ===== *)
(** * Properties of workflow runs

    The store: what a save cannot undo.  The rules: which nodes a layer launches, and the
    order of the graph.  The runs of a scheduler: launched nodes follow the graph, a
    completed run is finished, a canceled run stays canceled, and every run ends. *)

From S2P Require Import Prelude JsString JsMap Json WorkflowRun Workflow WorkflowRules WorkflowSystem.
From S2P Require Import WorkflowInvariant WorkflowGraph WorkflowProgress.
From stdpp Require Import prelude strings list sorting pretty.
From Stdlib Require Import ZArith Lia.

(** ** The store *)

(** What later records keep of an earlier one. *)
Record keeps (d d' : WorkflowRunRecord) : Prop := {
  k_wf : run_wf d';
  k_run : terminal_run (r_status d) = true → terminal_run (r_status d') = true;
  k_run_canceled : r_status d = RCanceled → r_status d' = RCanceled;
  k_node : ∀ k, done_at k d = true → done_at k d' = true;
  k_node_canceled : ∀ k, status_of k d = Some NCanceled → status_of k d' = Some NCanceled;
  k_events : ∀ id, has_event id (r_events d) → has_event id (r_events d');
  k_updated : (r_updatedAt d ≤ r_updatedAt d')%Z
}.

Lemma keeps_refl d : run_wf d → keeps d d.
Proof. by split. Qed.

Lemma keeps_trans d1 d2 d3 : keeps d1 d2 → keeps d2 d3 → keeps d1 d3.
Proof. intros [] []. split; eauto; lia. Qed.

Lemma merged_node k s d :
  run_wf d → jm_get k (r_nodes (write s d)) =
    match jm_get k (r_nodes s), jm_get k (r_nodes d) with
    | x, None => x
    | None, Some e => Some e
    | Some x, Some e => Some (if Store.shouldPreserveExistingNode x e then e else x)
    end.
Proof. intros Hd. unfold write. by rewrite (proj1 (merge_run_fields s d)), merge_lookup. Qed.

Lemma write_keeps s d : run_wf s → run_wf d → keeps d (write s d).
Proof.
  intros Hs Hd. unfold done_at, status_of. destruct (merge_run_fields s d) as (En & Est & Eev & Eup). split.
  - unfold run_wf, write. rewrite En. by apply merge_nodup.
  - unfold write. rewrite Est. apply preserves_run_terminal.
  - unfold write. rewrite Est. apply preserves_run_canceled.
  - intros k. unfold done_at, status_of. rewrite merged_node by done.
    destruct (jm_get k (r_nodes d)) as [e|]; simpl; [|done]. intros He.
    destruct (jm_get k (r_nodes s)) as [x|]; simpl; [by apply preserve_terminal|done].
  - intros k. unfold status_of. rewrite merged_node by done.
    destruct (jm_get k (r_nodes d)) as [e|]; simpl; [|done]. intros [= He].
    destruct (jm_get k (r_nodes s)) as [x|]; simpl; f_equal; [by apply preserve_canceled|done].
  - intros id (e & He & Hid). unfold write. rewrite Eev.
    destruct (proj2 (has_event_merge id (r_events s) (r_events d))) as (e' & He' & Hid'); [right; by exists e|].
    exists e'. by rewrite elem_of_sort_events.
  - unfold write. rewrite Eup. lia.
Qed.

(** C9: saves never undo what is on disk: a run or a node that has ended stays ended, one
    that is canceled stays canceled, no event is lost, the events are in the order of
    their timestamps and the time of the last update never decreases, whatever stale
    records are saved. *)
Theorem saves_keep d l d' :
  run_wf d → Forall run_wf l → Store.saves (Some d) l = Some d' →
  keeps d d' ∧ (l ≠ [] → StronglySorted by_time (r_events d')).
Proof.
  intros Hd Hl. revert d Hd. induction Hl as [|s l Hs _ IH]; intros d Hd; simpl.
  { intros; simplify_eq. split; [by apply keeps_refl|done]. }
  intros H. pose proof (write_keeps s d Hs Hd) as Hk. destruct (IH _ (k_wf _ _ Hk) H) as [Hk' Hsorted].
  split; [by eapply keeps_trans|]. intros _. destruct l as [|s2 l]; [|by apply Hsorted].
  assert (d' = write s d) as -> by (unfold write; by injection H). unfold write.
  rewrite (proj1 (proj2 (proj2 (merge_run_fields s d)))). apply sort_events_sorted.
Qed.

(** ** Samples *)

Definition sample_state (id : string) (s : WorkflowNodeStatus) : WorkflowNodeRunState :=
  {| ns_id := id; ns_status := s; ns_startedAt := None; ns_completedAt := None; ns_output := None;
     ns_exitCode := None; ns_error := None; ns_skipReason := None; ns_attempts := None; ns_sessionId := None;
     ns_iterations := []; ns_inlineAgents := []; ns_rest := [] |}.

Definition sample_node (needs : option (list string)) : WorkflowNode :=
  {| wn_type := "shell"; wn_needs := needs; wn_triggerRule := None; wn_when := None;
     wn_retry := Some {| maxAttempts := 2; backoffSeconds := None; transient := None; fatal := None |};
     wn_onFailure := None |}.

(** The node [test] needs the node [build]. *)
Definition sample_definition : WorkflowDefinition :=
  [("test", sample_node (Some ["build"])); ("build", sample_node None)].

Definition sample_run (build test : WorkflowNodeStatus) (status : WorkflowRunStatus) : WorkflowRunRecord :=
  {| r_id := "run"; r_status := status;
     r_nodes := [("build", sample_state "build" build); ("test", sample_state "test" test)];
     r_events := []; r_startedAt := None; r_updatedAt := 1; r_completedAt := None; r_error := None; r_rest := [] |}.

Lemma sample_run_wf b t s : run_wf (sample_run b t s).
Proof. apply (bool_decide_unpack _). by vm_compute. Qed.

Lemma saves_keep_witness :
  ∃ d', Store.saves (Some (sample_run NCanceled NCanceled RCanceled)) [sample_run NRunning NQueued RRunning] = Some d' ∧
    r_status d' = RCanceled ∧ status_of "build" d' = Some NCanceled.
Proof.
  eexists. split; [reflexivity|].
  destruct (saves_keep (sample_run NCanceled NCanceled RCanceled) [sample_run NRunning NQueued RRunning] _
    (sample_run_wf _ _ _) ltac:(constructor; [apply sample_run_wf|constructor]) eq_refl) as [H _].
  split; [by apply (k_run_canceled _ _ H)|by apply (k_node_canceled _ _ H)].
Defined.

(** ** The rules *)

Definition rule_holds (rule : option WorkflowTriggerRule) (parents : list WorkflowNodeRunState) : Prop :=
  match coalesce rule all_success with
  | all_success => ∀ p, p ∈ parents → ns_status p = NCompleted
  | all_done => ∀ p, p ∈ parents → terminal_node (ns_status p) = true
  | one_success => parents = [] ∨ ∃ p, p ∈ parents ∧ ns_status p = NCompleted
  end.

Lemma filter_all {A} (p : A → bool) l : length (List.filter p l) = length l ↔ ∀ x, x ∈ l → p x = true.
Proof.
  induction l as [|x l IH]; simpl; [split; [by intros _ ? ?%elem_of_nil|done]|].
  setoid_rewrite elem_of_cons. destruct (p x) eqn:E; simpl.
  - rewrite Nat.succ_inj_wd, IH. naive_solver.
  - split; [|intros H; rewrite H in E; naive_solver]. intros H.
    pose proof (List.filter_length_le p l). lia.
Qed.

Lemma filter_some {A} (p : A → bool) l : 1 ≤ length (List.filter p l) ↔ ∃ x, x ∈ l ∧ p x = true.
Proof.
  induction l as [|x l IH]; simpl; [split; [lia|by intros (? & ?%elem_of_nil & _)]|].
  setoid_rewrite elem_of_cons. destruct (p x) eqn:E; simpl; [split; [eauto|lia]|].
  rewrite IH. split; intros (y & Hy & Hp); exists y; [auto|]. destruct Hy as [->|Hy]; [congruence|done].
Qed.

Lemma trigger_spec rule parents :
  let t := Trigger.evaluateTriggerRule rule parents in
  (Trigger.ready t = true ↔ rule_holds rule parents) ∧
  (Trigger.ready t = false → Trigger.isTriggerSkipReason (Trigger.reason t) = true).
Proof.
  unfold Trigger.evaluateTriggerRule, rule_holds. case_bool_decide as He.
  { subst. simpl. split; [|done]. split; [intros _|done]. destruct (coalesce _ _); [by intros ? ?%elem_of_nil..|by left]. }
  unfold Trigger.count_status. destruct (coalesce rule all_success).
  - destruct (_ =? _)%nat eqn:E; simpl; [apply Nat.eqb_eq in E|apply Nat.eqb_neq in E]; rewrite filter_all in E.
    + split; [|done]. split; [intros _ p Hp; by apply (bool_decide_eq_true _), E|done].
    + split; [split; [done|]|done]. intros H. destruct E. intros p Hp. by apply bool_decide_eq_true, H.
  - destruct (_ =? _)%nat eqn:E; simpl; [apply Nat.eqb_eq in E|apply Nat.eqb_neq in E]; rewrite filter_all in E.
    + by split.
    + by split; [split|].
  - match goal with |- context [(1 <=? ?n)%nat] => destruct (Nat.leb_spec 1 n) as [E|E]; simpl end.
    + apply filter_some in E as (p & Hp & Hc). split; [|done]. split; [|done]. intros _. right.
      exists p. split; [done|]. by apply (bool_decide_eq_true _).
    + split; [split; [done|]|done]. intros [?|(p & Hp & Hc)]; [done|].
      assert (1 ≤ length (List.filter (λ parent, Trigger.is_completed (ns_status parent)) parents)); [|lia].
      apply filter_some. exists p. split; [done|]. by apply bool_decide_eq_true.
Qed.

(** A turn of the scheduler launches a node only when the node is queued, every node it
    needs has ended, its trigger rule holds of them and its condition, if any, is true. *)
Theorem launched_node parsed evalWhen uuid now d r save ids k :
  NoDup_keys parsed → Scheduler.turn parsed evalWhen uuid now d = Scheduler.TLayer r save ids → k ∈ ids →
  r_status d = RRunning ∧ status_of k d = Some NQueued ∧
  ∃ node, jm_get k parsed = Some node ∧
    (∀ p, p ∈ needs_of node → parent_terminal d p = true) ∧
    rule_holds (wn_triggerRule node) (Trigger.getNodeParents d (wn_needs node)) ∧
    (∀ w, wn_when node = Some w → w ≠ "" → evalWhen d w = Some true).
Proof.
  intros Hnd Ht Hk. apply turn_launches in Ht. destruct Ht as [Hrun _ Hready _ _].
  destruct (Hready k Hk) as (Hq & _ & node & En & Hg & Hp). split_and!; [done..|].
  exists node. split_and!; [done|by apply Hp| |].
  - unfold Scheduler.evaluateNodeGuards in Hg. destruct (trigger_spec (wn_triggerRule node)
      (Trigger.getNodeParents d (wn_needs node))) as [H1 H2].
    destruct (Trigger.ready _) eqn:E; [by apply H1|]. rewrite (H2 eq_refl) in Hg. simpl in Hg.
    specialize (H2 eq_refl). by destruct (Trigger.reason _).
  - intros w Ew Hw. unfold Scheduler.evaluateNodeGuards in Hg. destruct (_ && _) eqn:E.
    { apply andb_true_iff in E as [_ E]. by destruct (Trigger.reason _). }
    rewrite Ew, (proj2 (truthy_str_true w) Hw) in Hg. apply bind_Some in Hg as (b & -> & Hb). by destruct b.
Qed.

Lemma launched_node_witness :
  ∃ r, Scheduler.turn sample_definition (λ _ _, None) (λ _, "") 5 (sample_run NCompleted NQueued RRunning) =
    Scheduler.TLayer r false ["test"] ∧ status_of "test" (sample_run NCompleted NQueued RRunning) = Some NQueued.
Proof.
  eexists. split; [vm_compute; reflexivity|].
  eapply (launched_node sample_definition (λ _ _, None) (λ _, "") 5 (sample_run NCompleted NQueued RRunning)
    _ false ["test"] "test"); [by apply (bool_decide_unpack _); vm_compute|vm_compute; reflexivity|by left].
Defined.

(** [workflowNodeOrder] ends: it lists every node once, after all the nodes it needs, or
    there are nodes each of which needs another of them or a node that is not defined. *)
Theorem workflow_order sort definition :
  (∀ l, sort l ≡ₚ l) →
  match Graph.workflowNodeOrder sort definition with
  | Graph.Ordered ids =>
      ids ≡ₚ jm_keys definition ∧
      ∀ before k after p, ids = before ++ k :: after → p ∈ Graph.needs_in definition k → p ∈ before
  | Graph.Cycle =>
      ∃ s, s ≠ [] ∧ (∀ k, k ∈ s → k ∈ jm_keys definition) ∧
        ∀ k, k ∈ s → ∃ p, p ∈ Graph.needs_in definition k ∧ (p ∈ jm_keys definition → p ∈ s)
  | Graph.OutOfFuel => False
  end.
Proof.
  intros Hs. pose proof (workflowNodeOrder_cases sort Hs definition) as H.
  destruct (Graph.workflowNodeOrder sort definition) as [ids| |]; [|done..].
  destruct H as [Hp Ht]. split; [done|]. intros l1 k l2 p E Hp'.
  by destruct (Ht l1 k l2 p E Hp') as [H%elem_of_nil|].
Qed.

Lemma workflow_order_witness :
  match Graph.workflowNodeOrder (merge_sort String.le) sample_definition with
  | Graph.Ordered ids => ids ≡ₚ ["test"; "build"] ∧ ids = ["build"; "test"]
  | _ => False
  end.
Proof.
  pose proof (workflow_order (merge_sort String.le) sample_definition (merge_sort_Permutation String.le)) as H.
  destruct H as [H _]. split; [exact H|reflexivity].
Defined.

(** The loop of attempts makes at least one attempt and at most [maxAttempts]; every
    attempt before the last one failed with an error that may be retried; and it gives
    up only on an error that may not, or after [maxAttempts]. *)
Theorem attempts_bounded lower node throws :
  (1 ≤ Executor.attempts_allowed node)%Z →
  ∃ made result,
    Executor.attempts lower (S (Z.to_nat (Executor.attempts_allowed node))) node 0 throws = Some (made, result) ∧
    (1 ≤ made ≤ Executor.attempts_allowed node)%Z ∧ result = throws made ∧
    (∀ k, (1 ≤ k < made)%Z → ∃ m, throws k = Some m ∧ Retry.classifyRetry lower m (wn_retry node) = retry) ∧
    (∀ m, result = Some m →
       Retry.classifyRetry lower m (wn_retry node) = fatal_ ∨ made = Executor.attempts_allowed node).
Proof.
  intros H1. set (max := Executor.attempts_allowed node) in *.
  assert (∀ fuel a, (0 ≤ a < max)%Z → (Z.to_nat (max - a) ≤ fuel)%nat →
    (∀ k, (1 ≤ k ≤ a)%Z → ∃ m, throws k = Some m ∧ Retry.classifyRetry lower m (wn_retry node) = retry) →
    ∃ made result, Executor.attempts lower fuel node a throws = Some (made, result) ∧
      (1 ≤ made ≤ max)%Z ∧ result = throws made ∧
      (∀ k, (1 ≤ k < made)%Z → ∃ m, throws k = Some m ∧ Retry.classifyRetry lower m (wn_retry node) = retry) ∧
      (∀ m, result = Some m → Retry.classifyRetry lower m (wn_retry node) = fatal_ ∨ made = max)) as H.
  { induction fuel as [|fuel IH]; intros a Ha Hf Hprev; [lia|]. simpl. fold max.
    rewrite (proj2 (Z.ltb_lt a max)) by lia. destruct (throws (a + 1)%Z) as [m|] eqn:Et.
    2: { exists (a + 1)%Z, None. split_and!; [done|lia|lia|done| |done]. intros k Hk. apply Hprev. lia. }
    unfold Executor.retries. fold max.
    destruct (bool_decide (Retry.classifyRetry lower m (wn_retry node) = retry)) eqn:Er; simpl; split_bools.
    - destruct (0 <? max - (a + 1))%Z eqn:Em; split_bools.
      + apply IH; [lia|lia|]. intros k Hk. destruct (decide (k = a + 1)%Z) as [->|]; [eauto|apply Hprev; lia].
      + exists (a + 1)%Z, (Some m). split_and!; [done|lia|lia|done| |intros; right; lia].
        intros k Hk. apply Hprev. lia.
    - exists (a + 1)%Z, (Some m). split_and!; [done|lia|lia|done| |].
      + intros k Hk. apply Hprev. lia.
      + intros m' [= <-]. left. by destruct (Retry.classifyRetry lower m (wn_retry node)). }
  apply H; lia.
Qed.

Lemma attempts_bounded_witness :
  ∃ made result, Executor.attempts lower 3 (sample_node None) 0 (λ _, Some "boom") = Some (made, result) ∧
    (1 ≤ made ≤ 2)%Z.
Proof.
  destruct (attempts_bounded lower (sample_node None) (λ _, Some "boom") ltac:(done)) as (made & result & H & Hm & _).
  exists made, result. exact (conj H Hm).
Defined.

(** ** The runs of a scheduler *)

(** A record on which a scheduler starts: a new run, whose nodes are queued, or one that is
    resumed, whose running nodes have been queued again. *)
Record startable (parsed : WorkflowDefinition) (d : WorkflowRunRecord) : Prop := {
  st_parsed : NoDup_keys parsed;
  st_wf : run_wf d;
  st_keys : ∀ k, k ∈ jm_keys (r_nodes d) ↔ k ∈ jm_keys parsed;
  st_idle : no_running d;
  st_ordered : ordered parsed d;
  st_open : closed (r_status d) = false
}.

Section Runs.
Variable toLowerCase : string → string.
Variable toISOString : Z → string.
Variable parsed : WorkflowDefinition.
Variable evalWhen : WorkflowRunRecord → string → option bool.
Notation reaches := (reaches toLowerCase toISOString parsed evalWhen).
Notation step := (step toLowerCase toISOString parsed evalWhen).
Notation queued_nodes := (queued_count (jm_keys parsed)).

Lemma startable_inv d s :
  startable parsed d → reaches d s → inv parsed evalWhen (jm_keys parsed) (queued_nodes d) s.
Proof.
  intros [H1 H2 H3 H4 H5 H6] Hr.
  apply (reaches_inv toLowerCase toISOString parsed evalWhen H1 (jm_keys parsed) (queued_nodes d) d s);
    [|done|done|done]. split; [done| |done|congruence]. intros k. by rewrite status_is_Some.
Qed.

(** C7: at every moment of a run, with its tasks, saves and cancelers in any order, a node
    on disk that has been launched needs only nodes that have ended. *)
Theorem dependency_order d s k st node p :
  startable parsed d → reaches d s →
  status_of k (disk s) = Some st → began st = true → jm_get k parsed = Some node → p ∈ needs_of node →
  parent_terminal (disk s) p = true.
Proof. intros Hd Hr. apply (i_disk _ _ _ _ _ (startable_inv d s Hd Hr)). Qed.

(** A run that is completed or canceled on disk has no node that could still run. *)
Theorem closed_run_finished d s k st :
  startable parsed d → reaches d s → closed (r_status (disk s)) = true → status_of k (disk s) = Some st →
  terminal_node st = true.
Proof. intros Hd Hr Hc. apply (f_closed _ _ _ (i_disk _ _ _ _ _ (startable_inv d s Hd Hr)) Hc). Qed.

(** The scheduler takes at most one turn for each node that was queued when it started,
    never waits for a node of another layer, and with fewer than 10000 nodes never
    reaches its safety bound. *)
Theorem turns_bounded d s :
  startable parsed d → reaches d s →
  (∀ n, pc s = PTurn n → (n ≤ queued_nodes d)%Z ∧
     ∀ uuid now, Scheduler.turn parsed evalWhen uuid now (disk s) ≠ Scheduler.TWait) ∧
  ((queued_nodes d < 10000)%Z → pc s ≠ PEnd ESafety).
Proof.
  intros Hd Hr. pose proof (startable_inv d s Hd Hr) as Hi. pose proof (i_pc _ _ _ _ _ Hi) as Hat.
  unfold at_pc in Hat. split.
  - intros n Hpc. rewrite Hpc in Hat. destruct Hat as (Hw & Hrun & H0 & Hc).
    pose proof (queued_count_nonneg (jm_keys parsed) (mem s)). split; [lia|]. intros uuid now Ht.
    apply turn_waits in Ht as [k Hk]; [|apply Hi].
    assert (coherent (mem s) (disk s)) as Hco by (eapply read_coherent; [done|by rewrite Hpc|done]).
    by apply (read_no_running _ _ Hco Hrun) in Hk.
  - intros Hq Hpc. rewrite Hpc in Hat. destruct Hat as [Hs _]. specialize (Hs eq_refl). lia.
Qed.

(** The run of a graph that [workflowNodeOrder] orders never ends with queued nodes whose
    needs are unmet. *)
Theorem no_orphans sort ids d s :
  (∀ l, sort l ≡ₚ l) → Graph.workflowNodeOrder sort parsed = Graph.Ordered ids →
  startable parsed d → reaches d s → pc s ≠ PEnd EOrphaned.
Proof.
  intros Hs Ho Hd Hr Hpc. pose proof (i_pc _ _ _ _ _ (startable_inv d s Hd Hr)) as Hat. unfold at_pc in Hat.
  rewrite Hpc in Hat. destruct Hat as [_ Hat]. apply Hat; [|done].
  pose proof (workflowNodeOrder_cases sort Hs parsed) as Hc. rewrite Ho in Hc. destruct Hc as [Hp Ht].
  apply (ordered_sound parsed evalWhen ids); [apply Hd|done|done].
Qed.

(** Later states of a run. *)
Definition later : Sys → Sys → Prop := rtc (λ s s', ∃ e, step e s s').

Lemma later_reaches d s s' : reaches d s → later s s' → reaches d s'.
Proof. intros Hr. induction 1 as [|s1 s2 s3 [e He] _ IH]; [done|]. apply IH. by eapply reaches_step. Qed.

Lemma step_keeps d e s s' : startable parsed d → reaches d s → step e s s' → keeps (disk s) (disk s').
Proof.
  intros Hd Hr Hs. pose proof (startable_inv d s Hd Hr) as Hi. destruct Hi as [Hdisk _ Hq _ _ _].
  assert (keeps (disk s) (disk s)) as Hrefl by (apply keeps_refl, Hdisk).
  destruct Hs; unfold take_turn, launch_all, end_layer, end_run, task_set; simpl;
    repeat (case_match; simpl); try done.
  apply write_keeps; [|apply Hdisk]. rewrite H in Hq. apply Forall_cons in Hq as [[Hf _] _]. apply Hf.
Qed.

Lemma later_keeps d s s' : startable parsed d → reaches d s → later s s' → keeps (disk s) (disk s').
Proof.
  intros Hd Hr Hl. revert Hr. induction Hl as [s|s1 s2 s3 [e He] Hl IH]; intros Hr.
  - apply keeps_refl, (i_disk _ _ _ _ _ (startable_inv d s Hd Hr)).
  - eapply keeps_trans; [by eapply step_keeps|]. apply IH. by eapply reaches_step.
Qed.

(** C6: a cancellation that is on disk is final for the record: whatever the scheduler, its
    tasks and other cancelers save later, the recorded run and its canceled nodes stay
    canceled, none of its nodes is recorded as queued, running or blocked, and every turn
    the scheduler begins later returns.  What had begun before is not stopped: a layer
    read from the disk earlier, or the retries of a running attempt, may still start
    executors; the theorem bounds what they can save, not that they run. *)
Theorem cancel_final d s s' :
  startable parsed d → reaches d s → r_status (disk s) = RCanceled → later s s' →
  r_status (disk s') = RCanceled ∧
  (∀ k, status_of k (disk s) = Some NCanceled → status_of k (disk s') = Some NCanceled) ∧
  (∀ k st, status_of k (disk s') = Some st → terminal_node st = true) ∧
  (∀ uuid now, Scheduler.turn parsed evalWhen uuid now (disk s') = Scheduler.TReturn).
Proof.
  intros Hd Hr Hc Hl. pose proof (later_keeps d s s' Hd Hr Hl) as Hk.
  pose proof (k_run_canceled _ _ Hk Hc) as Hc'. split_and!; [done|apply Hk| |].
  - intros k st. apply (f_closed _ _ _ (i_disk _ _ _ _ _ (startable_inv d s' Hd (later_reaches d s s' Hr Hl)))).
    by rewrite Hc'.
  - intros uuid now. unfold Scheduler.turn. by rewrite Hc'.
Qed.

(** C8: every run ends: no state but the end is stuck, and there is no infinite sequence of
    steps that write saves, take turns, settle attempts or cancel; only an executor that
    never finishes an attempt keeps a run from its end. *)
Theorem run_ends d s :
  startable parsed d → reaches d s →
  ((∃ e, pc s = PEnd e) ∨ ∃ s', progress toLowerCase toISOString parsed evalWhen s s') ∧
  Acc (λ s2 s1, progress toLowerCase toISOString parsed evalWhen s1 s2) s.
Proof.
  intros Hd Hr. pose proof (startable_inv d s Hd Hr) as Hi. split; [by eapply can_progress|].
  eapply progress_acc; [apply Hd|done].
Qed.
End Runs.

(** ** A sample run *)

Module Sample.
Definition uuid (n : nat) : string := pretty n.
Definition iso (t : Z) : string := pretty t.
Definition no_when (r : WorkflowRunRecord) (w : string) : option bool := None.
Definition d0 : WorkflowRunRecord := sample_run NQueued NQueued RQueued.
Notation run := (reaches lower iso sample_definition no_when d0).

Definition write1 (s : Sys) : Sys :=
  match queue s with
  | [] => s
  | e :: q => {| disk := write (sn_run e) (disk s); queue := q; mem := mem s; canceling := canceling s; pc := pc s |}
  end.

Lemma run_write1 s : run s → queue s ≠ [] → run (write1 s).
Proof.
  intros Hr Hq. unfold write1. destruct (queue s) as [|e q] eqn:E; [done|].
  eapply reaches_step; [exact Hr|]. by eapply step_write.
Qed.

(** A layer with one node: the turn, the launch, the attempt and the end. *)
Definition launched (n : Z) (s : Sys) (k : string) : Sys :=
  write1 (launch_all iso sample_definition uuid n (n + 1)%Z [k] (take_turn sample_definition no_when uuid n n s)).
Definition ended_layer (n : Z) (s : Sys) (k : string) : Sys :=
  let s := write1 (task_set k (Settled SCompleted) (hold_and_save (Executor.complete_node uuid n k (mem s)) s)) in
  let s := write1 (goto (PAfter n [k] true) (hold_and_save (disk s) s)) in
  end_layer sample_definition uuid n n [k] s.

Definition begun : Sys :=
  goto (PTurn 0) (write1 (goto (PBegin true) (hold_and_save (Scheduler.begin_run uuid 1 false [] d0) (started d0)))).
Definition build_running : Sys := launched 0 begun "build".
Definition test_running : Sys := launched 1 (ended_layer 1 build_running "build") "test".
Definition finished : Sys :=
  write1 (end_run uuid 9 (take_turn sample_definition no_when uuid 8 2 (ended_layer 2 test_running "test"))).

Lemma run_launched n s k :
  run s → pc s = PTurn n → pc (take_turn sample_definition no_when uuid n n s) = PLaunch (n + 1) [k] →
  own_written (queue (take_turn sample_definition no_when uuid n n s)) = true →
  queue (launch_all iso sample_definition uuid n (n + 1)%Z [k] (take_turn sample_definition no_when uuid n n s)) ≠ [] →
  run (launched n s k).
Proof.
  intros Hr Hpc Hl Hw Hq. apply run_write1; [|done]. eapply reaches_step; [|by eapply step_launch].
  eapply reaches_step; [exact Hr|by apply step_turn].
Qed.

Lemma run_ended n s k a :
  run s → pc s = PLayer n [(k, Running a)] → queue s = [] → run (ended_layer n s k).
Proof.
  intros Hr Hpc Hq. unfold ended_layer.
  set (s1 := task_set k (Settled SCompleted) (hold_and_save (Executor.complete_node uuid n k (mem s)) s)).
  assert (jm_get k [(k, Running a)] = Some (Running a)) as Hk by (simpl; by rewrite decide_True).
  assert (run (write1 s1)) as H1.
  { apply run_write1; [|unfold s1, task_set; simpl; rewrite Hpc; simpl; by rewrite Hq].
    eapply reaches_step; [exact Hr|]. by eapply step_completed. }
  assert (pc (write1 s1) = PLayer n [(k, Settled SCompleted)] ∧ queue (write1 s1) = []) as [Hpc1 Hq1].
  { unfold s1, task_set, write1. simpl. rewrite Hpc. simpl. rewrite Hq. simpl. by rewrite decide_True. }
  set (s2 := goto (PAfter n [k] true) (hold_and_save (disk (write1 s1)) (write1 s1))).
  assert (run (write1 s2)) as H2.
  { apply run_write1; [|unfold s2; simpl; by rewrite Hq1].
    eapply reaches_step; [exact H1|]. 
    apply (step_settled _ _ _ _ (write1 s1) uuid n n [(k, Settled SCompleted)] [] true (disk (write1 s1)));
      [done|done|by rewrite Hq1|]. split; [done..|by left]. }
  eapply reaches_step; [exact H2|].
  apply (step_after _ _ _ _ (write1 s2) uuid n n [k] true);
    [unfold s2, write1; simpl; by case_match|unfold write1, s2; simpl; by rewrite Hq1].
Qed.

Lemma run_begun : run begun.
Proof.
  unfold begun. eapply reaches_step; [|by apply (step_begun _ _ _ _ _ true)]. apply run_write1; [|done].
  eapply reaches_step; [apply reaches_start|]. by apply (step_begin _ _ _ _ (started d0) uuid 1%Z false []).
Qed.

Lemma run_build : run build_running.
Proof. apply run_launched; [apply run_begun|vm_compute; done..]. Qed.

Lemma run_test : run test_running.
Proof.
  apply run_launched; [|vm_compute; done..]. apply (run_ended 1 build_running "build" 1); [apply run_build|vm_compute; done..].
Qed.

Lemma run_finished : run finished.
Proof.
  assert (run (ended_layer 2 test_running "test")) as H.
  { apply (run_ended 2 test_running "test" 1); [apply run_test|vm_compute; done..]. }
  apply run_write1; [|vm_compute; done]. eapply reaches_step; [|by apply step_finish].
  eapply reaches_step; [exact H|]. apply step_turn. vm_compute. done.
Qed.

Lemma sample_startable : startable sample_definition d0.
Proof.
  split; [by apply (bool_decide_unpack _); vm_compute|apply sample_run_wf| | | |done].
  - intros k. vm_compute jm_keys. set_solver.
  - intros k. unfold status_of. simpl. repeat case_decide; by intros [=].
  - intros k s node p. unfold status_of. simpl. repeat case_decide; by intros [= <-].
Qed.
End Sample.

Import Sample.

Lemma dependency_order_witness :
  status_of "test" (disk test_running) = Some NRunning ∧ parent_terminal (disk test_running) "build" = true.
Proof.
  split; [vm_compute; reflexivity|].
  eapply (dependency_order lower iso sample_definition no_when d0 test_running "test" NRunning _ "build");
    [apply sample_startable|apply run_test|vm_compute; reflexivity|reflexivity|reflexivity|by left].
Defined.

Lemma closed_run_finished_witness :
  r_status (disk finished) = RCompleted ∧ ∃ st, status_of "test" (disk finished) = Some st ∧ terminal_node st = true.
Proof.
  split; [vm_compute; reflexivity|]. exists NCompleted. split; [vm_compute; reflexivity|].
  apply (closed_run_finished lower iso sample_definition no_when d0 finished "test" NCompleted);
    [apply sample_startable|apply run_finished|vm_compute; reflexivity|vm_compute; reflexivity].
Defined.

Lemma turns_bounded_witness : pc finished = PEnd ECompleted ∧ pc finished ≠ PEnd ESafety.
Proof.
  split; [vm_compute; reflexivity|].
  apply (proj2 (turns_bounded lower iso sample_definition no_when d0 finished sample_startable run_finished)).
  vm_compute. reflexivity.
Defined.

Lemma no_orphans_witness : pc begun = PTurn 0 ∧ pc begun ≠ PEnd EOrphaned.
Proof.
  split; [reflexivity|].
  apply (no_orphans lower iso sample_definition no_when (merge_sort String.le) ["build"; "test"] d0 begun);
    [apply merge_sort_Permutation; apply _|reflexivity|apply sample_startable|apply run_begun].
Defined.

(** A user cancels while [build] runs. *)
Definition cancel_result : option (list string * WorkflowRunRecord) :=
  Cancel.cancelRun "c" 7 None [] (disk build_running).
Definition canceled_record : WorkflowRunRecord :=
  match cancel_result with Some (_, r) => r | None => d0 end.
Definition reading : Sys :=
  {| disk := disk build_running; queue := queue build_running; mem := mem build_running;
     canceling := disk build_running :: canceling build_running; pc := pc build_running |}.
Definition saving : Sys :=
  {| disk := disk reading; queue := queue reading ++ [{| sn_own := false; sn_run := canceled_record |}];
     mem := mem reading; canceling := [] ++ []; pc := pc reading |}.
Definition canceled : Sys := write1 saving.

Lemma run_canceled : reaches lower iso sample_definition no_when d0 canceled.
Proof.
  assert (reaches lower iso sample_definition no_when d0 reading) as Hr.
  { eapply reaches_step; [apply run_build|]. apply (step_cancel_read _ _ _ _ build_running). vm_compute. reflexivity. }
  assert (Cancel.cancelRun "c" 7 None [] (disk build_running) = Some ([], canceled_record)) as Hc by (vm_compute; reflexivity).
  assert (canceling reading = [] ++ disk build_running :: []) as Hl by (vm_compute; reflexivity).
  apply run_write1; [|vm_compute; done]. eapply reaches_step; [exact Hr|].
  exact (step_cancel_save lower iso sample_definition no_when reading [] (disk build_running) [] "c" 7%Z None [] []
    canceled_record Hl Hc).
Qed.

Lemma cancel_final_witness :
  let late := write1 (task_set "build" (Settled SCompleted)
    (hold_and_save (Executor.complete_node uuid 8 "build" (mem canceled)) canceled)) in
  r_status (disk late) = RCanceled ∧ status_of "build" (disk late) = Some NCanceled.
Proof.
  intros late. destruct (cancel_final lower iso sample_definition no_when d0 canceled late) as (H1 & H2 & _).
  - apply sample_startable.
  - apply run_canceled.
  - vm_compute. reflexivity.
  - eapply rtc_l; [exists Settles; eapply (step_completed _ _ _ _ canceled uuid 8%Z 1%Z _ "build" 1%Z); vm_compute; reflexivity|].
    eapply rtc_l; [exists Writes; eapply step_write; vm_compute; reflexivity|]. apply rtc_refl.
  - split; [exact H1|]. apply H2. vm_compute. reflexivity.
Defined.

Lemma run_ends_witness : ∃ s', progress lower iso sample_definition no_when build_running s'.
Proof.
  destruct (run_ends lower iso sample_definition no_when d0 build_running sample_startable run_build) as [[[e He]|H] _];
    [vm_compute in He; discriminate He|exact H].
Defined.
