(* ===== verification/ShellTemplate.v ===== *)
(** * Templates of workflow nodes (packages/daemon/src/workflows/runtime-helpers.ts,
    expression.ts)

    A template is text with placeholders, [{{ expression }}].  [renderTemplateString]
    replaces them by values; [renderShellCommandTemplate] also quotes the values, so that
    they are data for the shell.  [Module Shell] says what quoting means: the rules of
    POSIX for quotes and backslashes, as an automaton that tells which characters of a
    command the shell may interpret.  The rules are those of commands without comments,
    here-documents, substitutions and arithmetic, within which quotes are read otherwise:
    [Shell.simple] recognises such commands, and the theorem is about them.

    The evaluation of JSONata expressions and the text of values that are not strings are
    arguments.  Templates are lists of bytes: the characters the patterns test are ASCII,
    but for white space, and a pattern never matches from the middle of a character. *)

From S2P Require Import Prelude JsString JsMap Json.
From stdpp Require Import prelude strings list.
From Stdlib Require Import ZArith Lia Ascii.

Definition text : Type := list ascii.
Definition txt : string → text := String.list_ascii_of_string.
Definition str : text → string := String.string_of_list_ascii.

(** ** The patterns *)

(** What follows a prefix of white space, the longest prefix first: the ways to match
    [\s*]. *)
Fixpoint ws_suffixes (l : text) : list text :=
  match l with
  | [] => [l]
  | a :: l1 =>
      if ws1 a then ws_suffixes l1 ++ [l] else
      match l1 with
      | [] => [l]
      | b :: l2 =>
          if ws2 a b then ws_suffixes l2 ++ [l] else
          match l2 with
          | [] => [l]
          | c :: l3 => if ws3 a b c then ws_suffixes l3 ++ [l] else [l]
          end
      end
  end.

Definition skip_ws (l : text) : text := hd l (ws_suffixes l).

(** [\s*\}\}]: white space has no brace. *)
Definition closes (l : text) : option text :=
  match skip_ws l with
  | a :: b :: r => if is_char "}" a && is_char "}" b then Some r else None
  | _ => None
  end.

(** [([\s\S]+?)\s*\}\}]: the shortest group. *)
Fixpoint lazy_group (l : text) : option (text * text) :=
  match l with
  | [] => None
  | a :: l' =>
      match closes l' with
      | Some r => Some ([a], r)
      | None => '(g, r) ← lazy_group l'; Some (a :: g, r)
      end
  end.

Definition opens (l : text) : option text :=
  match l with
  | a :: b :: r => if is_char "{" a && is_char "{" b then Some r else None
  | _ => None
  end.

(** [placeholderPattern] at the head of a text: the expression and what follows. *)
Definition placeholder (l : text) : option (text * text) :=
  r ← opens l; List.fold_right (λ r' other, match lazy_group r' with Some m => Some m | None => other end)
    None (ws_suffixes r).

(** ** The matches of a template *)

Inductive Segment :=
| Char (a : ascii)
| Placeholder (match0 expression : text).

Definition raw (s : Segment) : text := match s with Char a => [a] | Placeholder m _ => m end.

(** The matches of the global pattern, from left to right.  A match is not empty, so that
    as many rounds as characters are enough. *)
Fixpoint segments_loop (fuel : nat) (l : text) : list Segment :=
  match fuel, l with
  | S fuel, a :: l' =>
      match placeholder l with
      | Some (e, r) => Placeholder (take (length l - length r) l) e :: segments_loop fuel r
      | None => Char a :: segments_loop fuel l'
      end
  | _, _ => []
  end.
Definition segments (l : text) : list Segment := segments_loop (length l) l.

Definition expressions (segs : list Segment) : list text :=
  omap (λ s, match s with Placeholder _ e => Some e | Char _ => None end) segs.

(** The text between the matches, and the values, which [escape] quotes for the place of
    the match. *)
Fixpoint assemble (escape : nat → text → text) (index : nat) (segs : list Segment) (values : list text) : text :=
  match segs with
  | [] => []
  | Char a :: segs => a :: assemble escape (S index) segs values
  | Placeholder m _ :: segs =>
      match values with
      | v :: values => escape index v ++ assemble escape (index + length m) segs values
      | [] => assemble escape (index + length m) segs []
      end
  end.

(** ** Legacy names *)

Definition is_name_char (a : ascii) : bool :=
  let n := code a in
  ((65 <=? n) && (n <=? 90)) || ((97 <=? n) && (n <=? 122)) || ((48 <=? n) && (n <=? 57)) ||
  existsb (λ c, Ascii.eqb c a) (txt "._/-").

Fixpoint drop_prefix (p l : text) : option text :=
  match p, l with
  | [], _ => Some l
  | a :: p, b :: l => if Ascii.eqb a b then drop_prefix p l else None
  | _, _ => None
  end.

(** [LEGACY_OUTPUTS_PATTERN]: the text that replaces the match, and what follows it. *)
Definition legacy_outputs (l : text) : option (text * text) :=
  r ← opens l; r ← drop_prefix (txt "outputs.") (skip_ws r);
  let '(nodeId, r) := span is_name_char r in
  if bool_decide (nodeId = []) then None else
  r ← closes r; Some (txt "{{ nodes." ++ nodeId ++ txt ".output }}", r).

(** [([A-Za-z0-9._/-]+)\.([A-Za-z0-9._/-]+)] on a text of such characters: the last dot
    with a character before and after it. *)
Fixpoint last_dot (before l : text) : option (text * text) :=
  match l with
  | [] => None
  | a :: l' =>
      match last_dot (before ++ [a]) l' with
      | Some m => Some m
      | None => if is_char "." a && negb (bool_decide (before = [])) && negb (bool_decide (l' = []))
                then Some (before, l') else None
      end
  end.

(** [LEGACY_ARTIFACTS_PATTERN] *)
Definition legacy_artifacts (l : text) : option (text * text) :=
  r ← opens l; r ← drop_prefix (txt "artifacts.") (skip_ws r);
  let '(names, r) := span is_name_char r in
  '(nodeId, name) ← last_dot [] names;
  r ← closes r;
  Some (txt "{{ artifacts[nodeId='" ++ nodeId ++ txt "' and name='" ++ name ++ txt "'].path }}", r).

(** [replace] with a global pattern. *)
Fixpoint replace_loop (fuel : nat) (pattern : text → option (text * text)) (l : text) : text :=
  match fuel, l with
  | S fuel, a :: l' =>
      match pattern l with
      | Some (t, r) => t ++ replace_loop fuel pattern r
      | None => a :: replace_loop fuel pattern l'
      end
  | _, _ => []
  end.
Definition replace_all (pattern : text → option (text * text)) (l : text) : text :=
  replace_loop (length l) pattern l.

Definition applyLegacyTemplateAliases (template : text) : text :=
  replace_all legacy_artifacts (replace_all legacy_outputs template).

(** ** Quoting *)

Definition squote : ascii := "'".
Definition dquote : ascii := "034".
Definition backslash : ascii := "\".

Record Tracker := { inSingle : bool; inDouble : bool; escaped : bool }.

Definition track (t : Tracker) (char : ascii) : Tracker :=
  if escaped t then {| inSingle := inSingle t; inDouble := inDouble t; escaped := false |}
  else if Ascii.eqb char backslash then {| inSingle := inSingle t; inDouble := inDouble t; escaped := true |}
  else if Ascii.eqb char squote && negb (inDouble t) then
    {| inSingle := negb (inSingle t); inDouble := inDouble t; escaped := false |}
  else if Ascii.eqb char dquote && negb (inSingle t) then
    {| inSingle := inSingle t; inDouble := negb (inDouble t); escaped := false |}
  else t.

Definition untracked : Tracker := {| inSingle := false; inDouble := false; escaped := false |}.

Definition isInsideDoubleQuotedShellSpan (value : text) (offset : nat) : bool :=
  inDouble (fold_left track (take offset value) untracked).

Definition shellQuote (value : text) : text :=
  if bool_decide (value = []) then [squote; squote]
  else [squote] ++
       concat (map (λ a, if Ascii.eqb a squote then [squote; backslash; squote; squote] else [a]) value) ++ [squote].

Definition is_special (a : ascii) : bool :=
  Ascii.eqb a dquote || Ascii.eqb a backslash || Ascii.eqb a "$" || Ascii.eqb a "`".

Definition shellDoubleQuoteEscape (value : text) : text :=
  concat (map (λ a, if is_special a then [backslash; a] else [a]) value).

(** The quoting of the match at [index]. *)
Definition shell_escape (rewritten : text) (index : nat) (rendered : text) : text :=
  if isInsideDoubleQuotedShellSpan rewritten index then shellDoubleQuoteEscape rendered else shellQuote rendered.

Section Render.
(** [evaluateExpression] in the context of the run: [None] when it throws, [Some None] for
    [undefined]. *)
Variable evaluate : text → option (option json).
(** [String(v)] of a number or a boolean, [JSON.stringify(v)] of an object. *)
Variable stringify : json → string.

(** [stringifyTemplateValue], [stringifyShellTemplateValue] *)
Definition stringifyTemplateValue (value : option json) : text :=
  match value with
  | None | Some JNull => []
  | Some (JStr s) => txt s
  | Some v => txt (stringify v)
  end.

(** [Promise.all]: one rejection rejects. *)
Definition resolved (segs : list Segment) : option (list text) :=
  mapM (λ e, stringifyTemplateValue <$> evaluate e) (expressions segs).

Definition renderTemplateString (template : text) : option text :=
  values ← resolved (segments template); Some (assemble (λ _ v, v) 0 (segments template) values).

Definition renderTemplate (template : text) : option text :=
  renderTemplateString (applyLegacyTemplateAliases template).

Definition renderShellCommandTemplate (template : text) : option text :=
  let rewritten := applyLegacyTemplateAliases template in
  values ← resolved (segments rewritten);
  Some (assemble (shell_escape rewritten) 0 (segments rewritten) values).
End Render.

(** ** The quotes of a POSIX shell *)

Module Shell.

Inductive State := Normal | NormalEscape | Single | Double | DoubleEscape.

(** A character that the shell may interpret, or one that it takes as it is. *)
Inductive Mark := Active (a : ascii) | Literal (a : ascii).
#[global] Instance Mark_eq_dec : EqDecision Mark.
Proof. solve_decision. Defined.

Definition newline : ascii := "010".

(** One character: a backslash quotes the next character outside quotes, and within double
    quotes only the characters that stay special there; a quoted newline disappears. *)
Definition read (q : State) (a : ascii) : State * list Mark :=
  match q with
  | Normal =>
      if Ascii.eqb a backslash then (NormalEscape, [])
      else if Ascii.eqb a squote then (Single, [])
      else if Ascii.eqb a dquote then (Double, [])
      else (Normal, [Active a])
  | NormalEscape => (Normal, if Ascii.eqb a newline then [] else [Literal a])
  | Single => if Ascii.eqb a squote then (Normal, []) else (Single, [Literal a])
  | Double =>
      if Ascii.eqb a backslash then (DoubleEscape, [])
      else if Ascii.eqb a dquote then (Normal, [])
      else if Ascii.eqb a "$" || Ascii.eqb a "`" then (Double, [Active a])
      else (Double, [Literal a])
  | DoubleEscape =>
      (Double, if Ascii.eqb a newline then [] else if is_special a then [Literal a]
               else [Literal backslash; Literal a])
  end.

Fixpoint lex (q : State) (l : text) : State * list Mark :=
  match l with
  | [] => (q, [])
  | a :: l => let '(q1, m1) := read q a in let '(q2, m2) := lex q1 l in (q2, m1 ++ m2)
  end.

(** What the shell should read: the text as it is, the values as data. *)
Fixpoint intended (q : State) (segs : list Segment) (values : list text) : list Mark :=
  match segs with
  | [] => []
  | Char a :: segs => (read q a).2 ++ intended (read q a).1 segs values
  | Placeholder _ _ :: segs =>
      match values with
      | v :: values => map Literal v ++ intended q segs values
      | [] => intended q segs []
      end
  end.

(** The last character that was left active, if nothing but a quoted newline came since. *)
Definition last_active (q : State) (prev : option ascii) (a : ascii) : option ascii :=
  match q with
  | Normal => if Ascii.eqb a backslash then prev
              else if Ascii.eqb a squote || Ascii.eqb a dquote then None else Some a
  | NormalEscape => if Ascii.eqb a newline then prev else None
  | Single => None
  | Double => if Ascii.eqb a backslash then prev else if Ascii.eqb a "$" then Some a else None
  | DoubleEscape => if Ascii.eqb a newline then prev else None
  end.

Definition follows (prev : option ascii) (c : ascii) : bool := bool_decide (prev = Some c).

(** No character begins a comment, a here-document, a substitution, arithmetic or quotes of
    another kind: no active [`] and [#], no [$] before a bracket or a quote, no [<<] and no
    [((]. *)
Definition simple_char (q : State) (prev : option ascii) (a : ascii) : bool :=
  match q with
  | Normal =>
      negb (Ascii.eqb a "`") && negb (Ascii.eqb a "#") &&
      negb (follows prev "$" && existsb (λ c, Ascii.eqb a c) ["("; "{"; "["; squote; dquote]%char) &&
      negb (follows prev "<" && Ascii.eqb a "<") && negb (follows prev "(" && Ascii.eqb a "(")
  | Double =>
      negb (Ascii.eqb a "`") && negb (follows prev "$" && existsb (λ c, Ascii.eqb a c) ["("; "{"; "["]%char)
  | _ => true
  end.

Fixpoint simple (q : State) (prev : option ascii) (l : text) : bool :=
  match l with
  | [] => true
  | a :: l => simple_char q prev a && simple (read q a).1 (last_active q prev a) l
  end.

Definition is_quote (a : ascii) : bool := Ascii.eqb a squote || Ascii.eqb a dquote || Ascii.eqb a backslash.

(** Simple text; placeholders without quotes in them, outside single quotes, not behind a
    backslash and not right behind a dollar; no backslash within single quotes. *)
Fixpoint well_placed (q : State) (prev : option ascii) (segs : list Segment) : bool :=
  match segs with
  | [] => true
  | Char a :: segs =>
      simple_char q prev a && negb (match q with Single => Ascii.eqb a backslash | _ => false end) &&
      well_placed (read q a).1 (last_active q prev a) segs
  | Placeholder m _ :: segs =>
      match q with
      | Normal => negb (follows prev "$") && forallb (λ a, negb (is_quote a)) m && well_placed q None segs
      | Double => bool_decide (prev = None) && forallb (λ a, negb (is_quote a)) m && well_placed q None segs
      | _ => false
      end
  end.
End Shell.

(** ** Facts about the patterns *)

(** The cases of [ws_suffixes]: white space of one, two or three bytes, or none. *)
Lemma ws_suffixes_ind (P : text → list text → Prop) :
  (∀ l, P l [l]) →
  (∀ w l, w ≠ [] → P l (ws_suffixes l) → P (w ++ l) (ws_suffixes l ++ [w ++ l])) →
  ∀ l, P l (ws_suffixes l).
Proof.
  intros H0 Hw l. remember (length l) as n eqn:En. revert l En.
  induction n as [n IH] using lt_wf_ind. intros [|a l1] ->; simpl; [done|].
  destruct (ws1 a); [apply (Hw [a]); [done|]; eapply IH; [|done]; simpl; lia|].
  destruct l1 as [|b l2]; [done|].
  destruct (ws2 a b); [apply (Hw [a; b]); [done|]; eapply IH; [|done]; simpl; lia|].
  destruct l2 as [|c l3]; [done|].
  destruct (ws3 a b c); [apply (Hw [a; b; c]); [done|]; eapply IH; [|done]; simpl; lia|done].
Qed.

Lemma ws_suffixes_suffix l r : r ∈ ws_suffixes l → r `suffix_of` l.
Proof.
  revert r. apply (ws_suffixes_ind (λ l rs, ∀ r, r ∈ rs → r `suffix_of` l)).
  - intros l' r ->%list_elem_of_singleton. done.
  - intros w l' _ IH r [Hr| ->%list_elem_of_singleton]%elem_of_app; [|done]. by apply suffix_app_r, IH.
Qed.

Lemma skip_ws_suffix l : skip_ws l `suffix_of` l.
Proof.
  unfold skip_ws. destruct (ws_suffixes l) as [|r rs] eqn:E; [done|].
  apply ws_suffixes_suffix. rewrite E. by left.
Qed.

Lemma closes_suffix l r : closes l = Some r → r `suffix_of` l.
Proof.
  unfold closes. pose proof (skip_ws_suffix l) as Hs. destruct (skip_ws l) as [|a [|b r']]; [done..|].
  case_match; [|done]. intros [= ->]. etrans; [|exact Hs]. by apply (suffix_app_r _ _ [a; b]).
Qed.

Lemma lazy_group_suffix l g r : lazy_group l = Some (g, r) → r `suffix_of` l.
Proof.
  revert g. induction l as [|a l IH]; intros g; simpl; [done|].
  destruct (closes l) as [r'|] eqn:E.
  - intros [= _ ->]. by apply suffix_cons_r, closes_suffix.
  - intros ([g' r'] & H & [= _ ->])%bind_Some. by eapply suffix_cons_r, IH.
Qed.

Lemma placeholder_rest l e r : placeholder l = Some (e, r) → ∃ m, m ≠ [] ∧ l = m ++ r.
Proof.
  unfold placeholder. intros (l0 & Ho & H)%bind_Some.
  assert (r `suffix_of` l0) as [m Hm].
  { assert (∀ x, x ∈ ws_suffixes l0 → x `suffix_of` l0) as Hs by apply ws_suffixes_suffix. revert H Hs.
    induction (ws_suffixes l0) as [|x xs IH]; simpl; [done|]. intros H Hs.
    destruct (lazy_group x) as [[g r']|] eqn:E; [simplify_eq/=|].
    - etrans; [by eapply lazy_group_suffix|]. apply Hs. by left.
    - apply IH; [done|]. intros y Hy. apply Hs. by right. }
  destruct l as [|a [|b l]]; [done..|]. simpl in Ho. case_match; [|done]. simplify_eq.
  by exists (a :: b :: m).
Qed.

(** The segments of a template are the template. *)
Lemma segments_concat l : concat (map raw (segments l)) = l.
Proof.
  unfold segments. assert (∀ n l, length l ≤ n → concat (map raw (segments_loop n l)) = l) as H; [|by apply H].
  clear l. intros n. induction n as [|n IH]; intros [|a l] Hn; simpl in *; [done|lia|done|].
  destruct (placeholder (a :: l)) as [[e r]|] eqn:E; simpl; [|f_equal; apply IH; lia].
  apply placeholder_rest in E as (m & Hm & E). rewrite IH.
  2: { apply (f_equal length) in E. simpl in E. rewrite length_app in E. destruct m; [done|simpl in E; lia]. }
  change (S (length l)) with (length (a :: l)). rewrite E, length_app.
  replace (length m + length r - length r) with (length m) by lia. by rewrite take_app_length.
Qed.

(** ** Facts about quotes *)

Module ShellFacts.
Import Shell.

Lemma lex_app q l1 l2 :
  lex q (l1 ++ l2) = ((lex (lex q l1).1 l2).1, (lex q l1).2 ++ (lex (lex q l1).1 l2).2).
Proof.
  revert q. induction l1 as [|a l1 IH]; intros q; simpl; [by destruct (lex q l2)|].
  destruct (read q a) as [q1 m1]. rewrite IH. destruct (lex q1 l1) as [q2 m2]. simpl. by rewrite app_assoc.
Qed.

Lemma lex_cons q a l : lex q (a :: l) = ((lex (read q a).1 l).1, (read q a).2 ++ (lex (read q a).1 l).2).
Proof. simpl. destruct (read q a) as [q1 m1]. simpl. by destruct (lex q1 l). Qed.

(** A text that is quoted character by character. *)
Lemma lex_quoted q (f : ascii → text) v :
  (∀ a, lex q (f a) = (q, [Literal a])) → lex q (concat (map f v)) = (q, map Literal v).
Proof. intros Hf. induction v as [|a v IH]; [done|]. simpl concat. by rewrite lex_app, Hf; simpl; rewrite IH. Qed.

Lemma lex_shellQuote v : lex Normal (shellQuote v) = (Normal, map Literal v).
Proof.
  unfold shellQuote. case_bool_decide as Hv; [by subst|]. rewrite lex_app. simpl (lex Normal [squote]).
  rewrite lex_app. cbn [fst snd]. rewrite lex_quoted; [simpl; by rewrite app_nil_r|].
  intros a. destruct (Ascii.eqb_spec a squote) as [->|Ha]; [done|].
  simpl. rewrite (proj2 (Ascii.eqb_neq a squote) Ha). done.
Qed.

Lemma lex_shellDoubleQuoteEscape v : lex Double (shellDoubleQuoteEscape v) = (Double, map Literal v).
Proof.
  apply lex_quoted. intros a. destruct (is_special a) eqn:E.
  - simpl. destruct (Ascii.eqb_spec a newline) as [->|_]; [done|]. by rewrite E.
  - unfold is_special in E. split_bools. simpl. by rewrite H0, H, H1, H2.
Qed.

(** What the tracker of the code knows of the state of the shell. *)
Definition agrees (t : Tracker) (q : State) : Prop :=
  t = match q with
      | Normal => untracked
      | NormalEscape => {| inSingle := false; inDouble := false; escaped := true |}
      | Single => {| inSingle := true; inDouble := false; escaped := false |}
      | Double => {| inSingle := false; inDouble := true; escaped := false |}
      | DoubleEscape => {| inSingle := false; inDouble := true; escaped := true |}
      end.

Lemma track_read t q a :
  agrees t q → match q with Single => Ascii.eqb a backslash | _ => false end = false →
  agrees (track t a) (read q a).1.
Proof.
  intros -> H. unfold agrees, track, read.
  destruct q; simpl; try done; try (rewrite H); try (destruct (Ascii.eqb_spec a backslash) as [->|_]; [done|]);
    (destruct (Ascii.eqb_spec a squote) as [->|_]; [done|]);
    (destruct (Ascii.eqb_spec a dquote) as [->|_]; [done|]); simpl; try done.
  by destruct (_ || _).
Qed.

Lemma track_quoteless t q m :
  agrees t q → q = Normal ∨ q = Double → forallb (λ a, negb (is_quote a)) m = true → fold_left track m t = t.
Proof.
  intros Ht Hq. induction m as [|a m IH]; simpl; [done|]. intros [Ha Hm]%andb_true_iff.
  unfold is_quote in Ha. split_bools. assert (track t a = t) as ->; [|by apply IH].
  rewrite Ht. unfold track. destruct Hq as [-> | ->]; simpl; by rewrite H0, H, H1.
Qed.

(** A value is quoted for the state in which the shell meets it. *)
Lemma lex_escape rewritten pre post q v :
  rewritten = pre ++ post → agrees (fold_left track pre untracked) q → q = Normal ∨ q = Double →
  lex q (shell_escape rewritten (length pre) v) = (q, map Literal v).
Proof.
  intros -> Ht Hq. unfold shell_escape, isInsideDoubleQuotedShellSpan. rewrite take_app_length, Ht.
  destruct Hq as [-> | ->]; simpl; [apply lex_shellQuote|apply lex_shellDoubleQuoteEscape].
Qed.

(** A placeholder's place. *)
Lemma placed q prev m e segs : well_placed q prev (Placeholder m e :: segs) = true →
  ((q = Normal ∧ prev ≠ Some "$"%char) ∨ (q = Double ∧ prev = None)) ∧
  forallb (λ a, negb (is_quote a)) m = true ∧ well_placed q None segs = true.
Proof.
  simpl. unfold follows. destruct q; try done; intros H; split_bools; split_and!; auto.
Qed.

Lemma lex_assemble rewritten segs pre q prev values :
  rewritten = pre ++ concat (map raw segs) → agrees (fold_left track pre untracked) q →
  well_placed q prev segs = true → length values = length (expressions segs) →
  (lex q (assemble (shell_escape rewritten) (length pre) segs values)).2 = intended q segs values.
Proof.
  revert pre q prev values. induction segs as [|[a|m e] segs IH]; intros pre q prev values Hr Ht Hw Hl; [done|..].
  - simpl in *. rewrite !andb_true_iff, negb_true_iff in Hw. destruct Hw as [[_ Ha] Hw].
    rewrite <-(IH (pre ++ [a]) _ (last_active q prev a)); [|by rewrite <-app_assoc| |done..].
    + rewrite length_app. simpl. rewrite Nat.add_1_r. destruct (read q a) as [q1 m1]. simpl.
      match goal with |- context [lex q1 ?x] => by destruct (lex q1 x) end.
    + rewrite fold_left_app. by apply track_read.
  - apply placed in Hw as (Hq' & Hm & Hw). assert (q = Normal ∨ q = Double) as Hq by naive_solver.
    destruct values as [|v values]; [done|]. simpl in *.
    rewrite lex_app, (lex_escape rewritten pre (m ++ concat (map raw segs)) q v Hr Ht Hq). simpl. f_equal.
    rewrite <-length_app. apply (IH _ _ None); [by rewrite <-app_assoc| |done|lia].
    rewrite fold_left_app. by rewrite (track_quoteless _ q).
Qed.

(** Quoted values leave the command simple. *)
Lemma simple_shellQuote v l prev : prev ≠ Some "$"%char →
  simple Normal prev (shellQuote v ++ l) = simple Normal None l.
Proof.
  intros Hp. unfold shellQuote. assert (follows prev "$" = false) as Hf by (by apply bool_decide_eq_false).
  case_bool_decide as Hv; [simpl; rewrite Hf; by destruct (follows prev "<"), (follows prev "(")|].
  assert (∀ w, simple Single None (concat (map (λ a,
    if Ascii.eqb a squote then [squote; backslash; squote; squote] else [a]) w) ++ [squote] ++ l) = simple Normal None l) as H.
  { induction w as [|a w IH]; [done|]. simpl. destruct (Ascii.eqb_spec a squote) as [->|Ha]; simpl; [done|].
    by rewrite (proj2 (Ascii.eqb_neq a squote) Ha). }
  rewrite <-!app_assoc. simpl. rewrite Hf, H. by destruct (follows prev "<"), (follows prev "(").
Qed.

Lemma simple_shellDoubleQuoteEscape v l :
  simple Double None (shellDoubleQuoteEscape v ++ l) = simple Double None l.
Proof.
  unfold shellDoubleQuoteEscape. induction v as [|a v IH]; [done|]. simpl.
  destruct (is_special a) eqn:E.
  - simpl. by destruct (Ascii.eqb a newline).
  - unfold is_special in E. split_bools. simpl. by rewrite H0, H, H1, H2.
Qed.

Lemma simple_assemble rewritten segs pre q prev values :
  rewritten = pre ++ concat (map raw segs) → agrees (fold_left track pre untracked) q →
  well_placed q prev segs = true → length values = length (expressions segs) →
  simple q prev (assemble (shell_escape rewritten) (length pre) segs values) = true.
Proof.
  revert pre q prev values. induction segs as [|[a|m e] segs IH]; intros pre q prev values Hr Ht Hw Hl; [done|..].
  - simpl in *. rewrite !andb_true_iff, negb_true_iff in Hw. destruct Hw as [[Hs Ha] Hw].
    rewrite Hs. simpl. replace (S (length pre)) with (length (pre ++ [a])) by (rewrite length_app; simpl; lia).
    apply IH; [by rewrite <-app_assoc| |done..]. rewrite fold_left_app. by apply track_read.
  - apply placed in Hw as (Hq & Hm & Hw). destruct values as [|v values]; [done|]. simpl in *.
    assert (simple q None (assemble (shell_escape rewritten) (length pre + length m) segs values) = true) as Hrest.
    { rewrite <-length_app. apply IH; [by rewrite <-app_assoc| |done|lia].
      rewrite fold_left_app. rewrite (track_quoteless _ q); [done..|naive_solver|done]. }
    rewrite Hr. unfold shell_escape at 1, isInsideDoubleQuotedShellSpan. rewrite take_app_length, Ht, <-Hr.
    destruct Hq as [[-> Hp]|[-> ->]]; simpl.
    + by rewrite simple_shellQuote.
    + by rewrite simple_shellDoubleQuoteEscape.
Qed.
End ShellFacts.

(** ** Properties *)

Section Properties.
Variable evaluate : text → option (option json).
Variable stringify : json → string.

End Properties.

(** Every expression has this value. *)
Definition always (v : string) (e : text) : option (option json) := Some (Some (JStr v)).
Definition sample_value : string := "$(id); 'x' \".
Definition sample_template : text := txt "run --name {{ inputs.name }} " ++ [dquote] ++
  txt "for {{ outputs.build }}" ++ [dquote].
Definition no_numbers (v : json) : string := "".

Definition sample_command : text :=
  default [] (renderShellCommandTemplate (always sample_value) no_numbers sample_template).


(** ** Flaws *)

(** A dollar that the shell interprets. *)
Definition expands (command : option text) : Prop :=
  match command with Some c => Shell.Active "$" ∈ (Shell.lex Shell.Normal c).2 | None => False end.
#[export] Instance expands_dec command : Decision (expands command).
Proof. unfold expands. destruct command; apply _. Defined.

(** The quotes of [shellQuote] close those of the template. *)
Lemma single_quoted_placeholder_expands :
  expands (renderShellCommandTemplate (always "$(id)") no_numbers (txt "echo '{{ inputs.name }}'")).
Proof. apply (bool_decide_unpack _). by vm_compute. Qed.

(** Within single quotes a backslash is an ordinary character for the shell, and an escape
    for [isInsideDoubleQuotedShellSpan], which then misses the quotes that follow. *)
Lemma backslash_in_single_quotes_expands :
  expands (renderShellCommandTemplate (always "$(id)") no_numbers
    (txt "printf 'a\' " ++ [dquote] ++ txt "{{ inputs.name }}" ++ [dquote])).
Proof. apply (bool_decide_unpack _). by vm_compute. Qed.

(** The commands of loops and of [on_reject] are rendered by [renderTemplate]. *)
Lemma plain_template_expands : expands (renderTemplate (always "$(id)") no_numbers (txt "echo {{ item }}")).
Proof. apply (bool_decide_unpack _). by vm_compute. Qed.

(** A dollar before a placeholder in double quotes meets what the value begins with. *)
Lemma dollar_before_placeholder :
  renderShellCommandTemplate (always "(id)") no_numbers (txt "echo " ++ [dquote] ++ txt "${{ inputs.name }}" ++ [dquote]) =
  Some (txt "echo " ++ [dquote] ++ txt "$(id)" ++ [dquote]).
Proof. by vm_compute. Qed.

(** Within a command substitution in double quotes the value is not quoted at all. *)
Lemma substitution_reads_value :
  renderShellCommandTemplate (always ";id") no_numbers (txt "echo " ++ [dquote] ++ txt "$(cat {{ inputs.name }})" ++ [dquote]) =
  Some (txt "echo " ++ [dquote] ++ txt "$(cat ;id)" ++ [dquote]).
Proof. by vm_compute. Qed.
