(* ===== verification/ReplayBuffer.v ===== *)
(** * Replay buffers (packages/daemon/src/server/ring-buffer.ts, replay-events.ts,
    replay-persistence.ts)

    The daemon keeps the latest updates of a session in a ring and the durable ones in a
    journal on disk; a client that reconnects asks for the updates after a sequence number.

    [Ring] is the object, [Disk] the files.  The tasks of [persistenceQueue] are data,
    [Task], which [run_task] performs.  A line of a journal is kept as what the code reads
    of the parsed line, [None] when it does not parse; an update is written as its JSON
    text and read from it; the sequence numbers in the files are integers.  The calls of
    the file system succeed or fail as the arguments tell. *)

From S2P Require Import Prelude JsString JsMap Json JsonText JsonStringify.
From stdpp Require Import prelude strings list sorting pretty.
From Stdlib Require Import ZArith Lia SpecFloat.

Record SessionUpdateEntry := { e_seq : Z; e_sessionId : string; e_update : json }.

(** ** replay-events.ts *)

Definition prop (v : json) (key : string) : option json := match v with JObj f => field f key | _ => None end.

(** [typeof v === 'number' && Number.isFinite(v)] *)
Definition finite_number (v : option json) : option spec_float :=
  match v with
  | Some (JNum (S754_zero _ as x)) | Some (JNum (S754_finite _ _ _ as x)) => Some x
  | _ => None
  end.

Definition entryHasTimestamp (entry : SessionUpdateEntry) (cutoff : Z) : bool :=
  match finite_number (prop (e_update entry) "timestamp") with
  | Some timestamp => SFleb (num_of_Z cutoff) timestamp
  | None => false
  end.

Definition durable_types : list string :=
  ["agent-message"; "user-message"; "tool-call"; "tool-call-update"; "token-usage"; "state-change";
   "step-committed"; "step-rollback"; "step-branch-retry"; "step-squash-merged"; "permission-request";
   "permission-resolved"; "attention"].

Definition isDurableUpdate (u : json) : bool :=
  match as_string (prop u "updateType"), finite_number (prop u "timestamp") with
  | Some updateType, Some _ => bool_decide (updateType ∈ durable_types)
  | _, _ => false
  end.

Section Rich.
(** [new Date(t).toISOString()], [None] when it throws. *)
Variable toISOString : spec_float → option string.

Definition updateTimestamp (now : Z) (u : json) : option string :=
  toISOString (match prop u "timestamp" with Some (JNum x) => x | _ => num_of_Z now end).

Definition string_or_empty (v : option json) : string := coalesce (as_string v) "".

(** The block of one update, or none; [None] when the timestamp is invalid. *)
Definition rich_message (now : Z) (entry : SessionUpdateEntry) : option (option json) :=
  let u := e_update entry in
  let updateType := string_or_empty (prop u "updateType") in
  timestamp ← updateTimestamp now u;
  let uuid := "replay-" +:+ pretty (e_seq entry) in
  let message (role : string) :=
    match as_string (prop u "text"), as_string (prop u "messageId") with
    | Some t, Some messageId =>
        Some (JObj [("kind", JStr "text"); ("role", JStr role); ("text", JStr t); ("ts", JStr timestamp);
                    ("uuid", JStr messageId)])
    | _, _ => None
    end in
  Some (if String.eqb updateType "user-message" then message "user"
        else if String.eqb updateType "agent-message" then message "assistant"
        else if String.eqb updateType "tool-call" then
          match as_string (prop u "toolCallId"), as_string (prop u "toolName") with
          | Some toolId, Some toolName =>
              Some (JObj [("kind", JStr "tool_use"); ("toolId", JStr toolId); ("toolName", JStr toolName);
                          ("input", match prop u "input" with Some (JObj f) => JObj f | Some (JArr l) => JArr l | _ => JObj [] end);
                          ("ts", JStr timestamp); ("uuid", JStr uuid)])
          | _, _ => None
          end
        else if String.eqb updateType "tool-call-update" then
          match as_string (prop u "toolCallId") with
          | Some toolId =>
              Some (JObj [("kind", JStr "tool_result"); ("toolId", JStr toolId);
                          ("output", JStr (string_or_empty (prop u "output")));
                          ("isError", JBool (is_str (prop u "status") "error")); ("ts", JStr timestamp); ("uuid", JStr uuid)])
          | None => None
          end
        else None).

Definition richMessagesFromUpdates (now : Z) (entries : list SessionUpdateEntry) : option (list json) :=
  blocks ← mapM (rich_message now) entries; Some (omap id blocks).
End Rich.

(** ** replay-persistence.ts *)

Record Line := { l_seq : option Z; l_sessionId : option string; l_update : option json }.
Record MetaFile := { mf_sessionId : option string; mf_directoryId : option string; mf_latestSeq : option Z }.

(** The files of the sessions; a session without a file has no entry. *)
Record Disk := { journals : list (string * list (option Line)); metas : list (string * option MetaFile) }.

Definition readPersistedReplayMeta (session : string) (d : Disk) : option MetaFile :=
  match jm_get session (metas d) with
  | Some (Some m) =>
      match mf_latestSeq m with
      | Some _ => if bool_decide (mf_sessionId m = Some session) then Some m else None
      | None => None
      end
  | _ => None
  end.

(** What is read of the line [JSON.stringify({ seq, sessionId, update })]; the update goes
    through its text. *)
Definition line_of (e : SessionUpdateEntry) : Line :=
  {| l_seq := Some (e_seq e); l_sessionId := Some (e_sessionId e); l_update := JSON_parse (JSON_stringify (e_update e)) |}.

(** [typeof v === 'object' && v !== null] *)
Definition is_object (v : json) : bool := match v with JObj _ | JArr _ => true | _ => false end.

(** The entry of a line after [lastSeq]; [None] when the line is dropped. *)
Definition parse_line (session : string) (lastSeq : Z) (line : option Line) : option SessionUpdateEntry :=
  l ← line;
  s ← l_seq l;
  u ← l_update l;
  if bool_decide (l_sessionId l = Some session) && negb (s <=? lastSeq)%Z && is_object u
  then Some {| e_seq := s; e_sessionId := session; e_update := u |} else None.

Fixpoint parse_lines (session : string) (lastSeq : Z) (lines : list (option Line)) :
    list SessionUpdateEntry * bool :=
  match lines with
  | [] => ([], false)
  | line :: lines =>
      match parse_line session lastSeq line with
      | Some e => let '(entries, needsRewrite) := parse_lines session (e_seq e) lines in (e :: entries, needsRewrite)
      | None => let '(entries, _) := parse_lines session lastSeq lines in (entries, true)
      end
  end.

Definition loadPersistedJournalEntries (session : string) (d : Disk) : list SessionUpdateEntry * bool :=
  match jm_get session (journals d) with
  | Some lines => parse_lines session 0 lines
  | None => ([], false)
  end.

Definition appendPersistedJournalEntry (e : SessionUpdateEntry) (d : Disk) : Disk :=
  {| journals := jm_set (e_sessionId e) (coalesce (jm_get (e_sessionId e) (journals d)) [] ++ [Some (line_of e)]) (journals d);
     metas := metas d |}.

Definition rewritePersistedJournal (session : string) (entries : list SessionUpdateEntry) (d : Disk) : Disk :=
  {| journals := if bool_decide (entries = []) then jm_delete session (journals d)
                 else jm_set session (map (λ e, Some (line_of e)) entries) (journals d);
     metas := metas d |}.

Definition writePersistedReplayMeta (session : string) (directoryId : option string) (latestSeq : Z) (d : Disk) : Disk :=
  {| journals := journals d;
     metas := jm_set session (Some {| mf_sessionId := Some session; mf_directoryId := directoryId;
                                      mf_latestSeq := Some latestSeq |}) (metas d) |}.

(** ** ring-buffer.ts *)

Inductive Task :=
| TAppend (e : SessionUpdateEntry)
| TRewrite (snapshot : list SessionUpdateEntry)
| TMeta (session : string) (directoryId : option string) (latestSeq : Z).

Record Ring := {
  buffer : list (option SessionUpdateEntry); writeIndex : Z; count : Z; lastSeq : Z; maxSize : Z;
  persistenceEnabled : bool; durableTtlMs : Z; maxDurableEntries : nat;
  ringSession : option string; directoryId : option string; initialized : bool;
  durableEntries : list SessionUpdateEntry; persistenceDisabled : bool; persistenceQueue : list Task
}.

Definition set_durable (l : list SessionUpdateEntry) (r : Ring) : Ring :=
  {| buffer := buffer r; writeIndex := writeIndex r; count := count r; lastSeq := lastSeq r; maxSize := maxSize r;
     persistenceEnabled := persistenceEnabled r; durableTtlMs := durableTtlMs r; maxDurableEntries := maxDurableEntries r;
     ringSession := ringSession r; directoryId := directoryId r; initialized := initialized r;
     durableEntries := l; persistenceDisabled := persistenceDisabled r; persistenceQueue := persistenceQueue r |}.
Definition set_directory (x : option string) (r : Ring) : Ring :=
  {| buffer := buffer r; writeIndex := writeIndex r; count := count r; lastSeq := lastSeq r; maxSize := maxSize r;
     persistenceEnabled := persistenceEnabled r; durableTtlMs := durableTtlMs r; maxDurableEntries := maxDurableEntries r;
     ringSession := ringSession r; directoryId := x; initialized := initialized r;
     durableEntries := durableEntries r; persistenceDisabled := persistenceDisabled r; persistenceQueue := persistenceQueue r |}.
Definition set_lastSeq (x : Z) (r : Ring) : Ring :=
  {| buffer := buffer r; writeIndex := writeIndex r; count := count r; lastSeq := x; maxSize := maxSize r;
     persistenceEnabled := persistenceEnabled r; durableTtlMs := durableTtlMs r; maxDurableEntries := maxDurableEntries r;
     ringSession := ringSession r; directoryId := directoryId r; initialized := initialized r;
     durableEntries := durableEntries r; persistenceDisabled := persistenceDisabled r; persistenceQueue := persistenceQueue r |}.
Definition set_session (x : string) (r : Ring) : Ring :=
  {| buffer := buffer r; writeIndex := writeIndex r; count := count r; lastSeq := lastSeq r; maxSize := maxSize r;
     persistenceEnabled := persistenceEnabled r; durableTtlMs := durableTtlMs r; maxDurableEntries := maxDurableEntries r;
     ringSession := Some x; directoryId := directoryId r; initialized := true;
     durableEntries := durableEntries r; persistenceDisabled := persistenceDisabled r; persistenceQueue := persistenceQueue r |}.
Definition set_disabled (r : Ring) : Ring :=
  {| buffer := buffer r; writeIndex := writeIndex r; count := count r; lastSeq := lastSeq r; maxSize := maxSize r;
     persistenceEnabled := persistenceEnabled r; durableTtlMs := durableTtlMs r; maxDurableEntries := maxDurableEntries r;
     ringSession := ringSession r; directoryId := directoryId r; initialized := initialized r;
     durableEntries := durableEntries r; persistenceDisabled := true; persistenceQueue := persistenceQueue r |}.
Definition set_queue (q : list Task) (r : Ring) : Ring :=
  {| buffer := buffer r; writeIndex := writeIndex r; count := count r; lastSeq := lastSeq r; maxSize := maxSize r;
     persistenceEnabled := persistenceEnabled r; durableTtlMs := durableTtlMs r; maxDurableEntries := maxDurableEntries r;
     ringSession := ringSession r; directoryId := directoryId r; initialized := initialized r;
     durableEntries := durableEntries r; persistenceDisabled := persistenceDisabled r; persistenceQueue := q |}.

Definition enqueuePersistence (t : Task) (r : Ring) : Ring :=
  if negb (persistenceEnabled r) || persistenceDisabled r then r else set_queue (persistenceQueue r ++ [t]) r.

Definition persistMeta (r : Ring) : Ring :=
  match ringSession r with
  | Some s => if truthy_str s then enqueuePersistence (TMeta s (directoryId r) (lastSeq r)) r else r
  | None => r
  end.

Definition rewriteDurableJournal (r : Ring) : Ring :=
  if truthy_opt (ringSession r) then enqueuePersistence (TRewrite (durableEntries r)) r else r.

Definition appendDurableEntry (e : SessionUpdateEntry) (r : Ring) : Ring := enqueuePersistence (TAppend e) r.

Definition compactDurableEntries (now : Z) (r : Ring) : Ring :=
  if bool_decide (durableEntries r = []) || negb (truthy_opt (ringSession r)) then r else
  let ttlCutoff := (now - durableTtlMs r)%Z in
  let retainedByTtl := List.filter (λ e, entryHasTimestamp e ttlCutoff) (durableEntries r) in
  let retained := if (maxDurableEntries r <? length retainedByTtl)%nat
                  then slice_last (maxDurableEntries r) retainedByTtl else retainedByTtl in
  if (length retained =? length (durableEntries r))%nat then r
  else rewriteDurableJournal (set_durable retained r).

(** [mkdirOk]: the storage directory is there. *)
Definition ensureInitialized (now : Z) (mkdirOk : bool) (d : Disk) (session : string) (r : Ring) : Ring :=
  if initialized r && bool_decide (ringSession r = Some session) then r else
  let r := set_session session r in
  if negb (persistenceEnabled r) then r
  else if negb mkdirOk then set_disabled r
  else
    let meta := readPersistedReplayMeta session d in
    let '(entries, needsRewrite) := loadPersistedJournalEntries session d in
    let r := set_directory (meta ≫= mf_directoryId) (set_durable entries r) in
    let r := set_lastSeq (Z.max (coalesce (meta ≫= mf_latestSeq) 0) (coalesce (e_seq <$> last entries) 0))%Z r in
    compactDurableEntries now (if needsRewrite : bool then rewriteDurableJournal r else r).

Record RingBufferOptions := {
  o_sessionId : option string; o_storageDir : bool;     (* whether [storageDir] is a string *)
  o_durableTtlMs : option Z; o_maxDurableEntries : option nat
}.

Definition empty_ring (size : Z) (options : option RingBufferOptions) : Ring :=
  {| buffer := replicate (Z.to_nat size) None; writeIndex := 0; count := 0; lastSeq := 0; maxSize := size;
     persistenceEnabled := match options with
                           | Some o => bool_decide (is_Some (o_sessionId o)) || o_storageDir o | None => false end;
     durableTtlMs := coalesce (options ≫= o_durableTtlMs) (7 * 24 * 60 * 60 * 1000)%Z;
     maxDurableEntries := coalesce (options ≫= o_maxDurableEntries) (N.to_nat 5000);
     ringSession := None; directoryId := None; initialized := false;
     durableEntries := []; persistenceDisabled := false; persistenceQueue := [] |}.

(** The constructor; [maxSize] is 500 when no number is given. *)
Definition new_ring (now : Z) (mkdirOk : bool) (d : Disk) (size : option Z) (options : option RingBufferOptions) : Ring :=
  let r := empty_ring (coalesce size 500%Z) options in
  match options ≫= o_sessionId with
  | Some s => if truthy_str s then ensureInitialized now mkdirOk d s r else r
  | None => r
  end.

(** The write to the ring. *)
Definition put (e : SessionUpdateEntry) (r : Ring) : Ring :=
  {| buffer := <[Z.to_nat (writeIndex r) := Some e]> (buffer r);
     writeIndex := Z.rem (writeIndex r + 1) (maxSize r);
     count := if (count r <? maxSize r)%Z then (count r + 1)%Z else count r;
     lastSeq := lastSeq r; maxSize := maxSize r;
     persistenceEnabled := persistenceEnabled r; durableTtlMs := durableTtlMs r; maxDurableEntries := maxDurableEntries r;
     ringSession := ringSession r; directoryId := directoryId r; initialized := initialized r;
     durableEntries := durableEntries r; persistenceDisabled := persistenceDisabled r; persistenceQueue := persistenceQueue r |}.

Definition push (now : Z) (mkdirOk : bool) (d : Disk) (session : string) (u : record) (r : Ring) :
    Ring * SessionUpdateEntry :=
  let r := ensureInitialized now mkdirOk d session r in
  let r := set_lastSeq (lastSeq r + 1) r in
  let e := {| e_seq := lastSeq r; e_sessionId := session; e_update := JObj u |} in
  let r := persistMeta (put e r) in
  (if isDurableUpdate (JObj u)
   then compactDurableEntries now (appendDurableEntry e (set_durable (durableEntries r ++ [e]) r))
   else r, e).

Definition getMemoryEntries (r : Ring) : list SessionUpdateEntry :=
  omap (λ i, buffer r !! Z.to_nat (Z.rem (writeIndex r - count r + Z.of_nat i + maxSize r) (maxSize r)) ≫= id)
    (List.seq 0 (Z.to_nat (count r))).

Definition add_unseen (merged : list SessionUpdateEntry) (e : SessionUpdateEntry) : list SessionUpdateEntry :=
  if bool_decide (e_seq e ∈ map e_seq merged) then merged else merged ++ [e].

Definition by_seq (a b : SessionUpdateEntry) : Prop := (e_seq a ≤ e_seq b)%Z.
#[export] Instance by_seq_dec : RelDecision by_seq.
Proof. intros a b. unfold by_seq. apply _. Defined.

Definition getMergedEntries (r : Ring) : list SessionUpdateEntry :=
  merge_sort by_seq (fold_left add_unseen (getMemoryEntries r) (durableEntries r)).

Definition getAfter (after : Z) (r : Ring) : list SessionUpdateEntry :=
  List.filter (λ e, after <? e_seq e)%Z (getMergedEntries r).

Definition getAll (r : Ring) : list SessionUpdateEntry := getAfter 0 r.

Record ReplayWindow := {
  entries : list SessionUpdateEntry; droppedWindow : bool; requestedLastSeq : Z; earliestAvailableSeq : Z;
  latestAvailableSeq : Z
}.

Definition getReplayWindow (after : Z) (r : Ring) : ReplayWindow :=
  let requested := Z.max 0 after in
  let merged := getMergedEntries r in
  let earliest := coalesce (e_seq <$> head merged) 0%Z in
  let latest := lastSeq r in
  let dropped := (0 <? requested)%Z && (0 <? earliest)%Z && (requested <? earliest - 1)%Z in
  if bool_decide (merged = []) && (latest =? 0)%Z then
    {| entries := []; droppedWindow := false; requestedLastSeq := requested; earliestAvailableSeq := 0;
       latestAvailableSeq := 0 |}
  else
    {| entries := getAfter (if dropped then earliest - 1 else requested)%Z r; droppedWindow := dropped;
       requestedLastSeq := requested; earliestAvailableSeq := earliest; latestAvailableSeq := latest |}.

Definition setDirectoryId (x : option string) (r : Ring) : Ring :=
  if negb (truthy_opt x) || bool_decide (x = directoryId r) then r
  else let r := set_directory x r in if truthy_opt (ringSession r) then persistMeta r else r.

Definition getRichHistory (toISOString : spec_float → option string) (now : Z) (r : Ring) : option (list json) :=
  richMessagesFromUpdates toISOString now (durableEntries r).

(** What a task writes.  A rewrite reads the session when it runs. *)
Definition task_disk (t : Task) (session : option string) (d : Disk) : Disk :=
  match t with
  | TAppend e => appendPersistedJournalEntry e d
  | TRewrite snapshot => rewritePersistedJournal (coalesce session "") snapshot d
  | TMeta s dir latest => writePersistedReplayMeta s dir latest d
  end.

(** The next task of the queue; [failed] is the state of the disk when it fails. *)
Definition run_task (failed : option Disk) (r : Ring) (d : Disk) : Ring * Disk :=
  match persistenceQueue r with
  | [] => (r, d)
  | t :: q =>
      let r := set_queue q r in
      if persistenceDisabled r then (r, d)
      else match failed with
           | None => (r, task_disk t (ringSession r) d)
           | Some d' => (set_disabled r, d')
           end
  end.

(** [flushPersistence], which resolves when every task of the queue has ended: [fails n]
    is the state of the disk after the [n]-th of them, if that one fails. *)
Fixpoint run_tasks (fails : nat → option Disk) (n : nat) (r : Ring) (d : Disk) : Ring * Disk :=
  match n with
  | 0 => (r, d)
  | S n => let '(r, d) := run_task (fails 0) r d in run_tasks (λ k, fails (S k)) n r d
  end.
Definition flush (fails : nat → option Disk) (r : Ring) (d : Disk) : Ring * Disk :=
  run_tasks fails (length (persistenceQueue r)) r d.

(** ** Properties of replay buffers

    [reaches] are the states of a buffer that a session pushes its updates to, with the
    list of all updates pushed.  The ring holds the latest of them; a replay window is
    what the buffer holds after a sequence number, in order; the journal that a new
    process loads is the one the old process kept, and numbering continues. *)
Definition seq_lt (a b : SessionUpdateEntry) : Prop := (e_seq a < e_seq b)%Z.

(** ** The ring *)

(** The ring of a buffer that [l] was pushed to. *)
Record rep (r : Ring) (l : list SessionUpdateEntry) : Prop := {
  rep_max : (1 ≤ maxSize r)%Z;
  rep_length : length (buffer r) = Z.to_nat (maxSize r);
  rep_count : count r = Z.min (Z.of_nat (length l)) (maxSize r);
  rep_index : writeIndex r = (Z.of_nat (length l) mod maxSize r)%Z;
  rep_slot : ∀ i, (Z.of_nat (length l) - count r ≤ Z.of_nat i)%Z → i < length l →
    buffer r !! Z.to_nat (Z.of_nat i mod maxSize r) = Some (l !! i)
}.

Lemma omap_lookup_drop {A} (l : list A) n k :
  n = length l - k → omap (λ i, l !! (k + i)) (List.seq 0 n) = drop k l.
Proof.
  intros ->. revert k. induction l as [|x l IH]; intros k.
  - by destruct k.
  - destruct k as [|k]; simpl.
    + f_equal. specialize (IH 0). rewrite drop_0, Nat.sub_0_r in IH. rewrite <-IH at 2.
      rewrite <-seq_shift. generalize (List.seq 0 (length l)). intros ns.
      induction ns as [|i ns IHn]; csimpl; [done|]. destruct (l !! i); [f_equal|]; done.
    + apply IH.
Qed.

Lemma omap_ext_seq {A} (f g : nat → option A) n :
  (∀ i, i < n → f i = g i) → omap f (List.seq 0 n) = omap g (List.seq 0 n).
Proof.
  intros H. assert (∀ i, i ∈ List.seq 0 n → f i = g i) as H'.
  { intros i Hi. apply H. apply list_elem_of_In, in_seq in Hi. lia. }
  clear H. induction (List.seq 0 n) as [|i ns IH]; csimpl; [done|].
  rewrite (H' i) by by left. rewrite IH; [done|]. intros j Hj. apply H'. by right.
Qed.

Lemma rep_memory r l : rep r l → getMemoryEntries r = slice_last (Z.to_nat (maxSize r)) l.
Proof.
  intros [Hmax Hlen Hcount Hidx Hslot]. unfold getMemoryEntries, slice_last. rewrite decide_False by lia.
  rewrite <-(omap_lookup_drop l (Z.to_nat (count r))) by lia. apply omap_ext_seq. intros i Hi.
  set (n := Z.of_nat (length l)) in *. set (j := length l - Z.to_nat (maxSize r) + i).
  assert (Z.rem (writeIndex r - count r + Z.of_nat i + maxSize r) (maxSize r) = Z.of_nat j mod maxSize r)%Z as ->.
  { assert (0 ≤ n mod maxSize r < maxSize r)%Z by (apply Z.mod_pos_bound; lia).
    rewrite Z.rem_mod_nonneg by lia. rewrite Hidx. destruct (Z.min_spec n (maxSize r)) as [[Hn Hm]|[Hn Hm]].
    - rewrite Hcount, Hm, (Z.mod_small n) by lia. replace (Z.of_nat j) with (Z.of_nat i) by lia.
      replace (n - n + Z.of_nat i + maxSize r)%Z with (Z.of_nat i + 1 * maxSize r)%Z by lia. apply Z.mod_add. lia.
    - rewrite Hcount, Hm. replace (Z.of_nat j) with (n + Z.of_nat i + (-1) * maxSize r)%Z by lia.
      rewrite Z.mod_add, <-(Z.add_mod_idemp_l n) by lia. f_equal. lia. }
  rewrite Hslot by lia. done.
Qed.

Lemma rep_put r l e : rep r l → rep (put e r) (l ++ [e]).
Proof.
  intros [Hmax Hlen Hcount Hidx Hslot]. set (n := Z.of_nat (length l)) in *.
  assert (0 ≤ n mod maxSize r < maxSize r)%Z as Hmod by (apply Z.mod_pos_bound; lia).
  split; simpl; rewrite ?length_app, ?length_insert; simpl; [done|done| | |].
  - destruct (Z.ltb_spec (count r) (maxSize r)); lia.
  - rewrite Z.rem_mod_nonneg, Hidx, Z.add_mod_idemp_l by lia. f_equal. lia.
  - intros i Hi Hl. destruct (decide (i = length l)) as [->|Hne].
    + fold n. rewrite <-Hidx, list_lookup_insert_eq by lia. by rewrite lookup_app_r, Nat.sub_diag by lia.
    + assert ((if (count r <? maxSize r)%Z then (count r + 1)%Z else count r) ≤ maxSize r)%Z as Hc
        by (destruct (Z.ltb_spec (count r) (maxSize r)); lia).
      rewrite lookup_app_l by lia. rewrite list_lookup_insert_ne.
      * apply Hslot; [|lia]. destruct (Z.ltb_spec (count r) (maxSize r)); lia.
      * rewrite Hidx. intros E. apply Z2Nat.inj in E; [|lia|apply Z.mod_pos_bound; lia].
        assert ((n - Z.of_nat i) mod maxSize r = 0)%Z as Hz.
        { rewrite Zminus_mod, E, Z.sub_diag. apply Z.mod_0_l. lia. }
        apply Z.mod_divide in Hz; [|lia]. apply Z.divide_pos_le in Hz; [|lia].
        destruct (Z.ltb_spec (count r) (maxSize r)); lia.
Qed.

(** ** The journal *)

(** What is read of an entry whose update reads back as itself. *)
Definition read_of (e : SessionUpdateEntry) : Line :=
  {| l_seq := Some (e_seq e); l_sessionId := Some (e_sessionId e); l_update := Some (e_update e) |}.
Definition plain_entry (e : SessionUpdateEntry) : Prop := plain (e_update e) = true.

Definition entry_ok (session : string) (e : SessionUpdateEntry) : Prop :=
  e_sessionId e = session ∧ is_object (e_update e) = true.

(** Entries of a session with increasing numbers, all after [k]. *)
Record journal_wf (session : string) (k : Z) (l : list SessionUpdateEntry) : Prop := {
  jw_sorted : StronglySorted seq_lt l;
  jw_ok : Forall (entry_ok session) l;
  jw_after : Forall (λ e, (k < e_seq e)%Z) l
}.

Lemma journal_wf_nil session k : journal_wf session k [].
Proof. by split; constructor. Qed.

Lemma journal_wf_cons session k e l :
  journal_wf session k (e :: l) ↔ entry_ok session e ∧ (k < e_seq e)%Z ∧ journal_wf session (e_seq e) l.
Proof.
  split.
  - intros [Hs Ho Ha]. apply StronglySorted_inv in Hs as [Hs Hl]. apply Forall_cons in Ho as [? ?].
    apply Forall_cons in Ha as [? ?]. split; [done|]. split; [done|]. by split.
  - intros (Ho & Hk & [Hs Hf Ha]). split; [by constructor|by constructor|]. constructor; [done|].
    eapply Forall_impl; [exact Ha|]. simpl. lia.
Qed.

Lemma journal_wf_sublist session k l l' : l' `sublist_of` l → journal_wf session k l → journal_wf session k l'.
Proof.
  intros Hsub. revert k. induction Hsub as [|e l1 l2 Hsub IH|e l1 l2 Hsub IH]; intros k; [done|..].
  - rewrite !journal_wf_cons. intros (? & ? & ?). auto.
  - rewrite journal_wf_cons. intros (_ & Hk & Hw). apply IH in Hw as [? ? Ha]. split; [done..|].
    eapply Forall_impl; [exact Ha|]. simpl. lia.
Qed.

Lemma journal_wf_snoc session k l e :
  journal_wf session k l → entry_ok session e → (k < e_seq e)%Z → Forall (λ x, seq_lt x e) l →
  journal_wf session k (l ++ [e]).
Proof.
  intros Hw He Hk Hl. revert k Hw Hk. induction Hl as [|x l Hx _ IH]; intros k; simpl; rewrite !journal_wf_cons.
  - intros _ Hk. split_and!; [done|done|apply journal_wf_nil].
  - intros (? & ? & ?) Hk. split_and!; [done..|]. by apply IH.
Qed.

Lemma parse_line_Some session k line e :
  parse_line session k line = Some e → entry_ok session e ∧ (k < e_seq e)%Z ∧ line = Some (read_of e).
Proof.
  unfold parse_line. intros (l & -> & (s & Es & (u & Eu & H)%bind_Some)%bind_Some)%bind_Some.
  case_match eqn:E; [|done]. simplify_eq/=. split_bools. split_and!; [done|done|].
  destruct l. simpl in *. by subst.
Qed.

Lemma parse_line_of session k e :
  entry_ok session e → (k < e_seq e)%Z → parse_line session k (Some (read_of e)) = Some e.
Proof.
  intros [Hs Ho] Hk. unfold parse_line. simpl. rewrite bool_decide_true by by rewrite Hs.
  rewrite Ho. rewrite (proj2 (Z.leb_gt _ _) Hk). simpl. destruct e; simpl in *. by subst.
Qed.

Notation lines l := (map (λ e, Some (read_of e)) l).

Lemma line_read session e : entry_ok session e → plain_entry e → line_of e = read_of e.
Proof.
  intros [_ Ho] Hp. unfold line_of, read_of. f_equal. apply parse_json; [exact Hp|]. by destruct (e_update e).
Qed.


(** Reading back what was written. *)
Lemma parse_lines_of session k l : journal_wf session k l → parse_lines session k (lines l) = (l, false).
Proof.
  revert k. induction l as [|e l IH]; intros k; [done|]. rewrite journal_wf_cons. intros (Ho & Hk & Hw).
  simpl lines. cbn [parse_lines]. rewrite parse_line_of by done. by rewrite IH.
Qed.

Lemma parse_lines_wf session k ls : journal_wf session k (parse_lines session k ls).1.
Proof.
  revert k. induction ls as [|line ls IH]; intros k; cbn [parse_lines]; [apply journal_wf_nil|].
  destruct (parse_line session k line) as [e|] eqn:E.
  - apply parse_line_Some in E as (Ho & Hk & _). specialize (IH (e_seq e)).
    destruct (parse_lines session (e_seq e) ls) as [l b]. simpl. by apply journal_wf_cons.
  - specialize (IH k). by destruct (parse_lines session k ls).
Qed.

(** A journal that needs no rewrite is the lines of its entries. *)
Lemma parse_lines_clean session k ls l : parse_lines session k ls = (l, false) → ls = lines l.
Proof.
  revert k l. induction ls as [|line ls IH]; intros k l; cbn [parse_lines]; [by intros [= <-]|].
  destruct (parse_line session k line) as [e|] eqn:E.
  - apply parse_line_Some in E as (_ & _ & ->). destruct (parse_lines session (e_seq e) ls) as [l' b] eqn:El.
    intros [= <- ->]. simpl. f_equal. by eapply IH.
  - by destruct (parse_lines session k ls).
Qed.

(** The journal on disk has the entries [l]. *)
Definition journaled (session : string) (l : list SessionUpdateEntry) (d : Disk) : Prop :=
  coalesce (jm_get session (journals d)) [] = lines l.

Lemma journaled_load session l d :
  journal_wf session 0 l → journaled session l d → loadPersistedJournalEntries session d = (l, false).
Proof.
  unfold journaled, loadPersistedJournalEntries. intros Hw.
  destruct (jm_get session (journals d)) as [ls|]; simpl.
  - intros ->. by apply parse_lines_of.
  - intros E. by destruct l.
Qed.

Lemma load_journaled session l d : loadPersistedJournalEntries session d = (l, false) → journaled session l d.
Proof.
  unfold journaled, loadPersistedJournalEntries. destruct (jm_get session (journals d)) as [ls|]; simpl.
  - apply parse_lines_clean.
  - by intros [= <-].
Qed.

Lemma load_wf session d : journal_wf session 0 (loadPersistedJournalEntries session d).1.
Proof.
  unfold loadPersistedJournalEntries. destruct (jm_get session (journals d)); [apply parse_lines_wf|apply journal_wf_nil].
Qed.

Lemma journaled_append session l e d :
  entry_ok session e → plain_entry e → journaled session l d → journaled session (l ++ [e]) (appendPersistedJournalEntry e d).
Proof.
  intros He Hp H. pose proof (proj1 He) as <-. unfold journaled in *. simpl. rewrite jm_get_set_eq. simpl.
  by rewrite H, map_app, (line_read _ _ He Hp).
Qed.

Lemma journaled_rewrite session l d : Forall (entry_ok session) l → Forall plain_entry l →
  journaled session l (rewritePersistedJournal session l d).
Proof.
  intros Ho Hp. unfold journaled, rewritePersistedJournal. simpl. case_bool_decide as E; [by rewrite jm_get_delete_eq; subst|].
  rewrite jm_get_set_eq. simpl. apply map_ext_in. intros e He%list_elem_of_In. rewrite Forall_forall in Ho, Hp.
  f_equal. eapply line_read; [by apply Ho|by apply Hp].
Qed.

(** ** The merge *)

#[export] Instance seq_lt_trans : Transitive seq_lt.
Proof. intros a b c. unfold seq_lt. lia. Qed.
#[export] Instance by_seq_trans : Transitive by_seq.
Proof. intros a b c. unfold by_seq. lia. Qed.
#[export] Instance by_seq_total : Total by_seq.
Proof. intros a b. unfold by_seq. lia. Qed.

(** The entries of [l] are told apart by their numbers. *)
Definition numbered (l : list SessionUpdateEntry) : Prop :=
  ∀ a b, a ∈ l → b ∈ l → e_seq a = e_seq b → a = b.

Lemma sorted_numbered l : StronglySorted seq_lt l → numbered l.
Proof.
  induction 1 as [|e l Hs IH Hf]; intros a b; [by intros ?%elem_of_nil|].
  rewrite !elem_of_cons. rewrite Forall_forall in Hf. unfold seq_lt in Hf.
  intros [->|Ha] [->|Hb] E; [done|specialize (Hf _ Hb); lia|specialize (Hf _ Ha); lia|by apply IH].
Qed.

Lemma sorted_NoDup l : StronglySorted seq_lt l → NoDup (map e_seq l).
Proof.
  induction 1 as [|e l Hs IH Hf]; simpl; constructor; [|done].
  rewrite list_elem_of_fmap. intros (x & E & Hx). rewrite Forall_forall in Hf. specialize (Hf x Hx).
  unfold seq_lt in Hf. lia.
Qed.

Lemma sorted_sublist l l' : l' `sublist_of` l → StronglySorted seq_lt l → StronglySorted seq_lt l'.
Proof.
  induction 1 as [|e l1 l2 Hsub IH|e l1 l2 Hsub IH]; [done|..].
  - intros [Hs Hf]%StronglySorted_inv. constructor; [by apply IH|]. rewrite Forall_forall in *.
    intros x Hx. apply Hf. by eapply elem_of_sublist.
  - intros [Hs _]%StronglySorted_inv. by apply IH.
Qed.

Lemma add_unseen_spec d m :
  numbered (d ++ m) → NoDup (map e_seq d) →
  NoDup (map e_seq (fold_left add_unseen m d)) ∧ ∀ e, e ∈ fold_left add_unseen m d ↔ e ∈ d ∨ e ∈ m.
Proof.
  revert d. induction m as [|x m IH]; intros d Hn Hd; cbn [fold_left].
  { split; [done|]. intros e. rewrite elem_of_nil. naive_solver. }
  assert (e_seq x ∈ map e_seq d → x ∈ d) as Hx.
  { rewrite list_elem_of_fmap. intros (y & E & Hy). rewrite (Hn x y); [done| | |done]; rewrite elem_of_app; [|by left].
    right. by left. }
  unfold add_unseen at 2 4. case_bool_decide as Hs.
  - destruct (IH d) as [H1 H2]; [|done|].
    { intros a b Ha Hb. apply Hn; rewrite elem_of_app in *; rewrite elem_of_cons; naive_solver. }
    split; [done|]. intros e. rewrite H2, elem_of_cons. naive_solver.
  - destruct (IH (d ++ [x])) as [H1 H2].
    { by rewrite <-app_assoc. }
    { rewrite map_app. apply NoDup_app. split_and!; [done| |apply NoDup_singleton].
      intros y Hy ->%list_elem_of_singleton. done. }
    split; [done|]. intros e. rewrite H2, elem_of_app, list_elem_of_singleton, elem_of_cons. naive_solver.
Qed.

Lemma sorted_strict l : StronglySorted by_seq l → NoDup (map e_seq l) → StronglySorted seq_lt l.
Proof.
  induction 1 as [|e l Hs IH Hf]; simpl; [constructor|]. intros [Hni Hnd]%NoDup_cons.
  constructor; [by apply IH|]. rewrite Forall_forall in *. intros x Hx. specialize (Hf x Hx).
  unfold seq_lt, by_seq in *. assert (e_seq e ≠ e_seq x); [|lia]. intros E. apply Hni. rewrite E.
  rewrite list_elem_of_fmap. eauto.
Qed.

Lemma merged_spec r all :
  StronglySorted seq_lt all → durableEntries r `sublist_of` all → getMemoryEntries r `sublist_of` all →
  StronglySorted seq_lt (getMergedEntries r) ∧
  ∀ e, e ∈ getMergedEntries r ↔ e ∈ durableEntries r ∨ e ∈ getMemoryEntries r.
Proof.
  intros Hs Hd Hm. unfold getMergedEntries.
  destruct (add_unseen_spec (durableEntries r) (getMemoryEntries r)) as [H1 H2].
  - intros a b Ha Hb. apply (sorted_numbered all Hs); rewrite elem_of_app in *.
    + destruct Ha; by eapply elem_of_sublist.
    + destruct Hb; by eapply elem_of_sublist.
  - by eapply sorted_NoDup, sorted_sublist.
  - split.
    + apply sorted_strict; [apply StronglySorted_merge_sort; apply _|].
      by rewrite (fmap_Permutation e_seq _ _ (merge_sort_Permutation by_seq _)).
    + intros e. rewrite <-H2. by rewrite (merge_sort_Permutation by_seq).
Qed.

(** ** The states of a buffer *)

Record State := { ring : Ring; disk : Disk; pushed : list SessionUpdateEntry }.

Section Buffer.
Variable session : string.
Variable size : Z.
Variable ttl : option Z.
Variable cap : option nat.

Definition options : RingBufferOptions :=
  {| o_sessionId := Some session; o_storageDir := false; o_durableTtlMs := ttl; o_maxDurableEntries := cap |}.

(** The buffer of a session that a process creates on a disk, as [getOrCreateBuffer] does,
    and what happens to it. *)
Inductive reaches (now0 : Z) (mkdirOk : bool) (d0 : Disk) : State → Prop :=
| reaches_new :
    reaches now0 mkdirOk d0 {| ring := new_ring now0 mkdirOk d0 (Some size) (Some options); disk := d0; pushed := [] |}
| reaches_push s now ok u :
    reaches now0 mkdirOk d0 s →
    reaches now0 mkdirOk d0
      {| ring := (push now ok (disk s) session u (ring s)).1; disk := disk s;
         pushed := pushed s ++ [(push now ok (disk s) session u (ring s)).2] |}
| reaches_directory s x :
    reaches now0 mkdirOk d0 s →
    reaches now0 mkdirOk d0 {| ring := setDirectoryId x (ring s); disk := disk s; pushed := pushed s |}
| reaches_task s failed :
    reaches now0 mkdirOk d0 s →
    reaches now0 mkdirOk d0
      {| ring := (run_task failed (ring s) (disk s)).1; disk := (run_task failed (ring s) (disk s)).2;
         pushed := pushed s |}.

(** The disk when the tasks of the queue have run. *)
Definition future (r : Ring) (d : Disk) : Disk :=
  fold_left (λ d t, task_disk t (ringSession r) d) (persistenceQueue r) d.

(** What does not depend on the disk: [loaded] are the entries of the journal the buffer
    was created with, [base] the number it continued from. *)
Record core (base : Z) (loaded l : list SessionUpdateEntry) (r : Ring) : Prop := {
  c_rep : rep r l;
  c_size : maxSize r = size;
  c_ttl : durableTtlMs r = coalesce ttl (7 * 24 * 60 * 60 * 1000)%Z;
  c_cap : maxDurableEntries r = coalesce cap (N.to_nat 5000);
  c_initialized : initialized r = true;
  c_session : ringSession r = Some session;
  c_enabled : persistenceEnabled r = true;
  c_last : lastSeq r = (base + Z.of_nat (length l))%Z;
  c_base : (0 ≤ base)%Z;
  c_loaded : Forall (λ e, (e_seq e ≤ base)%Z) loaded;
  c_numbers : ∀ i e, l !! i = Some e → e_seq e = (base + 1 + Z.of_nat i)%Z;
  c_wf : journal_wf session 0 (loaded ++ l);
  c_durable : durableEntries r `sublist_of` loaded ++ l
}.

Definition latest_on_disk (d : Disk) : option Z := readPersistedReplayMeta session d ≫= mf_latestSeq.

Definition saved (loaded l : list SessionUpdateEntry) (r : Ring) (d : Disk) : Prop :=
  Forall plain_entry (loaded ++ l) → persistenceDisabled r = false →
  journaled session (durableEntries r) (future r d) ∧ (l ≠ [] → latest_on_disk (future r d) = Some (lastSeq r)).

Lemma future_enqueue t r d :
  persistenceEnabled r = true → persistenceDisabled r = false →
  future (enqueuePersistence t r) d = task_disk t (ringSession r) (future r d).
Proof. intros He Hd. unfold enqueuePersistence. rewrite He, Hd. simpl. unfold future. simpl. by rewrite fold_left_app. Qed.

Lemma enqueue_core base loaded l t r : core base loaded l r → core base loaded l (enqueuePersistence t r).
Proof. unfold enqueuePersistence. case_match; [done|]. intros [[] ? ? ? ? ? ? ? ? ? ? ? ?]. by (split; [split|..]). Qed.

Lemma core_durable base loaded l l' r :
  l' `sublist_of` loaded ++ l → core base loaded l r → core base loaded l (set_durable l' r).
Proof. intros Hs [[] ? ? ? ? ? ? ? ? ? ?]. by (split; [split|..]). Qed.

Lemma enqueue_disabled t r : persistenceDisabled (enqueuePersistence t r) = persistenceDisabled r.
Proof. unfold enqueuePersistence. by case_match. Qed.
Lemma enqueue_durable t r : durableEntries (enqueuePersistence t r) = durableEntries r.
Proof. unfold enqueuePersistence. by case_match. Qed.
Lemma enqueue_last t r : lastSeq (enqueuePersistence t r) = lastSeq r.
Proof. unfold enqueuePersistence. by case_match. Qed.
Lemma enqueue_session t r : ringSession (enqueuePersistence t r) = ringSession r.
Proof. unfold enqueuePersistence. by case_match. Qed.
Lemma enqueue_enabled t r : persistenceEnabled (enqueuePersistence t r) = persistenceEnabled r.
Proof. unfold enqueuePersistence. by case_match. Qed.

Hypothesis session_named : session ≠ "".

Lemma session_truthy r : ringSession r = Some session → truthy_opt (ringSession r) = true.
Proof. intros ->. by apply truthy_str_true. Qed.

(** *** Compaction *)

Lemma sublist_Forall {A} (P : A → Prop) l1 l2 : l1 `sublist_of` l2 → Forall P l2 → Forall P l1.
Proof. rewrite !Forall_forall. intros Hs Hf x Hx. by eapply Hf, elem_of_sublist. Qed.

Lemma filter_sublist {A} (p : A → bool) l : List.filter p l `sublist_of` l.
Proof. induction l as [|x l IH]; simpl; [done|]. case_match; by constructor. Qed.

Lemma suffix_sublist {A} (l1 l2 : list A) : l1 `suffix_of` l2 → l1 `sublist_of` l2.
Proof. intros [k ->]. by apply sublist_inserts_l. Qed.

Lemma compact_cases now r :
  compactDurableEntries now r = r ∨
  ∃ l, l `sublist_of` durableEntries r ∧ compactDurableEntries now r = rewriteDurableJournal (set_durable l r).
Proof.
  unfold compactDurableEntries. case_match; [by left|]. case_match eqn:E; [by left|]. right. eexists. split; [|done].
  case_match; [etrans; [apply suffix_sublist, slice_last_suffix|]|]; apply filter_sublist.
Qed.

Lemma rewrite_core base loaded l r : core base loaded l r → core base loaded l (rewriteDurableJournal r).
Proof. intros Hc. unfold rewriteDurableJournal. case_match; [by apply enqueue_core|done]. Qed.

Lemma rewrite_saved base loaded l r d :
  core base loaded l r →
  (Forall plain_entry (loaded ++ l) → persistenceDisabled r = false → l ≠ [] →
   latest_on_disk (future r d) = Some (lastSeq r)) →
  saved loaded l (rewriteDurableJournal r) d.
Proof.
  intros Hc Hl. unfold rewriteDurableJournal, saved. rewrite session_truthy by apply Hc.
  rewrite enqueue_disabled, enqueue_durable, enqueue_last. intros Hp Hd.
  rewrite future_enqueue by (apply Hc || done). split.
  - rewrite (c_session _ _ _ _ Hc). apply journaled_rewrite.
    + eapply sublist_Forall; [apply Hc|apply (c_wf _ _ _ _ Hc)].
    + eapply sublist_Forall; [apply Hc|done].
  - intros Hne. unfold latest_on_disk, readPersistedReplayMeta in *. simpl. by apply Hl.
Qed.

Lemma compact_inv base loaded l now r d :
  core base loaded l r → saved loaded l r d →
  core base loaded l (compactDurableEntries now r) ∧ saved loaded l (compactDurableEntries now r) d.
Proof.
  intros Hc Hs. destruct (compact_cases now r) as [->|(l' & Hsub & ->)]; [done|].
  assert (core base loaded l (set_durable l' r)) as Hc'.
  { apply core_durable; [|done]. etrans; [done|apply Hc]. }
  split; [by apply rewrite_core|]. eapply rewrite_saved; [done|]. intros Hp Hd. by apply Hs.
Qed.

(** *** The steps *)

Lemma sorted_last l e : StronglySorted seq_lt l → last l = Some e → Forall (λ x, (e_seq x ≤ e_seq e)%Z) l.
Proof.
  intros Hs. rewrite last_Some. intros [l' ->]. apply Forall_app. split; [|by constructor].
  induction l' as [|x l' IH]; [constructor|]. simpl in Hs. apply StronglySorted_inv in Hs as [Hs Hf].
  constructor; [|by apply IH]. apply Forall_app in Hf as [_ Hf]. apply Forall_cons in Hf as [Hf _].
  unfold seq_lt in Hf. lia.
Qed.

Definition loaded_ring (d : Disk) (r : Ring) : Ring :=
  let meta := readPersistedReplayMeta session d in
  let entries := (loadPersistedJournalEntries session d).1 in
  set_lastSeq (Z.max (coalesce (meta ≫= mf_latestSeq) 0) (coalesce (e_seq <$> last entries) 0))%Z
    (set_directory (meta ≫= mf_directoryId) (set_durable entries (set_session session r))).

Lemma new_ring_eq now mkdirOk d :
  new_ring now mkdirOk d (Some size) (Some options) =
    if mkdirOk : bool then
      compactDurableEntries now
        (if (loadPersistedJournalEntries session d).2 then
           rewriteDurableJournal (loaded_ring d (empty_ring size (Some options)))
         else loaded_ring d (empty_ring size (Some options)))
    else set_disabled (set_session session (empty_ring size (Some options))).
Proof.
  unfold new_ring. simpl. rewrite (proj2 (truthy_str_true session)) by done.
  unfold ensureInitialized, loaded_ring. simpl. destruct mkdirOk; [|done].
  by destruct (loadPersistedJournalEntries session d) as [entries [|]].
Qed.

Hypothesis size_positive : (1 ≤ size)%Z.

Lemma empty_rep : rep (empty_ring size (Some options)) [].
Proof.
  split; simpl; [done|by rewrite length_replicate|lia| |intros; lia]. by rewrite Z.mod_0_l by lia.
Qed.

Lemma loaded_core d :
  let entries := (loadPersistedJournalEntries session d).1 in
  core (Z.max (coalesce (readPersistedReplayMeta session d ≫= mf_latestSeq) 0) (coalesce (e_seq <$> last entries) 0))%Z
    entries [] (loaded_ring d (empty_ring size (Some options))).
Proof.
  intros entries. pose proof (load_wf session d) as Hw. fold entries in Hw.
  split; simpl; try done.
  - destruct empty_rep. by split.
  - by rewrite Z.add_0_r.
  - destruct (last entries) as [e|] eqn:E; simpl.
    + apply last_Some in E as [l' E]. assert (e ∈ entries) as He by (rewrite E, elem_of_app; right; by left).
      destruct Hw as [_ _ Ha]. rewrite Forall_forall in Ha. specialize (Ha e He). simpl in Ha. lia.
    + unfold coalesce. destruct (_ ≫= _); simpl; lia.
  - destruct (last entries) as [e|] eqn:E; simpl.
    + eapply Forall_impl; [apply (sorted_last _ e); [apply Hw|done]|]. simpl. lia.
    + apply last_None in E. rewrite E. constructor.
  - by rewrite app_nil_r.
  - by rewrite app_nil_r.
Qed.

Lemma new_inv now mkdirOk d :
  ∃ base loaded, core base loaded [] (new_ring now mkdirOk d (Some size) (Some options)) ∧
    saved loaded [] (new_ring now mkdirOk d (Some size) (Some options)) d ∧
    ∀ e, e ∈ loaded → e ∈ (loadPersistedJournalEntries session d).1.
Proof.
  rewrite new_ring_eq. destruct mkdirOk.
  - pose proof (loaded_core d) as Hc. simpl in Hc.
    destruct (loadPersistedJournalEntries session d) as [entries b] eqn:E; simpl in *. do 2 eexists.
    apply and_assoc. split; [|by intros e He; exact He].
    apply compact_inv; destruct b; [eapply rewrite_core; exact Hc|exact Hc| |].
    + eapply rewrite_saved; [exact Hc|done].
    + intros _ _. split; [|done]. unfold loaded_ring, future. rewrite E. simpl. by apply load_journaled.
  - exists 0%Z, []. split; [|split; [by intros ??|by intros e ?%elem_of_nil]]. split; simpl; try done; [|apply journal_wf_nil].
    destruct empty_rep. by split.
Qed.

(** The ring of [push] before compaction. *)
Definition written (u : record) (r : Ring) : Ring :=
  let e := {| e_seq := lastSeq r + 1; e_sessionId := session; e_update := JObj u |} in
  let r := persistMeta (put e (set_lastSeq (lastSeq r + 1) r)) in
  if isDurableUpdate (JObj u) then appendDurableEntry e (set_durable (durableEntries r ++ [e]) r) else r.

Lemma push_eq base loaded l now ok d u r :
  core base loaded l r →
  push now ok d session u r =
    (if isDurableUpdate (JObj u) then compactDurableEntries now (written u r) else written u r,
     {| e_seq := lastSeq r + 1; e_sessionId := session; e_update := JObj u |}).
Proof.
  intros Hc. unfold push, ensureInitialized, written. rewrite (c_initialized _ _ _ _ Hc), (c_session _ _ _ _ Hc).
  rewrite bool_decide_true by done. simpl. by destruct (isDurableUpdate (JObj u)).
Qed.

Section Push.
Variable u : record.
Notation entry r := {| e_seq := lastSeq r + 1; e_sessionId := session; e_update := JObj u |}.

Lemma pushed_below base loaded l r e :
  core base loaded l r → e ∈ loaded ++ l → (e_seq e ≤ lastSeq r)%Z.
Proof.
  intros Hc. rewrite (c_last _ _ _ _ Hc), elem_of_app. intros [He|He].
  - pose proof (c_loaded _ _ _ _ Hc) as H. rewrite Forall_forall in H. specialize (H e He). simpl in H. lia.
  - apply list_elem_of_lookup in He as [i Hi]. rewrite (c_numbers _ _ _ _ Hc i e Hi).
    apply lookup_lt_Some in Hi. lia.
Qed.

Lemma put_core base loaded l r :
  core base loaded l r → core base loaded (l ++ [entry r]) (put (entry r) (set_lastSeq (lastSeq r + 1) r)).
Proof.
  intros Hc. pose proof (pushed_below base loaded l r) as Hb. destruct Hc. split; try done; simpl.
  - apply rep_put. destruct c_rep0. by split.
  - rewrite c_last0, length_app. simpl. lia.
  - intros i e. rewrite lookup_app. destruct (l !! i) as [x|] eqn:E; [intros [= <-]; by apply c_numbers0|].
    intros [Hi <-]%list_lookup_singleton_Some. apply lookup_ge_None in E. simpl. rewrite c_last0. lia.
  - rewrite app_assoc. apply journal_wf_snoc; [done|done|simpl; lia|]. rewrite Forall_forall. intros x Hx.
    unfold seq_lt. simpl. assert (e_seq x ≤ lastSeq r)%Z; [by apply Hb|lia].
  - rewrite app_assoc. by apply sublist_inserts_r.
Qed.

Lemma persistMeta_core base loaded l r : core base loaded l r → core base loaded l (persistMeta r).
Proof. intros Hc. unfold persistMeta. repeat case_match; try done. by apply enqueue_core. Qed.

Lemma written_inv base loaded l r d :
  core base loaded l r → saved loaded l r d →
  core base loaded (l ++ [entry r]) (written u r) ∧ saved loaded (l ++ [entry r]) (written u r) d.
Proof.
  intros Hc Hs. pose proof (put_core _ _ _ _ Hc) as Hp.
  set (e := entry r) in *. set (r1 := put e (set_lastSeq (lastSeq r + 1) r)) in *.
  assert (persistMeta r1 = enqueuePersistence (TMeta session (directoryId r) (lastSeq r + 1)) r1) as Hm.
  { unfold persistMeta. rewrite (c_session _ _ _ _ Hp). by rewrite (proj2 (truthy_str_true session)). }
  unfold written. fold e r1. rewrite Hm.
  set (r2 := enqueuePersistence (TMeta session (directoryId r) (lastSeq r + 1)) r1) in *.
  assert (core base loaded (l ++ [e]) r2) as Hc2 by by apply enqueue_core.
  assert (Forall plain_entry (loaded ++ l) → persistenceDisabled r2 = false →
    journaled session (durableEntries r) (future r2 d) ∧ latest_on_disk (future r2 d) = Some (lastSeq r + 1)%Z) as H2.
  { unfold r2. rewrite enqueue_disabled. intros Hpl Hd. rewrite future_enqueue by (done || apply Hp). split.
    - destruct (Hs Hpl Hd) as [Hj _]. exact Hj.
    - unfold latest_on_disk, readPersistedReplayMeta. simpl. rewrite jm_get_set_eq. simpl. rewrite bool_decide_true; reflexivity. }
  assert (lastSeq r2 = lastSeq r + 1)%Z as Hl2 by (unfold r2; by rewrite enqueue_last).
  assert (durableEntries r2 = durableEntries r) as Hd2 by (unfold r2; by rewrite enqueue_durable).
  destruct (isDurableUpdate (JObj u)).
  - rewrite Hd2. unfold appendDurableEntry. split.
    + apply enqueue_core, core_durable; [|done]. rewrite app_assoc. apply sublist_app; [apply Hc|done].
    + unfold saved. rewrite enqueue_disabled, enqueue_durable, enqueue_last, app_assoc. simpl.
      intros [Hpl He]%Forall_app Hd. destruct (H2 Hpl Hd) as [Hj Hl].
      rewrite future_enqueue by (done || apply Hc2). split.
      * apply (journaled_append session _ e); [done| |done]. by apply Forall_cons in He as [? _].
      * intros _. rewrite Hl2. exact Hl.
  - split; [done|]. unfold saved. rewrite app_assoc. intros [Hpl _]%Forall_app Hd.
    destruct (H2 Hpl Hd) as [Hj Hl]. by rewrite Hd2, Hl2.
Qed.

Lemma push_inv base loaded l now ok r d :
  core base loaded l r → saved loaded l r d →
  core base loaded (l ++ [(push now ok d session u r).2]) (push now ok d session u r).1 ∧
  saved loaded (l ++ [(push now ok d session u r).2]) (push now ok d session u r).1 d.
Proof.
  intros Hc Hs. rewrite (push_eq _ _ _ _ _ _ _ _ Hc). simpl.
  destruct (written_inv _ _ _ _ _ Hc Hs) as [H1 H2]. case_match; [by apply compact_inv|done].
Qed.
End Push.

Lemma directory_inv base loaded l x r d :
  core base loaded l r → saved loaded l r d → core base loaded l (setDirectoryId x r) ∧ saved loaded l (setDirectoryId x r) d.
Proof.
  intros Hc Hs. unfold setDirectoryId. case_match; [done|]. simpl.
  assert (core base loaded l (set_directory x r)) as Hc1.
  { destruct Hc as [[] ? ? ? ? ? ? ? ? ? ? ? ?]. by (split; [split|..]). }
  rewrite session_truthy by apply Hc. unfold persistMeta. simpl. rewrite (c_session _ _ _ _ Hc).
  rewrite (proj2 (truthy_str_true session)) by done. split; [by apply enqueue_core|].
  unfold saved. rewrite enqueue_disabled, enqueue_durable, enqueue_last. simpl. intros Hp Hd.
  destruct (Hs Hp Hd) as [Hj _]. rewrite future_enqueue by (done || apply Hc1). split; [exact Hj|].
  intros _. unfold latest_on_disk, readPersistedReplayMeta. simpl. rewrite jm_get_set_eq. simpl.
  by rewrite bool_decide_true.
Qed.

Lemma run_task_inv base loaded l failed r d :
  core base loaded l r → saved loaded l r d →
  core base loaded l (run_task failed r d).1 ∧ saved loaded l (run_task failed r d).1 (run_task failed r d).2.
Proof.
  intros Hc Hs. unfold run_task. destruct (persistenceQueue r) as [|t q] eqn:Eq; [done|]. simpl.
  assert (core base loaded l (set_queue q r)) as Hc1.
  { destruct Hc as [[] ? ? ? ? ? ? ? ? ? ? ? ?]. by (split; [split|..]). }
  destruct (persistenceDisabled r) eqn:Ed; [split; [done|]; intros ? ?; simpl in *; congruence|].
  destruct failed as [d'|]; simpl.
  - split; [|by intros ??]. destruct Hc1 as [[] ? ? ? ? ? ? ? ? ? ? ? ?]. by (split; [split|..]).
  - split; [done|]. intros Hp _. specialize (Hs Hp Ed). unfold future in *. rewrite Eq in Hs. exact Hs.
Qed.

Lemma buffer_inv now0 mkdirOk d0 s :
  reaches now0 mkdirOk d0 s →
  ∃ base loaded, core base loaded (pushed s) (ring s) ∧ saved loaded (pushed s) (ring s) (disk s) ∧
    ∀ e, e ∈ loaded → e ∈ (loadPersistedJournalEntries session d0).1.
Proof.
  induction 1 as [|s now ok u _ (base & loaded & Hc & Hs & Hl)|s x _ (base & loaded & Hc & Hs & Hl)|
                  s failed _ (base & loaded & Hc & Hs & Hl)].
  - apply new_inv.
  - exists base, loaded. apply and_assoc. split; [by apply push_inv|done].
  - exists base, loaded. apply and_assoc. split; [by apply directory_inv|done].
  - exists base, loaded. apply and_assoc. split; [by apply run_task_inv|done].
Qed.

(** What the buffer can replay: the durable entries it keeps and the latest updates. *)
Definition held (s : State) (e : SessionUpdateEntry) : Prop :=
  e ∈ durableEntries (ring s) ∨ e ∈ slice_last (Z.to_nat size) (pushed s).

Lemma merged_held now0 mkdirOk d0 s :
  reaches now0 mkdirOk d0 s →
  StronglySorted seq_lt (getMergedEntries (ring s)) ∧ (∀ e, e ∈ getMergedEntries (ring s) ↔ held s e) ∧
  ∀ e, held s e → (0 < e_seq e ≤ lastSeq (ring s))%Z.
Proof.
  intros Hr. apply buffer_inv in Hr as (base & loaded & Hc & _).
  assert (getMemoryEntries (ring s) = slice_last (Z.to_nat size) (pushed s)) as Hm.
  { rewrite (rep_memory _ (pushed s)) by apply Hc. by rewrite (c_size _ _ _ _ Hc). }
  assert (slice_last (Z.to_nat size) (pushed s) `sublist_of` loaded ++ pushed s) as Hsub.
  { apply sublist_inserts_l, suffix_sublist, slice_last_suffix. }
  destruct (merged_spec (ring s) (loaded ++ pushed s)) as [H1 H2].
  - apply Hc.
  - apply Hc.
  - by rewrite Hm.
  - split; [done|]. split; [intros e; by rewrite H2, Hm|]. intros e He.
    assert (e ∈ loaded ++ pushed s) as Hin.
    { destruct He as [He|He]; [eapply elem_of_sublist; [done|apply Hc]|by eapply elem_of_sublist]. }
    split; [|by eapply pushed_below].
    pose proof (jw_after _ _ _ (c_wf _ _ _ _ Hc)) as Ha. rewrite Forall_forall in Ha. exact (Ha e Hin).
Qed.

Lemma sorted_head (l : list SessionUpdateEntry) e :
  StronglySorted seq_lt l → head l = Some e → ∀ x, x ∈ l → (e_seq e ≤ e_seq x)%Z.
Proof.
  intros Hs He x Hx. destruct l as [|y l]; [done|]. simplify_eq/=. apply StronglySorted_inv in Hs as [_ Hf].
  rewrite Forall_forall in Hf. apply elem_of_cons in Hx as [->|Hx]; [lia|]. specialize (Hf x Hx). unfold seq_lt in Hf. lia.
Qed.

Lemma elem_of_filter_after k l (e : SessionUpdateEntry) :
  e ∈ List.filter (λ e, k <? e_seq e)%Z l ↔ e ∈ l ∧ (k < e_seq e)%Z.
Proof. by rewrite !list_elem_of_In, filter_In, Z.ltb_lt. Qed.

Lemma window_spec now0 mkdirOk d0 s after :
  reaches now0 mkdirOk d0 s →
  let w := getReplayWindow after (ring s) in
  StronglySorted seq_lt (entries w) ∧
  (∀ e, e ∈ entries w ↔ held s e ∧ (Z.max 0 after < e_seq e)%Z) ∧
  latestAvailableSeq w = lastSeq (ring s) ∧
  (droppedWindow w = true ↔ (0 < after)%Z ∧ (∃ e, held s e) ∧ ∀ e, held s e → (after + 1 < e_seq e)%Z).
Proof.
  intros Hr. destruct (merged_held _ _ _ _ Hr) as (Hs & Hh & Hb). unfold getReplayWindow, getAfter.
  destruct (getMergedEntries (ring s)) as [|e0 m] eqn:Em; simpl.
  - assert (∀ e, ¬ held s e) as Hno. { intros e He%Hh. by apply elem_of_nil in He. }
    rewrite andb_false_r. simpl. destruct (lastSeq (ring s) =? 0)%Z eqn:E0; simpl; split_bools;
      (split; [constructor|]); (split; [intros e; rewrite elem_of_nil; split; [done|by intros [?%Hno _]]|]);
      (split; [done|]); (split; [done|]); intros (_ & (e & He) & _); by destruct (Hno e).
  - assert (held s e0) as H0 by (apply Hh; by left). assert (∀ e, held s e → (e_seq e0 ≤ e_seq e)%Z) as Hle.
    { intros e He%Hh. by apply (sorted_head (e0 :: m)). }
    pose proof (Hb e0 H0). change (if ?k <? e_seq e0 then e0 :: ?l else ?l)%Z with
      (List.filter (λ e, k <? e_seq e)%Z (e0 :: m)). rewrite (proj2 (Z.ltb_lt 0 (e_seq e0))) by lia.
    rewrite andb_true_r. split_and!.
    + eapply sorted_sublist; [apply filter_sublist|done].
    + intros e. rewrite elem_of_filter_after, Hh. case_match eqn:Ed; [|done]. split_bools.
      split; intros [He ?]; (split; [done|]); pose proof (Hle e He); lia.
    + done.
    + split.
      * intros Hd. split_bools. split_and!; [lia|eauto|]. intros e He%Hle. lia.
      * intros (Ha & _ & Hall). specialize (Hall e0 H0). apply andb_true_iff. split; apply Z.ltb_lt; lia.
Qed.

Lemma sorted_ext l1 l2 :
  StronglySorted seq_lt l1 → StronglySorted seq_lt l2 → (∀ e, e ∈ l1 ↔ e ∈ l2) → l1 = l2.
Proof.
  intros H1 H2 Hel. assert (AntiSymm (=) seq_lt) by (intros a b; unfold seq_lt; lia).
  apply (StronglySorted_unique seq_lt); [done..|]. apply NoDup_Permutation; [| |done].
  - by eapply (NoDup_fmap_1 e_seq), sorted_NoDup.
  - by eapply (NoDup_fmap_1 e_seq), sorted_NoDup.
Qed.

(** A replay window is what the buffer holds after the number the client asks for, in
    order and without repetitions, whatever was pushed, compacted or written before; it
    reports a dropped window exactly when everything it holds starts behind a gap. *)
Theorem replay_window_exact now0 mkdirOk d0 s after :
  reaches now0 mkdirOk d0 s →
  let w := getReplayWindow after (ring s) in
  StronglySorted seq_lt (entries w) ∧
  (∀ e, e ∈ entries w ↔ held s e ∧ (Z.max 0 after < e_seq e)%Z) ∧
  latestAvailableSeq w = lastSeq (ring s) ∧
  (droppedWindow w = true ↔ (0 < after)%Z ∧ (∃ e, held s e) ∧ ∀ e, held s e → (after + 1 < e_seq e)%Z).
Proof. intros Hr. by apply (window_spec now0 mkdirOk d0). Qed.

(** C22: the ring refines the list of all updates: it keeps the latest [size] of them, numbered
    without gaps, so that a client that missed no more than those gets each update it
    missed, and nothing else, and is told of no gap. *)
Theorem replay_complete now0 mkdirOk d0 s after :
  reaches now0 mkdirOk d0 s →
  getMemoryEntries (ring s) = slice_last (Z.to_nat size) (pushed s) ∧
  (∀ i e, pushed s !! i = Some e → e_seq e = (lastSeq (ring s) - Z.of_nat (length (pushed s)) + 1 + Z.of_nat i)%Z) ∧
  ((lastSeq (ring s) - Z.min size (Z.of_nat (length (pushed s))) ≤ after ≤ lastSeq (ring s))%Z → (0 ≤ after)%Z →
   entries (getReplayWindow after (ring s)) = List.filter (λ e, after <? e_seq e)%Z (pushed s) ∧
   droppedWindow (getReplayWindow after (ring s)) = false).
Proof.
  intros Hr. destruct (window_spec _ _ _ _ after Hr) as (Hs & He & _ & Hd).
  destruct (merged_held _ _ _ _ Hr) as (_ & _ & Hheld).
  apply buffer_inv in Hr as (base & loaded & Hc & _). split; [|split].
  - rewrite (rep_memory _ (pushed s)) by apply Hc. by rewrite (c_size _ _ _ _ Hc).
  - intros i e Hi. rewrite (c_numbers _ _ _ _ Hc i e Hi), (c_last _ _ _ _ Hc). lia.
  - intros Ha H0. pose proof (c_last _ _ _ _ Hc) as Hlast.
    assert (∀ e, held s e → (after < e_seq e)%Z → e ∈ pushed s) as Hp.
    { intros e [He'|He'] Hae.
      - assert (e ∈ loaded ++ pushed s) as Hin by (eapply elem_of_sublist; [exact He'|apply Hc]).
        apply elem_of_app in Hin as [Hin|Hin]; [|done]. pose proof (c_loaded _ _ _ _ Hc) as Hl.
        rewrite Forall_forall in Hl. specialize (Hl e Hin). simpl in Hl. lia.
      - eapply elem_of_sublist; [exact He'|]. apply suffix_sublist, slice_last_suffix. }
    assert (∀ e, e ∈ pushed s → (after < e_seq e)%Z → held s e) as Hh.
    { intros e Hin Hae. right. apply list_elem_of_lookup in Hin as [i Hi].
      pose proof (c_numbers _ _ _ _ Hc i e Hi) as Hn. pose proof (lookup_lt_Some _ _ _ Hi) as Hlt.
      unfold slice_last. rewrite decide_False by lia. apply list_elem_of_lookup.
      exists (i - (length (pushed s) - Z.to_nat size)). rewrite lookup_drop.
      by replace (length (pushed s) - Z.to_nat size + (i - (length (pushed s) - Z.to_nat size))) with i by lia. }
    split.
    + apply sorted_ext; [done| |].
      * eapply sorted_sublist; [apply filter_sublist|]. eapply sorted_sublist; [|apply (c_wf _ _ _ _ Hc)].
        by apply sublist_inserts_l.
      * intros e. rewrite He, elem_of_filter_after, Z.max_r by done. naive_solver.
    + apply not_true_is_false. intros (Hpos & (e & Hx) & Hall)%Hd.
      destruct (decide (after = lastSeq (ring s))) as [->|Hne].
      * specialize (Hall e Hx). destruct (Hheld e Hx). lia.
      * destruct (lookup_lt_is_Some_2 (pushed s) (Z.to_nat (after - base))) as [y Hy]; [lia|].
        pose proof (c_numbers _ _ _ _ Hc _ y Hy) as Hn.
        specialize (Hall y). assert (after + 1 < e_seq y)%Z; [|lia]. apply Hall, Hh; [by eapply list_elem_of_lookup_2|lia].
Qed.

(** *** A new process *)

Lemma set_queue_same r : set_queue (persistenceQueue r) r = r.
Proof. by destruct r. Qed.

(** A flush after which the buffer still writes has run every task. *)
Lemma run_task_disabled failed r d : persistenceDisabled r = true → persistenceDisabled (run_task failed r d).1 = true.
Proof. intros Hd. unfold run_task. destruct (persistenceQueue r); [done|]. simpl. by rewrite Hd. Qed.
Lemma run_tasks_disabled n : ∀ fails r d, persistenceDisabled r = true → persistenceDisabled (run_tasks fails n r d).1 = true.
Proof.
  induction n as [|n IH]; intros fails r d Hd; [done|]. simpl. pose proof (run_task_disabled (fails 0) r d Hd) as H.
  destruct (run_task (fails 0) r d). by apply IH.
Qed.

Lemma run_tasks_future q : ∀ fails r d,
  persistenceDisabled (run_tasks fails (length q) (set_queue q r) d).1 = false →
  run_tasks fails (length q) (set_queue q r) d =
    (set_queue [] r, fold_left (λ d t, task_disk t (ringSession r) d) q d) ∧ persistenceDisabled (set_queue q r) = false.
Proof.
  induction q as [|t q IH]; intros fails r d; [done|]. cbn [length run_tasks fold_left].
  destruct (persistenceDisabled r) eqn:Ed.
  { pose proof (run_task_disabled (fails 0) (set_queue (t :: q) r) d Ed) as H.
    destruct (run_task (fails 0) (set_queue (t :: q) r) d) as [r' d']. rewrite run_tasks_disabled; done. }
  unfold run_task. simpl. rewrite Ed. destruct (fails 0) as [d'|].
  - rewrite run_tasks_disabled; done.
  - intros [E _]%(IH _ r). done.
Qed.

Lemma flush_future fails r d :
  persistenceDisabled (flush fails r d).1 = false → flush fails r d = (set_queue [] r, future r d) ∧ persistenceDisabled r = false.
Proof. pose proof (run_tasks_future (persistenceQueue r) fails r d) as H. by rewrite set_queue_same in H. Qed.

(** [maxDurableEntries] and [durableTtlMs] decide what compaction keeps. *)
Lemma compact_durable now r r' :
  durableEntries r' = durableEntries r → durableTtlMs r' = durableTtlMs r →
  maxDurableEntries r' = maxDurableEntries r → ringSession r' = ringSession r →
  durableEntries (compactDurableEntries now r') = durableEntries (compactDurableEntries now r) ∧
  lastSeq (compactDurableEntries now r') = lastSeq r'.
Proof.
  intros E1 E2 E3 E4. unfold compactDurableEntries, rewriteDurableJournal. rewrite E1, E2, E3, E4.
  repeat (case_match; simpl); rewrite ?enqueue_durable, ?enqueue_last; done.
Qed.

(** C23: suppose that something was pushed, that the updates pushed and those of the first
    journal are plain (no object names a field twice; numbers are finite, not -0 and read
    back from their text), and that the queue of writes has been flushed with no write
    failed so far.  Then a new process finds the durable entries that the old one had,
    less those that compaction would have removed by now, and gives the next update the
    next number.  After a failed write the flush resolves all the same, and the buffer
    writes nothing more: of that case nothing is claimed. *)
Theorem restart_resumes now0 mkdirOk d0 s fails now ok u :
  reaches now0 mkdirOk d0 s → pushed s ≠ [] →
  Forall plain_entry (loadPersistedJournalEntries session d0).1 → Forall plain_entry (pushed s) →
  persistenceDisabled (flush fails (ring s) (disk s)).1 = false →
  let '(old, d) := flush fails (ring s) (disk s) in
  let new := new_ring now true d (Some size) (Some options) in
  durableEntries new = durableEntries (compactDurableEntries now old) ∧
  lastSeq new = lastSeq old ∧
  e_seq (push now ok d session u new).2 = (lastSeq (ring s) + 1)%Z ∧
  Forall (λ e, (e_seq e ≤ lastSeq new)%Z) (pushed s).
Proof.
  intros Hr Hne Hp0 Hp Hflush. apply buffer_inv in Hr as (base & loaded & Hc & Hs & Hl0).
  destruct (flush_future _ _ _ Hflush) as [E0 Hd]. rewrite E0. clear E0 Hflush.
  assert (Forall plain_entry (loaded ++ pushed s)) as Hpl.
  { apply Forall_app. split; [|done]. rewrite Forall_forall in *. eauto. }
  destruct (Hs Hpl Hd) as [Hj Hl]. specialize (Hl Hne). set (d := future (ring s) (disk s)) in *.
  assert (journal_wf session 0 (durableEntries (ring s))) as Hw.
  { eapply journal_wf_sublist; [apply (c_durable _ _ _ _ Hc)|apply (c_wf _ _ _ _ Hc)]. }
  pose proof (journaled_load _ _ _ Hw Hj) as Hload.
  destruct (new_inv now true d) as (base' & loaded' & Hc' & _).
  assert (∀ e, e ∈ durableEntries (ring s) → (e_seq e ≤ lastSeq (ring s))%Z) as Hle.
  { intros e He. eapply pushed_below; [done|]. eapply elem_of_sublist; [done|apply Hc]. }
  assert (lastSeq (loaded_ring d (empty_ring size (Some options))) = lastSeq (ring s)) as Hlast.
  { unfold loaded_ring. simpl. rewrite Hload. unfold latest_on_disk in Hl. rewrite Hl. simpl.
    destruct (last (durableEntries (ring s))) as [e|] eqn:E; simpl.
    - apply last_Some in E as [l' E]. specialize (Hle e). rewrite E, elem_of_app in Hle.
      assert (e_seq e ≤ lastSeq (ring s))%Z by (apply Hle; right; by left). lia.
    - pose proof (c_last _ _ _ _ Hc). pose proof (c_base _ _ _ _ Hc). lia. }
  destruct (compact_durable now (set_queue [] (ring s)) (loaded_ring d (empty_ring size (Some options)))) as [H1 H2].
  - unfold loaded_ring. simpl. by rewrite Hload.
  - simpl. by rewrite (c_ttl _ _ _ _ Hc).
  - simpl. by rewrite (c_cap _ _ _ _ Hc).
  - simpl. by rewrite (c_session _ _ _ _ Hc).
  - assert (new_ring now true d (Some size) (Some options) =
      compactDurableEntries now (loaded_ring d (empty_ring size (Some options)))) as E.
    { rewrite new_ring_eq. by rewrite Hload. }
    split_and!.
    + by rewrite E.
    + by rewrite E, H2.
    + rewrite (push_eq _ _ _ _ _ _ _ _ Hc'). simpl. by rewrite E, H2, Hlast.
    + rewrite E, H2, Hlast. rewrite Forall_forall. intros e He. eapply pushed_below; [done|].
      apply elem_of_app. by right.
Qed.
End Buffer.

(** ** Samples *)

Definition no_files : Disk := {| journals := []; metas := [] |}.
Definition sample_update (type : string) : record := [("updateType", JStr type); ("timestamp", JNum (num_of_Z 1000))].

Definition push_to (type : string) (s : State) : State :=
  let p := push 1000 true (disk s) "s" (sample_update type) (ring s) in
  {| ring := p.1; disk := disk s; pushed := pushed s ++ [p.2] |}.

Definition sample0 : State :=
  {| ring := new_ring 1000 true no_files (Some 2%Z) (Some (options "s" None None)); disk := no_files; pushed := [] |}.
(** A durable update and three that are not, in a ring of two. *)
Definition sample : State :=
  push_to "agent-message-chunk" (push_to "agent-message-chunk" (push_to "agent-message-chunk"
    (push_to "user-message" sample0))).

Notation sample_reaches := (reaches "s" 2 None None 1000 true no_files).

Lemma sample0_reaches : sample_reaches sample0.
Proof. apply reaches_new. Qed.

Lemma push_to_reaches type s : sample_reaches s → sample_reaches (push_to type s).
Proof. apply reaches_push. Qed.

Lemma sample_is_reached : sample_reaches sample.
Proof. do 4 apply push_to_reaches. apply sample0_reaches. Qed.

Lemma replay_window_exact_witness :
  map e_seq (entries (getReplayWindow 2 (ring sample))) = [3%Z; 4%Z] ∧
  StronglySorted seq_lt (entries (getReplayWindow 2 (ring sample))).
Proof.
  split; [vm_compute; reflexivity|].
  apply (replay_window_exact "s" 2 None None ltac:(done) ltac:(lia) 1000 true no_files sample 2 sample_is_reached).
Defined.

Lemma replay_complete_witness :
  entries (getReplayWindow 2 (ring sample)) = List.filter (λ e, 2 <? e_seq e)%Z (pushed sample).
Proof.
  refine (proj1 (proj2 (proj2 (replay_complete "s" 2 None None ltac:(done) ltac:(lia) 1000 true no_files sample 2
    sample_is_reached)) _ _)); [vm_compute; split; congruence|lia].
Defined.

Definition no_failure (n : nat) : option Disk := None.
Lemma restart_resumes_witness :
  lastSeq (new_ring 1000 true (flush no_failure (ring sample) (disk sample)).2 (Some 2%Z) (Some (options "s" None None))) = 4%Z.
Proof.
  pose proof (restart_resumes "s" 2 None None ltac:(done) ltac:(lia) 1000 true no_files sample no_failure 1000 true
    (sample_update "user-message") sample_is_reached ltac:(done) ltac:(constructor)
    ltac:(apply Forall_forall; apply (proj1 (Forall_forall _ _)); repeat constructor; vm_compute; reflexivity)
    ltac:(vm_compute; reflexivity)) as H.
  destruct (flush no_failure (ring sample) (disk sample)) as [old d] eqn:E. destruct H as (_ & H & _ & _).
  simpl. rewrite H. replace old with (flush no_failure (ring sample) (disk sample)).1 by (rewrite E; reflexivity).
  vm_compute. reflexivity.
Defined.

(** *** Flaws *)

(** The second update is gone, behind a durable one that is still there: the client that
    had seen only the first is not told. *)
Lemma gap_not_reported :
  let w := getReplayWindow 1 (ring sample) in
  map e_seq (pushed sample) = [1; 2; 3; 4]%Z ∧ map e_seq (entries w) = [3; 4]%Z ∧ droppedWindow w = false.
Proof. by vm_compute. Qed.

(** A buffer that is created before the writes of its predecessor have been flushed gives
    the same number again. *)
Lemma number_reused :
  let s := push_to "user-message" sample0 in
  let new := new_ring 1000 true (disk s) (Some 2%Z) (Some (options "s" None None)) in
  map e_seq (pushed s) = [1%Z] ∧ e_seq (push 1000 true (disk s) "s" (sample_update "user-message") new).2 = 1%Z.
Proof. by vm_compute. Qed.

(** A write that fails is noticed by nobody: the flush resolves, and a new process gives a
    number again that the old one had given. *)
Lemma failed_write_loses :
  let p := flush (λ _, Some no_files) (ring sample) (disk sample) in
  let new := new_ring 1000 true p.2 (Some 2%Z) (Some (options "s" None None)) in
  persistenceDisabled p.1 = true ∧ durableEntries new = [] ∧ lastSeq new = 0%Z ∧ map e_seq (pushed sample) = [1; 2; 3; 4]%Z.
Proof. by vm_compute. Qed.
