(* ===== verification/Permissions.v ===== *)
(** * Permissions of tool calls (packages/daemon/src/permissions/engine.ts,
    core/permission-coordinator.ts, and their callers in core/daemon.ts,
    core/session-manager.ts and server/ws-command-handlers.ts)

    An agent asks before it calls a tool.  The configuration of its session decides, or
    the call waits for an answer of the user, the end of the session, an abort or a
    timeout.  [Sys] holds the coordinator, the active sessions and the promises of the
    calls; [Event] is what can happen, [step] what it does. *)

From S2P Require Import Prelude JsString JsMap Json.
From stdpp Require Import prelude strings list.
From Stdlib Require Import ZArith Lia.

(** ** types.ts *)

Inductive SessionTrust := operator | automated | external.
#[export] Instance SessionTrust_eq_dec : EqDecision SessionTrust.
Proof. solve_decision. Defined.

Inductive SessionAgentMode := detect | bypass.
#[export] Instance SessionAgentMode_eq_dec : EqDecision SessionAgentMode.
Proof. solve_decision. Defined.

Record PermissionsConfig := { autoApprove : list string; requireApproval : list string; deny : list string }.

Record SessionConfig := {
  trust : SessionTrust; approvalPolicy : option string; permissions : PermissionsConfig; sc_rest : record
}.

Inductive PermissionDecision :=
| Allow (updatedInput : option record)
| Deny (message : option string).

Record PendingPermissionRequest := {
  pp_sessionId : string; pp_requestId : string; pp_toolName : string; pp_description : string;
  pp_input : record; pp_decisionReason : option string; pp_createdAt : Z
}.

(** ** engine.ts *)

Inductive PermissionResolution := auto_approve | require_approval | denied.

Definition resolvePermission (toolName : string) (config : PermissionsConfig) : PermissionResolution :=
  if bool_decide (toolName ∈ deny config) then denied
  else if bool_decide (toolName ∈ autoApprove config) then auto_approve
  else if bool_decide (toolName ∈ requireApproval config) then require_approval
  else require_approval.

(** ** The state *)

(** A promise that waits: its call, and the variables its listeners capture. *)
Record Waiter := { w_call : nat; w_session : string; w_request : string }.

(** What the coordinator emits on the bus. *)
Inductive BusEvent :=
| Requested (sessionId : string) (requestId toolName description : string) (input : record) (decisionReason : option string)
| Responded (sessionId requestId : string) (decision : PermissionDecision)
| Attention (sessionId : string).

Record Sys := {
  (* the coordinator *)
  pendingPermissions : list (string * list string);
  requestToolNames : list (string * string);
  pendingRequestDetails : list (string * PendingPermissionRequest);
  sessionModes : list (string * SessionAgentMode);
  (* the listeners of [permission:responded], and the promises that are resolved *)
  waiters : list Waiter;
  decided : list (nat * PermissionDecision);
  (* the calls made so far, and what was emitted *)
  calls : nat;
  bus : list BusEvent;
  (* the session manager: the handlers it has created and the active sessions *)
  handlers : list (nat * (string * SessionConfig));
  sessions : list (string * SessionConfig)
}.

Definition init : Sys :=
  {| pendingPermissions := []; requestToolNames := []; pendingRequestDetails := []; sessionModes := [];
     waiters := []; decided := []; calls := 0; bus := []; handlers := []; sessions := [] |}.

(** The tables of pending requests. *)
Definition set_tables (p : list (string * list string)) (n : list (string * string))
    (d : list (string * PendingPermissionRequest)) (st : Sys) : Sys :=
  {| pendingPermissions := p; requestToolNames := n; pendingRequestDetails := d; sessionModes := sessionModes st;
     waiters := waiters st; decided := decided st; calls := calls st; bus := bus st; handlers := handlers st;
     sessions := sessions st |}.
Definition set_modes (m : list (string * SessionAgentMode)) (st : Sys) : Sys :=
  {| pendingPermissions := pendingPermissions st; requestToolNames := requestToolNames st;
     pendingRequestDetails := pendingRequestDetails st; sessionModes := m; waiters := waiters st;
     decided := decided st; calls := calls st; bus := bus st; handlers := handlers st; sessions := sessions st |}.
Definition set_promises (w : list Waiter) (d : list (nat * PermissionDecision)) (st : Sys) : Sys :=
  {| pendingPermissions := pendingPermissions st; requestToolNames := requestToolNames st;
     pendingRequestDetails := pendingRequestDetails st; sessionModes := sessionModes st; waiters := w;
     decided := d; calls := calls st; bus := bus st; handlers := handlers st; sessions := sessions st |}.
Definition set_calls (n : nat) (st : Sys) : Sys :=
  {| pendingPermissions := pendingPermissions st; requestToolNames := requestToolNames st;
     pendingRequestDetails := pendingRequestDetails st; sessionModes := sessionModes st; waiters := waiters st;
     decided := decided st; calls := n; bus := bus st; handlers := handlers st; sessions := sessions st |}.
Definition emit_bus (e : BusEvent) (st : Sys) : Sys :=
  {| pendingPermissions := pendingPermissions st; requestToolNames := requestToolNames st;
     pendingRequestDetails := pendingRequestDetails st; sessionModes := sessionModes st; waiters := waiters st;
     decided := decided st; calls := calls st; bus := bus st ++ [e]; handlers := handlers st; sessions := sessions st |}.
Definition set_manager (h : list (nat * (string * SessionConfig))) (s : list (string * SessionConfig)) (st : Sys) : Sys :=
  {| pendingPermissions := pendingPermissions st; requestToolNames := requestToolNames st;
     pendingRequestDetails := pendingRequestDetails st; sessionModes := sessionModes st; waiters := waiters st;
     decided := decided st; calls := calls st; bus := bus st; handlers := h; sessions := s |}.

(** ** permission-coordinator.ts *)

Section Coordinator.
Variable timeoutMs : Z.
(** [`Permission request timed out after ${timeoutMs / 1000}s`] *)
Variable timeout_message : Z → string.

Definition setSessionMode (sessionId : string) (mode : SessionAgentMode) (st : Sys) : Sys :=
  set_modes (jm_set sessionId mode (sessionModes st)) st.
Definition getSessionMode (sessionId : string) (st : Sys) : SessionAgentMode :=
  coalesce (jm_get sessionId (sessionModes st)) detect.
Definition clearSessionMode (sessionId : string) (st : Sys) : Sys :=
  set_modes (jm_delete sessionId (sessionModes st)) st.
Definition getRequestToolName (requestId : string) (st : Sys) : option string := jm_get requestId (requestToolNames st).

Definition cleanup (sessionId requestId : string) (st : Sys) : Sys :=
  let pending := match jm_get sessionId (pendingPermissions st) with
                 | Some s =>
                     let s := set_delete requestId s in
                     if bool_decide (s = []) then jm_delete sessionId (pendingPermissions st)
                     else jm_set sessionId s (pendingPermissions st)
                 | None => pendingPermissions st
                 end in
  set_tables pending (jm_delete requestId (requestToolNames st)) (jm_delete requestId (pendingRequestDetails st)) st.

(** [resolveOnce] of a promise that is still waiting. *)
Definition resolve (decision : PermissionDecision) (w : Waiter) (st : Sys) : Sys :=
  cleanup (w_session w) (w_request w)
    (set_promises (List.filter (λ w', negb (bool_decide (w_call w' = w_call w))) (waiters st))
       (decided st ++ [(w_call w, decision)]) st).

(** [eventBus.emit('permission:responded', ...)]: the listeners are called in order. *)
Definition respondPermission (sessionId requestId : string) (decision : PermissionDecision) (st : Sys) : Sys :=
  let matching := List.filter (λ w, String.eqb (w_session w) sessionId && String.eqb (w_request w) requestId) (waiters st) in
  fold_left (λ st w, resolve decision w st) matching (emit_bus (Responded sessionId requestId decision) st).

Definition never_asks (config : SessionConfig) : bool :=
  bool_decide (trust config = automated) && bool_decide (approvalPolicy config = Some "never").

(** The promise of a call is resolved at once. *)
Definition decide_now (decision : PermissionDecision) (st : Sys) : Sys :=
  set_calls (S (calls st)) (set_promises (waiters st) (decided st ++ [(calls st, decision)]) st).

(** The handler of a session, for a call with the configuration of the moment. *)
Definition canUseTool (sessionId : string) (config : SessionConfig) (toolName : string) (input : record)
    (toolUseId : string) (decisionReason : option string) (now : Z) (st : Sys) : Sys :=
  if bool_decide (jm_get sessionId (sessionModes st) = Some bypass) || never_asks config then decide_now (Allow None) st
  else match resolvePermission toolName (permissions config) with
       | auto_approve => decide_now (Allow None) st
       | denied => decide_now (Deny (Some (quoted "Tool '" +:+ toolName +:+ quoted "' is denied by policy"))) st
       | require_approval =>
           let description := toolName +:+ " wants to execute" in
           let st := emit_bus (Requested sessionId toolUseId toolName description input decisionReason) st in
           let detail := {| pp_sessionId := sessionId; pp_requestId := toolUseId; pp_toolName := toolName;
                            pp_description := description; pp_input := input;
                            pp_decisionReason := decisionReason; pp_createdAt := now |} in
           let pending := coalesce (jm_get sessionId (pendingPermissions st)) [] in
           let st := set_tables (jm_set sessionId (set_add toolUseId pending) (pendingPermissions st))
             (jm_set toolUseId toolName (requestToolNames st)) (jm_set toolUseId detail (pendingRequestDetails st)) st in
           set_calls (S (calls st))
             (set_promises (waiters st ++ [{| w_call := calls st; w_session := sessionId; w_request := toolUseId |}])
                (decided st) st)
       end.

Definition find_waiter (call : nat) (st : Sys) : option Waiter :=
  List.find (λ w, bool_decide (w_call w = call)) (waiters st).

Definition timed_out (call : nat) (st : Sys) : Sys :=
  match find_waiter call st with
  | Some w => resolve (Deny (Some (timeout_message timeoutMs))) w (emit_bus (Attention (w_session w)) st)
  | None => st
  end.

(** The signal of the call is aborted while the promise waits. *)
Definition aborted (call : nat) (st : Sys) : Sys :=
  match find_waiter call st with
  | Some w => resolve (Deny (Some "Request cancelled")) w st
  | None => st
  end.

Definition session_ended : PermissionDecision := Deny (Some "Session ended").

Definition rejectPendingPermissions (sessionId : string) (st : Sys) : Sys :=
  match jm_get sessionId (pendingPermissions st) with
  | None | Some [] => st
  | Some requestIds =>
      let st := fold_left (λ st requestId, respondPermission sessionId requestId session_ended st) requestIds st in
      set_tables (jm_delete sessionId (pendingPermissions st)) (requestToolNames st)
        (jm_filter (λ _ d, negb (String.eqb (pp_sessionId d) sessionId)) (pendingRequestDetails st)) st
  end.

Definition addAutoApprove (config : SessionConfig) (toolName : string) : SessionConfig :=
  if bool_decide (toolName ∈ autoApprove (permissions config)) then config
  else {| trust := trust config; approvalPolicy := approvalPolicy config;
          permissions := {| autoApprove := autoApprove (permissions config) ++ [toolName];
                            requireApproval := requireApproval (permissions config);
                            deny := deny (permissions config) |};
          sc_rest := sc_rest config |}.

(** Oldest first; entries of the same time stay in order. *)
Fixpoint insert_pending (x : PendingPermissionRequest) (l : list PendingPermissionRequest) : list PendingPermissionRequest :=
  match l with
  | [] => [x]
  | y :: l' => if (pp_createdAt y <=? pp_createdAt x)%Z then y :: insert_pending x l' else x :: l
  end.

Definition listPendingPermissions (sessionId : option string) (st : Sys) : list PendingPermissionRequest :=
  let all := jm_values (pendingRequestDetails st) in
  let out := match sessionId with
             | Some s => if truthy_str s then List.filter (λ d, String.eqb (pp_sessionId d) s) all else all
             | None => all
             end in
  fold_left (λ acc x, insert_pending x acc) out [].

(** ** The callers *)

Definition defaultSessionAgentMode (config : SessionConfig) : SessionAgentMode :=
  if never_asks config then bypass else detect.

(** [daemon.addAutoApprove] *)
Definition daemon_addAutoApprove (sessionId toolName : string) (st : Sys) : Sys :=
  match jm_get sessionId (sessions st) with
  | Some config => set_manager (handlers st) (jm_set sessionId (addAutoApprove config toolName) (sessions st)) st
  | None => st
  end.

(** [daemon.respondPermission], which throws when the session is not active. *)
Definition daemon_respondPermission (sessionId requestId : string) (decision : PermissionDecision) (st : Sys) : Sys :=
  if bool_decide (is_Some (jm_get sessionId (sessions st))) then respondPermission sessionId requestId decision st else st.

Inductive Behavior := BAllow | BDeny | BAllowAlways.
#[global] Instance Behavior_eq_dec : EqDecision Behavior.
Proof. solve_decision. Defined.

(** The command [respond-permission]. *)
Definition respond_command (sessionId permissionRequestId : string) (behavior : Behavior) (message : option string)
    (st : Sys) : Sys :=
  let st := match behavior, getRequestToolName permissionRequestId st with
            | BAllowAlways, Some toolName =>
                if truthy_str toolName then daemon_addAutoApprove sessionId toolName st else st
            | _, _ => st
            end in
  daemon_respondPermission sessionId permissionRequestId
    (match behavior with BDeny => Deny message | _ => Allow None end) st.

(** The configuration that the handler of a session reads. *)
Definition config_of (sessionId : string) (launched : SessionConfig) (st : Sys) : SessionConfig :=
  coalesce (jm_get sessionId (sessions st)) launched.

Inductive Event :=
| ELaunch (handler : nat) (sessionId : string) (config : SessionConfig)       (* until the agent starts *)
| EStarted (handler : nat)                                                    (* the agent has started *)
| ELaunchFailed (handler : nat)
| EMode (sessionId : string) (mode : SessionAgentMode)
| EAsk (handler : nat) (toolName : string) (input : record) (toolUseId : string) (decisionReason : option string) (now : Z)
| ERespond (sessionId requestId : string) (behavior : Behavior) (message : option string)
| ETimeout (call : nat)
| EAbort (call : nat)
| EEnded (sessionId : string)                                                 (* the session has ended *)
| ERemoved (sessionId : string).                                              (* after its teardown *)

Definition step (st : Sys) (e : Event) : Sys :=
  match e with
  | ELaunch h sessionId config =>
      if bool_decide (is_Some (jm_get h (handlers st))) then st
      else setSessionMode sessionId (defaultSessionAgentMode config)
             (set_manager (jm_set h (sessionId, config) (handlers st)) (sessions st) st)
  | EStarted h =>
      match jm_get h (handlers st) with
      | Some (sessionId, config) => set_manager (handlers st) (jm_set sessionId config (sessions st)) st
      | None => st
      end
  | ELaunchFailed h =>
      match jm_get h (handlers st) with Some (sessionId, _) => clearSessionMode sessionId st | None => st end
  | EMode sessionId mode =>
      if bool_decide (is_Some (jm_get sessionId (sessions st))) then setSessionMode sessionId mode st else st
  | EAsk h toolName input toolUseId decisionReason now =>
      match jm_get h (handlers st) with
      | Some (sessionId, config) =>
          canUseTool sessionId (config_of sessionId config st) toolName input toolUseId decisionReason now st
      | None => st
      end
  | ERespond sessionId requestId behavior message => respond_command sessionId requestId behavior message st
  | ETimeout call => timed_out call st
  | EAbort call => aborted call st
  | EEnded sessionId => rejectPendingPermissions sessionId st
  | ERemoved sessionId => clearSessionMode sessionId (set_manager (handlers st) (jm_delete sessionId (sessions st)) st)
  end.

Definition run (events : list Event) : Sys := fold_left step events init.
End Coordinator.

(** ** Properties of permissions

    Every call is settled at most once, and waits until then; it is allowed only for a
    reason that the events give; the tables that operators read list exactly the calls
    that wait. *)
Section Runs.
Variable timeoutMs : Z.
Variable timeout_message : Z → string.
Notation step := (step timeoutMs timeout_message).
Notation run := (run timeoutMs timeout_message).

Lemma run_snoc events e : run (events ++ [e]) = step (run events) e.
Proof. unfold Permissions.run. by rewrite fold_left_app. Qed.

(** ** What settles calls *)

(** The steps change the promises in three ways: a call is settled at once, it starts to
    wait, or promises that wait are resolved. *)
Inductive Change :=
| Nothing
| Decides (d : PermissionDecision)
| Waits (sessionId requestId : string)
| Resolves (ws : list Waiter) (d : PermissionDecision).

Definition without (ws : list Waiter) (l : list Waiter) : list Waiter :=
  List.filter (λ w, negb (bool_decide (w_call w ∈ map w_call ws))) l.

Definition changes (c : Change) (st st' : Sys) : Prop :=
  match c with
  | Nothing => waiters st' = waiters st ∧ decided st' = decided st ∧ calls st' = calls st
  | Decides d => waiters st' = waiters st ∧ decided st' = decided st ++ [(calls st, d)] ∧ calls st' = S (calls st)
  | Waits s r =>
      waiters st' = waiters st ++ [{| w_call := calls st; w_session := s; w_request := r |}] ∧
      decided st' = decided st ∧ calls st' = S (calls st)
  | Resolves ws d =>
      (∀ w, w ∈ ws → w ∈ waiters st) ∧ NoDup (map w_call ws) ∧ waiters st' = without ws (waiters st) ∧
      decided st' = decided st ++ map (λ w, (w_call w, d)) ws ∧ calls st' = calls st
  end.

Lemma elem_of_List_filter {A} (p : A → bool) l x : x ∈ List.filter p l ↔ x ∈ l ∧ p x = true.
Proof. by rewrite !list_elem_of_In, filter_In. Qed.

Lemma NoDup_filter_map {A B} (f : A → B) (p : A → bool) l : NoDup (map f l) → NoDup (map f (List.filter p l)).
Proof.
  induction l as [|x l IH]; simpl; [done|]. intros [Hni Hnd]%NoDup_cons. case_match; [|by apply IH].
  simpl. constructor; [|by apply IH]. rewrite list_elem_of_fmap in *. intros (y & E & Hy).
  apply elem_of_List_filter in Hy as [Hy _]. apply Hni. eauto.
Qed.

Lemma elem_of_without w ws l : w ∈ without ws l ↔ w ∈ l ∧ w_call w ∉ map w_call ws.
Proof. unfold without. rewrite elem_of_List_filter, negb_true_iff, bool_decide_eq_false. done. Qed.

Lemma without_cons w ws l :
  without ws (List.filter (λ w', negb (bool_decide (w_call w' = w_call w))) l) = without (w :: ws) l.
Proof.
  unfold without. induction l as [|x l IH]; [done|]. simpl.
  destruct (decide (w_call x = w_call w)) as [E|E].
  - rewrite bool_decide_true by done. simpl. rewrite bool_decide_true by (rewrite E; by left). done.
  - rewrite bool_decide_false by done. simpl. rewrite IH.
    rewrite (bool_decide_ext (w_call x ∈ w_call w :: map w_call ws) (w_call x ∈ map w_call ws)); [done|].
    rewrite elem_of_cons. naive_solver.
Qed.

Lemma without_nil l : without [] l = l.
Proof. induction l as [|x l IH]; [done|]. unfold without in *. simpl. by f_equal. Qed.

Lemma without_app ws1 ws2 l : without ws2 (without ws1 l) = without (ws1 ++ ws2) l.
Proof.
  induction l as [|x l IH]; [done|]. unfold without in *. simpl.
  rewrite (bool_decide_ext (w_call x ∈ map w_call (ws1 ++ ws2)) (w_call x ∈ map w_call ws1 ∨ w_call x ∈ map w_call ws2))
    by by rewrite map_app, elem_of_app.
  destruct (decide (w_call x ∈ map w_call ws1)) as [H1|H1].
  - rewrite (bool_decide_true (_ ∈ map w_call ws1)), (bool_decide_true (_ ∨ _)) by auto. exact IH.
  - rewrite (bool_decide_false (_ ∈ map w_call ws1)) by done. simpl.
    destruct (decide (w_call x ∈ map w_call ws2)) as [H2|H2].
    + rewrite (bool_decide_true (_ ∈ map w_call ws2)), (bool_decide_true (_ ∨ _)) by auto. exact IH.
    + rewrite (bool_decide_false (_ ∈ map w_call ws2)), (bool_decide_false (_ ∨ _)) by naive_solver. simpl. by f_equal.
Qed.

Lemma resolve_all d ws st :
  let st' := fold_left (λ st w, resolve d w st) ws st in
  waiters st' = without ws (waiters st) ∧ decided st' = decided st ++ map (λ w, (w_call w, d)) ws ∧ calls st' = calls st.
Proof.
  revert st. induction ws as [|w ws IH]; intros st; cbn [fold_left].
  - by rewrite without_nil, app_nil_r.
  - destruct (IH (resolve d w st)) as (-> & -> & ->). simpl. by rewrite without_cons, <-app_assoc.
Qed.

Definition matching (s r : string) (l : list Waiter) : list Waiter :=
  List.filter (λ w, String.eqb (w_session w) s && String.eqb (w_request w) r) l.

Definition distinct_calls (st : Sys) : Prop := NoDup (map w_call (waiters st)).

Lemma respond_changes s r d st :
  distinct_calls st → changes (Resolves (matching s r (waiters st)) d) st (respondPermission s r d st).
Proof.
  intros Hd. split; [by intros w [Hw _]%elem_of_List_filter|]. split; [by apply NoDup_filter_map|].
  unfold respondPermission. fold (matching s r (waiters st)).
  apply (resolve_all d _ (emit_bus (Responded s r d) st)).
Qed.

Lemma find_waiter_Some call st w : find_waiter call st = Some w → w ∈ waiters st ∧ w_call w = call.
Proof.
  unfold find_waiter. intros H. apply find_some in H as [H1 H2]. apply bool_decide_eq_true in H2.
  by rewrite list_elem_of_In.
Qed.

Lemma resolve_changes d w st : w ∈ waiters st → changes (Resolves [w] d) st (resolve d w st).
Proof.
  intros Hw. split; [by intros w' ->%list_elem_of_singleton|]. split; [apply NoDup_singleton|]. apply (resolve_all d [w] st).
Qed.

Lemma resolves_distinct ws d st st' : distinct_calls st → changes (Resolves ws d) st st' → distinct_calls st'.
Proof. unfold distinct_calls. intros Hd (_ & _ & -> & _). by apply NoDup_filter_map. Qed.

Lemma resolves_trans ws1 ws2 d st1 st2 st3 :
  changes (Resolves ws1 d) st1 st2 → changes (Resolves ws2 d) st2 st3 → changes (Resolves (ws1 ++ ws2) d) st1 st3.
Proof.
  intros (Hi1 & Hn1 & Hw1 & Hd1 & Hc1) (Hi2 & Hn2 & Hw2 & Hd2 & Hc2). simpl.
  assert (∀ w, w ∈ ws2 → w ∈ waiters st1 ∧ w_call w ∉ map w_call ws1) as Hi3.
  { intros w Hw%Hi2. rewrite Hw1 in Hw. by apply elem_of_without. }
  split_and!.
  - intros w [Hw|Hw]%elem_of_app; [by apply Hi1|by apply Hi3].
  - rewrite map_app. apply NoDup_app. split_and!; [done| |done]. intros c Hc1' Hc2'.
    apply list_elem_of_fmap in Hc2' as (w & -> & Hw). by apply (Hi3 w Hw).
  - by rewrite Hw2, Hw1, without_app.
  - by rewrite Hd2, Hd1, map_app, app_assoc.
  - congruence.
Qed.

Lemma resolves_none d st : changes (Resolves [] d) st st.
Proof.
  simpl. rewrite without_nil, app_nil_r. split_and!; [|constructor|done..]. by intros w ?%elem_of_nil.
Qed.

Lemma reject_changes s st :
  distinct_calls st → ∃ ws, changes (Resolves ws session_ended) st (rejectPendingPermissions s st).
Proof.
  intros Hd. unfold rejectPendingPermissions.
  destruct (jm_get s (pendingPermissions st)) as [ids|]; [|exists []; apply resolves_none].
  assert (∃ ws, changes (Resolves ws session_ended) st
    (fold_left (λ st r, respondPermission s r session_ended st) ids st)) as [ws Hws].
  { revert st Hd. induction ids as [|r ids IH]; intros st Hd; cbn [fold_left]; [exists []; apply resolves_none|].
    pose proof (respond_changes s r session_ended st Hd) as H1.
    destruct (IH (respondPermission s r session_ended st)) as [ws H2]; [by eapply resolves_distinct|].
    eexists. by eapply resolves_trans. }
  destruct ids as [|r ids]; [exists []; apply resolves_none|]. exists ws. exact Hws.
Qed.

(** A call that nobody is asked about. *)
Definition free (st : Sys) (s : string) (config : SessionConfig) (tool : string) : Prop :=
  jm_get s (sessionModes st) = Some bypass ∨ never_asks config = true ∨
  (tool ∉ deny (permissions config) ∧ tool ∈ autoApprove (permissions config)).

(** Why an event makes a change. *)
Definition cause (st : Sys) (e : Event) (c : Change) : Prop :=
  match c with
  | Decides (Allow _) => ∃ h tool input r reason now s cfg,
      e = EAsk h tool input r reason now ∧ jm_get h (handlers st) = Some (s, cfg) ∧ free st s (config_of s cfg st) tool
  | Waits s r => ∃ h tool input reason now cfg,
      e = EAsk h tool input r reason now ∧ jm_get h (handlers st) = Some (s, cfg)
  | Resolves ws (Allow _) => ∃ s r b m,
      e = ERespond s r b m ∧ b ≠ BDeny ∧ ∀ w, w ∈ ws → w_session w = s ∧ w_request w = r
  | _ => True
  end.

Lemma step_changes st e : distinct_calls st → ∃ c, changes c st (step st e) ∧ cause st e c.
Proof.
  intros Hd. destruct e as [h s cfg|h|h|s mode|h tool input r reason now|s r b m|call|call|s|s]; simpl.
  - exists Nothing. split; [|done]. by case_match.
  - exists Nothing. split; [|done]. repeat case_match; done.
  - exists Nothing. split; [|done]. repeat case_match; done.
  - exists Nothing. split; [|done]. by case_match.
  - destruct (jm_get h (handlers st)) as [[s cfg]|] eqn:Eh; [|by exists Nothing].
    unfold canUseTool. destruct (_ || _) eqn:Eb.
    { exists (Decides (Allow None)). split; [done|]. do 8 eexists. split_and!; [done|done|].
      apply orb_true_iff in Eb as [Eb|Eb]; [left|right; by left]. by apply bool_decide_eq_true in Eb. }
    clear Eb. unfold resolvePermission. repeat case_bool_decide.
    + by eexists (Decides (Deny _)).
    + exists (Decides (Allow None)). split; [done|]. do 8 eexists. split_and!; [done|done|]. right. by right.
    + exists (Waits s r). split; [done|]. by do 6 eexists.
    + exists (Waits s r). split; [done|]. by do 6 eexists.
  - unfold respond_command.
    match goal with |- context [daemon_respondPermission _ _ _ ?x] => set (st1 := x) end.
    assert (waiters st1 = waiters st ∧ decided st1 = decided st ∧ calls st1 = calls st) as (E1 & E2 & E3).
    { unfold st1, daemon_addAutoApprove. repeat case_match; done. }
    unfold daemon_respondPermission. case_bool_decide; [|by exists Nothing].
    set (d := match b with BDeny => Deny m | _ => Allow None end).
    exists (Resolves (matching s r (waiters st)) d).
    assert (distinct_calls st1) as Hd1 by (unfold distinct_calls; by rewrite E1).
    pose proof (respond_changes s r d st1 Hd1) as Hc. unfold changes in *. rewrite E1, E2, E3 in Hc. split; [done|].
    unfold cause. destruct d eqn:Ed; [|done]. exists s, r, b, m. split_and!; [done|by destruct b|].
    intros w [_ Hw]%elem_of_List_filter. apply andb_true_iff in Hw as [H1%String.eqb_eq H2%String.eqb_eq]. done.
  - unfold timed_out. destruct (find_waiter call st) as [w|] eqn:Ew; [|by exists Nothing].
    apply find_waiter_Some in Ew as [Hw _]. eexists (Resolves [w] (Deny _)). split; [|done].
    by apply (resolve_changes _ w (emit_bus _ st)).
  - unfold aborted. destruct (find_waiter call st) as [w|] eqn:Ew; [|by exists Nothing].
    apply find_waiter_Some in Ew as [Hw _]. eexists (Resolves [w] (Deny _)). split; [|done]. by apply resolve_changes.
  - destruct (reject_changes s st Hd) as [ws Hws]. by exists (Resolves ws session_ended).
  - by exists Nothing.
Qed.

(** ** Every call is settled once *)

Definition accounted (st : Sys) : Prop := map w_call (waiters st) ++ (decided st).*1 ≡ₚ List.seq 0 (calls st).

Lemma without_split ws l :
  NoDup (map w_call l) → NoDup (map w_call ws) → (∀ w, w ∈ ws → w ∈ l) → without ws l ++ ws ≡ₚ l.
Proof.
  intros Hl Hws Hin. apply NoDup_Permutation.
  - apply NoDup_app. split_and!.
    + by eapply (NoDup_fmap_1 w_call), NoDup_filter_map.
    + intros w [_ Hw]%elem_of_without Hw'. apply Hw. rewrite list_elem_of_fmap. eauto.
    + by eapply (NoDup_fmap_1 w_call).
  - by eapply (NoDup_fmap_1 w_call).
  - intros w. rewrite elem_of_app, elem_of_without. split.
    + intros [[Hw _]|Hw]; [done|by apply Hin].
    + intros Hw. destruct (decide (w_call w ∈ map w_call ws)) as [Hc|Hc]; [right|by left].
      apply list_elem_of_fmap in Hc as (w' & E & Hw'). assert (w = w') as ->; [|done].
      apply list_elem_of_lookup in Hw as [i Hi]. apply Hin, list_elem_of_lookup in Hw' as [j Hj].
      assert (i = j) as ->; [|congruence]. eapply (NoDup_lookup (map w_call l)); [done| |];
        rewrite list_lookup_fmap; [by rewrite Hi|by rewrite Hj, E].
Qed.

Lemma changes_accounted c st st' : accounted st → distinct_calls st → changes c st st' → accounted st'.
Proof.
  unfold accounted. intros Ha Hd. destruct c as [|d|s r|ws d]; simpl.
  - by intros (-> & -> & ->).
  - intros (-> & -> & ->). rewrite seq_S, fmap_app, app_assoc. by apply Permutation_app_tail.
  - intros (-> & -> & ->). rewrite seq_S, map_app. simpl.
    rewrite <-app_assoc, (Permutation_app_comm [_]), app_assoc. by apply Permutation_app_tail.
  - intros (Hi & Hn & -> & -> & ->). rewrite <-Ha, fmap_app, <-list_fmap_compose.
    change (fst ∘ (λ w, (w_call w, d)) <$> ws) with (map w_call ws).
    rewrite (Permutation_app_comm (decided st).*1), app_assoc, <-map_app. apply Permutation_app_tail.
    apply (fmap_Permutation w_call). by apply without_split.
Qed.

Lemma accounted_distinct st : accounted st → distinct_calls st.
Proof.
  unfold accounted, distinct_calls. intros Ha. assert (NoDup (map w_call (waiters st) ++ (decided st).*1)) as H.
  { rewrite Ha. apply NoDup_ListNoDup, seq_NoDup. }
  by apply NoDup_app in H as [H _].
Qed.

Lemma run_accounted events : accounted (run events).
Proof.
  induction events as [|e events IH] using rev_ind; [apply perm_nil|]. rewrite run_snoc.
  destruct (step_changes (run events) e) as (c & Hc & _); [by apply accounted_distinct|].
  eapply changes_accounted; [done|by apply accounted_distinct|done].
Qed.

(** C11: every call of a tool is settled at most once, and waits until it is: of the calls made,
    each is among the waiting or among the settled ones, exactly once, whatever answers,
    timeouts, aborts and ends of sessions come in whatever order. *)
Theorem calls_settled_once events :
  map w_call (waiters (run events)) ++ (decided (run events)).*1 ≡ₚ List.seq 0 (calls (run events)).
Proof. apply run_accounted. Qed.

(** ** Why a call is allowed *)

(** What the events say, before an event or after it. *)
Definition launched (events : list Event) (s : string) (config : SessionConfig) : Prop :=
  ∃ h, ELaunch h s config ∈ events.
Definition asked (events : list Event) (tool r : string) : Prop :=
  ∃ h input reason now, EAsk h tool input r reason now ∈ events.
(** The user sets the session to bypass, or it is launched without approvals. *)
Definition bypassed (events : list Event) (s : string) : Prop :=
  EMode s bypass ∈ events ∨ ∃ config, launched events s config ∧ never_asks config = true.
(** The user allows a tool for good, answering a request for it. *)
Definition granted (events : list Event) (s tool : string) : Prop :=
  ∃ r m, ERespond s r BAllowAlways m ∈ events ∧ asked events tool r.
Definition answered (events : list Event) (s r : string) : Prop :=
  ∃ b m, ERespond s r b m ∈ events ∧ b ≠ BDeny.

(** A configuration that a launch and the grants since explain. *)
Definition explained (events : list Event) (s : string) (config : SessionConfig) : Prop :=
  ∃ config0, launched events s config0 ∧ trust config = trust config0 ∧
    approvalPolicy config = approvalPolicy config0 ∧ deny (permissions config) = deny (permissions config0) ∧
    ∀ tool, tool ∈ autoApprove (permissions config) →
      tool ∈ autoApprove (permissions config0) ∨ granted events s tool.

Record traced (events : list Event) : Prop := {
  t_handlers : ∀ h s config, jm_get h (handlers (run events)) = Some (s, config) → launched events s config;
  t_sessions : ∀ s config, jm_get s (sessions (run events)) = Some config → explained events s config;
  t_modes : ∀ s, jm_get s (sessionModes (run events)) = Some bypass → bypassed events s;
  t_names : ∀ r tool, jm_get r (requestToolNames (run events)) = Some tool → asked events tool r
}.

Lemma launched_mono events l s config : launched events s config → launched (events ++ l) s config.
Proof. intros [h H]. exists h. apply elem_of_app. by left. Qed.
Lemma asked_mono events l tool r : asked events tool r → asked (events ++ l) tool r.
Proof. intros (h & i & re & n & H). exists h, i, re, n. apply elem_of_app. by left. Qed.
Lemma granted_mono events l s tool : granted events s tool → granted (events ++ l) s tool.
Proof. intros (r & m & H & Ha). exists r, m. split; [apply elem_of_app; by left|by apply asked_mono]. Qed.
Lemma bypassed_mono events l s : bypassed events s → bypassed (events ++ l) s.
Proof.
  intros [H|(c & Hc & Hn)]; [left; apply elem_of_app; by left|right].
  exists c. split; [by apply launched_mono|done].
Qed.
Lemma explained_mono events l s config : explained events s config → explained (events ++ l) s config.
Proof.
  intros (c & Hc & ? & ? & ? & Ha). exists c. split_and!; [by apply launched_mono|done..|].
  intros tool [?|?]%Ha; [by left|right; by apply granted_mono].
Qed.

Lemma explained_launch events s config : launched events s config → explained events s config.
Proof. intros H. exists config. split_and!; [done..|]. intros tool Ht. by left. Qed.

Lemma explained_grant events s config tool :
  explained events s config → granted events s tool → explained events s (addAutoApprove config tool).
Proof.
  intros (c & Hc & Ht & Hp & Hd & Ha) Hg. unfold addAutoApprove. case_bool_decide; [by exists c|].
  exists c. simpl. split_and!; [done..|]. intros tool' [Hin| ->%list_elem_of_singleton]%elem_of_app; [by apply Ha|by right].
Qed.

(** The parts of the state that [traced] reads. *)
Definition same_config (st st' : Sys) : Prop :=
  handlers st' = handlers st ∧ sessions st' = sessions st ∧ sessionModes st' = sessionModes st ∧
  ∀ r tool, jm_get r (requestToolNames st') = Some tool → jm_get r (requestToolNames st) = Some tool.

Lemma same_config_refl st : same_config st st.
Proof. done. Qed.
Lemma same_config_trans st1 st2 st3 : same_config st1 st2 → same_config st2 st3 → same_config st1 st3.
Proof. intros (? & ? & ? & ?) (? & ? & ? & ?). split_and!; try congruence. auto. Qed.

Lemma resolve_config d w st : same_config st (resolve d w st).
Proof. split_and!; [done..|]. intros r tool. simpl. rewrite jm_get_delete. by case_decide. Qed.

Lemma respond_config s r d st : same_config st (respondPermission s r d st).
Proof.
  unfold respondPermission. generalize (List.filter (λ w, String.eqb (w_session w) s && String.eqb (w_request w) r) (waiters st)) as ws.
  intros ws. apply (same_config_trans _ (emit_bus (Responded s r d) st)); [done|]. generalize (emit_bus (Responded s r d) st).
  induction ws as [|w ws IH]; intros st1; cbn [fold_left]; [done|].
  eapply same_config_trans; [apply resolve_config|apply IH].
Qed.

Lemma reject_config s st : same_config st (rejectPendingPermissions s st).
Proof.
  unfold rejectPendingPermissions. destruct (jm_get s (pendingPermissions st)) as [[|r ids]|]; [done| |done].
  assert (∀ st, same_config st (fold_left (λ st r, respondPermission s r session_ended st) (r :: ids) st)) as H.
  { generalize (r :: ids) as l. intros l. induction l as [|r' l IH]; intros st1; cbn [fold_left]; [done|].
    eapply same_config_trans; [apply respond_config|apply IH]. }
  exact (H st).
Qed.

Lemma same_config_traced events e :
  traced events → same_config (run events) (step (run events) e) → traced (events ++ [e]).
Proof.
  intros [Hh Hs Hm Hn] (E1 & E2 & E3 & E4). split; rewrite run_snoc, ?E1, ?E2, ?E3.
  - intros h s config H. eapply launched_mono, Hh, H.
  - intros s config H. by apply explained_mono, Hs.
  - intros s H. by apply bypassed_mono, Hm.
  - intros r tool H. by apply asked_mono, Hn, E4.
Qed.

Lemma never_asks_default config : defaultSessionAgentMode config = bypass → never_asks config = true.
Proof. unfold defaultSessionAgentMode. by destruct (never_asks config). Qed.

Lemma ask_config s cfg st tool input r reason now :
  let st' := canUseTool s cfg tool input r reason now st in
  handlers st' = handlers st ∧ sessions st' = sessions st ∧ sessionModes st' = sessionModes st ∧
  ∀ r' tool', jm_get r' (requestToolNames st') = Some tool' →
    jm_get r' (requestToolNames st) = Some tool' ∨ r' = r ∧ tool' = tool.
Proof.
  unfold canUseTool. repeat case_match; simpl; (split; [done|]); (split; [done|]); (split; [done|]);
    intros r' tool' Hn; first [by left | rewrite jm_get_set in Hn; case_decide; [right; by simplify_eq|by left]].
Qed.

(** The state in which an answer of the user is passed on. *)
Definition granting (s r : string) (b : Behavior) (st : Sys) : Sys :=
  match b, getRequestToolName r st with
  | BAllowAlways, Some tool => if truthy_str tool then daemon_addAutoApprove s tool st else st
  | _, _ => st
  end.

Lemma respond_granting s r b m st : same_config (granting s r b st) (respond_command s r b m st).
Proof.
  unfold respond_command, daemon_respondPermission. fold (granting s r b st).
  case_bool_decide; [apply respond_config|done].
Qed.

Lemma respond_traced events s r b m : traced events → traced (events ++ [ERespond s r b m]).
Proof.
  intros Ht. pose proof Ht as [Hh Hs Hm Hn].
  destruct (respond_granting s r b m (run events)) as (E1 & E2 & E3 & E4).
  assert (granting s r b (run events) = run events ∨ ∃ tool config,
    b = BAllowAlways ∧ jm_get r (requestToolNames (run events)) = Some tool ∧
    jm_get s (sessions (run events)) = Some config ∧
    granting s r b (run events) = set_manager (handlers (run events))
      (jm_set s (addAutoApprove config tool) (sessions (run events))) (run events)) as [Eg|(tool & config & -> & Er & Ec & Eg)].
  { unfold granting, daemon_addAutoApprove, getRequestToolName. destruct b; [by left|by left|].
    destruct (jm_get r _) as [tool|] eqn:Er; [|by left]. case_match; [|by left].
    destruct (jm_get s _) as [config|] eqn:Ec; [|by left]. right. by exists tool, config. }
  { apply same_config_traced; [done|]. rewrite <-Eg at 1. apply respond_granting. }
  rewrite Eg in *. simpl in *. split; rewrite run_snoc; simpl; rewrite ?E1, ?E2, ?E3.
  - intros h' s' c' H. eapply launched_mono, Hh, H.
  - intros s' c'. rewrite jm_get_set. case_decide as Ek; [|intros H; by apply explained_mono, Hs].
    intros [= <-]. subst. apply explained_grant; [by apply explained_mono, Hs|].
    exists r, m. split; [apply elem_of_app; right; by left|]. by apply asked_mono, Hn.
  - intros s' H. by apply bypassed_mono, Hm.
  - intros r' tool' H. by apply asked_mono, Hn, E4.
Qed.

Lemma step_traced events e : traced events → traced (events ++ [e]).
Proof.
  intros Ht. pose proof Ht as [Hh Hs Hm Hn].
  assert (e ∈ events ++ [e]) as He by (apply elem_of_app; right; by left).
  destruct e as [h s cfg|h|h|s mode|h tool input r reason now|s r b m|call|call|s|s].
  - destruct (decide (is_Some (jm_get h (handlers (run events))))) as [Hd|Hd].
    { apply same_config_traced; [done|]. simpl. by rewrite bool_decide_true. }
    assert (launched (events ++ [ELaunch h s cfg]) s cfg) as Hl by by exists h.
    split; rewrite run_snoc; simpl; rewrite bool_decide_false by done; simpl.
    + intros h' s' c'. rewrite jm_get_set. case_decide as E; [by intros [= <- <-]|]. intros H. eapply launched_mono, Hh, H.
    + intros s' c' H. by apply explained_mono, Hs.
    + intros s'. rewrite jm_get_set. case_decide as Ek; [|intros Hj; by apply bypassed_mono, Hm].
      intros [= H%never_asks_default]. subst. right. eauto.
    + intros r tool H. by apply asked_mono, Hn.
  - simpl in *. destruct (jm_get h (handlers (run events))) as [[s cfg]|] eqn:E.
    2: { apply same_config_traced; [done|]. simpl. by rewrite E. }
    split; rewrite run_snoc; simpl; rewrite E; simpl.
    + intros h' s' c' H. eapply launched_mono, Hh, H.
    + intros s' c'. rewrite jm_get_set. case_decide as Ek; [|intros H; by apply explained_mono, Hs].
      intros [= <-]. subst. by apply explained_mono, explained_launch, (Hh h).
    + intros s' H. by apply bypassed_mono, Hm.
    + intros r tool H. by apply asked_mono, Hn.
  - destruct (jm_get h (handlers (run events))) as [[s cfg]|] eqn:E.
    2: { apply same_config_traced; [done|]. simpl. by rewrite E. }
    split; rewrite run_snoc; simpl; rewrite E; simpl.
    + intros h' s' c' H. eapply launched_mono, Hh, H.
    + intros s' c' H. by apply explained_mono, Hs.
    + intros s'. rewrite jm_get_delete. case_decide; [done|]. intros Hj. by apply bypassed_mono, Hm.
    + intros r tool H. by apply asked_mono, Hn.
  - destruct (decide (is_Some (jm_get s (sessions (run events))))) as [Hd|Hd].
    2: { apply same_config_traced; [done|]. simpl. by rewrite bool_decide_false. }
    split; rewrite run_snoc; simpl; rewrite bool_decide_true by done; simpl.
    + intros h' s' c' H. eapply launched_mono, Hh, H.
    + intros s' c' H. by apply explained_mono, Hs.
    + intros s'. rewrite jm_get_set. case_decide as Ek; [|intros Hj; by apply bypassed_mono, Hm].
      intros [= ->]. subst. by left.
    + intros r tool H. by apply asked_mono, Hn.
  - destruct (jm_get h (handlers (run events))) as [[s cfg]|] eqn:E.
    2: { apply same_config_traced; [done|]. simpl. by rewrite E. }
    destruct (ask_config s (config_of s cfg (run events)) (run events) tool input r reason now) as (E1 & E2 & E3 & E4).
    split; rewrite run_snoc; simpl; rewrite E, ?E1, ?E2, ?E3.
    + intros h' s' c' H. eapply launched_mono, Hh, H.
    + intros s' c' H. by apply explained_mono, Hs.
    + intros s' H. by apply bypassed_mono, Hm.
    + intros r' tool' [H|[-> ->]]%E4; [by apply asked_mono, Hn|by exists h, input, reason, now].
  - by apply respond_traced.
  - apply same_config_traced; [done|]. simpl. unfold timed_out. destruct (find_waiter call (run events)) as [w|]; [|done].
    apply (same_config_trans _ (emit_bus (Attention (w_session w)) (run events))); [done|apply resolve_config].
  - apply same_config_traced; [done|]. simpl. unfold aborted. case_match; [apply resolve_config|done].
  - apply same_config_traced; [done|]. apply reject_config.
  - split; rewrite run_snoc; simpl.
    + intros h' s' c' H. eapply launched_mono, Hh, H.
    + intros s' c'. rewrite jm_get_delete. case_decide; [done|]. intros Hj. by apply explained_mono, Hs.
    + intros s'. rewrite jm_get_delete. case_decide; [done|]. intros Hj. by apply bypassed_mono, Hm.
    + intros r tool H. by apply asked_mono, Hn.
Qed.

Lemma run_traced events : traced events.
Proof.
  induction events as [|e events IH] using rev_ind; [|by apply step_traced]. split; by intros.
Qed.

(** The call [call] is the one that event [i] makes. *)
Definition call_at (events : list Event) (i call : nat) (s tool r : string) : Prop :=
  ∃ h input reason now cfg, events !! i = Some (EAsk h tool input r reason now) ∧
    jm_get h (handlers (run (take i events))) = Some (s, cfg) ∧ calls (run (take i events)) = call.

(** The configuration that the session was launched with allows the tool, with the grants of
    the user since, and does not deny it. *)
Definition configured (events : list Event) (s tool : string) : Prop :=
  ∃ config, launched events s config ∧ tool ∉ deny (permissions config) ∧
    (tool ∈ autoApprove (permissions config) ∨ granted events s tool).

Definition permitted (events : list Event) (call : nat) : Prop :=
  ∃ i s tool r, call_at events i call s tool r ∧
    (bypassed (take i events) s ∨ configured (take i events) s tool ∨ answered (drop (S i) events) s r).

Lemma call_at_mono events l i call s tool r :
  call_at events i call s tool r → call_at (events ++ l) i call s tool r.
Proof.
  intros (h & input & reason & now & cfg & Hi & Hh & Hc). exists h, input, reason, now, cfg.
  pose proof (lookup_lt_Some _ _ _ Hi). rewrite take_app_le by lia. split_and!; [by apply lookup_app_l_Some|done..].
Qed.

Lemma permitted_mono events l call : permitted events call → permitted (events ++ l) call.
Proof.
  intros (i & s & tool & r & Hc & H). exists i, s, tool, r. split; [by apply call_at_mono|].
  destruct Hc as (h & input & reason & now & cfg & Hi & _). pose proof (lookup_lt_Some _ _ _ Hi).
  rewrite take_app_le by lia. destruct H as [H|[H|(b & m & H & Hb)]]; [by left|right; by left|]. right. right.
  exists b, m. split; [|done]. rewrite drop_app_le by lia. apply elem_of_app. by left.
Qed.

Lemma take_snoc (events : list Event) e : take (length events) (events ++ [e]) = events.
Proof. apply take_app_length. Qed.

(** A free call is free because of the events before it. *)
Lemma free_permitted events h s cfg tool :
  jm_get h (handlers (run events)) = Some (s, cfg) → free (run events) s (config_of s cfg (run events)) tool →
  bypassed events s ∨ configured events s tool.
Proof.
  intros Hh Hf. destruct (run_traced events) as [Th Ts Tm _].
  assert (explained events s (config_of s cfg (run events))) as (c & Hc & E1 & E2 & E3 & Ha).
  { unfold config_of. destruct (jm_get s (sessions (run events))) as [c|] eqn:E; simpl; [by apply Ts|].
    by eapply explained_launch, Th. }
  destruct Hf as [Hf|[Hf|[Hd Hin]]].
  - left. by apply Tm.
  - left. right. exists c. split; [done|]. unfold never_asks in *. by rewrite <-E1, <-E2.
  - right. exists c. rewrite <-E3. split_and!; [done..|]. by apply Ha.
Qed.

Lemma waiting_called events w :
  w ∈ waiters (run events) → ∃ i tool, call_at events i (w_call w) (w_session w) tool (w_request w).
Proof.
  revert w. induction events as [|e events IH] using rev_ind; [by intros w ?%elem_of_nil|]. intros w.
  rewrite run_snoc. destruct (step_changes (run events) e) as (c & Hc & Hw); [apply accounted_distinct, run_accounted|].
  assert (w ∈ waiters (run events) → ∃ i tool, call_at (events ++ [e]) i (w_call w) (w_session w) tool (w_request w)) as Hold.
  { intros (i & tool & H)%IH. exists i, tool. by apply call_at_mono. }
  destruct c as [|d|s r|ws d]; simpl in Hc.
  - destruct Hc as (-> & _). done.
  - destruct Hc as (-> & _). done.
  - destruct Hc as (-> & _). intros [H| ->%list_elem_of_singleton]%elem_of_app; [by apply Hold|]. simpl.
    destruct Hw as (h & tool & input & reason & now & cfg & -> & Hh). exists (length events), tool.
    exists h, input, reason, now, cfg. rewrite take_snoc. split_and!; [|done..].
    by rewrite lookup_app_r, Nat.sub_diag.
  - destruct Hc as (_ & _ & -> & _). intros [H _]%elem_of_without. by apply Hold.
Qed.

(** C10: a tool runs only with a permission that the events show: its session was launched
    without approvals or set to bypass before the call; or it was launched with a
    configuration that does not deny the tool, and approves it or the user had allowed
    the tool for good; or the user allows this very request after it was made. *)
Theorem call_permitted events call input :
  (call, Allow input) ∈ decided (run events) → permitted events call.
Proof.
  induction events as [|e events IH] using rev_ind; [by intros ?%elem_of_nil|]. rewrite run_snoc.
  destruct (step_changes (run events) e) as (c & Hc & Hw); [apply accounted_distinct, run_accounted|].
  assert ((call, Allow input) ∈ decided (run events) → permitted (events ++ [e]) call) as Hold.
  { intros H. by apply permitted_mono, IH. }
  destruct c as [|d|s r|ws d]; simpl in Hc.
  - destruct Hc as (_ & -> & _). done.
  - destruct Hc as (_ & -> & _). intros [H|[= -> <-]%list_elem_of_singleton]%elem_of_app; [by apply Hold|].
    destruct Hw as (h & tool & inp & r & reason & now & s & cfg & -> & Hh & Hf).
    exists (length events), s, tool, r. rewrite take_snoc. split.
    + exists h, inp, reason, now, cfg. rewrite take_snoc. split_and!; [|done..]. by rewrite lookup_app_r, Nat.sub_diag.
    + destruct (free_permitted _ _ _ _ _ Hh Hf); auto.
  - destruct Hc as (_ & -> & _). done.
  - destruct Hc as (Hin & _ & _ & -> & _). intros [H|H]%elem_of_app; [by apply Hold|].
    apply list_elem_of_fmap in H as (w & [= -> <-] & Hww).
    destruct Hw as (s & r & b & m & -> & Hb & Hsr). destruct (Hsr w Hww) as [<- <-].
    destruct (waiting_called events w (Hin w Hww)) as (i & tool & Hi). exists i, (w_session w), tool, (w_request w).
    split; [by apply call_at_mono|]. right. right. exists b, m. split; [|done].
    destruct Hi as (h & inp & reason & now & cfg & Hi & _). pose proof (lookup_lt_Some _ _ _ Hi).
    rewrite drop_app_le by lia. apply elem_of_app. right. by left.
Qed.

(** ** The tables *)

Definition waits (st : Sys) (s r : string) : Prop := ∃ w, w ∈ waiters st ∧ w_session w = s ∧ w_request w = r.

(** The tables of the coordinator list the calls that wait. *)
Record tables (st : Sys) : Prop := {
  tb_calls : distinct_calls st;
  tb_requests : NoDup (map w_request (waiters st));
  tb_keys : NoDup_keys (pendingRequestDetails st);
  tb_ids : ∀ r d, jm_get r (pendingRequestDetails st) = Some d → pp_requestId d = r;
  tb_details : ∀ s r, (∃ d, jm_get r (pendingRequestDetails st) = Some d ∧ pp_sessionId d = s) ↔ waits st s r;
  tb_names : ∀ r, is_Some (jm_get r (requestToolNames st)) ↔ ∃ s, waits st s r;
  tb_pending : ∀ s r, (∃ l, jm_get s (pendingPermissions st) = Some l ∧ r ∈ l) ↔ waits st s r
}.

Lemma NoDup_map_inj {A B} (f : A → B) l x y : NoDup (map f l) → x ∈ l → y ∈ l → f x = f y → x = y.
Proof.
  intros Hn [i Hi]%list_elem_of_lookup [j Hj]%list_elem_of_lookup E. assert (i = j) as ->; [|congruence].
  eapply (NoDup_lookup (map f l)); [done| |]; rewrite list_lookup_fmap; [by rewrite Hi|by rewrite Hj, E].
Qed.

Lemma resolve_waits d w st s r :
  tables st → w ∈ waiters st → waits (resolve d w st) s r ↔ waits st s r ∧ r ≠ w_request w.
Proof.
  intros [Hc Hr _ _ _ _ _] Hw. unfold waits. simpl. setoid_rewrite elem_of_List_filter.
  setoid_rewrite negb_true_iff. setoid_rewrite bool_decide_eq_false. split.
  - intros (w' & [Hw' Hne] & Hs & <-). split; [by exists w'|]. intros E.
    assert (w' = w) as -> by (by eapply (NoDup_map_inj w_request)). done.
  - intros [(w' & Hw' & Hs & <-) Hne]. exists w'. split_and!; [done| |done..]. intros E.
    assert (w' = w) as -> by (by eapply (NoDup_map_inj w_call)). done.
Qed.

Lemma resolve_tables d w st : tables st → w ∈ waiters st → tables (resolve d w st).
Proof.
  intros Ht Hw. pose proof (λ s r, resolve_waits d w st s r Ht Hw) as Hwt.
  assert (∀ w', w' ∈ waiters st → w_request w' = w_request w → w' = w) as Huniq.
  { intros w' Hw' E. eapply (NoDup_map_inj w_request); [apply Ht|done..]. }
  destruct Ht as [Hc Hr Hk Hi Hd Hn Hp].
  split; [by apply NoDup_filter_map|by apply NoDup_filter_map| | | | |].
  - simpl. by apply NoDup_keys_delete.
  - intros r d'. simpl. rewrite jm_get_delete. case_decide; [done|]. apply Hi.
  - intros s r. rewrite Hwt, <-Hd. simpl. rewrite jm_get_delete. case_decide as E.
    + subst. split; [by intros (? & ? & _)|by intros [_ ?]].
    + naive_solver.
  - intros r. simpl. rewrite jm_get_delete. setoid_rewrite Hwt. case_decide as E.
    + subst. split; [by intros [? ?]|by intros (? & _ & ?)].
    + rewrite Hn. naive_solver.
  - intros s r. rewrite Hwt. simpl.
    assert (waits st (w_session w) (w_request w)) as Hself by by exists w.
    destruct (jm_get (w_session w) (pendingPermissions st)) as [l|] eqn:El.
    2: { destruct (proj2 (Hp _ _) Hself) as (l & E & _). congruence. }
    assert (∀ x, x ∈ set_delete (w_request w) l ↔ x ≠ w_request w ∧ x ∈ l) as Hset by (intros; apply elem_of_set_delete).
    assert (r = w_request w → waits st s r → s = w_session w) as Hsame.
    { intros -> (w' & Hw' & <- & E). by rewrite (Huniq w' Hw' E). }
    rewrite <-Hp. destruct (decide (s = w_session w)) as [->|Hs].
    + case_bool_decide as Enil.
      * rewrite jm_get_delete_eq. split; [by intros (? & ? & _)|]. intros [(l' & E & Hin) Hne]. rewrite El in E. injection E as <-.
        assert (r ∈ set_delete (w_request w) l) as Hin' by (by apply Hset). rewrite Enil in Hin'. by apply elem_of_nil in Hin'.
      * rewrite jm_get_set_eq, El. split.
        -- intros (l' & [= <-] & [Hne Hin]%Hset). eauto.
        -- intros [(l' & [= <-] & Hin) Hne]. eexists. split; [done|]. by apply Hset.
    + assert (∀ l', jm_get s (if bool_decide (set_delete (w_request w) l = []) then jm_delete (w_session w) (pendingPermissions st)
        else jm_set (w_session w) l' (pendingPermissions st)) = jm_get s (pendingPermissions st)) as E.
      { intros l'. case_bool_decide; [by apply jm_get_delete_ne|by apply jm_get_set_ne]. }
      rewrite E. split; [|by intros [? _]]. intros H. split; [done|]. intros Er. apply Hs, Hsame; [done|]. by apply Hp.
Qed.

Lemma resolve_all_tables d ws st :
  tables st → (∀ w, w ∈ ws → w ∈ waiters st) → NoDup (map w_call ws) →
  let st' := fold_left (λ st w, resolve d w st) ws st in
  tables st' ∧ ∀ s r, waits st' s r ↔ waits st s r ∧ r ∉ map w_request ws.
Proof.
  revert st. induction ws as [|w ws IH]; intros st Ht Hin Hnd; cbn [fold_left].
  { split; [done|]. intros s r. split; [|by intros [? _]]. intros H. split; [done|]. apply not_elem_of_nil. }
  apply NoDup_cons in Hnd as [Hni Hnd]. assert (w ∈ waiters st) as Hw by (apply Hin; by left).
  destruct (IH (resolve d w st)) as [H1 H2].
  - by apply resolve_tables.
  - intros w' Hw'. simpl. apply elem_of_List_filter. split; [apply Hin; by right|].
    apply negb_true_iff, bool_decide_eq_false. intros E. apply Hni, list_elem_of_fmap. eauto.
  - done.
  - split; [done|]. intros s r. rewrite H2, (resolve_waits d w st s r Ht Hw). simpl. rewrite not_elem_of_cons. tauto.
Qed.

Lemma respond_tables s r d st :
  tables st → tables (respondPermission s r d st) ∧
  ∀ s' r', waits (respondPermission s r d st) s' r' ↔ waits st s' r' ∧ ¬ (s' = s ∧ r' = r).
Proof.
  intros Ht. unfold respondPermission. fold (matching s r (waiters st)).
  destruct (resolve_all_tables d (matching s r (waiters st)) (emit_bus (Responded s r d) st)) as [H1 H2].
  - by destruct Ht.
  - by intros w [Hw _]%elem_of_List_filter.
  - apply NoDup_filter_map, Ht.
  - split; [done|]. intros s' r'. rewrite H2. change (waits (emit_bus (Responded s r d) st) s' r') with (waits st s' r').
    split; intros [Hw Hn]; (split; [done|]).
    + intros [-> ->]. apply Hn. destruct Hw as (w & Hw & Es & Er). rewrite list_elem_of_fmap. exists w. split; [done|].
      apply elem_of_List_filter. split; [done|]. by rewrite Es, Er, !String.eqb_refl.
    + intros (w' & -> & [Hw' E]%elem_of_List_filter)%list_elem_of_fmap.
      apply andb_true_iff in E as [E1%String.eqb_eq E2%String.eqb_eq]. apply Hn. split; [|done].
      destruct Hw as (w & Hw & Es & Er). rewrite <-E1, <-Es. f_equal.
      eapply (NoDup_map_inj w_request); [apply Ht|done..].
Qed.

(** A change that leaves the tables and the waiting calls alone. *)
Lemma same_tables st st' :
  waiters st' = waiters st → pendingRequestDetails st' = pendingRequestDetails st →
  requestToolNames st' = requestToolNames st → pendingPermissions st' = pendingPermissions st →
  tables st → tables st'.
Proof.
  intros E1 E2 E3 E4 [Hc Hr Hk Hi Hd Hn Hp].
  split; unfold distinct_calls, waits in *; rewrite ?E1, ?E2, ?E3, ?E4; done.
Qed.

Lemma ask_tables s cfg tool input r reason now st :
  tables st → (∀ c, c ∈ map w_call (waiters st) → c < calls st) → r ∉ map w_request (waiters st) →
  tables (canUseTool s cfg tool input r reason now st).
Proof.
  intros Ht Hlt Hr. unfold canUseTool. destruct (_ || _); [by apply (same_tables st)|].
  destruct (resolvePermission _ _); [by apply (same_tables st)| |by apply (same_tables st)].
  set (w := {| w_call := calls st; w_session := s; w_request := r |}).
  assert (∀ s' r', (∃ w', w' ∈ waiters st ++ [w] ∧ w_session w' = s' ∧ w_request w' = r') ↔
    waits st s' r' ∨ s' = s ∧ r' = r) as Hwt.
  { intros s' r'. unfold waits. split.
    - intros (w' & [Hw| ->%list_elem_of_singleton]%elem_of_app & <- & <-); [left; eauto|by right].
    - intros [(w' & Hw & <- & <-)|[-> ->]]; [exists w'|exists w]; rewrite elem_of_app; split_and!; try done; [by left|].
      right. by left. }
  assert (∀ s', ¬ waits st s' r) as Hno.
  { intros s' (w' & Hw & _ & E). apply Hr. rewrite <-E. apply list_elem_of_fmap. eauto. }
  destruct Ht as [Hc Hrq Hk Hi Hd Hn Hp]. split; unfold distinct_calls; simpl; fold w.
  - rewrite map_app. apply NoDup_app. split_and!; [done| |apply NoDup_singleton].
    intros c Hc' ->%list_elem_of_singleton. apply Hlt in Hc'. simpl in Hc'. lia.
  - rewrite map_app. apply NoDup_app. split_and!; [done| |apply NoDup_singleton].
    intros c Hc' ->%list_elem_of_singleton. by apply Hr.
  - by apply NoDup_keys_set.
  - intros r' d. rewrite jm_get_set. case_decide as E; [|apply Hi]. intros Ed. injection Ed as <-. by subst.
  - intros s' r'. unfold waits at 1. simpl. fold w. rewrite Hwt, jm_get_set. case_decide as E.
    + subst. split; [intros (d & Ed & <-); injection Ed as <-; by right|]. intros [H|[-> _]]; [by apply Hno in H|]. eauto.
    + rewrite Hd. naive_solver.
  - intros r'. unfold waits at 1. simpl. fold w. setoid_rewrite Hwt. rewrite jm_get_set. case_decide as E.
    + subst. split; [eauto|by eexists].
    + rewrite Hn. naive_solver.
  - intros s' r'. unfold waits at 1. simpl. fold w. rewrite Hwt, jm_get_set, <-Hp. case_decide as E.
    + subst. split.
      * intros (l & [= <-] & [->|Hin]%elem_of_set_add); [by right|]. left.
        destruct (jm_get s (pendingPermissions st)) as [l|]; simpl in Hin; [eauto|by apply elem_of_nil in Hin].
      * intros H. eexists. split; [done|]. apply elem_of_set_add.
        destruct H as [(l & -> & Hin)|[_ ->]]; [by right|by left].
    + naive_solver.
Qed.

Lemma reject_tables s st :
  tables st →
  tables (rejectPendingPermissions s st) ∧
  ∀ s' r', waits (rejectPendingPermissions s st) s' r' ↔ waits st s' r' ∧ s' ≠ s.
Proof.
  intros Ht. unfold rejectPendingPermissions.
  assert (∀ ids st, tables st →
    let st' := fold_left (λ st r, respondPermission s r session_ended st) ids st in
    tables st' ∧ ∀ s' r', waits st' s' r' ↔ waits st s' r' ∧ ¬ (s' = s ∧ r' ∈ ids)) as Hfold.
  { intros ids. induction ids as [|r ids IH]; intros st1 Ht1; cbn [fold_left].
    - split; [done|]. intros s' r'. rewrite elem_of_nil. tauto.
    - destruct (respond_tables s r session_ended st1 Ht1) as [H1 H2]. destruct (IH _ H1) as [H3 H4].
      split; [done|]. intros s' r'. rewrite H4, H2, elem_of_cons. naive_solver. }
  assert (∀ r, waits st s r → ∃ l, jm_get s (pendingPermissions st) = Some l ∧ r ∈ l) as Hall by (intros r; apply (tb_pending st Ht)).
  destruct (jm_get s (pendingPermissions st)) as [[|r0 ids]|] eqn:Ep.
  - split; [done|]. intros s' r'. split; [|by intros [? _]]. intros Hw. split; [done|]. intros ->.
    destruct (Hall r' Hw) as (l & [= <-] & Hin). by apply elem_of_nil in Hin.
  - destruct (Hfold (r0 :: ids) st Ht) as [Ht' Hw']. remember (r0 :: ids) as l eqn:El. clear El.
    set (st' := fold_left _ l st) in *.
    assert (∀ s' r', waits st' s' r' ↔ waits st s' r' ∧ s' ≠ s) as Hws.
    { intros s' r'. rewrite Hw'. split; intros [Hw Hn]; (split; [done|]); [|naive_solver].
      intros ->. apply Hn. split; [done|]. destruct (Hall r' Hw) as (l' & [= <-] & Hin). done. }
    split; [|exact Hws]. destruct Ht' as [Hc Hrq Hk Hi Hd Hn Hp]. split; simpl; try done.
    + by apply NoDup_keys_filter.
    + intros r d. rewrite jm_get_filter by done. destruct (jm_get r (pendingRequestDetails st')) as [d'|] eqn:E; [|done].
      case_match; [|done]. intros [= <-]. by apply Hi.
    + intros s' r. rewrite jm_get_filter by done.
      change (waits (set_tables _ _ _ st') s' r) with (waits st' s' r). rewrite <-Hd. split.
      * intros (d & E & Es). destruct (jm_get r (pendingRequestDetails st')) as [d'|]; [|done].
        case_match; [|done]. injection E as <-. eauto.
      * intros (d & E & Es). exists d. rewrite E. assert (s' ≠ s) as Hne by (apply (Hws s' r), Hd; eauto).
        rewrite Es. by rewrite (proj2 (String.eqb_neq s' s)).
    + intros s' r. change (waits (set_tables _ _ _ st') s' r) with (waits st' s' r). rewrite jm_get_delete. case_decide as E.
      * subst. rewrite Hws. split; [by intros (? & ? & _)|by intros [_ ?]].
      * apply Hp.
  - split; [done|]. intros s' r'. split; [|by intros [? _]]. intros Hw. split; [done|]. intros ->.
    by destruct (Hall r' Hw) as (l & ? & _).
Qed.

(** No request is made under the identifier of a request that waits. *)
Definition fresh_requests (events : list Event) : Prop :=
  ∀ i h tool input r reason now, events !! i = Some (EAsk h tool input r reason now) →
    r ∉ map w_request (waiters (run (take i events))).

Lemma fresh_snoc events e :
  fresh_requests (events ++ [e]) → fresh_requests events ∧
  ∀ h tool input r reason now, e = EAsk h tool input r reason now → r ∉ map w_request (waiters (run events)).
Proof.
  intros Hf. split.
  - intros i h tool input r reason now Hi. pose proof (lookup_lt_Some _ _ _ Hi).
    specialize (Hf i h tool input r reason now). rewrite take_app_le in Hf by lia. apply Hf. by apply lookup_app_l_Some.
  - intros h tool input r reason now ->. specialize (Hf (length events) h tool input r reason now).
    rewrite take_snoc in Hf. apply Hf. by rewrite lookup_app_r, Nat.sub_diag.
Qed.

Lemma run_tables events : fresh_requests events → tables (run events).
Proof.
  induction events as [|e events IH] using rev_ind.
  { intros _. split; simpl; try (by constructor); try done; intros; split; try (by intros (? & ? & ?)); try (by intros [? ?]).
    - by intros (w & ?%elem_of_nil & _).
    - by intros (s & w & ?%elem_of_nil & _).
    - by intros (w & ?%elem_of_nil & _). }
  intros [Hf He]%fresh_snoc. specialize (IH Hf). rewrite run_snoc. set (st := run events) in *.
  destruct e as [h s cfg|h|h|s mode|h tool input r reason now|s r b m|call|call|s|s]; simpl.
  - case_match; by apply (same_tables st).
  - repeat case_match; by apply (same_tables st).
  - repeat case_match; by apply (same_tables st).
  - case_match; by apply (same_tables st).
  - destruct (jm_get h (handlers st)) as [[s cfg]|]; [|done]. apply ask_tables; [done| |by eapply He].
    intros c Hc. pose proof (run_accounted events) as Ha. unfold accounted in Ha. fold st in Ha.
    assert (c ∈ List.seq 0 (calls st)) as Hin by (rewrite <-Ha; apply elem_of_app; by left).
    apply list_elem_of_In, in_seq in Hin. lia.
  - unfold respond_command. match goal with |- context [daemon_respondPermission _ _ _ ?x] => set (st1 := x) end.
    assert (tables st1) as Ht1.
    { unfold st1, daemon_addAutoApprove. repeat case_match; by apply (same_tables st). }
    unfold daemon_respondPermission. case_match; [|done]. by apply respond_tables.
  - unfold timed_out. destruct (find_waiter call st) as [w|] eqn:Ew; [|done]. apply find_waiter_Some in Ew as [Hw _].
    apply resolve_tables; [by apply (same_tables st)|done].
  - unfold aborted. destruct (find_waiter call st) as [w|] eqn:Ew; [|done]. apply find_waiter_Some in Ew as [Hw _].
    by apply resolve_tables.
  - by apply reject_tables.
  - by apply (same_tables st).
Qed.

Lemma elem_of_insert_pending x y l : x ∈ insert_pending y l ↔ x = y ∨ x ∈ l.
Proof.
  induction l as [|z l IH]; simpl; [by rewrite list_elem_of_singleton, elem_of_nil; naive_solver|].
  case_match; rewrite !elem_of_cons, ?IH; naive_solver.
Qed.

Lemma elem_of_sorted_pending x l acc :
  x ∈ fold_left (λ acc x, insert_pending x acc) l acc ↔ x ∈ l ∨ x ∈ acc.
Proof.
  revert acc. induction l as [|y l IH]; intros acc; cbn [fold_left]; [rewrite elem_of_nil; naive_solver|].
  rewrite IH, elem_of_insert_pending, elem_of_cons. naive_solver.
Qed.

(** When no request is made under the identifier of one that waits, an operator sees
    exactly the calls that wait for an answer, of one session or of all. *)
Theorem pending_listed events filter s r :
  fresh_requests events → filter ≠ Some "" →
  (∃ d, d ∈ listPendingPermissions filter (run events) ∧ pp_sessionId d = s ∧ pp_requestId d = r) ↔
  (∃ w, w ∈ waiters (run events) ∧ w_session w = s ∧ w_request w = r) ∧ (filter = None ∨ filter = Some s).
Proof.
  intros Hf Hne. pose proof (run_tables events Hf) as [_ _ Hk Hi Hd _ _]. fold (waits (run events) s r).
  rewrite <-Hd. unfold listPendingPermissions.
  assert (∀ d, d ∈ jm_values (pendingRequestDetails (run events)) ↔
    jm_get (pp_requestId d) (pendingRequestDetails (run events)) = Some d) as Hv.
  { intros d. unfold jm_values. rewrite list_elem_of_fmap. split.
    - intros ([r' d'] & -> & Hin). simpl. pose proof (jm_elem_get _ _ _ Hk Hin) as E. by rewrite (Hi _ _ E).
    - intros E. apply jm_get_elem in E. by exists (pp_requestId d, d). }
  setoid_rewrite elem_of_sorted_pending. setoid_rewrite elem_of_nil.
  destruct filter as [x|].
  - rewrite (proj2 (truthy_str_true x)) by congruence.
    setoid_rewrite elem_of_List_filter. setoid_rewrite Hv. setoid_rewrite String.eqb_eq. split.
    + intros (d & [[E Ex]|[]] & <- & <-). subst. eauto.
    + intros [(d & E & Es) [?|[= ->]]]; [done|]. exists d. rewrite (Hi _ _ E). split_and!; [left|..]; try done.
  - setoid_rewrite Hv. split.
    + intros (d & [E|[]] & <- & <-). eauto.
    + intros [(d & E & Es) _]. exists d. rewrite (Hi _ _ E). auto.
Qed.

(** The end of a session settles every call of it that waits, with a denial, and no call
    of another session. *)
Theorem session_end_releases events s w :
  fresh_requests events →
  (w ∈ waiters (run (events ++ [EEnded s])) ↔ w ∈ waiters (run events) ∧ w_session w ≠ s) ∧
  (w ∈ waiters (run events) → w_session w = s → (w_call w, session_ended) ∈ decided (run (events ++ [EEnded s]))).
Proof.
  intros Hf. pose proof (run_tables events Hf) as Ht. rewrite run_snoc. simpl. set (st := run events) in *.
  destruct (reject_tables s st Ht) as [Ht' Hw'].
  destruct (reject_changes s st (tb_calls _ Ht)) as (ws & Hin & _ & Ew & Ed & _).
  assert (w ∈ waiters st → w_session w = s → w_call w ∈ map w_call ws) as Hgone.
  { intros Hw Hs. destruct (decide (w_call w ∈ map w_call ws)) as [|Hn]; [done|].
    assert (waits (rejectPendingPermissions s st) s (w_request w)) as H.
    { exists w. rewrite Ew. split_and!; [by apply elem_of_without|done..]. }
    by apply Hw' in H as [_ ?]. }
  split; [split|].
  - intros Hw. assert (waits (rejectPendingPermissions s st) (w_session w) (w_request w)) as [_ Hs]%Hw' by by exists w.
    rewrite Ew in Hw. by apply elem_of_without in Hw as [Hw _].
  - intros [Hw Hs]. assert (waits st (w_session w) (w_request w)) as H by by exists w.
    assert (waits (rejectPendingPermissions s st) (w_session w) (w_request w)) as (w' & Hin' & _ & Er) by by apply Hw'.
    assert (w' = w) as ->; [|done]. eapply (NoDup_map_inj w_request); [apply (tb_requests _ Ht)| |done|done].
    rewrite Ew in Hin'. by apply elem_of_without in Hin' as [? _].
  - intros Hw Hs. rewrite Ed. apply elem_of_app. right.
    apply Hgone in Hw; [|done]. apply list_elem_of_fmap in Hw as (w' & -> & Hw'').
    apply list_elem_of_fmap. by exists w'.
Qed.
End Runs.

(** ** Samples *)

Definition sample_config : SessionConfig :=
  {| trust := operator; approvalPolicy := None;
     permissions := {| autoApprove := ["Read"]; requireApproval := []; deny := ["Bash"] |}; sc_rest := [] |}.

(** The user is asked about an edit and allows it, then a write waits. *)
Definition sample_events : list Event :=
  [ELaunch 0 "s" sample_config; EStarted 0; EAsk 0 "Edit" [] "r1" None 1; ERespond "s" "r1" BAllowAlways None;
   EAsk 0 "Write" [] "r2" None 2].

Definition no_message (t : Z) : string := "".
Notation sample_run := (run 300000 no_message sample_events).

Lemma sample_fresh : fresh_requests 300000 no_message sample_events.
Proof.
  intros i h tool input r reason now Hi. destruct i as [|[|[|[|[|i]]]]]; simpl in Hi; try discriminate Hi;
    injection Hi as <- <- <- <- <- <-; vm_compute; intros H; repeat (apply elem_of_cons in H as [H|H]; [discriminate|]);
    by apply elem_of_nil in H.
Qed.

Lemma call_permitted_witness :
  (0, Allow None) ∈ decided sample_run ∧ permitted 300000 no_message sample_events 0.
Proof.
  assert ((0, Allow None) ∈ decided sample_run) as H by (vm_compute; left).
  split; [exact H|]. exact (call_permitted 300000 no_message sample_events 0 None H).
Defined.

Lemma pending_listed_witness :
  ∃ d, d ∈ listPendingPermissions None sample_run ∧ pp_sessionId d = "s" ∧ pp_requestId d = "r2".
Proof.
  apply (pending_listed 300000 no_message sample_events None "s" "r2" sample_fresh ltac:(discriminate)).
  split; [|by left]. eexists. split; [vm_compute; left|split; reflexivity].
Defined.

Lemma session_end_releases_witness :
  (1, session_ended) ∈ decided (run 300000 no_message (sample_events ++ [EEnded "s"])).
Proof.
  apply (proj2 (session_end_releases 300000 no_message sample_events "s"
    {| w_call := 1; w_session := "s"; w_request := "r2" |} sample_fresh)); [vm_compute; left|reflexivity].
Defined.

(** *** Flaws *)

(** The list [deny] is not consulted in a session that is set to bypass. *)
Lemma denied_tool_runs :
  let events := [ELaunch 0 "s" sample_config; EStarted 0; EMode "s" bypass; EAsk 0 "Bash" [] "r" None 1] in
  "Bash" ∈ deny (permissions sample_config) ∧ (0, Allow None) ∈ decided (run 300000 no_message events).
Proof. split; [by left|]. vm_compute. left. Qed.
