(* ===== verification/Noise.v ===== *)
(** * Key exchange and envelopes of the daemon's relay bridge (packages/daemon/src/relay/
    bridge-noise-v3.ts, bridge-key-exchange.ts, bridge-crypto.ts, bridge-handshake-profile.ts)

    A browser and a daemon agree on a key through a relay that they do not trust, and
    exchange envelopes under it.  A buffer is a string of bytes; functions that throw
    return an option.  Class [Crypto] has the primitives of node:crypto and of Buffer;
    [CryptoLaws] what their documentation promises and the exchange relies on.  Random
    bytes and generated keys are arguments. *)

From S2P Require Import Prelude JsString JsMap Json JsonText.
From stdpp Require Import prelude strings list pretty.
From Stdlib Require Import ZArith Lia Ascii.

Class Crypto := {
  sha256 : string → string;
  hmac : string → string → string;                                        (* key, data *)
  hkdfSync : string → string → string → string;                           (* ikm, salt, info: 32 bytes *)
  aes_seal : string → string → string → string → string * string;             (* key, iv, aad, plaintext *)
  aes_open : string → string → string → string → string → option string;    (* key, iv, aad, body, tag *)
  valid_private : string → bool;                                          (* setPrivateKey accepts it *)
  p256_public : string → string;
  computeSecret : string → string → option string;                        (* private, public *)
  toBase64Url : string → string;
  fromBase64Url : string → string
}.

Class CryptoLaws `{Crypto} : Prop := {
  open_sealed : ∀ key iv aad p, let '(body, tag) := aes_seal key iv aad p in aes_open key iv aad body tag = Some p;
  sealed_tag : ∀ key iv aad p, String.length (aes_seal key iv aad p).2 = 16;
  ecdh_agree : ∀ a b, valid_private a = true → valid_private b = true →
    ∃ s, computeSecret a (p256_public b) = Some s ∧ computeSecret b (p256_public a) = Some s;
  p256_public_form : ∀ a, valid_private a = true →
    String.length (p256_public a) = 65 ∧ String.get 0 (p256_public a) = Some (byte_of 4);
  base64_round_trip : ∀ b, fromBase64Url (toBase64Url b) = b
}.

Inductive RelayHandshakeProfile := noise_ik | noise_ikpsk2.
#[export] Instance RelayHandshakeProfile_eq_dec : EqDecision RelayHandshakeProfile.
Proof. solve_decision. Defined.

Definition profile_name (p : RelayHandshakeProfile) : string :=
  match p with noise_ik => "noise-ik" | noise_ikpsk2 => "noise-ikpsk2" end.

Definition parseRelayHandshakeProfile (v : option json) : option RelayHandshakeProfile :=
  if is_str v "noise-ik" then Some noise_ik else if is_str v "noise-ikpsk2" then Some noise_ikpsk2 else None.

(** bridge-handshake-profile.ts *)
Definition profileStrength (p : RelayHandshakeProfile) : Z := match p with noise_ikpsk2 => 2 | noise_ik => 1 end.
Definition isCompatibleProfile (required requested : RelayHandshakeProfile) : bool :=
  (profileStrength required <=? profileStrength requested)%Z.

Definition zeros (n : nat) : string := String.string_of_list_ascii (replicate n (byte_of 0)).

Definition normalizeP256PrivateKey (raw : string) : option string :=
  let n := String.length raw in
  if (n =? 0)%nat || (32 <? n)%nat then None
  else if (n =? 32)%nat then Some raw else Some (zeros (32 - n) +:+ raw).

Record DaemonRelayIdentity := { publicKey : string; privateKey : string }.

(** [null, or not an object, or an array] *)
Definition as_record (v : json) : option record := match v with JObj f => Some f | _ => None end.

Definition psk_peer_missing (profile : RelayHandshakeProfile) (pairingPeerId : option string) : bool :=
  bool_decide (profile = noise_ikpsk2) &&
  (negb (truthy_opt pairingPeerId) || negb (nonblank (coalesce pairingPeerId ""))).

Record DerivedRelaySession := {
  ds_key : string; ds_profile : RelayHandshakeProfile; ds_sessionId : string; ds_epoch : Z
}.

Section Exchange.
Context `{Crypto}.
(** ** bridge-noise-v3.ts *)

Record InitFrameV3 := {
  i3_profile : RelayHandshakeProfile; i3_requestId : string; i3_clientEphemeralPublicKey : string;
  i3_encryptedClientStatic : string; i3_pairingPeerId : option string; i3_previousSessionId : option string
}.

Record ResponseFrameV3 := {
  r3_profile : RelayHandshakeProfile; r3_requestId : string; r3_daemonPublicKey : string;
  r3_daemonEphemeralPublicKey : string; r3_encryptedMetadata : string; r3_sessionId : string; r3_epoch : Z;
  r3_proof : string
}.

Record NoiseSymmetricState := { ck : string; h : string; k : option string; nonce : Z }.

Record NoiseV3InitState := {
  st_profile : RelayHandshakeProfile; st_requestId : string; st_daemonPublicKey : string;
  st_clientStaticPrivateKey : string; st_clientEphemeralPrivateKey : string; st_symmetric : NoiseSymmetricState
}.

Definition HASH_LEN : nat := 32.
Definition PROLOGUE : string := "viewport-relay-noise-v3".
Definition MAX_NONCE : Z := 18446744073709551615%Z.

Definition protocolNameFor (p : RelayHandshakeProfile) : string :=
  match p with
  | noise_ikpsk2 => "Noise_IKpsk2_P256_AESGCM_SHA256"
  | noise_ik => "Noise_IK_P256_AESGCM_SHA256"
  end.

Definition byte1 (n : nat) : string := String (byte_of n) "".

Definition hkdf2 (chainingKey ikm : string) : string * string :=
  let tempKey := hmac chainingKey ikm in
  let out1 := hmac tempKey (byte1 1) in
  (out1, hmac tempKey (out1 +:+ byte1 2)).
Definition hkdf3 (chainingKey ikm : string) : string * string * string :=
  let tempKey := hmac chainingKey ikm in
  let out1 := hmac tempKey (byte1 1) in
  let out2 := hmac tempKey (out1 +:+ byte1 2) in
  (out1, out2, hmac tempKey (out2 +:+ byte1 3)).

Definition initializeSymmetric (p : RelayHandshakeProfile) : NoiseSymmetricState :=
  let name := protocolNameFor p in
  let hash := if (String.length name <=? HASH_LEN)%nat then name +:+ zeros (HASH_LEN - String.length name)
              else sha256 name in
  {| ck := hash; h := hash; k := None; nonce := 0 |}.

Definition mixHash (data : string) (s : NoiseSymmetricState) : NoiseSymmetricState :=
  {| ck := ck s; h := sha256 (h s +:+ data); k := k s; nonce := nonce s |}.
Definition mixKey (ikm : string) (s : NoiseSymmetricState) : NoiseSymmetricState :=
  let '(ck', key) := hkdf2 (ck s) ikm in {| ck := ck'; h := h s; k := Some key; nonce := 0 |}.
Definition mixKeyAndHash (ikm : string) (s : NoiseSymmetricState) : NoiseSymmetricState :=
  let '(ck', tempHash, key) := hkdf3 (ck s) ikm in
  {| ck := ck'; h := sha256 (h s +:+ tempHash); k := Some key; nonce := 0 |}.

(** Eight bytes, the least significant first. *)
Fixpoint le_bytes (n : nat) (z : Z) : string :=
  match n with
  | O => ""
  | S n => String (byte_of (Z.to_nat (z mod 256))) (le_bytes n (z / 256)%Z)
  end.
Definition nonceToIv (nonce : Z) : option string :=
  if (nonce <? 0)%Z || (MAX_NONCE <? nonce)%Z then None else Some (zeros 4 +:+ le_bytes 8 nonce).

Definition encryptWithAd (key : string) (nonce : Z) (ad plaintext : string) : option string :=
  iv ← nonceToIv nonce; let '(body, tag) := aes_seal key iv ad plaintext in Some (body +:+ tag).
Definition decryptWithAd (key : string) (nonce : Z) (ad ciphertext : string) : option string :=
  let n := String.length ciphertext in
  if (n <? 16)%nat then None else
  iv ← nonceToIv nonce;
  aes_open key iv ad (String.substring 0 (n - 16) ciphertext) (String.substring (n - 16) 16 ciphertext).

Definition next_nonce (s : NoiseSymmetricState) : NoiseSymmetricState :=
  {| ck := ck s; h := h s; k := k s; nonce := nonce s + 1 |}.

(** A key that is null: an empty buffer is an object, and truthy. *)
Definition encryptAndHash (plaintext : string) (s : NoiseSymmetricState) : option (string * NoiseSymmetricState) :=
  match k s with
  | None => Some (plaintext, mixHash plaintext s)
  | Some key =>
      ciphertext ← encryptWithAd key (nonce s) (h s) plaintext;
      Some (ciphertext, next_nonce (mixHash ciphertext s))
  end.
Definition decryptAndHash (ciphertext : string) (s : NoiseSymmetricState) : option (string * NoiseSymmetricState) :=
  match k s with
  | None => Some (ciphertext, mixHash ciphertext s)
  | Some key =>
      plaintext ← decryptWithAd key (nonce s) (h s) ciphertext;
      Some (plaintext, next_nonce (mixHash ciphertext s))
  end.

Definition pad (n : nat) (b : string) : string := b +:+ zeros (n - String.length b).
Definition timingSafeEqualBase64Url (left right : string) : bool :=
  let l := fromBase64Url left in
  let r := fromBase64Url right in
  let n := Nat.max (Nat.max (String.length l) (String.length r)) 1 in
  String.eqb (pad n l) (pad n r) && (String.length l =? String.length r)%nat.

Definition deriveSessionKeyV3 (s : NoiseSymmetricState) (p : RelayHandshakeProfile) (sessionId : string) (epoch : Z) : string :=
  let '(k1, k2) := hkdf2 (ck s) "" in
  hkdfSync (k1 +:+ k2) (h s)
    ("viewport-relay-session-v3|" +:+ profile_name p +:+ "|" +:+ sessionId +:+ "|" +:+ pretty epoch).

Definition validatePublicKey (raw : string) : option unit :=
  if negb (String.length raw =? 65)%nat || negb (bool_decide (String.get 0 raw = Some (byte_of 4))) then None else Some ().

Definition initializeHandshakeState (p : RelayHandshakeProfile) (daemonPublicKeyRaw : string) : NoiseSymmetricState :=
  mixHash daemonPublicKeyRaw (mixHash PROLOGUE (initializeSymmetric p)).

(** [JSON.stringify({ sessionId, epoch })] *)
Definition metadata (sessionId : string) (epoch : Z) : string :=
  stringify_record [("sessionId", SStr sessionId); ("epoch", SInt (Z.to_pos epoch))].
Definition parseMetadata (value : string) : option (string * Z) :=
  parsed ← JSON_parse value;
  f ← as_record parsed;
  sessionId ← as_string (field f "sessionId");
  epoch ← as_int (field f "epoch");
  if (epoch <? 1)%Z then None else Some (sessionId, epoch).

Definition parseRelayKeyExchangeInitFrameV3 (v : json) : option InitFrameV3 :=
  f ← as_record v;
  if negb (is_str (field f "type") "relay_key_exchange_init") || negb (is_int (field f "version") 3) then None else
  profile ← parseRelayHandshakeProfile (field f "profile");
  requestId ← as_string (field f "requestId");
  clientEphemeralPublicKey ← as_string (field f "clientEphemeralPublicKey");
  encryptedClientStatic ← as_string (field f "encryptedClientStatic");
  let pairingPeerId := as_string (field f "pairingPeerId") in
  if psk_peer_missing profile pairingPeerId then None else
  Some {| i3_profile := profile; i3_requestId := requestId; i3_clientEphemeralPublicKey := clientEphemeralPublicKey;
          i3_encryptedClientStatic := encryptedClientStatic; i3_pairingPeerId := pairingPeerId;
          i3_previousSessionId := as_string (field f "previousSessionId") |}.

(** The browser: the first message, and what it keeps. *)
Definition createNoiseV3Init (profile : RelayHandshakeProfile) (daemonPublicKey : string) (pairingPeerId : option string)
    (requestId : string) (previousSessionId pairingSecret : option string)
    (clientStaticPrivateKey clientEphemeralPrivateKey : string) : option (InitFrameV3 * NoiseV3InitState) :=
  if bool_decide (profile = noise_ikpsk2) && bool_decide (pairingSecret = None) then None else
  let daemonPublicKeyRaw := fromBase64Url daemonPublicKey in
  _ ← validatePublicKey daemonPublicKeyRaw;
  if negb (valid_private clientStaticPrivateKey) || negb (valid_private clientEphemeralPrivateKey) then None else
  let staticPublic := p256_public clientStaticPrivateKey in
  let ephemeralPublic := p256_public clientEphemeralPrivateKey in
  _ ← validatePublicKey staticPublic;
  _ ← validatePublicKey ephemeralPublic;
  let s := mixHash ephemeralPublic (initializeHandshakeState profile daemonPublicKeyRaw) in
  es ← computeSecret clientEphemeralPrivateKey daemonPublicKeyRaw;
  '(encryptedClientStatic, s) ← encryptAndHash staticPublic (mixKey es s);
  ss ← computeSecret clientStaticPrivateKey daemonPublicKeyRaw;
  let s := mixKey ss s in
  if bool_decide (profile = noise_ikpsk2) && negb (String.length (coalesce pairingSecret "") =? 32)%nat then None else
  Some ({| i3_profile := profile; i3_requestId := requestId;
           i3_clientEphemeralPublicKey := toBase64Url ephemeralPublic;
           i3_encryptedClientStatic := toBase64Url encryptedClientStatic;
           i3_pairingPeerId := pairingPeerId; i3_previousSessionId := previousSessionId |},
        {| st_profile := profile; st_requestId := requestId; st_daemonPublicKey := daemonPublicKey;
           st_clientStaticPrivateKey := clientStaticPrivateKey;
           st_clientEphemeralPrivateKey := clientEphemeralPrivateKey; st_symmetric := s |}).

Definition psk_length_wrong (profile : RelayHandshakeProfile) (pairingSecret : option string) : bool :=
  bool_decide (profile = noise_ikpsk2) &&
  match pairingSecret with None => true | Some s => negb (String.length s =? 32)%nat end.

Definition mix_psk (profile : RelayHandshakeProfile) (pairingSecret : option string) (s : NoiseSymmetricState) :
    NoiseSymmetricState :=
  match profile, pairingSecret with noise_ikpsk2, Some secret => mixKeyAndHash secret s | _, _ => s end.

(** The daemon. *)
Definition deriveNoiseV3SessionFromInit (init : InitFrameV3) (daemonIdentity : DaemonRelayIdentity) (nextEpoch : Z)
    (pairingSecret : option string) (daemonEphemeralPrivateKey sessionId : string) :
    option (DerivedRelaySession * ResponseFrameV3) :=
  let daemonPublicKeyRaw := fromBase64Url (publicKey daemonIdentity) in
  _ ← validatePublicKey daemonPublicKeyRaw;
  daemonPrivateKeyRaw ← normalizeP256PrivateKey (fromBase64Url (privateKey daemonIdentity));
  if psk_length_wrong (i3_profile init) pairingSecret then None else
  let clientEphemeralPublicKeyRaw := fromBase64Url (i3_clientEphemeralPublicKey init) in
  _ ← validatePublicKey clientEphemeralPublicKeyRaw;
  let s := mixHash clientEphemeralPublicKeyRaw (initializeHandshakeState (i3_profile init) daemonPublicKeyRaw) in
  es ← computeSecret daemonPrivateKeyRaw clientEphemeralPublicKeyRaw;
  '(clientStaticPublicKeyRaw, s) ← decryptAndHash (fromBase64Url (i3_encryptedClientStatic init)) (mixKey es s);
  _ ← validatePublicKey clientStaticPublicKeyRaw;
  ss ← computeSecret daemonPrivateKeyRaw clientStaticPublicKeyRaw;
  let s := mixKey ss s in
  if negb (valid_private daemonEphemeralPrivateKey) then None else
  let ephemeralPublic := p256_public daemonEphemeralPrivateKey in
  _ ← validatePublicKey ephemeralPublic;
  let s := mixHash ephemeralPublic s in
  ee ← computeSecret daemonEphemeralPrivateKey clientEphemeralPublicKeyRaw;
  se ← computeSecret daemonEphemeralPrivateKey clientStaticPublicKeyRaw;
  let s := mix_psk (i3_profile init) pairingSecret (mixKey se (mixKey ee s)) in
  let epoch := Z.max 1 nextEpoch in
  '(encryptedMetadata, s) ← encryptAndHash (metadata sessionId epoch) s;
  Some ({| ds_key := deriveSessionKeyV3 s (i3_profile init) sessionId epoch; ds_profile := i3_profile init;
           ds_sessionId := sessionId; ds_epoch := epoch |},
        {| r3_profile := i3_profile init; r3_requestId := i3_requestId init;
           r3_daemonPublicKey := publicKey daemonIdentity;
           r3_daemonEphemeralPublicKey := toBase64Url ephemeralPublic;
           r3_encryptedMetadata := toBase64Url encryptedMetadata; r3_sessionId := sessionId; r3_epoch := epoch;
           r3_proof := toBase64Url (h s) |}).

(** The browser again. *)
Definition finalizeNoiseV3Response (state : NoiseV3InitState) (response : ResponseFrameV3) (pairingSecret : option string) :
    option DerivedRelaySession :=
  if negb (String.eqb (r3_requestId response) (st_requestId state)) then None
  else if negb (bool_decide (r3_profile response = st_profile state)) then None
  else if psk_length_wrong (st_profile state) pairingSecret then None else
  _ ← validatePublicKey (fromBase64Url (st_daemonPublicKey state));
  let daemonEphemeralPublicKeyRaw := fromBase64Url (r3_daemonEphemeralPublicKey response) in
  _ ← validatePublicKey daemonEphemeralPublicKeyRaw;
  let s := mixHash daemonEphemeralPublicKeyRaw (st_symmetric state) in
  ee ← computeSecret (st_clientEphemeralPrivateKey state) daemonEphemeralPublicKeyRaw;
  se ← computeSecret (st_clientStaticPrivateKey state) daemonEphemeralPublicKeyRaw;
  let s := mix_psk (st_profile state) pairingSecret (mixKey se (mixKey ee s)) in
  '(metadataRaw, s) ← decryptAndHash (fromBase64Url (r3_encryptedMetadata response)) s;
  '(sessionId, epoch) ← parseMetadata metadataRaw;
  if negb (String.eqb sessionId (r3_sessionId response)) || negb (epoch =? r3_epoch response)%Z then None
  else if negb (timingSafeEqualBase64Url (toBase64Url (h s)) (r3_proof response)) then None else
  Some {| ds_key := deriveSessionKeyV3 s (r3_profile response) (r3_sessionId response) (r3_epoch response);
          ds_profile := r3_profile response; ds_sessionId := r3_sessionId response; ds_epoch := r3_epoch response |}.

(** A response of version 3. *)
Definition isRelayKeyExchangeResponseFrameV3 (v : json) : bool :=
  match as_record v with
  | None => false
  | Some f =>
      is_str (field f "type") "relay_key_exchange_response" && is_int (field f "version") 3 &&
      (is_str (field f "profile") "noise-ik" || is_str (field f "profile") "noise-ikpsk2") &&
      is_string (field f "requestId") && is_string (field f "daemonPublicKey") &&
      is_string (field f "daemonEphemeralPublicKey") && is_string (field f "encryptedMetadata") &&
      is_string (field f "sessionId") && is_int_ge (field f "epoch") 1 && is_string (field f "proof")
  end.

(** ** bridge-key-exchange.ts: version 2 *)

Record InitFrameV2 := {
  i2_profile : RelayHandshakeProfile; i2_requestId : string; i2_clientPublicKey : string; i2_clientNonce : string;
  i2_clientProof : string; i2_pairingPeerId : option string; i2_previousSessionId : option string
}.

Record ResponseFrameV2 := {
  r2_profile : RelayHandshakeProfile; r2_requestId : string; r2_daemonPublicKey : string; r2_daemonNonce : string;
  r2_sessionId : string; r2_epoch : Z; r2_proof : string
}.

Definition toSessionInfo (profile : RelayHandshakeProfile) (sessionId : string) (epoch : Z) : string :=
  "viewport-relay-session-v2|" +:+ profile_name profile +:+ "|" +:+ sessionId +:+ "|" +:+ pretty epoch.

Definition toTranscript (profile : RelayHandshakeProfile)
    (requestId clientPublicKey daemonPublicKey clientNonce daemonNonce sessionId : string) (epoch : Z) : string :=
  JsString.join "|" ["viewport-relay-transcript-v2"; requestId; profile_name profile; clientPublicKey; daemonPublicKey;
            clientNonce; daemonNonce; sessionId; pretty epoch].

Definition key_material (profile : RelayHandshakeProfile) (sharedSecret : string) (pairingSecret : option string) : string :=
  match profile, pairingSecret with noise_ikpsk2, Some secret => sharedSecret +:+ secret | _, _ => sharedSecret end.

Definition deriveSessionKey (profile : RelayHandshakeProfile) (sharedSecret clientNonce daemonNonce sessionId : string)
    (epoch : Z) (pairingSecret : option string) : string :=
  hkdfSync (key_material profile sharedSecret pairingSecret) (clientNonce +:+ daemonNonce)
    (toSessionInfo profile sessionId epoch).

Definition subarray16 (b : string) : string := String.substring 0 16 b.
Definition computeProof (sessionKey transcript : string) : string := subarray16 (hmac sessionKey transcript).

Definition toInitInfo (profile : RelayHandshakeProfile) (requestId clientPublicKey daemonPublicKey clientNonce : string)
    (previousSessionId : option string) : string :=
  JsString.join "|" ["viewport-relay-kex-init-v1"; requestId; profile_name profile; clientPublicKey; daemonPublicKey;
            clientNonce; coalesce previousSessionId ""].

Definition computeClientInitProof (profile : RelayHandshakeProfile) (sharedSecret clientNonce requestId clientPublicKey
    daemonPublicKey clientNonceEncoded : string) (previousSessionId pairingSecret : option string) : string :=
  let initKey := hkdfSync (key_material profile sharedSecret pairingSecret) clientNonce
    (toInitInfo profile requestId clientPublicKey daemonPublicKey clientNonceEncoded previousSessionId) in
  subarray16 (hmac initKey "client-proof").

Definition parseRelayKeyExchangeInitFrame (v : json) : option InitFrameV2 :=
  f ← as_record v;
  profile ← parseRelayHandshakeProfile (field f "profile");
  if negb (is_str (field f "type") "relay_key_exchange_init") || negb (is_int (field f "version") 2) then None else
  requestId ← as_string (field f "requestId");
  clientPublicKey ← as_string (field f "clientPublicKey");
  clientNonce ← as_string (field f "clientNonce");
  clientProof ← as_string (field f "clientProof");
  let pairingPeerId := as_string (field f "pairingPeerId") in
  if psk_peer_missing profile pairingPeerId then None else
  Some {| i2_profile := profile; i2_requestId := requestId; i2_clientPublicKey := clientPublicKey;
          i2_clientNonce := clientNonce; i2_clientProof := clientProof; i2_pairingPeerId := pairingPeerId;
          i2_previousSessionId := as_string (field f "previousSessionId") |}.

Definition nonce_length_ok (n : string) : bool := (12 <=? String.length n)%nat && (String.length n <=? 32)%nat.

(** The daemon.  An empty buffer is an object, so a secret given is truthy. *)
Definition deriveSessionFromKeyExchange (init : InitFrameV2) (daemonIdentity : DaemonRelayIdentity) (nextEpoch : Z)
    (pairingSecret : option string) (daemonNonce sessionId : string) : option (DerivedRelaySession * ResponseFrameV2) :=
  let profile := i2_profile init in
  let clientPublic := fromBase64Url (i2_clientPublicKey init) in
  _ ← validatePublicKey clientPublic;
  let clientNonce := fromBase64Url (i2_clientNonce init) in
  if negb (nonce_length_ok clientNonce) then None else
  daemonPrivate ← normalizeP256PrivateKey (fromBase64Url (privateKey daemonIdentity));
  if bool_decide (profile = noise_ikpsk2) && bool_decide (pairingSecret = None) then None
  else if negb (String.length daemonNonce =? 16)%nat || negb (nonblank sessionId) then None else
  let epoch := Z.max 1 nextEpoch in
  sharedSecret ← computeSecret daemonPrivate clientPublic;
  let expectedClientProof := computeClientInitProof profile sharedSecret clientNonce (i2_requestId init)
    (i2_clientPublicKey init) (publicKey daemonIdentity) (i2_clientNonce init) (i2_previousSessionId init) pairingSecret in
  if negb (String.eqb (fromBase64Url (i2_clientProof init)) expectedClientProof) then None else
  let sessionKey := deriveSessionKey profile sharedSecret clientNonce daemonNonce sessionId epoch pairingSecret in
  let daemonNonceEncoded := toBase64Url daemonNonce in
  let proof := computeProof sessionKey (toTranscript profile (i2_requestId init) (i2_clientPublicKey init)
    (publicKey daemonIdentity) (i2_clientNonce init) daemonNonceEncoded sessionId epoch) in
  Some ({| ds_key := sessionKey; ds_profile := profile; ds_sessionId := sessionId; ds_epoch := epoch |},
        {| r2_profile := profile; r2_requestId := i2_requestId init; r2_daemonPublicKey := publicKey daemonIdentity;
           r2_daemonNonce := daemonNonceEncoded; r2_sessionId := sessionId; r2_epoch := epoch;
           r2_proof := toBase64Url proof |}).

(** ** bridge-crypto.ts: envelopes *)

Record RelayEnvelopeV2 := {
  e_profile : RelayHandshakeProfile; e_sessionId : string; e_epoch : Z; e_seq : Z;
  e_iv : string; e_tag : string; e_ciphertext : string
}.

Definition toEnvelopeAad (profile : RelayHandshakeProfile) (sessionId : string) (epoch seq : Z) : string :=
  "viewport-relay-envelope-v2|" +:+ profile_name profile +:+ "|" +:+ sessionId +:+ "|" +:+ pretty epoch +:+ "|" +:+ pretty seq.

Definition parseRelayEnvelope (raw : string) : option RelayEnvelopeV2 :=
  parsed ← JSON_parse raw;
  f ← as_record parsed;
  if negb (is_str (field f "type") "e2ee") || negb (is_int (field f "version") 2) then None else
  profile ← parseRelayHandshakeProfile (field f "profile");
  sessionId ← as_string (field f "sessionId");
  if negb (nonblank sessionId) then None else
  epoch ← as_int (field f "epoch");
  if (epoch <? 1)%Z then None else
  seq ← as_int (field f "seq");
  if (seq <? 1)%Z then None else
  iv ← as_string (field f "iv");
  tag ← as_string (field f "tag");
  ciphertext ← as_string (field f "ciphertext");
  Some {| e_profile := profile; e_sessionId := sessionId; e_epoch := epoch; e_seq := seq;
          e_iv := iv; e_tag := tag; e_ciphertext := ciphertext |}.

Definition envelope_text (e : RelayEnvelopeV2) : string :=
  stringify_record [
    ("type", SStr "e2ee"); ("version", SInt 2); ("profile", SStr (profile_name (e_profile e)));
    ("sessionId", SStr (e_sessionId e)); ("epoch", SInt (Z.to_pos (e_epoch e))); ("seq", SInt (Z.to_pos (e_seq e)));
    ("iv", SStr (e_iv e)); ("tag", SStr (e_tag e)); ("ciphertext", SStr (e_ciphertext e))].

Definition encryptEnvelope (iv key plaintext : string) (profile : RelayHandshakeProfile) (sessionId : string)
    (epoch seq : Z) : string :=
  let '(ciphertext, tag) := aes_seal key iv (toEnvelopeAad profile sessionId epoch seq) plaintext in
  envelope_text {| e_profile := profile; e_sessionId := sessionId; e_epoch := epoch; e_seq := seq;
                   e_iv := toBase64Url iv; e_tag := toBase64Url tag; e_ciphertext := toBase64Url ciphertext |}.

Definition decryptEnvelope (key : string) (e : RelayEnvelopeV2) : option string :=
  aes_open key (fromBase64Url (e_iv e)) (toEnvelopeAad (e_profile e) (e_sessionId e) (e_epoch e) (e_seq e))
    (fromBase64Url (e_ciphertext e)) (fromBase64Url (e_tag e)).
End Exchange.
