(* ===== verification/NoiseProps.v ===== *)
(** * The handshake and the envelopes of the relay bridge: properties

    Both sides of a handshake derive the same session, and what one side encrypts the
    other reads, through [JSON.stringify] and [JSON.parse]. *)

From S2P Require Import Prelude JsString JsMap Json JsonText Noise.
From stdpp Require Import prelude strings list pretty.
From Stdlib Require Import ZArith Lia Ascii.

Lemma length_append a b : String.length (a +:+ b) = String.length a + String.length b.
Proof. induction a; simpl; auto. Qed.
Lemma substring_left a b : String.substring 0 (String.length a) (a +:+ b) = a.
Proof. induction a as [|c a IH]; simpl; [by destruct b|]. by f_equal. Qed.
Lemma substring_right a b : String.substring (String.length a) (String.length b) (a +:+ b) = b.
Proof. induction a as [|c a IH]; simpl; [apply substring_all|done]. Qed.

Lemma parse_profile_name p : parseRelayHandshakeProfile (Some (JStr (profile_name p))) = Some p.
Proof. by destruct p. Qed.

Lemma safe_pos z : safe z → Zpos (Z.to_pos z) = z.
Proof. intros [? ?]. apply Z2Pos.id. lia. Qed.

(** Looks fields up by literal keys. *)
Ltac literal_keys := repeat first [rewrite decide_True by done | rewrite decide_False by done].

Ltac short_fields :=
  repeat (apply List.Forall_cons || apply List.Forall_nil); cbn [snd]; try exact I; apply short_safe; by rewrite ?safe_pos.

Section NoiseProps.
Context `{CryptoLaws}.

Lemma from_to_base64 b : fromBase64Url (toBase64Url b) = b.
Proof. apply base64_round_trip. Qed.

Lemma valid_public a : valid_private a = true → validatePublicKey (p256_public a) = Some ().
Proof.
  intros Ha. destruct (p256_public_form a Ha) as [L G]. unfold validatePublicKey. rewrite L, G.
  by rewrite bool_decide_eq_true_2.
Qed.

Lemma agree a b : valid_private a = true → valid_private b = true →
  ∃ s, computeSecret a (p256_public b) = Some s ∧ computeSecret b (p256_public a) = Some s.
Proof. apply ecdh_agree. Qed.

(** ** One message under a cipher state *)

Lemma encrypt_decrypt key n ad p : nonceToIv n ≠ None →
  ∃ c, encryptWithAd key n ad p = Some c ∧ decryptWithAd key n ad c = Some p.
Proof.
  unfold encryptWithAd, decryptWithAd. destruct (nonceToIv n) as [iv|]; [|done]. intros _. cbn [mbind option_bind].
  pose proof (open_sealed key iv ad p) as Hu. pose proof (sealed_tag key iv ad p) as Ht.
  destruct (aes_seal key iv ad p) as [body tag]. simpl in Ht. exists (body +:+ tag). split; [done|].
  rewrite length_append, Ht. rewrite (proj2 (Nat.ltb_ge _ _)) by lia.
  replace (String.length body + 16 - 16) with (String.length body) by lia.
  rewrite <- Ht, substring_left, substring_right. done.
Qed.

Lemma message_agrees p s : nonce s = 0%Z →
  ∃ c s', encryptAndHash p s = Some (c, s') ∧ decryptAndHash c s = Some (p, s').
Proof.
  intros Hn. unfold encryptAndHash, decryptAndHash. destruct (k s) as [key|]; [|by eexists _, _].
  destruct (encrypt_decrypt key (nonce s) (h s) p) as (c & -> & Hd); [by rewrite Hn|]. simpl.
  eexists c, _. rewrite Hd. done.
Qed.

Lemma nonce_mixKey ikm s : nonce (mixKey ikm s) = 0%Z.
Proof. done. Qed.
Lemma nonce_mixKeyAndHash ikm s : nonce (mixKeyAndHash ikm s) = 0%Z.
Proof. done. Qed.
Lemma nonce_mix_psk profile psk s : nonce s = 0%Z → nonce (mix_psk profile psk s) = 0%Z.
Proof. by destruct profile, psk. Qed.

(** ** Metadata *)

Lemma parse_metadata sid epoch : safe epoch → parseMetadata (metadata sid epoch) = Some (sid, epoch).
Proof.
  intros He. unfold parseMetadata, metadata. rewrite parse_stringify.
  - cbn -[num_of_Z num_to_Z Z.ltb]. rewrite safe_pos by done. literal_keys.
    cbn -[num_of_Z num_to_Z Z.ltb]. rewrite num_safe by done. cbn [mbind option_bind].
    rewrite (proj2 (Z.ltb_ge _ _)) by (destruct He; lia). done.
  - short_fields.
  - simpl. apply NoDup_cons; split; [by intros ?%list_elem_of_singleton|]. apply NoDup_singleton.
Qed.

Lemma proof_matches x : timingSafeEqualBase64Url (toBase64Url x) (toBase64Url x) = true.
Proof. unfold timingSafeEqualBase64Url. rewrite from_to_base64, String.eqb_refl, Nat.eqb_refl. done. Qed.

(** ** The handshake *)

Definition identity_of (d : string) : DaemonRelayIdentity :=
  {| publicKey := toBase64Url (p256_public d); privateKey := toBase64Url d |}.

(** The secrets the two sides hold suit the profile. *)
Definition psk_ok (profile : RelayHandshakeProfile) (psk : option string) : Prop :=
  profile = noise_ikpsk2 → ∃ s, psk = Some s ∧ String.length s = 32.

Lemma psk_ok_length profile psk : psk_ok profile psk → psk_length_wrong profile psk = false.
Proof.
  unfold psk_length_wrong. destruct profile; [done|]. intros (s & -> & E); [done|]. by rewrite E.
Qed.

(** The symmetric state both sides reach after the first message. *)
Definition after_init (profile : RelayHandshakeProfile) (d cs ce c1 : string) (s1 : NoiseSymmetricState) : Prop :=
  ∃ es ss s0, computeSecret ce (p256_public d) = Some es ∧ computeSecret d (p256_public ce) = Some es ∧
    computeSecret cs (p256_public d) = Some ss ∧ computeSecret d (p256_public cs) = Some ss ∧
    s0 = mixKey es (mixHash (p256_public ce) (initializeHandshakeState profile (p256_public d))) ∧
    ∃ s0', encryptAndHash (p256_public cs) s0 = Some (c1, s0') ∧ decryptAndHash c1 s0 = Some (p256_public cs, s0') ∧
      s1 = mixKey ss s0'.

Lemma create_spec profile d cs ce peer rid prev psk :
  valid_private d = true → valid_private cs = true → valid_private ce = true → psk_ok profile psk →
  ∃ c1 s1, after_init profile d cs ce c1 s1 ∧
    createNoiseV3Init profile (toBase64Url (p256_public d)) peer rid prev psk cs ce =
    Some ({| i3_profile := profile; i3_requestId := rid; i3_clientEphemeralPublicKey := toBase64Url (p256_public ce);
             i3_encryptedClientStatic := toBase64Url c1; i3_pairingPeerId := peer; i3_previousSessionId := prev |},
          {| st_profile := profile; st_requestId := rid; st_daemonPublicKey := toBase64Url (p256_public d);
             st_clientStaticPrivateKey := cs; st_clientEphemeralPrivateKey := ce; st_symmetric := s1 |}).
Proof.
  intros Hd Hs He Hpsk.
  destruct (agree ce d He Hd) as (es & Es & Es'). destruct (agree cs d Hs Hd) as (ss & Ss & Ss').
  set (s0 := mixKey es (mixHash (p256_public ce) (initializeHandshakeState profile (p256_public d)))).
  destruct (message_agrees (p256_public cs) s0 (nonce_mixKey _ _)) as (c1 & s0' & Ee & Ed).
  exists c1, (mixKey ss s0'). split; [exists es, ss, s0; naive_solver|].
  unfold createNoiseV3Init. rewrite !from_to_base64, !valid_public, Hs, He, Es by done. cbn [mbind option_bind].
  fold s0. rewrite Ee. cbn [mbind option_bind]. rewrite Ss. cbn [mbind option_bind].
  destruct profile; [done|]. destruct Hpsk as (p & -> & Hp); [done|]. simpl. by rewrite Hp.
Qed.

Lemma derive_spec profile d cs ce c1 s1 e peer rid prev psk nextEpoch sid :
  after_init profile d cs ce c1 s1 → valid_private d = true → String.length d = 32 → valid_private cs = true →
  valid_private ce = true → valid_private e = true → psk_ok profile psk →
  ∃ ee se c2 s2, computeSecret ce (p256_public e) = Some ee ∧ computeSecret cs (p256_public e) = Some se ∧
    let epoch := Z.max 1 nextEpoch in
    let s := mix_psk profile psk (mixKey se (mixKey ee (mixHash (p256_public e) s1))) in
    encryptAndHash (metadata sid epoch) s = Some (c2, s2) ∧ decryptAndHash c2 s = Some (metadata sid epoch, s2) ∧
    deriveNoiseV3SessionFromInit
      {| i3_profile := profile; i3_requestId := rid; i3_clientEphemeralPublicKey := toBase64Url (p256_public ce);
         i3_encryptedClientStatic := toBase64Url c1; i3_pairingPeerId := peer; i3_previousSessionId := prev |}
      (identity_of d) nextEpoch psk e sid =
    Some ({| ds_key := deriveSessionKeyV3 s2 profile sid epoch; ds_profile := profile; ds_sessionId := sid; ds_epoch := epoch |},
          {| r3_profile := profile; r3_requestId := rid; r3_daemonPublicKey := toBase64Url (p256_public d);
             r3_daemonEphemeralPublicKey := toBase64Url (p256_public e); r3_encryptedMetadata := toBase64Url c2;
             r3_sessionId := sid; r3_epoch := epoch; r3_proof := toBase64Url (h s2) |}).
Proof.
  intros (es & ss & s0 & Es & Es' & Ss & Ss' & Es0 & s0' & Ee & Ed & ->) Hd Hlen Hs He Heph Hpsk.
  destruct (agree ce e He Heph) as (ee & E1 & E1'). destruct (agree cs e Hs Heph) as (se & E2 & E2').
  exists ee, se.
  edestruct (message_agrees (metadata sid (Z.max 1 nextEpoch))
    (mix_psk profile psk (mixKey se (mixKey ee (mixHash (p256_public e) (mixKey ss s0')))))) as (c2 & s2 & M1 & M2);
    [by apply nonce_mix_psk|].
  exists c2, s2. do 4 (split; [done|]).
  unfold deriveNoiseV3SessionFromInit. cbn [publicKey privateKey identity_of i3_profile i3_requestId
    i3_clientEphemeralPublicKey i3_encryptedClientStatic]. rewrite !from_to_base64, !valid_public by done.
  cbn [mbind option_bind]. unfold normalizeP256PrivateKey. rewrite Hlen. cbn [Nat.eqb Nat.ltb Nat.leb orb mbind option_bind].
  rewrite psk_ok_length, Es' by done. cbn [mbind option_bind]. rewrite <- Es0, Ed. cbn [mbind option_bind].
  rewrite !valid_public, Ss' by done. cbn [mbind option_bind]. rewrite Heph, ?valid_public, E1', E2' by done.
  cbn [negb mbind option_bind]. rewrite M1. done.
Qed.

Lemma finalize_spec profile d cs ce e s1 c2 s2 ee se rid psk sid epoch :
  valid_private d = true → valid_private e = true → psk_ok profile psk → safe epoch →
  computeSecret ce (p256_public e) = Some ee → computeSecret cs (p256_public e) = Some se →
  decryptAndHash c2 (mix_psk profile psk (mixKey se (mixKey ee (mixHash (p256_public e) s1)))) = Some (metadata sid epoch, s2) →
  finalizeNoiseV3Response
    {| st_profile := profile; st_requestId := rid; st_daemonPublicKey := toBase64Url (p256_public d);
       st_clientStaticPrivateKey := cs; st_clientEphemeralPrivateKey := ce; st_symmetric := s1 |}
    {| r3_profile := profile; r3_requestId := rid; r3_daemonPublicKey := toBase64Url (p256_public d);
       r3_daemonEphemeralPublicKey := toBase64Url (p256_public e); r3_encryptedMetadata := toBase64Url c2;
       r3_sessionId := sid; r3_epoch := epoch; r3_proof := toBase64Url (h s2) |} psk =
  Some {| ds_key := deriveSessionKeyV3 s2 profile sid epoch; ds_profile := profile; ds_sessionId := sid; ds_epoch := epoch |}.
Proof.
  intros Hd Heph Hpsk Hsafe E1 E2 M. unfold finalizeNoiseV3Response. cbn -[mix_psk mixKey mixHash decryptAndHash
    String.eqb parseMetadata timingSafeEqualBase64Url psk_length_wrong validatePublicKey].
  rewrite String.eqb_refl, bool_decide_eq_true_2 by done. cbn [negb].
  rewrite psk_ok_length, !from_to_base64, !valid_public, E1 by done. cbn [mbind option_bind]. rewrite E2.
  cbn [mbind option_bind]. rewrite M. cbn [mbind option_bind]. rewrite parse_metadata by done. cbn [mbind option_bind].
  by rewrite String.eqb_refl, Z.eqb_refl, proof_matches.
Qed.

(** C24: A browser and a daemon that follow protocol version 3 agree: for every pair of
    valid keys, with the shared pairing secret when the profile asks for one, the
    browser can create its first message, the daemon derives a session from it, and
    the browser accepts the daemon's response and derives the very same session: key,
    profile, session id and epoch. *)
Theorem handshake_agrees profile d cs ce e peer rid prev psk nextEpoch sid :
  valid_private d = true → String.length d = 32 → valid_private cs = true → valid_private ce = true →
  valid_private e = true → psk_ok profile psk → safe (Z.max 1 nextEpoch) →
  ∃ init st session response,
    createNoiseV3Init profile (publicKey (identity_of d)) peer rid prev psk cs ce = Some (init, st) ∧
    deriveNoiseV3SessionFromInit init (identity_of d) nextEpoch psk e sid = Some (session, response) ∧
    finalizeNoiseV3Response st response psk = Some session ∧
    ds_sessionId session = sid ∧ ds_epoch session = Z.max 1 nextEpoch ∧ ds_profile session = profile.
Proof.
  intros Hd Hlen Hs He Heph Hpsk Hsafe.
  destruct (create_spec profile d cs ce peer rid prev psk Hd Hs He Hpsk) as (c1 & s1 & Ha & Hc).
  destruct (derive_spec profile d cs ce c1 s1 e peer rid prev psk nextEpoch sid) as
    (ee & se & c2 & s2 & E1 & E2 & M1 & M2 & Hr); try done.
  eexists _, _, _, _. split; [exact Hc|]. split; [exact Hr|].
  split; [by eapply finalize_spec|done].
Qed.

(** ** Envelopes *)

(** What one side encrypts, the other reads: the text [encryptEnvelope] produces
    parses as an envelope with the session, profile, epoch and sequence number it was
    given, and decrypts to the plaintext under the same key. *)
Theorem envelope_roundtrip iv key plaintext profile sid epoch seq :
  nonblank sid = true → safe epoch → safe seq →
  ∃ e, parseRelayEnvelope (encryptEnvelope iv key plaintext profile sid epoch seq) = Some e ∧
    e_profile e = profile ∧ e_sessionId e = sid ∧ e_epoch e = epoch ∧ e_seq e = seq ∧
    decryptEnvelope key e = Some plaintext.
Proof.
  intros Hsid He Hq. unfold encryptEnvelope.
  pose proof (open_sealed key iv (toEnvelopeAad profile sid epoch seq) plaintext) as Hu.
  destruct (aes_seal key iv (toEnvelopeAad profile sid epoch seq) plaintext) as [ct tag].
  exists {| e_profile := profile; e_sessionId := sid; e_epoch := epoch; e_seq := seq; e_iv := toBase64Url iv;
            e_tag := toBase64Url tag; e_ciphertext := toBase64Url ct |}.
  split; [|do 4 (split; [done|])].
  - unfold parseRelayEnvelope, envelope_text. rewrite parse_stringify.
    + cbn -[num_of_Z num_to_Z Z.ltb]. literal_keys.
      cbn -[num_of_Z num_to_Z nonblank profile_name parseRelayHandshakeProfile Z.ltb toBase64Url is_int].
      replace (is_int (Some (JNum (num_of_Z 2))) 2) with true by reflexivity. cbn [negb orb].
      rewrite parse_profile_name. cbn [mbind option_bind]. rewrite Hsid. cbn [negb].
      rewrite !safe_pos, !num_safe by done. cbn [mbind option_bind].
      rewrite !(proj2 (Z.ltb_ge _ _)) by (destruct He, Hq; lia). cbn [mbind option_bind]. reflexivity.
    + short_fields.
    + apply (bool_decide_unpack _). reflexivity.
  - unfold decryptEnvelope. simpl. rewrite !from_to_base64. exact Hu.
Qed.
End NoiseProps.

(** ** A concrete instance

    Encodings are the identity, the cipher leaves the text and makes a tag of sixteen
    zeros, every two keys share one secret.  It satisfies the laws and shows that the
    hypotheses of the properties can hold. *)
Module Toy.
Definition tag : string := zeros 16.
#[export] Instance crypto : Crypto := {|
  sha256 := λ x, x;
  hmac := λ key data, key +:+ data;
  hkdfSync := λ ikm salt info, ikm +:+ salt +:+ info;
  aes_seal := λ key iv aad p, (p, tag);
  aes_open := λ key iv aad body t, if String.eqb t tag then Some body else None;
  valid_private := λ _, true;
  p256_public := λ _, String (byte_of 4) (zeros 64);
  computeSecret := λ _ _, Some "secret";
  toBase64Url := λ b, b;
  fromBase64Url := λ b, b
|}.
#[export] Instance laws : CryptoLaws.
Proof. split; try done. intros a b _ _. by exists "secret". Qed.
End Toy.
Import Toy.

Lemma handshake_agrees_witness :
  let d := zeros 32 in let psk := Some (zeros 32) in
  psk_ok noise_ikpsk2 psk ∧
  ∃ init st session response,
    createNoiseV3Init noise_ikpsk2 (publicKey (identity_of d)) (Some "peer") "kex-1" None psk "a" "b" = Some (init, st) ∧
    deriveNoiseV3SessionFromInit init (identity_of d) 3 psk "e" "rs_1" = Some (session, response) ∧
    finalizeNoiseV3Response st response psk = Some session ∧
    ds_sessionId session = "rs_1" ∧ ds_epoch session = 3%Z ∧ ds_profile session = noise_ikpsk2.
Proof.
  intros d psk. assert (psk_ok noise_ikpsk2 psk) as Hp by (intros _; exists (zeros 32); done). split; [exact Hp|].
  apply (handshake_agrees noise_ikpsk2 d "a" "b" "e" (Some "peer") "kex-1" None psk 3 "rs_1"); try done.
Defined.

Lemma envelope_roundtrip_witness : nonblank "rs_1" = true ∧
  ∃ e, parseRelayEnvelope (encryptEnvelope "iv" "key" "say 'hi'" noise_ik "rs_1" 1 7) = Some e ∧
    e_profile e = noise_ik ∧ e_sessionId e = "rs_1" ∧ e_epoch e = 1%Z ∧ e_seq e = 7%Z ∧
    decryptEnvelope "key" e = Some "say 'hi'".
Proof. split; [reflexivity|]. by apply (envelope_roundtrip "iv" "key"). Defined.
