(* ===== verification/RelaySessions.v ===== *)
(** * Relay sessions of the daemon's bridge (packages/daemon/src/relay/
    bridge-relay-sessions.ts, bridge-constants.ts, relay-control-frames.ts)

    A session holds the key agreed with one browser, the number of the last envelope
    sent and the window of the numbers received.  The map of sessions is bounded and
    idle sessions leave it. *)

From S2P Require Import Prelude JsString JsMap Json Noise.
From stdpp Require Import prelude strings list.
From Stdlib Require Import ZArith Lia Ascii.

Open Scope Z_scope.

Definition RECONNECT_BASE_MS : Z := 1000.
Definition RECONNECT_MAX_MS : Z := 30000.
Definition DEFAULT_MAX_PENDING_OUTBOUND : Z := 500.
Definition DEFAULT_MAX_PENDING_OUTBOUND_BYTES : Z := 4 * 1048576.
Definition ISSUE_FAILURE_THRESHOLD : Z := 5.
Definition CIRCUIT_BREAKER_MS : Z := 60000.
Definition RELAY_REPLAY_WINDOW : Z := 1024.
Definition RELAY_KEY_ROTATE_AFTER_MESSAGES : Z := 250.
Definition RELAY_SESSION_IDLE_TTL_MS : Z := 15 * 60000.

(** ** bridge-relay-sessions.ts *)

Record RelaySession := {
  rs_key : string; rs_profile : RelayHandshakeProfile; rs_sessionId : string; rs_epoch : Z;
  txSeq : Z; rxHighestSeq : Z; rxSeenSeq : list Z; lastActivityAt : Z; keyRotationRequested : bool
}.

Definition createRelaySessionState (seed : DerivedRelaySession) (now : Z) : RelaySession :=
  {| rs_key := ds_key seed; rs_profile := ds_profile seed; rs_sessionId := ds_sessionId seed; rs_epoch := ds_epoch seed;
     txSeq := 0; rxHighestSeq := 0; rxSeenSeq := []; lastActivityAt := now; keyRotationRequested := false |}.

Definition with_rx (highest : Z) (seen : list Z) (s : RelaySession) : RelaySession :=
  {| rs_key := rs_key s; rs_profile := rs_profile s; rs_sessionId := rs_sessionId s; rs_epoch := rs_epoch s;
     txSeq := txSeq s; rxHighestSeq := highest; rxSeenSeq := seen; lastActivityAt := lastActivityAt s;
     keyRotationRequested := keyRotationRequested s |}.
Definition with_tx (tx now : Z) (s : RelaySession) : RelaySession :=
  {| rs_key := rs_key s; rs_profile := rs_profile s; rs_sessionId := rs_sessionId s; rs_epoch := rs_epoch s;
     txSeq := tx; rxHighestSeq := rxHighestSeq s; rxSeenSeq := rxSeenSeq s; lastActivityAt := now;
     keyRotationRequested := keyRotationRequested s |}.
Definition with_rotation (s : RelaySession) : RelaySession :=
  {| rs_key := rs_key s; rs_profile := rs_profile s; rs_sessionId := rs_sessionId s; rs_epoch := rs_epoch s;
     txSeq := txSeq s; rxHighestSeq := rxHighestSeq s; rxSeenSeq := rxSeenSeq s; lastActivityAt := lastActivityAt s;
     keyRotationRequested := true |}.

(** The smallest number of the window below [highest]. *)
Definition window_floor (highest : Z) : Z := Z.max 1 (highest - RELAY_REPLAY_WINDOW + 1).

Definition acceptInboundRelaySeq (s : RelaySession) (seq : Z) : bool * RelaySession :=
  if seq <? 1 then (false, s)
  else if bool_decide (seq ∈ rxSeenSeq s) then (false, s)
  else if rxHighestSeq s + RELAY_REPLAY_WINDOW <? seq then (false, s)
  else if seq <? window_floor (rxHighestSeq s) then (false, s)
  else
    let seen := set_add seq (rxSeenSeq s) in
    let highest := if rxHighestSeq s <? seq then seq else rxHighestSeq s in
    let pruneBelow := window_floor highest in
    (true, with_rx highest (List.filter (λ x, negb (x <? pruneBelow)) seen) s).

Definition idle (now idleTtlMs : Z) (s : RelaySession) : bool := idleTtlMs <? now - lastActivityAt s.
Definition pruneIdleRelaySessions (sessions : list (string * RelaySession)) (now idleTtlMs : Z) :
    list (string * RelaySession) := jm_filter (λ _ s, negb (idle now idleTtlMs s)) sessions.

(** The session id of [keys().next().value]: an empty one ends the loop. *)
Fixpoint evict_oldest (maxEntries : Z) (sessions : list (string * RelaySession)) : list (string * RelaySession) :=
  match sessions with
  | [] => []
  | (sessionId, _) :: rest =>
      if (maxEntries <? jm_size sessions) && truthy_str sessionId then evict_oldest maxEntries rest else sessions
  end.
Definition enforceRelaySessionCapacity (sessions : list (string * RelaySession)) (maxEntries now idleTtlMs : Z) :
    list (string * RelaySession) := evict_oldest maxEntries (pruneIdleRelaySessions sessions now idleTtlMs).

(** What the bridge sends to the relay.  [Envelope] stands for the text
    [encryptEnvelope] makes of its arguments with the random iv it draws. *)
Inductive Outbound :=
| Envelope (key : string) (profile : RelayHandshakeProfile) (sessionId : string) (epoch seq : Z) (plaintext : string)
| KeyUpdateRequired (sessionId : string) (nextEpoch : Z)
| KexResponseV2 (response : ResponseFrameV2)
| KexResponseV3 (response : ResponseFrameV3)
| PairingReply (payload : json).

Definition wire `{Crypto} (iv : string) (o : Outbound) : option string :=
  match o with
  | Envelope key profile sessionId epoch seq plaintext => Some (encryptEnvelope iv key plaintext profile sessionId epoch seq)
  | _ => None
  end.

Definition sendToRelaySession (s : RelaySession) (payload : string) (now : Z) : RelaySession * Outbound :=
  let s := with_tx (txSeq s + 1) now s in
  (s, Envelope (rs_key s) (rs_profile s) (rs_sessionId s) (rs_epoch s) (txSeq s) payload).

(** One iteration of the loop of [sendToAllRelaySessions]. *)
Definition send_and_rotate (keyRotateAfterMessages : Z) (payload : string) (now : Z) (s : RelaySession) :
    RelaySession * list Outbound :=
  let '(s, envelope) := sendToRelaySession s payload now in
  if negb (keyRotationRequested s) && (keyRotateAfterMessages <=? txSeq s)
  then (with_rotation s, [envelope; KeyUpdateRequired (rs_sessionId s) (rs_epoch s + 1)])
  else (s, [envelope]).

Fixpoint send_each (keyRotateAfterMessages : Z) (payload : string) (now : Z) (sessions : list (string * RelaySession)) :
    list (string * RelaySession) * list Outbound :=
  match sessions with
  | [] => ([], [])
  | (sessionId, s) :: rest =>
      let '(s', out) := send_and_rotate keyRotateAfterMessages payload now s in
      let '(rest', outs) := send_each keyRotateAfterMessages payload now rest in
      ((sessionId, s') :: rest', out ++ outs)
  end.

Definition sendToAllRelaySessions (sessions : list (string * RelaySession)) (payload : string)
    (keyRotateAfterMessages now idleTtlMs : Z) : list (string * RelaySession) * list Outbound :=
  send_each keyRotateAfterMessages payload now (pruneIdleRelaySessions sessions now idleTtlMs).

(** ** relay-control-frames.ts *)

Record PairingOfferRequest := { po_requestId : string; po_ttlSeconds : option Z; po_clientChannelPublicKey : string }.
Record PairingRedeemRequest := {
  pr_requestId : string; pr_offerId : string; pr_encIv : string; pr_encTag : string; pr_encCiphertext : string
}.

Inductive RelayControlFrame :=
| RelayStatus (frame : record)
| RelayKeyUpdateRequired (sessionId : string) (nextEpoch : json).

(** [isRelayControlFrame], with the frame read. *)
Definition isRelayControlFrame (v : json) : option RelayControlFrame :=
  f ← as_record v;
  if is_str (field f "type") "relay_status" then Some (RelayStatus f)
  else if is_str (field f "type") "relay_key_update_required" && is_number (field f "nextEpoch") then
    sessionId ← as_string (field f "sessionId");
    nextEpoch ← field f "nextEpoch";
    Some (RelayKeyUpdateRequired sessionId nextEpoch)
  else None.

Definition ttl_valid (ttl : option json) : bool :=
  match ttl with
  | None => true
  | Some v => match as_int (Some v) with Some n => (30 <=? n) && (n <=? 3600) | None => false end
  end.

Definition parsePairingOfferRequestFrame (v : json) : option PairingOfferRequest :=
  f ← as_record v;
  if negb (is_str (field f "type") "relay_pairing_offer_request") then None else
  requestId ← as_string (field f "requestId");
  if negb (nonblank requestId) then None
  else if negb (ttl_valid (field f "ttlSeconds")) then None else
  clientChannelPublicKey ← as_string (field f "clientChannelPublicKey");
  if negb (nonblank clientChannelPublicKey) then None else
  Some {| po_requestId := requestId; po_ttlSeconds := as_int (field f "ttlSeconds");
          po_clientChannelPublicKey := clientChannelPublicKey |}.

Definition parsePairingRedeemRequestFrame (v : json) : option PairingRedeemRequest :=
  f ← as_record v;
  if negb (is_str (field f "type") "relay_pairing_redeem_request") then None else
  requestId ← as_string (field f "requestId");
  offerId ← as_string (field f "offerId");
  encIv ← as_string (field f "encIv");
  encTag ← as_string (field f "encTag");
  encCiphertext ← as_string (field f "encCiphertext");
  if forallb nonblank [requestId; offerId; encIv; encTag; encCiphertext]
  then Some {| pr_requestId := requestId; pr_offerId := offerId; pr_encIv := encIv; pr_encTag := encTag;
               pr_encCiphertext := encCiphertext |}
  else None.

(** ** The window: what it promises *)

(** The specification keeps every number accepted so far. *)
Definition highest_of (accepted : list Z) : Z := fold_right Z.max 0 accepted.
Definition spec_accept (accepted : list Z) (seq : Z) : bool :=
  (1 <=? seq) && negb (bool_decide (seq ∈ accepted)) &&
  (seq <=? highest_of accepted + RELAY_REPLAY_WINDOW) && (window_floor (highest_of accepted) <=? seq).

Fixpoint spec_run (accepted : list Z) (seqs : list Z) : list bool :=
  match seqs with
  | [] => []
  | seq :: seqs =>
      let ok := spec_accept accepted seq in ok :: spec_run (if ok then seq :: accepted else accepted) seqs
  end.

Fixpoint window_run (s : RelaySession) (seqs : list Z) : list bool * RelaySession :=
  match seqs with
  | [] => ([], s)
  | seq :: seqs => let '(ok, s) := acceptInboundRelaySeq s seq in
                   let '(oks, s) := window_run s seqs in (ok :: oks, s)
  end.

(** The window [s] holds what the history [accepted] leaves in it. *)
Record window_of (accepted : list Z) (s : RelaySession) : Prop := {
  wo_highest : rxHighestSeq s = highest_of accepted;
  wo_seen : ∀ x, x ∈ rxSeenSeq s ↔ x ∈ accepted ∧ window_floor (highest_of accepted) ≤ x;
  wo_nodup : NoDup (rxSeenSeq s);
  wo_pos : ∀ x, x ∈ accepted → 1 ≤ x
}.

Lemma highest_nonneg l : 0 ≤ highest_of l.
Proof. induction l; simpl; lia. Qed.
Lemma highest_ge l x : x ∈ l → x ≤ highest_of l.
Proof. induction l; simpl; [by intros ?%elem_of_nil|]. intros [->|?]%elem_of_cons; [lia|]. specialize (IHl H). lia. Qed.

Lemma floor_mono a b : a ≤ b → window_floor a ≤ window_floor b.
Proof. unfold window_floor. lia. Qed.

Lemma elem_of_filter_bool {A} (p : A → bool) (l : list A) x : x ∈ List.filter p l ↔ x ∈ l ∧ p x = true.
Proof. by rewrite !list_elem_of_In, filter_In. Qed.

Lemma NoDup_filter_bool {A} (p : A → bool) (l : list A) : NoDup l → NoDup (List.filter p l).
Proof.
  induction 1 as [|x l Hx _ IH]; simpl; [constructor|]. destruct (p x); [|done].
  constructor; [|done]. rewrite elem_of_filter_bool. tauto.
Qed.

(** The implementation decides as the specification, and keeps representing it. *)
Lemma accept_refines accepted s seq : window_of accepted s →
  (acceptInboundRelaySeq s seq).1 = spec_accept accepted seq ∧
  window_of (if spec_accept accepted seq then seq :: accepted else accepted) (acceptInboundRelaySeq s seq).2.
Proof.
  intros [Hh Hs Hn Hp]. unfold acceptInboundRelaySeq, spec_accept. rewrite <- Hh.
  destruct (seq <? 1) eqn:E1; split_bools.
  { rewrite (proj2 (Z.leb_gt _ _)) by lia. done. }
  rewrite (proj2 (Z.leb_le 1 seq)) by lia. cbn [andb].
  destruct (Z.lt_ge_cases (rxHighestSeq s + RELAY_REPLAY_WINDOW) seq) as [E2|E2].
  { assert (seq ∉ rxSeenSeq s) as Hnot. { rewrite Hs. intros [Hin _]. apply highest_ge in Hin. unfold RELAY_REPLAY_WINDOW in E2. lia. }
    rewrite (bool_decide_eq_false_2 (seq ∈ rxSeenSeq s)) by done. rewrite (proj2 (Z.ltb_lt _ _)) by lia.
    rewrite (proj2 (Z.leb_gt seq _)) by lia. rewrite andb_false_r. done. }
  rewrite (proj2 (Z.ltb_ge _ _)) by lia. rewrite (proj2 (Z.leb_le seq _)) by lia. rewrite andb_true_r.
  destruct (Z.lt_ge_cases seq (window_floor (rxHighestSeq s))) as [E3|E3].
  { rewrite (proj2 (Z.leb_gt _ seq)) by lia. rewrite andb_false_r. rewrite (proj2 (Z.ltb_lt _ _)) by lia.
    by destruct (bool_decide _). }
  rewrite (proj2 (Z.leb_le _ seq)) by lia. rewrite andb_true_r, (proj2 (Z.ltb_ge _ _)) by lia.
  assert (bool_decide (seq ∈ rxSeenSeq s) = bool_decide (seq ∈ accepted)) as ->.
  { apply bool_decide_ext. rewrite Hs, <- Hh. naive_solver lia. }
  destruct (bool_decide (seq ∈ accepted)) eqn:E4; split_bools; [done|]. cbn [negb fst snd]. split; [done|].
  assert ((if rxHighestSeq s <? seq then seq else rxHighestSeq s) = Z.max seq (highest_of accepted)) as Em.
  { rewrite Hh. destruct (Z.ltb_spec (highest_of accepted) seq); lia. }
  rewrite Em. pose proof (floor_mono (highest_of accepted) (Z.max seq (highest_of accepted)) ltac:(lia)).
  split; cbn [rxHighestSeq rxSeenSeq with_rx highest_of fold_right]; fold (highest_of accepted).
  - done.
  - intros x. rewrite elem_of_filter_bool, elem_of_set_add, elem_of_cons, Hs, negb_true_iff, Z.ltb_ge. naive_solver lia.
  - by apply NoDup_filter_bool, NoDup_set_add.
  - intros x [->|?]%elem_of_cons; auto.
Qed.

(** Distinct integers of an interval are at most as many as the interval holds. *)
Lemma interval_bound (l : list Z) lo n : NoDup l → (∀ x, x ∈ l → lo ≤ x < lo + Z.of_nat n) → (length l ≤ n)%nat.
Proof.
  intros Hnd Hin.
  assert (length l ≤ length (seqZ lo (Z.of_nat n)))%nat as Hle; [|by rewrite length_seqZ, Nat2Z.id in Hle].
  apply submseteq_length, NoDup_submseteq; [done|]. intros x Hx. apply elem_of_seqZ. auto.
Qed.

(** C26: The replay window is a bounded implementation of an unbounded promise: on every
    sequence of numbers a fresh session accepts exactly those the specification that
    remembers every accepted number accepts (at least 1, never accepted before, at
    most 1024 above and less than 1024 below the highest accepted), while it keeps at
    most 1024 of them. *)
Theorem window_refines seed now seqs :
  let '(oks, s) := window_run (createRelaySessionState seed now) seqs in
  oks = spec_run [] seqs ∧ (length (rxSeenSeq s) ≤ Z.to_nat RELAY_REPLAY_WINDOW)%nat.
Proof.
  assert (window_of [] (createRelaySessionState seed now)) as Hw.
  { split; simpl; [done| |constructor|]; intros x; [split; [by intros ?%elem_of_nil|intros [?%elem_of_nil _]; done]|].
    by intros ?%elem_of_nil. }
  revert Hw. generalize (createRelaySessionState seed now) as s, (@nil Z) as accepted.
  induction seqs as [|seq seqs IH]; intros s accepted Hw; simpl.
  - split; [done|]. destruct Hw as [Hh Hs Hn Hp].
    apply (interval_bound _ (highest_of accepted - RELAY_REPLAY_WINDOW + 1)); [done|].
    intros x [Hx1 Hx2]%Hs. apply highest_ge in Hx1. unfold window_floor, RELAY_REPLAY_WINDOW in *. lia.
  - destruct (accept_refines accepted s seq Hw) as [Hok Hw'].
    destruct (acceptInboundRelaySeq s seq) as [ok s']. simpl in *. subst ok.
    specialize (IH s' _ Hw'). destruct (window_run s' seqs) as [oks s'']. destruct IH as [-> ?]. done.
Qed.
