(* ===== verification/PairingChannel.v ===== *)
(** * Pairing through the relay (packages/daemon/src/relay/bridge-pairing-channel.ts,
    bridge-pairing-control-handler.ts)

    A browser that is not paired yet asks the daemon for an offer through the relay.
    The two agree on a channel key; the daemon keeps it by the offer's id, and the
    browser redeems the offer under it.  A handler is cut at its await, the call of
    the store of offers: [offer_begin] and [redeem_begin] run before it, [offer_end]
    and [redeem_end] with its answer. *)

From S2P Require Import Prelude JsString JsMap Json JsonText Noise RelaySessions.
From stdpp Require Import prelude strings list.
From Stdlib Require Import ZArith Lia Ascii Sorting.

Open Scope Z_scope.

Record PairingChannelKey := { pc_key : string; pc_createdAt : Z }.
Notation key_store := (list (string * PairingChannelKey)).

(** ** pruneRelayPairingChannelKeys *)

(** [sort((a, b) => a[1].createdAt - b[1].createdAt)], a stable sort. *)
Definition sort_by_age (l : key_store) : key_store := sort_by_key (λ e, pc_createdAt e.2) l.

Definition fresh_channel (now maxAgeMs : Z) (c : PairingChannelKey) : bool := negb (maxAgeMs <? now - pc_createdAt c).

Definition pruneRelayPairingChannelKeys (keys : key_store) (now maxAgeMs maxEntries : Z) : key_store :=
  let keys := jm_filter (λ _ c, fresh_channel now maxAgeMs c) keys in
  let overflow := jm_size keys - maxEntries in
  if overflow <=? 0 then keys
  else
    let oldest := jm_keys (take (Z.to_nat overflow) (sort_by_age keys)) in
    jm_filter (λ offerId _, negb (bool_decide (offerId ∈ oldest))) keys.

(** ** The handlers *)

Record EncryptedPayload := { ep_iv : string; ep_tag : string; ep_ciphertext : string }.

(** The answer of [issuePairingOffer]. *)
Record IssuedOffer := {
  io_offerId : string; io_createdAt : positive; io_expiresAt : positive; io_redeemSecret : string;
  io_trustAnchor : string; io_daemonDeviceId : string; io_daemonPublicKey : string
}.

(** The call of [issuePairingOffer], and what the handler keeps across it. *)
Record OfferCall := {
  oc_requestId : string; oc_ttlSeconds : Z; oc_host : string; oc_port : string; oc_listen : string;
  oc_channelKey : string; oc_daemonChannelPublicKey : string
}.

(** The call of [redeemPairingOffer]. *)
Record RedeemCall := {
  rc_requestId : string; rc_offerId : string; rc_redeemSecret : string; rc_trustAnchor : string;
  rc_clientPublicKey : string; rc_clientProof : string
}.

(** The fields of its answer the reply has. *)
Record RedeemedOffer := {
  ro_offerId : string; ro_createdAt : positive; ro_expiresAt : positive; ro_peerId : string;
  ro_daemonDeviceId : string; ro_daemonPublicKey : string; ro_relayPairingPeerId : string; ro_serverSignature : string
}.

Section PairingChannel.
Context `{Crypto}.

Definition derivePairingChannelKey (sharedSecret saltLabel : string) : string :=
  hkdfSync sharedSecret (sha256 saltLabel) "viewport-relay-pairing-channel-v1".

Definition encryptPairingPayload (iv key plaintext aadLabel : string) : EncryptedPayload :=
  let '(ciphertext, tag) := aes_seal key iv aadLabel plaintext in
  {| ep_iv := toBase64Url iv; ep_tag := toBase64Url tag; ep_ciphertext := toBase64Url ciphertext |}.

Definition decryptPairingPayload (key : string) (encrypted : EncryptedPayload) (aadLabel : string) : option string :=
  aes_open key (fromBase64Url (ep_iv encrypted)) aadLabel (fromBase64Url (ep_ciphertext encrypted))
    (fromBase64Url (ep_tag encrypted)).

(** The host name and the port of [new URL(daemonWsUrl)]; [None] when it throws. *)
Variable url_host_port : string → option (string * string).

Definition offer_label (requestId : string) : string := "offer:" +:+ requestId.
Definition redeem_label (requestId offerId : string) : string := "redeem:" +:+ requestId +:+ ":" +:+ offerId.

(** A reply without its text for people. *)
Definition failed_reply (type requestId errorCode : string) : json :=
  JObj [("type", JStr type); ("requestId", JStr requestId); ("ok", JBool false); ("errorCode", JStr errorCode)].
Definition offer_failed (requestId : string) : json :=
  failed_reply "relay_pairing_offer_response" requestId "PAIRING_OFFER_FAILED".
Definition redeem_failed (requestId : string) : json :=
  failed_reply "relay_pairing_redeem_response" requestId "PAIRING_REDEEM_FAILED".

(** [daemonChannel] is the key pair generated for the offer. *)
Definition offer_begin (keys : key_store) (frame : PairingOfferRequest) (workspaceId daemonWsUrl : string)
    (now maxAgeMs maxEntries : Z) (daemonChannel : string) : key_store * (OfferCall + json) :=
  let keys := pruneRelayPairingChannelKeys keys now maxAgeMs maxEntries in
  let failed := inr (offer_failed (po_requestId frame)) in
  let clientChannelPublicKey := fromBase64Url (po_clientChannelPublicKey frame) in
  (keys,
   if negb (String.length clientChannelPublicKey =? 65)%nat then failed else
   match computeSecret daemonChannel clientChannelPublicKey, url_host_port daemonWsUrl with
   | Some shared, Some (hostname, port) =>
       inl {| oc_requestId := po_requestId frame; oc_ttlSeconds := coalesce (po_ttlSeconds frame) 600;
              oc_host := if truthy_str hostname then hostname else "127.0.0.1";
              oc_port := if truthy_str port then port else "7070"; oc_listen := "relay:" +:+ workspaceId;
              oc_channelKey := derivePairingChannelKey shared (offer_label (po_requestId frame));
              oc_daemonChannelPublicKey := p256_public daemonChannel |}
   | _, _ => failed
   end).

Definition offer_text (issued : IssuedOffer) : string :=
  stringify_record [
    ("offerId", SStr (io_offerId issued)); ("createdAt", SInt (io_createdAt issued));
    ("expiresAt", SInt (io_expiresAt issued)); ("redeemSecret", SStr (io_redeemSecret issued));
    ("trustAnchor", SStr (io_trustAnchor issued)); ("daemonDeviceId", SStr (io_daemonDeviceId issued));
    ("daemonPublicKey", SStr (io_daemonPublicKey issued))].

Definition offer_reply (requestId daemonChannelPublicKey : string) (e : EncryptedPayload) : json :=
  JObj [("type", JStr "relay_pairing_offer_response"); ("requestId", JStr requestId); ("ok", JBool true);
        ("daemonChannelPublicKey", JStr daemonChannelPublicKey); ("encIv", JStr (ep_iv e)); ("encTag", JStr (ep_tag e));
        ("encCiphertext", JStr (ep_ciphertext e))].

Definition offer_end (keys : key_store) (call : OfferCall) (answer : option IssuedOffer) (now : Z) (iv : string) :
    key_store * json :=
  match answer with
  | None => (keys, offer_failed (oc_requestId call))
  | Some issued =>
      (jm_set (io_offerId issued) {| pc_key := oc_channelKey call; pc_createdAt := now |} keys,
       offer_reply (oc_requestId call) (toBase64Url (oc_daemonChannelPublicKey call))
         (encryptPairingPayload iv (oc_channelKey call) (offer_text issued) (offer_label (oc_requestId call))))
  end.

Definition redeem_call (frame : PairingRedeemRequest) (channel : PairingChannelKey) : option RedeemCall :=
  decrypted ← decryptPairingPayload (pc_key channel)
    {| ep_iv := pr_encIv frame; ep_tag := pr_encTag frame; ep_ciphertext := pr_encCiphertext frame |}
    (redeem_label (pr_requestId frame) (pr_offerId frame));
  parsed ← JSON_parse decrypted;
  f ← as_record parsed;
  redeemSecret ← as_string (field f "redeemSecret");
  trustAnchor ← as_string (field f "trustAnchor");
  clientPublicKey ← as_string (field f "clientPublicKey");
  clientProof ← as_string (field f "clientProof");
  if forallb nonblank [redeemSecret; trustAnchor; clientPublicKey; clientProof]
  then Some {| rc_requestId := pr_requestId frame; rc_offerId := pr_offerId frame; rc_redeemSecret := redeemSecret;
               rc_trustAnchor := trustAnchor; rc_clientPublicKey := clientPublicKey; rc_clientProof := clientProof |}
  else None.

Definition redeem_begin (keys : key_store) (frame : PairingRedeemRequest) (now maxAgeMs maxEntries : Z) :
    key_store * (RedeemCall + json) :=
  let keys := pruneRelayPairingChannelKeys keys now maxAgeMs maxEntries in
  (keys,
   match channel ← jm_get (pr_offerId frame) keys; redeem_call frame channel with
   | Some call => inl call
   | None => inr (redeem_failed (pr_requestId frame))
   end).

(** The store's answer: an error it throws, no such offer, or the redeemed offer. *)
Inductive RedeemAnswer := RedeemThrows | RedeemNone | RedeemOk (redeemed : RedeemedOffer).

Definition redeem_end (keys : key_store) (call : RedeemCall) (answer : RedeemAnswer) : key_store * json :=
  match answer with
  | RedeemThrows | RedeemNone => (keys, redeem_failed (rc_requestId call))
  | RedeemOk r =>
      (jm_delete (rc_offerId call) keys,
       JObj [("type", JStr "relay_pairing_redeem_response"); ("requestId", JStr (rc_requestId call)); ("ok", JBool true);
             ("redeemed", JObj [("offerId", JStr (ro_offerId r)); ("createdAt", JNum (num_of_Z (Zpos (ro_createdAt r))));
               ("expiresAt", JNum (num_of_Z (Zpos (ro_expiresAt r)))); ("peerId", JStr (ro_peerId r));
               ("daemonDeviceId", JStr (ro_daemonDeviceId r)); ("daemonPublicKey", JStr (ro_daemonPublicKey r));
               ("relayPairingPeerId", JStr (ro_relayPairingPeerId r));
               ("serverSignature", JStr (ro_serverSignature r))])])
  end.
End PairingChannel.
