(* ===== verification/PairingProps.v ===== *)
(** * Pairing through the relay: properties *)

From S2P Require Import Prelude JsString JsMap Json JsonText Noise NoiseProps RelaySessions PairingChannel.
From stdpp Require Import prelude strings list.
From Stdlib Require Import ZArith Lia Ascii Sorting.

Open Scope Z_scope.

(** ** Pruning *)

Notation older := (key_le (λ e : string * PairingChannelKey, pc_createdAt e.2)).

Lemma sort_perm l : sort_by_age l ≡ₚ l.
Proof. apply sort_by_key_perm. Qed.

Lemma filter_keys_length (m : key_store) (ks : list string) : NoDup_keys m → NoDup ks → (∀ k, k ∈ ks → k ∈ jm_keys m) →
  jm_size (jm_filter (λ k _, negb (bool_decide (k ∈ ks))) m) = jm_size m - Z.of_nat (length ks).
Proof.
  intros Hm Hk Hsub.
  assert (jm_keys m ≡ₚ ks ++ jm_keys (jm_filter (λ k _, negb (bool_decide (k ∈ ks))) m)) as Hp.
  { apply NoDup_Permutation; [done| |].
    - apply NoDup_app. split; [done|]. split; [|by apply NoDup_keys_filter]. intros k Hin Hin'.
      apply jm_key_is_Some in Hin' as [v Hv]. rewrite jm_get_filter in Hv by done.
      rewrite bool_decide_eq_true_2 in Hv by done. by destruct (jm_get k m).
    - intros k. rewrite elem_of_app, !jm_key_is_Some, jm_get_filter by done. split.
      + intros [v Hv]. rewrite Hv. destruct (decide (k ∈ ks)); [by left|right]. rewrite bool_decide_eq_false_2 by done. by eexists.
      + intros [Hin|[v Hv]]; [by apply jm_key_is_Some, Hsub|]. destruct (jm_get k m); [by eexists|done]. }
  rewrite !jm_size_keys, Hp, length_app. lia.
Qed.

(** Pruning the pairing channels keeps the table within its capacity and prefers
    the young: what remains was there before, is not older than the time to live, and
    is at most the capacity; a channel that is still fresh and had to go is no younger
    than any that stayed, and none goes while all fit. *)
Theorem prune_keeps_youngest keys now maxAgeMs maxEntries : NoDup_keys keys → 0 ≤ maxEntries →
  let kept := pruneRelayPairingChannelKeys keys now maxAgeMs maxEntries in
  let fresh := jm_filter (λ _ c, fresh_channel now maxAgeMs c) keys in
  NoDup_keys kept ∧ jm_size kept = Z.min maxEntries (jm_size fresh) ∧
  (∀ id c, jm_get id kept = Some c → jm_get id keys = Some c ∧ fresh_channel now maxAgeMs c = true) ∧
  (∀ id c id' c', jm_get id fresh = Some c → jm_get id kept = None → jm_get id' kept = Some c' → pc_createdAt c ≤ pc_createdAt c').
Proof.
  intros Hnd Hmax kept fresh. unfold kept, pruneRelayPairingChannelKeys. fold fresh. clear kept.
  assert (NoDup_keys fresh) as Hf by (by apply NoDup_keys_filter).
  assert (∀ id c, jm_get id fresh = Some c → jm_get id keys = Some c ∧ fresh_channel now maxAgeMs c = true) as Hfr.
  { intros id c. unfold fresh. rewrite jm_get_filter by done. destruct (jm_get id keys); [|done].
    destruct (fresh_channel _ _ _) eqn:E; [|done]. by intros [= <-]. }
  destruct (jm_size fresh - maxEntries <=? 0) eqn:E; split_bools.
  { split; [done|]. split; [lia|]. split; [done|]. intros id c id' c' H1 H2. congruence. }
  set (n := Z.to_nat (jm_size fresh - maxEntries)). set (oldest := jm_keys (take n (sort_by_age fresh))).
  assert (NoDup_keys (sort_by_age fresh)) as Hs by (unfold NoDup_keys, jm_keys; by rewrite sort_perm).
  assert (oldest ++ jm_keys (drop n (sort_by_age fresh)) = jm_keys (sort_by_age fresh)) as Hsplit.
  { unfold oldest, jm_keys. by rewrite <- fmap_app, take_drop. }
  assert (NoDup oldest) as Ho. { unfold NoDup_keys in Hs. rewrite <- Hsplit in Hs. by apply NoDup_app in Hs as (? & _). }
  assert (length oldest = n) as Hlen.
  { unfold oldest, jm_keys. rewrite length_fmap, length_take, sort_perm. unfold n, jm_size. lia. }
  split; [by apply NoDup_keys_filter|]. split.
  { rewrite filter_keys_length; [unfold n in *; lia|done|done|]. intros k Hk. unfold jm_keys. rewrite <- sort_perm.
    change (k ∈ jm_keys (sort_by_age fresh)). rewrite <- Hsplit. apply elem_of_app. by left. }
  assert (∀ id c, jm_get id (jm_filter (λ id0 _, negb (bool_decide (id0 ∈ oldest))) fresh) = Some c → jm_get id fresh = Some c ∧ id ∉ oldest) as Hk.
  { intros id c. rewrite jm_get_filter by done. destruct (jm_get id fresh); [|done].
    destruct (bool_decide (id ∈ oldest)) eqn:Ed; [done|]. split_bools. by intros [= <-]. }
  split; [intros id c [Hg _]%Hk; by apply Hfr|].
  intros id c id' c' Hg Hnone [Hg' Hnot]%Hk.
  assert (id ∈ oldest) as Hin.
  { destruct (decide (id ∈ oldest)) as [|Hno]; [done|]. rewrite jm_get_filter, Hg, bool_decide_eq_false_2 in Hnone by done. done. }
  assert (∀ x y, jm_get x fresh = Some y → (x, y) ∈ sort_by_age fresh) as Hel.
  { intros x y Hx. rewrite sort_perm. by apply jm_get_elem. }
  apply (sorted_take_drop _ n (sort_by_age fresh) (id, c) (id', c') (sort_by_key_sorted _ _)).
  - apply list_elem_of_fmap in Hin as ([k x] & -> & Hin). simpl in Hg.
    assert ((k, x) ∈ sort_by_age fresh) as Hx by (rewrite <- (take_drop n (sort_by_age fresh)); set_solver).
    rewrite sort_perm in Hx. apply jm_elem_get in Hx; [|done]. by simplify_eq.
  - specialize (Hel _ _ Hg'). rewrite <- (take_drop n (sort_by_age fresh)) in Hel. apply elem_of_app in Hel as [Hel|]; [|done].
    exfalso. apply Hnot. apply list_elem_of_fmap. by exists (id', c').
Qed.

(** ** An offer and its redemption *)

Section Pairing.
Context `{CryptoLaws}.
Variable url_host_port : string → option (string * string).

Lemma payload_roundtrip iv key text label :
  decryptPairingPayload key (encryptPairingPayload iv key text label) label = Some text.
Proof.
  unfold encryptPairingPayload, decryptPairingPayload. pose proof (open_sealed key iv label text) as Hu.
  destruct (aes_seal key iv label text). simpl. by rewrite !base64_round_trip.
Qed.

(** The browser's part: the frame it sends, and the one it redeems with. *)
Definition offer_request (requestId c : string) (ttl : option Z) : PairingOfferRequest :=
  {| po_requestId := requestId; po_ttlSeconds := ttl; po_clientChannelPublicKey := toBase64Url (p256_public c) |}.
Definition redeem_text (secret anchor clientKey clientProof : string) : string :=
  stringify_record [("redeemSecret", SStr secret); ("trustAnchor", SStr anchor); ("clientPublicKey", SStr clientKey);
                    ("clientProof", SStr clientProof)].
Definition redeem_request (requestId offerId : string) (e : EncryptedPayload) : PairingRedeemRequest :=
  {| pr_requestId := requestId; pr_offerId := offerId; pr_encIv := ep_iv e; pr_encTag := ep_tag e;
     pr_encCiphertext := ep_ciphertext e |}.

Lemma prune_fits keys now maxAgeMs maxEntries id c : NoDup_keys keys → jm_size keys ≤ maxEntries →
  jm_get id keys = Some c → fresh_channel now maxAgeMs c = true →
  jm_get id (pruneRelayPairingChannelKeys keys now maxAgeMs maxEntries) = Some c.
Proof.
  intros Hnd Hsz Hg Hf. unfold pruneRelayPairingChannelKeys.
  pose proof (jm_size_filter (λ _ c, fresh_channel now maxAgeMs c) keys) as Hle.
  rewrite (proj2 (Z.leb_le _ _)) by lia. by rewrite jm_get_filter, Hg, Hf.
Qed.

(** A pairing goes through the relay end to end: for every browser and daemon key,
    the daemon answers the browser's request with an offer that the browser, with the
    key it derives itself, decrypts to exactly the offer issued; and the redemption
    the browser then encrypts reaches the store of offers with the browser's own
    values, as long as the channel is fresh and the table not over its capacity. *)
Theorem pairing_through_relay c d requestId ttl issued iv requestId' iv' secret anchor clientKey clientProof
    workspaceId daemonWsUrl host port keys now1 now2 now3 maxAgeMs maxEntries :
  valid_private c = true → valid_private d = true → url_host_port daemonWsUrl = Some (host, port) →
  safe (Zpos (io_createdAt issued)) → safe (Zpos (io_expiresAt issued)) →
  forallb nonblank [secret; anchor; clientKey; clientProof] = true →
  NoDup_keys keys → jm_size keys < maxEntries → now3 - now2 ≤ maxAgeMs →
  ∃ call keys1 e shared,
    (offer_begin url_host_port keys (offer_request requestId c ttl) workspaceId daemonWsUrl now1 maxAgeMs maxEntries d).2 = inl call ∧
    offer_end keys call (Some issued) now2 iv = (keys1, offer_reply requestId (toBase64Url (p256_public d)) e) ∧
    computeSecret c (fromBase64Url (toBase64Url (p256_public d))) = Some shared ∧
    let key := derivePairingChannelKey shared (offer_label requestId) in
    decryptPairingPayload key e (offer_label requestId) = Some (offer_text issued) ∧
    JSON_parse (offer_text issued) = Some (JObj (record_fields [
      ("offerId", SStr (io_offerId issued)); ("createdAt", SInt (io_createdAt issued));
      ("expiresAt", SInt (io_expiresAt issued)); ("redeemSecret", SStr (io_redeemSecret issued));
      ("trustAnchor", SStr (io_trustAnchor issued)); ("daemonDeviceId", SStr (io_daemonDeviceId issued));
      ("daemonPublicKey", SStr (io_daemonPublicKey issued))])) ∧
    (redeem_begin keys1 (redeem_request requestId' (io_offerId issued)
       (encryptPairingPayload iv' key (redeem_text secret anchor clientKey clientProof)
          (redeem_label requestId' (io_offerId issued)))) now3 maxAgeMs maxEntries).2 =
    inl {| rc_requestId := requestId'; rc_offerId := io_offerId issued; rc_redeemSecret := secret; rc_trustAnchor := anchor;
           rc_clientPublicKey := clientKey; rc_clientProof := clientProof |}.
Proof.
  intros Hc Hd Hurl Hs1 Hs2 Hnb Hnd Hsz Hage. destruct (ecdh_agree d c Hd Hc) as (shared & Es & Es').
  destruct (p256_public_form c Hc) as [Hl _].
  set (key := derivePairingChannelKey shared (offer_label requestId)).
  eexists _, _, _, shared. split.
  { unfold offer_begin, offer_request. cbn [po_clientChannelPublicKey po_requestId po_ttlSeconds].
    rewrite base64_round_trip, Hl, Es, Hurl. reflexivity. }
  split; [reflexivity|]. rewrite base64_round_trip. split; [done|]. cbn zeta. fold key.
  cbn [oc_channelKey oc_requestId]. split; [apply payload_roundtrip|]. split.
  { apply parse_stringify; [|apply (bool_decide_unpack _); reflexivity].
    repeat (apply List.Forall_cons || apply List.Forall_nil); cbn [snd]; try exact I; by apply short_safe. }
  unfold redeem_begin. cbn [redeem_request pr_offerId snd]. erewrite prune_fits; [| | |apply jm_get_set_eq|].
  - cbn [mbind option_bind]. unfold redeem_call. cbn [redeem_request pc_key pr_encIv pr_encTag pr_encCiphertext pr_requestId pr_offerId].
    match goal with |- context [decryptPairingPayload _ ?e _] => replace e with (encryptPairingPayload iv' key
      (redeem_text secret anchor clientKey clientProof) (redeem_label requestId' (io_offerId issued))) by
      (unfold encryptPairingPayload; by destruct (aes_seal _ _ _ _)) end.
    rewrite payload_roundtrip. cbn [mbind option_bind]. unfold redeem_text.
    rewrite parse_stringify; [|repeat (apply List.Forall_cons || apply List.Forall_nil); exact I|apply (bool_decide_unpack _); reflexivity].
    cbn -[nonblank forallb]. literal_keys. cbn -[nonblank forallb]. by rewrite Hnb.
  - by apply NoDup_keys_set.
  - rewrite jm_size_set. case_decide; lia.
  - unfold fresh_channel. simpl. by rewrite (proj2 (Z.ltb_ge _ _)) by lia.
Qed.
End Pairing.

(** ** Witnesses *)

Import Toy.

Lemma prune_keeps_youngest_witness :
  let keys := [("a", {| pc_key := "1"; pc_createdAt := 5 |}); ("b", {| pc_key := "2"; pc_createdAt := 3 |});
               ("c", {| pc_key := "3"; pc_createdAt := 90 |})] in
  jm_keys (pruneRelayPairingChannelKeys keys 100 200 2) = ["a"; "c"] ∧
  jm_size (pruneRelayPairingChannelKeys keys 100 200 2) = 2.
Proof.
  intros keys. split; [vm_compute; reflexivity|].
  assert (NoDup_keys keys) as Hn by (apply (bool_decide_unpack _); vm_compute; exact I).
  destruct (prune_keeps_youngest keys 100 200 2 Hn ltac:(lia)) as (_ & E & _). rewrite E. vm_compute. reflexivity.
Defined.

Definition example_offer : IssuedOffer :=
  {| io_offerId := "o1"; io_createdAt := 1700000000000; io_expiresAt := 1700000600000; io_redeemSecret := "s";
     io_trustAnchor := "t"; io_daemonDeviceId := "d"; io_daemonPublicKey := "p" |}.

Lemma pairing_through_relay_witness :
  safe (Zpos (io_createdAt example_offer)) ∧
  ∃ call keys1 e shared,
    (offer_begin (λ _, Some ("h", "1")) [] (offer_request "r" "c" None) "w" "ws://h:1" 0 1000 8 "d").2 = inl call ∧
    offer_end [] call (Some example_offer) 5 "iv" = (keys1, offer_reply "r" (toBase64Url (p256_public "d")) e) ∧
    computeSecret "c" (fromBase64Url (toBase64Url (p256_public "d"))) = Some shared ∧
    let key := derivePairingChannelKey shared (offer_label "r") in
    decryptPairingPayload key e (offer_label "r") = Some (offer_text example_offer) ∧
    JSON_parse (offer_text example_offer) = Some (JObj (record_fields [
      ("offerId", SStr "o1"); ("createdAt", SInt 1700000000000); ("expiresAt", SInt 1700000600000);
      ("redeemSecret", SStr "s"); ("trustAnchor", SStr "t"); ("daemonDeviceId", SStr "d"); ("daemonPublicKey", SStr "p")])) ∧
    (redeem_begin keys1 (redeem_request "r2" "o1" (encryptPairingPayload "iv2" key (redeem_text "s" "t" "k" "p")
       (redeem_label "r2" "o1"))) 9 1000 8).2 =
    inl {| rc_requestId := "r2"; rc_offerId := "o1"; rc_redeemSecret := "s"; rc_trustAnchor := "t";
           rc_clientPublicKey := "k"; rc_clientProof := "p" |}.
Proof.
  assert (∀ p, (Zpos p <? 2 ^ 53) = true → safe (Zpos p)) as Hsafe by (intros p Hp%Z.ltb_lt; split; lia).
  split; [by apply Hsafe|].
  apply (pairing_through_relay (λ _, Some ("h", "1")) "c" "d" "r" None example_offer "iv" "r2" "iv2" "s" "t" "k" "p" "w" "ws://h:1"
           "h" "1" [] 0 5 9 1000 8); try reflexivity; try (by apply Hsafe); [apply NoDup_keys_nil|by vm_compute].
Defined.
