(* ===== verification/Bridge.v ===== *)
(** * The relay bridge of the daemon (packages/daemon/src/relay/daemon-relay-bridge.ts,
    bridge-backoff.ts, bridge-errors.ts)

    [DaemonRelayBridge] keeps a pair of sockets, to the daemon and to the relay, and
    passes frames between them: what the daemon says is encrypted for every relay
    session, what a session's browser says is decrypted and given to the daemon.  When
    a socket closes it connects again.

    [Bridge] is the state of the object, [Event] what can happen to it and [step] what
    the code does then.  A method cut at an await leaves a [Task]; [Answered] resumes
    it, in any order with other events, as a promise may.  Two methods may be in
    progress at the same time, as in the code.  A socket is a number; the handlers
    that [installSocketHandlers] attaches know the pair they were given, not the
    fields of the object.  Random values and the time are arguments of the events.  An
    error is kept by its code. *)

From S2P Require Import Prelude JsString JsMap Json JsonText Noise RelaySessions PairingChannel.
From stdpp Require Import prelude strings list.
From Stdlib Require Import ZArith Lia Ascii.

Open Scope Z_scope.

(** ** bridge-errors.ts, bridge-backoff.ts *)

Inductive BridgeErrorCode :=
| TOKEN_ISSUE_FAILED | TOKEN_RESPONSE_INVALID | DAEMON_KEY_REGISTER_FAILED | KEY_EXCHANGE_FAILED
| WEBSOCKET_CONNECT_TIMEOUT | ENVELOPE_DECRYPT_FAILED | CIRCUIT_OPEN | WEBSOCKET_ERROR | UNKNOWN.
#[export] Instance BridgeErrorCode_eq_dec : EqDecision BridgeErrorCode.
Proof. solve_decision. Defined.

Definition isControlPlaneBridgeError (code : BridgeErrorCode) : bool :=
  match code with TOKEN_ISSUE_FAILED | TOKEN_RESPONSE_INVALID | DAEMON_KEY_REGISTER_FAILED => true | _ => false end.

(** [jitter] is [Math.floor(Math.random() * 250)]. *)
Definition computeBackoffMs (attempt jitter : Z) : Z :=
  let exp := Z.min RECONNECT_MAX_MS (RECONNECT_BASE_MS * 2 ^ Z.max 0 (attempt - 1)) in
  Z.min RECONNECT_MAX_MS (exp + jitter).

(** ** State *)

Inductive Ready := OPEN | CLOSING | CLOSED.
#[export] Instance Ready_eq_dec : EqDecision Ready.
Proof. solve_decision. Defined.

Inductive Status := Stopped | Connecting | Connected | WaitingRetry | CircuitOpen.
#[export] Instance Status_eq_dec : EqDecision Status.
Proof. solve_decision. Defined.

(** A first message of either protocol version. *)
Inductive Kex := KexV2 (init : InitFrameV2) | KexV3 (init : InitFrameV3).
Definition kex_profile (k : Kex) : RelayHandshakeProfile :=
  match k with KexV2 i => i2_profile i | KexV3 i => i3_profile i end.
Definition kex_previous (k : Kex) : option string :=
  match k with KexV2 i => i2_previousSessionId i | KexV3 i => i3_previousSessionId i end.
Definition kex_peer (k : Kex) : option string :=
  match k with KexV2 i => i2_pairingPeerId i | KexV3 i => i3_pairingPeerId i end.

(** A method in progress: the await it is at, and what it needs after it. *)
Inductive Task :=
| AwaitCircuit                                             (* connectLoop: sleep(waitMs) *)
| AwaitIdentity                                            (* ensureKeyMaterial *)
| AwaitRegister                                            (* registerDaemonPublicKey *)
| AwaitIssue                                               (* issueRelayToken *)
| AwaitDaemonSocket (relayToken : string)
| AwaitRelaySocket (relayToken : string) (daemon : nat)
| AwaitBackoff                                             (* sleep(waitMs) after a failure *)
| AwaitEnvelope (daemon relay : nat) (text : string)       (* a frame that is not a control frame *)
| AwaitSecret (relay : nat) (kex : Kex) (nextEpoch : Z) (previous : option string)
| AwaitOffer (relay : nat) (call : OfferCall)
| AwaitRedeem (relay : nat) (call : RedeemCall).

(** A task of the connection loop. *)
Definition is_connect (t : Task) : bool :=
  match t with
  | AwaitCircuit | AwaitIdentity | AwaitRegister | AwaitIssue | AwaitDaemonSocket _ | AwaitRelaySocket _ _
  | AwaitBackoff => true
  | _ => false
  end.

(** What the awaited call gives. *)
Inductive Answer :=
| Slept
| Failed (code : BridgeErrorCode)
| IdentityLoaded (identity : DaemonRelayIdentity)
| KeyRegistered (issueToken : string)
| TokenIssued (relayToken : string) (profile : RelayHandshakeProfile)
| SocketOpened
| SecretResolved (secret : option string)
| OfferIssued (issued : option IssuedOffer)
| OfferRedeemed (answer : RedeemAnswer).

(** Random values drawn during an event. *)
Record Draws := {
  d_ephemeral : string; d_nonce : string; d_sessionId : string; d_channel : string; d_iv : string; d_jitter : Z
}.

Record Options := {
  o_workspaceId : string; o_daemonWsUrl : string; maxPendingOutbound : option Z; maxPendingOutboundBytes : option Z;
  keyRotateAfterMessages : Z; pairingChannelTtlMs : Z; pairingChannelMaxEntries : Z; relaySessionMaxEntries : Z
}.

(** The constructor: [typeof v === 'number' && Number.isInteger(v) && v >= least ? v : otherwise]. *)
Definition option_at_least (least otherwise : Z) (v : option json) : Z :=
  match as_int v with Some n => if least <=? n then n else otherwise | None => otherwise end.
Definition make_options (workspaceId daemonWsUrl : string) (maxOut maxOutBytes : option Z)
    (rotateAfter channelTtl channelMax sessionMax : option json) : Options :=
  {| o_workspaceId := workspaceId; o_daemonWsUrl := daemonWsUrl; maxPendingOutbound := maxOut;
     maxPendingOutboundBytes := maxOutBytes;
     keyRotateAfterMessages := option_at_least 1 RELAY_KEY_ROTATE_AFTER_MESSAGES rotateAfter;
     pairingChannelTtlMs := option_at_least 1000 (10 * 60000) channelTtl;
     pairingChannelMaxEntries := option_at_least 1 2048 channelMax;
     relaySessionMaxEntries := option_at_least 1 4096 sessionMax |}.

Inductive Event :=
| Start (now : Z)
| Stop
| DaemonMessage (daemon relay : nat) (payload : string) (now : Z)
| RelayMessage (daemon relay : nat) (text : string) (now : Z) (draws : Draws)
| SocketClosed (socket : nat) (now : Z)
| Answered (task : nat) (answer : Answer) (now : Z) (draws : Draws).

(** What the bridge does to its sockets.  [ToDaemon] says which envelope the plaintext
    comes from. *)
Inductive Effect :=
| ToRelay (socket : nat) (frame : Outbound)
| ToDaemon (socket : nat) (sessionId : string) (epoch seq : Z) (plaintext : string).

Section Bridge.
Context `{Crypto}.
(** [new URL] of the daemon's address. *)
Variable url_host_port : string → option (string * string).
(** [filterDaemonPayload], with what it remembers.  [null] is [None]. *)
Variable F : Type.
Variable filterDaemonPayload : F → string → option string * F.
Variable options : Options.

Record Bridge := MkBridge {
  running : bool; reconnecting : bool; reconnectAttempt : Z; pendingOutbound : list string;
  pendingOutboundBytes : Z; daemonIdentity : option DaemonRelayIdentity; daemonIssueToken : option string;
  requiredProfile : RelayHandshakeProfile; relaySessions : list (string * RelaySession); pairingChannelKeys :
  list (string * PairingChannelKey); consecutiveIssueFailures : Z; circuitOpenUntilMs : Z; lastError : option
  (BridgeErrorCode * Z); status : Status; relayEndpoint : string; relayWs : option nat; daemonWs : option nat;
  sockets : list Ready; connections : list (nat * nat); tasks : list Task; filter_state : F
}.

Definition set_running (v : bool) (s : Bridge) : Bridge :=
  MkBridge v (reconnecting s) (reconnectAttempt s) (pendingOutbound s) (pendingOutboundBytes s)
    (daemonIdentity s) (daemonIssueToken s) (requiredProfile s) (relaySessions s) (pairingChannelKeys s)
    (consecutiveIssueFailures s) (circuitOpenUntilMs s) (lastError s) (status s) (relayEndpoint s) (relayWs s)
    (daemonWs s) (sockets s) (connections s) (tasks s) (filter_state s).
Definition set_reconnecting (v : bool) (s : Bridge) : Bridge :=
  MkBridge (running s) v (reconnectAttempt s) (pendingOutbound s) (pendingOutboundBytes s) (daemonIdentity s)
    (daemonIssueToken s) (requiredProfile s) (relaySessions s) (pairingChannelKeys s)
    (consecutiveIssueFailures s) (circuitOpenUntilMs s) (lastError s) (status s) (relayEndpoint s) (relayWs s)
    (daemonWs s) (sockets s) (connections s) (tasks s) (filter_state s).
Definition set_reconnectAttempt (v : Z) (s : Bridge) : Bridge :=
  MkBridge (running s) (reconnecting s) v (pendingOutbound s) (pendingOutboundBytes s) (daemonIdentity s)
    (daemonIssueToken s) (requiredProfile s) (relaySessions s) (pairingChannelKeys s)
    (consecutiveIssueFailures s) (circuitOpenUntilMs s) (lastError s) (status s) (relayEndpoint s) (relayWs s)
    (daemonWs s) (sockets s) (connections s) (tasks s) (filter_state s).
Definition set_pendingOutbound (v : list string) (s : Bridge) : Bridge :=
  MkBridge (running s) (reconnecting s) (reconnectAttempt s) v (pendingOutboundBytes s) (daemonIdentity s)
    (daemonIssueToken s) (requiredProfile s) (relaySessions s) (pairingChannelKeys s)
    (consecutiveIssueFailures s) (circuitOpenUntilMs s) (lastError s) (status s) (relayEndpoint s) (relayWs s)
    (daemonWs s) (sockets s) (connections s) (tasks s) (filter_state s).
Definition set_pendingOutboundBytes (v : Z) (s : Bridge) : Bridge :=
  MkBridge (running s) (reconnecting s) (reconnectAttempt s) (pendingOutbound s) v (daemonIdentity s)
    (daemonIssueToken s) (requiredProfile s) (relaySessions s) (pairingChannelKeys s)
    (consecutiveIssueFailures s) (circuitOpenUntilMs s) (lastError s) (status s) (relayEndpoint s) (relayWs s)
    (daemonWs s) (sockets s) (connections s) (tasks s) (filter_state s).
Definition set_daemonIdentity (v : option DaemonRelayIdentity) (s : Bridge) : Bridge :=
  MkBridge (running s) (reconnecting s) (reconnectAttempt s) (pendingOutbound s) (pendingOutboundBytes s) v
    (daemonIssueToken s) (requiredProfile s) (relaySessions s) (pairingChannelKeys s)
    (consecutiveIssueFailures s) (circuitOpenUntilMs s) (lastError s) (status s) (relayEndpoint s) (relayWs s)
    (daemonWs s) (sockets s) (connections s) (tasks s) (filter_state s).
Definition set_daemonIssueToken (v : option string) (s : Bridge) : Bridge :=
  MkBridge (running s) (reconnecting s) (reconnectAttempt s) (pendingOutbound s) (pendingOutboundBytes s)
    (daemonIdentity s) v (requiredProfile s) (relaySessions s) (pairingChannelKeys s)
    (consecutiveIssueFailures s) (circuitOpenUntilMs s) (lastError s) (status s) (relayEndpoint s) (relayWs s)
    (daemonWs s) (sockets s) (connections s) (tasks s) (filter_state s).
Definition set_requiredProfile (v : RelayHandshakeProfile) (s : Bridge) : Bridge :=
  MkBridge (running s) (reconnecting s) (reconnectAttempt s) (pendingOutbound s) (pendingOutboundBytes s)
    (daemonIdentity s) (daemonIssueToken s) v (relaySessions s) (pairingChannelKeys s)
    (consecutiveIssueFailures s) (circuitOpenUntilMs s) (lastError s) (status s) (relayEndpoint s) (relayWs s)
    (daemonWs s) (sockets s) (connections s) (tasks s) (filter_state s).
Definition set_relaySessions (v : list (string * RelaySession)) (s : Bridge) : Bridge :=
  MkBridge (running s) (reconnecting s) (reconnectAttempt s) (pendingOutbound s) (pendingOutboundBytes s)
    (daemonIdentity s) (daemonIssueToken s) (requiredProfile s) v (pairingChannelKeys s)
    (consecutiveIssueFailures s) (circuitOpenUntilMs s) (lastError s) (status s) (relayEndpoint s) (relayWs s)
    (daemonWs s) (sockets s) (connections s) (tasks s) (filter_state s).
Definition set_pairingChannelKeys (v : list (string * PairingChannelKey)) (s : Bridge) : Bridge :=
  MkBridge (running s) (reconnecting s) (reconnectAttempt s) (pendingOutbound s) (pendingOutboundBytes s)
    (daemonIdentity s) (daemonIssueToken s) (requiredProfile s) (relaySessions s) v (consecutiveIssueFailures
    s) (circuitOpenUntilMs s) (lastError s) (status s) (relayEndpoint s) (relayWs s) (daemonWs s) (sockets s)
    (connections s) (tasks s) (filter_state s).
Definition set_consecutiveIssueFailures (v : Z) (s : Bridge) : Bridge :=
  MkBridge (running s) (reconnecting s) (reconnectAttempt s) (pendingOutbound s) (pendingOutboundBytes s)
    (daemonIdentity s) (daemonIssueToken s) (requiredProfile s) (relaySessions s) (pairingChannelKeys s) v
    (circuitOpenUntilMs s) (lastError s) (status s) (relayEndpoint s) (relayWs s) (daemonWs s) (sockets s)
    (connections s) (tasks s) (filter_state s).
Definition set_circuitOpenUntilMs (v : Z) (s : Bridge) : Bridge :=
  MkBridge (running s) (reconnecting s) (reconnectAttempt s) (pendingOutbound s) (pendingOutboundBytes s)
    (daemonIdentity s) (daemonIssueToken s) (requiredProfile s) (relaySessions s) (pairingChannelKeys s)
    (consecutiveIssueFailures s) v (lastError s) (status s) (relayEndpoint s) (relayWs s) (daemonWs s)
    (sockets s) (connections s) (tasks s) (filter_state s).
Definition set_lastError (v : option (BridgeErrorCode * Z)) (s : Bridge) : Bridge :=
  MkBridge (running s) (reconnecting s) (reconnectAttempt s) (pendingOutbound s) (pendingOutboundBytes s)
    (daemonIdentity s) (daemonIssueToken s) (requiredProfile s) (relaySessions s) (pairingChannelKeys s)
    (consecutiveIssueFailures s) (circuitOpenUntilMs s) v (status s) (relayEndpoint s) (relayWs s) (daemonWs
    s) (sockets s) (connections s) (tasks s) (filter_state s).
Definition set_status (v : Status) (s : Bridge) : Bridge :=
  MkBridge (running s) (reconnecting s) (reconnectAttempt s) (pendingOutbound s) (pendingOutboundBytes s)
    (daemonIdentity s) (daemonIssueToken s) (requiredProfile s) (relaySessions s) (pairingChannelKeys s)
    (consecutiveIssueFailures s) (circuitOpenUntilMs s) (lastError s) v (relayEndpoint s) (relayWs s)
    (daemonWs s) (sockets s) (connections s) (tasks s) (filter_state s).
Definition set_relayEndpoint (v : string) (s : Bridge) : Bridge :=
  MkBridge (running s) (reconnecting s) (reconnectAttempt s) (pendingOutbound s) (pendingOutboundBytes s)
    (daemonIdentity s) (daemonIssueToken s) (requiredProfile s) (relaySessions s) (pairingChannelKeys s)
    (consecutiveIssueFailures s) (circuitOpenUntilMs s) (lastError s) (status s) v (relayWs s) (daemonWs s)
    (sockets s) (connections s) (tasks s) (filter_state s).
Definition set_relayWs (v : option nat) (s : Bridge) : Bridge :=
  MkBridge (running s) (reconnecting s) (reconnectAttempt s) (pendingOutbound s) (pendingOutboundBytes s)
    (daemonIdentity s) (daemonIssueToken s) (requiredProfile s) (relaySessions s) (pairingChannelKeys s)
    (consecutiveIssueFailures s) (circuitOpenUntilMs s) (lastError s) (status s) (relayEndpoint s) v (daemonWs
    s) (sockets s) (connections s) (tasks s) (filter_state s).
Definition set_daemonWs (v : option nat) (s : Bridge) : Bridge :=
  MkBridge (running s) (reconnecting s) (reconnectAttempt s) (pendingOutbound s) (pendingOutboundBytes s)
    (daemonIdentity s) (daemonIssueToken s) (requiredProfile s) (relaySessions s) (pairingChannelKeys s)
    (consecutiveIssueFailures s) (circuitOpenUntilMs s) (lastError s) (status s) (relayEndpoint s) (relayWs s)
    v (sockets s) (connections s) (tasks s) (filter_state s).
Definition set_sockets (v : list Ready) (s : Bridge) : Bridge :=
  MkBridge (running s) (reconnecting s) (reconnectAttempt s) (pendingOutbound s) (pendingOutboundBytes s)
    (daemonIdentity s) (daemonIssueToken s) (requiredProfile s) (relaySessions s) (pairingChannelKeys s)
    (consecutiveIssueFailures s) (circuitOpenUntilMs s) (lastError s) (status s) (relayEndpoint s) (relayWs s)
    (daemonWs s) v (connections s) (tasks s) (filter_state s).
Definition set_connections (v : list (nat * nat)) (s : Bridge) : Bridge :=
  MkBridge (running s) (reconnecting s) (reconnectAttempt s) (pendingOutbound s) (pendingOutboundBytes s)
    (daemonIdentity s) (daemonIssueToken s) (requiredProfile s) (relaySessions s) (pairingChannelKeys s)
    (consecutiveIssueFailures s) (circuitOpenUntilMs s) (lastError s) (status s) (relayEndpoint s) (relayWs s)
    (daemonWs s) (sockets s) v (tasks s) (filter_state s).
Definition set_tasks (v : list Task) (s : Bridge) : Bridge :=
  MkBridge (running s) (reconnecting s) (reconnectAttempt s) (pendingOutbound s) (pendingOutboundBytes s)
    (daemonIdentity s) (daemonIssueToken s) (requiredProfile s) (relaySessions s) (pairingChannelKeys s)
    (consecutiveIssueFailures s) (circuitOpenUntilMs s) (lastError s) (status s) (relayEndpoint s) (relayWs s)
    (daemonWs s) (sockets s) (connections s) v (filter_state s).
Definition set_filter_state (v : F) (s : Bridge) : Bridge :=
  MkBridge (running s) (reconnecting s) (reconnectAttempt s) (pendingOutbound s) (pendingOutboundBytes s)
    (daemonIdentity s) (daemonIssueToken s) (requiredProfile s) (relaySessions s) (pairingChannelKeys s)
    (consecutiveIssueFailures s) (circuitOpenUntilMs s) (lastError s) (status s) (relayEndpoint s) (relayWs s)
    (daemonWs s) (sockets s) (connections s) (tasks s) v.

Definition initial (relayEndpoint : string) (issueToken : option string) (f : F) : Bridge :=
  MkBridge false false 0 [] 0 None issueToken noise_ik [] [] 0 0 None Stopped relayEndpoint None None [] [] [] f.

(** ** Sockets *)

Definition ready (socket : nat) (s : Bridge) : Ready := default CLOSED (sockets s !! socket).
Definition is_open (socket : nat) (s : Bridge) : bool := bool_decide (ready socket s = OPEN).

Definition closing (r : Ready) : Ready := match r with OPEN => CLOSING | r => r end.
Definition close_socket (socket : nat) (s : Bridge) : Bridge := set_sockets (alter closing socket (sockets s)) s.
Definition closeQuietly (socket : option nat) (s : Bridge) : Bridge :=
  match socket with Some x => close_socket x s | None => s end.

(** A socket that opened gets the next number. *)
Definition open_socket (s : Bridge) : nat * Bridge := (length (sockets s), set_sockets (sockets s ++ [OPEN]) s).

Definition add_task (t : Task) (s : Bridge) : Bridge := set_tasks (tasks s ++ [t]) s.
Definition recordError (code : BridgeErrorCode) (now : Z) (s : Bridge) : Bridge := set_lastError (Some (code, now)) s.
Definition forget_sockets (s : Bridge) : Bridge := set_daemonWs None (set_relayWs None s).

(** ** Sending *)

Definition sendToAll (relay : nat) (payload : string) (now : Z) (s : Bridge) : Bridge * list Effect :=
  let '(sessions, frames) := sendToAllRelaySessions (relaySessions s) payload (keyRotateAfterMessages options) now
                               RELAY_SESSION_IDLE_TTL_MS in
  (set_relaySessions sessions s, ToRelay relay <$> frames).

(** The loop that drops the oldest payloads.  An empty payload is never queued. *)
Fixpoint shed (maxLength maxBytes : Z) (queue : list string) (bytes : Z) : list string * Z :=
  match queue with
  | [] => ([], bytes)
  | dropped :: rest =>
      if (maxLength <? Z.of_nat (length queue)) || (maxBytes <? bytes) then
        if truthy_str dropped then shed maxLength maxBytes rest (bytes - byteLength dropped) else (rest, bytes)
      else (queue, bytes)
  end.

Definition enqueue (payload : string) (s : Bridge) : Bridge :=
  let '(queue, bytes) := shed (coalesce (maxPendingOutbound options) DEFAULT_MAX_PENDING_OUTBOUND)
    (coalesce (maxPendingOutboundBytes options) DEFAULT_MAX_PENDING_OUTBOUND_BYTES)
    (pendingOutbound s ++ [payload]) (pendingOutboundBytes s + byteLength payload) in
  set_pendingOutboundBytes bytes (set_pendingOutbound queue s).

(** [daemonWs.on('message')] *)
Definition handleDaemonMessage (relay : nat) (payload : string) (now : Z) (s : Bridge) : Bridge * list Effect :=
  let '(filtered, f) := filterDaemonPayload (filter_state s) payload in
  let s := set_filter_state f s in
  match filtered with
  | None => (s, [])
  | Some p => if negb (truthy_str p) then (s, [])
              else if is_open relay s then sendToAll relay p now s
              else (enqueue p s, [])
  end.

(** The loop of [flushPendingOutbound]; sending does not close the socket. *)
Fixpoint flush_loop (relay : nat) (queue : list string) (now : Z) (s : Bridge) : Bridge * list Effect :=
  match queue with
  | [] => (s, [])
  | next :: rest =>
      let s := set_pendingOutbound rest s in
      if negb (truthy_str next) then (s, [])
      else
        let s := set_pendingOutboundBytes (pendingOutboundBytes s - byteLength next) s in
        let '(s, out) := sendToAll relay next now s in
        let '(s, outs) := flush_loop relay rest now s in (s, out ++ outs)
  end.
Definition flushPendingOutbound (now : Z) (s : Bridge) : Bridge * list Effect :=
  match relayWs s with
  | None => (s, [])
  | Some relay =>
      if negb (is_open relay s) then (s, [])
      else
        let '(s, out) := flush_loop relay (pendingOutbound s) now s in
        (if pendingOutboundBytes s <? 0 then set_pendingOutboundBytes 0 s else s, out)
  end.

(** ** Frames of the relay *)

Definition reply (relay : nat) (frame : Outbound) (s : Bridge) : list Effect :=
  if is_open relay s then [ToRelay relay frame] else [].

Definition enforceCapacity (now : Z) (s : Bridge) : Bridge :=
  set_relaySessions (enforceRelaySessionCapacity (relaySessions s) (relaySessionMaxEntries options) now
                       RELAY_SESSION_IDLE_TTL_MS) s.

Definition derive (kex : Kex) (identity : DaemonRelayIdentity) (nextEpoch : Z) (pairingSecret : option string)
    (draws : Draws) : option (DerivedRelaySession * Outbound) :=
  match kex with
  | KexV2 init =>
      '(session, response) ← deriveSessionFromKeyExchange init identity nextEpoch pairingSecret (d_nonce draws) (d_sessionId draws);
      Some (session, KexResponseV2 response)
  | KexV3 init =>
      '(session, response) ← deriveNoiseV3SessionFromInit init identity nextEpoch pairingSecret (d_ephemeral draws) (d_sessionId draws);
      Some (session, KexResponseV3 response)
  end.

(** The end of [handleKeyExchangeInit] and [handleKeyExchangeInitV3]. *)
Definition kex_finish (relay : nat) (kex : Kex) (nextEpoch : Z) (previous pairingSecret : option string)
    (now : Z) (draws : Draws) (s : Bridge) : Bridge * list Effect :=
  match daemonIdentity s with
  | None => (s, [])
  | Some identity =>
      match derive kex identity nextEpoch pairingSecret draws with
      | None => (recordError KEY_EXCHANGE_FAILED now s, [])
      | Some (session, response) =>
          let sessions := match previous with Some p => jm_delete p (relaySessions s) | None => relaySessions s end in
          let sessions := jm_set (ds_sessionId session) (createRelaySessionState session now) sessions in
          let s := enforceCapacity now (set_relaySessions sessions s) in
          (s, reply relay response s)
      end
  end.

(** The session a key exchange replaces: none is asked for, it may not be replaced, or
    the next epoch and its id. *)
Definition check_previous (kex : Kex) (s : Bridge) : option (Z * option string) :=
  if negb (truthy_opt (kex_previous kex)) then Some (1, None)
  else
    id ← kex_previous kex;
    previous ← jm_get id (relaySessions s);
    if negb (bool_decide (rs_profile previous = kex_profile kex)) then None
    else if negb (keyRotationRequested previous) then None
    else Some (rs_epoch previous + 1, Some id).

Definition handleKeyExchange (relay : nat) (kex : Kex) (now : Z) (draws : Draws) (s : Bridge) : Bridge * list Effect :=
  if bool_decide (daemonIdentity s = None) then (s, [])
  else if negb (isCompatibleProfile (requiredProfile s) (kex_profile kex)) then (s, [])
  else match check_previous kex s with
       | None => (s, [])
       | Some (nextEpoch, previous) =>
           match kex_profile kex with
           | noise_ikpsk2 => (add_task (AwaitSecret relay kex nextEpoch previous) s, [])
           | noise_ik => kex_finish relay kex nextEpoch previous None now draws s
           end
       end.

(** [resolvePolicyCPairingSecret], given what the store has for the peer. *)
Definition resolvePolicyCPairingSecret (peerId : option string) (resolved : option string) : option string :=
  if negb (truthy_opt peerId) || negb (nonblank (coalesce peerId "")) then None
  else secret ← resolved; if (String.length secret =? 32)%nat then Some secret else None.

(** [relay_status] and [relay_key_update_required]. *)
Definition handle_control (daemon relay : nat) (frame : RelayControlFrame) (now : Z) (s : Bridge) : Bridge :=
  match frame with
  | RelayStatus f =>
      match as_string (field f "relayWsBaseUrl") with
      | Some url =>
          if is_str (field f "code") "RELAY_REDIRECT" && nonblank url && negb (String.eqb url (relayEndpoint s))
          then close_socket daemon (close_socket relay (recordError WEBSOCKET_ERROR now (set_relayEndpoint url s)))
          else s
      | None => s
      end
  | RelayKeyUpdateRequired sessionId nextEpoch =>
      match jm_get sessionId (relaySessions s) with
      | None => s
      | Some session =>
          if is_int (Some nextEpoch) (rs_epoch session + 1)
          then set_relaySessions (jm_set sessionId (with_rotation session) (relaySessions s)) s else s
      end
  end.

(** [handleRelayControlFrame] up to its first await; a frame it does not handle goes on
    as an envelope after that await. *)
Definition handleRelayMessage (daemon relay : nat) (text : string) (now : Z) (draws : Draws) (s : Bridge) :
    Bridge * list Effect :=
  let envelope := (add_task (AwaitEnvelope daemon relay text) s, []) in
  match JSON_parse text with
  | None => envelope
  | Some v =>
      match parsePairingOfferRequestFrame v, parsePairingRedeemRequestFrame v with
      | Some frame, _ =>
          let '(keys, result) := offer_begin url_host_port (pairingChannelKeys s) frame (o_workspaceId options)
            (o_daemonWsUrl options) now (pairingChannelTtlMs options) (pairingChannelMaxEntries options) (d_channel draws) in
          let s := set_pairingChannelKeys keys s in
          match result with
          | inl call => (add_task (AwaitOffer relay call) s, [])
          | inr payload => (s, reply relay (PairingReply payload) s)
          end
      | None, Some frame =>
          let '(keys, result) := redeem_begin (pairingChannelKeys s) frame now (pairingChannelTtlMs options)
            (pairingChannelMaxEntries options) in
          let s := set_pairingChannelKeys keys s in
          match result with
          | inl call => (add_task (AwaitRedeem relay call) s, [])
          | inr payload => (s, reply relay (PairingReply payload) s)
          end
      | None, None =>
          match parseRelayKeyExchangeInitFrameV3 v, parseRelayKeyExchangeInitFrame v, isRelayControlFrame v with
          | Some init, _, _ => handleKeyExchange relay (KexV3 init) now draws s
          | None, Some init, _ => handleKeyExchange relay (KexV2 init) now draws s
          | None, None, Some frame => (handle_control daemon relay frame now s, [])
          | None, None, None => envelope
          end
      end
  end.

(** The rest of [relayWs.on('message')]. *)
Definition handleEnvelope (daemon : nat) (text : string) (now : Z) (s : Bridge) : Bridge * list Effect :=
  match parseRelayEnvelope text with
  | None => (recordError ENVELOPE_DECRYPT_FAILED now s, [])
  | Some e =>
      match jm_get (e_sessionId e) (relaySessions s) with
      | None => (s, [])
      | Some session =>
          if negb (bool_decide (rs_profile session = e_profile e)) || negb (rs_epoch session =? e_epoch e) then (s, [])
          else
            let '(ok, session) := acceptInboundRelaySeq session (e_seq e) in
            if negb ok then (s, [])
            else match decryptEnvelope (rs_key session) e with
                 | None => (recordError ENVELOPE_DECRYPT_FAILED now
                              (set_relaySessions (jm_set (e_sessionId e) session (relaySessions s)) s), [])
                 | Some plaintext =>
                     let session := with_tx (txSeq session) now session in
                     let s := set_relaySessions (jm_set (e_sessionId e) session (relaySessions s)) s in
                     (s, if is_open daemon s then [ToDaemon daemon (e_sessionId e) (e_epoch e) (e_seq e) plaintext] else [])
                 end
      end
  end.

(** ** The connection loop *)

(** From the attempt counter to [await this.ensureKeyMaterial()]. *)
Definition connect_attempt (s : Bridge) : Bridge :=
  add_task AwaitIdentity (set_reconnectAttempt (reconnectAttempt s + 1) s).

Definition connectLoop (now : Z) (s : Bridge) : Bridge :=
  if negb (running s) then s
  else if reconnecting s then s
  else
    let s := set_status Connecting (set_reconnecting true s) in
    if now <? circuitOpenUntilMs s then add_task AwaitCircuit (set_status CircuitOpen s) else connect_attempt s.

(** The catch clause, up to the sleep. *)
Definition connect_failed (code : BridgeErrorCode) (now : Z) (s : Bridge) : Bridge :=
  let s := forget_sockets (closeQuietly (daemonWs s) (closeQuietly (relayWs s) s)) in
  let s := recordError code now (set_relaySessions [] s) in
  let s :=
    if isControlPlaneBridgeError code then
      let s := set_consecutiveIssueFailures (consecutiveIssueFailures s + 1) s in
      if ISSUE_FAILURE_THRESHOLD <=? consecutiveIssueFailures s
      then set_circuitOpenUntilMs (now + CIRCUIT_BREAKER_MS) s else s
    else s in
  if running s then add_task AwaitBackoff (set_status WaitingRetry s) else set_reconnecting false s.

(** [setDaemonIssueToken] when the token is new: storing an equal one changes nothing. *)
Definition register_token (issueToken : string) (s : Bridge) : Bridge :=
  if truthy_str issueToken then set_daemonIssueToken (Some issueToken) s else s.

Definition token_issued (relayToken : string) (profile : RelayHandshakeProfile) (s : Bridge) : Bridge :=
  add_task (AwaitDaemonSocket relayToken)
    (set_circuitOpenUntilMs 0 (set_consecutiveIssueFailures 0 (set_relaySessions [] (set_requiredProfile profile s)))).

Definition relay_opened (daemon : nat) (now : Z) (s : Bridge) : Bridge * list Effect :=
  let '(relay, s) := open_socket s in
  let s := set_reconnectAttempt 0 (set_status Connected (set_relayWs (Some relay) s)) in
  let '(s, out) := flushPendingOutbound now (set_connections (connections s ++ [(daemon, relay)]) s) in
  (set_reconnecting false s, out).

(** The closure [reconnect] of a pair of sockets. *)
Definition reconnect (daemon relay : nat) (now : Z) (s : Bridge) : Bridge :=
  if negb (running s) then s
  else if reconnecting s then s
  else
    let s := close_socket daemon (close_socket relay (recordError WEBSOCKET_ERROR now s)) in
    connectLoop now (set_status WaitingRetry (set_relaySessions [] (forget_sockets s))).

Definition stop (s : Bridge) : Bridge :=
  let s := set_reconnecting false (set_running false s) in
  let s := forget_sockets (closeQuietly (daemonWs s) (closeQuietly (relayWs s) s)) in
  set_status Stopped (set_pairingChannelKeys [] (set_relaySessions [] (set_pendingOutboundBytes 0 (set_pendingOutbound [] s)))).

Definition start (now : Z) (s : Bridge) : Bridge :=
  if running s then s
  else connectLoop now (set_status Connecting (set_reconnectAttempt 0 (set_running true s))).

(** ** Events *)

(** A task resumes.  An answer that is not one of its awaited call does nothing. *)
Definition resume (t : Task) (answer : Answer) (now : Z) (draws : Draws) (s : Bridge) : option (Bridge * list Effect) :=
  match t, answer with
  | AwaitCircuit, Slept => Some (connect_attempt s, [])
  | AwaitIdentity, IdentityLoaded identity =>
      Some (add_task AwaitRegister
              (if bool_decide (daemonIdentity s = None) then set_daemonIdentity (Some identity) s else s), [])
  | AwaitRegister, KeyRegistered issueToken => Some (add_task AwaitIssue (register_token issueToken s), [])
  | AwaitIssue, TokenIssued relayToken profile =>
      Some (if truthy_str relayToken then token_issued relayToken profile s
            else connect_failed TOKEN_RESPONSE_INVALID now s, [])
  | AwaitDaemonSocket relayToken, SocketOpened =>
      let '(daemon, s) := open_socket s in
      Some (add_task (AwaitRelaySocket relayToken daemon) (set_daemonWs (Some daemon) s), [])
  | AwaitRelaySocket _ daemon, SocketOpened => Some (relay_opened daemon now s)
  | (AwaitIdentity | AwaitRegister | AwaitIssue | AwaitDaemonSocket _ | AwaitRelaySocket _ _), Failed code =>
      Some (connect_failed code now s, [])
  | AwaitBackoff, Slept => Some (connectLoop now (set_reconnecting false s), [])
  | AwaitEnvelope daemon _ text, Slept => Some (handleEnvelope daemon text now s)
  | AwaitSecret relay kex nextEpoch previous, SecretResolved resolved =>
      match resolvePolicyCPairingSecret (kex_peer kex) resolved with
      | None => Some (s, [])
      | Some secret => Some (kex_finish relay kex nextEpoch previous (Some secret) now draws s)
      end
  | AwaitOffer relay call, OfferIssued issued =>
      let '(keys, payload) := offer_end (pairingChannelKeys s) call issued now (d_iv draws) in
      let s := set_pairingChannelKeys keys s in
      Some (s, reply relay (PairingReply payload) s)
  | AwaitRedeem relay call, OfferRedeemed answer =>
      let '(keys, payload) := redeem_end (pairingChannelKeys s) call answer in
      let s := set_pairingChannelKeys keys s in
      Some (s, reply relay (PairingReply payload) s)
  | _, _ => None
  end.

(** The handlers of a socket are those of the pair it is in. *)
Definition pair_of (socket : nat) (s : Bridge) : option (nat * nat) :=
  find_first (λ c, (c.1 =? socket)%nat || (c.2 =? socket)%nat) (connections s).

Definition step (s : Bridge) (e : Event) : Bridge * list Effect :=
  match e with
  | Start now => (start now s, [])
  | Stop => (stop s, [])
  | DaemonMessage daemon relay payload now =>
      if bool_decide ((daemon, relay) ∈ connections s) then handleDaemonMessage relay payload now s else (s, [])
  | RelayMessage daemon relay text now draws =>
      if bool_decide ((daemon, relay) ∈ connections s) then handleRelayMessage daemon relay text now draws s else (s, [])
  | SocketClosed socket now =>
      let s := set_sockets (alter (λ _, CLOSED) socket (sockets s)) s in
      match pair_of socket s with
      | Some (daemon, relay) => (reconnect daemon relay now s, [])
      | None => (s, [])
      end
  | Answered i answer now draws =>
      match tasks s !! i with
      | None => (s, [])
      | Some t => match resume t answer now draws (set_tasks (delete i (tasks s)) s) with
                  | Some result => result
                  | None => (s, [])
                  end
      end
  end.

Fixpoint run (s : Bridge) (events : list Event) : Bridge * list Effect :=
  match events with
  | [] => (s, [])
  | e :: events => let '(s, out) := step s e in let '(s, outs) := run s events in (s, out ++ outs)
  end.
End Bridge.
