(* ===== verification/BridgeProps.v ===== *)
(** * The relay bridge: what its steps do

    Every step of the bridge changes the sessions in one of five ways ([Trans]); the
    properties of the sessions follow from these.  [keeps] says what the handlers of
    frames leave alone; the properties of the connection loop and of the queue follow
    from it. *)

From S2P Require Import Prelude JsString JsMap Json JsonText Noise RelaySessions PairingChannel Bridge.
From stdpp Require Import prelude strings list.
From Stdlib Require Import ZArith Lia Ascii.

Open Scope Z_scope.

Notation sessions_map := (list (string * RelaySession)).

(** ** Observations of effects and events *)

(** The session and number of an envelope sent. *)
Definition sent_key (e : Effect) : option (string * Z) :=
  match e with ToRelay _ (Envelope _ _ sessionId _ seq _) => Some (sessionId, seq) | _ => None end.
(** The session and number of an envelope whose plaintext the daemon got. *)
Definition delivered_key (e : Effect) : option (string * Z) :=
  match e with ToDaemon _ sessionId _ seq _ => Some (sessionId, seq) | _ => None end.
Definition sent (out : list Effect) : list (string * Z) := omap sent_key out.
Definition delivered (out : list Effect) : list (string * Z) := omap delivered_key out.
(** No envelope and no plaintext. *)
Definition quiet (out : list Effect) : Prop := sent out = [] ∧ delivered out = [].

(** The session id drawn for an event. *)
Definition event_id (e : Event) : option string :=
  match e with
  | RelayMessage _ _ _ _ draws | Answered _ _ _ draws => Some (d_sessionId draws)
  | _ => None
  end.

(** ** The five ways *)

(** What no step but a delivery and a sending changes of a session. *)
Definition same_counters (s s' : RelaySession) : Prop :=
  rs_sessionId s' = rs_sessionId s ∧ rs_profile s' = rs_profile s ∧ txSeq s' = txSeq s ∧
  rxHighestSeq s' = rxHighestSeq s ∧ rxSeenSeq s' = rxSeenSeq s.

Definition shrinks (m m' : sessions_map) : Prop :=
  (NoDup_keys m → NoDup_keys m') ∧ jm_size m' ≤ jm_size m ∧
  (NoDup_keys m → ∀ id s', jm_get id m' = Some s' → ∃ s, jm_get id m = Some s ∧ same_counters s s').

Inductive Sends (rotateAfter : Z) : sessions_map → sessions_map → list Outbound → Prop :=
| Sends_nil m : Sends rotateAfter m m []
| Sends_cons m payload now m' out m'' outs :
    sendToAllRelaySessions m payload rotateAfter now RELAY_SESSION_IDLE_TTL_MS = (m', out) →
    Sends rotateAfter m' m'' outs → Sends rotateAfter m m'' (out ++ outs).

Section Props.
Context `{Crypto}.
Variable url_host_port : string → option (string * string).
Variable F : Type.
Variable filterDaemonPayload : F → string → option string * F.
Variable options : Options.
Notation Bridge := (Bridge F).
Notation step := (step url_host_port F filterDaemonPayload options).
Notation run := (run url_host_port F filterDaemonPayload options).

Inductive Trans (drawn : option string) (p : RelayHandshakeProfile) (m : sessions_map) :
    RelayHandshakeProfile → sessions_map → list Effect → Prop :=
| T_shrink m' out : shrinks m m' → quiet out → Trans drawn p m p m' out
| T_clear p' out : quiet out → Trans drawn p m p' [] out
| T_sends relay m' frames : Sends (keyRotateAfterMessages options) m m' frames →
    Trans drawn p m p m' (ToRelay relay <$> frames)
| T_new session m1 now out : shrinks m m1 → isCompatibleProfile p (ds_profile session) = true →
    drawn = Some (ds_sessionId session) → quiet out →
    Trans drawn p m p
      (enforceRelaySessionCapacity (jm_set (ds_sessionId session) (createRelaySessionState session now) m1)
         (relaySessionMaxEntries options) now RELAY_SESSION_IDLE_TTL_MS) out
| T_accept id s q s1 s2 out : jm_get id m = Some s → acceptInboundRelaySeq s q = (true, s1) → same_counters s1 s2 →
    (quiet out ∨ ∃ daemon epoch plaintext, out = [ToDaemon daemon id epoch q plaintext]) →
    Trans drawn p m p (jm_set id s2 m) out.

Lemma quiet_nil : quiet [].
Proof. done. Qed.
Lemma same_counters_refl s : same_counters s s.
Proof. done. Qed.

Lemma shrinks_refl m : shrinks m m.
Proof. split; [done|]. split; [lia|]. intros _ id s' Hs. exists s'. done. Qed.
Lemma shrinks_filter f m : shrinks m (jm_filter f m).
Proof.
  split; [apply NoDup_keys_filter|]. split; [apply jm_size_filter|]. intros Hnd id s' Hs.
  exists s'. split; [|done]. rewrite jm_get_filter in Hs by done. by destruct (jm_get id m); [case_match|].
Qed.
Lemma shrinks_delete id m : shrinks m (jm_delete id m).
Proof. apply shrinks_filter. Qed.
Lemma shrinks_update id s s' m : jm_get id m = Some s → same_counters s s' → shrinks m (jm_set id s' m).
Proof.
  intros Hs Hc. split; [apply NoDup_keys_set|]. split.
  - rewrite jm_size_set, decide_True; [lia|]. by eapply jm_get_Some_key.
  - intros _ id' x Hx. destruct (decide (id' = id)) as [->|].
    + rewrite jm_get_set_eq in Hx. simplify_eq. by exists s.
    + rewrite jm_get_set_ne in Hx by done. by exists x.
Qed.

Lemma quiet_reply relay frame (s : Bridge) : (∀ k p i e q t, frame ≠ Envelope k p i e q t) → quiet (reply F relay frame s).
Proof. intros Hf. unfold reply. destruct (is_open F relay s); [|done]. destruct frame; try done. by edestruct Hf. Qed.

(** ** Each handler's transition *)

Definition trans (drawn : option string) (s s' : Bridge) (out : list Effect) : Prop :=
  Trans drawn (requiredProfile F s) (relaySessions F s) (requiredProfile F s') (relaySessions F s') out.

Lemma trans_same drawn s s' out : requiredProfile F s' = requiredProfile F s → relaySessions F s' = relaySessions F s →
  quiet out → trans drawn s s' out.
Proof. intros E1 E2 Hq. unfold trans. rewrite E1, E2. apply T_shrink; [apply shrinks_refl|done]. Qed.

Lemma trans_clear drawn s s' : relaySessions F s' = [] → trans drawn s s' [].
Proof. intros E. unfold trans. rewrite E. by apply T_clear. Qed.

(** Splits the binds and tests of a computation that succeeded. *)
Ltac succeed H :=
  repeat first
    [ match type of H with
      | mbind _ ?x = Some _ => let E := fresh "E" in destruct x eqn:E; cbn [mbind option_bind] in H; [|discriminate H]
      | (if ?b then None else _) = Some _ => destruct b; [discriminate H|]
      | (let '(_, _) := ?x in _) = Some _ => destruct x
      end ].

Lemma derive_v2_facts init identity nextEpoch secret nonce sid session response :
  deriveSessionFromKeyExchange init identity nextEpoch secret nonce sid = Some (session, response) →
  ds_sessionId session = sid ∧ ds_profile session = i2_profile init ∧ ds_epoch session = Z.max 1 nextEpoch.
Proof. unfold deriveSessionFromKeyExchange. intros Hd. cbv zeta in Hd. succeed Hd. injection Hd as <- <-. done. Qed.

Lemma derive_v3_facts init identity nextEpoch secret eph sid session response :
  deriveNoiseV3SessionFromInit init identity nextEpoch secret eph sid = Some (session, response) →
  ds_sessionId session = sid ∧ ds_profile session = i3_profile init ∧ ds_epoch session = Z.max 1 nextEpoch.
Proof. unfold deriveNoiseV3SessionFromInit. intros Hd. cbv zeta in Hd. succeed Hd. injection Hd as <- <-. done. Qed.

Lemma derive_facts kex identity nextEpoch secret draws session response :
  derive kex identity nextEpoch secret draws = Some (session, response) →
  ds_sessionId session = d_sessionId draws ∧ ds_profile session = kex_profile kex ∧
  ds_epoch session = Z.max 1 nextEpoch ∧ (∀ k p i e q t, response ≠ Envelope k p i e q t).
Proof.
  unfold derive. destruct kex as [init|init]; intros Hd; succeed Hd; simplify_eq.
  - destruct (derive_v2_facts _ _ _ _ _ _ _ _ E) as (? & ? & ?). done.
  - destruct (derive_v3_facts _ _ _ _ _ _ _ _ E) as (? & ? & ?). done.
Qed.

Lemma trans_kex_finish drawn relay kex nextEpoch previous secret now draws (s : Bridge) :
  drawn = Some (d_sessionId draws) → isCompatibleProfile (requiredProfile F s) (kex_profile kex) = true →
  let '(s', out) := kex_finish F options relay kex nextEpoch previous secret now draws s in trans drawn s s' out.
Proof.
  intros -> Hp. unfold kex_finish. destruct (daemonIdentity F s) as [identity|]; [|by apply trans_same].
  destruct (derive kex identity nextEpoch secret draws) as [[session response]|] eqn:Ed; [|by apply trans_same].
  apply derive_facts in Ed as (E1 & E2 & _ & E3). unfold trans. simpl.
  apply T_new; [|by rewrite E2|by rewrite E1|by apply quiet_reply].
  destruct previous; [apply shrinks_delete|apply shrinks_refl].
Qed.

Lemma trans_handleKeyExchange drawn relay kex now draws (s : Bridge) : drawn = Some (d_sessionId draws) →
  let '(s', out) := handleKeyExchange F options relay kex now draws s in trans drawn s s' out.
Proof.
  intros Hd. unfold handleKeyExchange. destruct (bool_decide _); [by apply trans_same|].
  destruct (isCompatibleProfile _ _) eqn:Ep; [cbn [negb]|by apply trans_same].
  destruct (check_previous F kex s) as [[nextEpoch previous]|]; [|by apply trans_same].
  destruct (kex_profile kex) eqn:Ek; [|by apply trans_same].
  apply trans_kex_finish; [done|]. by rewrite Ek.
Qed.

Lemma trans_control drawn daemon relay frame now (s : Bridge) : trans drawn s (handle_control F daemon relay frame now s) [].
Proof.
  unfold handle_control. destruct frame as [f|sid nextEpoch].
  - destruct (as_string _); [|by apply trans_same]. destruct (_ && _ && _); by apply trans_same.
  - destruct (jm_get sid (relaySessions F s)) as [x|] eqn:Ex; [|by apply trans_same].
    destruct (is_int _ _); [|by apply trans_same]. unfold trans. simpl. apply T_shrink; [|done].
    by apply (shrinks_update _ x).
Qed.

Lemma trans_relay_message drawn daemon relay text now draws (s : Bridge) : drawn = Some (d_sessionId draws) →
  let '(s', out) := handleRelayMessage url_host_port F options daemon relay text now draws s in trans drawn s s' out.
Proof.
  intros Hd. unfold handleRelayMessage. destruct (JSON_parse text) as [v|]; [|by apply trans_same].
  destruct (parsePairingOfferRequestFrame v) as [fr|].
  { destruct (offer_begin _ _ _ _ _ _ _ _ _) as [keys [call|payload]]; apply trans_same; try done. by apply quiet_reply. }
  destruct (parsePairingRedeemRequestFrame v) as [fr|].
  { destruct (redeem_begin _ _ _ _ _) as [keys [call|payload]]; apply trans_same; try done. by apply quiet_reply. }
  destruct (parseRelayKeyExchangeInitFrameV3 v) as [init|]; [by apply trans_handleKeyExchange|].
  destruct (parseRelayKeyExchangeInitFrame v) as [init|]; [by apply trans_handleKeyExchange|].
  destruct (isRelayControlFrame v) as [fr|]; [apply trans_control|by apply trans_same].
Qed.

Lemma trans_envelope drawn daemon text now (s : Bridge) :
  let '(s', out) := handleEnvelope F daemon text now s in trans drawn s s' out.
Proof.
  unfold handleEnvelope. destruct (parseRelayEnvelope text) as [e|]; [|by apply trans_same].
  destruct (jm_get (e_sessionId e) (relaySessions F s)) as [x|] eqn:Ex; [|by apply trans_same].
  destruct (_ || _); [by apply trans_same|].
  destruct (acceptInboundRelaySeq x (e_seq e)) as [[] x'] eqn:Ea; [|by apply trans_same]. cbn [negb].
  destruct (decryptEnvelope _ _) as [plaintext|]; unfold trans; simpl; (eapply T_accept; [done|done|done|]).
  - destruct (is_open _ _ _); [|by left]. right. by eexists _, _, _.
  - by left.
Qed.

Lemma trans_sendToAll drawn relay payload now (s : Bridge) :
  let '(s', out) := sendToAll F options relay payload now s in trans drawn s s' out.
Proof.
  unfold sendToAll. destruct (sendToAllRelaySessions _ _ _ _ _) as [m out] eqn:E. unfold trans. simpl.
  rewrite <- (app_nil_r out). eapply T_sends, Sends_cons; [done|constructor].
Qed.

Lemma flush_sends relay queue now : ∀ (s : Bridge), ∃ frames,
  let '(s', out) := flush_loop F options relay queue now s in
  requiredProfile F s' = requiredProfile F s ∧ out = ToRelay relay <$> frames ∧
  Sends (keyRotateAfterMessages options) (relaySessions F s) (relaySessions F s') frames.
Proof.
  induction queue as [|next rest IH]; intros s; simpl; [exists []; repeat constructor|].
  destruct (truthy_str next); simpl; [|exists []; repeat constructor].
  unfold sendToAll. cbn [relaySessions set_pendingOutboundBytes set_pendingOutbound].
  destruct (sendToAllRelaySessions _ _ _ _ _) as [m out] eqn:E.
  match goal with |- context [flush_loop _ _ _ _ _ ?s'] => destruct (IH s') as [frames Hf] end.
  destruct (flush_loop _ _ _ _ _ _) as [s'' outs]. destruct Hf as (Hp & -> & Hs). exists (out ++ frames).
  split; [done|]. split; [by rewrite fmap_app|]. by eapply Sends_cons.
Qed.

Lemma trans_flush drawn now (s : Bridge) : let '(s', out) := flushPendingOutbound F options now s in trans drawn s s' out.
Proof.
  unfold flushPendingOutbound. destruct (relayWs F s) as [relay|]; [|by apply trans_same].
  destruct (is_open F relay s); [cbn [negb]|by apply trans_same].
  destruct (flush_sends relay (pendingOutbound F s) now s) as [frames Hf].
  destruct (flush_loop _ _ _ _ _ _) as [s' out]. destruct Hf as (Hp & -> & Hs). unfold trans.
  destruct (pendingOutboundBytes F s' <? 0); simpl; rewrite Hp; by apply T_sends.
Qed.

(** ** What the handlers of frames leave alone *)

(** A pairing secret is only looked up for the profile that needs one. *)
Definition task_ok (t : Task) : Prop :=
  match t with AwaitSecret _ kex _ _ => kex_profile kex = noise_ikpsk2 | _ => True end.
Definition tasks_ok (s : Bridge) : Prop := Forall task_ok (tasks F s).

Record keeps (s s' : Bridge) : Prop := {
  ke_running : running F s' = running F s;
  ke_reconnecting : reconnecting F s' = reconnecting F s;
  ke_relayWs : relayWs F s' = relayWs F s;
  ke_connections : connections F s' = connections F s;
  ke_closed : ∀ x, ready F x s' = CLOSED → ready F x s = CLOSED;
  ke_queue : pendingOutbound F s' = pendingOutbound F s;
  ke_bytes : pendingOutboundBytes F s' = pendingOutboundBytes F s;
  ke_tasks : ∃ new, tasks F s' = tasks F s ++ new ∧ Forall task_ok new
}.

Lemma untouched_refl s : keeps s s.
Proof. split; try done. exists []. by rewrite app_nil_r. Qed.
Lemma untouched_trans s1 s2 s3 : keeps s1 s2 → keeps s2 s3 → keeps s1 s3.
Proof.
  intros [] []. split; try congruence; auto.
  destruct ke_tasks0 as (n1 & E1 & F1), ke_tasks1 as (n2 & E2 & F2). exists (n1 ++ n2).
  rewrite E2, E1, app_assoc. split; [done|]. by apply Forall_app.
Qed.

(** Fields the record does not mention are free. *)
Ltac keeps_fields := split; try done; exists []; by rewrite app_nil_r.
Lemma keeps_sessions v s : keeps s (set_relaySessions F v s). Proof. keeps_fields. Qed.
Lemma keeps_keys v s : keeps s (set_pairingChannelKeys F v s). Proof. keeps_fields. Qed.
Lemma keeps_error code now s : keeps s (recordError F code now s). Proof. keeps_fields. Qed.
Lemma keeps_endpoint v s : keeps s (set_relayEndpoint F v s). Proof. keeps_fields. Qed.
Lemma keeps_filter v s : keeps s (set_filter_state F v s). Proof. keeps_fields. Qed.
Lemma keeps_task t s : task_ok t → keeps s (add_task F t s).
Proof. intros Ht. split; try done. exists [t]. split; [done|]. by constructor. Qed.

Lemma ready_close x y (s : Bridge) : ready F x (close_socket F y s) = CLOSED → ready F x s = CLOSED.
Proof.
  unfold ready, close_socket. simpl. rewrite list_lookup_alter. destruct (decide (y = x)) as [->|]; [|done].
  by destruct (sockets F s !! x) as [[]|].
Qed.
Lemma keeps_close y s : keeps s (close_socket F y s).
Proof. split; try done; [intros z; apply (ready_close z y s)|]. exists []. by rewrite app_nil_r. Qed.

Lemma keeps_kex_finish relay kex nextEpoch previous secret now draws s :
  keeps s (kex_finish F options relay kex nextEpoch previous secret now draws s).1.
Proof.
  unfold kex_finish. destruct (daemonIdentity F s); [|apply untouched_refl].
  destruct (derive _ _ _ _ _) as [[session response]|]; [|apply keeps_error].
  eapply untouched_trans; [apply keeps_sessions|]. apply keeps_sessions.
Qed.

Lemma keeps_handleKeyExchange relay kex now draws s : keeps s (handleKeyExchange F options relay kex now draws s).1.
Proof.
  unfold handleKeyExchange. destruct (bool_decide _); [apply untouched_refl|].
  destruct (negb _); [apply untouched_refl|]. destruct (check_previous F kex s) as [[nextEpoch previous]|]; [|apply untouched_refl].
  destruct (kex_profile kex) eqn:Ek; [apply keeps_kex_finish|by apply keeps_task].
Qed.

Lemma keeps_control daemon relay frame now s : keeps s (handle_control F daemon relay frame now s).
Proof.
  unfold handle_control. destruct frame as [f|sid nextEpoch].
  - destruct (as_string _); [|apply untouched_refl]. destruct (_ && _ && _); [|apply untouched_refl].
    eapply untouched_trans; [|apply keeps_close]. eapply untouched_trans; [|apply keeps_close].
    eapply untouched_trans; [apply keeps_endpoint|apply keeps_error].
  - destruct (jm_get sid _); [|apply untouched_refl]. destruct (is_int _ _); [apply keeps_sessions|apply untouched_refl].
Qed.

Lemma keeps_relay_message daemon relay text now draws s :
  keeps s (handleRelayMessage url_host_port F options daemon relay text now draws s).1.
Proof.
  unfold handleRelayMessage. destruct (JSON_parse text) as [v|]; [|by apply keeps_task].
  destruct (parsePairingOfferRequestFrame v) as [fr|].
  { destruct (offer_begin _ _ _ _ _ _ _ _ _) as [keys [call|payload]]; [|apply keeps_keys].
    eapply untouched_trans; [apply keeps_keys|by apply keeps_task]. }
  destruct (parsePairingRedeemRequestFrame v) as [fr|].
  { destruct (redeem_begin _ _ _ _ _) as [keys [call|payload]]; [|apply keeps_keys].
    eapply untouched_trans; [apply keeps_keys|by apply keeps_task]. }
  destruct (parseRelayKeyExchangeInitFrameV3 v) as [init|]; [apply keeps_handleKeyExchange|].
  destruct (parseRelayKeyExchangeInitFrame v) as [init|]; [apply keeps_handleKeyExchange|].
  destruct (isRelayControlFrame v) as [fr|]; [apply keeps_control|by apply keeps_task].
Qed.

Lemma keeps_envelope daemon text now s : keeps s (handleEnvelope F daemon text now s).1.
Proof.
  unfold handleEnvelope. destruct (parseRelayEnvelope text) as [e|]; [|apply keeps_error].
  destruct (jm_get _ _) as [x|]; [|apply untouched_refl]. destruct (_ || _); [apply untouched_refl|].
  destruct (acceptInboundRelaySeq x (e_seq e)) as [[] x']; [cbn [negb]|apply untouched_refl].
  destruct (decryptEnvelope _ _); [apply keeps_sessions|].
  eapply untouched_trans; [apply keeps_sessions|apply keeps_error].
Qed.

Lemma keeps_sendToAll relay payload now s : keeps s (sendToAll F options relay payload now s).1.
Proof. unfold sendToAll. destruct (sendToAllRelaySessions _ _ _ _ _). apply keeps_sessions. Qed.

Lemma keeps_tasks_ok s s' : keeps s s' → tasks_ok s → tasks_ok s'.
Proof. intros [] ?. destruct ke_tasks0 as (new & E & Hn). unfold tasks_ok. rewrite E. by apply Forall_app. Qed.

(** Flushing sends and shortens the queue. *)
Lemma flush_link relay queue now : ∀ (s : Bridge), let s' := (flush_loop F options relay queue now s).1 in
  running F s' = running F s ∧ reconnecting F s' = reconnecting F s ∧ relayWs F s' = relayWs F s ∧
  connections F s' = connections F s ∧ sockets F s' = sockets F s ∧ tasks F s' = tasks F s.
Proof.
  induction queue as [|next rest IH]; intros s; simpl; [done|].
  destruct (truthy_str next); simpl; [|done]. unfold sendToAll.
  cbn [relaySessions set_pendingOutboundBytes set_pendingOutbound].
  destruct (sendToAllRelaySessions _ _ _ _ _) as [m out].
  match goal with |- context [flush_loop _ _ _ _ _ ?s'] => specialize (IH s') end.
  destruct (flush_loop _ _ _ _ _ _) as [s'' outs]. done.
Qed.

(** ** Steps *)

Lemma closeQuietly_tasks x (s : Bridge) : tasks F (closeQuietly F x s) = tasks F s.
Proof. by destruct x. Qed.

Lemma tasks_ok_add t (s : Bridge) : task_ok t → tasks_ok s → tasks_ok (add_task F t s).
Proof. intros. by apply (keeps_tasks_ok s); [apply keeps_task|]. Qed.

Lemma connectLoop_facts now (s : Bridge) : let s' := connectLoop F now s in
  requiredProfile F s' = requiredProfile F s ∧ relaySessions F s' = relaySessions F s ∧ (tasks_ok s → tasks_ok s').
Proof.
  unfold connectLoop. destruct (running F s); [|done]. destruct (reconnecting F s); [done|]. cbn [negb].
  destruct (_ <? _); (split; [done|split; [done|]]); intros; by apply tasks_ok_add.
Qed.

Lemma connect_failed_facts code now (s : Bridge) : let s' := connect_failed F code now s in
  relaySessions F s' = [] ∧ (tasks_ok s → tasks_ok s').
Proof.
  unfold connect_failed. destruct (relayWs F s), (daemonWs F s), (isControlPlaneBridgeError code); simpl;
    repeat (destruct (_ <=? _); simpl); destruct (running F s); simpl; (split; [done|]); intros Ht;
    try (by apply tasks_ok_add); exact Ht.
Qed.

Lemma trans_profile drawn (s : Bridge) m' s' out : requiredProfile F s' = requiredProfile F s →
  relaySessions F s' = m' → Trans drawn (requiredProfile F s) (relaySessions F s) (requiredProfile F s) m' out →
  trans drawn s s' out.
Proof. unfold trans. by intros -> ->. Qed.

Lemma flush_tasks now (s : Bridge) : let s' := (flushPendingOutbound F options now s).1 in tasks F s' = tasks F s.
Proof.
  unfold flushPendingOutbound. destruct (relayWs F s) as [r|]; [|done]. destruct (negb _); [done|].
  pose proof (flush_link r (pendingOutbound F s) now s) as Hl.
  destruct (flush_loop _ _ _ _ _ _) as [s' out]. simpl in Hl. destruct Hl as (? & ? & ? & ? & ? & ?).
  by destruct (_ <? 0).
Qed.

Lemma trans_relay_opened drawn daemon now (s : Bridge) :
  let '(s', out) := relay_opened F options daemon now s in trans drawn s s' out ∧ (tasks_ok s → tasks_ok s').
Proof.
  unfold relay_opened. cbn [open_socket].
  match goal with |- context [flushPendingOutbound _ _ _ ?s1] => set (s1' := s1) end.
  pose proof (trans_flush drawn now s1') as Ht. pose proof (flush_tasks now s1') as Hk.
  destruct (flushPendingOutbound F options now s1') as [s2 out]. split; [exact Ht|].
  unfold tasks_ok. simpl in *. by rewrite Hk.
Qed.

Lemma resume_trans t answer now draws (s s' : Bridge) out : task_ok t →
  resume F options t answer now draws s = Some (s', out) →
  trans (Some (d_sessionId draws)) s s' out ∧ (tasks_ok s → tasks_ok s').
Proof.
  intros Ht Hr. destruct t as [| | | |token|token dm| |dm rl text|rl kex ne prev|rl call|rl call], answer;
    cbn [resume] in Hr; try discriminate Hr;
    try (apply (inj Some) in Hr; injection Hr as <- <-; by
         (destruct (connect_failed_facts code now s) as [E K]; split; [by apply trans_clear|exact K])).
  - apply (inj Some) in Hr; injection Hr as <- <-. split; [by apply trans_same|]. intros; by apply tasks_ok_add.
  - apply (inj Some) in Hr; injection Hr as <- <-. destruct (bool_decide _); (split; [by apply trans_same|]); intros; by apply tasks_ok_add.
  - apply (inj Some) in Hr; injection Hr as <- <-. unfold register_token.
    destruct (truthy_str _); (split; [by apply trans_same|]); intros; by apply tasks_ok_add.
  - apply (inj Some) in Hr; injection Hr as <- <-. destruct (truthy_str relayToken).
    + split; [by apply trans_clear|]. intros; by apply tasks_ok_add.
    + destruct (connect_failed_facts TOKEN_RESPONSE_INVALID now s) as [E K]. split; [by apply trans_clear|exact K].
  - apply (inj Some) in Hr; injection Hr as <- <-. split; [by apply trans_same|]. intros; by apply tasks_ok_add.
  - apply (inj Some) in Hr. pose proof (trans_relay_opened (Some (d_sessionId draws)) dm now s) as Ho. by rewrite Hr in Ho.
  - apply (inj Some) in Hr; injection Hr as <- <-.
    destruct (connectLoop_facts now (set_reconnecting F false s)) as (E1 & E2 & K). split; [by apply trans_same|exact K].
  - apply (inj Some) in Hr. pose proof (trans_envelope (Some (d_sessionId draws)) dm text now s) as Ho.
    pose proof (keeps_envelope dm text now s) as Hk. rewrite Hr in Ho, Hk. split; [done|]. by apply keeps_tasks_ok.
  - destruct (resolvePolicyCPairingSecret _ _) as [sec|].
    + apply (inj Some) in Hr.
      pose proof (trans_kex_finish (Some (d_sessionId draws)) rl kex ne prev (Some sec) now draws s eq_refl) as Ho.
      pose proof (keeps_kex_finish rl kex ne prev (Some sec) now draws s) as Hk. rewrite Hr in Ho, Hk.
      split; [|by apply keeps_tasks_ok]. apply Ho. simpl in Ht. rewrite Ht. by destruct (requiredProfile F s).
    + apply (inj Some) in Hr; injection Hr as <- <-. by split; [apply trans_same|].
  - destruct (offer_end _ _ _ _ _) as [keys payload]. apply (inj Some) in Hr; injection Hr as <- <-.
    split; [apply trans_same; try done; by apply quiet_reply|]. apply keeps_tasks_ok, keeps_keys.
  - destruct (redeem_end _ _ _) as [keys payload]. apply (inj Some) in Hr; injection Hr as <- <-.
    split; [apply trans_same; try done; by apply quiet_reply|]. apply keeps_tasks_ok, keeps_keys.
Qed.

Lemma step_trans (s : Bridge) e : tasks_ok s →
  trans (event_id e) s (step s e).1 (step s e).2 ∧ tasks_ok (step s e).1.
Proof.
  intros Ht. destruct e as [now| |dm rl payload now|dm rl text now draws|x now|i answer now draws]; cbn [Bridge.step].
  - unfold start. destruct (running F s); [split; [by apply trans_same|done]|]. cbn [fst snd].
    match goal with |- context [connectLoop F now ?s1] => destruct (connectLoop_facts now s1) as (E1 & E2 & K) end.
    split; [by apply trans_same|by apply K].
  - split; [by apply trans_clear|]. unfold tasks_ok, stop. simpl. by rewrite !closeQuietly_tasks.
  - destruct (bool_decide _); [|split; [by apply trans_same|done]]. unfold handleDaemonMessage.
    destruct (filterDaemonPayload (filter_state F s) payload) as [[p|] f]; [|split; [by apply trans_same|done]].
    destruct (truthy_str p); [|split; [by apply trans_same|done]]. cbn [negb]. destruct (is_open F rl _).
    + pose proof (trans_sendToAll None rl p now (set_filter_state F f s)) as Ho.
      pose proof (keeps_sendToAll rl p now (set_filter_state F f s)) as Hk.
      destruct (sendToAll F options rl p now (set_filter_state F f s)). split; [exact Ho|]. by eapply keeps_tasks_ok.
    + unfold enqueue. destruct (shed _ _ _ _). split; [by apply trans_same|done].
  - destruct (bool_decide _); [|split; [by apply trans_same|done]].
    pose proof (trans_relay_message (Some (d_sessionId draws)) dm rl text now draws s eq_refl) as Ho.
    pose proof (keeps_relay_message dm rl text now draws s) as Hk.
    destruct (handleRelayMessage _ _ _ _ _ _ _ _ _). split; [exact Ho|]. by eapply keeps_tasks_ok.
  - destruct (pair_of F x _) as [[dm rl]|]; [|split; [by apply trans_same|done]]. unfold reconnect.
    destruct (running F _); [|split; [by apply trans_same|done]].
    destruct (reconnecting F _); [split; [by apply trans_same|done]|]. cbn [negb fst snd].
    match goal with |- context [connectLoop F now ?s1] => destruct (connectLoop_facts now s1) as (E1 & E2 & K) end.
    split; [apply trans_clear; by rewrite E2|by apply K].
  - destruct (tasks F s !! i) as [t|] eqn:Ei; [|split; [by apply trans_same|done]].
    assert (task_ok t) as Hok by (by eapply Forall_lookup_1).
    assert (tasks_ok (set_tasks F (delete i (tasks F s)) s)) as Hd by (by apply Forall_delete).
    destruct (resume F options t answer now draws _) as [[s' out]|] eqn:Er; [|split; [by apply trans_same|done]].
    apply resume_trans in Er as [Htr K]; [|done]. split; [exact Htr|by apply K].
Qed.

(** ** Sessions: counters, capacity, policy *)

Lemma evict_suffix maxEntries (m : sessions_map) : evict_oldest maxEntries m `suffix_of` m.
Proof. induction m as [|[id x] m IH]; simpl; [done|]. destruct (_ && _); [|done]. by apply suffix_cons_r. Qed.

Lemma shrinks_suffix (m m' : sessions_map) : m' `suffix_of` m → shrinks m m'.
Proof.
  intros [l ->]. split; [|split].
  - unfold NoDup_keys, jm_keys. rewrite fmap_app. by intros (_ & _ & ?)%NoDup_app.
  - unfold jm_size. rewrite length_app. lia.
  - intros Hnd id s' Hs. exists s'. split; [|done]. eapply jm_get_suffix; [done| |done]. by exists l.
Qed.
Lemma shrinks_trans m1 m2 m3 : shrinks m1 m2 → shrinks m2 m3 → shrinks m1 m3.
Proof.
  intros (N1 & S1 & G1) (N2 & S2 & G2). split; [auto|]. split; [lia|]. intros Hnd id s' Hs.
  destruct (G2 (N1 Hnd) id s' Hs) as (x & Hx & C2). destruct (G1 Hnd id x Hx) as (y & Hy & C1). exists y.
  split; [done|]. destruct C1 as (? & ? & ? & ? & ?), C2 as (? & ? & ? & ? & ?). repeat split; congruence.
Qed.
Lemma shrinks_capacity m maxEntries now ttl : shrinks m (enforceRelaySessionCapacity m maxEntries now ttl).
Proof. eapply shrinks_trans; [apply shrinks_filter|]. apply shrinks_suffix, evict_suffix. Qed.

Lemma window_of_same acc s s' : same_counters s s' → window_of acc s → window_of acc s'.
Proof. intros (_ & _ & _ & E1 & E2) []. split; by rewrite ?E1, ?E2. Qed.

(** One round of sending: every session that stays moves one number on. *)
Definition sent_frames (frames : list Outbound) : list (string * Z) :=
  omap (λ o, match o with Envelope _ _ id _ q _ => Some (id, q) | _ => None end) frames.

Lemma sent_relay relay frames : sent (ToRelay relay <$> frames) = sent_frames frames.
Proof. unfold sent, sent_frames. induction frames as [|[] frames IH]; csimpl; by rewrite ?IH. Qed.
Lemma delivered_relay relay frames : delivered (ToRelay relay <$> frames) = [].
Proof. unfold delivered. by induction frames. Qed.

Definition advanced (s s' : RelaySession) : Prop :=
  rs_sessionId s' = rs_sessionId s ∧ rs_profile s' = rs_profile s ∧ txSeq s' = txSeq s + 1 ∧
  rxHighestSeq s' = rxHighestSeq s ∧ rxSeenSeq s' = rxSeenSeq s.

Lemma send_and_rotate_spec rotateAfter payload now s :
  advanced s (send_and_rotate rotateAfter payload now s).1 ∧
  sent_frames (send_and_rotate rotateAfter payload now s).2 = [(rs_sessionId s, txSeq s + 1)].
Proof. unfold send_and_rotate. simpl. by destruct (_ && _). Qed.

Lemma send_each_spec rotateAfter payload now (m : sessions_map) :
  let '(m', out) := send_each rotateAfter payload now m in
  jm_keys m' = jm_keys m ∧
  sent_frames out = (λ kv, (rs_sessionId kv.2, txSeq kv.2 + 1)) <$> m ∧
  ∀ id s', jm_get id m' = Some s' → ∃ s, jm_get id m = Some s ∧ advanced s s'.
Proof.
  induction m as [|[id s] m IH]; simpl; [done|].
  pose proof (send_and_rotate_spec rotateAfter payload now s) as [Ha Hs].
  destruct (send_and_rotate rotateAfter payload now s) as [s' out]. simpl in Ha, Hs.
  destruct (send_each rotateAfter payload now m) as [m' outs]. destruct IH as (K & S & G).
  split; [unfold jm_keys in *; csimpl; by rewrite K|]. split.
  - unfold sent_frames in *. rewrite omap_app, Hs, S. done.
  - intros id' x. csimpl. destruct (decide (id' = id)); [|apply G]. intros [= <-]. by exists s.
Qed.

Record frames_inv (used : list string) (snt dlv : list (string * Z)) (m : sessions_map) : Prop := {
  fi_nodup : NoDup_keys m;
  fi_session : ∀ id s, jm_get id m = Some s → rs_sessionId s = id ∧ id ∈ used ∧ (∀ q, (id, q) ∈ snt → q ≤ txSeq s) ∧
    ∃ accepted, window_of accepted s ∧ ∀ q, (id, q) ∈ dlv → q ∈ accepted;
  fi_used : ∀ id q, (id, q) ∈ snt ∨ (id, q) ∈ dlv → id ∈ used;
  fi_sent : NoDup snt;
  fi_delivered : NoDup dlv
}.

Lemma frames_shrink used snt dlv m m' : shrinks m m' → frames_inv used snt dlv m → frames_inv used snt dlv m'.
Proof.
  intros (N & _ & G) [Hn Hs Hu H1 H2]. split; [by apply N| |done..]. intros id s' Hs'.
  destruct (G Hn id s' Hs') as (s & Hg & Hc). destruct (Hs id s Hg) as (E & Hin & Ht & acc & Hw & Hd).
  pose proof Hc as (C1 & _ & C3 & _). rewrite C1, C3. do 3 (split; [done|]). exists acc. split; [|done].
  by eapply window_of_same.
Qed.

Lemma frames_sendToAll used snt dlv m payload rotateAfter now ttl m' out :
  sendToAllRelaySessions m payload rotateAfter now ttl = (m', out) →
  frames_inv used snt dlv m → frames_inv used (snt ++ sent_frames out) dlv m'.
Proof.
  unfold sendToAllRelaySessions. intros E Hi.
  assert (frames_inv used snt dlv (pruneIdleRelaySessions m now ttl)) as [Hn Hs Hu H1 H2].
  { eapply frames_shrink, Hi. apply shrinks_filter. }
  clear Hi. generalize dependent (pruneIdleRelaySessions m now ttl). intros m0 E Hn Hs.
  pose proof (send_each_spec rotateAfter payload now m0) as Hspec. rewrite E in Hspec. destruct Hspec as (K & S & G).
  assert (∀ id q, (id, q) ∈ sent_frames out → ∃ s, jm_get id m0 = Some s ∧ q = txSeq s + 1) as Hout.
  { intros id q. rewrite S, list_elem_of_fmap. intros ([id' s] & [= -> ->] & Hin).
    apply jm_elem_get in Hin; [|done]. destruct (Hs _ _ Hin) as (<- & _). by exists s. }
  split; [unfold NoDup_keys; by rewrite K| | | |done].
  - intros id s' Hs'. destruct (G id s' Hs') as (s & Hg & A1 & A2 & A3 & A4 & A5).
    destruct (Hs id s Hg) as (E1 & Hin & Ht & acc & [] & Hd). rewrite A1, A3. do 2 (split; [done|]). split.
    + intros q [Hq|Hq]%elem_of_app; [specialize (Ht q Hq); lia|].
      destruct (Hout id q Hq) as (x & Hx & ->). simplify_eq. lia.
    + exists acc. split; [split; by rewrite ?A4, ?A5|done].
  - intros id q [[Hq|Hq]%elem_of_app|Hq]; [eapply Hu; by left| |eapply Hu; by right].
    destruct (Hout id q Hq) as (x & Hx & _). by destruct (Hs _ _ Hx) as (_ & ? & _).
  - apply NoDup_app. split; [done|]. split.
    + intros [id q] Hq Hq'. destruct (Hout id q Hq') as (x & Hx & ->). destruct (Hs _ _ Hx) as (_ & _ & Ht & _).
      specialize (Ht _ Hq). lia.
    + rewrite S. apply (NoDup_fmap_1 fst). rewrite <- list_fmap_compose.
      replace ((fst ∘ (λ kv, (rs_sessionId kv.2, txSeq kv.2 + 1))) <$> m0) with (jm_keys m0); [done|].
      unfold jm_keys. apply list_fmap_ext. intros i [id s] Hl. simpl.
      assert (jm_get id m0 = Some s) as Hg by (apply jm_elem_get; [done|by eapply list_elem_of_lookup_2]).
      by destruct (Hs _ _ Hg) as (<- & _).
Qed.

Lemma frames_sends used dlv rotateAfter m m' frames : Sends rotateAfter m m' frames → ∀ snt,
  frames_inv used snt dlv m → frames_inv used (snt ++ sent_frames frames) dlv m'.
Proof.
  induction 1 as [m|m payload now m' out m'' outs E _ IH]; intros snt Hi; [by rewrite app_nil_r|].
  unfold sent_frames at 1. rewrite omap_app, app_assoc. apply IH. by eapply frames_sendToAll.
Qed.

Lemma frames_more used used' snt dlv m : used ⊆ used' → frames_inv used snt dlv m → frames_inv used' snt dlv m.
Proof.
  intros Hsub [Hn Hs Hu H1 H2]. split; try done; [|eauto]. intros id s Hg.
  destruct (Hs id s Hg) as (? & ? & ?). auto.
Qed.

Lemma frames_new used snt dlv m session now : ds_sessionId session ∉ used → frames_inv used snt dlv m →
  frames_inv (used ++ [ds_sessionId session]) snt dlv
    (jm_set (ds_sessionId session) (createRelaySessionState session now) m).
Proof.
  intros Hnew [Hn Hs Hu H1 H2]. split; [by apply NoDup_keys_set| | |done..].
  - intros id s Hg. destruct (decide (id = ds_sessionId session)) as [->|Hne].
    + rewrite jm_get_set_eq in Hg. simplify_eq. split; [done|]. split; [set_solver|]. split.
      * intros q Hq. exfalso. apply Hnew. eapply Hu. by left.
      * exists []. split; [|intros q Hq; exfalso; apply Hnew; eapply Hu; by right].
        split; simpl; [done| |constructor|by intros ? ?%elem_of_nil]. intros x. split; [by intros ?%elem_of_nil|].
        by intros [?%elem_of_nil _].
    + rewrite jm_get_set_ne in Hg by done. destruct (Hs id s Hg) as (? & ? & ?). set_solver.
  - intros id q Hq. apply elem_of_app. left. by eapply Hu.
Qed.

Lemma frames_accept used snt dlv m id s q s1 s2 : jm_get id m = Some s → acceptInboundRelaySeq s q = (true, s1) →
  same_counters s1 s2 → frames_inv used snt dlv m →
  frames_inv used snt dlv (jm_set id s2 m) ∧ frames_inv used snt (dlv ++ [(id, q)]) (jm_set id s2 m).
Proof.
  intros Hg Ha Hc [Hn Hs Hu H1 H2]. destruct (Hs id s Hg) as (E & Hin & Ht & acc & Hw & Hd).
  pose proof (accept_refines acc s q Hw) as [Hok Hw']. rewrite Ha in Hok, Hw'. simpl in Hok, Hw'. rewrite <- Hok in Hw'.
  assert (q ∉ acc) as Hq. { unfold spec_accept in Hok. symmetry in Hok. split_bools. done. }
  assert (rs_sessionId s1 = rs_sessionId s ∧ txSeq s1 = txSeq s) as [E1 E2].
  { unfold acceptInboundRelaySeq in Ha. repeat case_match; simplify_eq; done. }
  pose proof Hc as (C1 & _ & C3 & _).
  assert (∀ dlv', (∀ q', (id, q') ∈ dlv' → q' ∈ q :: acc) → (∀ id' q', id' ≠ id → (id', q') ∈ dlv' → (id', q') ∈ dlv) →
    (∀ id' q', (id', q') ∈ dlv' → id' ∈ used) → NoDup dlv' → frames_inv used snt dlv' (jm_set id s2 m)) as Hgen.
  { intros dlv' D1 D2 D3 D4. split; [by apply NoDup_keys_set| |naive_solver|done..]. intros id' x Hx.
    destruct (decide (id' = id)) as [->|Hne].
    - rewrite jm_get_set_eq in Hx. injection Hx as <-. rewrite C1, C3, E1, E2. do 3 (split; [done|]).
      exists (q :: acc). split; [by eapply window_of_same|done].
    - rewrite jm_get_set_ne in Hx by done. destruct (Hs id' x Hx) as (? & ? & ? & acc' & ? & ?).
      do 3 (split; [done|]). exists acc'. split; [done|]. eauto. }
  split; apply Hgen; try done.
  - intros q' Hq'. apply elem_of_cons. right. auto.
  - intros id' q' Hq'. eapply Hu. by right.
  - intros q' [Hq'|Hq']%elem_of_app; [apply elem_of_cons; right; auto|]. apply list_elem_of_singleton in Hq'. simplify_eq.
    apply elem_of_cons. by left.
  - intros id' q' Hne [Hq'|Hq']%elem_of_app; [done|]. apply list_elem_of_singleton in Hq'. simplify_eq.
  - intros id' q' [Hq'|Hq']%elem_of_app; [eapply Hu; by right|]. apply list_elem_of_singleton in Hq'. by simplify_eq.
  - apply NoDup_app. split; [done|]. split; [|apply NoDup_singleton]. intros [id' q'] Hq' Hq''.
    apply list_elem_of_singleton in Hq''. simplify_eq. auto.
Qed.

Lemma frames_trans used snt dlv drawn p m p' m' out : Trans drawn p m p' m' out →
  (∀ id, drawn = Some id → id ∉ used) → frames_inv used snt dlv m →
  frames_inv (used ++ option_list drawn) (snt ++ sent out) (dlv ++ delivered out) m'.
Proof.
  intros Ht Hd Hi.
  assert (∀ s d m0, frames_inv used s d m0 → frames_inv (used ++ option_list drawn) s d m0) as Hmore.
  { intros s d m0. apply frames_more. set_solver. }
  destruct Ht as [m' out Hs [-> ->]|p' out [-> ->]|relay m' frames Hs|session m1 now out Hs Hc E [-> ->]
                 |id s q s1 s2 out Hg Ha Hc Ho]; rewrite ?app_nil_r.
  - apply Hmore. by eapply frames_shrink.
  - apply Hmore. eapply (frames_shrink _ _ _ m), Hi. apply shrinks_suffix. exists m. by rewrite app_nil_r.
  - rewrite sent_relay, delivered_relay, app_nil_r. apply Hmore. by eapply frames_sends.
  - subst drawn. eapply frames_shrink; [apply shrinks_capacity|]. apply frames_new; [by apply Hd|].
    by eapply frames_shrink.
  - destruct (frames_accept _ _ _ _ _ _ _ _ _ Hg Ha Hc Hi) as [F1 F2].
    destruct Ho as [[-> ->]|(dm & ep & pt & ->)]; rewrite ?app_nil_r; apply Hmore; [done|].
    all: unfold sent; simpl; by rewrite ?app_nil_r.
Qed.

Lemma sent_app o1 o2 : sent (o1 ++ o2) = sent o1 ++ sent o2.
Proof. apply omap_app. Qed.
Lemma delivered_app o1 o2 : delivered (o1 ++ o2) = delivered o1 ++ delivered o2.
Proof. apply omap_app. Qed.

Lemma frames_run events : ∀ (s : Bridge) used snt dlv, tasks_ok s → frames_inv used snt dlv (relaySessions F s) →
  NoDup (used ++ omap event_id events) →
  NoDup (snt ++ sent (run s events).2) ∧ NoDup (dlv ++ delivered (run s events).2).
Proof.
  induction events as [|e events IH]; intros s used snt dlv Ht Hi Hnd; cbn [Bridge.run].
  - simpl. rewrite !app_nil_r. by destruct Hi.
  - destruct (step_trans s e Ht) as [Htr Ht']. destruct (step s e) as [s' out]. cbn [fst snd] in *.
    assert (omap event_id (e :: events) = option_list (event_id e) ++ omap event_id events) as E.
    { simpl. by destruct (event_id e). }
    rewrite E, app_assoc in Hnd.
    eapply frames_trans in Htr; [|intros id Hid|exact Hi].
    + specialize (IH s' _ _ _ Ht' Htr Hnd). destruct (run s' events) as [s'' outs]. cbn [snd] in *.
      by rewrite sent_app, delivered_app, !app_assoc.
    + rewrite Hid in Hnd. apply NoDup_app in Hnd as (Hnd & _). apply NoDup_app in Hnd as (_ & Hdis & _).
      intros Hin. apply (Hdis id Hin). set_solver.
Qed.

Lemma frames_initial : frames_inv [] [] [] [].
Proof.
  split; [apply NoDup_keys_nil|done| |apply NoDup_nil_2..]. by intros id q [?%elem_of_nil|?%elem_of_nil].
Qed.

(** C25: Nothing is sent twice under one number and nothing is delivered twice: over
    every history of the bridge, no two envelopes go out with the same session and
    sequence number, and no two deliveries to the daemon come from envelopes of the
    same session and number, however frames, reconnections, rotations and stops
    interleave, as long as the session ids drawn at random are distinct. *)
Theorem frames_never_repeat endpoint token f events : NoDup (omap event_id events) →
  let out := (run (initial F endpoint token f) events).2 in NoDup (sent out) ∧ NoDup (delivered out).
Proof.
  intros Hnd. apply (frames_run events _ [] [] []); [by constructor| |done]. apply frames_initial.
Qed.
End Props.
