(* ===== verification/BridgeLoop.v ===== *)
(** * The relay bridge: its tables, its queue and its connection loop *)

From S2P Require Import Prelude JsString JsMap Json JsonText Noise RelaySessions PairingChannel Bridge BridgeProps.
From stdpp Require Import prelude strings list.
From Stdlib Require Import ZArith Lia Ascii.

Open Scope Z_scope.

Section Loop.
Context `{Crypto}.
Variable url_host_port : string → option (string * string).
Variable F : Type.
Variable filterDaemonPayload : F → string → option string * F.
Variable options : Options.
Notation Bridge := (Bridge F).
Notation step := (step url_host_port F filterDaemonPayload options).
Notation run := (run url_host_port F filterDaemonPayload options).
Notation Trans := (Trans options).

(** An invariant of steps holds after every run. *)
Lemma run_invariant (I : Bridge → Prop) (ok : Event → Prop) : (∀ s e, ok e → I s → I (step s e).1) →
  ∀ events s, Forall ok events → I s → I (run s events).1.
Proof.
  intros Hstep events. induction events as [|e events IH]; intros s Hok Hi; cbn [Bridge.run]; [done|].
  inversion Hok; subst. specialize (Hstep s e H2 Hi). destruct (step s e) as [s' out]. specialize (IH s' H3 Hstep).
  by destruct (run s' events).
Qed.

(** ** The table of sessions *)

(** [p] is the profile the workspace requires. *)
Record table_ok (p : RelayHandshakeProfile) (m : sessions_map) : Prop := {
  to_nodup : NoDup_keys m;
  to_size : jm_size m ≤ relaySessionMaxEntries options;
  to_sessions : ∀ id s, jm_get id m = Some s → id ≠ "" ∧ isCompatibleProfile p (rs_profile s) = true
}.

Lemma table_shrink p m m' : shrinks m m' → table_ok p m → table_ok p m'.
Proof.
  intros (N & S & G) [Hn Hs Ht]. split; [auto|lia|]. intros id s' Hs'. destruct (G Hn id s' Hs') as (s & Hg & _ & E & _).
  rewrite E. eauto.
Qed.

Lemma evict_size maxEntries (m : sessions_map) : 0 ≤ maxEntries → (∀ id, id ∈ jm_keys m → id ≠ "") →
  jm_size (evict_oldest maxEntries m) ≤ maxEntries.
Proof.
  intros H0. induction m as [|[id s] m IH]; intros Hk; cbn [evict_oldest]; [unfold jm_size; simpl; lia|].
  rewrite (proj2 (truthy_str_true id)) by (apply Hk; set_solver). rewrite andb_true_r.
  destruct (maxEntries <? jm_size ((id, s) :: m)) eqn:E; split_bools; [|lia]. apply IH. intros id' Hin. apply Hk. set_solver.
Qed.

Lemma table_sends p rotateAfter m m' frames : Sends rotateAfter m m' frames → table_ok p m → table_ok p m'.
Proof.
  induction 1 as [m|m payload now m' out m'' outs E _ IH]; intros Hi; [done|]. apply IH. clear IH.
  unfold sendToAllRelaySessions in E.
  assert (table_ok p (pruneIdleRelaySessions m now RELAY_SESSION_IDLE_TTL_MS)) as [Hn Hs Ht].
  { eapply table_shrink, Hi. apply shrinks_filter. }
  pose proof (send_each_spec rotateAfter payload now (pruneIdleRelaySessions m now RELAY_SESSION_IDLE_TTL_MS)) as Hsp.
  rewrite E in Hsp. destruct Hsp as (K & _ & G). split.
  - unfold NoDup_keys. by rewrite K.
  - by rewrite jm_size_keys, K, <- jm_size_keys.
  - intros id s' Hs'. destruct (G id s' Hs') as (s & Hg & _ & Ep & _). rewrite Ep. eauto.
Qed.

Lemma table_trans drawn p m p' m' out : 1 ≤ relaySessionMaxEntries options → Trans drawn p m p' m' out →
  (∀ id, drawn = Some id → id ≠ "") → table_ok p m → table_ok p' m'.
Proof.
  intros Hmax Ht Hd Hi. destruct Ht as [m' out Hs _|p' out _|relay m' frames Hs|session m1 now out Hs Hc E _
                                       |id s q s1 s2 out Hg Ha Hc _].
  - by eapply table_shrink.
  - split; [apply NoDup_keys_nil|unfold jm_size; simpl; lia|done].
  - by eapply table_sends.
  - pose proof (table_shrink _ _ _ Hs Hi) as [Hn1 Hs1 Ht1].
    assert (∀ id s, jm_get id (jm_set (ds_sessionId session) (createRelaySessionState session now) m1) = Some s →
      id ≠ "" ∧ isCompatibleProfile p (rs_profile s) = true) as Hall.
    { intros id s Hg. destruct (decide (id = ds_sessionId session)) as [->|].
      - rewrite jm_get_set_eq in Hg. simplify_eq. split; [by apply Hd|done].
      - rewrite jm_get_set_ne in Hg by done. eauto. }
    destruct (shrinks_capacity (jm_set (ds_sessionId session) (createRelaySessionState session now) m1)
      (relaySessionMaxEntries options) now RELAY_SESSION_IDLE_TTL_MS) as (N & _ & G).
    assert (NoDup_keys (jm_set (ds_sessionId session) (createRelaySessionState session now) m1)) as Hn by (by apply NoDup_keys_set).
    split; [by apply N| |].
    + apply evict_size; [lia|]. intros id Hin. unfold pruneIdleRelaySessions in Hin. apply jm_filter_suffix_keys in Hin.
      apply jm_key_is_Some in Hin as [s Hg]. by destruct (Hall id s Hg).
    + intros id s' Hs'. destruct (G Hn id s' Hs') as (s & Hg & _ & Ep & _). rewrite Ep. eauto.
  - destruct Hi as [Hn Hsz Ht]. assert (rs_profile s2 = rs_profile s) as Ep.
    { destruct Hc as (_ & -> & _). unfold acceptInboundRelaySeq in Ha. repeat case_match; by simplify_eq. }
    split; [by apply NoDup_keys_set| |].
    + rewrite jm_size_set, decide_True; [done|]. by eapply jm_get_Some_key.
    + intros id' x Hx. destruct (decide (id' = id)) as [->|].
      * rewrite jm_get_set_eq in Hx. simplify_eq. rewrite Ep. eauto.
      * rewrite jm_get_set_ne in Hx by done. eauto.
Qed.

(** Session ids are drawn: [rs_] and twenty-four digits. *)
Definition drawn_ok (e : Event) : Prop := event_id e ≠ Some "".

(** Whatever happens, the bridge holds no more relay sessions than its capacity,
    each under its own id, and every session it holds was agreed under a profile at
    least as strong as the one the control plane requires: when the requirement
    changes, no weaker session survives it. *)
Theorem sessions_bounded_and_compatible endpoint token f events :
  1 ≤ relaySessionMaxEntries options → Forall drawn_ok events →
  let s := (run (initial F endpoint token f) events).1 in
  NoDup_keys (relaySessions F s) ∧ jm_size (relaySessions F s) ≤ relaySessionMaxEntries options ∧
  ∀ id x, jm_get id (relaySessions F s) = Some x → isCompatibleProfile (requiredProfile F s) (rs_profile x) = true.
Proof.
  intros Hmax Hok.
  destruct (run_invariant (λ s, tasks_ok F s ∧ table_ok (requiredProfile F s) (relaySessions F s)) drawn_ok) with
    (events := events) (s := initial F endpoint token f) as [_ [Hn Hs Ht]]; try done.
  - intros s e Hd [Hk Hi]. destruct (step_trans url_host_port F filterDaemonPayload options s e Hk) as [Htr Hk'].
    split; [done|]. eapply table_trans; [done|exact Htr| |done]. intros id Hid ->. by apply Hd.
  - split; [by constructor|]. split; [apply NoDup_keys_nil|unfold jm_size; simpl; lia|done].
  - do 2 (split; [done|]). intros id x Hx. by destruct (Ht id x Hx).
Qed.

(** ** The queue of payloads for the relay *)

Definition total_bytes (queue : list string) : Z := foldr (λ p n, byteLength p + n) 0 queue.
Definition max_length : Z := coalesce (maxPendingOutbound options) DEFAULT_MAX_PENDING_OUTBOUND.
Definition max_bytes : Z := coalesce (maxPendingOutboundBytes options) DEFAULT_MAX_PENDING_OUTBOUND_BYTES.

Record queue_ok (s : Bridge) : Prop := {
  qo_bytes : pendingOutboundBytes F s = total_bytes (pendingOutbound F s);
  qo_truthy : Forall (λ p, truthy_str p = true) (pendingOutbound F s);
  qo_length : Z.of_nat (length (pendingOutbound F s)) ≤ max_length;
  qo_total : pendingOutboundBytes F s ≤ max_bytes
}.

Lemma total_app a b : total_bytes (a ++ b) = total_bytes a + total_bytes b.
Proof. unfold total_bytes. induction a; simpl; lia. Qed.

Lemma shed_spec maxLength maxBytes queue : 0 ≤ maxLength → 0 ≤ maxBytes → Forall (λ p, truthy_str p = true) queue →
  let '(q, bytes) := shed maxLength maxBytes queue (total_bytes queue) in
  q `suffix_of` queue ∧ bytes = total_bytes q ∧ Z.of_nat (length q) ≤ maxLength ∧ bytes ≤ maxBytes.
Proof.
  intros H0 H1. induction 1 as [|p queue Hp Hq IH]; cbn [shed]; [done|].
  destruct (_ || _) eqn:E.
  - rewrite Hp. replace (total_bytes (p :: queue) - byteLength p) with (total_bytes queue) by (simpl; lia).
    destruct (shed _ _ queue (total_bytes queue)) as [q bytes]. destruct IH as (? & ? & ? & ?).
    split; [by apply suffix_cons_r|done].
  - split_bools. done.
Qed.

Lemma queue_same (s s' : Bridge) : pendingOutbound F s' = pendingOutbound F s →
  pendingOutboundBytes F s' = pendingOutboundBytes F s → queue_ok s → queue_ok s'.
Proof. intros E1 E2 []. by split; rewrite ?E1, ?E2. Qed.
Lemma queue_keeps (s s' : Bridge) : keeps F s s' → queue_ok s → queue_ok s'.
Proof. intros []. by apply queue_same. Qed.

Lemma queue_empty (s : Bridge) : 0 ≤ max_length → 0 ≤ max_bytes → pendingOutbound F s = [] → pendingOutboundBytes F s = 0 →
  queue_ok s.
Proof. intros H0 H1 E1 E2. split; rewrite ?E1, ?E2; done. Qed.

Lemma queue_enqueue p (s : Bridge) : 0 ≤ max_length → 0 ≤ max_bytes → truthy_str p = true → queue_ok s → queue_ok (enqueue F options p s).
Proof.
  intros H0 H1 Hp [Hb Ht _ _]. unfold enqueue.
  assert (Forall (λ p, truthy_str p = true) (pendingOutbound F s ++ [p])) as Hf by (apply Forall_app; auto).
  pose proof (shed_spec max_length max_bytes _ H0 H1 Hf) as Hs.
  assert (total_bytes (pendingOutbound F s ++ [p]) = pendingOutboundBytes F s + byteLength p) as E.
  { rewrite total_app, Hb. simpl. lia. }
  rewrite E in Hs. fold max_length max_bytes.
  destruct (shed _ _ _ _) as [q bytes]. destruct Hs as ([l Hl] & -> & ? & ?).
  split; simpl; try done. rewrite Hl in Hf. by apply Forall_app in Hf as [_ ?].
Qed.

(** Flushing empties the queue. *)
Lemma flush_empties relay now queue : Forall (λ p, truthy_str p = true) queue → ∀ (s : Bridge),
  pendingOutbound F s = queue → let s' := (flush_loop F options relay queue now s).1 in
  pendingOutbound F s' = [] ∧ pendingOutboundBytes F s' = pendingOutboundBytes F s - total_bytes queue.
Proof.
  induction 1 as [|p queue Hp _ IH]; intros s E; cbn [flush_loop total_bytes foldr]; [split; [done|simpl; lia]|].
  rewrite Hp. cbn [negb]. unfold sendToAll. destruct (sendToAllRelaySessions _ _ _ _ _) as [m out].
  match goal with |- context [flush_loop _ _ _ _ _ ?s'] => specialize (IH s' eq_refl) end.
  destruct (flush_loop _ _ _ _ _ _) as [s' outs]. simpl in *. unfold total_bytes in IH. destruct IH as [-> ->]. split; [done|lia].
Qed.

Lemma queue_flush now (s : Bridge) : 0 ≤ max_length → 0 ≤ max_bytes → queue_ok s → queue_ok (flushPendingOutbound F options now s).1.
Proof.
  intros H0 H1 Hq. unfold flushPendingOutbound. destruct (relayWs F s) as [relay|]; [|done]. destruct (negb _); [done|].
  destruct Hq as [Hb Ht _ _]. pose proof (flush_empties relay now _ Ht s eq_refl) as Hf.
  destruct (flush_loop _ _ _ _ _ _) as [s' out]. simpl in Hf. destruct Hf as [E1 E2]. rewrite Hb, Z.sub_diag in E2.
  rewrite E2. simpl. by apply queue_empty.
Qed.

Lemma closeQuietly_queue x (s : Bridge) : pendingOutbound F (closeQuietly F x s) = pendingOutbound F s ∧
  pendingOutboundBytes F (closeQuietly F x s) = pendingOutboundBytes F s.
Proof. by destruct x. Qed.

Lemma connectLoop_queue now (s : Bridge) : pendingOutbound F (connectLoop F now s) = pendingOutbound F s ∧
  pendingOutboundBytes F (connectLoop F now s) = pendingOutboundBytes F s.
Proof.
  unfold connectLoop. destruct (running F s); [|done]. destruct (reconnecting F s); [done|]. cbn [negb]. by destruct (_ <? _).
Qed.

Lemma connect_failed_queue code now (s : Bridge) : queue_ok s → queue_ok (connect_failed F code now s).
Proof.
  intros Hq. unfold connect_failed.
  destruct (relayWs F s), (daemonWs F s), (isControlPlaneBridgeError code); simpl;
    repeat (destruct (_ <=? _); simpl); destruct (running F s); apply (queue_same s); done.
Qed.

Lemma resume_queue t answer now draws (s s' : Bridge) out : 0 ≤ max_length → 0 ≤ max_bytes →
  resume F options t answer now draws s = Some (s', out) → queue_ok s → queue_ok s'.
Proof.
  intros H0 H1 Hr Hq. destruct t as [| | | |token|token dm| |dm rl text|rl kex ne prev|rl call|rl call], answer;
    cbn [resume] in Hr; try discriminate Hr; try apply (inj Some) in Hr;
    try (injection Hr as <- <-; by apply connect_failed_queue); try (injection Hr as <- <-; by apply (queue_same s)).
  - injection Hr as <- <-. destruct (bool_decide _); by apply (queue_same s).
  - injection Hr as <- <-. unfold register_token. destruct (truthy_str _); by apply (queue_same s).
  - injection Hr as <- <-. destruct (truthy_str relayToken); [by apply (queue_same s)|by apply connect_failed_queue].
  - unfold relay_opened in Hr. cbn [open_socket] in Hr.
    match type of Hr with context [flushPendingOutbound _ _ _ ?s1] => pose proof (queue_flush now s1 H0 H1) as Hf;
      destruct (flushPendingOutbound F options now s1) as [s2 outs] end.
    injection Hr as <- <-. apply (queue_same s2); [done|done|]. apply Hf. by apply (queue_same s).
  - injection Hr as <- <-. destruct (connectLoop_queue now (set_reconnecting F false s)) as [E1 E2]. by apply (queue_same s).
  - pose proof (keeps_envelope F dm text now s) as Hk. rewrite Hr in Hk. by apply (queue_keeps s).
  - destruct (resolvePolicyCPairingSecret _ _) as [sec|]; apply (inj Some) in Hr; [|by injection Hr as <- <-].
    pose proof (keeps_kex_finish F options rl kex ne prev (Some sec) now draws s) as Hk. rewrite Hr in Hk. by apply (queue_keeps s).
  - destruct (offer_end _ _ _ _ _). apply (inj Some) in Hr. injection Hr as <- <-. by apply (queue_same s).
  - destruct (redeem_end _ _ _). apply (inj Some) in Hr. injection Hr as <- <-. by apply (queue_same s).
Qed.

Lemma step_queue (s : Bridge) e : 0 ≤ max_length → 0 ≤ max_bytes → queue_ok s → queue_ok (step s e).1.
Proof.
  intros H0 H1 Hq. destruct e as [now| |dm rl payload now|dm rl text now draws|x now|i answer now draws]; cbn [Bridge.step].
  - unfold start. destruct (running F s); [done|]. cbn [fst].
    match goal with |- context [connectLoop F now ?s1] => destruct (connectLoop_queue now s1) as [E1 E2] end.
    by apply (queue_same s).
  - unfold stop. by apply queue_empty.
  - destruct (bool_decide _); [|done]. unfold handleDaemonMessage.
    destruct (filterDaemonPayload (filter_state F s) payload) as [[p|] f]; [|by apply (queue_same s)].
    destruct (truthy_str p) eqn:Ep; [cbn [negb]|by apply (queue_same s)].
    assert (queue_ok (set_filter_state F f s)) as Hq' by (by apply (queue_same s)).
    destruct (is_open F rl _); [|by apply queue_enqueue]. eapply queue_keeps, Hq'. apply keeps_sendToAll.
  - destruct (bool_decide _); [|done]. eapply queue_keeps, Hq. apply keeps_relay_message.
  - destruct (pair_of F x _) as [[dm rl]|]; [|by apply (queue_same s)]. unfold reconnect.
    destruct (running F _); [|by apply (queue_same s)]. destruct (reconnecting F _); [by apply (queue_same s)|]. cbn [negb fst].
    match goal with |- context [connectLoop F now ?s1] => destruct (connectLoop_queue now s1) as [E1 E2] end.
    by apply (queue_same s).
  - destruct (tasks F s !! i) as [t|]; [|done].
    destruct (resume F options t answer now draws _) as [[s' out]|] eqn:Er; [|done].
    eapply resume_queue; [done|done|exact Er|]. by apply (queue_same s).
Qed.

(** The payloads kept while the relay is away respect both limits after every
    step: never more than the configured number of them nor of bytes, and the byte
    counter is exactly the bytes of the payloads kept, so that it cannot drift. *)
Theorem pending_queue_bounded endpoint token f events : 0 ≤ max_length → 0 ≤ max_bytes →
  let s := (run (initial F endpoint token f) events).1 in
  Z.of_nat (length (pendingOutbound F s)) ≤ max_length ∧ pendingOutboundBytes F s ≤ max_bytes ∧
  pendingOutboundBytes F s = total_bytes (pendingOutbound F s).
Proof.
  intros H0 H1. destruct (run_invariant queue_ok (λ _, True)) with (events := events) (s := initial F endpoint token f) as [].
  - intros s e _. by apply step_queue.
  - by apply Forall_true.
  - by apply queue_empty.
  - done.
Qed.

(** ** The connection loop *)

Definition connecting_task (s : Bridge) : Prop := ∃ t, t ∈ tasks F s ∧ is_connect t = true.

(** A relay socket with its handlers attached, that has not closed. *)
Definition linked (s : Bridge) : Prop :=
  ∃ relay daemon, relayWs F s = Some relay ∧ (daemon, relay) ∈ connections F s ∧ ready F relay s ≠ CLOSED.

Record loop_ok (s : Bridge) : Prop := {
  lo_reconnecting : reconnecting F s = true → connecting_task s;
  lo_running : running F s = true → connecting_task s ∨ linked s
}.

Lemma task_added t (s : Bridge) : is_connect t = true → connecting_task (add_task F t s).
Proof. intros Ht. exists t. split; [|done]. simpl. set_solver. Qed.
Lemma loop_task (s : Bridge) : connecting_task s → loop_ok s.
Proof. intros Ht. split; auto. Qed.

Lemma keeps_task_still (s s' : Bridge) : keeps F s s' → connecting_task s → connecting_task s'.
Proof. intros [] (t & Hin & Ht). destruct ke_tasks as (new & E & _). exists t. rewrite E. set_solver. Qed.
Lemma keeps_linked (s s' : Bridge) : keeps F s s' → linked s → linked s'.
Proof.
  intros [] (r & d & E & Hin & Hr). exists r, d. rewrite ke_relayWs, ke_connections. split; [done|]. split; [done|].
  intros Hc. by apply Hr, ke_closed.
Qed.
Lemma loop_keeps (s s' : Bridge) : keeps F s s' → loop_ok s → loop_ok s'.
Proof.
  intros Hk [L1 L2]. split; rewrite ?(ke_running _ _ _ Hk), ?(ke_reconnecting _ _ _ Hk); intros Hb.
  - eapply keeps_task_still; eauto.
  - destruct (L2 Hb); [left; by eapply keeps_task_still|right; by eapply keeps_linked].
Qed.

(** Nothing but the status, the counters and the tables differs. *)
Definition same_loop (s s' : Bridge) : Prop :=
  running F s' = running F s ∧ reconnecting F s' = reconnecting F s ∧ relayWs F s' = relayWs F s ∧
  connections F s' = connections F s ∧ sockets F s' = sockets F s ∧ tasks F s' = tasks F s.
Lemma loop_same (s s' : Bridge) : same_loop s s' → loop_ok s → loop_ok s'.
Proof.
  intros (E1 & E2 & E3 & E4 & E5 & E6) [L1 L2].
  split; unfold connecting_task, linked, ready; rewrite ?E1, ?E2, ?E3, ?E4, ?E5, ?E6; auto.
Qed.

Lemma loop_connectLoop now (s : Bridge) : (reconnecting F s = true → connecting_task s) → loop_ok (connectLoop F now s).
Proof.
  intros L1. unfold connectLoop. destruct (running F s) eqn:Er; cbn [negb]; [|split; [exact L1|by rewrite Er]].
  destruct (reconnecting F s) eqn:Ec; [by apply loop_task, L1|].
  destruct (_ <? _); apply loop_task; by apply task_added.
Qed.

Lemma loop_connect_failed code now (s : Bridge) : loop_ok (connect_failed F code now s).
Proof.
  unfold connect_failed. match goal with |- context [running F ?x] => destruct (running F x) eqn:Er end.
  - by apply loop_task, task_added.
  - split; [done|]. simpl in *. congruence.
Qed.

Lemma loop_stop (s : Bridge) : loop_ok (stop F s).
Proof. unfold stop. by destruct (relayWs F (set_reconnecting F false (set_running F false s))), (daemonWs F (set_reconnecting F false (set_running F false s))). Qed.

Lemma flush_loop_same now (s : Bridge) : same_loop s (flushPendingOutbound F options now s).1.
Proof.
  unfold flushPendingOutbound. destruct (relayWs F s) as [r|] eqn:Er; [|done]. destruct (negb _); [done|].
  pose proof (flush_link F options r (pendingOutbound F s) now s) as Hl.
  destruct (flush_loop _ _ _ _ _ _) as [s' out]. simpl in Hl. destruct Hl as (? & ? & ? & ? & ? & ?).
  unfold same_loop. rewrite Er in *. by destruct (_ <? 0).
Qed.

Lemma loop_relay_opened daemon now (s : Bridge) : loop_ok (relay_opened F options daemon now s).1.
Proof.
  unfold relay_opened. cbn [open_socket].
  match goal with |- context [flushPendingOutbound _ _ _ ?s1] => pose proof (flush_loop_same now s1) as (E1 & E2 & E3 & E4 & E5 & E6);
    destruct (flushPendingOutbound F options now s1) as [s2 out] end.
  simpl in *. split; [done|]. intros _. right. exists (length (sockets F s)), daemon. unfold ready. simpl.
  rewrite E3, E4, E5. split; [done|]. split; [set_solver|]. rewrite lookup_app_r, Nat.sub_diag by lia. done.
Qed.

(** A task taken off the list: the others remain. *)
Lemma loop_taken i t (s : Bridge) : tasks F s !! i = Some t → is_connect t = false → loop_ok s →
  loop_ok (set_tasks F (delete i (tasks F s)) s).
Proof.
  intros Hi Ht [L1 L2]. assert (connecting_task s → connecting_task (set_tasks F (delete i (tasks F s)) s)) as Hc.
  { intros (t' & Hin & Ht'). exists t'. split; [|done]. simpl. apply list_elem_of_lookup in Hin as [j Hj].
    rewrite (delete_take_drop). rewrite <- (take_drop_middle _ _ _ Hi) in Hj.
    assert (t' ∈ take i (tasks F s) ++ t :: drop (S i) (tasks F s)) as Hin by (by eapply list_elem_of_lookup_2).
    apply elem_of_app in Hin as [?|[->|?]%elem_of_cons]; [set_solver|congruence|set_solver]. }
  split; [auto|]. intros Hr. destruct (L2 Hr); [left; auto|by right].
Qed.

Lemma resume_connect t answer now draws (s s' : Bridge) out : is_connect t = true →
  resume F options t answer now draws s = Some (s', out) → loop_ok s'.
Proof.
  intros Ht Hr. destruct t as [| | | |token|token dm| |dm rl text|rl kex ne prev|rl call|rl call], answer; try discriminate Ht;
    cbn [resume] in Hr; try discriminate Hr; apply (inj Some) in Hr;
    try (injection Hr as <- <-; by apply loop_connect_failed); try (injection Hr as <- <-; by apply loop_task, task_added).
  - injection Hr as <- <-. destruct (truthy_str relayToken); [by apply loop_task, task_added|apply loop_connect_failed].
  - pose proof (loop_relay_opened dm now s) as Hl. by rewrite Hr in Hl.
  - injection Hr as <- <-. by apply loop_connectLoop.
Qed.

Lemma resume_other t answer now draws (s s' : Bridge) out : is_connect t = false →
  resume F options t answer now draws s = Some (s', out) → keeps F s s'.
Proof.
  intros Ht Hr. destruct t as [| | | |token|token dm| |dm rl text|rl kex ne prev|rl call|rl call], answer; try discriminate Ht;
    cbn [resume] in Hr; try discriminate Hr.
  - apply (inj Some) in Hr. pose proof (keeps_envelope F dm text now s) as Hk. by rewrite Hr in Hk.
  - destruct (resolvePolicyCPairingSecret _ _) as [sec|]; apply (inj Some) in Hr; [|injection Hr as <- <-; apply untouched_refl].
    pose proof (keeps_kex_finish F options rl kex ne prev (Some sec) now draws s) as Hk. by rewrite Hr in Hk.
  - destruct (offer_end _ _ _ _ _). apply (inj Some) in Hr. injection Hr as <- <-. apply keeps_keys.
  - destruct (redeem_end _ _ _). apply (inj Some) in Hr. injection Hr as <- <-. apply keeps_keys.
Qed.

(** A socket that closed leaves the loop alone if it is not the linked one. *)
Lemma loop_closed x now (s : Bridge) : loop_ok s → loop_ok (step s (SocketClosed x now)).1.
Proof.
  intros [L1 L2]. cbn [Bridge.step].
  set (s1 := set_sockets F (alter (λ _, CLOSED) x (sockets F s)) s).
  assert (linked s → linked s1 ∨ is_Some (pair_of F x s1)) as Hl.
  { intros (r & d & E & Hin & Hr). destruct (decide (r = x)) as [->|Hne].
    - right. unfold pair_of. change (connections F s1) with (connections F s).
      destruct (find_first _ (connections F s)) eqn:Ef; [by eexists|exfalso].
      clear - Hin Ef. induction (connections F s) as [|[d' r'] l IH]; [by apply elem_of_nil in Hin|].
      cbn [find_first fst snd] in Ef. destruct (_ || _) eqn:Eb; [done|]. apply elem_of_cons in Hin as [[= -> ->]|Hin]; [|auto].
      rewrite Nat.eqb_refl, orb_true_r in Eb. done.
    - left. exists r, d. split; [done|]. split; [done|]. unfold ready. simpl. by rewrite list_lookup_alter_ne. }
  destruct (pair_of F x s1) as [[dm rl]|]; cbn [fst].
  - unfold reconnect. change (running F s1) with (running F s). change (reconnecting F s1) with (reconnecting F s).
    destruct (running F s) eqn:Er; cbn [negb]; [|split; [exact L1|simpl; by rewrite Er]].
    destruct (reconnecting F s) eqn:Ec; [apply loop_task; by apply L1|].
    apply loop_connectLoop. simpl. by rewrite Ec.
  - split; [exact L1|]. intros Hr. destruct (L2 Hr) as [?|?%Hl]; [by left|].
    destruct H0 as [?|[? [=]]]. by right.
Qed.

Lemma step_loop (s : Bridge) e : loop_ok s → loop_ok (step s e).1.
Proof.
  intros Hi. destruct e as [now| |dm rl payload now|dm rl text now draws|x now|i answer now draws]; cbn [Bridge.step].
  - unfold start. destruct (running F s); [done|]. cbn [fst]. apply loop_connectLoop. intros Hr. by apply (lo_reconnecting s Hi).
  - apply loop_stop.
  - destruct (bool_decide _); [|done]. unfold handleDaemonMessage.
    destruct (filterDaemonPayload (filter_state F s) payload) as [[p|] f]; [|by apply (loop_same s)].
    destruct (truthy_str p); [cbn [negb]|by apply (loop_same s)].
    destruct (is_open F rl _).
    + eapply loop_keeps; [apply keeps_sendToAll|]. by apply (loop_same s).
    + unfold enqueue. destruct (shed _ _ _ _). by apply (loop_same s).
  - destruct (bool_decide _); [|done]. eapply loop_keeps, Hi. apply keeps_relay_message.
  - by apply loop_closed.
  - destruct (tasks F s !! i) as [t|] eqn:Ei; [|done].
    destruct (resume F options t answer now draws _) as [[s' out]|] eqn:Er; [|done]. cbn [fst].
    destruct (is_connect t) eqn:Et; [by eapply resume_connect|].
    eapply loop_keeps; [by eapply resume_other|]. by eapply loop_taken.
Qed.

(** C27: A running bridge never gives up: after every history of starts, stops, failures
    and disconnections, a bridge that is running has an attempt to connect under way
    or waiting for its time, or holds a relay socket that has not closed and whose
    close event will make it connect again. *)
Theorem running_bridge_connects endpoint token f events :
  let s := (run (initial F endpoint token f) events).1 in
  running F s = true → connecting_task s ∨ linked s.
Proof.
  intros s. apply lo_running. apply (run_invariant loop_ok (λ _, True)).
  - intros. by apply step_loop.
  - by apply Forall_true.
  - by split.
Qed.
End Loop.
