(* ===== verification/BridgeExamples.v ===== *)
(** * The relay bridge: deliveries, a concrete run, and flaws of the code *)

From S2P Require Import Prelude JsString JsMap Json JsonText Noise NoiseProps RelaySessions PairingChannel Bridge BridgeProps BridgeLoop.
From stdpp Require Import prelude strings list.
From Stdlib Require Import ZArith Lia Ascii.

Open Scope Z_scope.

Section Deliveries.
Context `{CryptoLaws}.
Variable F : Type.
Notation Bridge := (Bridge F).

(** What the handler does with an envelope made under the key of a session. *)
Lemma sealed_envelope_handled iv plaintext id x q daemon now (s : Bridge) :
  jm_get id (relaySessions F s) = Some x → nonblank id = true → safe (rs_epoch x) → safe q →
  (acceptInboundRelaySeq x q).1 = true → is_open F daemon s = true →
  (handleEnvelope F daemon (encryptEnvelope iv (rs_key x) plaintext (rs_profile x) id (rs_epoch x) q) now s).2 =
  [ToDaemon daemon id (rs_epoch x) q plaintext].
Proof.
  intros Hg Hid He Hq Ha Ho.
  destruct (envelope_roundtrip iv (rs_key x) plaintext (rs_profile x) id (rs_epoch x) q Hid He Hq) as
    (e & Ep & E1 & E2 & E3 & E4 & Ed).
  unfold handleEnvelope. rewrite Ep, E2, Hg, E1, E3, bool_decide_eq_true_2, Z.eqb_refl by done. cbn [negb orb]. rewrite E4.
  destruct (acceptInboundRelaySeq x q) as [ok x'] eqn:Eq. simpl in Ha. subst ok. cbn [negb].
  assert (rs_key x' = rs_key x) as ->. { unfold acceptInboundRelaySeq in Eq. repeat case_match; by simplify_eq. }
  rewrite Ed. cbn [snd]. unfold is_open, ready in *. simpl in *. by rewrite Ho.
Qed.

Lemma is_str_other v a b : is_str v a = true → a ≠ b → is_str v b = false.
Proof. unfold is_str. destruct v as [[]|]; try done. rewrite String.eqb_eq, String.eqb_neq. congruence. Qed.

(** An envelope is no control frame: it waits for the daemon's turn. *)
Lemma envelope_waits url options daemon relay text e now draws (s : Bridge) :
  parseRelayEnvelope text = Some e →
  handleRelayMessage url F options daemon relay text now draws s = (add_task F (AwaitEnvelope daemon relay text) s, []).
Proof.
  unfold parseRelayEnvelope, handleRelayMessage. destruct (JSON_parse text) as [v|]; [|done]. simpl.
  destruct (as_record v) as [f|] eqn:Ef; [|done]. simpl. destruct (is_str (field f "type") "e2ee") eqn:Et; [|done].
  intros _. unfold parsePairingOfferRequestFrame, parsePairingRedeemRequestFrame, parseRelayKeyExchangeInitFrameV3,
    parseRelayKeyExchangeInitFrame, isRelayControlFrame. rewrite Ef. simpl.
  rewrite !(is_str_other _ _ _ Et) by done. simpl. by destruct (parseRelayHandshakeProfile _).
Qed.

(** C28: A genuine envelope reaches the daemon: when a browser encrypts a text under the key
    of a session, with that session's profile, id and epoch and a sequence number, the
    bridge takes what arrives on the relay's socket for an envelope and keeps it for its
    next turn; and in that turn, if the bridge holds the session, its window accepts the
    number and the daemon's socket is open, the bridge reads the envelope's JSON, decrypts
    it and sends exactly the browser's text to the daemon.  (A daemon socket that is not
    open loses the text.) *)
Theorem genuine_envelope_delivered url pass options iv plaintext id x q daemon relay now draws (s : Bridge) :
  let text := encryptEnvelope iv (rs_key x) plaintext (rs_profile x) id (rs_epoch x) q in
  nonblank id = true → safe (rs_epoch x) → safe q → (daemon, relay) ∈ connections F s →
  step url F pass options s (RelayMessage daemon relay text now draws) =
    (add_task F (AwaitEnvelope daemon relay text) s, []) ∧
  ∀ s' i now' draws',
    tasks F s' !! i = Some (AwaitEnvelope daemon relay text) →
    jm_get id (relaySessions F s') = Some x → (acceptInboundRelaySeq x q).1 = true → is_open F daemon s' = true →
    (step url F pass options s' (Answered i Slept now' draws')).2 = [ToDaemon daemon id (rs_epoch x) q plaintext].
Proof.
  intros text Hid He Hq Hc. split.
  - destruct (envelope_roundtrip iv (rs_key x) plaintext (rs_profile x) id (rs_epoch x) q Hid He Hq) as (e & Ep & _).
    cbn [step]. rewrite bool_decide_eq_true_2 by done. by eapply envelope_waits.
  - intros s' i now' draws' Hi Hg Ha Ho. cbn [step]. rewrite Hi. cbn [resume]. by apply sealed_envelope_handled.
Qed.

(** Flaw: both directions use one key and the same associated data, so the relay can
    hand the bridge its own envelope back, and the daemon receives what it said as if
    the browser had said it. *)
Lemma own_envelope_accepted iv payload id x daemon t now (s : Bridge) :
  jm_get id (relaySessions F s) = Some x → rs_sessionId x = id → nonblank id = true → safe (rs_epoch x) →
  safe (txSeq x) → (acceptInboundRelaySeq x (txSeq x)).1 = true → is_open F daemon s = true →
  let earlier := with_tx (txSeq x - 1) t x in
  ∃ text, wire iv (sendToRelaySession earlier payload t).2 = Some text ∧
    (handleEnvelope F daemon text now s).2 = [ToDaemon daemon id (rs_epoch x) (txSeq x) payload].
Proof.
  intros Hg Hid Hn He Hq Ha Ho earlier. eexists. split; [reflexivity|]. simpl. rewrite Hid.
  replace (txSeq x - 1 + 1) with (txSeq x) by lia. by apply sealed_envelope_handled.
Qed.

(** Flaw: what was kept while the relay was away is sent to the sessions of the bridge,
    and a new connection starts without any: the flush sends nothing. *)
Lemma flush_without_sessions options now (s : Bridge) : relaySessions F s = [] →
  (flushPendingOutbound F options now s).2 = [].
Proof.
  intros Hs. unfold flushPendingOutbound. destruct (relayWs F s) as [relay|]; [|done]. destruct (negb _); [done|].
  generalize (pendingOutbound F s) as queue. intros queue.
  assert (∀ s : Bridge, relaySessions F s = [] → (flush_loop F options relay queue now s).2 = []) as Hf.
  { induction queue as [|p queue IH]; intros s' E; cbn [flush_loop]; [done|]. destruct (negb _); [done|].
    unfold sendToAll. cbn [relaySessions set_pendingOutboundBytes set_pendingOutbound]. rewrite E.
    unfold sendToAllRelaySessions. cbn [pruneIdleRelaySessions send_each jm_filter List.filter].
    match goal with |- context [flush_loop _ _ _ _ _ ?s1] => specialize (IH s1 eq_refl) end.
    destruct (flush_loop _ _ _ _ _ _). simpl in *. done. }
  specialize (Hf s Hs). by destruct (flush_loop _ _ _ _ _ _).
Qed.
End Deliveries.

(** ** A concrete bridge *)
Module Example.
Import Toy.
Definition url (_ : string) : option (string * string) := Some ("127.0.0.1", "7070").
Definition pass (_ : unit) (payload : string) : option string * unit := (Some payload, tt).
Definition options : Options := make_options "w" "ws://127.0.0.1:7070" None None None None None None.
Definition begin : Bridge unit := initial unit "wss://relay" (Some "token") tt.
Definition exec : Bridge unit → list Event → Bridge unit * list Effect := run url unit pass options.

Definition draws (id : string) : Draws :=
  {| d_ephemeral := "e"; d_nonce := zeros 16; d_sessionId := id; d_channel := "c"; d_iv := "iv"; d_jitter := 0 |}.
Definition identity : DaemonRelayIdentity := identity_of (zeros 32).
Definition answer (id : string) (a : Answer) (now : Z) : Event := Answered 0 a now (draws id).

(** The answers of an attempt to connect, up to the relay socket. *)
Definition attempt (id : string) (now : Z) : list Event :=
  [answer (id +:+ "1") (IdentityLoaded identity) now; answer (id +:+ "2") (KeyRegistered "token") now;
   answer (id +:+ "3") (TokenIssued "relay-token" noise_ik) now; answer (id +:+ "4") SocketOpened now].
Definition connect (id : string) (now : Z) : list Event := attempt id now ++ [answer (id +:+ "5") SocketOpened now].

(** A browser's first message, version 2. *)
Definition client_key : string := p256_public "client".
Definition client_nonce : string := "123456789012".
Definition init_text : string :=
  stringify_record [
    ("type", SStr "relay_key_exchange_init"); ("version", SInt 2); ("profile", SStr "noise-ik"); ("requestId", SStr "r1");
    ("clientPublicKey", SStr client_key); ("clientNonce", SStr client_nonce);
    ("clientProof", SStr (computeClientInitProof noise_ik "secret" client_nonce "r1" client_key (publicKey identity)
                            client_nonce None None))].
Definition key : string := deriveSessionKey noise_ik "secret" client_nonce (zeros 16) "rs_1" 1 None.
Definition browser_text (text : string) (q : Z) : string := encryptEnvelope "iv" key text noise_ik "rs_1" 1 q.

(** The sockets of the first connection are 0 and 1. *)
Definition session_events : list Event :=
  [Start 0] ++ connect "a" 10 ++ [RelayMessage 0 1 init_text 20 (draws "rs_1")].
Definition traffic : list Event :=
  [RelayMessage 0 1 (browser_text "hello" 1) 30 (draws "b1"); answer "b2" Slept 31;
   RelayMessage 0 1 (browser_text "hello" 1) 32 (draws "b3"); answer "b4" Slept 33;
   DaemonMessage 0 1 "welcome" 34; DaemonMessage 0 1 "again" 35].

Example traffic_effects : let out := (exec begin (session_events ++ traffic)).2 in
  delivered out = [("rs_1", 1)] ∧ sent out = [("rs_1", 1); ("rs_1", 2)].
Proof. by vm_compute. Qed.

(** Flaw: a number is marked as received before the envelope is authenticated, so a
    forged envelope makes the bridge drop the genuine one that has its number. *)
Definition forged_text (q : Z) : string :=
  envelope_text {| e_profile := noise_ik; e_sessionId := "rs_1"; e_epoch := 1; e_seq := q; e_iv := "iv"; e_tag := "no";
                   e_ciphertext := "x" |}.
Example forged_number_blocks_genuine :
  delivered (exec begin (session_events ++
    [RelayMessage 0 1 (forged_text 1) 30 (draws "b1"); answer "b2" Slept 31;
     RelayMessage 0 1 (browser_text "hello" 1) 32 (draws "b3"); answer "b4" Slept 33])).2 = [].
Proof. by vm_compute. Qed.

(** Flaw: a stop during an attempt does not end it: the bridge connects afterwards. *)
Example stop_does_not_cancel :
  let s := (exec begin ([Start 0] ++ attempt "a" 10 ++ [Stop; answer "a5" SocketOpened 20])).1 in
  running unit s = false ∧ status unit s = Connected ∧ relayWs unit s = Some 1%nat.
Proof. by vm_compute. Qed.

(** Flaw: the daemon's socket has no handlers until the relay's is open, so its close in
    between goes unnoticed: the bridge is connected to no daemon, and does nothing. *)
Example dead_daemon_unnoticed :
  let s := (exec begin ([Start 0] ++ attempt "a" 10 ++ [SocketClosed 0 15; answer "a5" SocketOpened 20])).1 in
  status unit s = Connected ∧ ready unit 0 s = CLOSED ∧ tasks unit s = [].
Proof. by vm_compute. Qed.

(** Flaw: the close event of a pair that was replaced tears down its successor: the
    sessions and the relay socket are forgotten, and that socket stays open. *)
Example stale_close_drops_successor :
  let s1 := (exec begin ([Start 0] ++ connect "a" 10 ++ [SocketClosed 1 20] ++ connect "b" 30)).1 in
  let s2 := (step url unit pass options s1 (SocketClosed 0 40)).1 in
  relayWs unit s1 = Some 3%nat ∧ status unit s1 = Connected ∧ relayWs unit s2 = None ∧ ready unit 3 s2 = OPEN.
Proof. by vm_compute. Qed.

(** Flaw: a payload that waited for the relay is lost when it comes back. *)
Example buffered_payload_lost :
  let before := (exec begin (session_events ++ [SocketClosed 1 30; DaemonMessage 0 1 "news" 31])).1 in
  let '(after, out) := exec before (connect "b" 40) in
  pendingOutbound unit before = ["news"] ∧ pendingOutbound unit after = [] ∧ sent out = [].
Proof. by vm_compute. Qed.
End Example.

(** ** Witnesses *)

Import Toy.

Lemma frames_never_repeat_witness :
  let events := Example.session_events ++ Example.traffic in
  NoDup (omap event_id events) ∧ let out := (Example.exec Example.begin events).2 in NoDup (sent out) ∧ NoDup (delivered out).
Proof.
  intros events. assert (NoDup (omap event_id events)) as Hn by (apply (bool_decide_unpack _); vm_compute; exact I).
  split; [exact Hn|].
  exact (frames_never_repeat Example.url unit Example.pass Example.options "wss://relay" (Some "token") tt events Hn).
Defined.

Lemma sessions_bounded_and_compatible_witness :
  let events := Example.session_events ++ Example.traffic in
  Forall drawn_ok events ∧ let s := (Example.exec Example.begin events).1 in
  NoDup_keys (relaySessions unit s) ∧ jm_size (relaySessions unit s) ≤ relaySessionMaxEntries Example.options ∧
  ∀ id x, jm_get id (relaySessions unit s) = Some x → isCompatibleProfile (requiredProfile unit s) (rs_profile x) = true.
Proof.
  intros events. assert (Forall drawn_ok events) as Hok by (repeat (apply List.Forall_cons; [discriminate|]); apply List.Forall_nil).
  split; [exact Hok|]. assert (1 ≤ relaySessionMaxEntries Example.options) as H1 by (vm_compute; discriminate).
  exact (sessions_bounded_and_compatible Example.url unit Example.pass Example.options "wss://relay" (Some "token") tt events H1 Hok).
Defined.

Lemma pending_queue_bounded_witness :
  let events := Example.session_events ++ [SocketClosed 1 30; DaemonMessage 0 1 "news" 31] in
  let s := (Example.exec Example.begin events).1 in
  0 ≤ max_length Example.options ∧ Z.of_nat (length (pendingOutbound unit s)) ≤ max_length Example.options ∧
  pendingOutboundBytes unit s ≤ max_bytes Example.options ∧ pendingOutboundBytes unit s = total_bytes (pendingOutbound unit s).
Proof.
  intros events s. assert (0 ≤ max_length Example.options) as H0 by (vm_compute; discriminate).
  assert (0 ≤ max_bytes Example.options) as H1 by (vm_compute; discriminate). split; [exact H0|].
  exact (pending_queue_bounded Example.url unit Example.pass Example.options "wss://relay" (Some "token") tt events H0 H1).
Defined.

Lemma running_bridge_connects_witness :
  let s := (run Example.url unit Example.pass Example.options (initial unit "wss://relay" (Some "token") tt)
              Example.session_events).1 in
  running unit s = true ∧ (connecting_task unit s ∨ linked unit s).
Proof.
  cbv zeta.
  match goal with |- ?r ∧ _ => assert r as Hr by (vm_compute; reflexivity) end. split; [exact Hr|].
  exact (running_bridge_connects Example.url unit Example.pass Example.options "wss://relay" (Some "token") tt
           Example.session_events Hr).
Defined.

Lemma genuine_envelope_delivered_witness :
  let s := (Example.exec Example.begin Example.session_events).1 in
  ∃ x, jm_get "rs_1" (relaySessions unit s) = Some x ∧
  let text := encryptEnvelope "iv" (rs_key x) "hello" (rs_profile x) "rs_1" (rs_epoch x) 5 in
  let events := [RelayMessage 0 1 text 30 (Example.draws "b1"); Answered 0 Slept 31 (Example.draws "b2")] in
  (Example.exec s events).2 = [ToDaemon 0 "rs_1" (rs_epoch x) 5 "hello"].
Proof.
  assert (∀ (s : Bridge unit) x, jm_get "rs_1" (relaySessions unit s) = Some x → safe (rs_epoch x) →
    (acceptInboundRelaySeq x 5).1 = true → tasks unit s = [] → is_open unit 0 s = true → (0%nat, 1%nat) ∈ connections unit s →
    let text := encryptEnvelope "iv" (rs_key x) "hello" (rs_profile x) "rs_1" (rs_epoch x) 5 in
    (Example.exec s [RelayMessage 0 1 text 30 (Example.draws "b1"); Answered 0 Slept 31 (Example.draws "b2")]).2 =
    [ToDaemon 0 "rs_1" (rs_epoch x) 5 "hello"]) as H.
  { intros s x Ex He Ha Et Ho Hc text.
    destruct (genuine_envelope_delivered unit Example.url Example.pass Example.options "iv" "hello" "rs_1" x 5 0 1 30
      (Example.draws "b1") s eq_refl He ltac:(by vm_compute) Hc) as [H1 H2]. fold text in H1, H2.
    unfold Example.exec. cbn [run]. rewrite H1.
    assert (tasks unit (add_task unit (AwaitEnvelope 0 1 text) s) !! 0%nat = Some (AwaitEnvelope 0 1 text)) as Hi.
    { unfold add_task. cbn. rewrite Et. reflexivity. }
    specialize (H2 (add_task unit (AwaitEnvelope 0 1 text) s) 0%nat 31 (Example.draws "b2") Hi Ex Ha Ho).
    destruct (step _ _ _ _ (add_task _ _ _) _) as [s2 out2]. cbn in H2. subst out2. reflexivity. }
  intros s. destruct (jm_get "rs_1" (relaySessions unit s)) as [x|] eqn:Ex; [|by vm_compute in Ex].
  exists x. split; [reflexivity|].
  assert (safe (rs_epoch x) ∧ (acceptInboundRelaySeq x 5).1 = true) as [He Ha].
  { vm_compute in Ex. injection Ex as <-. by vm_compute. }
  apply H; [exact Ex|exact He|exact Ha|vm_compute; reflexivity..|apply (bool_decide_unpack _); vm_compute; exact I].
Defined.
