(* ===== verification/OrgFilter.v ===== *)
(** * What of the daemon a relay binding may see (packages/daemon/src/relay/
    bridge-org-routing-filter.ts, the reading of bindings of cli/org-binding.ts)

    A daemon may serve several organizations; the frames it broadcasts go to the bridge
    of each, through this filter.  It learns the paths of directories and the
    directories of sessions from the frames it passes.  A directory belongs to the
    organization its nearest .viewport/local.yaml names; the files are an argument. *)

From S2P Require Import Prelude JsString JsMap Json.
From stdpp Require Import prelude strings list.
From Stdlib Require Import ZArith Lia Ascii.

(** ** cli/org-binding.ts *)

Record LocalOrgBinding := { lb_organizationId : string; lb_profileName : string; lb_streamEnabled : bool }.

(** [document.a?.id] *)
Definition member_id (v : option json) : option json := match v with Some (JObj f) => field f "id" | _ => None end.

Definition nonblank_string (v : option json) : option string :=
  s ← as_string v; if nonblank s then Some (trim s) else None.

Fixpoint first_nonblank (vs : list (option json)) : option string :=
  match vs with
  | [] => None
  | v :: vs => match nonblank_string v with Some s => Some s | None => first_nonblank vs end
  end.
Definition readOrganizationId (document : record) : option string :=
  first_nonblank [field document "organization_id"; field document "org_id"; field document "workspace_id";
                  member_id (field document "organization"); member_id (field document "workspace")].

Definition readStreamEnabled (document : record) : bool :=
  match (match field document "remote" with Some (JObj f) => field f "stream" | _ => None end) with
  | None | Some JNull => true
  | Some (JBool b) => b
  | Some (JStr raw) => bool_decide (lower (trim raw) ∈ ["enabled"; "true"; "1"; "on"])
  | Some _ => false
  end.

Definition normalizeBindingProfileName (v : option json) : string :=
  match nonblank_string v with Some s => s | None => "default" end.

Section OrgFilter.
(** The document of the nearest local.yaml above a directory: none, or its fields ([]
    when it is not a mapping). *)
Variable files : string → option record.
Variable organizationId profileName : string.

Definition resolveLocalOrgBindingSync (directory : string) : option LocalOrgBinding :=
  parsed ← files directory;
  organizationId ← readOrganizationId parsed;
  Some {| lb_organizationId := organizationId; lb_profileName := normalizeBindingProfileName (field parsed "profile");
          lb_streamEnabled := readStreamEnabled parsed |}.

Definition directoryStreamsToOrganization (directory : option string) : bool :=
  match directory with
  | None => false
  | Some d =>
      truthy_str d &&
      match resolveLocalOrgBindingSync d with
      | None => false
      | Some b => lb_streamEnabled b && String.eqb (lb_organizationId b) organizationId &&
                  String.eqb (lb_profileName b) (normalizeBindingProfileName (Some (JStr profileName)))
      end
  end.

(** ** bridge-org-routing-filter.ts *)

Record FilterState := { directoryPaths : list (string * string); sessionDirectories : list (string * string) }.
Definition empty_filter : FilterState := {| directoryPaths := []; sessionDirectories := [] |}.

Inductive Filtered := Dropped | Unchanged | Rewritten (message : record).

Definition directory_path (st : FilterState) (directoryId workingDirectory : option json) : option string :=
  match as_string workingDirectory with
  | Some w => Some w
  | None => id ← as_string directoryId; jm_get id (directoryPaths st)
  end.
Definition directoryAllowed (st : FilterState) (directoryId workingDirectory : option json) : bool :=
  directoryStreamsToOrganization (directory_path st directoryId workingDirectory).

Definition rememberDirectory (entry : record) (st : FilterState) : FilterState :=
  match as_string (field entry "id"), as_string (field entry "path") with
  | Some id, Some path => {| directoryPaths := jm_set id path (directoryPaths st); sessionDirectories := sessionDirectories st |}
  | _, _ => st
  end.

Definition set_session (id directory : string) (st : FilterState) : FilterState :=
  {| directoryPaths := directoryPaths st; sessionDirectories := jm_set id directory (sessionDirectories st) |}.

Definition rememberSession (entry : record) (st : FilterState) : FilterState :=
  match as_string (field entry "directoryId") with
  | None => st
  | Some d =>
      let st := match as_string (field entry "id") with Some id => set_session id d st | None => st end in
      match as_string (field entry "sessionId") with Some id => set_session id d st | None => st end
  end.

Definition sessionAllowed (st : FilterState) (sessionId : option json) : bool :=
  match id ← as_string sessionId; jm_get id (sessionDirectories st) with
  | None => false
  | Some directoryId => truthy_str directoryId && directoryAllowed st (Some (JStr directoryId)) None
  end.

Fixpoint filterSessions (items : list json) (st : FilterState) : list json * FilterState :=
  match items with
  | [] => ([], st)
  | JObj entry :: items =>
      if directoryAllowed st (field entry "directoryId") (field entry "workingDirectory") then
        let '(rest, st) := filterSessions items (rememberSession entry st) in (JObj entry :: rest, st)
      else filterSessions items st
  | _ :: items => filterSessions items st
  end.
Definition filterSessionArray (v : option json) (st : FilterState) : list json * FilterState :=
  match v with Some (JArr items) => filterSessions items st | _ => ([], st) end.

Fixpoint filterDirectories (items : list json) (st : FilterState) : list json * FilterState :=
  match items with
  | [] => ([], st)
  | JObj entry :: items =>
      let st := rememberDirectory entry st in
      let '(rest, st') := filterDirectories items st in
      (if directoryAllowed st (field entry "id") (field entry "path") then JObj entry :: rest else rest, st')
  | _ :: items => filterDirectories items st
  end.
Definition filterDirectoryArray (v : option json) (st : FilterState) : list json * FilterState :=
  match v with Some (JArr items) => filterDirectories items st | _ => ([], st) end.

Definition has_type (types : list string) (f : record) : bool := existsb (is_str (field f "type")) types.

Definition session_types : list string :=
  ["session-update"; "session-ended"; "hook-session-end"; "hook-notification"; "hook-tool-completed"; "hook-tool-failed";
   "hook-stop"; "hook-subagent-start"; "hook-subagent-stop"; "hook-plan-proposed"].
Definition directory_types : list string := ["session-alert"; "discovered-session-tail"; "discovered-session-waiting"].

(** [hook-session-start] *)
Definition session_start (message : record) (st : FilterState) : Filtered * FilterState :=
  if negb (directoryAllowed st None (field message "cwd")) then (Dropped, st)
  else
    (Unchanged,
     match as_string (field message "sessionId"), as_string (field message "cwd") with
     | Some id, Some cwd =>
         {| directoryPaths := jm_set ("cwd:" +:+ id) cwd (directoryPaths st);
            sessionDirectories := jm_set id ("cwd:" +:+ id) (sessionDirectories st) |}
     | _, _ => st
     end).

Definition filter (payload : string) (st : FilterState) : Filtered * FilterState :=
  match JSON_parse payload with
  | Some (JObj message) =>
      if has_type ["hello"; "sync-snapshot"] message then
        let '(directories, st) := filterDirectoryArray (field message "directories") st in
        let '(active, st) := filterSessionArray (field message "activeSessions") st in
        let '(discovered, st) := filterSessionArray (field message "discoveredSessions") st in
        (Rewritten (jm_set "discoveredSessions" (JArr discovered) (jm_set "activeSessions" (JArr active)
                     (jm_set "directories" (JArr directories) message))), st)
      else if has_type ["discovered-sessions-updated"] message then
        let '(sessions, st) := filterSessionArray (field message "sessions") st in
        let truncated := match field message "truncated" with Some (JBool true) => negb (bool_decide (sessions = [])) | _ => false end in
        (Rewritten (jm_set "truncated" (JBool truncated) (jm_set "sessions" (JArr sessions) message)), st)
      else if has_type session_types message then
        (if sessionAllowed st (field message "sessionId") then Unchanged else Dropped, st)
      else if has_type directory_types message then
        (if directoryAllowed st (field message "directoryId") None then Unchanged else Dropped, st)
      else if has_type ["hook-session-start"] message then session_start message st
      else if has_type ["workflow-run-updated"] message then (Dropped, st)
      else (Unchanged, st)
  | _ => (Dropped, st)
  end.

(** The filter of a bridge; [stringify] is [JSON.stringify]. *)
Definition filter_payload (stringify : json → string) (st : FilterState) (payload : string) : option string * FilterState :=
  let '(result, st) := filter payload st in
  (match result with
   | Dropped => None
   | Unchanged => Some payload
   | Rewritten message => Some (stringify (JObj message))
   end, st).

(** ** Properties *)

(** A directory path of the organization: the nearest local.yaml names the organization and
    the profile of the bridge, and does not turn streaming off. *)
Definition streams (path : string) : Prop :=
  path ≠ "" ∧ ∃ document, files path = Some document ∧ readOrganizationId document = Some organizationId ∧
    readStreamEnabled document = true ∧
    normalizeBindingProfileName (field document "profile") = normalizeBindingProfileName (Some (JStr profileName)).

Lemma streams_iff path : directoryStreamsToOrganization (Some path) = true ↔ streams path.
Proof.
  unfold directoryStreamsToOrganization, resolveLocalOrgBindingSync, streams. rewrite andb_true_iff, truthy_str_true.
  destruct (files path) as [document|]; simpl; [|split; [by intros [_ [=]]|by intros (_ & ? & [=] & _)]].
  destruct (readOrganizationId document) as [org|] eqn:Eo; simpl.
  - rewrite !andb_true_iff, !String.eqb_eq. split.
    + intros [? [[? <-] ?]]. split; [done|]. by exists document.
    + intros (? & d & [= <-] & E & ? & ?). rewrite Eo in E. by injection E as ->.
  - split; [by intros [_ [=]]|]. intros (_ & d & [= <-] & E & _). congruence.
Qed.

(** A session entry of a directory of the organization: of the working directory it
    states, or of the path [paths] has for its directory. *)
Definition entry_streams (paths : list (string * string)) (v : json) : Prop :=
  ∃ entry path, v = JObj entry ∧ streams path ∧
    (as_string (field entry "workingDirectory") = Some path ∨
     ∃ id, as_string (field entry "directoryId") = Some id ∧ jm_get id paths = Some path).

(** A directory entry whose own path, when it states one, streams. *)
Definition directory_streams (v : json) : Prop :=
  ∃ entry, v = JObj entry ∧ ∀ path, as_string (field entry "path") = Some path → streams path.

Lemma allowed_path st id w : directoryAllowed st id w = true → ∃ path, directory_path st id w = Some path ∧ streams path.
Proof. unfold directoryAllowed. destruct (directory_path st id w) as [path|]; [|done]. intros Hs%streams_iff. by exists path. Qed.

Lemma remember_session_paths entry st : directoryPaths (rememberSession entry st) = directoryPaths st.
Proof. unfold rememberSession. repeat case_match; done. Qed.

Lemma filterSessions_spec items : ∀ st, let '(out, st') := filterSessions items st in
  directoryPaths st' = directoryPaths st ∧ Forall (entry_streams (directoryPaths st)) out ∧ out `sublist_of` items.
Proof.
  induction items as [|v items IH]; intros st; [by repeat constructor|]. cbn [filterSessions].
  assert (let '(out, st') := filterSessions items st in directoryPaths st' = directoryPaths st ∧
    Forall (entry_streams (directoryPaths st)) out ∧ out `sublist_of` v :: items) as Hskip.
  { specialize (IH st). destruct (filterSessions items st). destruct IH as (? & ? & ?). split; [done|]. split; [done|].
    by apply sublist_cons. }
  destruct v as [| | | | |entry]; try exact Hskip.
  destruct (directoryAllowed st (field entry "directoryId") (field entry "workingDirectory")) eqn:Ea; [|exact Hskip].
  specialize (IH (rememberSession entry st)). destruct (filterSessions items (rememberSession entry st)) as [rest st'].
  rewrite remember_session_paths in IH. destruct IH as (E & F & S). split; [done|]. split; [|by apply sublist_skip].
  constructor; [|done]. apply allowed_path in Ea as (path & Hp & Hs). exists entry, path. split; [done|]. split; [done|].
  unfold directory_path in Hp. destruct (as_string (field entry "workingDirectory")); [left; congruence|right].
  destruct (as_string (field entry "directoryId")) as [id|]; [|done]. by exists id.
Qed.

Lemma filterSessionArray_spec v st : let '(out, st') := filterSessionArray v st in
  directoryPaths st' = directoryPaths st ∧ Forall (entry_streams (directoryPaths st)) out.
Proof.
  unfold filterSessionArray. destruct v as [[| | | |items|]|]; try (split; [done|constructor]).
  pose proof (filterSessions_spec items st) as Hs. destruct (filterSessions items st). by destruct Hs as (? & ? & _).
Qed.

Lemma filterDirectories_spec items : ∀ st, Forall directory_streams (filterDirectories items st).1.
Proof.
  induction items as [|v items IH]; intros st; [constructor|]. cbn [filterDirectories].
  destruct v as [| | | | |entry]; try apply IH. specialize (IH (rememberDirectory entry st)).
  destruct (filterDirectories items (rememberDirectory entry st)) as [rest st'].
  destruct (directoryAllowed _ _ _) eqn:Ea; [|done]. constructor; [|done]. exists entry. split; [done|]. intros path Hp.
  apply allowed_path in Ea as (path' & Hd & Hs). unfold directory_path in Hd. rewrite Hp in Hd. by simplify_eq.
Qed.

Lemma filterDirectoryArray_spec v st : Forall directory_streams (filterDirectoryArray v st).1.
Proof. unfold filterDirectoryArray. destruct v as [[| | | |items|]|]; try constructor. apply filterDirectories_spec. Qed.

(** The session a frame is about streams, by what the filter remembers. *)
Definition session_streams (st : FilterState) (v : option json) : Prop :=
  ∃ id directoryId path, v = Some (JStr id) ∧ jm_get id (sessionDirectories st) = Some directoryId ∧
    jm_get directoryId (directoryPaths st) = Some path ∧ streams path.

Lemma session_allowed_streams st v : sessionAllowed st v = true → session_streams st v.
Proof.
  unfold sessionAllowed. destruct v as [[| | |id| |]|]; try done. simpl.
  destruct (jm_get id (sessionDirectories st)) as [d|] eqn:Ed; [|done]. intros [_ Ha]%andb_true_iff.
  apply allowed_path in Ha as (path & Hp & Hs). by exists id, d, path.
Qed.

Lemma has_type_lookup types f : has_type types f = true → ∃ t, t ∈ types ∧ field f "type" = Some (JStr t).
Proof.
  unfold has_type. rewrite existsb_exists. intros (t & Hin & Ht). exists t. split; [by apply list_elem_of_In|].
  by apply is_str_true.
Qed.

Lemma has_type_other types types' f : has_type types f = true → types ## types' → has_type types' f = false.
Proof.
  intros (t & Hin & Ef)%has_type_lookup Hd. apply not_true_is_false. intros (t' & Hin' & Ef')%has_type_lookup.
  rewrite Ef in Ef'. injection Ef' as <-. by apply (Hd t).
Qed.

Lemma field_set_ne (k k' : string) (v : json) (f : record) : k ≠ k' → field (jm_set k' v f) k = field f k.
Proof. apply jm_get_set_ne. Qed.
Lemma field_set (k : string) (v : json) (f : record) : field (jm_set k v f) k = Some v.
Proof. apply jm_get_set_eq. Qed.

Lemma as_string_Some v t : as_string v = Some t → v = Some (JStr t).
Proof. unfold as_string. destruct v as [[]|]; simpl; congruence. Qed.

(** *** What the filter remembers *)

(** A frame says that a directory has a path. *)
Inductive states_directory (message : record) (id path : string) : Prop :=
| by_entry entries entry :
    field message "directories" = Some (JArr entries) → JObj entry ∈ entries →
    field entry "id" = Some (JStr id) → field entry "path" = Some (JStr path) → states_directory message id path
| by_start session :
    field message "type" = Some (JStr "hook-session-start") → field message "sessionId" = Some (JStr session) →
    field message "cwd" = Some (JStr path) → id = "cwd:" +:+ session → states_directory message id path.

(** A frame says that a session is in a directory. *)
Inductive states_session (message : record) (session directory : string) : Prop :=
| in_list name entries entry :
    name ∈ ["activeSessions"; "discoveredSessions"; "sessions"] → field message name = Some (JArr entries) → JObj entry ∈ entries →
    field entry "directoryId" = Some (JStr directory) →
    field entry "id" = Some (JStr session) ∨ field entry "sessionId" = Some (JStr session) → states_session message session directory
| at_start :
    field message "type" = Some (JStr "hook-session-start") → field message "sessionId" = Some (JStr session) →
    directory = "cwd:" +:+ session → states_session message session directory.

Lemma remembered_set {V} (k k' : string) (v x : V) m : jm_get k (jm_set k' v m) = Some x → k = k' ∧ x = v ∨ jm_get k m = Some x.
Proof.
  destruct (decide (k = k')) as [->|]; [rewrite jm_get_set_eq; intros [= ->]; by left|]. rewrite jm_get_set_ne by done. by right.
Qed.

Lemma directories_remembered items : ∀ st id path, let st' := (filterDirectories items st).2 in
  sessionDirectories st' = sessionDirectories st ∧
  (jm_get id (directoryPaths st') = Some path → jm_get id (directoryPaths st) = Some path ∨
   ∃ entry, JObj entry ∈ items ∧ field entry "id" = Some (JStr id) ∧ field entry "path" = Some (JStr path)).
Proof.
  induction items as [|v items IH]; intros st id path; [by split; [|left]|]. cbn [filterDirectories].
  assert (∀ st, sessionDirectories (filterDirectories items st).2 = sessionDirectories st ∧
    (jm_get id (directoryPaths (filterDirectories items st).2) = Some path → jm_get id (directoryPaths st) = Some path ∨
     ∃ entry, JObj entry ∈ v :: items ∧ field entry "id" = Some (JStr id) ∧ field entry "path" = Some (JStr path))) as Hrest.
  { intros st0. destruct (IH st0 id path) as [E Hs]. split; [done|]. intros [?|(e & ? & ?)]%Hs; [by left|right; exists e].
    split; [by right|done]. }
  destruct v as [| | | | |entry]; try apply Hrest. specialize (Hrest (rememberDirectory entry st)).
  destruct (filterDirectories items (rememberDirectory entry st)) as [rest st']. cbn [snd] in *. revert Hrest. unfold rememberDirectory.
  destruct (as_string (field entry "id")) as [i|] eqn:Ei; [|done]. destruct (as_string (field entry "path")) as [q|] eqn:Eq; [|done].
  apply as_string_Some in Ei, Eq. cbn [directoryPaths sessionDirectories]. intros [E Hs]. split; [done|].
  intros [[[-> ->]|?]%remembered_set|?]%Hs; [|by left|by right]. right. exists entry. split; [by left|done].
Qed.

Lemma remember_session_adds entry st session directory :
  jm_get session (sessionDirectories (rememberSession entry st)) = Some directory →
  jm_get session (sessionDirectories st) = Some directory ∨
  field entry "directoryId" = Some (JStr directory) ∧
    (field entry "id" = Some (JStr session) ∨ field entry "sessionId" = Some (JStr session)).
Proof.
  unfold rememberSession. destruct (as_string (field entry "directoryId")) as [d|] eqn:Ed; [|by left]. apply as_string_Some in Ed.
  intros Hg. assert (jm_get session (sessionDirectories (match as_string (field entry "id") with Some id => set_session id d st | None => st end)) =
    Some directory ∨ d = directory ∧ field entry "sessionId" = Some (JStr session)) as [Hg'|[<- E]]; [| |by right; split; [|right]].
  - destruct (as_string (field entry "sessionId")) as [q|] eqn:Eq; [|by left]. apply as_string_Some in Eq. cbn [set_session sessionDirectories] in Hg.
    apply remembered_set in Hg as [[-> ->]|Hg]; [by right|by left].
  - destruct (as_string (field entry "id")) as [i|] eqn:Ei; [|by left]. apply as_string_Some in Ei. cbn [set_session sessionDirectories] in Hg'.
    apply remembered_set in Hg' as [[-> ->]|Hg']; [right; split; [done|by left]|by left].
Qed.

Lemma sessions_remembered items : ∀ st session directory,
  jm_get session (sessionDirectories (filterSessions items st).2) = Some directory →
  jm_get session (sessionDirectories st) = Some directory ∨
  ∃ entry, JObj entry ∈ items ∧ field entry "directoryId" = Some (JStr directory) ∧
    (field entry "id" = Some (JStr session) ∨ field entry "sessionId" = Some (JStr session)).
Proof.
  induction items as [|v items IH]; intros st session directory; [by left|]. cbn [filterSessions].
  assert (∀ st, jm_get session (sessionDirectories (filterSessions items st).2) = Some directory →
    jm_get session (sessionDirectories st) = Some directory ∨
    ∃ entry, JObj entry ∈ v :: items ∧ field entry "directoryId" = Some (JStr directory) ∧
      (field entry "id" = Some (JStr session) ∨ field entry "sessionId" = Some (JStr session))) as Hrest.
  { intros st0 [?|(e & ? & ?)]%IH; [by left|right; exists e]. split; [by right|done]. }
  destruct v as [| | | | |entry]; try apply Hrest. destruct (directoryAllowed _ _ _); [|apply Hrest].
  specialize (Hrest (rememberSession entry st)).
  destruct (filterSessions items (rememberSession entry st)) as [rest st']. cbn [snd] in *. intros Hg. apply Hrest in Hg as [Hg|?]; [|by right].
  apply remember_session_adds in Hg as [?|[? ?]]; [by left|]. right. exists entry. split; [by left|done].
Qed.

Lemma filter_paths_kept v st : directoryPaths (filterSessionArray v st).2 = directoryPaths st.
Proof. pose proof (filterSessionArray_spec v st) as Hs. destruct (filterSessionArray v st). apply Hs. Qed.

Lemma array_sessions_remembered name message st session directory :
  name ∈ ["activeSessions"; "discoveredSessions"; "sessions"] →
  jm_get session (sessionDirectories (filterSessionArray (field message name) st).2) = Some directory →
  jm_get session (sessionDirectories st) = Some directory ∨ states_session message session directory.
Proof.
  intros Hn. unfold filterSessionArray. destruct (field message name) as [[| | | |items|]|] eqn:E; try by left.
  intros [?|(e & He & Hd & Hs)]%sessions_remembered; [by left|right]. by eapply in_list.
Qed.

Lemma array_directories_remembered message st id path :
  let st' := (filterDirectoryArray (field message "directories") st).2 in
  sessionDirectories st' = sessionDirectories st ∧
  (jm_get id (directoryPaths st') = Some path → jm_get id (directoryPaths st) = Some path ∨ states_directory message id path).
Proof.
  unfold filterDirectoryArray. destruct (field message "directories") as [[| | | |items|]|] eqn:E; try (by split; [|left]).
  destruct (directories_remembered items st id path) as [E1 Hs]. split; [done|].
  intros [?|(e & He & Hi & Hq)]%Hs; [by left|right]. by eapply by_entry.
Qed.

(** What a frame adds is what it says. *)
Lemma filter_remembers payload st : let st' := (filter payload st).2 in
  (∀ id path, jm_get id (directoryPaths st') = Some path → jm_get id (directoryPaths st) = Some path ∨
    ∃ message, JSON_parse payload = Some (JObj message) ∧ states_directory message id path) ∧
  (∀ session directory, jm_get session (sessionDirectories st') = Some directory →
    jm_get session (sessionDirectories st) = Some directory ∨
    ∃ message, JSON_parse payload = Some (JObj message) ∧ states_session message session directory).
Proof.
  unfold filter. destruct (JSON_parse payload) as [[| | | | |message]|]; try (by split; left). cbn zeta.
  destruct (has_type ["hello"; "sync-snapshot"] message) eqn:Eh.
  { pose proof (array_directories_remembered message st) as Hd. destruct (filterDirectoryArray _ st) as [directories st1] eqn:E1.
    pose proof (filter_paths_kept (field message "activeSessions") st1) as Ha.
    pose proof (λ s d, array_sessions_remembered "activeSessions" message st1 s d ltac:(set_solver)) as Sa.
    destruct (filterSessionArray (field message "activeSessions") st1) as [active st2].
    pose proof (filter_paths_kept (field message "discoveredSessions") st2) as Hs.
    pose proof (λ s d, array_sessions_remembered "discoveredSessions" message st2 s d ltac:(set_solver)) as Ss.
    destruct (filterSessionArray (field message "discoveredSessions") st2) as [discovered st3]. cbn [snd] in *. split.
    - intros id path. rewrite Hs, Ha. intros Hg. destruct (proj2 (Hd id path) Hg); [by left|right; by exists message].
    - intros session directory [[Hg|?]%Sa|?]%Ss; [|right; by exists message..]. left. by rewrite (proj1 (Hd "" "")) in Hg. }
  destruct (has_type ["discovered-sessions-updated"] message) eqn:Eu.
  { pose proof (filter_paths_kept (field message "sessions") st) as Hs.
    pose proof (λ s d, array_sessions_remembered "sessions" message st s d ltac:(set_solver)) as Ss.
    destruct (filterSessionArray (field message "sessions") st) as [sessions st1]. cbn [snd] in *. split.
    - intros id path. rewrite Hs. by left.
    - intros session directory [?|?]%Ss; [by left|right; by exists message]. }
  destruct (has_type session_types message); [by split; left|]. destruct (has_type directory_types message); [by split; left|].
  destruct (has_type ["hook-session-start"] message) eqn:Es; [|destruct (has_type ["workflow-run-updated"] message); by split; left].
  apply has_type_lookup in Es as (t & Hin & Ef). apply list_elem_of_singleton in Hin as ->.
  unfold session_start. destruct (negb _); [by split; left|]. cbn [snd].
  destruct (as_string (field message "sessionId")) as [i|] eqn:Ei; [|by split; left].
  destruct (as_string (field message "cwd")) as [c|] eqn:Ec; [|by split; left]. apply as_string_Some in Ei, Ec. cbn [directoryPaths sessionDirectories].
  split.
  - intros id path [[-> ->]|?]%remembered_set; [right|by left]. exists message. split; [done|]. by eapply by_start.
  - intros session directory [[-> ->]|?]%remembered_set; [right|by left]. exists message. split; [done|]. by apply at_start.
Qed.

Fixpoint filter_all (payloads : list string) (st : FilterState) : FilterState :=
  match payloads with [] => st | payload :: payloads => filter_all payloads (filter payload st).2 end.

Lemma all_remembered payloads : ∀ st, let st' := filter_all payloads st in
  (∀ id path, jm_get id (directoryPaths st') = Some path → jm_get id (directoryPaths st) = Some path ∨
    ∃ payload message, payload ∈ payloads ∧ JSON_parse payload = Some (JObj message) ∧ states_directory message id path) ∧
  (∀ session directory, jm_get session (sessionDirectories st') = Some directory →
    jm_get session (sessionDirectories st) = Some directory ∨
    ∃ payload message, payload ∈ payloads ∧ JSON_parse payload = Some (JObj message) ∧ states_session message session directory).
Proof.
  induction payloads as [|payload payloads IH]; intros st; [by split; left|]. cbn [filter_all].
  destruct (IH (filter payload st).2) as [I1 I2]. destruct (filter_remembers payload st) as [F1 F2]. split.
  - intros id path [[?|(m & ? & ?)]%F1|(p & m & ? & ?)]%I1; [by left|right; exists payload, m; split; [by left|done]|].
    right. exists p, m. split; [by right|done].
  - intros session directory [[?|(m & ? & ?)]%F2|(p & m & ? & ?)]%I2; [by left|right; exists payload, m; split; [by left|done]|].
    right. exists p, m. split; [by right|done].
Qed.


(** Flaw: a type of frame the filter does not name goes out as it is.  The daemon's
    requests for permission, with the name and the input of a tool, are of such a type. *)
Lemma permission_request_passes message payload st : JSON_parse payload = Some (JObj message) →
  field message "type" = Some (JStr "hook-permission-request") → filter payload st = (Unchanged, st).
Proof. intros Hp Ht. unfold filter, has_type. rewrite Hp, Ht. reflexivity. Qed.
End OrgFilter.

(** A daemon with a directory of the organization and another. *)
Definition example_files (directory : string) : option record :=
  if String.eqb directory "/work" then Some [("organization_id", JStr "org")] else None.
Definition example_snapshot : string :=
  quoted "{'type':'hello','directories':[{'id':'d1','path':'/work'},{'id':'d2','path':'/home'}],'activeSessions':[{'id':'s1','directoryId':'d1'},{'id':'s2','directoryId':'d2'}]}".
Definition example_event : string := quoted "{'type':'session-update','sessionId':'s1'}".
Notation example_filter := (filter example_files "org" "default").
Definition example_state : FilterState := filter_all example_files "org" "default" [example_snapshot] empty_filter.

Example example_events : (example_filter example_event example_state).1 = Unchanged ∧
  (example_filter (quoted "{'type':'session-update','sessionId':'s2'}") example_state).1 = Dropped.
Proof. by vm_compute. Qed.

