(* ===== verification/EpochProtocol.v ===== *)
(** * Epoch keys: fingerprints, signatures and wrapped keys
    (packages/daemon/src/security/epoch-protocol.ts)

    A user or a team has a sequence of key pairs, its epochs.  An epoch is named by the
    fingerprint of its public part, a new epoch is introduced by a transition the
    previous one signs, and key material travels wrapped for one recipient.

    Keys are JSON Web Keys.  Class [EpochKeys] has what node:crypto does with them and
    [EpochKeysLaws] what its documentation promises; a function of node:crypto that
    throws gives [None].  Generated keys, random bytes and the time are arguments. *)

From S2P Require Import Prelude JsString JsMap Json JsonText JsonStringify JsNumber CanonicalJson Noise.
From stdpp Require Import prelude strings list pretty.
From Stdlib Require Import ZArith Lia Ascii Floats.SpecFloat.

(** ** Errors *)

(** What a function that may throw gives. *)
Inductive result (A : Type) := Ok (a : A) | Throw (message : string).
Arguments Ok {A} a.
Arguments Throw {A} message.

#[export] Instance result_ret : MRet result := @Ok.
#[export] Instance result_bind : MBind result := λ A B f r, match r with Ok a => f a | Throw m => Throw m end.

(** [if (!ok) throw new Error(message)] *)
Definition require (ok : bool) (message : string) : result () := if ok then Ok () else Throw message.
Definition or_throw {A} (o : option A) (message : string) : result A :=
  match o with Some a => Ok a | None => Throw message end.

(** The message of node:crypto for a key or a buffer it refuses. *)
Definition crypto_error : string := "node:crypto".

(** ** Keys *)

Record KeyPair := { kp_public : json; kp_private : json }.

Class EpochKeys := {
  ed_sign : json → string → option string;                (* private key, text *)
  ed_verify : json → string → string → option bool;       (* public key, text, signature *)
  x_agree : json → json → option string;                  (* private key, public key: shared secret *)
  buffer_from : json → option string;                     (* Buffer.from(value, 'base64url') *)
  ed_pair : KeyPair → Prop;                               (* generateKeyPairSync('ed25519') *)
  x_pair : KeyPair → Prop                                 (* generateKeyPairSync('x25519') *)
}.

(** The exported public key of RFC 8037. *)
Definition okp_public (crv x : string) : json := JObj [("crv", JStr crv); ("x", JStr x); ("kty", JStr "OKP")].

Class EpochKeysLaws `{Crypto} `{EpochKeys} : Prop := {
  ed_total : ∀ kp text, ed_pair kp → is_Some (ed_sign (kp_private kp) text);
  ed_correct : ∀ kp text s, ed_pair kp → ed_sign (kp_private kp) text = Some s → ed_verify (kp_public kp) text s = Some true;
  ed_text : ∀ key text s, ed_sign key text = Some s → toBase64Url s ≠ "";
  ed_public_form : ∀ kp, ed_pair kp → ∃ x, kp_public kp = okp_public "Ed25519" x;
  x_correct : ∀ a b, x_pair a → x_pair b →
    ∃ s, x_agree (kp_private a) (kp_public b) = Some s ∧ x_agree (kp_private b) (kp_public a) = Some s;
  x_public_form : ∀ kp, x_pair kp → ∃ x, kp_public kp = okp_public "X25519" x;
  buffer_from_text : ∀ s, buffer_from (JStr s) = Some (fromBase64Url s)
}.

(** ** Private key material *)

Definition PRIVATE_JWK_FIELDS : list string :=
  ["d"; "p"; "q"; "dp"; "dq"; "qi"; "oth"; "k"; "x5c_private"; "hpkePrivateKey"; "privateKey"; "secretKey"].
Definition is_private_field (k : string) : bool := bool_decide (k ∈ PRIVATE_JWK_FIELDS).

(** The path of the first private field, as assertNoPrivateKeyMaterial meets them. *)
Fixpoint private_path (path : string) (v : json) {struct v} : option string :=
  match v with
  | JArr l =>
      (fix items (index : nat) (l : list json) : option string :=
        match l with
        | [] => None
        | item :: l =>
            match private_path (path +:+ "[" +:+ pretty index +:+ "]") item with
            | Some p => Some p
            | None => items (S index) l
            end
        end) 0 l
  | JObj f =>
      (fix entries (f : record) : option string :=
        match f with
        | [] => None
        | (key, child) :: f =>
            if is_private_field key then Some (path +:+ "." +:+ key)
            else match private_path (path +:+ "." +:+ key) child with
                 | Some p => Some p
                 | None => entries f
                 end
        end) f
  | _ => None
  end.

Definition assertNoPrivateKeyMaterial (v : json) : result () :=
  match private_path "$" v with
  | Some path => Throw ("Private key material is not allowed at " +:+ path +:+ ".")
  | None => Ok ()
  end.

(** ** Descriptors *)

Definition USER_EPOCH_SCHEMA : string := "viewport.user_crypto_epoch/v1".
Definition TEAM_EPOCH_SCHEMA : string := "viewport.team_crypto_epoch/v1".
Definition DEVICE_ENROLLMENT_SCHEMA : string := "viewport.device_enrollment/v1".
Definition WRAPPED_KEY_ENVELOPE_SCHEMA : string := "viewport.wrapped_key_envelope/v1".
Definition WRAP_ALG : string := "x25519-hkdf-sha256-aes-256-gcm".

Record EpochDescriptor := {
  d_schema : string; d_workspaceId : string; d_subjectType : string; d_subjectId : string; d_epoch : spec_float;
  d_encryptionPublicKeyJwk : json; d_signingPublicKeyJwk : json; d_previousEpochFingerprint : option string;
  d_createdAt : string
}.

Record DeviceEnrollmentRequest := {
  de_schema : string; de_workspaceId : string; de_deviceId : string; de_deviceLabel : string;
  de_encryptionPublicKeyJwk : json; de_signingPublicKeyJwk : json; de_nonce : string
}.

Record EpochTransitionPayload := {
  t_schema : string; t_workspaceId : string; t_subjectType : string; t_subjectId : string;
  t_fromEpoch : spec_float; t_fromEpochFingerprint : string; t_toEpoch : spec_float; t_toEpochFingerprint : string;
  t_reason : string; t_createdAt : string
}.

Record SignedEpochTransition := {
  s_payload : EpochTransitionPayload; s_signature : string; s_signedByEpochFingerprint : string
}.

Record UserEpochDeviceMaterializationPayload := {
  m_schema : string; m_workspaceId : string; m_userId : string; m_enrollmentId : string; m_grantId : string;
  m_userCryptoEpochId : string; m_userEpochFingerprint : string; m_recipientFingerprint : string
}.

Record WrappedKeyEnvelope := {
  w_schema : string; w_alg : string; w_ephemeralPublicKeyJwk : json; w_iv : string; w_ciphertext : string;
  w_tag : string; w_aadDigest : string; w_createdAt : string
}.

(** [null] for a missing text. *)
Definition nullable (o : option string) : json := match o with Some s => JStr s | None => JNull end.

(** The records as the JSON values they are. *)
Definition transition_json (p : EpochTransitionPayload) : json :=
  JObj [("schema", JStr (t_schema p)); ("workspaceId", JStr (t_workspaceId p));
        ("subjectType", JStr (t_subjectType p)); ("subjectId", JStr (t_subjectId p));
        ("fromEpoch", JNum (t_fromEpoch p)); ("fromEpochFingerprint", JStr (t_fromEpochFingerprint p));
        ("toEpoch", JNum (t_toEpoch p)); ("toEpochFingerprint", JStr (t_toEpochFingerprint p));
        ("reason", JStr (t_reason p)); ("createdAt", JStr (t_createdAt p))].

Definition enrollment_request_json (r : DeviceEnrollmentRequest) : json :=
  JObj [("schema", JStr (de_schema r)); ("workspaceId", JStr (de_workspaceId r));
        ("deviceId", JStr (de_deviceId r)); ("deviceLabel", JStr (de_deviceLabel r));
        ("encryptionPublicKeyJwk", de_encryptionPublicKeyJwk r); ("signingPublicKeyJwk", de_signingPublicKeyJwk r);
        ("nonce", JStr (de_nonce r))].

Definition materialization_json (p : UserEpochDeviceMaterializationPayload) : json :=
  JObj [("schema", JStr (m_schema p)); ("workspaceId", JStr (m_workspaceId p)); ("userId", JStr (m_userId p));
        ("enrollmentId", JStr (m_enrollmentId p)); ("grantId", JStr (m_grantId p));
        ("userCryptoEpochId", JStr (m_userCryptoEpochId p)); ("userEpochFingerprint", JStr (m_userEpochFingerprint p));
        ("recipientFingerprint", JStr (m_recipientFingerprint p))].

Definition descriptor_json (e : EpochDescriptor) : json :=
  JObj [("schema", JStr (d_schema e)); ("workspaceId", JStr (d_workspaceId e));
        ("subjectType", JStr (d_subjectType e)); ("subjectId", JStr (d_subjectId e)); ("epoch", JNum (d_epoch e));
        ("encryptionPublicKeyJwk", d_encryptionPublicKeyJwk e); ("signingPublicKeyJwk", d_signingPublicKeyJwk e);
        ("previousEpochFingerprint", nullable (d_previousEpochFingerprint e))].

Definition envelope_fields (w : WrappedKeyEnvelope) : record :=
  [("schema", JStr (w_schema w)); ("alg", JStr (w_alg w)); ("ephemeralPublicKeyJwk", w_ephemeralPublicKeyJwk w);
   ("iv", JStr (w_iv w)); ("ciphertext", JStr (w_ciphertext w)); ("tag", JStr (w_tag w));
   ("aadDigest", JStr (w_aadDigest w)); ("createdAt", JStr (w_createdAt w))].

Section Protocol.
Context `{Crypto} `{EpochKeys}.

Definition sha256Base64Url (value : string) : string := toBase64Url (sha256 value).
Definition fingerprintPayload (v : json) : string := "sha256:" +:+ sha256Base64Url (canonicalJson v).

Definition epochFingerprint (e : EpochDescriptor) : string := fingerprintPayload (descriptor_json e).

Definition deviceEnrollmentFingerprint (r : DeviceEnrollmentRequest) : result string :=
  _ ← assertNoPrivateKeyMaterial (de_encryptionPublicKeyJwk r);
  _ ← assertNoPrivateKeyMaterial (de_signingPublicKeyJwk r);
  Ok (fingerprintPayload (enrollment_request_json r)).

(** The signature of a payload: Ed25519 over its canonical text. *)
Definition sign_json (payload signingPrivateKeyJwk : json) : result string :=
  s ← or_throw (ed_sign signingPrivateKeyJwk (canonicalJson payload)) crypto_error;
  Ok (toBase64Url s).

Definition signDeviceEnrollmentRequest (r : DeviceEnrollmentRequest) (key : json) : result string :=
  sign_json (enrollment_request_json r) key.

(** The payload, its signature and the fingerprint of the signing epoch. *)
Definition signUserEpochDeviceMaterialization (p : UserEpochDeviceMaterializationPayload) (key : json)
    (signedBy : string) : result (UserEpochDeviceMaterializationPayload * string * string) :=
  s ← sign_json (materialization_json p) key; Ok (p, s, signedBy).

Definition userEpochDeviceMaterializationPayload (workspaceId userId enrollmentId grantId userCryptoEpochId
    userEpochFingerprint recipientFingerprint : string) : UserEpochDeviceMaterializationPayload :=
  {| m_schema := "viewport.user_epoch_device_materialization/v1"; m_workspaceId := workspaceId; m_userId := userId;
     m_enrollmentId := enrollmentId; m_grantId := grantId; m_userCryptoEpochId := userCryptoEpochId;
     m_userEpochFingerprint := userEpochFingerprint; m_recipientFingerprint := recipientFingerprint |}.

Definition contextGrantMaterializationPayload (workspaceId contextResourceId grantEventId recipientName : string)
    (keyEpoch : option spec_float) : json :=
  JObj [("schema", JStr "viewport.context_vault_grant_materialization/v1"); ("workspaceId", JStr workspaceId);
        ("contextResourceId", JStr contextResourceId); ("grantEventId", JStr grantEventId);
        ("recipientName", JStr recipientName); ("keyEpoch", match keyEpoch with Some n => JNum n | None => JNull end)].

(** The payload, its signature and the fingerprint of the signing epoch. *)
Definition signContextGrantMaterialization (payload key : json) (signedBy : string) : result (json * string * string) :=
  s ← sign_json payload key; Ok (payload, s, signedBy).

Definition epochTransitionPayload (from to : EpochDescriptor) (reason createdAt : string)
    : result EpochTransitionPayload :=
  _ ← require (String.eqb (d_workspaceId from) (d_workspaceId to)) "Epoch transition workspace mismatch.";
  _ ← require (String.eqb (d_subjectType from) (d_subjectType to) && String.eqb (d_subjectId from) (d_subjectId to))
        "Epoch transition subject mismatch.";
  _ ← require (num_eq (d_epoch to) (num_add (d_epoch from) (num_of_Z 1)))
        "Epoch transition must advance by exactly one epoch.";
  Ok {| t_schema := "viewport.epoch_transition/v1"; t_workspaceId := d_workspaceId from;
        t_subjectType := d_subjectType from; t_subjectId := d_subjectId from; t_fromEpoch := d_epoch from;
        t_fromEpochFingerprint := epochFingerprint from; t_toEpoch := d_epoch to;
        t_toEpochFingerprint := epochFingerprint to; t_reason := reason; t_createdAt := createdAt |}.

Definition signEpochTransition (p : EpochTransitionPayload) (key : json) (signedBy : string)
    : result SignedEpochTransition :=
  s ← sign_json (transition_json p) key;
  Ok {| s_payload := p; s_signature := s; s_signedByEpochFingerprint := signedBy |}.

Definition verifyEpochTransition (signed : SignedEpochTransition) (signingPublicKeyJwk : json)
    (expectedFrom expectedTo : string) : result bool :=
  if negb (String.eqb (s_signedByEpochFingerprint signed) expectedFrom) then Ok false
  else if negb (String.eqb (t_fromEpochFingerprint (s_payload signed)) expectedFrom) then Ok false
  else if negb (String.eqb (t_toEpochFingerprint (s_payload signed)) expectedTo) then Ok false
  else or_throw (ed_verify signingPublicKeyJwk (canonicalJson (transition_json (s_payload signed)))
                   (fromBase64Url (s_signature signed))) crypto_error.

(** ** Wrapped keys *)

Definition deriveWrapKey (sharedSecret : string) : string :=
  hkdfSync sharedSecret "viewport-wrapped-key-envelope-salt-v1" "viewport-wrapped-key-envelope/v1".

Definition wrapJsonForX25519Recipient (ephemeral : KeyPair) (iv : string) (recipientPublicKeyJwk payload aad : json)
    (createdAt : string) : result WrappedKeyEnvelope :=
  _ ← assertNoPrivateKeyMaterial recipientPublicKeyJwk;
  sharedSecret ← or_throw (x_agree (kp_private ephemeral) recipientPublicKeyJwk) crypto_error;
  let '(ciphertext, tag) := aes_seal (deriveWrapKey sharedSecret) iv (canonicalJson aad) (canonicalJson payload) in
  Ok {| w_schema := WRAPPED_KEY_ENVELOPE_SCHEMA; w_alg := WRAP_ALG; w_ephemeralPublicKeyJwk := kp_public ephemeral;
        w_iv := toBase64Url iv; w_ciphertext := toBase64Url ciphertext; w_tag := toBase64Url tag;
        w_aadDigest := fingerprintPayload aad; w_createdAt := createdAt |}.

(** A field of an envelope that has not been checked, as the bytes of a buffer. *)
Definition buffer_field (envelope : record) (name : string) : result string :=
  or_throw (v ← field envelope name; buffer_from v) crypto_error.

Definition unwrapJsonFromX25519Envelope (recipientPrivateKeyJwk : json) (envelope : record) (aad : json)
    : result json :=
  _ ← require (is_str (field envelope "schema") WRAPPED_KEY_ENVELOPE_SCHEMA) "Unsupported wrapped key envelope schema.";
  _ ← require (is_str (field envelope "alg") WRAP_ALG) "Unsupported wrapped key envelope algorithm.";
  _ ← require (is_str (field envelope "aadDigest") (fingerprintPayload aad)) "Wrapped key envelope AAD mismatch.";
  sharedSecret ← or_throw (key ← field envelope "ephemeralPublicKeyJwk"; x_agree recipientPrivateKeyJwk key) crypto_error;
  iv ← buffer_field envelope "iv";
  tag ← buffer_field envelope "tag";
  ciphertext ← buffer_field envelope "ciphertext";
  plaintext ← or_throw (aes_open (deriveWrapKey sharedSecret) iv (canonicalJson aad) ciphertext tag) crypto_error;
  or_throw (JSON_parse plaintext) "SyntaxError".
End Protocol.
