(* ===== verification/EpochStore.v ===== *)
(** * The local store of epochs (packages/daemon/src/security/epoch-store.ts)

    The file crypto/epochs.json keeps the user and team epochs with their private keys,
    the enrollments of this device, and the public epochs of others it has pinned.
    Every operation reads the whole file, and those that change it write it back.  What
    JSON.parse made of the file is a [StoredFile]; its entries are those this code
    wrote.  The time is an argument. *)

From S2P Require Import Prelude JsString JsMap Json JsonText JsonStringify JsNumber CanonicalJson Noise EpochProtocol.
From stdpp Require Import prelude strings list.
From Stdlib Require Import ZArith Lia Floats.SpecFloat.

Definition STORE_SCHEMA : string := "viewport.local_crypto_epochs/v1".

Inductive EpochStatus := active | superseded | revoked.
Inductive EnrollmentStatus := enrollment_pending | enrollment_approved | enrollment_accepted | enrollment_revoked.
#[export] Instance EpochStatus_eq_dec : EqDecision EpochStatus.
Proof. solve_decision. Defined.

(** The keys of an epoch. *)
Record EpochKeyMaterial := {
  encryptionPublicKeyJwk : json; encryptionPrivateKeyJwk : json; signingPublicKeyJwk : json; signingPrivateKeyJwk : json
}.

Record LocalUserCryptoEpoch := {
  u_workspaceId : string; u_userId : string; u_platformEpochId : option string; u_epoch : spec_float; u_schema : string;
  u_status : EpochStatus; u_keys : EpochKeyMaterial; u_fingerprint : string;
  u_previousEpochFingerprint : option string; u_createdAt : string; u_updatedAt : string
}.

Record LocalTeamCryptoEpoch := {
  te_workspaceId : string; te_teamId : string; te_platformTeamId : option string; te_platformEpochId : option string;
  te_epoch : spec_float; te_schema : string; te_status : EpochStatus; te_keys : EpochKeyMaterial;
  te_fingerprint : string; te_previousEpochFingerprint : option string; te_createdAt : string; te_updatedAt : string
}.

Record LocalDeviceEnrollment := {
  en_workspaceId : string; en_enrollmentId : option string; en_userId : option string; en_deviceId : string;
  en_deviceLabel : string; en_status : EnrollmentStatus; en_keys : EpochKeyMaterial; en_fingerprint : string;
  en_nonce : string; en_createdAt : string; en_updatedAt : string
}.

Record LocalPublicEpochPin := {
  p_workspaceId : string; p_subjectType : string; p_subjectId : string; p_platformEpochId : string;
  p_epoch : spec_float; p_schema : string; p_fingerprint : string; p_encryptionPublicKeyJwk : json;
  p_signingPublicKeyJwk : json; p_previousEpochFingerprint : option string; p_continuityPayload : option json;
  p_continuitySignature : option string; p_signedByEpochFingerprint : option string;
  p_createdAt : string; p_updatedAt : string
}.

Record LocalEpochStore := {
  userEpochs : list LocalUserCryptoEpoch; teamEpochs : list LocalTeamCryptoEpoch;
  deviceEnrollments : list LocalDeviceEnrollment; publicEpochPins : list LocalPublicEpochPin
}.

(** ** The file *)

(** [None] where the parsed file has no array. *)
Record StoredFile := {
  f_schema : string; f_userEpochs : option (list LocalUserCryptoEpoch); f_teamEpochs : option (list LocalTeamCryptoEpoch);
  f_deviceEnrollments : option (list LocalDeviceEnrollment); f_publicEpochPins : option (list LocalPublicEpochPin)
}.

(** Reading it failed with ENOENT or otherwise, or gave a value. *)
Inductive file := Missing | Unreadable (message : string) | Parsed (f : StoredFile).

Definition emptyStore : LocalEpochStore :=
  {| userEpochs := []; teamEpochs := []; deviceEnrollments := []; publicEpochPins := [] |}.

Definition readLocalEpochStore (d : file) : result LocalEpochStore :=
  match d with
  | Missing => Ok emptyStore
  | Unreadable message => Throw message
  | Parsed f =>
      match f_userEpochs f with
      | Some users =>
          if String.eqb (f_schema f) STORE_SCHEMA then
            Ok {| userEpochs := users; teamEpochs := default [] (f_teamEpochs f);
                  deviceEnrollments := default [] (f_deviceEnrollments f);
                  publicEpochPins := default [] (f_publicEpochPins f) |}
          else Throw "Invalid local crypto epoch store."
      | None => Throw "Invalid local crypto epoch store."
      end
  end.

Definition writeLocalEpochStore (s : LocalEpochStore) : file :=
  Parsed {| f_schema := STORE_SCHEMA; f_userEpochs := Some (userEpochs s); f_teamEpochs := Some (teamEpochs s);
            f_deviceEnrollments := Some (deviceEnrollments s); f_publicEpochPins := Some (publicEpochPins s) |}.

Lemma read_write s : readLocalEpochStore (writeLocalEpochStore s) = Ok s.
Proof. by destruct s. Qed.

Definition with_users (us : list LocalUserCryptoEpoch) (s : LocalEpochStore) : LocalEpochStore :=
  {| userEpochs := us; teamEpochs := teamEpochs s; deviceEnrollments := deviceEnrollments s; publicEpochPins := publicEpochPins s |}.
Definition with_teams (ts : list LocalTeamCryptoEpoch) (s : LocalEpochStore) : LocalEpochStore :=
  {| userEpochs := userEpochs s; teamEpochs := ts; deviceEnrollments := deviceEnrollments s; publicEpochPins := publicEpochPins s |}.
Definition with_enrollments (es : list LocalDeviceEnrollment) (s : LocalEpochStore) : LocalEpochStore :=
  {| userEpochs := userEpochs s; teamEpochs := teamEpochs s; deviceEnrollments := es; publicEpochPins := publicEpochPins s |}.
Definition with_pins (ps : list LocalPublicEpochPin) (s : LocalEpochStore) : LocalEpochStore :=
  {| userEpochs := userEpochs s; teamEpochs := teamEpochs s; deviceEnrollments := deviceEnrollments s; publicEpochPins := ps |}.

(** ** Idioms of the operations *)

Section Lists.
Context {A : Type}.

(** [l.sort((a, b) => b.epoch - a.epoch)], which is stable. *)
Fixpoint insert_by_epoch (epoch : A → spec_float) (x : A) (l : list A) : list A :=
  match l with
  | [] => [x]
  | y :: l' => if num_lt (epoch y) (epoch x) then x :: l else y :: insert_by_epoch epoch x l'
  end.
Definition sort_by_epoch (epoch : A → spec_float) (l : list A) : list A :=
  fold_left (λ sorted x, insert_by_epoch epoch x sorted) l [].

(** The first entry that satisfies [p], updated in place by [f]: it and the list. *)
Fixpoint update_first (p : A → bool) (f : A → A) (l : list A) : option (A * list A) :=
  match l with
  | [] => None
  | x :: l => if p x then Some (f x, f x :: l)
              else match update_first p f l with Some (y, l') => Some (y, x :: l') | None => None end
  end.

(** [existing = l.find(p)]: updates it if there is one, adds [created] at the end if not. *)
Definition upsert (p : A → bool) (f : A → A) (created : A) (l : list A) : A * list A :=
  match update_first p f l with Some r => r | None => (created, l ++ [created]) end.
End Lists.

(** ** Reading *)

Definition active_in (workspaceId : string) (e : LocalUserCryptoEpoch) : bool :=
  String.eqb (u_workspaceId e) workspaceId && bool_decide (u_status e = active).
Definition activeUserEpochs (workspaceId : string) (s : LocalEpochStore) : list LocalUserCryptoEpoch :=
  List.filter (active_in workspaceId) (userEpochs s).

Definition getActiveLocalUserEpoch (workspaceId : string) (d : file) : result (option LocalUserCryptoEpoch) :=
  s ← readLocalEpochStore d; Ok (head (sort_by_epoch u_epoch (activeUserEpochs workspaceId s))).

Definition getActiveLocalTeamEpoch (workspaceId teamId : string) (d : file) : result (option LocalTeamCryptoEpoch) :=
  s ← readLocalEpochStore d;
  Ok (head (sort_by_epoch te_epoch (List.filter (λ e,
    String.eqb (te_workspaceId e) workspaceId &&
    (String.eqb (te_teamId e) teamId || option_eqb (te_platformTeamId e) (Some teamId)) &&
    bool_decide (te_status e = active)) (teamEpochs s)))).

Definition listActiveLocalTeamEpochs (workspaceId : string) (d : file) : result (list LocalTeamCryptoEpoch) :=
  s ← readLocalEpochStore d;
  Ok (sort_by_epoch te_epoch (List.filter (λ e,
    String.eqb (te_workspaceId e) workspaceId && bool_decide (te_status e = active)) (teamEpochs s))).

Definition getLocalTeamEpochByPlatformId (workspaceId platformEpochId : string) (d : file)
    : result (option LocalTeamCryptoEpoch) :=
  s ← readLocalEpochStore d;
  Ok (find_first (λ e, String.eqb (te_workspaceId e) workspaceId && option_eqb (te_platformEpochId e) (Some platformEpochId) &&
    bool_decide (te_status e = active)) (teamEpochs s)).

Definition getLocalUserEpochByPlatformId (workspaceId platformEpochId : string) (d : file)
    : result (option LocalUserCryptoEpoch) :=
  s ← readLocalEpochStore d;
  Ok (find_first (λ e, String.eqb (u_workspaceId e) workspaceId && option_eqb (u_platformEpochId e) (Some platformEpochId) &&
    bool_decide (u_status e = active)) (userEpochs s)).

Definition getLocalDeviceEnrollment (workspaceId enrollmentIdOrFingerprint : string) (d : file)
    : result (option LocalDeviceEnrollment) :=
  s ← readLocalEpochStore d;
  Ok (find_first (λ e, String.eqb (en_workspaceId e) workspaceId &&
    (option_eqb (en_enrollmentId e) (Some enrollmentIdOrFingerprint) || String.eqb (en_fingerprint e) enrollmentIdOrFingerprint))
    (deviceEnrollments s)).

Definition pin_of (workspaceId subjectType subjectId : string) (p : LocalPublicEpochPin) : bool :=
  String.eqb (p_workspaceId p) workspaceId && String.eqb (p_subjectType p) subjectType && String.eqb (p_subjectId p) subjectId.

Definition getLocalPublicEpochPin (workspaceId subjectType subjectId : string) (d : file)
    : result (option LocalPublicEpochPin) :=
  s ← readLocalEpochStore d;
  Ok (head (sort_by_epoch p_epoch (List.filter (pin_of workspaceId subjectType subjectId) (publicEpochPins s)))).

(** ** Writing

    An input is an entry whose two times are ignored: [Object.assign] keeps the time an
    existing entry was created, and both are now for a new one. *)

Definition user_times (created updated : string) (e : LocalUserCryptoEpoch) : LocalUserCryptoEpoch :=
  {| u_workspaceId := u_workspaceId e; u_userId := u_userId e; u_platformEpochId := u_platformEpochId e;
     u_epoch := u_epoch e; u_schema := u_schema e; u_status := u_status e; u_keys := u_keys e;
     u_fingerprint := u_fingerprint e; u_previousEpochFingerprint := u_previousEpochFingerprint e;
     u_createdAt := created; u_updatedAt := updated |}.

Definition user_superseded (now : string) (e : LocalUserCryptoEpoch) : LocalUserCryptoEpoch :=
  {| u_workspaceId := u_workspaceId e; u_userId := u_userId e; u_platformEpochId := u_platformEpochId e;
     u_epoch := u_epoch e; u_schema := u_schema e; u_status := superseded; u_keys := u_keys e;
     u_fingerprint := u_fingerprint e; u_previousEpochFingerprint := u_previousEpochFingerprint e;
     u_createdAt := u_createdAt e; u_updatedAt := now |}.

Definition supersede_users (workspaceId now : string) (us : list LocalUserCryptoEpoch) : list LocalUserCryptoEpoch :=
  map (λ e, if active_in workspaceId e then user_superseded now e else e) us.

Definition upsertLocalUserEpoch (input : LocalUserCryptoEpoch) (now : string) (d : file)
    : result (LocalUserCryptoEpoch * file) :=
  s ← readLocalEpochStore d;
  let '(e, us) := upsert (λ e, String.eqb (u_workspaceId e) (u_workspaceId input) &&
                               String.eqb (u_fingerprint e) (u_fingerprint input))
                    (λ e, user_times (u_createdAt e) now input) (user_times now now input)
                    (supersede_users (u_workspaceId input) now (userEpochs s)) in
  Ok (e, writeLocalEpochStore (with_users us s)).

Definition team_times (created updated : string) (e : LocalTeamCryptoEpoch) : LocalTeamCryptoEpoch :=
  {| te_workspaceId := te_workspaceId e; te_teamId := te_teamId e; te_platformTeamId := te_platformTeamId e;
     te_platformEpochId := te_platformEpochId e; te_epoch := te_epoch e; te_schema := te_schema e;
     te_status := te_status e; te_keys := te_keys e; te_fingerprint := te_fingerprint e;
     te_previousEpochFingerprint := te_previousEpochFingerprint e; te_createdAt := created; te_updatedAt := updated |}.

Definition team_superseded (now : string) (e : LocalTeamCryptoEpoch) : LocalTeamCryptoEpoch :=
  {| te_workspaceId := te_workspaceId e; te_teamId := te_teamId e; te_platformTeamId := te_platformTeamId e;
     te_platformEpochId := te_platformEpochId e; te_epoch := te_epoch e; te_schema := te_schema e;
     te_status := superseded; te_keys := te_keys e; te_fingerprint := te_fingerprint e;
     te_previousEpochFingerprint := te_previousEpochFingerprint e; te_createdAt := te_createdAt e; te_updatedAt := now |}.

(** The entries an upsert of [input] supersedes; two missing platform ids are equal. *)
Definition team_replaced (input e : LocalTeamCryptoEpoch) : bool :=
  String.eqb (te_workspaceId e) (te_workspaceId input) &&
  (String.eqb (te_teamId e) (te_teamId input) || option_eqb (te_platformTeamId e) (te_platformTeamId input)) &&
  bool_decide (te_status e = active).

Definition upsertLocalTeamEpoch (input : LocalTeamCryptoEpoch) (now : string) (d : file)
    : result (LocalTeamCryptoEpoch * file) :=
  s ← readLocalEpochStore d;
  let '(e, ts) := upsert (λ e, String.eqb (te_workspaceId e) (te_workspaceId input) &&
                               String.eqb (te_fingerprint e) (te_fingerprint input))
                    (λ e, team_times (te_createdAt e) now input) (team_times now now input)
                    (map (λ e, if team_replaced input e then team_superseded now e else e) (teamEpochs s)) in
  Ok (e, writeLocalEpochStore (with_teams ts s)).

Definition enrollment_times (created updated : string) (e : LocalDeviceEnrollment) : LocalDeviceEnrollment :=
  {| en_workspaceId := en_workspaceId e; en_enrollmentId := en_enrollmentId e; en_userId := en_userId e;
     en_deviceId := en_deviceId e; en_deviceLabel := en_deviceLabel e; en_status := en_status e; en_keys := en_keys e;
     en_fingerprint := en_fingerprint e; en_nonce := en_nonce e; en_createdAt := created; en_updatedAt := updated |}.

(** [created]: the time of creation, where the input has one. *)
Definition upsertLocalDeviceEnrollment (input : LocalDeviceEnrollment) (created : option string) (now : string) (d : file)
    : result (LocalDeviceEnrollment * file) :=
  s ← readLocalEpochStore d;
  let '(e, es) := upsert (λ e, String.eqb (en_workspaceId e) (en_workspaceId input) &&
                               (String.eqb (en_fingerprint e) (en_fingerprint input) ||
                                (truthy_opt (en_enrollmentId input) && option_eqb (en_enrollmentId e) (en_enrollmentId input))))
                    (λ e, enrollment_times (coalesce created (en_createdAt e)) now input) (enrollment_times now now input)
                    (deviceEnrollments s) in
  Ok (e, writeLocalEpochStore (with_enrollments es s)).

Definition pin_times (created updated : string) (p : LocalPublicEpochPin) : LocalPublicEpochPin :=
  {| p_workspaceId := p_workspaceId p; p_subjectType := p_subjectType p; p_subjectId := p_subjectId p;
     p_platformEpochId := p_platformEpochId p; p_epoch := p_epoch p; p_schema := p_schema p;
     p_fingerprint := p_fingerprint p; p_encryptionPublicKeyJwk := p_encryptionPublicKeyJwk p;
     p_signingPublicKeyJwk := p_signingPublicKeyJwk p; p_previousEpochFingerprint := p_previousEpochFingerprint p;
     p_continuityPayload := p_continuityPayload p; p_continuitySignature := p_continuitySignature p;
     p_signedByEpochFingerprint := p_signedByEpochFingerprint p; p_createdAt := created; p_updatedAt := updated |}.

Definition upsertLocalPublicEpochPin (input : LocalPublicEpochPin) (now : string) (d : file)
    : result (LocalPublicEpochPin * file) :=
  s ← readLocalEpochStore d;
  let '(p, ps) := upsert (λ p, pin_of (p_workspaceId input) (p_subjectType input) (p_subjectId input) p &&
                               num_eq (p_epoch p) (p_epoch input))
                    (λ p, pin_times (p_createdAt p) now input) (pin_times now now input) (publicEpochPins s) in
  Ok (p, writeLocalEpochStore (with_pins ps s)).

(** ** New keys *)

Definition createLocalUserEpochKeyMaterial (encryption signing : KeyPair) (workspaceId : string) (userId : option string)
    (epoch : option spec_float) (previousEpochFingerprint : option string) (now : string)
    : EpochDescriptor * EpochKeyMaterial :=
  ({| d_schema := USER_EPOCH_SCHEMA; d_workspaceId := workspaceId; d_subjectType := "user";
      d_subjectId := coalesce userId "pending-platform-user"; d_epoch := coalesce epoch (num_of_Z 1);
      d_encryptionPublicKeyJwk := kp_public encryption; d_signingPublicKeyJwk := kp_public signing;
      d_previousEpochFingerprint := previousEpochFingerprint; d_createdAt := now |},
   {| encryptionPublicKeyJwk := kp_public encryption; encryptionPrivateKeyJwk := kp_private encryption;
      signingPublicKeyJwk := kp_public signing; signingPrivateKeyJwk := kp_private signing |}).

Definition createLocalTeamEpochKeyMaterial (encryption signing : KeyPair) (workspaceId teamId : string)
    (epoch : option spec_float) (previousEpochFingerprint : option string) (now : string)
    : EpochDescriptor * EpochKeyMaterial :=
  ({| d_schema := TEAM_EPOCH_SCHEMA; d_workspaceId := workspaceId; d_subjectType := "team";
      d_subjectId := teamId; d_epoch := coalesce epoch (num_of_Z 1);
      d_encryptionPublicKeyJwk := kp_public encryption; d_signingPublicKeyJwk := kp_public signing;
      d_previousEpochFingerprint := previousEpochFingerprint; d_createdAt := now |},
   {| encryptionPublicKeyJwk := kp_public encryption; encryptionPrivateKeyJwk := kp_private encryption;
      signingPublicKeyJwk := kp_public signing; signingPrivateKeyJwk := kp_private signing |}).

(** ** The first entry with the highest epoch *)

Section Newest.
Context {A : Type} (epoch : A → spec_float).
Implicit Types (x y : A) (l : list A).

Definition newer (best : option A) x : option A :=
  match best with Some y => if num_lt (epoch y) (epoch x) then Some x else Some y | None => Some x end.
Definition newest l : option A := fold_left newer l None.

Lemma newest_snoc l x : newest (l ++ [x]) = newer (newest l) x.
Proof. unfold newest. by rewrite fold_left_app. Qed.

(** [sort(...)[0]] *)
Lemma head_sort_by_epoch l : head (sort_by_epoch epoch l) = newest l.
Proof.
  unfold sort_by_epoch. induction l as [|x l IH] using rev_ind; [done|].
  rewrite fold_left_app, newest_snoc, <- IH. simpl.
  destruct (fold_left (λ s x, insert_by_epoch epoch x s) l []) as [|y s]; simpl; [done|]. by destruct (num_lt _ _).
Qed.

Lemma newest_None l : newest l = None → l = [].
Proof.
  destruct l as [|x l] using rev_ind; [done|]. rewrite newest_snoc. destruct (newest l); simpl; [|done].
  by destruct (num_lt _ _).
Qed.

Definition numbers l : Prop := ∀ x, x ∈ l → is_nan (epoch x) = false.

(** Where it is. *)
Definition first_highest l x : Prop := ∃ l1 l2, l = l1 ++ x :: l2 ∧
  (∀ y, y ∈ l1 → num_lt (epoch y) (epoch x) = true) ∧ (∀ y, y ∈ l2 → num_lt (epoch x) (epoch y) = false).

Lemma not_lt_trans x y z : is_nan (epoch x) = false → is_nan (epoch y) = false → is_nan (epoch z) = false →
  num_lt (epoch y) (epoch x) = false → num_lt (epoch y) (epoch z) = true → num_lt (epoch x) (epoch z) = true.
Proof.
  intros Hx Hy Hz Hxy Hyz. destruct (num_trichotomy (epoch x) (epoch y) Hx Hy) as [H|[H|H]]; [| |congruence].
  - by apply (num_lt_trans _ (epoch y)).
  - by destruct (num_lt_eq (epoch x) (epoch y) (epoch z) Hx Hy Hz H) as [-> _].
Qed.

Lemma newest_first_highest l x : numbers l → newest l = Some x → first_highest l x.
Proof.
  revert x. induction l as [|z l IH] using rev_ind; intros x Hn; [done|]. rewrite newest_snoc.
  assert (numbers l) as Hl by (intros y Hy; apply Hn; set_solver).
  assert (is_nan (epoch z) = false) as Hz by (apply Hn; set_solver).
  destruct (newest l) as [y|] eqn:E; simpl.
  - destruct (IH y Hl eq_refl) as (l1 & l2 & -> & H1 & H2).
    assert (is_nan (epoch y) = false) as Hy by (apply Hl; set_solver).
    destruct (num_lt (epoch y) (epoch z)) eqn:Eyz; intros [= <-].
    + exists (l1 ++ y :: l2), []. split; [done|]. split; [|intros w Hw; by apply elem_of_nil in Hw].
      intros w Hw. apply elem_of_app in Hw as [Hw|Hw]; [|apply elem_of_cons in Hw as [->|Hw]; [done|]].
      * apply (num_lt_trans _ (epoch y)); [apply Hl; set_solver|done|done|by apply H1|done].
      * apply (not_lt_trans w y z); [apply Hl; set_solver|done|done|by apply H2|done].
    + exists l1, (l2 ++ [z]). rewrite <- app_assoc. split; [done|]. split; [done|].
      intros w Hw. apply elem_of_app in Hw as [Hw|Hw]; [auto|]. apply list_elem_of_singleton in Hw as ->. done.
  - apply newest_None in E as ->. intros [= <-]. exists [], [].
    split; [done|]. split; intros w Hw; by apply elem_of_nil in Hw.
Qed.

Lemma first_highest_newest l x : numbers l → first_highest l x → newest l = Some x.
Proof.
  intros Hn (l1 & l2 & -> & H1 & H2). induction l2 as [|z l2 IH] using rev_ind.
  - rewrite newest_snoc. destruct (newest l1) as [y|] eqn:E; [|done]. simpl.
    assert (y ∈ l1) as Hy.
    { apply newest_first_highest in E as (a & b & -> & _); [set_solver|intros w Hw; apply Hn; set_solver]. }
    by rewrite (H1 y Hy).
  - rewrite app_comm_cons, app_assoc, newest_snoc, IH.
    + simpl. rewrite H2; [done|set_solver].
    + intros w Hw. apply Hn. set_solver.
    + intros w Hw. apply H2. set_solver.
Qed.
(** The newest entry is an entry, and none is newer. *)
Lemma newest_elem l x : numbers l → newest l = Some x → x ∈ l ∧ ∀ y, y ∈ l → num_lt (epoch x) (epoch y) = false.
Proof.
  intros Hn (l1 & l2 & -> & H1 & H2)%newest_first_highest; [|done]. split; [set_solver|].
  intros y Hy. apply elem_of_app in Hy as [Hy|Hy].
  - specialize (H1 y Hy). assert (is_nan (epoch y) = false) by (apply Hn; set_solver).
    assert (is_nan (epoch x) = false) by (apply Hn; set_solver). num_order. by eapply place_lt_irrefl, place_lt_trans.
  - apply elem_of_cons in Hy as [->|Hy]; [apply num_lt_irrefl|auto].
Qed.

(** An entry that replaces the one of its number, or is added for a number that has
    none, is the newest if none was newer than it. *)
Lemma newest_put l1 l2 y : numbers (l1 ++ y :: l2) → (∀ z, z ∈ l1 → num_lt (epoch z) (epoch y) = true) →
  (∀ z, z ∈ l2 → num_lt (epoch y) (epoch z) = false) → newest (l1 ++ y :: l2) = Some y.
Proof. intros Hn H1 H2. apply first_highest_newest; [done|]. by exists l1, l2. Qed.
End Newest.

(** ** Updating in place *)

Lemma update_first_Some {A} (p : A → bool) f l y l' : update_first p f l = Some (y, l') →
  ∃ l1 x l2, l = l1 ++ x :: l2 ∧ p x = true ∧ (∀ z, z ∈ l1 → p z = false) ∧ y = f x ∧ l' = l1 ++ f x :: l2.
Proof.
  revert l'. induction l as [|x l IH]; intros l'; simpl; [done|]. destruct (p x) eqn:Ex.
  - intros [= <- <-]. exists [], x, l. split_and!; try done. intros z Hz. by apply elem_of_nil in Hz.
  - destruct (update_first p f l) as [[y' l'']|] eqn:E; [|done]. intros [= <- <-].
    destruct (IH l'' eq_refl) as (l1 & x' & l2 & -> & Hp & Hn & -> & ->).
    exists (x :: l1), x', l2. split_and!; try done. intros z Hz. apply elem_of_cons in Hz as [->|Hz]; auto.
Qed.

Lemma update_first_None {A} (p : A → bool) f l : update_first p f l = None → ∀ z, z ∈ l → p z = false.
Proof.
  induction l as [|x l IH]; simpl; [set_solver|]. destruct (p x) eqn:Ex; [done|].
  destruct (update_first p f l) as [[]|]; [done|]. intros _ z Hz. apply elem_of_cons in Hz as [->|Hz]; auto.
Qed.

(** What an upsert leaves: the entry in the place of the first that satisfies [p], or at
    the end. *)
Lemma upsert_spec {A} (p : A → bool) f c l : let '(y, l') := upsert p f c l in
  (∃ l1 x l2, l = l1 ++ x :: l2 ∧ p x = true ∧ (∀ z, z ∈ l1 → p z = false) ∧ y = f x ∧ l' = l1 ++ y :: l2) ∨
  ((∀ z, z ∈ l → p z = false) ∧ y = c ∧ l' = l ++ [y]).
Proof.
  unfold upsert. destruct (update_first p f l) as [[y l']|] eqn:E.
  - left. apply update_first_Some in E as (l1 & x & l2 & ? & ? & ? & -> & ->). by exists l1, x, l2.
  - right. split; [|done]. by eapply update_first_None.
Qed.

(** The entries a filter keeps, after an upsert. *)
Lemma upsert_filter_out {A} (p q : A → bool) f c l : (∀ x, p x = true → q x = false) → (∀ x, q (f x) = false) →
  q c = false → List.filter q (upsert p f c l).2 = List.filter q l.
Proof.
  intros Hp Hf Hc. pose proof (upsert_spec p f c l) as H. destruct (upsert p f c l) as [y l'].
  destruct H as [(l1 & x & l2 & -> & Hx & _ & -> & ->)|(_ & -> & ->)]; cbn [snd]; rewrite !List.filter_app; simpl.
  - by rewrite Hf, (Hp x Hx).
  - by rewrite Hc, app_nil_r.
Qed.

(** ** The active epoch of a user *)

Lemma superseded_filter ws ws' now us : List.filter (active_in ws') (supersede_users ws now us) =
  if String.eqb ws ws' then [] else List.filter (active_in ws') us.
Proof.
  unfold supersede_users. induction us as [|e us IH]; simpl; [by case_match|].
  destruct (active_in ws e) eqn:E.
  - assert (active_in ws' (user_superseded now e) = false) as -> by (unfold active_in; simpl; by rewrite andb_false_r).
    rewrite IH. destruct (String.eqb_spec ws ws') as [->|Hne]; [done|].
    assert (active_in ws' e = false) as ->; [|done]. unfold active_in in *. split_bools.
    apply andb_false_iff. left. apply String.eqb_neq. apply String.eqb_eq in H. congruence.
  - rewrite IH. destruct (String.eqb_spec ws ws') as [->|Hne]; [by rewrite E|done].
Qed.

Lemma filter_none {A} (p : A → bool) l1 l2 : List.filter p (l1 ++ l2) = [] → List.filter p l1 = [] ∧ List.filter p l2 = [].
Proof. rewrite List.filter_app. apply app_eq_nil. Qed.

(** Storing an active epoch makes it the one active epoch of its workspace: it is the
    only entry of the workspace that is active, it is what a later reader of the active
    epoch gets, whatever the file held before, and the active epochs of every other
    workspace stay as they were. *)
Theorem upsert_user_active input now d e d' : u_status input = active →
  upsertLocalUserEpoch input now d = Ok (e, d') →
  (∃ s, readLocalEpochStore d' = Ok s ∧ activeUserEpochs (u_workspaceId input) s = [e]) ∧
  getActiveLocalUserEpoch (u_workspaceId input) d' = Ok (Some e) ∧
  u_fingerprint e = u_fingerprint input ∧ u_keys e = u_keys input ∧ u_epoch e = u_epoch input ∧
  ∀ ws, ws ≠ u_workspaceId input → getActiveLocalUserEpoch ws d' = getActiveLocalUserEpoch ws d.
Proof.
  intros Ha. unfold upsertLocalUserEpoch, getActiveLocalUserEpoch. destruct (readLocalEpochStore d) as [s|m]; [|done].
  cbn [mbind result_bind]. set (sup := supersede_users _ _ _).
  pose proof (upsert_spec (λ e, String.eqb (u_workspaceId e) (u_workspaceId input) && String.eqb (u_fingerprint e) (u_fingerprint input))
    (λ e, user_times (u_createdAt e) now input) (user_times now now input) sup) as Hs.
  pose proof (λ ws, upsert_filter_out (λ e, String.eqb (u_workspaceId e) (u_workspaceId input) && String.eqb (u_fingerprint e) (u_fingerprint input))
    (active_in ws) (λ e, user_times (u_createdAt e) now input) (user_times now now input) sup) as Ho.
  destruct (upsert _ _ _ sup) as [y us] eqn:E. intros [= <- <-]. rewrite read_write. cbn [mbind result_bind].
  unfold activeUserEpochs. cbn [userEpochs with_users].
  assert (∀ c u, active_in (u_workspaceId input) (user_times c u input) = true) as Hin.
  { intros. unfold active_in. simpl. by rewrite String.eqb_refl, Ha. }
  pose proof (superseded_filter (u_workspaceId input) (u_workspaceId input) now (userEpochs s)) as Hf.
  rewrite String.eqb_refl in Hf. fold sup in Hf.
  assert (List.filter (active_in (u_workspaceId input)) us = [y] ∧ ∃ c, y = user_times c now input) as [Hus [c ->]].
  { destruct Hs as [(l1 & x & l2 & El & _ & _ & -> & ->)|(_ & -> & ->)].
    - rewrite El in Hf. apply filter_none in Hf as [H1 H2]. rewrite List.filter_app, H1. simpl. rewrite Hin.
      simpl in H2. destruct (active_in _ x); [done|]. rewrite H2. eauto.
    - rewrite List.filter_app, Hf. simpl. rewrite Hin. eauto. }
  split; [eexists; split; [done|exact Hus]|]. rewrite Hus. split_and!; try done. intros ws Hws. cbn [mbind result_bind].
  pose proof (superseded_filter (u_workspaceId input) ws now (userEpochs s)) as Hw.
  rewrite (proj2 (String.eqb_neq _ _)) in Hw by congruence. rewrite <- Hw. fold sup. f_equal. f_equal. f_equal.
  change us with (user_times c now input, us).2. apply Ho; unfold active_in; simpl.
  - intros x [Hx%String.eqb_eq _]%andb_true_iff. apply andb_false_iff. left. apply String.eqb_neq. congruence.
  - intros _. apply andb_false_iff. left. apply String.eqb_neq. congruence.
  - apply andb_false_iff. left. apply String.eqb_neq. congruence.
Qed.
