(* ===== verification/EpochPins.v ===== *)
(** * Pinned public epochs (packages/daemon/src/security/epoch-public-pins.ts)

    The public epochs of other users and teams come from the platform, which is not
    trusted: the first one seen is pinned, and a later one is accepted only if the
    pinned one signed the transition to it.  [pin_history] follows a subject through
    any sequence of calls. *)

From S2P Require Import Prelude JsString JsMap Json JsonText JsonStringify JsNumber CanonicalJson Noise EpochProtocol EpochStore.
From stdpp Require Import prelude strings list relations.
From Stdlib Require Import ZArith Lia Floats.SpecFloat.

Record PublicEpochForPinning := {
  e_platformEpochId : string; e_workspaceId : string; e_subjectType : string; e_subjectId : string;
  e_epoch : spec_float; e_schema : string; e_fingerprint : string; e_encryptionPublicKeyJwk : json;
  e_signingPublicKeyJwk : json; e_previousEpochFingerprint : option string; e_continuityPayload : option json;
  e_continuitySignature : option string; e_signedByEpochFingerprint : option string
}.

Definition publicEpochDescriptor (e : PublicEpochForPinning) : EpochDescriptor :=
  {| d_schema := e_schema e; d_workspaceId := e_workspaceId e; d_subjectType := e_subjectType e;
     d_subjectId := e_subjectId e; d_epoch := e_epoch e; d_encryptionPublicKeyJwk := e_encryptionPublicKeyJwk e;
     d_signingPublicKeyJwk := e_signingPublicKeyJwk e; d_previousEpochFingerprint := e_previousEpochFingerprint e;
     d_createdAt := "pinning-fingerprint-input" |}.

(** A number in a message. *)
Definition show_num (x : spec_float) : string := String.string_of_list_ascii (number_chars x).

(** ** Reading the payload of a transition *)

Definition stringField (f : record) (name : string) : result string :=
  match as_string (field f name) with
  | Some s => if nonblank s then Ok s else Throw ("Epoch continuity payload missing " +:+ name +:+ ".")
  | None => Throw ("Epoch continuity payload missing " +:+ name +:+ ".")
  end.

Definition numberField (f : record) (name : string) : result spec_float :=
  match field f name with
  | Some (JNum x) => Ok x
  | _ => Throw ("Epoch continuity payload missing numeric " +:+ name +:+ ".")
  end.

Definition subjectTypeField (f : record) (name : string) : result string :=
  s ← stringField f name;
  if String.eqb s "user" || String.eqb s "team" then Ok s
  else Throw ("Epoch continuity payload has unsupported " +:+ name +:+ ".").

Definition REASONS : list string :=
  ["initial"; "device_enrolled"; "device_revoked"; "member_added"; "member_revoked"; "manual_rotation"; "recovery"].

Definition reasonField (f : record) (name : string) : result string :=
  s ← stringField f name;
  if bool_decide (s ∈ REASONS) then Ok s else Throw ("Epoch continuity payload has unsupported " +:+ name +:+ ".").

(** epochTransitionPayload of this file. *)
Definition readTransitionPayload (v : json) : result EpochTransitionPayload :=
  f ← or_throw (as_record v) "Epoch continuity payload must be an object.";
  workspaceId ← stringField f "workspaceId";
  subjectType ← subjectTypeField f "subjectType";
  subjectId ← stringField f "subjectId";
  fromEpoch ← numberField f "fromEpoch";
  fromEpochFingerprint ← stringField f "fromEpochFingerprint";
  toEpoch ← numberField f "toEpoch";
  toEpochFingerprint ← stringField f "toEpochFingerprint";
  reason ← reasonField f "reason";
  createdAt ← stringField f "createdAt";
  Ok {| t_schema := "viewport.epoch_transition/v1"; t_workspaceId := workspaceId; t_subjectType := subjectType;
        t_subjectId := subjectId; t_fromEpoch := fromEpoch; t_fromEpochFingerprint := fromEpochFingerprint;
        t_toEpoch := toEpoch; t_toEpochFingerprint := toEpochFingerprint; t_reason := reason; t_createdAt := createdAt |}.

(** A JSON value in a condition. *)
Definition truthy_json (v : option json) : bool :=
  match v with
  | None | Some JNull | Some (JBool false) | Some (JNum (S754_zero _)) | Some (JNum S754_nan) => false
  | Some (JStr s) => truthy_str s
  | _ => true
  end.

Section Pins.
Context `{Crypto} `{EpochKeys}.

Definition assertSignedContinuity (previous : LocalPublicEpochPin) (next : PublicEpochForPinning) : result () :=
  let name := "Fetched " +:+ e_subjectType next +:+ " epoch " +:+ show_num (e_epoch next) in
  _ ← require (option_eqb (e_previousEpochFingerprint next) (Some (p_fingerprint previous)))
        (name +:+ " does not continue from pinned epoch " +:+ show_num (p_epoch previous) +:+ ".");
  match e_continuityPayload next, e_continuitySignature next with
  | Some payload, Some signature =>
      _ ← require (truthy_json (Some payload) && truthy_str signature) (name +:+ " is missing signed continuity.");
      p ← readTransitionPayload payload;
      ok ← verifyEpochTransition
             {| s_payload := p; s_signature := signature;
                s_signedByEpochFingerprint :=
                  coalesce (e_signedByEpochFingerprint next) (coalesce (e_previousEpochFingerprint next) "") |}
             (p_signingPublicKeyJwk previous) (p_fingerprint previous) (e_fingerprint next);
      require ok (name +:+ " continuity signature is invalid.")
  | _, _ => Throw (name +:+ " is missing signed continuity.")
  end.

Definition pin_input (e : PublicEpochForPinning) : LocalPublicEpochPin :=
  {| p_workspaceId := e_workspaceId e; p_subjectType := e_subjectType e; p_subjectId := e_subjectId e;
     p_platformEpochId := e_platformEpochId e; p_epoch := e_epoch e; p_schema := e_schema e;
     p_fingerprint := e_fingerprint e; p_encryptionPublicKeyJwk := e_encryptionPublicKeyJwk e;
     p_signingPublicKeyJwk := e_signingPublicKeyJwk e; p_previousEpochFingerprint := e_previousEpochFingerprint e;
     p_continuityPayload := e_continuityPayload e; p_continuitySignature := e_continuitySignature e;
     p_signedByEpochFingerprint := e_signedByEpochFingerprint e; p_createdAt := ""; p_updatedAt := "" |}.

(** The checks against what is pinned in the file. *)
Definition checkPublicEpoch (e : PublicEpochForPinning) (d : file) : result () :=
  _ ← require (String.eqb (epochFingerprint (publicEpochDescriptor e)) (e_fingerprint e))
        ("Fetched " +:+ e_subjectType e +:+ " epoch fingerprint mismatch for " +:+ e_subjectId e +:+ ".");
  previous ← getLocalPublicEpochPin (e_workspaceId e) (e_subjectType e) (e_subjectId e) d;
  match previous with
  | None => Ok ()
  | Some previous =>
      _ ← require (negb (num_lt (e_epoch e) (p_epoch previous)))
            ("Fetched " +:+ e_subjectType e +:+ " epoch rollback for " +:+ e_subjectId e +:+ ": " +:+
             show_num (e_epoch e) +:+ " < " +:+ show_num (p_epoch previous) +:+ ".");
      _ ← require (negb (num_eq (e_epoch e) (p_epoch previous) && negb (String.eqb (e_fingerprint e) (p_fingerprint previous))))
            ("Fetched " +:+ e_subjectType e +:+ " epoch replacement for " +:+ e_subjectId e +:+ " requires signed continuity.");
      if num_lt (p_epoch previous) (e_epoch e) then assertSignedContinuity previous e else Ok ()
  end.

Definition validateAndPinPublicEpoch (e : PublicEpochForPinning) (now : string) (d : file)
    : result (LocalPublicEpochPin * file) :=
  _ ← checkPublicEpoch e d;
  upsertLocalPublicEpochPin (pin_input e) now d.

(** The file after a sequence of calls; one that throws has not written. *)
Definition pin_call (d : file) (call : PublicEpochForPinning * string) : file :=
  match validateAndPinPublicEpoch call.1 call.2 d with Ok (_, d') => d' | Throw _ => d end.
Definition pin_calls (calls : list (PublicEpochForPinning * string)) (d : file) : file := fold_left pin_call calls d.

(** ** A subject over time *)

(** The transition to [q] was signed by the key of [p], and names both. *)
Definition endorsed (p q : LocalPublicEpochPin) : Prop :=
  p_previousEpochFingerprint q = Some (p_fingerprint p) ∧
  ∃ v t signature, p_continuityPayload q = Some v ∧ readTransitionPayload v = Ok t ∧
    p_continuitySignature q = Some signature ∧
    t_fromEpochFingerprint t = p_fingerprint p ∧ t_toEpochFingerprint t = p_fingerprint q ∧
    ed_verify (p_signingPublicKeyJwk p) (canonicalJson (transition_json t)) (fromBase64Url signature) = Some true.

(** The fingerprint of a pin is that of its own keys, subject and epoch. *)
Definition pin_descriptor (p : LocalPublicEpochPin) : EpochDescriptor :=
  {| d_schema := p_schema p; d_workspaceId := p_workspaceId p; d_subjectType := p_subjectType p;
     d_subjectId := p_subjectId p; d_epoch := p_epoch p; d_encryptionPublicKeyJwk := p_encryptionPublicKeyJwk p;
     d_signingPublicKeyJwk := p_signingPublicKeyJwk p; d_previousEpochFingerprint := p_previousEpochFingerprint p;
     d_createdAt := "pinning-fingerprint-input" |}.
Definition fingerprinted (p : LocalPublicEpochPin) : Prop := p_fingerprint p = epochFingerprint (pin_descriptor p).

(** The step from one newest pin to the next. *)
Definition succeeds (p q : LocalPublicEpochPin) : Prop :=
  fingerprinted q ∧
  (num_eq (p_epoch q) (p_epoch p) = true ∧ p_fingerprint q = p_fingerprint p ∨
   num_lt (p_epoch p) (p_epoch q) = true ∧ endorsed p q).

Definition pin_numbers (d : file) : Prop :=
  ∃ s, readLocalEpochStore d = Ok s ∧ numbers p_epoch (publicEpochPins s).
Definition call_number (call : PublicEpochForPinning * string) : Prop := is_nan (e_epoch call.1) = false.

Lemma require_Ok b m u : require b m = Ok u → b = true.
Proof. by destruct b. Qed.

Lemma verify_endorsed signed key from to :
  verifyEpochTransition signed key from to = Ok true →
  t_fromEpochFingerprint (s_payload signed) = from ∧ t_toEpochFingerprint (s_payload signed) = to ∧
  ed_verify key (canonicalJson (transition_json (s_payload signed))) (fromBase64Url (s_signature signed)) = Some true.
Proof.
  unfold verifyEpochTransition. destruct (String.eqb_spec (s_signedByEpochFingerprint signed) from); [|done].
  destruct (String.eqb_spec (t_fromEpochFingerprint (s_payload signed)) from); [|done].
  destruct (String.eqb_spec (t_toEpochFingerprint (s_payload signed)) to); [|done]. simpl.
  destruct (ed_verify _ _ _); simpl; [|done]. intros [= ->]. done.
Qed.

Lemma continuity_endorsed p e c : assertSignedContinuity p e = Ok c → ∀ created updated,
  endorsed p (pin_times created updated (pin_input e)).
Proof.
  unfold assertSignedContinuity. intros Ha created updated.
  destruct (require (option_eqb _ _) _) eqn:E1; [|done]. apply require_Ok, bool_decide_eq_true in E1. cbn [mbind result_bind] in Ha.
  destruct (e_continuityPayload e) as [v|] eqn:Ev; [|done]. destruct (e_continuitySignature e) as [sig|] eqn:Es; [|done].
  destruct (require (truthy_json _ && _) _); [|done]. cbn [mbind result_bind] in Ha.
  destruct (readTransitionPayload v) as [t|] eqn:Et; [|done]. cbn [mbind result_bind] in Ha.
  destruct (verifyEpochTransition _ _ _ _) as [ok|] eqn:Eo; [|done]. cbn [mbind result_bind] in Ha.
  apply require_Ok in Ha as ->. apply verify_endorsed in Eo as (H1 & H2 & H3). simpl in *.
  split; [done|]. by exists v, t, sig.
Qed.

(** What the checks establish of the newest pin. *)
Lemma check_succeeds e d c p : is_nan (e_epoch e) = false → is_nan (p_epoch p) = false →
  checkPublicEpoch e d = Ok c →
  getLocalPublicEpochPin (e_workspaceId e) (e_subjectType e) (e_subjectId e) d = Ok (Some p) →
  ∀ created updated, succeeds p (pin_times created updated (pin_input e)).
Proof.
  intros Ne Np. unfold checkPublicEpoch. intros Hc Hp created updated.
  destruct (require _ _) eqn:E0; [|done]. apply require_Ok, String.eqb_eq in E0. cbn [mbind result_bind] in Hc. rewrite Hp in Hc. cbn [mbind result_bind] in Hc.
  destruct (require (negb (num_lt _ _)) _) eqn:E1; [|done]. apply require_Ok, negb_true_iff in E1.
  cbn [mbind result_bind] in Hc. destruct (require _ _) eqn:E2; [|done]. apply require_Ok in E2. cbn [mbind result_bind] in Hc.
  split; [by symmetry|]. simpl p_epoch. simpl p_fingerprint. destruct (num_lt (p_epoch p) (e_epoch e)) eqn:E3.
  - right. split; [done|]. by eapply continuity_endorsed.
  - left. assert (num_eq (e_epoch e) (p_epoch p) = true) as E4.
    { destruct (num_trichotomy (e_epoch e) (p_epoch p) Ne Np) as [H1|[H1|H1]]; congruence. }
    split; [done|]. rewrite E4 in E2. simpl in E2. rewrite negb_involutive in E2. by apply String.eqb_eq.
Qed.

Section Subject.
Variables (workspaceId subjectType subjectId : string).
Notation mine := (pin_of workspaceId subjectType subjectId).

Lemma pin_of_other e p : pin_of (e_workspaceId e) (e_subjectType e) (e_subjectId e) p = true →
  mine (pin_times "" "" (pin_input e)) = false → mine p = false.
Proof.
  unfold pin_of. simpl. intros [[->%String.eqb_eq ->%String.eqb_eq]%andb_true_iff ->%String.eqb_eq]%andb_true_iff. done.
Qed.

(** The pins of the subject in a file. *)
Definition subject_pins (d : file) : list LocalPublicEpochPin :=
  match readLocalEpochStore d with Ok s => List.filter mine (publicEpochPins s) | Throw _ => [] end.

Lemma newest_pin d : (∃ s, readLocalEpochStore d = Ok s) →
  getLocalPublicEpochPin workspaceId subjectType subjectId d = Ok (newest p_epoch (subject_pins d)).
Proof. intros [s Hs]. unfold getLocalPublicEpochPin, subject_pins. rewrite Hs. simpl. by rewrite head_sort_by_epoch. Qed.

Lemma filter_numbers s : numbers p_epoch (publicEpochPins s) → numbers p_epoch (List.filter mine (publicEpochPins s)).
Proof. intros Hn p Hp. apply list_elem_of_In, filter_In in Hp as [Hp _]. by apply Hn, list_elem_of_In. Qed.

(** The subject's own pin is stored as its newest. *)
Lemma put_newest e now s p : numbers p_epoch (publicEpochPins s) → is_nan (e_epoch e) = false →
  mine (pin_input e) = true → newest p_epoch (List.filter mine (publicEpochPins s)) = Some p →
  num_lt (e_epoch e) (p_epoch p) = false →
  let '(y, ps) := upsert (λ p, mine p && num_eq (p_epoch p) (e_epoch e)) (λ p, pin_times (p_createdAt p) now (pin_input e))
                    (pin_times now now (pin_input e)) (publicEpochPins s) in
  newest p_epoch (List.filter mine ps) = Some y.
Proof.
  intros Hn He Hmine Hp Hep.
  destruct (newest_elem p_epoch _ p (filter_numbers s Hn) Hp) as [Hpin Hmax].
  assert (∀ z, z ∈ publicEpochPins s → mine z = true → is_nan (p_epoch z) = false ∧ num_lt (p_epoch p) (p_epoch z) = false) as Hz.
  { intros z Hz Hm. split; [by apply Hn|]. by apply Hmax, list_elem_of_In, filter_In; rewrite <- list_elem_of_In. }
  assert (is_nan (p_epoch p) = false) as Np by by apply (filter_numbers s Hn).
  match goal with |- let '(_, _) := upsert ?q ?f ?c ?l in _ => pose proof (upsert_spec q f c l) as Hs; destruct (upsert q f c l) as [y ps] end.
  assert (mine y = true ∧ p_epoch y = e_epoch e) as [Hy Ey].
  { destruct Hs as [(l1 & x & l2 & _ & _ & _ & -> & _)|(_ & -> & _)]; split; try done; apply Hmine. }
  destruct Hs as [(l1 & x & l2 & El & Hx & Hl1 & _ & ->)|(Hno & _ & ->)]; rewrite List.filter_app; simpl; rewrite Hy.
  - rewrite El in Hz. apply newest_put.
    + intros z Hz'. apply elem_of_app in Hz' as [Hz'|Hz']; [|apply elem_of_cons in Hz' as [->|Hz']; [by rewrite Ey|]];
        apply list_elem_of_In, filter_In in Hz' as [Hz' Hm]; apply list_elem_of_In in Hz'; apply Hz; set_solver.
    + intros z Hz'. apply list_elem_of_In, filter_In in Hz' as [Hz' Hm]. apply list_elem_of_In in Hz'. rewrite Ey.
      destruct (Hz z ltac:(set_solver) Hm) as [Nz Lz]. apply (num_below (p_epoch p)); try done.
      specialize (Hl1 z Hz'). rewrite Hm in Hl1. done.
    + intros z Hz'. apply list_elem_of_In, filter_In in Hz' as [Hz' Hm]. apply list_elem_of_In in Hz'. rewrite Ey.
      destruct (Hz z ltac:(set_solver) Hm) as [Nz Lz]. by apply (num_above (p_epoch p)).
  - apply newest_put; [| |intros z Hz'; by apply elem_of_nil in Hz'].
    + intros z Hz'. apply elem_of_app in Hz' as [Hz'|Hz']; [|apply list_elem_of_singleton in Hz' as ->; by rewrite Ey].
      apply list_elem_of_In, filter_In in Hz' as [Hz' Hm]. apply list_elem_of_In in Hz'. by apply Hz.
    + intros z Hz'. apply list_elem_of_In, filter_In in Hz' as [Hz' Hm]. apply list_elem_of_In in Hz'. rewrite Ey.
      destruct (Hz z Hz' Hm) as [Nz Lz]. apply (num_below (p_epoch p)); try done.
      specialize (Hno z Hz'). rewrite Hm in Hno. done.
Qed.

Lemma put_numbers e now s : numbers p_epoch (publicEpochPins s) → is_nan (e_epoch e) = false →
  ∀ q, numbers p_epoch (upsert q (λ p, pin_times (p_createdAt p) now (pin_input e))
                    (pin_times now now (pin_input e)) (publicEpochPins s)).2.
Proof.
  intros Hn He q. match goal with |- numbers _ (upsert ?q ?f ?c ?l).2 => pose proof (upsert_spec q f c l) as Hs; destruct (upsert q f c l) as [y ps] end.
  intros z Hz. simpl in Hz. destruct Hs as [(l1 & x & l2 & El & _ & _ & -> & ->)|(_ & -> & ->)].
  - rewrite El in Hn. apply elem_of_app in Hz as [Hz|Hz]; [apply Hn; set_solver|].
    apply elem_of_cons in Hz as [->|Hz]; [done|apply Hn; set_solver].
  - apply elem_of_app in Hz as [Hz|Hz]; [by apply Hn|]. by apply list_elem_of_singleton in Hz as ->.
Qed.

(** One call keeps the newest pin of a subject or moves it to a successor. *)
Lemma pin_step call d p : pin_numbers d → call_number call →
  getLocalPublicEpochPin workspaceId subjectType subjectId d = Ok (Some p) →
  pin_numbers (pin_call d call) ∧ ∃ q,
    getLocalPublicEpochPin workspaceId subjectType subjectId (pin_call d call) = Ok (Some q) ∧ (q = p ∨ succeeds p q).
Proof.
  intros Hd Hc Hp. unfold pin_call. destruct (validateAndPinPublicEpoch call.1 call.2 d) as [[y d']|] eqn:E; [|eauto].
  destruct call as [e now]. cbn [fst snd] in *. unfold validateAndPinPublicEpoch in E.
  destruct (checkPublicEpoch e d) as [u|] eqn:Ec; [|done]. cbn [mbind result_bind] in E.
  unfold upsertLocalPublicEpochPin in E. destruct Hd as (s & Hs & Hn). rewrite Hs in E. cbn [mbind result_bind] in E.
  pose proof (put_numbers e now s Hn Hc) as Hn'. rewrite newest_pin in Hp by eauto. injection Hp as Hp.
  unfold subject_pins in Hp. rewrite Hs in Hp.
  destruct (mine (pin_input e)) eqn:Em.
  - assert (e_workspaceId e = workspaceId ∧ e_subjectType e = subjectType ∧ e_subjectId e = subjectId) as (Ew & Et & Ei).
    { unfold pin_of in Em. simpl in Em. split_bools. by rewrite !String.eqb_eq in *. }
    assert (is_nan (p_epoch p) = false) as Np.
    { apply newest_elem in Hp as [Hp _]; [|by apply filter_numbers]. by apply (filter_numbers s Hn). }
    pose proof (check_succeeds e d u p Hc Np Ec) as Hsucc. rewrite Ew, Et, Ei, newest_pin in Hsucc by eauto.
    unfold subject_pins in Hsucc. rewrite Hs, Hp in Hsucc. specialize (Hsucc eq_refl).
    pose proof (put_newest e now s p Hn Hc Em Hp) as Hput. cbn in E, Hput, Hn'. rewrite Ew, Et, Ei in E.
    specialize (Hn' (λ p, mine p && num_eq (p_epoch p) (e_epoch e))).
    match type of E with context [upsert ?q ?f ?c ?l] => pose proof (upsert_spec q f c l) as Hspec; destruct (upsert q f c l) as [y' ps] end.
    injection E as -> <-. split; [exists (with_pins ps s); rewrite read_write; split; [done|exact Hn']|].
    exists y. rewrite newest_pin by (rewrite read_write; eauto). unfold subject_pins. rewrite read_write.
    assert (∃ c u, y = pin_times c u (pin_input e)) as (c & up & Ey).
    { destruct Hspec as [(? & x & ? & _ & _ & _ & -> & _)|(_ & -> & _)]; eauto. }
    split; [f_equal; simpl; apply Hput|right; rewrite Ey; apply Hsucc].
    destruct (Hsucc "" "") as [_ [[Heq _]|[Hlt _]]]; simpl in *; num_order; rewrite ?Heq in *; first [by eapply place_lt_irrefl | by eapply place_lt_irrefl, place_lt_trans].
  - cbn in E. specialize (Hn' (λ p, pin_of (e_workspaceId e) (e_subjectType e) (e_subjectId e) p && num_eq (p_epoch p) (e_epoch e))).
    match type of E with context [upsert ?q ?f ?c ?l] => pose proof (upsert_filter_out q mine f c l) as Ho; destruct (upsert q f c l) as [y' ps] end.
    injection E as -> <-. split; [exists (with_pins ps s); rewrite read_write; split; [done|exact Hn']|].
    exists p. split; [|by left]. rewrite newest_pin by (rewrite read_write; eauto). unfold subject_pins. rewrite read_write.
    simpl in *. rewrite Ho; [by rewrite Hp| |done..].
    intros x [Hx _]%andb_true_iff. by eapply pin_of_other.
Qed.

(** C35: A pinned key is only ever replaced by a key it vouched for.  Once an epoch of a
    subject is pinned, then after any calls one after the other, for this subject and for
    others, accepted or refused, the newest pin of the subject is reached from it by steps
    each of which keeps the epoch and its fingerprint, or goes to a higher epoch by a
    transition signed with the key of the pin before, naming the fingerprints of both; and
    the fingerprint of each pin reached is the one computed of its own keys.  So it never
    goes back, and the platform alone cannot change the key of an epoch, short of another
    key with the same fingerprint.  (Of calls that overlap nothing is claimed.) *)
Theorem pin_history calls d p : pin_numbers d → Forall call_number calls →
  getLocalPublicEpochPin workspaceId subjectType subjectId d = Ok (Some p) →
  ∃ q, getLocalPublicEpochPin workspaceId subjectType subjectId (pin_calls calls d) = Ok (Some q) ∧ rtc succeeds p q.
Proof.
  intros Hd Hc. revert d p Hd. induction Hc as [|call calls Hcall _ IH]; intros d p Hd Hp; [by exists p|].
  destruct (pin_step call d p Hd Hcall Hp) as (Hd' & q & Hq & Hpq). cbn [pin_calls fold_left].
  destruct (IH _ q Hd' Hq) as (r & Hr & Hqr). exists r. split; [done|].
  destruct Hpq as [->|Hpq]; [done|]. by eapply rtc_l.
Qed.
End Subject.
End Pins.
