(* ===== verification/EpochClient.v ===== *)
(** * Calls of the platform by the epoch operations (the helpers that
    packages/daemon/src/security/epoch-sync.ts, epoch-enrollment.ts and
    team-epoch-grants.ts share)

    An operation is a computation over a [World]: the file of epochs, the platform, and
    how many keys, random values and times have been drawn.  It may throw; what it has
    written and sent before that stays.  The platform is a function of the request and of
    a state of its own.  Nothing else writes the file while an operation runs. *)

From S2P Require Import Prelude JsString JsMap Json JsonText JsonStringify JsNumber CanonicalJson Noise EpochProtocol EpochStore Routing.
From stdpp Require Import prelude strings list pretty.
From Stdlib Require Import ZArith Lia Ascii Floats.SpecFloat.

Record HttpRequest := { q_method : string; q_url : string; q_credential : option string; q_body : option json }.
(** [None]: the body is not JSON. *)
Record HttpResponse := { r_ok : bool; r_status : string; r_body : option json }.

Record CryptoEpochSyncTarget := { workspaceId : string; serverUrl : string; credential : string }.

(** ** Texts *)

Fixpoint strip_slashes (l : list ascii) : list ascii :=
  match l with [] => [] | a :: l' => if is_char "/" a then strip_slashes l' else l end.
(** [url.replace(/\/+$/, '')] *)
Definition without_final_slashes (url : string) : string :=
  String.string_of_list_ascii (rev (strip_slashes (rev (chars url)))).

Definition runtimeBaseUrl (t : CryptoEpochSyncTarget) : string :=
  without_final_slashes (serverUrl t) +:+ "/api/runtime/workspaces/" +:+ encodeURIComponent (workspaceId t).

(** [String(v)] *)
Fixpoint js_String (v : json) : string :=
  match v with
  | JNull => "null"
  | JBool b => if b then "true" else "false"
  | JNum (S754_infinity s) => if s then "-Infinity" else "Infinity"
  | JNum S754_nan => "NaN"
  | JNum x => String.string_of_list_ascii (number_chars x)
  | JStr s => s
  | JArr l => JsString.join "," (map (λ item, match item with JNull => "" | _ => js_String item end) l)
  | JObj _ => "[object Object]"
  end.

(** The message of a refusal: the one in the body, or the status. *)
Definition response_message (prefix : string) (r : HttpResponse) : string :=
  prefix +:+ match r_body r with
             | Some (JObj f) => match field f "message" with Some m => js_String m | None => r_status r end
             | _ => r_status r
             end.

(** ** Reading the fields of an answer *)

(** The messages of the three files. *)
Record Messages := {
  msg_object : string → string;                    (* the expected object, by its label *)
  msg_field : string → string;                     (* a missing text, number or text *)
  msg_nested : string → string;                    (* a missing object *)
  msg_number : string → string;                    (* a missing number *)
  msg_array : string → string                      (* a missing array *)
}.

Section Fields.
Variable m : Messages.
Definition read_record (v : json) (label : string) : result record := or_throw (as_record v) (msg_object m label).
Definition read_object (v : json) (name : string) : result record :=
  data ← read_record v "response";
  or_throw (child ← field data name; as_record child) (msg_nested m name).
Definition read_array (v : json) (name : string) : result (list json) :=
  data ← read_record v "response";
  match field data name with Some (JArr l) => Ok l | _ => Throw (msg_array m name) end.
Definition read_string (f : record) (name : string) : result string :=
  match as_string (field f name) with
  | Some s => if nonblank s then Ok s else Throw (msg_field m name)
  | None => Throw (msg_field m name)
  end.
Definition read_number (f : record) (name : string) : result spec_float :=
  match field f name with Some (JNum x) => Ok x | _ => Throw (msg_number m name) end.
(** A number or a text, as a text. *)
Definition read_id (f : record) (name : string) : result string :=
  match field f name with
  | Some (JNum x) => Ok (js_String (JNum x))
  | Some (JStr s) => Ok s
  | _ => Throw (msg_field m name)
  end.
End Fields.

(** ** Computations *)

Section Client.
Context {Srv : Type}.

Record World := { disk : file; server : Srv; drawn : nat }.

Definition M (A : Type) : Type := World → result A * World.
#[export] Instance M_ret : MRet M := λ A a w, (Ok a, w).
#[export] Instance M_bind : MBind M := λ A B f x w,
  match x w with (Ok a, w') => f a w' | (Throw e, w') => (Throw e, w') end.

Definition lift {A} (r : result A) : M A := λ w, (r, w).
Definition throw {A} (message : string) : M A := lift (Throw message).
(** A read of the file. *)
Definition reads {A} (f : file → result A) : M A := λ w, (f (disk w), w).
(** A read of the file and a write. *)
Definition writes {A} (f : file → result (A * file)) : M A := λ w,
  match f (disk w) with
  | Ok (a, d) => (Ok a, {| disk := d; server := server w; drawn := drawn w |})
  | Throw e => (Throw e, w)
  end.
(** The next of a sequence of drawn values. *)
Definition draw {A} (source : nat → A) : M A := λ w,
  (Ok (source (drawn w)), {| disk := disk w; server := server w; drawn := S (drawn w) |}).

(** What the environment draws, and the platform; [None] is a request that fails. *)
Record Env := {
  x_key : nat → KeyPair; ed_key : nat → KeyPair; random_text : nat → string; clock : nat → string;
  serve : HttpRequest → Srv → option HttpResponse * Srv
}.
Variable env : Env.

Definition fetchImpl (q : HttpRequest) : M HttpResponse := λ w,
  match serve env q (server w) with
  | (Some r, s) => (Ok r, {| disk := disk w; server := s; drawn := drawn w |})
  | (None, s) => (Throw "fetch failed", {| disk := disk w; server := s; drawn := drawn w |})
  end.

(** The body of an answer, [null] where it is not JSON. *)
Definition answered (prefix : string) (r : HttpResponse) : M json :=
  if r_ok r then mret (default JNull (r_body r)) else throw (response_message prefix r).

Definition postJson (prefix url : string) (body : record) : M json :=
  r ← fetchImpl {| q_method := "POST"; q_url := url; q_credential := None; q_body := Some (JObj body) |};
  answered prefix r.
Definition getJson (prefix url cred : string) : M json :=
  r ← fetchImpl {| q_method := "GET"; q_url := url; q_credential := Some cred; q_body := None |};
  answered prefix r.

(** [items.map(f)] where [f] may throw. *)
Fixpoint map_results {A B} (f : A → result B) (l : list A) : result (list B) :=
  match l with [] => Ok [] | a :: l => b ← f a; bs ← map_results f l; Ok (b :: bs) end.
End Client.
Arguments World : clear implicits.
Arguments M : clear implicits.
Arguments Env : clear implicits.

Section FieldLemmas.
Variable m : Messages.

(** A field that is there is read. *)
Lemma read_string_ok f name s : field f name = Some (JStr s) → nonblank s = true → read_string m f name = Ok s.
Proof. intros Hf Hs. unfold read_string. rewrite Hf. simpl. by rewrite Hs. Qed.
Lemma read_number_ok f name x : field f name = Some (JNum x) → read_number m f name = Ok x.
Proof. intros Hf. unfold read_number. by rewrite Hf. Qed.
Lemma read_object_ok f name g : field f name = Some (JObj g) → read_object m (JObj f) name = Ok g.
Proof. intros Hf. unfold read_object. simpl. by rewrite Hf. Qed.
End FieldLemmas.

(** ** Texts that are not blank *)

(** Stripping white space keeps a character that no white space contains. *)
Section Strip.
Variables (p1 : ascii → bool) (p2 : ascii → ascii → bool) (p3 : ascii → ascii → ascii → bool) (c : ascii).
Hypothesis H1 : p1 c = false.
Hypothesis H2 : ∀ a, p2 a c = false ∧ p2 c a = false.
Hypothesis H3 : ∀ a b, p3 c a b = false ∧ p3 a c b = false ∧ p3 a b c = false.

Lemma strip_keeps n s : (String.length s <= n)%nat → has_char c s = true → has_char c (strip p1 p2 p3 s) = true.
Proof.
  revert s. induction n as [|n IH]; intros [|a s] Hn Hc; simpl in Hn; [done|lia|done|].
  rewrite has_char_cons in Hc. cbn [strip]. destruct (p1 a) eqn:E1.
  { destruct (Ascii.eqb_spec c a) as [->|]; [congruence|]. apply IH; [lia|done]. }
  destruct s as [|b s]; [by rewrite has_char_cons|]. rewrite has_char_cons in Hc. simpl in Hn. destruct (p2 a b) eqn:E2.
  { destruct (Ascii.eqb_spec c a) as [->|]; [by rewrite (proj2 (H2 b)) in E2|].
    destruct (Ascii.eqb_spec c b) as [->|]; [by rewrite (proj1 (H2 a)) in E2|]. apply IH; [lia|done]. }
  destruct s as [|d s]; [by rewrite !has_char_cons|]. rewrite has_char_cons in Hc. simpl in Hn. destruct (p3 a b d) eqn:E3.
  { destruct (H3 b d) as (A & _ & _), (H3 a d) as (_ & B & _), (H3 a b) as (_ & _ & C).
    destruct (Ascii.eqb_spec c a) as [->|]; [congruence|]. destruct (Ascii.eqb_spec c b) as [->|]; [congruence|].
    destruct (Ascii.eqb_spec c d) as [->|]; [congruence|]. apply IH; [lia|done]. }
  by rewrite !has_char_cons.
Qed.
End Strip.

Lemma has_char_rev c s : has_char c (String.rev s) = has_char c s.
Proof.
  unfold String.rev. assert (∀ s acc, has_char c (String.rev_app s acc) = has_char c s || has_char c acc) as H.
  { clear s. induction s as [|a s IH]; intros acc; simpl; [done|]. rewrite IH, !has_char_cons.
    by destruct (Ascii.eqb c a), (has_char c s). }
  rewrite H. by rewrite orb_false_r.
Qed.

(** A text with the letter s is not blank. *)
Lemma nonblank_letter s : has_char "s" s = true → nonblank s = true.
Proof.
  intros Hs. apply nonblank_true. unfold trim, trimEnd, trimStart. intros E.
  assert (has_char "s" "" = true) as H; [|done]. rewrite <- E, has_char_rev.
  assert (∀ a, ws2 a "s" = false ∧ ws2 "s" a = false) as W2.
  { intros a. unfold ws2. by rewrite andb_false_r. }
  assert (∀ a b, ws3 "s" a b = false ∧ ws3 a "s" b = false ∧ ws3 a b "s" = false) as W3.
  { intros a b. unfold ws3. cbn. by rewrite ?andb_false_r, ?orb_false_r. }
  apply (strip_keeps ws1 (λ a b, ws2 b a) (λ a b c, ws3 c b a) "s" eq_refl) with (n := String.length (String.rev (strip ws1 ws2 ws3 s))).
  - intros a. destruct (W2 a). done.
  - intros a b. by destruct (W3 b a) as (? & ? & ?).
  - done.
  - rewrite has_char_rev. by apply (strip_keeps ws1 ws2 ws3 "s" eq_refl) with (n := String.length s).
Qed.
