(* ===== verification/EpochSync.v ===== *)
(** * Creating and rotating epochs (packages/daemon/src/security/epoch-sync.ts)

    [ensureUserCryptoEpoch] and [ensureTeamCryptoEpoch] create the first epoch of a user
    or of a team and publish it; [rotateUserCryptoEpoch] and [rotateTeamCryptoEpoch]
    replace the active epoch by a new one, with a transition the old one signs;
    [processPendingCryptoRotationRequests] does the rotations the platform asks for and
    grants the new team epochs to their members ([grant] stands for
    grantTeamEpochToUserEpoch of TeamGrants.v). *)

From S2P Require Import Prelude JsString JsMap Json JsonText JsonStringify JsNumber CanonicalJson Noise EpochProtocol EpochStore Routing EpochClient.
From stdpp Require Import prelude strings list pretty.
From Stdlib Require Import ZArith Lia Ascii Floats.SpecFloat.

Definition sync_messages : Messages := {|
  msg_object := λ _, "Expected response object.";
  msg_field := λ name, "Crypto epoch response did not include " +:+ name;
  msg_nested := λ name, "Crypto epoch response did not include " +:+ name;
  msg_number := λ name, "Crypto epoch response did not include numeric " +:+ name;
  msg_array := λ name, "Crypto epoch response did not include " +:+ name +:+ " array."
|}.

Definition epoch_error : string := "Crypto epoch sync failed: ".
Definition rotation_error : string := "Crypto rotation sync failed: ".

(** [typeof data[name] === 'string' ? data[name] : null] *)
Definition optional_string (data : record) (name : string) : option string := as_string (field data name).

(** The epoch the platform answered with, with the private keys made here. *)
Definition user_epoch_answer (data : record) (keys : EpochKeyMaterial) : result LocalUserCryptoEpoch :=
  ws ← read_string sync_messages data "workspace_id";
  user ← read_id sync_messages data "user_id";
  id ← read_string sync_messages data "id";
  epoch ← read_number sync_messages data "epoch";
  enc ← read_object sync_messages (JObj data) "encryption_public_key_jwk";
  sig ← read_object sync_messages (JObj data) "signing_public_key_jwk";
  fp ← read_string sync_messages data "fingerprint";
  Ok {| u_workspaceId := ws; u_userId := user; u_platformEpochId := Some id; u_epoch := epoch;
        u_schema := USER_EPOCH_SCHEMA; u_status := active;
        u_keys := {| encryptionPublicKeyJwk := JObj enc; encryptionPrivateKeyJwk := encryptionPrivateKeyJwk keys;
                     signingPublicKeyJwk := JObj sig; signingPrivateKeyJwk := signingPrivateKeyJwk keys |};
        u_fingerprint := fp; u_previousEpochFingerprint := optional_string data "previous_epoch_fingerprint";
        u_createdAt := ""; u_updatedAt := "" |}.

Definition team_epoch_answer (teamId : string) (data : record) (keys : EpochKeyMaterial) : result LocalTeamCryptoEpoch :=
  ws ← read_string sync_messages data "workspace_id";
  team ← read_id sync_messages data "team_id";
  id ← read_string sync_messages data "id";
  epoch ← read_number sync_messages data "epoch";
  enc ← read_object sync_messages (JObj data) "encryption_public_key_jwk";
  sig ← read_object sync_messages (JObj data) "signing_public_key_jwk";
  fp ← read_string sync_messages data "fingerprint";
  Ok {| te_workspaceId := ws; te_teamId := teamId; te_platformTeamId := Some team; te_platformEpochId := Some id;
        te_epoch := epoch; te_schema := TEAM_EPOCH_SCHEMA; te_status := active;
        te_keys := {| encryptionPublicKeyJwk := JObj enc; encryptionPrivateKeyJwk := encryptionPrivateKeyJwk keys;
                      signingPublicKeyJwk := JObj sig; signingPrivateKeyJwk := signingPrivateKeyJwk keys |};
        te_fingerprint := fp; te_previousEpochFingerprint := optional_string data "previous_epoch_fingerprint";
        te_createdAt := ""; te_updatedAt := "" |}.

Definition first_epoch_body (credential : string) (d : EpochDescriptor) : record :=
  [("credential", JStr credential); ("epoch", JNum (num_of_Z 1));
   ("encryption_public_key_jwk", d_encryptionPublicKeyJwk d); ("signing_public_key_jwk", d_signingPublicKeyJwk d)].

Definition rotation_body (credential : string) (d : EpochDescriptor) (previous : string) (c : SignedEpochTransition) : record :=
  [("credential", JStr credential); ("epoch", JNum (d_epoch d));
   ("encryption_public_key_jwk", d_encryptionPublicKeyJwk d); ("signing_public_key_jwk", d_signingPublicKeyJwk d);
   ("previous_epoch_fingerprint", JStr previous);
   ("continuity", JObj [("payload", transition_json (s_payload c)); ("signature", JStr (s_signature c));
                        ("signed_by_epoch_fingerprint", JStr (s_signedByEpochFingerprint c))])].

(** The stored epoch as the start of a transition. *)
Definition user_descriptor (e : LocalUserCryptoEpoch) : EpochDescriptor :=
  {| d_schema := u_schema e; d_workspaceId := u_workspaceId e; d_subjectType := "user"; d_subjectId := u_userId e;
     d_epoch := u_epoch e; d_encryptionPublicKeyJwk := encryptionPublicKeyJwk (u_keys e);
     d_signingPublicKeyJwk := signingPublicKeyJwk (u_keys e);
     d_previousEpochFingerprint := u_previousEpochFingerprint e; d_createdAt := u_createdAt e |}.

Definition team_subject (e : LocalTeamCryptoEpoch) : string := coalesce (te_platformTeamId e) (te_teamId e).

Definition team_descriptor (e : LocalTeamCryptoEpoch) : EpochDescriptor :=
  {| d_schema := te_schema e; d_workspaceId := te_workspaceId e; d_subjectType := "team"; d_subjectId := team_subject e;
     d_epoch := te_epoch e; d_encryptionPublicKeyJwk := encryptionPublicKeyJwk (te_keys e);
     d_signingPublicKeyJwk := signingPublicKeyJwk (te_keys e);
     d_previousEpochFingerprint := te_previousEpochFingerprint e; d_createdAt := te_createdAt e |}.

(** ** What the platform asks for *)

Record RotationRequest := {
  rr_id : string; rr_subject_type : string; rr_subject_id : string; rr_team_public_id : option string;
  rr_reason : string; rr_recipients : list string
}.

Definition rotationRequestPayload (v : json) : result RotationRequest :=
  data ← read_record sync_messages v "";
  subjectType ← read_string sync_messages data "subject_type";
  _ ← require (String.eqb subjectType "user" || String.eqb subjectType "team")
        ("Unsupported crypto rotation subject: " +:+ subjectType);
  id ← read_string sync_messages data "id";
  subject ← read_string sync_messages data "subject_id";
  reason ← read_string sync_messages data "reason";
  Ok {| rr_id := id; rr_subject_type := subjectType; rr_subject_id := subject;
        rr_team_public_id := optional_string data "team_public_id"; rr_reason := reason;
        rr_recipients := match field data "recipient_user_crypto_epoch_ids" with
                         | Some (JArr l) => map js_String l | _ => [] end |}.

Definition rotationReason (value : string) : string :=
  if bool_decide (value ∈ ["device_revoked"; "member_added"; "member_revoked"; "manual_rotation"; "recovery"])
  then value else "manual_rotation".

Record Rotations := {
  processed : nat; userRotations : nat; teamRotations : nat; teamMemberGrants : nat; skipped : nat
}.

Section Sync.
Context `{Crypto} `{EpochKeys} {Srv : Type}.
Variable env : Env Srv.
Notation M := (M Srv).

Definition user_epochs_url (t : CryptoEpochSyncTarget) : string := runtimeBaseUrl t +:+ "/crypto/user-epochs".
Definition team_epochs_url (t : CryptoEpochSyncTarget) (teamId : string) : string :=
  runtimeBaseUrl t +:+ "/crypto/teams/" +:+ encodeURIComponent teamId +:+ "/epochs".

Definition ensureUserCryptoEpoch (t : CryptoEpochSyncTarget) : M LocalUserCryptoEpoch :=
  existing ← reads (getActiveLocalUserEpoch (workspaceId t));
  match existing with
  | Some e => mret e
  | None =>
      encryption ← draw (x_key env); signing ← draw (ed_key env); now ← draw (clock env);
      let '(descriptor, keys) := createLocalUserEpochKeyMaterial encryption signing (workspaceId t) None
                                   (Some (num_of_Z 1)) None now in
      payload ← postJson env epoch_error (user_epochs_url t) (first_epoch_body (credential t) descriptor);
      data ← lift (read_object sync_messages payload "data");
      input ← lift (user_epoch_answer data keys);
      stored ← draw (clock env);
      writes (upsertLocalUserEpoch input stored)
  end.

Definition rotateUserCryptoEpoch (t : CryptoEpochSyncTarget) (reason : string) : M LocalUserCryptoEpoch :=
  active ← reads (getActiveLocalUserEpoch (workspaceId t));
  previous ← lift (or_throw active "Cannot rotate user crypto epoch before an active local epoch exists.");
  encryption ← draw (x_key env); signing ← draw (ed_key env); now ← draw (clock env);
  let '(descriptor, keys) := createLocalUserEpochKeyMaterial encryption signing (workspaceId t) (Some (u_userId previous))
                               (Some (num_add (u_epoch previous) (num_of_Z 1))) (Some (u_fingerprint previous)) now in
  createdAt ← draw (clock env);
  transition ← lift (epochTransitionPayload (user_descriptor previous) descriptor reason createdAt);
  continuity ← lift (signEpochTransition transition (signingPrivateKeyJwk (u_keys previous)) (u_fingerprint previous));
  payload ← postJson env epoch_error (user_epochs_url t)
              (rotation_body (credential t) descriptor (u_fingerprint previous) continuity);
  data ← lift (read_object sync_messages payload "data");
  input ← lift (user_epoch_answer data keys);
  stored ← draw (clock env);
  writes (upsertLocalUserEpoch input stored).

Definition ensureTeamCryptoEpoch (t : CryptoEpochSyncTarget) (teamId : string) : M LocalTeamCryptoEpoch :=
  existing ← reads (getActiveLocalTeamEpoch (workspaceId t) teamId);
  match existing with
  | Some e => mret e
  | None =>
      encryption ← draw (x_key env); signing ← draw (ed_key env); now ← draw (clock env);
      let '(descriptor, keys) := createLocalTeamEpochKeyMaterial encryption signing (workspaceId t) teamId
                                   (Some (num_of_Z 1)) None now in
      payload ← postJson env epoch_error (team_epochs_url t teamId) (first_epoch_body (credential t) descriptor);
      data ← lift (read_object sync_messages payload "data");
      input ← lift (team_epoch_answer teamId data keys);
      stored ← draw (clock env);
      writes (upsertLocalTeamEpoch input stored)
  end.

Definition rotateTeamCryptoEpoch (t : CryptoEpochSyncTarget) (teamId reason : string) : M LocalTeamCryptoEpoch :=
  active ← reads (getActiveLocalTeamEpoch (workspaceId t) teamId);
  previous ← lift (or_throw active "Cannot rotate team crypto epoch before an active local team epoch exists.");
  encryption ← draw (x_key env); signing ← draw (ed_key env); now ← draw (clock env);
  let '(descriptor, keys) := createLocalTeamEpochKeyMaterial encryption signing (workspaceId t) (team_subject previous)
                               (Some (num_add (te_epoch previous) (num_of_Z 1))) (Some (te_fingerprint previous)) now in
  createdAt ← draw (clock env);
  transition ← lift (epochTransitionPayload (team_descriptor previous) descriptor reason createdAt);
  continuity ← lift (signEpochTransition transition (signingPrivateKeyJwk (te_keys previous)) (te_fingerprint previous));
  payload ← postJson env epoch_error (team_epochs_url t teamId)
              (rotation_body (credential t) descriptor (te_fingerprint previous) continuity);
  data ← lift (read_object sync_messages payload "data");
  input ← lift (team_epoch_answer teamId data keys);
  stored ← draw (clock env);
  writes (upsertLocalTeamEpoch input stored).

Variable grant : CryptoEpochSyncTarget → string → string → M ().

Definition counted (u t g s : nat) (r : Rotations) : Rotations :=
  {| processed := 0; userRotations := userRotations r + u; teamRotations := teamRotations r + t;
     teamMemberGrants := teamMemberGrants r + g; skipped := skipped r + s |}.

(** The grants of a new team epoch, one after the other. *)
Fixpoint grant_all (t : CryptoEpochSyncTarget) (teamCryptoEpochId : string) (recipients : list string) (r : Rotations)
    : M Rotations :=
  match recipients with
  | [] => mret r
  | recipient :: recipients =>
      _ ← grant t teamCryptoEpochId recipient; grant_all t teamCryptoEpochId recipients (counted 0 0 1 0 r)
  end.

(** One round of the loop. *)
Definition process_request (t : CryptoEpochSyncTarget) (request : RotationRequest) (r : Rotations) : M Rotations :=
  if String.eqb (rr_subject_type request) "user" then
    _ ← rotateUserCryptoEpoch t (rotationReason (rr_reason request)); mret (counted 1 0 0 0 r)
  else
    match rr_team_public_id request with
    | Some team =>
        if String.eqb (rr_subject_type request) "team" && truthy_str team then
          rotated ← rotateTeamCryptoEpoch t team (rotationReason (rr_reason request));
          match te_platformEpochId rotated with
          | Some id => if truthy_str id then grant_all t id (rr_recipients request) (counted 0 1 0 0 r)
                       else mret (counted 0 1 0 1 r)
          | None => mret (counted 0 1 0 1 r)
          end
        else mret (counted 0 0 0 1 r)
    | None => mret (counted 0 0 0 1 r)
    end.

Fixpoint process_requests (t : CryptoEpochSyncTarget) (requests : list RotationRequest) (r : Rotations) : M Rotations :=
  match requests with
  | [] => mret r
  | request :: requests => r' ← process_request t request r; process_requests t requests r'
  end.

Definition processPendingCryptoRotationRequests (t : CryptoEpochSyncTarget) : M Rotations :=
  response ← getJson env rotation_error (runtimeBaseUrl t +:+ "/crypto/rotation-requests") (credential t);
  items ← lift (read_array sync_messages response "data");
  requests ← lift (map_results rotationRequestPayload items);
  r ← process_requests t requests {| processed := 0; userRotations := 0; teamRotations := 0; teamMemberGrants := 0; skipped := 0 |};
  mret {| processed := userRotations r + teamRotations r; userRotations := userRotations r; teamRotations := teamRotations r;
          teamMemberGrants := teamMemberGrants r; skipped := skipped r |}.
End Sync.
