(* ===== verification/TeamGrants.v ===== *)
(** * Granting team epochs to users (packages/daemon/src/security/team-epoch-grants.ts,
    team-epoch-grant-payloads.ts)

    A member that holds the private keys of a team epoch wraps them for the epoch of
    another user ([grantTeamEpochToUserEpoch]), whose public part comes from the platform
    and is checked against the pins.  The recipient unwraps and stores them
    ([acceptTeamEpochMemberGrants]) and signs a receipt with the key it received. *)

From S2P Require Import Prelude JsString JsMap Json JsonText JsonStringify JsNumber CanonicalJson Noise EpochProtocol EpochStore EpochPins Routing EpochClient.
From stdpp Require Import prelude strings list pretty.
From Stdlib Require Import ZArith Lia Ascii Floats.SpecFloat.

Definition grant_messages : Messages := {|
  msg_object := λ label, "Expected " +:+ label +:+ " object.";
  msg_field := λ name, "Response did not include " +:+ name +:+ ".";
  msg_nested := λ name, "Response did not include " +:+ name +:+ " object.";
  msg_number := λ name, "Response did not include numeric " +:+ name +:+ ".";
  msg_array := λ name, "Response did not include " +:+ name +:+ " array."
|}.

Definition grant_error : string := "Team epoch grant sync failed: ".

Record PublicUserEpoch := {
  pu_id : string; pu_workspace_id : string; pu_user_id : string; pu_epoch : spec_float; pu_fingerprint : string;
  pu_encryption_public_key_jwk : json; pu_signing_public_key_jwk : json; pu_previous_epoch_fingerprint : option string;
  pu_continuity_payload : option json; pu_continuity_signature : option string; pu_signed_by_epoch_fingerprint : option string
}.

Record TeamMemberGrantPayload := {
  tg_id : string; tg_team_crypto_epoch_id : string; tg_recipient_user_crypto_epoch_id : string; tg_aad : json;
  tg_encrypted_payload : record
}.

Definition teamEpochMemberGrantAad (teamEpoch : LocalTeamCryptoEpoch) (recipient : PublicUserEpoch) : json :=
  JObj [("schema", JStr "viewport.team_epoch_member_grant_aad/v1"); ("workspaceId", JStr (te_workspaceId teamEpoch));
        ("platformTeamId", nullable (te_platformTeamId teamEpoch)); ("teamEpochId", nullable (te_platformEpochId teamEpoch));
        ("teamEpochFingerprint", JStr (te_fingerprint teamEpoch)); ("recipientUserEpochId", JStr (pu_id recipient));
        ("recipientUserEpochFingerprint", JStr (pu_fingerprint recipient))].

(** A text, or nothing. *)
Definition text_or_null (data : record) (name : string) : option string := as_string (field data name).

(** [user_id] is kept as the text [String(user_id)], the only use made of it. *)
Definition publicUserEpochPayload (v : json) : result PublicUserEpoch :=
  data ← read_record grant_messages v "user epoch";
  id ← read_string grant_messages data "id";
  ws ← read_string grant_messages data "workspace_id";
  user ← read_id grant_messages data "user_id";
  epoch ← read_number grant_messages data "epoch";
  fp ← read_string grant_messages data "fingerprint";
  enc ← read_object grant_messages (JObj data) "encryption_public_key_jwk";
  sig ← read_object grant_messages (JObj data) "signing_public_key_jwk";
  Ok {| pu_id := id; pu_workspace_id := ws; pu_user_id := user; pu_epoch := epoch; pu_fingerprint := fp;
        pu_encryption_public_key_jwk := JObj enc; pu_signing_public_key_jwk := JObj sig;
        pu_previous_epoch_fingerprint := text_or_null data "previous_epoch_fingerprint";
        pu_continuity_payload := match field data "continuity_payload" with
                                 | Some (JObj f) => Some (JObj f) | Some (JArr l) => Some (JArr l) | _ => None end;
        pu_continuity_signature := text_or_null data "continuity_signature";
        pu_signed_by_epoch_fingerprint := text_or_null data "signed_by_epoch_fingerprint" |}.

Definition teamMemberGrantPayload (v : json) : result TeamMemberGrantPayload :=
  data ← read_record grant_messages v "team member grant";
  id ← read_string grant_messages data "id";
  team ← read_string grant_messages data "team_crypto_epoch_id";
  recipient ← read_string grant_messages data "recipient_user_crypto_epoch_id";
  aad ← read_object grant_messages (JObj data) "aad";
  wrapped ← read_object grant_messages (JObj data) "encrypted_payload";
  Ok {| tg_id := id; tg_team_crypto_epoch_id := team; tg_recipient_user_crypto_epoch_id := recipient;
        tg_aad := JObj aad; tg_encrypted_payload := wrapped |}.

(** The key material a grant carries, as an entry of the store. *)
Definition teamMaterialPayload (v : json) : result LocalTeamCryptoEpoch :=
  data ← read_record grant_messages v "team material";
  ws ← read_string grant_messages data "workspaceId";
  team ← read_string grant_messages data "teamId";
  id ← read_string grant_messages data "platformEpochId";
  epoch ← read_number grant_messages data "epoch";
  fp ← read_string grant_messages data "fingerprint";
  encPub ← read_object grant_messages (JObj data) "encryptionPublicKeyJwk";
  encPriv ← read_object grant_messages (JObj data) "encryptionPrivateKeyJwk";
  sigPub ← read_object grant_messages (JObj data) "signingPublicKeyJwk";
  sigPriv ← read_object grant_messages (JObj data) "signingPrivateKeyJwk";
  Ok {| te_workspaceId := ws; te_teamId := team; te_platformTeamId := text_or_null data "platformTeamId";
        te_platformEpochId := Some id; te_epoch := epoch; te_schema := TEAM_EPOCH_SCHEMA; te_status := active;
        te_keys := {| encryptionPublicKeyJwk := JObj encPub; encryptionPrivateKeyJwk := JObj encPriv;
                      signingPublicKeyJwk := JObj sigPub; signingPrivateKeyJwk := JObj sigPriv |};
        te_fingerprint := fp; te_previousEpochFingerprint := text_or_null data "previousEpochFingerprint";
        te_createdAt := ""; te_updatedAt := "" |}.

(** What a grant wraps. *)
Definition team_material_json (e : LocalTeamCryptoEpoch) : json :=
  JObj [("schema", JStr "viewport.team_epoch_member_material/v1"); ("workspaceId", JStr (te_workspaceId e));
        ("teamId", JStr (te_teamId e)); ("platformTeamId", nullable (te_platformTeamId e));
        ("platformEpochId", nullable (te_platformEpochId e)); ("epoch", JNum (te_epoch e));
        ("fingerprint", JStr (te_fingerprint e));
        ("encryptionPublicKeyJwk", encryptionPublicKeyJwk (te_keys e));
        ("encryptionPrivateKeyJwk", encryptionPrivateKeyJwk (te_keys e));
        ("signingPublicKeyJwk", signingPublicKeyJwk (te_keys e));
        ("signingPrivateKeyJwk", signingPrivateKeyJwk (te_keys e));
        ("previousEpochFingerprint", nullable (te_previousEpochFingerprint e))].

(** teamEpochMemberMaterializationPayload of epoch-protocol.ts, as JSON. *)
Definition teamEpochMemberMaterializationPayload (ws grantId teamCryptoEpochId teamEpochFingerprint
    recipientUserCryptoEpochId recipientUserEpochFingerprint : string) : json :=
  JObj [("schema", JStr "viewport.team_epoch_member_materialization/v1"); ("workspaceId", JStr ws);
        ("grantId", JStr grantId); ("teamCryptoEpochId", JStr teamCryptoEpochId);
        ("teamEpochFingerprint", JStr teamEpochFingerprint);
        ("recipientUserCryptoEpochId", JStr recipientUserCryptoEpochId);
        ("recipientUserEpochFingerprint", JStr recipientUserEpochFingerprint)].

Definition public_epoch_of (e : PublicUserEpoch) : PublicEpochForPinning :=
  {| e_platformEpochId := pu_id e; e_workspaceId := pu_workspace_id e; e_subjectType := "user"; e_subjectId := pu_user_id e;
     e_epoch := pu_epoch e; e_schema := USER_EPOCH_SCHEMA; e_fingerprint := pu_fingerprint e;
     e_encryptionPublicKeyJwk := pu_encryption_public_key_jwk e; e_signingPublicKeyJwk := pu_signing_public_key_jwk e;
     e_previousEpochFingerprint := pu_previous_epoch_fingerprint e; e_continuityPayload := pu_continuity_payload e;
     e_continuitySignature := pu_continuity_signature e; e_signedByEpochFingerprint := pu_signed_by_epoch_fingerprint e |}.

Definition isExpectedNonTeamRecipientError (message : string) : bool :=
  includes message "Recipient user is not a team member".

Section Grants.
Context `{Crypto} `{EpochKeys} {Srv : Type}.
Variable env : Env Srv.
Notation M := (M Srv).

(** signTeamEpochMemberMaterialization of epoch-protocol.ts: the receipt. *)
Definition signTeamEpochMemberMaterialization (payload key : json) (signedBy : string) : result json :=
  s ← sign_json payload key;
  Ok (JObj [("payload", payload); ("signature", JStr s); ("signedByTeamEpochFingerprint", JStr signedBy)]).

Definition user_epoch_feed (t : CryptoEpochSyncTarget) : M (list PublicUserEpoch) :=
  response ← getJson env grant_error (runtimeBaseUrl t +:+ "/crypto/epochs") (credential t);
  data ← lift (read_object grant_messages response "data");
  items ← lift (read_array grant_messages (JObj data) "user_epochs");
  lift (map_results publicUserEpochPayload items).

Definition fetchPublicUserEpoch (t : CryptoEpochSyncTarget) (recipientUserCryptoEpochId : string) : M PublicUserEpoch :=
  userEpochs ← user_epoch_feed t;
  epoch ← lift (or_throw (find_first (λ item, String.eqb (pu_id item) recipientUserCryptoEpochId) userEpochs)
                  "Recipient user epoch not found in workspace epoch feed.");
  now ← draw (clock env);
  _ ← writes (validateAndPinPublicEpoch (public_epoch_of epoch) now);
  mret epoch.

Definition grantTeamEpochToUserEpoch (t : CryptoEpochSyncTarget) (teamCryptoEpochId recipientUserCryptoEpochId : string)
    : M TeamMemberGrantPayload :=
  found ← reads (getLocalTeamEpochByPlatformId (workspaceId t) teamCryptoEpochId);
  teamEpoch ← lift (or_throw (e ← found; if truthy_opt (te_platformEpochId e) then Some e else None)
                      "Active local team epoch with platform id is required before granting it.");
  recipient ← fetchPublicUserEpoch t recipientUserCryptoEpochId;
  let aad := teamEpochMemberGrantAad teamEpoch recipient in
  ephemeral ← draw (x_key env); iv ← draw (random_text env); createdAt ← draw (clock env);
  wrapped ← lift (wrapJsonForX25519Recipient ephemeral iv (pu_encryption_public_key_jwk recipient)
                    (team_material_json teamEpoch) aad createdAt);
  response ← postJson env grant_error
               (runtimeBaseUrl t +:+ "/crypto/team-epochs/" +:+ encodeURIComponent teamCryptoEpochId +:+ "/member-grants")
               [("credential", JStr (credential t)); ("recipient_user_crypto_epoch_id", JStr recipientUserCryptoEpochId);
                ("aad", aad); ("encrypted_payload", JObj (envelope_fields wrapped))];
  data ← lift (read_object grant_messages response "data");
  lift (teamMemberGrantPayload (JObj data)).

(** The loop over the users of the workspace: the grants made and the users skipped. *)
Fixpoint grant_each (t : CryptoEpochSyncTarget) (teamCryptoEpochId : string) (users : list PublicUserEpoch)
    (grants : list TeamMemberGrantPayload) (skipped : nat) : M (list TeamMemberGrantPayload * nat) := λ w,
  match users with
  | [] => (Ok (grants, skipped), w)
  | user :: users =>
      match grantTeamEpochToUserEpoch t teamCryptoEpochId (pu_id user) w with
      | (Ok g, w') => grant_each t teamCryptoEpochId users (grants ++ [g]) skipped w'
      | (Throw m, w') =>
          if isExpectedNonTeamRecipientError m then grant_each t teamCryptoEpochId users grants (S skipped) w'
          else (Throw m, w')
      end
  end.

(** attempted, granted, skipped and the grants. *)
Definition grantTeamEpochToWorkspaceUserEpochs (t : CryptoEpochSyncTarget) (teamCryptoEpochId : string)
    : M (nat * nat * nat * list TeamMemberGrantPayload) :=
  users ← user_epoch_feed t;
  r ← grant_each t teamCryptoEpochId users [] 0;
  mret (length users, length r.1, r.2, r.1).

(** One grant for a user epoch this device holds. *)
Definition accept_grant (t : CryptoEpochSyncTarget) (grant : TeamMemberGrantPayload) (user : LocalUserCryptoEpoch)
    : M LocalTeamCryptoEpoch :=
  payload ← lift (unwrapJsonFromX25519Envelope (encryptionPrivateKeyJwk (u_keys user)) (tg_encrypted_payload grant) (tg_aad grant));
  material ← lift (teamMaterialPayload payload);
  now ← draw (clock env);
  teamEpoch ← writes (upsertLocalTeamEpoch material now);
  receipt ← lift (signTeamEpochMemberMaterialization
    (teamEpochMemberMaterializationPayload (te_workspaceId material) (tg_id grant) (coalesce (te_platformEpochId material) "")
       (te_fingerprint material) (tg_recipient_user_crypto_epoch_id grant) (u_fingerprint user))
    (signingPrivateKeyJwk (te_keys material)) (te_fingerprint material));
  _ ← postJson env grant_error
        (runtimeBaseUrl t +:+ "/crypto/team-epoch-member-grants/" +:+ encodeURIComponent (tg_id grant) +:+ "/materialized")
        [("credential", JStr (credential t)); ("receipt", receipt)];
  mret teamEpoch.

Fixpoint accept_grants (t : CryptoEpochSyncTarget) (grants : list TeamMemberGrantPayload) (accepted : list LocalTeamCryptoEpoch)
    : M (list LocalTeamCryptoEpoch) :=
  match grants with
  | [] => mret accepted
  | grant :: grants =>
      user ← reads (getLocalUserEpochByPlatformId (workspaceId t) (tg_recipient_user_crypto_epoch_id grant));
      match user with
      | None => accept_grants t grants accepted
      | Some user => e ← accept_grant t grant user; accept_grants t grants (accepted ++ [e])
      end
  end.

Definition acceptTeamEpochMemberGrants (t : CryptoEpochSyncTarget) : M (nat * list LocalTeamCryptoEpoch) :=
  response ← getJson env grant_error (runtimeBaseUrl t +:+ "/crypto/team-epoch-member-grants") (credential t);
  items ← lift (read_array grant_messages response "data");
  grants ← lift (map_results teamMemberGrantPayload items);
  teamEpochs ← accept_grants t grants [];
  mret (length teamEpochs, teamEpochs).
End Grants.
