(* ===== verification/EpochEnrollment.v ===== *)
(** * Enrolling a device (packages/daemon/src/security/epoch-enrollment.ts)

    A new device of a user makes keys and asks to be enrolled
    ([requestDeviceEpochEnrollment]); a device that holds the user's epoch wraps it for
    the new one ([approveDeviceEpochEnrollment]), which unwraps and stores it
    ([acceptDeviceEpochEnrollment]) and sends a receipt signed with the key it received. *)

From S2P Require Import Prelude JsString JsMap Json JsonText JsonStringify JsNumber CanonicalJson Noise EpochProtocol EpochStore Routing EpochClient.
From stdpp Require Import prelude strings list pretty.
From Stdlib Require Import ZArith Lia Ascii Floats.SpecFloat.

Definition enroll_messages : Messages := {|
  msg_object := λ label, "Expected " +:+ label +:+ " object.";
  msg_field := λ name, "Device enrollment response did not include " +:+ name;
  msg_nested := λ name, "Device enrollment response did not include " +:+ name;
  msg_number := λ name, "Device enrollment response did not include numeric " +:+ name;
  msg_array := λ name, "Device enrollment response did not include " +:+ name +:+ " array."
|}.

Definition enroll_error : string := "Device enrollment sync failed: ".

Record DeviceGrantPayload := {
  dg_id : string; dg_user_crypto_epoch_id : string; dg_recipient_fingerprint : string; dg_aad : json;
  dg_encrypted_payload : record
}.

Record DeviceEnrollmentPayload := {
  dp_id : string; dp_workspace_id : string; dp_user_id : string; dp_device_id : string; dp_device_label : string;
  dp_encryption_public_key_jwk : json; dp_signing_public_key_jwk : json; dp_fingerprint : string; dp_nonce : string;
  dp_status : EnrollmentStatus; dp_grants : list DeviceGrantPayload
}.

Definition statusField (data : record) (name : string) : result EnrollmentStatus :=
  s ← read_string enroll_messages data name;
  if String.eqb s "pending" then Ok enrollment_pending
  else if String.eqb s "approved" then Ok enrollment_approved
  else if String.eqb s "accepted" then Ok enrollment_accepted
  else if String.eqb s "revoked" then Ok enrollment_revoked
  else Throw ("Unsupported device enrollment status: " +:+ s).

Definition deviceGrantPayload (v : json) : result DeviceGrantPayload :=
  data ← read_record enroll_messages v "grant";
  id ← read_string enroll_messages data "id";
  epoch ← read_string enroll_messages data "user_crypto_epoch_id";
  recipient ← read_string enroll_messages data "recipient_fingerprint";
  aad ← read_object enroll_messages (JObj data) "aad";
  wrapped ← read_object enroll_messages (JObj data) "encrypted_payload";
  Ok {| dg_id := id; dg_user_crypto_epoch_id := epoch; dg_recipient_fingerprint := recipient; dg_aad := JObj aad;
        dg_encrypted_payload := wrapped |}.

(** [user_id] is kept as the text [String(user_id)], the only use made of it. *)
Definition enrollmentPayload (payload : json) : result DeviceEnrollmentPayload :=
  data ← read_object enroll_messages payload "data";
  id ← read_string enroll_messages data "id";
  ws ← read_string enroll_messages data "workspace_id";
  user ← read_id enroll_messages data "user_id";
  device ← read_string enroll_messages data "device_id";
  label ← read_string enroll_messages data "device_label";
  enc ← read_object enroll_messages (JObj data) "encryption_public_key_jwk";
  sig ← read_object enroll_messages (JObj data) "signing_public_key_jwk";
  fp ← read_string enroll_messages data "fingerprint";
  nonce ← read_string enroll_messages data "nonce";
  status ← statusField data "status";
  grants ← match field data "grants" with Some (JArr l) => map_results deviceGrantPayload l | _ => Ok [] end;
  Ok {| dp_id := id; dp_workspace_id := ws; dp_user_id := user; dp_device_id := device; dp_device_label := label;
        dp_encryption_public_key_jwk := JObj enc; dp_signing_public_key_jwk := JObj sig; dp_fingerprint := fp;
        dp_nonce := nonce; dp_status := status; dp_grants := grants |}.

(** The epoch a grant carries, as an entry of the store. *)
Definition materialPayload (v : json) : result LocalUserCryptoEpoch :=
  data ← read_record enroll_messages v "material";
  ws ← read_string enroll_messages data "workspaceId";
  user ← read_string enroll_messages data "userId";
  id ← read_string enroll_messages data "platformEpochId";
  epoch ← read_number enroll_messages data "epoch";
  fp ← read_string enroll_messages data "fingerprint";
  encPub ← read_object enroll_messages (JObj data) "encryptionPublicKeyJwk";
  encPriv ← read_object enroll_messages (JObj data) "encryptionPrivateKeyJwk";
  sigPub ← read_object enroll_messages (JObj data) "signingPublicKeyJwk";
  sigPriv ← read_object enroll_messages (JObj data) "signingPrivateKeyJwk";
  Ok {| u_workspaceId := ws; u_userId := user; u_platformEpochId := Some id; u_epoch := epoch;
        u_schema := USER_EPOCH_SCHEMA; u_status := active;
        u_keys := {| encryptionPublicKeyJwk := JObj encPub; encryptionPrivateKeyJwk := JObj encPriv;
                     signingPublicKeyJwk := JObj sigPub; signingPrivateKeyJwk := JObj sigPriv |};
        u_fingerprint := fp; u_previousEpochFingerprint := as_string (field data "previousEpochFingerprint");
        u_createdAt := ""; u_updatedAt := "" |}.

Definition userEpochDeviceGrantAad (epoch : LocalUserCryptoEpoch) (enrollment : DeviceEnrollmentPayload) : json :=
  JObj [("schema", JStr "viewport.user_epoch_device_grant_aad/v1"); ("workspaceId", JStr (u_workspaceId epoch));
        ("userId", JStr (u_userId epoch)); ("platformEpochId", nullable (u_platformEpochId epoch));
        ("epochFingerprint", JStr (u_fingerprint epoch)); ("enrollmentId", JStr (dp_id enrollment));
        ("recipientFingerprint", JStr (dp_fingerprint enrollment))].

(** What an approval wraps. *)
Definition material_json (e : LocalUserCryptoEpoch) : json :=
  JObj [("schema", JStr "viewport.user_epoch_device_material/v1"); ("workspaceId", JStr (u_workspaceId e));
        ("userId", JStr (u_userId e)); ("platformEpochId", nullable (u_platformEpochId e)); ("epoch", JNum (u_epoch e));
        ("fingerprint", JStr (u_fingerprint e));
        ("encryptionPublicKeyJwk", encryptionPublicKeyJwk (u_keys e));
        ("encryptionPrivateKeyJwk", encryptionPrivateKeyJwk (u_keys e));
        ("signingPublicKeyJwk", signingPublicKeyJwk (u_keys e));
        ("signingPrivateKeyJwk", signingPrivateKeyJwk (u_keys e));
        ("previousEpochFingerprint", nullable (u_previousEpochFingerprint e))].

(** createLocalDeviceEnrollmentKeyMaterial of epoch-store.ts, for the keys. *)
Definition createLocalDeviceEnrollmentKeyMaterial (encryption signing : KeyPair) : EpochKeyMaterial :=
  {| encryptionPublicKeyJwk := kp_public encryption; encryptionPrivateKeyJwk := kp_private encryption;
     signingPublicKeyJwk := kp_public signing; signingPrivateKeyJwk := kp_private signing |}.

Definition with_status (s : EnrollmentStatus) (e : LocalDeviceEnrollment) : LocalDeviceEnrollment :=
  {| en_workspaceId := en_workspaceId e; en_enrollmentId := en_enrollmentId e; en_userId := en_userId e;
     en_deviceId := en_deviceId e; en_deviceLabel := en_deviceLabel e; en_status := s; en_keys := en_keys e;
     en_fingerprint := en_fingerprint e; en_nonce := en_nonce e; en_createdAt := en_createdAt e; en_updatedAt := en_updatedAt e |}.

Section Enrollment.
Context `{Crypto} `{EpochKeys} {Srv : Type}.
Variable env : Env Srv.
Notation M := (M Srv).

Definition enrollments_url (t : CryptoEpochSyncTarget) : string := runtimeBaseUrl t +:+ "/crypto/device-enrollments".

Definition requestDeviceEpochEnrollment (t : CryptoEpochSyncTarget) (deviceId deviceLabel : string) : M LocalDeviceEnrollment :=
  encryption ← draw (x_key env); signing ← draw (ed_key env); random ← draw (random_text env);
  let keys := createLocalDeviceEnrollmentKeyMaterial encryption signing in
  let nonce := toBase64Url random in
  let request := {| de_schema := DEVICE_ENROLLMENT_SCHEMA; de_workspaceId := workspaceId t; de_deviceId := deviceId;
                    de_deviceLabel := deviceLabel; de_encryptionPublicKeyJwk := encryptionPublicKeyJwk keys;
                    de_signingPublicKeyJwk := signingPublicKeyJwk keys; de_nonce := nonce |} in
  signature ← lift (signDeviceEnrollmentRequest request (signingPrivateKeyJwk keys));
  payload ← postJson env enroll_error (enrollments_url t)
    [("credential", JStr (credential t)); ("device_id", JStr deviceId); ("device_label", JStr deviceLabel);
     ("encryption_public_key_jwk", encryptionPublicKeyJwk keys); ("signing_public_key_jwk", signingPublicKeyJwk keys);
     ("nonce", JStr nonce); ("request_payload", enrollment_request_json request); ("request_signature", JStr signature)];
  data ← lift (enrollmentPayload payload);
  now ← draw (clock env);
  writes (upsertLocalDeviceEnrollment
    {| en_workspaceId := dp_workspace_id data; en_enrollmentId := Some (dp_id data); en_userId := Some (dp_user_id data);
       en_deviceId := dp_device_id data; en_deviceLabel := dp_device_label data; en_status := dp_status data;
       en_keys := {| encryptionPublicKeyJwk := dp_encryption_public_key_jwk data;
                     encryptionPrivateKeyJwk := encryptionPrivateKeyJwk keys;
                     signingPublicKeyJwk := dp_signing_public_key_jwk data;
                     signingPrivateKeyJwk := signingPrivateKeyJwk keys |};
       en_fingerprint := dp_fingerprint data; en_nonce := dp_nonce data; en_createdAt := ""; en_updatedAt := "" |} None now).

Definition listDeviceEpochEnrollments (t : CryptoEpochSyncTarget) : M (list DeviceEnrollmentPayload) :=
  payload ← getJson env enroll_error (enrollments_url t) (credential t);
  response ← lift (read_record enroll_messages payload "device enrollments response");
  match field response "data" with
  | Some (JArr l) => lift (map_results (λ item, enrollmentPayload (JObj [("data", item)])) l)
  | _ => throw "Device enrollment response did not include data array."
  end.

Definition fetchEnrollment (t : CryptoEpochSyncTarget) (enrollmentId : string) : M DeviceEnrollmentPayload :=
  payload ← getJson env enroll_error (enrollments_url t +:+ "/" +:+ encodeURIComponent enrollmentId) (credential t);
  lift (enrollmentPayload payload).

(** The envelope an approval sends. *)
Definition approval_envelope (epoch : LocalUserCryptoEpoch) (enrollment : DeviceEnrollmentPayload) (ephemeral : KeyPair)
    (iv createdAt : string) : result WrappedKeyEnvelope :=
  wrapJsonForX25519Recipient ephemeral iv (dp_encryption_public_key_jwk enrollment) (material_json epoch)
    (userEpochDeviceGrantAad epoch enrollment) createdAt.

Definition approveDeviceEpochEnrollment (t : CryptoEpochSyncTarget) (enrollmentId : string) : M DeviceEnrollmentPayload :=
  found ← reads (getActiveLocalUserEpoch (workspaceId t));
  epoch ← lift (or_throw (e ← found; if truthy_opt (u_platformEpochId e) then Some e else None)
                  "Active local user epoch with platform id is required before approving a device.");
  enrollment ← fetchEnrollment t enrollmentId;
  ephemeral ← draw (x_key env); iv ← draw (random_text env); createdAt ← draw (clock env);
  wrapped ← lift (approval_envelope epoch enrollment ephemeral iv createdAt);
  response ← postJson env enroll_error (enrollments_url t +:+ "/" +:+ encodeURIComponent enrollmentId +:+ "/approve")
    [("credential", JStr (credential t)); ("user_crypto_epoch_id", nullable (u_platformEpochId epoch));
     ("aad", userEpochDeviceGrantAad epoch enrollment); ("encrypted_payload", JObj (envelope_fields wrapped))];
  lift (enrollmentPayload response).

(** The epoch in the grant of an enrollment for this device. *)
Definition granted_epoch (enrollment : DeviceEnrollmentPayload) (local : LocalDeviceEnrollment)
    : result (DeviceGrantPayload * LocalUserCryptoEpoch) :=
  grant ← or_throw (find_first (λ g, String.eqb (dg_recipient_fingerprint g) (en_fingerprint local)) (dp_grants enrollment))
            "No encrypted user epoch grant is available for this device enrollment.";
  payload ← unwrapJsonFromX25519Envelope (encryptionPrivateKeyJwk (en_keys local)) (dg_encrypted_payload grant) (dg_aad grant);
  material ← materialPayload payload;
  Ok (grant, material).

Definition acceptDeviceEpochEnrollment (t : CryptoEpochSyncTarget) (enrollmentId : string) : M LocalUserCryptoEpoch :=
  enrollment ← fetchEnrollment t enrollmentId;
  found ← reads (getLocalDeviceEnrollment (workspaceId t) (dp_id enrollment));
  local ← lift (or_throw found "Local pending device enrollment key material was not found.");
  granted ← lift (granted_epoch enrollment local);
  let '(grant, material) := granted in
  receipt ← lift (signUserEpochDeviceMaterialization
    (userEpochDeviceMaterializationPayload (u_workspaceId material) (u_userId material) (dp_id enrollment) (dg_id grant)
       (coalesce (u_platformEpochId material) "") (u_fingerprint material) (dg_recipient_fingerprint grant))
    (signingPrivateKeyJwk (u_keys material)) (u_fingerprint material));
  now ← draw (clock env);
  epoch ← writes (upsertLocalUserEpoch material now);
  later ← draw (clock env);
  _ ← writes (upsertLocalDeviceEnrollment (with_status enrollment_accepted local) (Some (en_createdAt local)) later);
  _ ← postJson env enroll_error
        (enrollments_url t +:+ "/" +:+ encodeURIComponent (dp_id enrollment) +:+ "/materialized")
        [("credential", JStr (credential t)); ("grant_id", JStr (dg_id grant));
         ("receipt", JObj [("payload", materialization_json receipt.1.1); ("signature", JStr receipt.1.2);
                           ("signedByUserEpochFingerprint", JStr receipt.2)])];
  mret epoch.
End Enrollment.
