(* ===== verification/EpochProps.v ===== *)
(** * Epochs: fingerprints, wrapped keys, rotations and enrollments

    What a fingerprint binds; that a wrapped value reaches its recipient and an approved
    device gets the epoch of the device that approved it; that what a rotation publishes is
    accepted where the previous epoch is pinned; and that an operation the platform
    refuses leaves the file as it was. *)

From S2P Require Import Prelude JsString JsMap Json JsonText JsonStringify JsNumber CanonicalJson Noise EpochProtocol EpochStore EpochPins Routing EpochClient EpochSync EpochEnrollment.
From stdpp Require Import prelude strings list.
From Stdlib Require Import ZArith Lia Floats.SpecFloat.

(** ** Private fields *)

(** An object somewhere inside [v] has a field [k]. *)
Inductive holds_field (k : string) : json → Prop :=
| holds_here f c : (k, c) ∈ f → holds_field k (JObj f)
| holds_in_object f k' c : (k', c) ∈ f → holds_field k c → holds_field k (JObj f)
| holds_in_array l c : c ∈ l → holds_field k c → holds_field k (JArr l).

(** The path found depends on where the search starts, that one is found does not. *)
Lemma private_path_None v : ∀ path, private_path path v = None ↔ ∀ k, is_private_field k = true → ¬ holds_field k v.
Proof.
  induction v as [|b|x|s|l IH|f IH] using json_nested_ind; intros path;
    try (simpl; split; [intros _ k _ Hh; by inversion Hh|done]).
  - cbn [private_path]. generalize 0 as index. induction IH as [|v l Hv _ IHl]; intros index.
    + split; [|done]. intros _ k Hk Hh. inversion Hh as [| |? ? Hc]. by apply elem_of_nil in Hc.
    + specialize (IHl (S index)). destruct (private_path _ v) eqn:E.
      * split; [done|]. intros Hno. rewrite (proj2 (Hv _)) in E; [done|]. intros k Hk Hh.
        apply (Hno k Hk). apply (holds_in_array k _ v); [set_solver|done].
      * rewrite IHl. pose proof (proj1 (Hv _) E) as Hv0. split; intros Hno k Hk Hh.
        -- inversion Hh as [| |? c Hc Hcv]; subst. apply elem_of_cons in Hc as [->|Hc]; [by apply (Hv0 k)|].
           apply (Hno k Hk). by apply (holds_in_array k l c).
        -- inversion Hh as [| |? c Hc Hcv]; subst. apply (Hno k Hk). apply (holds_in_array k _ c); [set_solver|done].
  - cbn [private_path]. induction IH as [|[key v] f Hv _ IHf].
    + split; [|done]. intros _ k Hk Hh. inversion Hh as [? ? Hc|? ? ? Hc|]; by apply elem_of_nil in Hc.
    + simpl in Hv. destruct (is_private_field key) eqn:Ek.
      { split; [done|]. intros Hno. destruct (Hno key Ek). apply (holds_here key _ v). set_solver. }
      destruct (private_path _ v) eqn:E.
      * split; [done|]. intros Hno. rewrite (proj2 (Hv _)) in E; [done|]. intros k Hk Hh.
        apply (Hno k Hk). apply (holds_in_object k _ key v); [set_solver|done].
      * rewrite IHf. pose proof (proj1 (Hv _) E) as Hv0. split; intros Hno k Hk Hh.
        -- inversion Hh as [? c Hc|? k' c Hc Hcv|]; subst.
           ++ apply elem_of_cons in Hc as [[= <- <-]|Hc]; [congruence|]. by apply (Hno k Hk), (holds_here k f c).
           ++ apply elem_of_cons in Hc as [[= -> ->]|Hc]; [by apply (Hv0 k)|]. by apply (Hno k Hk), (holds_in_object k f k' c).
        -- apply (Hno k Hk). inversion Hh as [? c Hc|? k' c Hc Hcv|]; subst.
           ++ apply (holds_here k _ c). set_solver.
           ++ apply (holds_in_object k _ k' c); [set_solver|done].
Qed.

(** Private key material is refused at any depth, and nothing else is. *)
Lemma no_private_material v : assertNoPrivateKeyMaterial v = Ok () ↔ ∀ k, is_private_field k = true → ¬ holds_field k v.
Proof.
  rewrite <- (private_path_None v "$"). unfold assertNoPrivateKeyMaterial.
  split; [by destruct (private_path "$" v)|by intros ->].
Qed.

Lemma okp_public_clean crv x : assertNoPrivateKeyMaterial (okp_public crv x) = Ok ().
Proof. reflexivity. Qed.

(** ** Fingerprints *)

Lemma append_prefix_inj (p a b : string) : p +:+ a = p +:+ b → a = b.
Proof. induction p as [|c p IH]; simpl; [done|]. intros [= E]. by apply IH. Qed.

Lemma same_field a b k : same (JObj a) (JObj b) → k ≠ "__proto__" → option_Forall2 same (field a k) (field b k).
Proof. inversion 1. auto. Qed.

Lemma same_text_field a b k s t : same (JObj a) (JObj b) → k ≠ "__proto__" →
  field a k = Some (JStr s) → field b k = Some (JStr t) → s = t.
Proof. intros H Hk Ha Hb. pose proof (same_field a b k H Hk) as Hs. rewrite Ha, Hb in Hs. inversion Hs as [? ? H'|]. by inversion H'. Qed.

Section Fingerprints.
Context `{CryptoLaws}.

(** Two texts with one digest. *)
Definition collision : Prop := ∃ t1 t2, t1 ≠ t2 ∧ sha256 t1 = sha256 t2.

Lemma fingerprint_text a b : fingerprintPayload a = fingerprintPayload b →
  canonicalJson a = canonicalJson b ∨ collision.
Proof.
  unfold fingerprintPayload, sha256Base64Url. intros E%append_prefix_inj.
  apply (f_equal fromBase64Url) in E. rewrite !base64_round_trip in E.
  destruct (decide (canonicalJson a = canonicalJson b)) as [|Hne]; [by left|]. right. by eexists _, _.
Qed.

(** The fingerprint of an epoch names everything in its descriptor but the time it was
    created: if two epochs have the same fingerprint, they have the same workspace, subject,
    number, schema and previous fingerprint, and the same keys up to the order of the fields
    of a JWK, unless SHA-256 has been made to collide. *)
Theorem fingerprint_binds a b : plain (descriptor_json a) = true → plain (descriptor_json b) = true →
  epochFingerprint a = epochFingerprint b →
  d_schema a = d_schema b ∧ d_workspaceId a = d_workspaceId b ∧ d_subjectType a = d_subjectType b ∧
  d_subjectId a = d_subjectId b ∧ d_epoch a = d_epoch b ∧
  same (d_encryptionPublicKeyJwk a) (d_encryptionPublicKeyJwk b) ∧
  same (d_signingPublicKeyJwk a) (d_signingPublicKeyJwk b) ∧
  d_previousEpochFingerprint a = d_previousEpochFingerprint b ∨ collision.
Proof.
  intros Ha Hb E. destruct (fingerprint_text _ _ E) as [Et|Hc]; [left|by right].
  apply canonical_text_iff in Et; [|done..]. clear Ha Hb E.
  destruct a as [a1 a2 a3 a4 a5 a6 a7 pa a9], b as [b1 b2 b3 b4 b5 b6 b7 pb b9]. unfold descriptor_json in Et.
  assert (∀ k, k ≠ "__proto__" → _) as Hf by (intros k; exact (same_field _ _ k Et)).
  pose proof (Hf "schema" ltac:(done)) as F1. pose proof (Hf "workspaceId" ltac:(done)) as F2.
  pose proof (Hf "subjectType" ltac:(done)) as F3. pose proof (Hf "subjectId" ltac:(done)) as F4.
  pose proof (Hf "epoch" ltac:(done)) as F5. pose proof (Hf "encryptionPublicKeyJwk" ltac:(done)) as F6.
  pose proof (Hf "signingPublicKeyJwk" ltac:(done)) as F7. pose proof (Hf "previousEpochFingerprint" ltac:(done)) as F8.
  vm_compute in F1, F2, F3, F4, F5, F6, F7, F8.
  assert (pa = pb) as ->.
  { destruct pa, pb; inversion F8 as [? ? F9|]; subst; inversion F9; congruence. }
  repeat match goal with H : option_Forall2 _ (Some _) (Some _) |- _ => inversion H; clear H; subst end.
  repeat match goal with H : same (JStr _) (JStr _) |- _ => inversion H; clear H; subst
                       | H : same (JNum _) (JNum _) |- _ => inversion H; clear H; subst end.
  simpl. by split_and!.
Qed.
End Fingerprints.

(** ** Wrapped values *)

Section Wrapping.
Context `{CryptoLaws} `{!EpochKeys} `{!EpochKeysLaws}.

Lemma wrap_for ephemeral recipient iv payload aad t : x_pair ephemeral → x_pair recipient →
  plain payload = true → is_num payload = false →
  ∃ w, wrapJsonForX25519Recipient ephemeral iv (kp_public recipient) payload aad t = Ok w ∧
    unwrapJsonFromX25519Envelope (kp_private recipient) (envelope_fields w) aad = Ok (canonicalize payload).
Proof.
  intros He Hr Hp Hn. destruct (x_correct ephemeral recipient He Hr) as (s & E1 & E2).
  destruct (x_public_form recipient Hr) as [x Ex]. unfold wrapJsonForX25519Recipient.
  rewrite E1, Ex, okp_public_clean. cbn [mbind result_bind or_throw].
  pose proof (open_sealed (deriveWrapKey s) iv (canonicalJson aad) (canonicalJson payload)) as Ho.
  destruct (aes_seal _ _ _ _) as [body tag]. eexists. split; [done|].
  unfold unwrapJsonFromX25519Envelope, buffer_field. set (w := envelope_fields _).
  assert (field w "schema" = Some (JStr WRAPPED_KEY_ENVELOPE_SCHEMA)) as -> by reflexivity.
  assert (field w "alg" = Some (JStr WRAP_ALG)) as -> by reflexivity.
  assert (field w "aadDigest" = Some (JStr (fingerprintPayload aad))) as -> by reflexivity.
  assert (field w "ephemeralPublicKeyJwk" = Some (kp_public ephemeral)) as -> by reflexivity.
  assert (field w "iv" = Some (JStr (toBase64Url iv))) as -> by reflexivity.
  assert (field w "tag" = Some (JStr (toBase64Url tag))) as -> by reflexivity.
  assert (field w "ciphertext" = Some (JStr (toBase64Url body))) as -> by reflexivity.
  cbn [is_str]. rewrite !String.eqb_refl. cbn [require mbind result_bind option_bind].
  rewrite E2, !buffer_from_text, !base64_round_trip. cbn [or_throw mbind result_bind]. rewrite Ho. cbn [or_throw mbind result_bind].
  unfold canonicalJson. rewrite parse_json; [done|by apply plain_canonicalize|]. by destruct payload.
Qed.

(** A value wrapped for a recipient reaches it: whatever the additional data, the
    ephemeral key and the iv, the recipient's private key unwraps the envelope to the value
    that was wrapped, with its fields in canonical order. *)
Theorem wrap_round_trip ephemeral recipient iv payload aad t : x_pair ephemeral → x_pair recipient →
  plain payload = true → is_num payload = false →
  ∃ w v, wrapJsonForX25519Recipient ephemeral iv (kp_public recipient) payload aad t = Ok w ∧
    unwrapJsonFromX25519Envelope (kp_private recipient) (envelope_fields w) aad = Ok v ∧ same payload v.
Proof.
  intros He Hr Hp Hn. destruct (wrap_for ephemeral recipient iv payload aad t He Hr Hp Hn) as (w & E1 & E2).
  exists w, (canonicalize payload). split; [done|]. split; [done|].
  by apply same_canonicalize.
Qed.

(** ** Enrolling a device *)

(** The platform delivers the grant of an approval to the device it was made for. *)
Definition delivered (e : LocalUserCryptoEpoch) (seen : DeviceEnrollmentPayload) (w : WrappedKeyEnvelope) (id : string)
    : DeviceGrantPayload :=
  {| dg_id := id; dg_user_crypto_epoch_id := coalesce (u_platformEpochId e) ""; dg_recipient_fingerprint := dp_fingerprint seen;
     dg_aad := userEpochDeviceGrantAad e seen; dg_encrypted_payload := envelope_fields w |}.

Definition same_keys (a b : EpochKeyMaterial) : Prop :=
  same (encryptionPublicKeyJwk a) (encryptionPublicKeyJwk b) ∧ same (encryptionPrivateKeyJwk a) (encryptionPrivateKeyJwk b) ∧
  same (signingPublicKeyJwk a) (signingPublicKeyJwk b) ∧ same (signingPrivateKeyJwk a) (signingPrivateKeyJwk b).

Definition is_object (v : json) : Prop := ∃ f, v = JObj f.

(** An epoch as this code stores it. *)
Record storable (e : LocalUserCryptoEpoch) : Prop := {
  so_workspace : nonblank (u_workspaceId e) = true; so_user : nonblank (u_userId e) = true;
  so_id : ∃ id, u_platformEpochId e = Some id ∧ nonblank id = true; so_fingerprint : nonblank (u_fingerprint e) = true;
  so_number : readable (u_epoch e) = true; so_schema : u_schema e = USER_EPOCH_SCHEMA; so_status : u_status e = active;
  so_objects : is_object (encryptionPublicKeyJwk (u_keys e)) ∧ is_object (encryptionPrivateKeyJwk (u_keys e)) ∧
    is_object (signingPublicKeyJwk (u_keys e)) ∧ is_object (signingPrivateKeyJwk (u_keys e));
  so_plain : plain (encryptionPublicKeyJwk (u_keys e)) = true ∧ plain (encryptionPrivateKeyJwk (u_keys e)) = true ∧
    plain (signingPublicKeyJwk (u_keys e)) = true ∧ plain (signingPrivateKeyJwk (u_keys e)) = true
}.

Lemma material_plain e : storable e → plain (material_json e) = true.
Proof.
  intros []. destruct so_id0 as (id & Eid & _), so_plain0 as (P1 & P2 & P3 & P4). unfold material_json. apply plain_object.
  split; [apply (bool_decide_unpack _); vm_compute; exact I|]. rewrite Eid. intros k v Hin.
  repeat (apply elem_of_cons in Hin as [[= -> ->]|Hin]; [done|]). apply list_elem_of_singleton in Hin as [= -> ->].
  by destruct (u_previousEpochFingerprint e).
Qed.

Lemma canonical_object v : plain v = true → is_object v → ∃ f, canonicalize v = JObj f ∧ same v (JObj f).
Proof. intros Hp [f ->]. eexists. split; [reflexivity|]. by apply (same_canonicalize (JObj f)). Qed.

(** What the recipient reads in the material. *)
Lemma material_read e : storable e → ∃ m, materialPayload (canonicalize (material_json e)) = Ok m ∧
  u_workspaceId m = u_workspaceId e ∧ u_userId m = u_userId e ∧ u_platformEpochId m = u_platformEpochId e ∧
  u_epoch m = u_epoch e ∧ u_fingerprint m = u_fingerprint e ∧ u_schema m = u_schema e ∧ u_status m = active ∧
  u_previousEpochFingerprint m = u_previousEpochFingerprint e ∧ same_keys (u_keys e) (u_keys m).
Proof.
  intros Hs. pose proof (material_plain e Hs) as Hp. destruct Hs. destruct so_id0 as (id & Eid & Hid).
  destruct so_plain0 as (P1 & P2 & P3 & P4), so_objects0 as (O1 & O2 & O3 & O4).
  destruct (canonicalize_field _ Hp) as (g & E & Hg). unfold material_json. rewrite E. clear Hp E.
  destruct (canonical_object _ P1 O1) as (f1 & C1 & S1), (canonical_object _ P2 O2) as (f2 & C2 & S2).
  destruct (canonical_object _ P3 O3) as (f3 & C3 & S3), (canonical_object _ P4 O4) as (f4 & C4 & S4).
  assert (field g "workspaceId" = Some (JStr (u_workspaceId e))) as F1 by (rewrite Hg by done; reflexivity).
  assert (field g "userId" = Some (JStr (u_userId e))) as F2 by (rewrite Hg by done; reflexivity).
  assert (field g "platformEpochId" = Some (JStr id)) as F3 by (rewrite Hg, Eid by done; reflexivity).
  assert (field g "epoch" = Some (JNum (u_epoch e))) as F4 by (rewrite Hg by done; reflexivity).
  assert (field g "fingerprint" = Some (JStr (u_fingerprint e))) as F5 by (rewrite Hg by done; reflexivity).
  assert (field g "encryptionPublicKeyJwk" = Some (JObj f1)) as F6 by (rewrite Hg, <- C1 by done; reflexivity).
  assert (field g "encryptionPrivateKeyJwk" = Some (JObj f2)) as F7 by (rewrite Hg, <- C2 by done; reflexivity).
  assert (field g "signingPublicKeyJwk" = Some (JObj f3)) as F8 by (rewrite Hg, <- C3 by done; reflexivity).
  assert (field g "signingPrivateKeyJwk" = Some (JObj f4)) as F9 by (rewrite Hg, <- C4 by done; reflexivity).
  assert (field g "previousEpochFingerprint" = Some (canonicalize (nullable (u_previousEpochFingerprint e)))) as F10
    by (rewrite Hg by done; reflexivity).
  unfold materialPayload. cbn [read_record as_record or_throw mbind result_bind].
  rewrite (read_string_ok _ _ _ _ F1), (read_string_ok _ _ _ _ F2), (read_string_ok _ _ _ _ F3), (read_number_ok _ _ _ _ F4),
    (read_string_ok _ _ _ _ F5), (read_object_ok _ _ _ _ F6), (read_object_ok _ _ _ _ F7), (read_object_ok _ _ _ _ F8),
    (read_object_ok _ _ _ _ F9), F10 by done.
  eexists. split; [reflexivity|]. rewrite Eid, so_schema0. split_and!; try done. by destruct (u_previousEpochFingerprint e).
Qed.

(** C37: An approved device gets the epoch of the device that approved it.  When a device
    wraps its active epoch for the key in an enrollment, and the platform delivers the
    grant to the device with that key and fingerprint, unwrapping gives the same epoch:
    workspace, user, id, number, fingerprints, and all four keys, the private ones
    included. *)
Theorem device_receives_epoch e seen local recipient ephemeral iv t id : storable e →
  x_pair ephemeral → x_pair recipient → dp_encryption_public_key_jwk seen = kp_public recipient →
  encryptionPrivateKeyJwk (en_keys local) = kp_private recipient → en_fingerprint local = dp_fingerprint seen →
  ∃ w m, approval_envelope e seen ephemeral iv t = Ok w ∧
    (∀ fetched rest, dp_grants fetched = delivered e seen w id :: rest →
       granted_epoch fetched local = Ok (delivered e seen w id, m)) ∧
    u_workspaceId m = u_workspaceId e ∧ u_userId m = u_userId e ∧ u_platformEpochId m = u_platformEpochId e ∧
    u_epoch m = u_epoch e ∧ u_fingerprint m = u_fingerprint e ∧ u_schema m = u_schema e ∧ u_status m = active ∧
    u_previousEpochFingerprint m = u_previousEpochFingerprint e ∧ same_keys (u_keys e) (u_keys m).
Proof.
  intros Hs He Hr Hpub Hpriv Hfp. unfold approval_envelope. rewrite Hpub.
  destruct (wrap_for ephemeral recipient iv (material_json e) (userEpochDeviceGrantAad e seen) t He Hr (material_plain e Hs) eq_refl)
    as (w & E1 & E2).
  destruct (material_read e Hs) as (m & Em & Hm). exists w, m. split; [done|]. split; [|done].
  intros fetched rest Hf. unfold granted_epoch. rewrite Hf. cbn [find_first delivered dg_recipient_fingerprint].
  rewrite Hfp, String.eqb_refl. cbn [or_throw mbind result_bind].
  change (dg_encrypted_payload (delivered e seen w id)) with (envelope_fields w).
  change (dg_aad (delivered e seen w id)) with (userEpochDeviceGrantAad e seen).
  rewrite Hpriv, E2. cbn [mbind result_bind]. by rewrite Em.
Qed.

(** Flaw: the fingerprint of the enrollment plays no part.  Whatever fingerprint and nonce
    the platform shows, the keys of the epoch are wrapped for the public key it names, and
    the holder of that key reads them. *)
Lemma approval_to_any_key e seen attacker ephemeral iv t : storable e → x_pair ephemeral → x_pair attacker →
  dp_encryption_public_key_jwk seen = kp_public attacker →
  ∃ w m, approval_envelope e seen ephemeral iv t = Ok w ∧
    unwrapJsonFromX25519Envelope (kp_private attacker) (envelope_fields w) (userEpochDeviceGrantAad e seen) = Ok m ∧
    same (material_json e) m.
Proof.
  intros Hs He Ha Hpub. unfold approval_envelope. rewrite Hpub.
  apply wrap_round_trip; try done. by apply material_plain.
Qed.
End Wrapping.

(** ** Operations that fail *)

Section Failures.
Context `{Crypto} `{EpochKeys} {Srv : Type}.
Variable env : Env Srv.

(** [x] leaves the file alone. *)
Definition keeps_file {A} (x : M Srv A) : Prop := ∀ w, disk (x w).2 = disk w.

Lemma keeps_bind {A B} (x : M Srv A) (f : A → M Srv B) : keeps_file x → (∀ a, keeps_file (f a)) → keeps_file (x ≫= f).
Proof.
  intros Hx Hf w. pose proof (Hx w) as Hw. unfold mbind, M_bind. destruct (x w) as [[a|e] w']; simpl in *; [|done].
  by rewrite Hf.
Qed.
Lemma keeps_lift {A} (r : result A) : keeps_file (lift r). Proof. done. Qed.
Lemma keeps_ret {A} (a : A) : keeps_file (mret a). Proof. done. Qed.
Lemma keeps_reads {A} (f : file → result A) : keeps_file (reads f). Proof. done. Qed.
Lemma keeps_draw {A} (source : nat → A) : keeps_file (draw source). Proof. done. Qed.
Lemma keeps_fetch q : keeps_file (fetchImpl env q).
Proof. intros w. unfold fetchImpl. by destruct (serve env q (server w)) as [[]]. Qed.
Lemma keeps_answered prefix r : keeps_file (answered (Srv := Srv) prefix r).
Proof. unfold answered. by destruct (r_ok r). Qed.
Lemma keeps_post prefix url body : keeps_file (postJson env prefix url body).
Proof. apply keeps_bind; [apply keeps_fetch|intros; apply keeps_answered]. Qed.
Lemma keeps_get prefix url cred : keeps_file (getJson env prefix url cred).
Proof. apply keeps_bind; [apply keeps_fetch|intros; apply keeps_answered]. Qed.

(** Either [x] gives what its last step stored, or the file is as it was. *)
Definition all_or_nothing (x : M Srv LocalUserCryptoEpoch) : Prop := ∀ w,
  match x w with
  | (Ok e, w') => getActiveLocalUserEpoch (u_workspaceId e) (disk w') = Ok (Some e)
  | (Throw _, w') => disk w' = disk w
  end.

Lemma all_or_nothing_bind {A} (x : M Srv A) f : keeps_file x → (∀ a, all_or_nothing (f a)) → all_or_nothing (x ≫= f).
Proof.
  intros Hx Hf w. pose proof (Hx w) as Hw. unfold mbind, M_bind. destruct (x w) as [[a|e] w'] eqn:E; simpl in *; [|done].
  pose proof (Hf a w') as Ha. destruct (f a w') as [[e|m] w'']; [done|]. by rewrite Ha.
Qed.

Lemma all_or_nothing_lift r f : (∀ a : LocalUserCryptoEpoch, r = Ok a → all_or_nothing (f a)) → all_or_nothing (lift r ≫= f).
Proof.
  intros Hf w. unfold mbind, M_bind, lift. destruct r as [a|m]; [by apply Hf|done].
Qed.

Lemma all_or_nothing_upsert input now : u_status input = active → all_or_nothing (writes (upsertLocalUserEpoch input now)).
Proof.
  intros Ha w. unfold writes. destruct (upsertLocalUserEpoch input now (disk w)) as [[e d]|m] eqn:E; [|done]. simpl.
  destruct (upsert_user_active input now (disk w) e d Ha E) as (_ & Hget & _). 
  replace (u_workspaceId e) with (u_workspaceId input); [done|]. revert E. unfold upsertLocalUserEpoch.
  destruct (readLocalEpochStore (disk w)) as [s|]; [|done]. cbn [mbind result_bind].
  match goal with |- context [upsert ?p ?f ?c ?l] => pose proof (upsert_spec p f c l) as Hs; destruct (upsert p f c l) as [y us] end.
  intros [= <- _]. by destruct Hs as [(? & ? & ? & _ & _ & _ & -> & _)|(_ & -> & _)].
Qed.

Lemma answer_active data keys e : user_epoch_answer data keys = Ok e → u_status e = active.
Proof.
  unfold user_epoch_answer, mbind, result_bind. intros Ha. repeat case_match; try done. by injection Ha as <-.
Qed.

(** Sending the body, reading the answer and storing the epoch. *)
Lemma publish_all_or_nothing url body keys : all_or_nothing (
  payload ← postJson env epoch_error url body;
  data ← lift (read_object sync_messages payload "data");
  input ← lift (user_epoch_answer data keys);
  stored ← draw (clock env);
  writes (upsertLocalUserEpoch input stored)).
Proof.
  apply all_or_nothing_bind; [apply keeps_post|]. intros payload. apply all_or_nothing_bind; [apply keeps_lift|].
  intros data. apply all_or_nothing_lift. intros input Hi. apply all_or_nothing_bind; [apply keeps_draw|].
  intros now. apply all_or_nothing_upsert. by eapply answer_active.
Qed.

Lemma rotation_throws t reason : all_or_nothing (rotateUserCryptoEpoch env t reason).
Proof.
  unfold rotateUserCryptoEpoch.
  apply all_or_nothing_bind; [apply keeps_reads|]. intros found. apply all_or_nothing_bind; [apply keeps_lift|]. intros previous.
  do 3 (apply all_or_nothing_bind; [apply keeps_draw|]; intros ?). cbn [createLocalUserEpochKeyMaterial].
  apply all_or_nothing_bind; [apply keeps_draw|]. intros createdAt.
  do 2 (apply all_or_nothing_bind; [apply keeps_lift|]; intros ?). apply publish_all_or_nothing.
Qed.

(** *** What a rotation stores *)

Lemma bind_Ok {A B} (x : M Srv A) (f : A → M Srv B) w b w' :
  (x ≫= f) w = (Ok b, w') → ∃ a w1, x w = (Ok a, w1) ∧ f a w1 = (Ok b, w').
Proof. unfold mbind, M_bind. destruct (x w) as [[a|m] w1]; [|done]. by exists a, w1. Qed.
Lemma lift_Ok {A} (r : result A) (w : World Srv) a w' : lift r w = (Ok a, w') → r = Ok a ∧ w' = w.
Proof. by intros [= -> ->]. Qed.
Lemma draw_Ok {A} (source : nat → A) (w : World Srv) a w' : draw source w = (Ok a, w') →
  a = source (drawn w) ∧ disk w' = disk w ∧ server w' = server w ∧ drawn w' = S (drawn w).
Proof. by intros [= <- <-]. Qed.
Lemma reads_Ok {A} (f : file → result A) (w : World Srv) a w' : reads f w = (Ok a, w') → f (disk w) = Ok a ∧ w' = w.
Proof. by intros [= -> ->]. Qed.

Lemma post_Ok prefix url body w v w' : postJson env prefix url body w = (Ok v, w') →
  ∃ r, serve env {| q_method := "POST"; q_url := url; q_credential := None; q_body := Some (JObj body) |} (server w) = (Some r, server w') ∧
    r_ok r = true ∧ v = default JNull (r_body r) ∧ disk w' = disk w ∧ drawn w' = drawn w.
Proof.
  unfold postJson. intros (r & w1 & Hf & Ha)%bind_Ok. unfold fetchImpl in Hf. destruct (serve env _ (server w)) as [[r'|] s]; [|done].
  injection Hf as <- <-. exists r'. unfold answered in Ha. destruct (r_ok r'); [|done]. by injection Ha as <- <-.
Qed.

Lemma or_throw_Ok {A} (o : option A) m a : or_throw o m = Ok a → o = Some a.
Proof. destruct o; simpl; congruence. Qed.

Section Answers.
Variable m : Messages.
Lemma read_string_inv f name s : read_string m f name = Ok s → field f name = Some (JStr s).
Proof. unfold read_string. destruct (field f name) as [[]|]; simpl; try done. case_match; [|done]. congruence. Qed.
Lemma read_number_inv f name x : read_number m f name = Ok x → field f name = Some (JNum x).
Proof. unfold read_number. destruct (field f name) as [[]|]; simpl; congruence. Qed.
Lemma read_object_inv f name g : read_object m (JObj f) name = Ok g → field f name = Some (JObj g).
Proof.
  unfold read_object. cbn [read_record as_record or_throw mbind result_bind]. intros E%or_throw_Ok.
  destruct (field f name) as [[]|]; simpl in *; congruence.
Qed.
End Answers.

(** The stored epoch is what the answer says of it, with private keys made here. *)
Record answered_with (data : record) (keys : EpochKeyMaterial) (e : LocalUserCryptoEpoch) : Prop := {
  aw_workspace : field data "workspace_id" = Some (JStr (u_workspaceId e));
  aw_user : read_id sync_messages data "user_id" = Ok (u_userId e);
  aw_id : field data "id" = JStr <$> u_platformEpochId e;
  aw_epoch : field data "epoch" = Some (JNum (u_epoch e));
  aw_fingerprint : field data "fingerprint" = Some (JStr (u_fingerprint e));
  aw_encryption : field data "encryption_public_key_jwk" = Some (encryptionPublicKeyJwk (u_keys e));
  aw_signing : field data "signing_public_key_jwk" = Some (signingPublicKeyJwk (u_keys e));
  aw_private : encryptionPrivateKeyJwk (u_keys e) = encryptionPrivateKeyJwk keys ∧
    signingPrivateKeyJwk (u_keys e) = signingPrivateKeyJwk keys;
  aw_previous : u_previousEpochFingerprint e = optional_string data "previous_epoch_fingerprint";
  aw_schema : u_schema e = USER_EPOCH_SCHEMA; aw_status : u_status e = active
}.

Lemma answer_fields data keys e : user_epoch_answer data keys = Ok e → answered_with data keys e.
Proof.
  unfold user_epoch_answer. intros Ha.
  repeat match type of Ha with (?x ≫= _) = Ok _ => destruct x eqn:?; [cbn [mbind result_bind] in Ha|done] end.
  injection Ha as <-. split; cbn [u_workspaceId u_userId u_platformEpochId u_epoch u_fingerprint u_keys u_status encryptionPublicKeyJwk
    signingPublicKeyJwk encryptionPrivateKeyJwk signingPrivateKeyJwk fmap option_fmap option_map];
    eauto using read_string_inv, read_number_inv, read_object_inv.
Qed.

Lemma stored_same input now d e d' : upsertLocalUserEpoch input now d = Ok (e, d') → ∃ created, e = user_times created now input.
Proof.
  unfold upsertLocalUserEpoch. destruct (readLocalEpochStore d) as [s|]; [|done]. cbn [mbind result_bind].
  match goal with |- context [upsert ?p ?f ?c ?l] => pose proof (upsert_spec p f c l) as Hs; destruct (upsert p f c l) as [y us] end.
  intros [= <- _]. destruct Hs as [(? & ? & ? & _ & _ & _ & -> & _)|(_ & -> & _)]; eauto.
Qed.

Lemma newest_in {A} (epoch : A → spec_float) l x : newest epoch l = Some x → x ∈ l.
Proof.
  induction l as [|y l IH] using rev_ind; [done|]. rewrite newest_snoc. unfold newer.
  destruct (newest epoch l) as [z|]; [destruct (num_lt _ _)|]; intros [= ->]; rewrite elem_of_app; [right; by left|left; auto|right; by left].
Qed.

Lemma active_status ws d e : getActiveLocalUserEpoch ws d = Ok (Some e) → u_workspaceId e = ws ∧ u_status e = active.
Proof.
  unfold getActiveLocalUserEpoch. destruct (readLocalEpochStore d) as [s|]; [|done]. cbn [mbind result_bind].
  rewrite head_sort_by_epoch. intros [= Hn]. apply newest_in, list_elem_of_In, filter_In in Hn as [_ Ha].
  unfold active_in in Ha. apply andb_true_iff in Ha as [Hw%String.eqb_eq Hs]. by apply bool_decide_eq_true in Hs.
Qed.

(** C38: A rotation of the user's epoch happens whole or not at all on this side.  If it
    throws, because there is no epoch to rotate, the platform cannot be reached, refuses
    or answers something else, or a key is not accepted, the file is as it was and the old
    epoch stays active.  If it returns, there was an active epoch in the workspace; the
    platform was sent the next number and the public keys of the two pairs just drawn; the
    epoch returned is the one its answer describes, with the private keys of those pairs;
    and that epoch is the active one of the workspace the answer names, the active epochs
    of all others being as they were.  So if the answer repeats the workspace, the number
    and the keys it was sent, the active epoch of the rotated workspace has the next number
    and the new keys.  (The answer is not compared with what was sent.) *)
Theorem rotation_all_or_nothing t reason w :
  match rotateUserCryptoEpoch env t reason w with
  | (Ok e, w') =>
      let encryption := x_key env (drawn w) in let signing := ed_key env (S (drawn w)) in
      let keys := {| encryptionPublicKeyJwk := kp_public encryption; encryptionPrivateKeyJwk := kp_private encryption;
                     signingPublicKeyJwk := kp_public signing; signingPrivateKeyJwk := kp_private signing |} in
      ∃ previous body r top data,
        getActiveLocalUserEpoch (workspaceId t) (disk w) = Ok (Some previous) ∧
        field body "epoch" = Some (JNum (num_add (u_epoch previous) (num_of_Z 1))) ∧
        field body "encryption_public_key_jwk" = Some (kp_public encryption) ∧
        field body "signing_public_key_jwk" = Some (kp_public signing) ∧
        serve env {| q_method := "POST"; q_url := user_epochs_url t; q_credential := None; q_body := Some (JObj body) |} (server w) =
          (Some r, server w') ∧
        r_ok r = true ∧ r_body r = Some (JObj top) ∧ field top "data" = Some (JObj data) ∧ answered_with data keys e ∧
        getActiveLocalUserEpoch (u_workspaceId e) (disk w') = Ok (Some e) ∧
        (∀ ws, ws ≠ u_workspaceId e → getActiveLocalUserEpoch ws (disk w') = getActiveLocalUserEpoch ws (disk w)) ∧
        (field data "workspace_id" = Some (JStr (workspaceId t)) →
         (∀ name, name ∈ ["epoch"; "encryption_public_key_jwk"; "signing_public_key_jwk"] → field data name = field body name) →
         getActiveLocalUserEpoch (workspaceId t) (disk w') = Ok (Some e) ∧
         u_epoch e = num_add (u_epoch previous) (num_of_Z 1) ∧ u_keys e = keys)
  | (Throw _, w') => disk w' = disk w
  end.
Proof.
  pose proof (rotation_throws t reason w) as Hthrow. destruct (rotateUserCryptoEpoch env t reason w) as [[e|m] w'] eqn:E; [|exact Hthrow].
  intros encryption signing keys. unfold rotateUserCryptoEpoch in E.
  apply bind_Ok in E as (found & w1 & [Hp ->]%reads_Ok & E). apply bind_Ok in E as (previous & w2 & [->%or_throw_Ok ->]%lift_Ok & E).
  apply bind_Ok in E as (k1 & w3 & (-> & D3 & V3 & N3)%draw_Ok & E). apply bind_Ok in E as (k2 & w4 & (-> & D4 & V4 & N4)%draw_Ok & E).
  apply bind_Ok in E as (now & w5 & (_ & D5 & V5 & N5)%draw_Ok & E). rewrite N3 in E. cbn [createLocalUserEpochKeyMaterial] in E.
  apply bind_Ok in E as (created & w6 & (_ & D6 & V6 & _)%draw_Ok & E).
  apply bind_Ok in E as (transition & w7 & [_ ->]%lift_Ok & E). apply bind_Ok in E as (continuity & w8 & [_ ->]%lift_Ok & E).
  apply bind_Ok in E as (v & w9 & (r & Hserve & Hok & -> & D9 & _)%post_Ok & E).
  apply bind_Ok in E as (data & w10 & [Hdata ->]%lift_Ok & E). apply bind_Ok in E as (input & w11 & [Hin%answer_fields ->]%lift_Ok & E).
  apply bind_Ok in E as (stored & w12 & (_ & D12 & V12 & _)%draw_Ok & E).
  unfold writes in E. destruct (upsertLocalUserEpoch input stored (disk w12)) as [[e' d]|] eqn:Eu; [|done]. injection E as -> <-.
  destruct (upsert_user_active input stored (disk w12) e d (aw_status _ _ _ Hin) Eu) as (_ & Hget & _ & _ & _ & Hothers).
  destruct (stored_same _ _ _ _ _ Eu) as [at_ ->]. cbn [disk server] in *.
  rewrite V6, V5, V4, V3 in Hserve. rewrite D12, D9, D6, D5, D4, D3 in Hothers.
  assert (∃ top, r_body r = Some (JObj top) ∧ field top "data" = Some (JObj data)) as (top & Htop & Hfield).
  { destruct (r_body r) as [[| | | | |top]|]; try done. exists top. split; [done|]. by apply read_object_inv in Hdata. }
  assert (answered_with data keys (user_times at_ stored input)) as Haw by (destruct Hin; by split).
  match type of Hserve with context [Some (JObj ?body)] => exists previous, body, r, top, data end.
  do 4 (split; [done|]). split; [rewrite V12; exact Hserve|]. do 4 (split; [done|]). split; [exact Hget|]. split; [exact Hothers|].
  intros Hws Hsame. destruct Haw as [Aw _ _ Ae _ Aenc Asig [Ap1 Ap2] _ _ _].
  rewrite Hsame in Ae, Aenc, Asig by set_solver. cbn in Ae, Aenc, Asig, Aw, Ap1, Ap2. rewrite Hws in Aw. injection Aw as Aw. rewrite <- Aw in Hget.
  split; [exact Hget|]. cbn [user_times u_epoch u_keys]. injection Ae as Ae. injection Aenc as Aenc. injection Asig as Asig.
  split; [symmetry; exact Ae|]. destruct (u_keys input) as [a1 a2 a3 a4]. cbn in *. subst. reflexivity.
Qed.

End Failures.
