(* ===== verification/EpochRotation.v ===== *)
(** * A rotation reaches those who pinned the previous epoch

    The pieces together: [rotateUserCryptoEpoch] signs and sends a request, the platform
    serves in its feed what it was sent ([published], a hypothesis), [publicUserEpochPayload]
    reads the feed, and [checkPublicEpoch] compares it with the pin. *)

From S2P Require Import Prelude JsString JsMap Json JsonText JsonStringify JsNumber CanonicalJson Noise EpochProtocol EpochStore EpochPins Routing EpochClient EpochSync TeamGrants EpochEnrollment EpochProps.
From stdpp Require Import prelude strings list.
From Stdlib Require Import ZArith Lia Floats.SpecFloat.

Section Rotation.
Context `{CryptoLaws} `{!EpochKeys} `{!EpochKeysLaws}.

(** What the platform is relied on for: the entry [f] it serves in the feed for an epoch of
    a user has an id, names the workspace and the user, and repeats of the body it was sent
    the number, the keys, the fingerprint of the epoch before and the signed continuity;
    and its fingerprint is that of the epoch it describes. *)
Record published (ws user : string) (body f : record) : Prop := {
  pb_id : ∃ id, field f "id" = Some (JStr id) ∧ nonblank id = true;
  pb_workspace : field f "workspace_id" = Some (JStr ws);
  pb_user : field f "user_id" = Some (JStr user);
  pb_same : ∀ name, name ∈ ["epoch"; "encryption_public_key_jwk"; "signing_public_key_jwk"; "previous_epoch_fingerprint"] →
    field f name = field body name;
  pb_continuity : ∀ c, field body "continuity" = Some (JObj c) →
    field f "continuity_payload" = field c "payload" ∧ field f "continuity_signature" = field c "signature" ∧
    field f "signed_by_epoch_fingerprint" = field c "signed_by_epoch_fingerprint";
  pb_fingerprint : ∀ epoch enc sig previous,
    field f "epoch" = Some (JNum epoch) → field f "encryption_public_key_jwk" = Some enc →
    field f "signing_public_key_jwk" = Some sig → field f "previous_epoch_fingerprint" = Some (JStr previous) →
    field f "fingerprint" = Some (JStr (epochFingerprint
      {| d_schema := USER_EPOCH_SCHEMA; d_workspaceId := ws; d_subjectType := "user"; d_subjectId := user; d_epoch := epoch;
         d_encryptionPublicKeyJwk := enc; d_signingPublicKeyJwk := sig; d_previousEpochFingerprint := Some previous;
         d_createdAt := "" |}))
}.

Lemma fingerprint_nonblank e : nonblank (epochFingerprint e) = true.
Proof. apply nonblank_letter. unfold epochFingerprint, fingerprintPayload. by rewrite has_char_app. Qed.

(** What is signed is read back. *)
Lemma transition_read t : t_schema t = "viewport.epoch_transition/v1" → nonblank (t_workspaceId t) = true →
  t_subjectType t = "user" ∨ t_subjectType t = "team" → nonblank (t_subjectId t) = true →
  nonblank (t_fromEpochFingerprint t) = true → nonblank (t_toEpochFingerprint t) = true → t_reason t ∈ REASONS →
  nonblank (t_createdAt t) = true → readTransitionPayload (transition_json t) = Ok t.
Proof.
  destruct t as [t1 t2 t3 t4 t5 t6 t7 t8 t9 t10]; simpl. intros -> A2 A3 A4 A6 A8 A9 A10.
  assert (nonblank t3 = true ∧ (String.eqb t3 "user" || String.eqb t3 "team") = true) as [A3a A3b] by by destruct A3 as [-> | ->].
  assert (nonblank t9 = true) as A9a.
  { revert A9. unfold REASONS. rewrite !elem_of_cons, elem_of_nil. by intros [-> |[-> |[-> |[-> |[-> |[-> |[-> |[]]]]]]]]. }
  unfold readTransitionPayload, transition_json. cbn [as_record or_throw mbind result_bind t_workspaceId t_subjectType t_subjectId
    t_fromEpoch t_fromEpochFingerprint t_toEpoch t_toEpochFingerprint t_reason t_createdAt t_schema].
  set (f := [_; _; _; _; _; _; _; _; _; _]).
  assert (∀ k s, field f k = Some (JStr s) → nonblank s = true → stringField f k = Ok s) as Hstr.
  { intros k s Hf Hs. unfold stringField. rewrite Hf. simpl. by rewrite Hs. }
  unfold subjectTypeField, reasonField, numberField.
  rewrite (Hstr "workspaceId" t2 eq_refl A2), (Hstr "subjectType" t3 eq_refl A3a), (Hstr "subjectId" t4 eq_refl A4),
    (Hstr "fromEpochFingerprint" t6 eq_refl A6), (Hstr "toEpochFingerprint" t8 eq_refl A8), (Hstr "reason" t9 eq_refl A9a),
    (Hstr "createdAt" t10 eq_refl A10).
  cbn [mbind result_bind]. rewrite A3b. cbn [mbind result_bind].
  assert (field f "fromEpoch" = Some (JNum t5)) as -> by reflexivity.
  assert (field f "toEpoch" = Some (JNum t7)) as -> by reflexivity.
  cbn [mbind result_bind]. by rewrite bool_decide_eq_true_2.
Qed.

Definition transition_of (previous : LocalUserCryptoEpoch) (d : EpochDescriptor) (reason createdAt : string)
    : EpochTransitionPayload :=
  {| t_schema := "viewport.epoch_transition/v1"; t_workspaceId := u_workspaceId previous; t_subjectType := "user";
     t_subjectId := u_userId previous; t_fromEpoch := u_epoch previous;
     t_fromEpochFingerprint := epochFingerprint (user_descriptor previous); t_toEpoch := d_epoch d;
     t_toEpochFingerprint := epochFingerprint d; t_reason := reason; t_createdAt := createdAt |}.

(** The transition to [d] and its signature. *)
Lemma transition_signed previous d reason createdAt :
  ed_pair {| kp_public := signingPublicKeyJwk (u_keys previous); kp_private := signingPrivateKeyJwk (u_keys previous) |} →
  d_workspaceId d = u_workspaceId previous → d_subjectType d = "user" → d_subjectId d = u_userId previous →
  d_epoch d = num_add (u_epoch previous) (num_of_Z 1) → is_nan (d_epoch d) = false →
  let t := transition_of previous d reason createdAt in
  epochTransitionPayload (user_descriptor previous) d reason createdAt = Ok t ∧
  ∃ s, ed_verify (signingPublicKeyJwk (u_keys previous)) (canonicalJson (transition_json t)) s = Some true ∧ toBase64Url s ≠ "" ∧
    signEpochTransition t (signingPrivateKeyJwk (u_keys previous)) (u_fingerprint previous) =
      Ok {| s_payload := t; s_signature := toBase64Url s; s_signedByEpochFingerprint := u_fingerprint previous |}.
Proof.
  intros Hed Hw Ht Hu Ee Hn t. split.
  - unfold epochTransitionPayload.
    rewrite (proj2 (String.eqb_eq (d_workspaceId (user_descriptor previous)) (d_workspaceId d))),
      (proj2 (String.eqb_eq (d_subjectType (user_descriptor previous)) (d_subjectType d))),
      (proj2 (String.eqb_eq (d_subjectId (user_descriptor previous)) (d_subjectId d))) by done.
    assert (num_eq (d_epoch d) (num_add (d_epoch (user_descriptor previous)) (num_of_Z 1)) = true) as ->
      by (cbn [user_descriptor d_epoch]; rewrite <- Ee; by apply num_eq_refl).
    reflexivity.
  - destruct (ed_total _ (canonicalJson (transition_json t)) Hed) as [s Es]. exists s.
    split; [by apply (ed_correct _ _ _ Hed)|]. split; [by eapply ed_text|].
    unfold signEpochTransition, sign_json. cbn [kp_private] in Es. rewrite Es. reflexivity.
Qed.

(** What the feed says of a published epoch is read as it was published. *)
Lemma feed_read ws user f cred d previous c x y : nonblank ws = true →
  published ws user (rotation_body cred d previous c) f →
  d_encryptionPublicKeyJwk d = okp_public "X25519" x → d_signingPublicKeyJwk d = okp_public "Ed25519" y →
  ∃ id fp, fp = epochFingerprint {| d_schema := USER_EPOCH_SCHEMA; d_workspaceId := ws; d_subjectType := "user"; d_subjectId := user;
      d_epoch := d_epoch d; d_encryptionPublicKeyJwk := okp_public "X25519" x; d_signingPublicKeyJwk := okp_public "Ed25519" y;
      d_previousEpochFingerprint := Some previous; d_createdAt := "" |} ∧
  publicUserEpochPayload (JObj f) = Ok
    {| pu_id := id; pu_workspace_id := ws; pu_user_id := user; pu_epoch := d_epoch d; pu_fingerprint := fp;
       pu_encryption_public_key_jwk := okp_public "X25519" x; pu_signing_public_key_jwk := okp_public "Ed25519" y;
       pu_previous_epoch_fingerprint := Some previous; pu_continuity_payload := Some (transition_json (s_payload c));
       pu_continuity_signature := Some (s_signature c);
       pu_signed_by_epoch_fingerprint := Some (s_signedByEpochFingerprint c) |}.
Proof.
  intros Hws [(id & Fid & Hid) Fws Fuser Fsame Fcont Ffp] Ex Ey. exists id. eexists. split; [reflexivity|].
  destruct (Fcont _ eq_refl) as (Fp & Fs & Fb). clear Fcont.
  pose proof (Fsame "epoch" ltac:(set_solver)) as Fe. pose proof (Fsame "encryption_public_key_jwk" ltac:(set_solver)) as Fenc.
  pose proof (Fsame "signing_public_key_jwk" ltac:(set_solver)) as Fsig.
  pose proof (Fsame "previous_epoch_fingerprint" ltac:(set_solver)) as Fprev. clear Fsame.
  cbn in Fe, Fenc, Fsig, Fprev, Fp, Fs, Fb. rewrite Ex in Fenc. rewrite Ey in Fsig. specialize (Ffp _ _ _ _ Fe Fenc Fsig Fprev).
  unfold publicUserEpochPayload. cbn [read_record as_record or_throw mbind result_bind].
  rewrite (read_string_ok _ f "id" id), (read_string_ok _ f "workspace_id" ws), (read_number_ok _ f "epoch" (d_epoch d)) by done.
  assert (read_id grant_messages f "user_id" = Ok user) as -> by (unfold read_id; by rewrite Fuser).
  rewrite (read_string_ok _ f "fingerprint" _ Ffp (fingerprint_nonblank _)).
  rewrite (read_object_ok _ f "encryption_public_key_jwk" [("crv", JStr "X25519"); ("x", JStr x); ("kty", JStr "OKP")]) by done.
  rewrite (read_object_ok _ f "signing_public_key_jwk" [("crv", JStr "Ed25519"); ("x", JStr y); ("kty", JStr "OKP")]) by done.
  cbn [mbind result_bind]. unfold text_or_null. rewrite Fp, Fs, Fb, Fprev. reflexivity.
Qed.

(** A signed transition from the pin is accepted. *)
Lemma continuity_accepted p e t s : e_previousEpochFingerprint e = Some (p_fingerprint p) →
  e_continuityPayload e = Some (transition_json t) → e_continuitySignature e = Some (toBase64Url s) → toBase64Url s ≠ "" →
  e_signedByEpochFingerprint e = Some (p_fingerprint p) → readTransitionPayload (transition_json t) = Ok t →
  t_fromEpochFingerprint t = p_fingerprint p → t_toEpochFingerprint t = e_fingerprint e →
  ed_verify (p_signingPublicKeyJwk p) (canonicalJson (transition_json t)) s = Some true →
  assertSignedContinuity p e = Ok ().
Proof.
  intros E1 E2 E3 Hs E4 Hr E5 E6 Hv. unfold assertSignedContinuity. rewrite E1, E2, E3, E4.
  unfold option_eqb. rewrite bool_decide_eq_true_2 by done. rewrite (proj2 (truthy_str_true _)) by done.
  cbn [require mbind result_bind truthy_json transition_json andb coalesce default]. fold (transition_json t). rewrite Hr.
  cbn [mbind result_bind]. unfold verifyEpochTransition. cbn [s_payload s_signature s_signedByEpochFingerprint].
  rewrite E5, E6, !String.eqb_refl, base64_round_trip. cbn [negb]. rewrite Hv. reflexivity.
Qed.

(** [p] pins the epoch [e]. *)
Definition pins (p : LocalPublicEpochPin) (e : LocalUserCryptoEpoch) : Prop :=
  p_fingerprint p = u_fingerprint e ∧ p_epoch p = u_epoch e ∧ p_signingPublicKeyJwk p = signingPublicKeyJwk (u_keys e).

(** What a rotation sends. *)
Section Sent.
Variable env : Env (list HttpRequest).
(** The platform keeps the requests in order; it may answer anything. *)
Hypothesis recorded : ∀ q s, (serve env q s).2 = s ++ [q].

Definition keeps_server {A} (x : M (list HttpRequest) A) : Prop := ∀ w, server (x w).2 = server w.
Lemma keeps_server_bind {A B} (x : M _ A) (f : A → M _ B) : keeps_server x → (∀ a, keeps_server (f a)) → keeps_server (x ≫= f).
Proof.
  intros Hx Hf w. unfold mbind, M_bind. pose proof (Hx w) as Hw. destruct (x w) as [[a|m] w']; [|done]. by rewrite Hf.
Qed.
Lemma keeps_server_writes {A} (f : file → result (A * file)) : keeps_server (writes f).
Proof. intros w. unfold writes. by destruct (f (disk w)) as [[]|]. Qed.

Lemma post_sends {B} prefix url body (f : json → M _ B) w : (∀ v, keeps_server (f v)) →
  server ((postJson env prefix url body ≫= f) w).2 =
    server w ++ [{| q_method := "POST"; q_url := url; q_credential := None; q_body := Some (JObj body) |}].
Proof.
  intros Hf. set (q := {| q_method := _; q_url := _; q_credential := _; q_body := _ |}). unfold postJson. fold q.
  pose proof (recorded q (server w)) as Hr. unfold mbind, M_bind, fetchImpl.
  destruct (serve env q (server w)) as [[r|] s]; [|done]. simpl in Hr. unfold answered.
  destruct (r_ok r); [|done]. cbn [mret M_ret]. by rewrite Hf.
Qed.

Lemma bind_step {A B} (x : M (list HttpRequest) A) (f : A → M _ B) w a w1 : x w = (Ok a, w1) → (x ≫= f) w = f a w1.
Proof. intros E. unfold mbind, M_bind. by rewrite E. Qed.

(** The request of a rotation: the next epoch with the keys drawn, and the transition
    signed by the epoch before. *)
Lemma rotation_sent t reason w previous :
  getActiveLocalUserEpoch (workspaceId t) (disk w) = Ok (Some previous) →
  ed_pair {| kp_public := signingPublicKeyJwk (u_keys previous); kp_private := signingPrivateKeyJwk (u_keys previous) |} →
  is_nan (num_add (u_epoch previous) (num_of_Z 1)) = false →
  ∃ d s now createdAt,
    d = (createLocalUserEpochKeyMaterial (x_key env (drawn w)) (ed_key env (S (drawn w))) (u_workspaceId previous)
           (Some (u_userId previous)) (Some (num_add (u_epoch previous) (num_of_Z 1))) (Some (u_fingerprint previous)) now).1 ∧
    createdAt = clock env (S (S (S (drawn w)))) ∧
    let x := transition_of previous d reason createdAt in
    ed_verify (signingPublicKeyJwk (u_keys previous)) (canonicalJson (transition_json x)) s = Some true ∧ toBase64Url s ≠ "" ∧
    server (rotateUserCryptoEpoch env t reason w).2 = server w ++ [
      {| q_method := "POST"; q_url := user_epochs_url t; q_credential := None;
         q_body := Some (JObj (rotation_body (credential t) d (u_fingerprint previous)
           {| s_payload := x; s_signature := toBase64Url s; s_signedByEpochFingerprint := u_fingerprint previous |})) |}].
Proof.
  intros Hp Hed Hn. destruct (active_status _ _ _ Hp) as [Ews _].
  set (now := clock env (S (S (drawn w)))). set (createdAt := clock env (S (S (S (drawn w))))).
  set (d := (createLocalUserEpochKeyMaterial (x_key env (drawn w)) (ed_key env (S (drawn w))) (u_workspaceId previous)
           (Some (u_userId previous)) (Some (num_add (u_epoch previous) (num_of_Z 1))) (Some (u_fingerprint previous)) now).1).
  destruct (transition_signed previous d reason createdAt Hed) as [Et (s & Hv & Hs & Esign)]; [done..|].
  exists d, s, now, createdAt. split; [done|]. split; [done|]. intros x. split; [done|]. split; [done|].
  unfold rotateUserCryptoEpoch. erewrite bind_step by (unfold reads; rewrite Hp; reflexivity).
  do 4 (erewrite bind_step by reflexivity). cbn [createLocalUserEpochKeyMaterial]. erewrite bind_step by reflexivity.
  rewrite <- Ews. 
  match goal with |- context [epochTransitionPayload _ ?d' reason ?c'] => change d' with d; change c' with createdAt end.
  erewrite bind_step by (unfold lift; rewrite Et; reflexivity).
  erewrite bind_step by (unfold lift; rewrite Esign; reflexivity).
  rewrite post_sends; [reflexivity|]. intros v.
  apply keeps_server_bind; [done|]. intros data. apply keeps_server_bind; [done|]. intros input.
  apply keeps_server_bind; [done|]. intros stored. apply keeps_server_writes.
Qed.
End Sent.

(** C36: A rotation is accepted by everyone who pinned the epoch before it.  If the pin is
    the active epoch this device rotates, whose fingerprint is that of its descriptor and
    whose signing keys belong together, and the keys drawn are key pairs, then
    [rotateUserCryptoEpoch] sends one request, and whatever the platform answers: an entry
    of the feed that repeats what was sent, with the fingerprint of the epoch it describes,
    is read and passes every check against the pin: fingerprint, number, continuity and
    signature; and it has the keys just drawn. *)
Theorem rotation_accepted env t reason w previous d p :
  (∀ q s, (serve env q s).2 = s ++ [q]) →
  getActiveLocalUserEpoch (workspaceId t) (disk w) = Ok (Some previous) → storable previous →
  u_fingerprint previous = epochFingerprint (user_descriptor previous) →
  ed_pair {| kp_public := signingPublicKeyJwk (u_keys previous); kp_private := signingPrivateKeyJwk (u_keys previous) |} →
  x_pair (x_key env (drawn w)) → ed_pair (ed_key env (S (drawn w))) →
  num_lt (u_epoch previous) (num_add (u_epoch previous) (num_of_Z 1)) = true →
  nonblank (clock env (S (S (S (drawn w))))) = true → reason ∈ REASONS →
  getLocalPublicEpochPin (u_workspaceId previous) "user" (u_userId previous) d = Ok (Some p) → pins p previous →
  ∃ body, server (rotateUserCryptoEpoch env t reason w).2 = server w ++
      [{| q_method := "POST"; q_url := user_epochs_url t; q_credential := None; q_body := Some (JObj body) |}] ∧
    ∀ f, published (u_workspaceId previous) (u_userId previous) body f → ∃ e,
      publicUserEpochPayload (JObj f) = Ok e ∧ checkPublicEpoch (public_epoch_of e) d = Ok () ∧
      pu_encryption_public_key_jwk e = kp_public (x_key env (drawn w)) ∧
      pu_signing_public_key_jwk e = kp_public (ed_key env (S (drawn w))).
Proof.
  intros Hrec Hact Hs Hfp Hed Hx Hed' Hlt Hnow Hreason Hp (P1 & P2 & P3).
  assert (is_nan (num_add (u_epoch previous) (num_of_Z 1)) = false) as Nn.
  { destruct (is_nan _) eqn:E; [exfalso|done]. destruct (num_add _ _); try done. by destruct (u_epoch previous). }
  destruct (x_public_form _ Hx) as [x Ex], (ed_public_form _ Hed') as [y Ey].
  destruct (rotation_sent env Hrec t reason w previous Hact Hed Nn) as (new & s & now & createdAt & Enew & Ecr & Hv & Hs' & Hsent).
  eexists. split; [exact Hsent|]. intros f Hf. set (tr := transition_of previous new reason createdAt) in *.
  apply (feed_read _ _ _ _ _ _ _ x y (so_workspace _ Hs)) in Hf as (id & fp & Efp & Ep); [|by rewrite Enew..].
  eexists. split; [exact Ep|]. split; [|by rewrite Ex, Ey]. unfold checkPublicEpoch. set (e := public_epoch_of _).
  assert (fp = epochFingerprint new) as Efp'.
  { rewrite Efp, Enew. unfold epochFingerprint, descriptor_json. simpl. by rewrite Ex, Ey. }
  assert (epochFingerprint (publicEpochDescriptor e) = epochFingerprint new) as ->.
  { rewrite <- Efp', Efp. reflexivity. }
  change (e_fingerprint e) with fp. rewrite Efp', String.eqb_refl. cbn [require mbind result_bind].
  change (getLocalPublicEpochPin _ _ _ d) with (getLocalPublicEpochPin (u_workspaceId previous) "user" (u_userId previous) d).
  rewrite Hp. cbn [mbind result_bind]. change (e_epoch e) with (d_epoch new). rewrite P2.
  assert (d_epoch new = num_add (u_epoch previous) (num_of_Z 1)) as Eep by by rewrite Enew. rewrite Eep.
  assert (is_nan (u_epoch previous) = false) as Np by by destruct (u_epoch previous).
  assert (num_lt (num_add (u_epoch previous) (num_of_Z 1)) (u_epoch previous) = false) as -> by
    (num_order; by eapply place_lt_irrefl, place_lt_trans).
  assert (num_eq (num_add (u_epoch previous) (num_of_Z 1)) (u_epoch previous) = false) as ->.
  { apply not_true_iff_false. intros E. apply num_eq_place in E; [|done..]. num_order. rewrite E in Hlt. by eapply place_lt_irrefl. }
  rewrite Hlt. cbn [require mbind result_bind negb andb].
  apply (continuity_accepted p e tr s); subst e; simpl; rewrite ?P1, ?P3; try done.
  apply transition_read; simpl; try done; [apply so_workspace, Hs|by left|apply so_user, Hs|rewrite <- Hfp; apply so_fingerprint, Hs|
    apply fingerprint_nonblank|by rewrite Ecr].
Qed.
End Rotation.
