(* ===== verification/EpochRecovery.v ===== *)
(** * Recovering a user epoch from a backup (packages/daemon/src/security/epoch-recovery.ts)

    The keys of the active epoch are encrypted under a recovery key the user keeps and
    given to the platform ([createUserEpochRecoveryBackup]); a device without them gets
    the backup back, stores the epoch, rotates it and makes a new backup
    ([restoreUserEpochFromRecoveryBackup]).  [recovery_restores] states that what was
    backed up is what is restored. *)

From S2P Require Import Prelude JsString JsMap Json JsonText JsonStringify JsNumber CanonicalJson Noise EpochProtocol EpochStore Routing EpochClient EpochSync EpochEnrollment EpochProps.
From stdpp Require Import prelude strings list.
From Stdlib Require Import ZArith Lia Floats.SpecFloat.

Definition USER_EPOCH_RECOVERY_BACKUP_SCHEMA : string := "viewport.user_epoch_recovery_backup/v1".
Definition USER_EPOCH_RECOVERY_PAYLOAD_SCHEMA : string := "viewport.user_epoch_recovery_payload/v1".
Definition USER_EPOCH_RECOVERY_ENVELOPE_SCHEMA : string := "viewport.user_epoch_recovery_envelope/v1".
Definition RECOVERY_KDF : string := "scrypt-sha256/v1".

Definition recovery_messages : Messages := {|
  msg_object := λ _, "Expected recovery backup object.";
  msg_field := λ name, "Recovery backup response did not include " +:+ name;
  msg_nested := λ name, "Recovery backup response did not include " +:+ name;
  msg_number := λ name, "Recovery backup response did not include numeric " +:+ name;
  msg_array := λ name, "Recovery backup response did not include " +:+ name
|}.

Definition recovery_error : string := "Recovery backup sync failed: ".

Record RecoveryKdfParams := { k_salt : string; k_keyLength : spec_float; k_N : spec_float; k_r : spec_float; k_p : spec_float }.

Record RecoveryEnvelope := {
  re_aad : json; re_iv : string; re_ciphertext : string; re_tag : string; re_aadDigest : string; re_createdAt : string
}.

Record RecoveryBackupPayload := {
  rp_workspaceId : string; rp_userId : string; rp_userCryptoEpochId : string; rp_userEpochFingerprint : string;
  rp_epoch : LocalUserCryptoEpoch
}.

Record UserKeyBackupResponse := {
  kb_id : string; kb_workspace_id : string; kb_user_id : string; kb_user_crypto_epoch_id : string; kb_status : string;
  kb_kdf_params : RecoveryKdfParams; kb_encrypted_payload : RecoveryEnvelope; kb_created_at : option string
}.

(** scryptSync: password, salt, length, N, r and p; [None] where it throws. *)
Class Scrypt := { scryptSync : string → string → spec_float → spec_float → spec_float → spec_float → option string }.

(** The parameters this code chooses are within Node's limits. *)
Class ScryptLaws `{Scrypt} : Prop := {
  scrypt_chosen : ∀ key salt, is_Some (scryptSync key salt (num_of_Z 32) (num_of_Z 32768) (num_of_Z 8) (num_of_Z 1))
}.

(** ** Values as JSON *)

Definition kdf_json (k : RecoveryKdfParams) : json :=
  JObj [("salt", JStr (k_salt k)); ("keyLength", JNum (k_keyLength k)); ("N", JNum (k_N k)); ("r", JNum (k_r k)); ("p", JNum (k_p k))].

Definition recovery_envelope_json (e : RecoveryEnvelope) : json :=
  JObj [("schema", JStr USER_EPOCH_RECOVERY_ENVELOPE_SCHEMA); ("alg", JStr "aes-256-gcm"); ("aad", re_aad e); ("iv", JStr (re_iv e));
        ("ciphertext", JStr (re_ciphertext e)); ("tag", JStr (re_tag e)); ("aadDigest", JStr (re_aadDigest e));
        ("createdAt", JStr (re_createdAt e))].

Definition epoch_json (e : LocalUserCryptoEpoch) : json :=
  JObj [("workspaceId", JStr (u_workspaceId e)); ("userId", JStr (u_userId e)); ("platformEpochId", nullable (u_platformEpochId e));
        ("epoch", JNum (u_epoch e)); ("schema", JStr (u_schema e)); ("status", JStr "active");
        ("encryptionPublicKeyJwk", encryptionPublicKeyJwk (u_keys e));
        ("encryptionPrivateKeyJwk", encryptionPrivateKeyJwk (u_keys e));
        ("signingPublicKeyJwk", signingPublicKeyJwk (u_keys e));
        ("signingPrivateKeyJwk", signingPrivateKeyJwk (u_keys e)); ("fingerprint", JStr (u_fingerprint e));
        ("previousEpochFingerprint", nullable (u_previousEpochFingerprint e))].

Definition payload_json (p : RecoveryBackupPayload) : json :=
  JObj [("schema", JStr USER_EPOCH_RECOVERY_PAYLOAD_SCHEMA); ("workspaceId", JStr (rp_workspaceId p)); ("userId", JStr (rp_userId p));
        ("userCryptoEpochId", JStr (rp_userCryptoEpochId p)); ("userEpochFingerprint", JStr (rp_userEpochFingerprint p));
        ("epoch", epoch_json (rp_epoch p))].

Definition recoveryAad (p : RecoveryBackupPayload) : json :=
  JObj [("schema", JStr USER_EPOCH_RECOVERY_BACKUP_SCHEMA); ("workspaceId", JStr (rp_workspaceId p)); ("userId", JStr (rp_userId p));
        ("userCryptoEpochId", JStr (rp_userCryptoEpochId p)); ("userEpochFingerprint", JStr (rp_userEpochFingerprint p))].

(** ** Reading *)

Definition expectLiteral (value expected label : string) : result string :=
  if String.eqb value expected then Ok expected else Throw ("Unsupported " +:+ label +:+ ": " +:+ value).

Definition recoveryKdfParamsResponse (f : record) : result RecoveryKdfParams :=
  salt ← read_string recovery_messages f "salt";
  len ← read_number recovery_messages f "keyLength";
  n ← read_number recovery_messages f "N";
  r ← read_number recovery_messages f "r";
  p ← read_number recovery_messages f "p";
  Ok {| k_salt := salt; k_keyLength := len; k_N := n; k_r := r; k_p := p |}.

Definition recoveryEnvelope (f : record) : result RecoveryEnvelope :=
  schema ← read_string recovery_messages f "schema";
  _ ← expectLiteral schema USER_EPOCH_RECOVERY_ENVELOPE_SCHEMA "recovery envelope schema";
  alg ← read_string recovery_messages f "alg";
  _ ← expectLiteral alg "aes-256-gcm" "recovery envelope algorithm";
  iv ← read_string recovery_messages f "iv";
  ciphertext ← read_string recovery_messages f "ciphertext";
  tag ← read_string recovery_messages f "tag";
  digest ← read_string recovery_messages f "aadDigest";
  createdAt ← read_string recovery_messages f "createdAt";
  Ok {| re_aad := default JNull (field f "aad"); re_iv := iv; re_ciphertext := ciphertext; re_tag := tag; re_aadDigest := digest;
        re_createdAt := createdAt |}.

Definition userKeyBackupResponse (v : json) : result UserKeyBackupResponse :=
  data ← read_object recovery_messages v "data";
  schema ← read_string recovery_messages data "schema";
  kdf ← read_string recovery_messages data "kdf";
  _ ← require (String.eqb schema USER_EPOCH_RECOVERY_BACKUP_SCHEMA) ("Unsupported recovery backup schema: " +:+ schema);
  _ ← require (String.eqb kdf RECOVERY_KDF) ("Unsupported recovery backup KDF: " +:+ kdf);
  id ← read_string recovery_messages data "id";
  ws ← read_string recovery_messages data "workspace_id";
  user ← read_id recovery_messages data "user_id";
  epoch ← read_string recovery_messages data "user_crypto_epoch_id";
  status ← read_string recovery_messages data "status";
  kdf_params ← read_object recovery_messages (JObj data) "kdf_params";
  params ← recoveryKdfParamsResponse kdf_params;
  encrypted ← read_object recovery_messages (JObj data) "encrypted_payload";
  envelope ← recoveryEnvelope encrypted;
  Ok {| kb_id := id; kb_workspace_id := ws; kb_user_id := user; kb_user_crypto_epoch_id := epoch; kb_status := status;
        kb_kdf_params := params; kb_encrypted_payload := envelope; kb_created_at := as_string (field data "created_at") |}.

Definition localUserEpochPayload (data : record) : result LocalUserCryptoEpoch :=
  ws ← read_string recovery_messages data "workspaceId";
  user ← read_string recovery_messages data "userId";
  epoch ← read_number recovery_messages data "epoch";
  encPub ← read_object recovery_messages (JObj data) "encryptionPublicKeyJwk";
  encPriv ← read_object recovery_messages (JObj data) "encryptionPrivateKeyJwk";
  sigPub ← read_object recovery_messages (JObj data) "signingPublicKeyJwk";
  sigPriv ← read_object recovery_messages (JObj data) "signingPrivateKeyJwk";
  fp ← read_string recovery_messages data "fingerprint";
  Ok {| u_workspaceId := ws; u_userId := user; u_platformEpochId := as_string (field data "platformEpochId"); u_epoch := epoch;
        u_schema := USER_EPOCH_SCHEMA; u_status := active;
        u_keys := {| encryptionPublicKeyJwk := JObj encPub; encryptionPrivateKeyJwk := JObj encPriv;
                     signingPublicKeyJwk := JObj sigPub; signingPrivateKeyJwk := JObj sigPriv |};
        u_fingerprint := fp; u_previousEpochFingerprint := as_string (field data "previousEpochFingerprint");
        u_createdAt := ""; u_updatedAt := "" |}.

Definition recoveryBackupPayload (v : json) : result RecoveryBackupPayload :=
  data ← read_record recovery_messages v "";
  schema ← read_string recovery_messages data "schema";
  _ ← expectLiteral schema USER_EPOCH_RECOVERY_PAYLOAD_SCHEMA "recovery payload schema";
  ws ← read_string recovery_messages data "workspaceId";
  user ← read_string recovery_messages data "userId";
  id ← read_string recovery_messages data "userCryptoEpochId";
  fp ← read_string recovery_messages data "userEpochFingerprint";
  epoch ← read_object recovery_messages (JObj data) "epoch";
  e ← localUserEpochPayload epoch;
  Ok {| rp_workspaceId := ws; rp_userId := user; rp_userCryptoEpochId := id; rp_userEpochFingerprint := fp; rp_epoch := e |}.

Section Recovery.
Context `{Crypto} `{EpochKeys} `{Scrypt} {Srv : Type}.
Variable env : Env Srv.
Notation M := (M Srv).

Definition generateUserEpochRecoveryKey (random : string) : string := "vprk_" +:+ toBase64Url random.

Definition deriveRecoveryKey (recoveryKey : string) (k : RecoveryKdfParams) : result string :=
  or_throw (scryptSync recoveryKey (fromBase64Url (k_salt k)) (k_keyLength k) (k_N k) (k_r k) (k_p k)) crypto_error.

Definition recoveryKdfParams (random : string) : RecoveryKdfParams :=
  {| k_salt := toBase64Url random; k_keyLength := num_of_Z 32; k_N := num_of_Z 32768; k_r := num_of_Z 8; k_p := num_of_Z 1 |}.

Definition encryptRecoveryPayload (recoveryKey : string) (k : RecoveryKdfParams) (aad : json) (p : RecoveryBackupPayload)
    (iv createdAt : string) : result RecoveryEnvelope :=
  key ← deriveRecoveryKey recoveryKey k;
  let '(ciphertext, tag) := aes_seal key iv (canonicalJson aad) (canonicalJson (payload_json p)) in
  Ok {| re_aad := aad; re_iv := toBase64Url iv; re_ciphertext := toBase64Url ciphertext; re_tag := toBase64Url tag;
        re_aadDigest := fingerprintPayload aad; re_createdAt := createdAt |}.

(** The schema and algorithm of the envelope were checked when it was read. *)
Definition decryptRecoveryPayload (recoveryKey : string) (k : RecoveryKdfParams) (e : RecoveryEnvelope)
    : result RecoveryBackupPayload :=
  key ← deriveRecoveryKey recoveryKey k;
  plaintext ← or_throw (aes_open key (fromBase64Url (re_iv e)) (canonicalJson (re_aad e)) (fromBase64Url (re_ciphertext e))
                          (fromBase64Url (re_tag e))) crypto_error;
  v ← or_throw (JSON_parse plaintext) "SyntaxError";
  payload ← recoveryBackupPayload v;
  _ ← require (String.eqb (re_aadDigest e) (fingerprintPayload (recoveryAad payload))) "Recovery backup AAD mismatch.";
  Ok payload.

(** What a backup of an epoch holds. *)
Definition payload_of (e : LocalUserCryptoEpoch) : RecoveryBackupPayload :=
  {| rp_workspaceId := u_workspaceId e; rp_userId := u_userId e; rp_userCryptoEpochId := coalesce (u_platformEpochId e) "";
     rp_userEpochFingerprint := u_fingerprint e; rp_epoch := e |}.

Definition backup_body (cred : string) (e : LocalUserCryptoEpoch) (k : RecoveryKdfParams) (w : RecoveryEnvelope) : record :=
  [("credential", JStr cred); ("schema", JStr USER_EPOCH_RECOVERY_BACKUP_SCHEMA);
   ("user_crypto_epoch_id", nullable (u_platformEpochId e)); ("kdf", JStr RECOVERY_KDF); ("kdf_params", kdf_json k);
   ("encrypted_payload", recovery_envelope_json w)].

Definition backups_url (t : CryptoEpochSyncTarget) : string := runtimeBaseUrl t +:+ "/crypto/user-key-backups".

Definition createUserEpochRecoveryBackup (t : CryptoEpochSyncTarget) (recoveryKey : string) : M UserKeyBackupResponse :=
  found ← reads (getActiveLocalUserEpoch (workspaceId t));
  epoch ← lift (or_throw (e ← found; if truthy_opt (u_platformEpochId e) then Some e else None)
                  "Active local user epoch with platform id is required before backup.");
  salt ← draw (random_text env); iv ← draw (random_text env); createdAt ← draw (clock env);
  let k := recoveryKdfParams salt in
  encrypted ← lift (encryptRecoveryPayload recoveryKey k (recoveryAad (payload_of epoch)) (payload_of epoch) iv createdAt);
  response ← postJson env recovery_error (backups_url t) (backup_body (credential t) epoch k encrypted);
  lift (userKeyBackupResponse response).

(** The epoch in a backup, once it has been checked against the backup's metadata. *)
Definition recovered_epoch (ws recoveryKey : string) (b : UserKeyBackupResponse) : result LocalUserCryptoEpoch :=
  payload ← decryptRecoveryPayload recoveryKey (kb_kdf_params b) (kb_encrypted_payload b);
  _ ← require (String.eqb (rp_workspaceId payload) ws && String.eqb (rp_userCryptoEpochId payload) (kb_user_crypto_epoch_id b) &&
               String.eqb (rp_userEpochFingerprint payload) (u_fingerprint (rp_epoch payload)))
        "Recovery backup payload does not match the backup metadata.";
  Ok (rp_epoch payload).

(** backup, restoredEpoch, rotatedEpoch and rotatedBackup. *)
Definition restoreUserEpochFromRecoveryBackup (t : CryptoEpochSyncTarget) (recoveryKey : string)
    : M (UserKeyBackupResponse * LocalUserCryptoEpoch * LocalUserCryptoEpoch * UserKeyBackupResponse) :=
  response ← getJson env recovery_error (backups_url t +:+ "/latest") (credential t);
  backup ← lift (userKeyBackupResponse response);
  epoch ← lift (recovered_epoch (workspaceId t) recoveryKey backup);
  now ← draw (clock env);
  restoredEpoch ← writes (upsertLocalUserEpoch epoch now);
  rotatedEpoch ← rotateUserCryptoEpoch env t "recovery";
  rotatedBackup ← createUserEpochRecoveryBackup t recoveryKey;
  mret (backup, restoredEpoch, rotatedEpoch, rotatedBackup).
End Recovery.

(** ** What is restored *)

(** The answer of a platform that keeps a backup as it was given. *)
Definition kept_backup (id ws user : string) (body : record) : json :=
  JObj [("data", JObj ([("id", JStr id); ("workspace_id", JStr ws); ("user_id", JStr user); ("status", JStr "active")] ++ body))].

Section Restoring.
Context `{CryptoLaws} `{!EpochKeys} `{!Scrypt} `{!ScryptLaws}.

Lemma expectLiteral_refl v label : expectLiteral v v label = Ok v.
Proof. unfold expectLiteral. by rewrite String.eqb_refl. Qed.

Lemma epoch_plain e : storable e → plain (epoch_json e) = true.
Proof.
  intros Hs. destruct (so_id _ Hs) as (id & Eid & _), (so_plain _ Hs) as (P1 & P2 & P3 & P4).
  pose proof (so_number _ Hs). unfold epoch_json. apply plain_object.
  split; [apply (bool_decide_unpack _); vm_compute; exact I|]. rewrite Eid. intros k v Hin.
  repeat (apply elem_of_cons in Hin as [[= -> ->]|Hin]; [done|]). apply list_elem_of_singleton in Hin as [= -> ->].
  by destruct (u_previousEpochFingerprint e).
Qed.

Lemma payload_plain e : storable e → plain (payload_json (payload_of e)) = true.
Proof.
  intros Hs. apply plain_object. split; [apply (bool_decide_unpack _); vm_compute; exact I|]. intros k v Hin.
  repeat (apply elem_of_cons in Hin as [[= -> ->]|Hin]; [done|]). apply list_elem_of_singleton in Hin as [= -> ->].
  by apply epoch_plain.
Qed.

(** What is read in the epoch of a backup. *)
Lemma epoch_read e : storable e → ∃ m f, canonicalize (epoch_json e) = JObj f ∧ localUserEpochPayload f = Ok m ∧
  u_workspaceId m = u_workspaceId e ∧ u_userId m = u_userId e ∧ u_platformEpochId m = u_platformEpochId e ∧
  u_epoch m = u_epoch e ∧ u_fingerprint m = u_fingerprint e ∧ u_schema m = u_schema e ∧ u_status m = active ∧
  u_previousEpochFingerprint m = u_previousEpochFingerprint e ∧ same_keys (u_keys e) (u_keys m).
Proof.
  intros Hs. destruct (canonicalize_field _ (epoch_plain e Hs)) as (g & E & Hg). fold (epoch_json e) in E.
  destruct (so_plain _ Hs) as (P1 & P2 & P3 & P4), (so_objects _ Hs) as (O1 & O2 & O3 & O4).
  destruct (canonical_object _ P1 O1) as (f1 & C1 & S1), (canonical_object _ P2 O2) as (f2 & C2 & S2).
  destruct (canonical_object _ P3 O3) as (f3 & C3 & S3), (canonical_object _ P4 O4) as (f4 & C4 & S4).
  assert (field g "workspaceId" = Some (JStr (u_workspaceId e))) as F1 by (rewrite Hg by done; reflexivity).
  assert (field g "userId" = Some (JStr (u_userId e))) as F2 by (rewrite Hg by done; reflexivity).
  assert (field g "epoch" = Some (JNum (u_epoch e))) as F4 by (rewrite Hg by done; reflexivity).
  assert (field g "fingerprint" = Some (JStr (u_fingerprint e))) as F5 by (rewrite Hg by done; reflexivity).
  assert (field g "encryptionPublicKeyJwk" = Some (JObj f1)) as F6 by (rewrite Hg, <- C1 by done; reflexivity).
  assert (field g "encryptionPrivateKeyJwk" = Some (JObj f2)) as F7 by (rewrite Hg, <- C2 by done; reflexivity).
  assert (field g "signingPublicKeyJwk" = Some (JObj f3)) as F8 by (rewrite Hg, <- C3 by done; reflexivity).
  assert (field g "signingPrivateKeyJwk" = Some (JObj f4)) as F9 by (rewrite Hg, <- C4 by done; reflexivity).
  assert (∀ o : option string, as_string (Some (canonicalize (nullable o))) = o) as Hnull by by intros [].
  assert (as_string (field g "platformEpochId") = u_platformEpochId e) as F3 by (rewrite Hg by done; apply Hnull).
  assert (as_string (field g "previousEpochFingerprint") = u_previousEpochFingerprint e) as F10 by (rewrite Hg by done; apply Hnull).
  eexists _, g. split; [exact E|]. unfold localUserEpochPayload.
  pose proof (so_workspace _ Hs). pose proof (so_user _ Hs). pose proof (so_fingerprint _ Hs).
  rewrite (read_string_ok _ _ _ _ F1), (read_string_ok _ _ _ _ F2), (read_number_ok _ _ _ _ F4),
    (read_string_ok _ _ _ _ F5), (read_object_ok _ _ _ _ F6), (read_object_ok _ _ _ _ F7), (read_object_ok _ _ _ _ F8),
    (read_object_ok _ _ _ _ F9), F3, F10 by done.
  split; [reflexivity|]. rewrite (so_schema _ Hs). split_and!; first [assumption|reflexivity|done].
Qed.

(** What is read in a backup. *)
Lemma payload_read e m f : storable e → canonicalize (epoch_json e) = JObj f → localUserEpochPayload f = Ok m →
  recoveryBackupPayload (canonicalize (payload_json (payload_of e))) =
  Ok {| rp_workspaceId := u_workspaceId e; rp_userId := u_userId e; rp_userCryptoEpochId := coalesce (u_platformEpochId e) "";
        rp_userEpochFingerprint := u_fingerprint e; rp_epoch := m |}.
Proof.
  intros Hs Ef Em. destruct (canonicalize_field _ (payload_plain e Hs)) as (g & E & Hg). unfold payload_json. rewrite E.
  destruct (so_id _ Hs) as (id & Eid & Hid).
  assert (field g "schema" = Some (JStr USER_EPOCH_RECOVERY_PAYLOAD_SCHEMA)) as F0 by (rewrite Hg by done; reflexivity).
  assert (field g "workspaceId" = Some (JStr (u_workspaceId e))) as F1 by (rewrite Hg by done; reflexivity).
  assert (field g "userId" = Some (JStr (u_userId e))) as F2 by (rewrite Hg by done; reflexivity).
  assert (field g "userCryptoEpochId" = Some (JStr (coalesce (u_platformEpochId e) ""))) as F3 by (rewrite Hg by done; reflexivity).
  assert (field g "userEpochFingerprint" = Some (JStr (u_fingerprint e))) as F4 by (rewrite Hg by done; reflexivity).
  assert (field g "epoch" = Some (JObj f)) as F5 by (rewrite Hg, <- Ef by done; reflexivity).
  pose proof (so_workspace _ Hs). pose proof (so_user _ Hs). pose proof (so_fingerprint _ Hs).
  assert (nonblank (coalesce (u_platformEpochId e) "") = true) by by rewrite Eid.
  unfold recoveryBackupPayload. cbn [read_record as_record or_throw mbind result_bind].
  rewrite (read_string_ok _ _ _ _ F0), (read_string_ok _ _ _ _ F1), (read_string_ok _ _ _ _ F2), (read_string_ok _ _ _ _ F3),
    (read_string_ok _ _ _ _ F4), (read_object_ok _ _ _ _ F5) by done.
  cbn [mbind result_bind]. rewrite expectLiteral_refl. cbn [mbind result_bind]. by rewrite Em.
Qed.

Lemma kdf_read k : nonblank (k_salt k) = true → ∃ f, kdf_json k = JObj f ∧ recoveryKdfParamsResponse f = Ok k.
Proof.
  intros Hk. eexists. split; [reflexivity|]. unfold recoveryKdfParamsResponse. set (f := [_; _; _; _; _]).
  rewrite (read_string_ok _ f "salt" (k_salt k)), (read_number_ok _ f "keyLength" (k_keyLength k)), (read_number_ok _ f "N" (k_N k)),
    (read_number_ok _ f "r" (k_r k)), (read_number_ok _ f "p" (k_p k)) by done.
  by destruct k.
Qed.

Definition texts_in (w : RecoveryEnvelope) : Prop := nonblank (re_iv w) = true ∧ nonblank (re_ciphertext w) = true ∧
  nonblank (re_tag w) = true ∧ nonblank (re_aadDigest w) = true ∧ nonblank (re_createdAt w) = true.

Lemma envelope_read w : texts_in w → ∃ f, recovery_envelope_json w = JObj f ∧ recoveryEnvelope f = Ok w.
Proof.
  intros (B1 & B2 & B3 & B4 & B5). eexists. split; [reflexivity|]. unfold recoveryEnvelope. set (f := [_; _; _; _; _; _; _; _]).
  rewrite (read_string_ok _ f "schema" USER_EPOCH_RECOVERY_ENVELOPE_SCHEMA), (read_string_ok _ f "alg" "aes-256-gcm"),
    (read_string_ok _ f "iv" (re_iv w)), (read_string_ok _ f "ciphertext" (re_ciphertext w)), (read_string_ok _ f "tag" (re_tag w)),
    (read_string_ok _ f "aadDigest" (re_aadDigest w)), (read_string_ok _ f "createdAt" (re_createdAt w)) by done.
  cbn [mbind result_bind]. rewrite !expectLiteral_refl. by destruct w.
Qed.

(** The body of a backup is read back from an answer that keeps it. *)
Lemma kept_read id ws user cred e k w : storable e → nonblank id = true → nonblank ws = true →
  nonblank (k_salt k) = true → texts_in w →
  userKeyBackupResponse (kept_backup id ws user (backup_body cred e k w)) =
  Ok {| kb_id := id; kb_workspace_id := ws; kb_user_id := user; kb_user_crypto_epoch_id := coalesce (u_platformEpochId e) "";
        kb_status := "active"; kb_kdf_params := k; kb_encrypted_payload := w; kb_created_at := None |}.
Proof.
  intros Hs Hid Hws Hk Hw. destruct (so_id _ Hs) as (pid & Eid & Hpid).
  destruct (kdf_read k Hk) as (fk & Ek & Rk), (envelope_read w Hw) as (fw & Ew & Rw).
  unfold userKeyBackupResponse, kept_backup, backup_body. rewrite Eid, Ek, Ew. cbn [app coalesce default nullable].
  set (data := [_; _; _; _; _; _; _; _; _; _]).
  rewrite (read_object_ok _ [("data", JObj data)] "data" data) by done. cbn [mbind result_bind].
  rewrite (read_string_ok _ data "schema" USER_EPOCH_RECOVERY_BACKUP_SCHEMA), (read_string_ok _ data "kdf" RECOVERY_KDF),
    (read_string_ok _ data "id" id), (read_string_ok _ data "workspace_id" ws), (read_string_ok _ data "user_crypto_epoch_id" pid),
    (read_string_ok _ data "status" "active") by done.
  cbn [mbind result_bind]. rewrite !String.eqb_refl. cbn [require mbind result_bind].
  assert (read_id recovery_messages data "user_id" = Ok user) as -> by reflexivity.
  rewrite (read_object_ok _ data "kdf_params" fk), (read_object_ok _ data "encrypted_payload" fw) by done.
  cbn [mbind result_bind]. rewrite Rk, Rw. reflexivity.
Qed.

(** A backup restores the epoch it was made of.  The active epoch of a device,
    encrypted under a recovery key, kept by the platform as it was given, and read by a
    device with the same recovery key, passes every check and is the same epoch: its id,
    number, fingerprints and all four keys, with the status active.  ([texts_in]: the
    texts of the envelope are not blank.) *)
Theorem recovery_restores e recoveryKey salt iv createdAt id user cred : storable e →
  nonblank (toBase64Url salt) = true → nonblank id = true →
  let k := recoveryKdfParams salt in
  ∃ w, encryptRecoveryPayload recoveryKey k (recoveryAad (payload_of e)) (payload_of e) iv createdAt = Ok w ∧
  (texts_in w → ∃ b m,
    userKeyBackupResponse (kept_backup id (u_workspaceId e) user (backup_body cred e k w)) = Ok b ∧
    recovered_epoch (u_workspaceId e) recoveryKey b = Ok m ∧
    u_workspaceId m = u_workspaceId e ∧ u_userId m = u_userId e ∧ u_platformEpochId m = u_platformEpochId e ∧
    u_epoch m = u_epoch e ∧ u_fingerprint m = u_fingerprint e ∧ u_status m = active ∧
    u_previousEpochFingerprint m = u_previousEpochFingerprint e ∧ same_keys (u_keys e) (u_keys m)).
Proof.
  intros Hs Hsalt Hid k.
  destruct (scrypt_chosen recoveryKey (fromBase64Url (k_salt k))) as [key Ekey].
  assert (deriveRecoveryKey recoveryKey k = Ok key) as Hkey by (unfold deriveRecoveryKey; simpl in *; by rewrite Ekey).
  unfold encryptRecoveryPayload. rewrite Hkey. cbn [mbind result_bind].
  set (text := canonicalJson (payload_json (payload_of e))). set (aad := recoveryAad (payload_of e)).
  pose proof (open_sealed key iv (canonicalJson aad) text) as Ho.
  destruct (aes_seal key iv (canonicalJson aad) text) as [body tag].
  destruct (epoch_read e Hs) as (m & f & Ef & Em & M1 & M2 & M3 & M4 & M5 & M6 & M7 & M8 & M9).
  eexists. split; [reflexivity|]. intros Hw. eexists _, m.
  split; [apply kept_read; try done; apply so_workspace, Hs|].
  split; [|split_and!; assumption]. unfold recovered_epoch, decryptRecoveryPayload.
  cbn [kb_kdf_params kb_encrypted_payload re_iv re_aad re_ciphertext re_tag re_aadDigest kb_user_crypto_epoch_id].
  rewrite Hkey. cbn [mbind result_bind]. rewrite !base64_round_trip, Ho. cbn [or_throw mbind result_bind].
  unfold text, canonicalJson. rewrite parse_json; [|by apply plain_canonicalize, payload_plain|done]. cbn [or_throw mbind result_bind].
  rewrite (payload_read e m f Hs Ef Em). cbn [mbind result_bind].
  unfold recoveryAad, aad, recoveryAad. cbn [payload_of rp_workspaceId rp_userId rp_userCryptoEpochId rp_userEpochFingerprint rp_epoch].
  rewrite !String.eqb_refl. cbn [require mbind result_bind]. cbn [rp_workspaceId rp_userCryptoEpochId rp_userEpochFingerprint rp_epoch].
  rewrite M5, !String.eqb_refl. reflexivity.
Qed.
End Restoring.
