(* ===== verification/EpochExamples.v ===== *)
(** * Epochs: concrete runs, and flaws of the code

    [Keys] is a concrete [EpochKeys]: a signature is the text with the name of the key.
    Over it the theorems are applied to concrete epochs, and runs show what the code does
    not prevent. *)

From S2P Require Import Prelude JsString JsMap Json JsonText JsonStringify JsNumber CanonicalJson Noise NoiseProps EpochProtocol EpochStore EpochPins Routing EpochClient EpochSync TeamGrants EpochEnrollment EpochProps EpochRotation EpochRecovery.
From stdpp Require Import prelude strings list relations.
From Stdlib Require Import ZArith Lia Floats.SpecFloat.

Import Toy.

Module Keys.
Definition okp_private (crv x : string) : json :=
  JObj [("crv", JStr crv); ("d", JStr x); ("x", JStr x); ("kty", JStr "OKP")].
Definition pair_of (crv x : string) : KeyPair := {| kp_public := okp_public crv x; kp_private := okp_private crv x |}.

Definition name_in (k : string) (v : json) : option string :=
  match v with JObj f => as_string (field f k) | _ => None end.

#[export] Instance keys : EpochKeys := {|
  ed_sign := λ key text, d ← name_in "d" key; Some (d +:+ ":" +:+ text);
  ed_verify := λ key text s, x ← name_in "x" key; Some (String.eqb s (x +:+ ":" +:+ text));
  x_agree := λ _ _, Some "secret";
  buffer_from := λ v, match v with JStr s => Some s | _ => None end;
  ed_pair := λ kp, ∃ x, kp = pair_of "Ed25519" x;
  x_pair := λ kp, ∃ x, kp = pair_of "X25519" x
|}.

#[export] Instance laws : EpochKeysLaws.
Proof.
  split; try done.
  - intros kp text [x ->]. by eexists.
  - intros kp text s [x ->] [= <-].
    change (Some (String.eqb (x +:+ ":" +:+ text) (x +:+ ":" +:+ text)) = Some true). by rewrite String.eqb_refl.
  - intros key text s. unfold ed_sign. simpl. destruct (name_in "d" key) as [d|]; simpl; [|done]. intros [= <-]. by destruct d.
  - intros kp [x ->]. by exists x.
  - intros a b _ _. by exists "secret".
  - intros kp [x ->]. by exists x.
Qed.

Lemma x_pair_of x : x_pair (pair_of "X25519" x).
Proof. exact (ex_intro _ x eq_refl). Qed.
Lemma ed_pair_of x : ed_pair (pair_of "Ed25519" x).
Proof. exact (ex_intro _ x eq_refl). Qed.
End Keys.
Import Keys.

(** ** A user with one epoch, and a file that pins it *)

Definition ada : LocalUserCryptoEpoch :=
  let unnamed := {|
    u_workspaceId := "ws_1"; u_userId := "7"; u_platformEpochId := Some "ep_1"; u_epoch := num_of_Z 1;
    u_schema := USER_EPOCH_SCHEMA; u_status := active;
    u_keys := {| encryptionPublicKeyJwk := okp_public "X25519" "e1"; encryptionPrivateKeyJwk := okp_private "X25519" "e1";
                 signingPublicKeyJwk := okp_public "Ed25519" "s1"; signingPrivateKeyJwk := okp_private "Ed25519" "s1" |};
    u_fingerprint := ""; u_previousEpochFingerprint := None; u_createdAt := "t0"; u_updatedAt := "t0" |} in
  {| u_workspaceId := "ws_1"; u_userId := "7"; u_platformEpochId := Some "ep_1"; u_epoch := num_of_Z 1;
     u_schema := USER_EPOCH_SCHEMA; u_status := active; u_keys := u_keys unnamed;
     u_fingerprint := epochFingerprint (user_descriptor unnamed); u_previousEpochFingerprint := None;
     u_createdAt := "t0"; u_updatedAt := "t0" |}.

Lemma ada_storable : storable ada.
Proof.
  split; try done.
  - by exists "ep_1".
  - repeat split; by eexists.
Qed.

(** A first epoch of the user 7 with the keys named. *)
Definition first_epoch (enc sig : string) : PublicEpochForPinning :=
  let named fp := {|
    e_platformEpochId := "ep_1"; e_workspaceId := "ws_1"; e_subjectType := "user"; e_subjectId := "7"; e_epoch := num_of_Z 1;
    e_schema := USER_EPOCH_SCHEMA; e_fingerprint := fp; e_encryptionPublicKeyJwk := okp_public "X25519" enc;
    e_signingPublicKeyJwk := okp_public "Ed25519" sig; e_previousEpochFingerprint := None; e_continuityPayload := None;
    e_continuitySignature := None; e_signedByEpochFingerprint := None |} in
  named (epochFingerprint (publicEpochDescriptor (named ""))).

Definition pinned : file := pin_calls [(first_epoch "e1" "s1", "t1")] Missing.

Definition pin_of_ada : LocalPublicEpochPin := pin_times "t1" "t1" (pin_input (first_epoch "e1" "s1")).

(** ** The theorems on it *)

Lemma upsert_user_active_witness :
  ∃ e d, upsertLocalUserEpoch ada "t2" Missing = Ok (e, d) ∧ getActiveLocalUserEpoch "ws_1" d = Ok (Some e).
Proof.
  eexists _, _. split; [reflexivity|].
  exact (proj1 (proj2 (upsert_user_active ada "t2" Missing _ _ eq_refl eq_refl))).
Defined.

(** An epoch of the platform for the same user, unsigned, does not move the pin. *)
Lemma pin_history_witness :
  let calls := [(first_epoch "evil" "evil", "t2"); (first_epoch "e1" "s1", "t3")] in
  getLocalPublicEpochPin "ws_1" "user" "7" pinned = Ok (Some pin_of_ada) ∧
  ∃ q, getLocalPublicEpochPin "ws_1" "user" "7" (pin_calls calls pinned) = Ok (Some q) ∧ rtc succeeds pin_of_ada q.
Proof.
  intros calls.
  assert (getLocalPublicEpochPin "ws_1" "user" "7" pinned = Ok (Some pin_of_ada)) as Hp by (vm_compute; reflexivity).
  split; [exact Hp|]. apply (pin_history "ws_1" "user" "7" calls pinned pin_of_ada); [| |exact Hp].
  - eexists. split; [vm_compute; reflexivity|]. intros x Hx. apply list_elem_of_singleton in Hx as ->. reflexivity.
  - repeat (apply List.Forall_cons; [reflexivity|]). apply List.Forall_nil.
Defined.

Lemma fingerprint_binds_witness :
  let a := user_descriptor ada in epochFingerprint a = epochFingerprint a ∧ d_epoch a = d_epoch a.
Proof.
  intros a. split; [reflexivity|].
  destruct (fingerprint_binds a a ltac:(vm_compute; reflexivity) ltac:(vm_compute; reflexivity) eq_refl) as [H|H];
    [exact (proj1 (proj2 (proj2 (proj2 (proj2 H)))))|reflexivity].
Defined.

Definition seen_enrollment (key : json) : DeviceEnrollmentPayload :=
  {| dp_id := "en_1"; dp_workspace_id := "ws_1"; dp_user_id := "7"; dp_device_id := "laptop"; dp_device_label := "Laptop";
     dp_encryption_public_key_jwk := key; dp_signing_public_key_jwk := okp_public "Ed25519" "ds"; dp_fingerprint := "sha256:device";
     dp_nonce := "n"; dp_status := enrollment_pending; dp_grants := [] |}.

Definition local_enrollment : LocalDeviceEnrollment :=
  {| en_workspaceId := "ws_1"; en_enrollmentId := Some "en_1"; en_userId := Some "7"; en_deviceId := "laptop";
     en_deviceLabel := "Laptop"; en_status := enrollment_pending;
     en_keys := createLocalDeviceEnrollmentKeyMaterial (pair_of "X25519" "dx") (pair_of "Ed25519" "ds");
     en_fingerprint := "sha256:device"; en_nonce := "n"; en_createdAt := "t0"; en_updatedAt := "t0" |}.

Lemma device_receives_epoch_witness :
  ∃ w m, approval_envelope ada (seen_enrollment (okp_public "X25519" "dx")) (pair_of "X25519" "eph") "iv" "t" = Ok w ∧
    u_fingerprint m = u_fingerprint ada ∧ same_keys (u_keys ada) (u_keys m).
Proof.
  destruct (device_receives_epoch ada (seen_enrollment (okp_public "X25519" "dx")) local_enrollment (pair_of "X25519" "dx")
    (pair_of "X25519" "eph") "iv" "t" "g_1" ada_storable (x_pair_of "eph") (x_pair_of "dx") eq_refl eq_refl eq_refl)
    as (w & m & Hw & _ & _ & _ & _ & _ & Hf & _ & _ & _ & Hk).
  exists w, m. split; [exact Hw|]. split; [exact Hf|exact Hk].
Defined.

(** A device with the epoch of ada, and a platform that keeps its requests and answers with
    what it was sent. *)
Definition stored_ada : LocalUserCryptoEpoch := user_times "t2" "t2" ada.
Definition with_ada : file := match upsertLocalUserEpoch ada "t2" Missing with Ok (_, d) => d | Throw _ => Missing end.
Definition repeated (q : HttpRequest) : json :=
  match q_body q with
  | Some (JObj body) => JObj [("data", JObj ([("workspace_id", JStr "ws_1"); ("user_id", JNum (num_of_Z 7)); ("id", JStr "ep_2");
                                               ("fingerprint", JStr "sha256:second")] ++ body))]
  | _ => JNull
  end.
Definition name_of (n : nat) : string := match n with O => "0" | 1%nat => "1" | _ => "n" end.
Definition recorder : Env (list HttpRequest) := {|
  x_key := λ n, pair_of "X25519" (name_of n); ed_key := λ n, pair_of "Ed25519" (name_of n); random_text := λ _, "r"; clock := λ n, "t" +:+ name_of n;
  serve := λ q s, (Some {| r_ok := true; r_status := "200 OK"; r_body := Some (repeated q) |}, s ++ [q])
|}.
Definition ws_1 : CryptoEpochSyncTarget := {| workspaceId := "ws_1"; serverUrl := "https://platform/"; credential := "cred" |}.
Definition device : World (list HttpRequest) := {| disk := with_ada; server := []; drawn := 0 |}.

(** The rotation succeeds, and the second epoch is the active one. *)
Example rotation_succeeds : ∃ e w, rotateUserCryptoEpoch recorder ws_1 "manual_rotation" device = (Ok e, w) ∧
  u_epoch e = num_of_Z 2 ∧ signingPrivateKeyJwk (u_keys e) = okp_private "Ed25519" "1" ∧
  getActiveLocalUserEpoch "ws_1" (disk w) = Ok (Some e).
Proof. do 2 eexists. split; [vm_compute; reflexivity|]. split; [reflexivity|]. split; [reflexivity|]. vm_compute. reflexivity. Qed.

(** The feed's entry for a body. *)
Definition entry_of (body : record) : record :=
  let get name := default JNull (field body name) in
  let c := match get "continuity" with JObj c => c | _ => [] end in
  let n := match get "epoch" with JNum n => n | _ => num_of_Z 0 end in
  let previous := match get "previous_epoch_fingerprint" with JStr s => s | _ => "" end in
  [("id", JStr "ep_2"); ("workspace_id", JStr "ws_1"); ("user_id", JStr "7"); ("epoch", get "epoch");
   ("fingerprint", JStr (epochFingerprint {| d_schema := USER_EPOCH_SCHEMA; d_workspaceId := "ws_1"; d_subjectType := "user";
      d_subjectId := "7"; d_epoch := n; d_encryptionPublicKeyJwk := get "encryption_public_key_jwk";
      d_signingPublicKeyJwk := get "signing_public_key_jwk"; d_previousEpochFingerprint := Some previous; d_createdAt := "" |}));
   ("encryption_public_key_jwk", get "encryption_public_key_jwk"); ("signing_public_key_jwk", get "signing_public_key_jwk");
   ("previous_epoch_fingerprint", get "previous_epoch_fingerprint");
   ("continuity_payload", default JNull (field c "payload")); ("continuity_signature", default JNull (field c "signature"));
   ("signed_by_epoch_fingerprint", default JNull (field c "signed_by_epoch_fingerprint"))].

Lemma rotation_accepted_witness :
  ∃ body e, server (rotateUserCryptoEpoch recorder ws_1 "manual_rotation" device).2 =
      [{| q_method := "POST"; q_url := user_epochs_url ws_1; q_credential := None; q_body := Some (JObj body) |}] ∧
    published "ws_1" "7" body (entry_of body) ∧
    publicUserEpochPayload (JObj (entry_of body)) = Ok e ∧ checkPublicEpoch (public_epoch_of e) pinned = Ok () ∧
    pu_signing_public_key_jwk e = okp_public "Ed25519" "1".
Proof.
  assert (getActiveLocalUserEpoch "ws_1" with_ada = Ok (Some stored_ada)) as F0 by (vm_compute; reflexivity).
  assert (storable stored_ada) as Fs by (destruct ada_storable; by split).
  assert (u_fingerprint stored_ada = epochFingerprint (user_descriptor stored_ada)) as F1 by (vm_compute; reflexivity).
  assert (num_lt (u_epoch stored_ada) (num_add (u_epoch stored_ada) (num_of_Z 1)) = true) as F2 by (vm_compute; reflexivity).
  assert (nonblank (clock recorder 3) = true) as F3 by (vm_compute; reflexivity).
  assert ("manual_rotation" ∈ REASONS) as F5 by (apply (bool_decide_unpack _); vm_compute; exact I).
  assert (getLocalPublicEpochPin (u_workspaceId stored_ada) "user" (u_userId stored_ada) pinned = Ok (Some pin_of_ada)) as F6 by (vm_compute; reflexivity).
  assert (pins pin_of_ada stored_ada) as F7 by (split; [|split]; vm_compute; reflexivity).
  destruct (rotation_accepted recorder ws_1 "manual_rotation" device stored_ada pinned pin_of_ada ltac:(reflexivity) F0 Fs F1
    (ed_pair_of "s1") (x_pair_of "0") (ed_pair_of "1") F2 F3 F5 F6 F7) as (body & Hsent & Hfeed).
  assert (published "ws_1" "7" body (entry_of body)) as Hpub.
  { clear -Hsent. vm_compute in Hsent. injection Hsent as <-. split.
    - exists "ep_2". split; vm_compute; reflexivity.
    - vm_compute; reflexivity.
    - vm_compute; reflexivity.
    - intros name Hn. repeat (apply elem_of_cons in Hn as [->|Hn]; [vm_compute; reflexivity|]). by apply elem_of_nil in Hn.
    - intros c Hc. vm_compute in Hc. injection Hc as <-. repeat split; vm_compute; reflexivity.
    - intros n enc sig previous H1 H2 H3 H4. vm_compute in H1, H2, H3, H4. injection H1 as <-. injection H2 as <-. injection H3 as <-.
      injection H4 as <-. vm_compute. reflexivity. }
  destruct (Hfeed _ Hpub) as (e & H1 & H2 & _ & H3). exists body, e. split; [exact Hsent|]. split; [exact Hpub|]. split; [exact H1|].
  split; [exact H2|exact H3].
Defined.

#[export] Instance scrypt : Scrypt := {| scryptSync := λ key salt _ _ _ _, Some (key +:+ salt) |}.
#[export] Instance scrypt_laws : ScryptLaws.
Proof. split. intros key salt. by eexists. Qed.

Lemma recovery_restores_witness :
  let w := encryptRecoveryPayload "vprk_1" (recoveryKdfParams "salt") (recoveryAad (payload_of ada)) (payload_of ada) "iv" "t" in
  ∃ w' b m, w = Ok w' ∧ recovered_epoch "ws_1" "vprk_1" b = Ok m ∧ u_fingerprint m = u_fingerprint ada.
Proof.
  intros w. assert (nonblank (toBase64Url "salt") = true) as F1 by (vm_compute; reflexivity).
  destruct (recovery_restores ada "vprk_1" "salt" "iv" "t" "b_1" "7" "cred" ada_storable F1 eq_refl) as (w' & Hw & Hr).
  assert (texts_in w') as Ht by (vm_compute in Hw; injection Hw as <-; vm_compute; done).
  destruct (Hr Ht) as (b & m & _ & Hb & _ & _ & _ & _ & Hf & _). exists w', b, m.
  split; [exact Hw|]. split; [exact Hb|exact Hf].
Defined.

(** ** Flaws *)

(** Flaw: the check and the write read the file apart.  Two first epochs of one user,
    checked together before either is stored, are both accepted, and the second replaces
    the key the first has pinned, which no signature continues. *)
Lemma concurrent_pins_replace :
  let a := first_epoch "e1" "s1" in let b := first_epoch "evil" "evil" in
  checkPublicEpoch a Missing = Ok () ∧ checkPublicEpoch b Missing = Ok () ∧
  ∃ p d1 q d2, upsertLocalPublicEpochPin (pin_input a) "t1" Missing = Ok (p, d1) ∧
    upsertLocalPublicEpochPin (pin_input b) "t1" d1 = Ok (q, d2) ∧
    getLocalPublicEpochPin "ws_1" "user" "7" d2 = Ok (Some q) ∧ p_epoch q = p_epoch p ∧
    p_signingPublicKeyJwk p = okp_public "Ed25519" "s1" ∧ p_signingPublicKeyJwk q = okp_public "Ed25519" "evil".
Proof.
  intros a b. do 2 (split; [vm_compute; reflexivity|]). do 4 eexists. repeat (split; [vm_compute; reflexivity|]). vm_compute. reflexivity.
Qed.

(** A transition that names both fingerprints, and otherwise anything. *)
Definition odd_transition (from to : string) : EpochTransitionPayload :=
  {| t_schema := "viewport.epoch_transition/v1"; t_workspaceId := "ws_9"; t_subjectType := "team"; t_subjectId := "99";
     t_fromEpoch := num_of_Z 5; t_fromEpochFingerprint := from; t_toEpoch := num_of_Z 2; t_toEpochFingerprint := to;
     t_reason := "recovery"; t_createdAt := "t" |}.

(** Epoch 40 of the user 7, with that transition signed by the key of the first epoch. *)
Definition skipping_epoch : PublicEpochForPinning :=
  let first := e_fingerprint (first_epoch "e1" "s1") in
  let named fp sig := {|
    e_platformEpochId := "ep_40"; e_workspaceId := "ws_1"; e_subjectType := "user"; e_subjectId := "7"; e_epoch := num_of_Z 40;
    e_schema := USER_EPOCH_SCHEMA; e_fingerprint := fp; e_encryptionPublicKeyJwk := okp_public "X25519" "e40";
    e_signingPublicKeyJwk := okp_public "Ed25519" "s40"; e_previousEpochFingerprint := Some first;
    e_continuityPayload := Some (transition_json (odd_transition first fp)); e_continuitySignature := Some sig;
    e_signedByEpochFingerprint := Some first |} in
  let fp := epochFingerprint (publicEpochDescriptor (named "" "")) in
  named fp ("s1:" +:+ canonicalJson (transition_json (odd_transition first fp))).

(** Flaw: a continuity payload is accepted whose workspace, subject and numbers are not
    those of the epochs it joins, and an epoch may skip numbers, although a transition is
    only made between successive epochs of one subject. *)
Lemma continuity_fields_unchecked : checkPublicEpoch skipping_epoch pinned = Ok ().
Proof. vm_compute. reflexivity. Qed.

(** Flaw: a field named __proto__ is not part of the canonical text, so two keys that
    differ in it have one fingerprint. *)
Lemma proto_field_unhashed :
  canonicalJson (JObj [("x", JStr "1"); ("__proto__", JStr "2")]) = canonicalJson (JObj [("x", JStr "1")]).
Proof. vm_compute. reflexivity. Qed.

(** ** A platform that answers with a key of its own *)

Definition foreign_answer : json :=
  JObj [("data", JObj [("workspace_id", JStr "ws_1"); ("user_id", JNum (num_of_Z 7)); ("id", JStr "ep_1"); ("epoch", JNum (num_of_Z 1));
    ("encryption_public_key_jwk", okp_public "X25519" "platform"); ("signing_public_key_jwk", okp_public "Ed25519" "platform");
    ("fingerprint", JStr "sha256:platform")])].

Definition platform_env : Env () := {|
  x_key := λ n, pair_of "X25519" "mine"; ed_key := λ n, pair_of "Ed25519" "mine"; random_text := λ _, "r"; clock := λ _, "t";
  serve := λ _ s, (Some {| r_ok := true; r_status := "200 OK"; r_body := Some foreign_answer |}, s)
|}.

Definition a_target : CryptoEpochSyncTarget := {| workspaceId := "ws_1"; serverUrl := "https://platform/"; credential := "cred" |}.

(** Flaw: the public keys and the fingerprint stored for a new epoch are those of the
    answer, which nothing compares with the keys just made: the stored public and private
    keys need not belong together, and the fingerprint need not be that of the epoch. *)
Lemma foreign_keys_stored :
  ∃ e w, ensureUserCryptoEpoch platform_env a_target {| disk := Missing; server := (); drawn := 0 |} = (Ok e, w) ∧
    signingPublicKeyJwk (u_keys e) = okp_public "Ed25519" "platform" ∧
    signingPrivateKeyJwk (u_keys e) = okp_private "Ed25519" "mine" ∧ u_fingerprint e ≠ epochFingerprint (user_descriptor e).
Proof. do 2 eexists. repeat (split; [vm_compute; reflexivity|]). vm_compute. discriminate. Qed.

(** Two teams without a platform id. *)
Definition team (name fp : string) : LocalTeamCryptoEpoch :=
  {| te_workspaceId := "ws_1"; te_teamId := name; te_platformTeamId := None; te_platformEpochId := Some ("ep_" +:+ name);
     te_epoch := num_of_Z 1; te_schema := TEAM_EPOCH_SCHEMA; te_status := active; te_keys := u_keys ada; te_fingerprint := fp;
     te_previousEpochFingerprint := None; te_createdAt := ""; te_updatedAt := "" |}.

(** Flaw: a missing platform id equals a missing platform id, so storing the epoch of one
    such team takes the active epoch of another away. *)
Lemma team_without_platform_id_superseded :
  ∃ a d1 b d2, upsertLocalTeamEpoch (team "red" "f1") "t1" Missing = Ok (a, d1) ∧
    upsertLocalTeamEpoch (team "blue" "f2") "t2" d1 = Ok (b, d2) ∧
    getActiveLocalTeamEpoch "ws_1" "red" d1 = Ok (Some a) ∧ getActiveLocalTeamEpoch "ws_1" "red" d2 = Ok None.
Proof. do 4 eexists. repeat (split; [vm_compute; reflexivity|]). vm_compute. reflexivity. Qed.

(** The third epoch of ada. *)
Definition ada3 : LocalUserCryptoEpoch :=
  {| u_workspaceId := "ws_1"; u_userId := "7"; u_platformEpochId := Some "ep_3"; u_epoch := num_of_Z 3;
     u_schema := USER_EPOCH_SCHEMA; u_status := active; u_keys := u_keys ada; u_fingerprint := "sha256:third";
     u_previousEpochFingerprint := Some "sha256:second"; u_createdAt := "t0"; u_updatedAt := "t0" |}.

(** Flaw: a restored epoch is stored as the active one whatever the file holds, so a
    platform that answers with an old backup takes a device back from its newer epoch. *)
Lemma old_backup_rolls_back :
  ∃ newer d1 older d2, upsertLocalUserEpoch ada3 "t1" Missing = Ok (newer, d1) ∧
    upsertLocalUserEpoch ada "t2" d1 = Ok (older, d2) ∧
    getActiveLocalUserEpoch "ws_1" d1 = Ok (Some newer) ∧ getActiveLocalUserEpoch "ws_1" d2 = Ok (Some older) ∧
    num_lt (u_epoch older) (u_epoch newer) = true.
Proof. do 4 eexists. repeat (split; [vm_compute; reflexivity|]). vm_compute. reflexivity. Qed.
