(* ===== verification/ChildEnv.v ===== *)
(** * The environment of child processes (packages/daemon/src/security/child-env.ts)

    Commands run by the daemon get a short list of its variables and what their caller
    adds ([cleanChildProcessEnv]); where a whole environment is passed on, variables
    whose name looks like that of a secret are left out ([scrubSecretEnv]).  An
    environment is the list of its variables; a variable may be undefined. *)

From S2P Require Import Prelude JsString JsMap Json JsonText.
From stdpp Require Import prelude strings list.
From Stdlib Require Import ZArith Lia Ascii.

Notation environment := (list (string * option string)).

Definition upper_ascii (a : ascii) : ascii :=
  let n := code a in if (97 <=? n) && (n <=? 122) then byte_of (n - 32) else a.
Definition upper (s : string) : string := String.string_of_list_ascii (map upper_ascii (chars s)).

(** What SECRET_ENV_PATTERN finds anywhere in a name, whatever the case; an underscore or
    a dash may stand before KEY. *)
Definition SECRET_WORDS : list string :=
  ["TOKEN"; "SECRET"; "PASSWORD"; "APIKEY"; "API_KEY"; "API-KEY"; "PRIVATEKEY"; "PRIVATE_KEY"; "PRIVATE-KEY";
   "ACCESSKEY"; "ACCESS_KEY"; "ACCESS-KEY"; "AUTH"; "CREDENTIAL"; "COOKIE"; "SESSION"].
Definition secret_name (key : string) : bool := existsb (includes (upper key)) SECRET_WORDS.

Definition SAFE_BASE_ENV_KEYS : list string :=
  ["PATH"; "HOME"; "USER"; "LOGNAME"; "SHELL"; "TMPDIR"; "TEMP"; "TMP"; "LANG"; "LC_ALL"; "TERM"; "COLORTERM"; "SSH_AUTH_SOCK";
   "GIT_SSH_COMMAND"; "DISPLAY"; "XDG_RUNTIME_DIR"].

(** Copies the defined variables of [vars] into [env]. *)
Definition assign_defined (vars : environment) (env : list (string * string)) : list (string * string) :=
  fold_left (λ env kv, match kv.2 with Some v => jm_set kv.1 v env | None => env end) vars env.

(** [process]: process.env. *)
Definition cleanChildProcessEnv (process overrides : environment) : list (string * string) :=
  assign_defined overrides (assign_defined (map (λ key, (key, v ← jm_get key process; v)) SAFE_BASE_ENV_KEYS) []).

Definition scrubSecretEnv (env : environment) : list (string * string) :=
  assign_defined (List.filter (λ kv, negb (secret_name kv.1)) env) [].

Lemma assigned_key vars env k : k ∈ jm_keys (assign_defined vars env) ↔
  k ∈ jm_keys env ∨ ∃ v, (k, Some v) ∈ vars.
Proof.
  unfold assign_defined. revert env. induction vars as [|[k' [v|]] vars IH]; intros env; simpl.
  - split; [by left|]. intros [?|[v Hv]]; [done|]. by apply elem_of_nil in Hv.
  - rewrite IH, !jm_key_is_Some. unfold is_Some. setoid_rewrite jm_get_set. case_decide as Hk.
    + subst. split; [intros _; right; exists v; set_solver|by left; eauto].
    + split; (intros [?|[w Hw]]; [by left|right; exists w]); set_solver.
  - rewrite IH. split; (intros [?|[w Hw]]; [by left|right; exists w]); set_solver.
Qed.

(** A command gets nothing of the daemon's environment but the listed names, and nothing
    else but what its caller set; a scrubbed environment has no secret's name. *)
Lemma child_environment process overrides env k :
  (k ∈ jm_keys (cleanChildProcessEnv process overrides) → k ∈ SAFE_BASE_ENV_KEYS ∨ ∃ v, (k, Some v) ∈ overrides) ∧
  (k ∈ jm_keys (scrubSecretEnv env) ↔ secret_name k = false ∧ ∃ v, (k, Some v) ∈ env).
Proof.
  unfold cleanChildProcessEnv, scrubSecretEnv. rewrite !assigned_key. split.
  - intros [[Hk|[v Hv]]|?]; [by apply elem_of_nil in Hk| |by right]. left.
    apply list_elem_of_fmap in Hv as (key & [= -> _] & Hkey). done.
  - split.
    + intros [Hk|[v Hv]]; [by apply elem_of_nil in Hk|]. apply list_elem_of_In, filter_In in Hv as [Hv Hn].
      split; [by apply negb_true_iff in Hn|]. exists v. by apply list_elem_of_In.
    + intros [Hn [v Hv]]. right. exists v. apply list_elem_of_In, filter_In. split; [by apply list_elem_of_In|].
      simpl. by rewrite Hn.
Qed.
