(* ===== verification/PairingOffers.v ===== *)
(** * The store of pairing offers (packages/daemon/src/server/pairing-offers.ts,
    pairing-peer-bindings.ts, pairing-identity-store.ts, pairing-file-store.ts,
    pairing-offer-types.ts)

    The daemon issues offers; a client redeems one with the offer's secret and a proof
    that it holds its key, and the two share a secret from then on, bound to the key.
    The files are the fields of [Files], each the entries its text parses to; one that is
    missing or malformed is empty.  The operations on offers hold a lock, so they run one
    after the other; each reads the clock once, and [Draws] has what it may draw at
    random.  Writing files is assumed to succeed. *)

From S2P Require Import Prelude JsString JsMap Json JsonText JsonStringify Noise.
From stdpp Require Import prelude strings list.
From Stdlib Require Import ZArith Lia Ascii.

Open Scope Z_scope.

(** Ed25519 over PEM texts: [createPublicKey] and [createPrivateKey] throw. *)
Class PemKeys := {
  pem_sign : string → string → option string;            (* private key, text *)
  pem_verify : string → string → string → option bool;    (* public key, text, signature *)
  pem_pair : string → string → Prop                       (* public and private key of one generateKeyPairSync('ed25519') *)
}.

(** ** pairing-offer-types.ts *)

Inductive OfferProfile := local | lan | relay.
Record PairingOfferConnection := {
  oc_host : string; oc_port : Z; oc_listen : string; oc_socketPath : option string; oc_profile : OfferProfile
}.

Record PairingOfferStoreRecord := {
  o_offerId : string; o_createdAt : Z; o_expiresAt : Z; o_revokedAt : option Z; o_redeemedAt : option Z;
  o_failedRedeemAttempts : option Z; o_lockedAt : option Z; o_redeemSecretHash : option string; o_trustAnchor : string;
  o_daemonDeviceId : string; o_daemonPublicKey : string; o_connection : PairingOfferConnection
}.

Record PairingOfferIssuedPayload := {
  i_offerId : string; i_createdAt : Z; i_expiresAt : Z; i_redeemSecret : string; i_trustAnchor : string;
  i_daemonDeviceId : string; i_daemonPublicKey : string; i_connection : PairingOfferConnection
}.

Record PairingOfferRedeemedPayload := {
  rp_offerId : string; rp_trustAnchor : string; rp_daemonDeviceId : string; rp_daemonPublicKey : string;
  rp_peerId : string; rp_relayPairingPeerId : string; rp_serverSignature : string;
  rp_connection : PairingOfferConnection; rp_expiresAt : Z; rp_createdAt : Z
}.

Record PairingTrustAnchorRecord := { ta_id : string; ta_createdAt : Z; ta_secret : string }.
Record PairingDaemonIdentityRecord := {
  di_deviceId : string; di_createdAt : Z; di_publicKey : string; di_privateKey : string
}.
Record PairingPeerBindingRecord := {
  pb_peerId : string; pb_publicKey : string; pb_ciphertext : option string; pb_iv : option string; pb_tag : option string;
  pb_firstPairedAt : Z; pb_lastPairedAt : option Z; pb_lastOfferId : string; pb_trustAnchor : string
}.

(** The files, and the key the process has read. *)
Record Files := {
  offers : list PairingOfferStoreRecord; peers : list PairingPeerBindingRecord; authToken : option string;
  trustAnchor : option PairingTrustAnchorRecord; deviceIdentity : option PairingDaemonIdentityRecord;
  secretStoreKey : option string; auditLog : list string; auditLogOld : list string;
  cachedSecretStoreKey : option string
}.

Definition set_offers v s := Build_Files v (peers s) (authToken s) (trustAnchor s) (deviceIdentity s)
  (secretStoreKey s) (auditLog s) (auditLogOld s) (cachedSecretStoreKey s).
Definition set_peers v s := Build_Files (offers s) v (authToken s) (trustAnchor s) (deviceIdentity s)
  (secretStoreKey s) (auditLog s) (auditLogOld s) (cachedSecretStoreKey s).
Definition set_authToken v s := Build_Files (offers s) (peers s) v (trustAnchor s) (deviceIdentity s)
  (secretStoreKey s) (auditLog s) (auditLogOld s) (cachedSecretStoreKey s).
Definition set_trustAnchor v s := Build_Files (offers s) (peers s) (authToken s) v (deviceIdentity s)
  (secretStoreKey s) (auditLog s) (auditLogOld s) (cachedSecretStoreKey s).
Definition set_deviceIdentity v s := Build_Files (offers s) (peers s) (authToken s) (trustAnchor s) v
  (secretStoreKey s) (auditLog s) (auditLogOld s) (cachedSecretStoreKey s).
Definition set_secretStoreKey v s := Build_Files (offers s) (peers s) (authToken s) (trustAnchor s) (deviceIdentity s)
  v (auditLog s) (auditLogOld s) (cachedSecretStoreKey s).
Definition set_auditLog v old s := Build_Files (offers s) (peers s) (authToken s) (trustAnchor s) (deviceIdentity s)
  (secretStoreKey s) v old (cachedSecretStoreKey s).
Definition set_cachedSecretStoreKey v s := Build_Files (offers s) (peers s) (authToken s) (trustAnchor s)
  (deviceIdentity s) (secretStoreKey s) (auditLog s) (auditLogOld s) v.

Record Draws := {
  dr_offerId : string; dr_redeemSecret : string; dr_token : string; dr_anchorId : string; dr_anchorSecret : string;
  dr_deviceId : string; dr_devicePublicKey : string; dr_devicePrivateKey : string; dr_storeKey : string; dr_iv : string
}.

(** The bounds that the environment sets. *)
Record Limits := { pairingPeerBindingsMax : Z; pairingAuditMaxBytes : Z }.

Definition MAX_STORED_OFFERS : nat := 200.
Definition MAX_FAILED_REDEEM_ATTEMPTS : Z := 5.
Definition DAY_MS : Z := 24 * 60 * 60 * 1000.

Fixpoint to_hex (s : string) : string :=
  match s with
  | "" => ""
  | String a s => String (hex_digit (code a / 16)) (String (hex_digit (code a mod 16)) (to_hex s))
  end.

(** [match(/.{1,4}/g)] of a text in one line. *)
Fixpoint groups_of_four (s : string) : list string :=
  match s with
  | "" => []
  | String a (String b (String c (String d s))) => String a (String b (String c (String d ""))) :: groups_of_four s
  | s => [s]
  end.

(** A time that is set, and not 0. *)
Definition truthy_time (t : option Z) : bool := match t with Some z => negb (z =? 0) | None => false end.

Definition newline : string := String (byte_of 10) "".

(** The last [n] entries, [l.slice(l.length - n)]. *)
Definition keep_last {A} (n : nat) (l : list A) : list A := drop (length l - n) l.

(** Changes the first entry that satisfies [p]: the object [find] returns. *)
Fixpoint update_first {A} (p : A → bool) (f : A → A) (l : list A) : list A :=
  match l with
  | [] => []
  | x :: l => if p x then f x :: l else x :: update_first p f l
  end.

Definition num (z : Z) : json := JNum (num_of_Z z).

Section Store.
Context `{Crypto} `{PemKeys}.
Variables (limits : Limits) (now : Z) (r : Draws).

(** ** pairing-file-store.ts *)

Definition fileSize (lines : list string) : Z := foldr (λ l n, byteLength l + 1 + n) 0 lines.

Definition appendPairingAudit (event : record) (s : Files) : Files :=
  let '(lines, old) := if pairingAuditMaxBytes limits <=? fileSize (auditLog s) then ([], auditLog s)
                       else (auditLog s, auditLogOld s) in
  set_auditLog (lines ++ [JSON_stringify (JObj (("timestamp", num now) :: event))]) old s.

(** ** pairing-identity-store.ts *)

Definition hexDigest (b : string) : string := to_hex (sha256 b).
Definition fingerprint (secret : string) : string := JsString.join ":" (groups_of_four (hexDigest secret)).

Definition readTrustAnchorRecord (s : Files) : option PairingTrustAnchorRecord :=
  a ← trustAnchor s; if truthy_str (ta_secret a) then Some a else None.

(** The fingerprint of the anchor: the only field callers use. *)
Definition getOrCreateTrustAnchor (s : Files) : string * Files :=
  match readTrustAnchorRecord s with
  | Some existing => (fingerprint (ta_secret existing), s)
  | None =>
      let created := {| ta_id := dr_anchorId r; ta_createdAt := now; ta_secret := to_hex (dr_anchorSecret r) |} in
      (fingerprint (ta_secret created),
       appendPairingAudit [("event", JStr "pair_trust_anchor_created"); ("trustAnchorId", JStr (ta_id created));
                           ("trustAnchor", JStr (fingerprint (ta_secret created)))]
         (set_trustAnchor (Some created) s))
  end.

Definition getOrCreateDaemonIdentity (s : Files) : PairingDaemonIdentityRecord * Files :=
  match deviceIdentity s with
  | Some existing => (existing, s)
  | None =>
      let created := {| di_deviceId := dr_deviceId r; di_createdAt := now; di_publicKey := trim (dr_devicePublicKey r);
                        di_privateKey := trim (dr_devicePrivateKey r) |} in
      (created,
       appendPairingAudit [("event", JStr "pair_device_identity_created"); ("deviceId", JStr (di_deviceId created));
                           ("fingerprint", JStr (fingerprint (di_publicKey created)))]
         (set_deviceIdentity (Some created) s))
  end.

(** ** pairing-peer-bindings.ts *)

Definition RELAY_PAIRING_INFO_PREFIX : string := "viewport-relay-policyc-pair-v1".

Definition peerIdFromPublicKey (publicKey : string) : string := hexDigest publicKey.

Definition deriveRelayPairingSecret (offerId redeemSecret trustAnchor clientPublicKey daemonPublicKey : string) : string :=
  let salt := sha256 (JsString.join newline [RELAY_PAIRING_INFO_PREFIX; offerId; trustAnchor; trim clientPublicKey; trim daemonPublicKey]) in
  toBase64Url (hkdfSync redeemSecret salt RELAY_PAIRING_INFO_PREFIX).

Definition store_key_bytes (k : string) : bool := (String.length k =? 32)%nat.

(** The key in the file. *)
Definition filed_key (s : Files) : option string :=
  text ← secretStoreKey s;
  let decoded := fromBase64Url (trim text) in
  if store_key_bytes decoded then Some decoded else None.

Definition cached_key (s : Files) : option string :=
  k ← cachedSecretStoreKey s; if store_key_bytes k then Some k else None.

Definition getOrCreateSecretStoreKey (s : Files) : string * Files :=
  match cached_key s with
  | Some k => (k, s)
  | None =>
      match filed_key s with
      | Some k => (k, set_cachedSecretStoreKey (Some k) s)
      | None =>
          let created := dr_storeKey r in
          (created, set_cachedSecretStoreKey (Some created)
                      (set_secretStoreKey (Some (toBase64Url created +:+ newline)) s))
      end
  end.

Definition hashPairingSecret (secret : string) (s : Files) : string * Files :=
  let '(key, s) := getOrCreateSecretStoreKey s in (to_hex (hmac key secret), s).

Definition valid_binding (p : PairingPeerBindingRecord) : bool := nonblank (pb_peerId p) && nonblank (pb_publicKey p).
Definition trim_binding (p : PairingPeerBindingRecord) : PairingPeerBindingRecord :=
  {| pb_peerId := trim (pb_peerId p); pb_publicKey := trim (pb_publicKey p); pb_ciphertext := pb_ciphertext p; pb_iv := pb_iv p;
     pb_tag := pb_tag p; pb_firstPairedAt := pb_firstPairedAt p; pb_lastPairedAt := pb_lastPairedAt p;
     pb_lastOfferId := pb_lastOfferId p; pb_trustAnchor := pb_trustAnchor p |}.

Definition dedupe_binding (deduped : list (string * PairingPeerBindingRecord)) (item : PairingPeerBindingRecord) :
    list (string * PairingPeerBindingRecord) :=
  if negb (valid_binding item) then deduped else
  let replace := match jm_get (pb_peerId item) deduped with
                 | Some existing => coalesce (pb_lastPairedAt existing) 0 <=? coalesce (pb_lastPairedAt item) 0
                 | None => true
                 end in
  if replace then jm_set (pb_peerId item) (trim_binding item) deduped else deduped.

Definition binding_time (p : PairingPeerBindingRecord) : Z := coalesce (pb_lastPairedAt p) (pb_firstPairedAt p).

Definition compactPeerBindings (l : list PairingPeerBindingRecord) : list PairingPeerBindingRecord :=
  let sorted := sort_by_key binding_time (jm_values (fold_left dedupe_binding l [])) in
  if Z.of_nat (length sorted) <=? pairingPeerBindingsMax limits then sorted
  else keep_last (Z.to_nat (pairingPeerBindingsMax limits)) sorted.

Definition readPeerBindings (s : Files) : list PairingPeerBindingRecord := compactPeerBindings (peers s).
Definition writePeerBindings (l : list PairingPeerBindingRecord) (s : Files) : Files := set_peers (compactPeerBindings l) s.

(** The ciphertext, the iv and the tag. *)
Definition encryptRelayPairingSecret (secret : string) (s : Files) : string * string * string * Files :=
  let '(key, s) := getOrCreateSecretStoreKey s in
  let '(body, tag) := aes_seal key (dr_iv r) "" secret in
  (toBase64Url body, toBase64Url (dr_iv r), toBase64Url tag, s).

Definition decryptRelayPairingSecret (p : PairingPeerBindingRecord) (s : Files) : option string * Files :=
  match pb_ciphertext p, pb_iv p, pb_tag p with
  | Some ciphertext, Some iv, Some tag =>
      let '(key, s) := getOrCreateSecretStoreKey s in
      (text ← aes_open key (fromBase64Url iv) "" (fromBase64Url ciphertext) (fromBase64Url tag);
       let decoded := fromBase64Url text in
       if (String.length decoded =? 32)%nat then Some decoded else None, s)
  | _, _, _ => (None, s)
  end.

Definition is_peer (peerId : string) (p : PairingPeerBindingRecord) : bool := String.eqb (pb_peerId p) peerId.

Definition upsertPeerBinding (peerId publicKey relayPairingSecret offerId trustAnchor : string) (s : Files) : Files :=
  let store := readPeerBindings s in
  let '(ciphertext, iv, tag, s) := encryptRelayPairingSecret relayPairingSecret s in
  let store :=
    match find_first (is_peer peerId) store with
    | Some _ =>
        update_first (is_peer peerId) (λ p,
          {| pb_peerId := pb_peerId p; pb_publicKey := publicKey; pb_ciphertext := Some ciphertext; pb_iv := Some iv;
             pb_tag := Some tag; pb_firstPairedAt := pb_firstPairedAt p; pb_lastPairedAt := Some now;
             pb_lastOfferId := offerId; pb_trustAnchor := trustAnchor |}) store
    | None =>
        store ++ [{| pb_peerId := peerId; pb_publicKey := publicKey; pb_ciphertext := Some ciphertext; pb_iv := Some iv;
                     pb_tag := Some tag; pb_firstPairedAt := now; pb_lastPairedAt := Some now;
                     pb_lastOfferId := offerId; pb_trustAnchor := trustAnchor |}]
    end in
  writePeerBindings store s.

Definition resolveRelayPairingSecret (peerId : string) (s : Files) : option string * Files :=
  if negb (nonblank peerId) then (None, s) else
  match find_first (is_peer peerId) (readPeerBindings s) with
  | None => (None, s)
  | Some binding => decryptRelayPairingSecret binding s
  end.

(** ** pairing-offers.ts *)

Definition fresh_offer (o : PairingOfferStoreRecord) : bool :=
  negb ((o_expiresAt o =? 0) || (o_expiresAt o <=? now - DAY_MS)).
Definition compactOffers (l : list PairingOfferStoreRecord) : list PairingOfferStoreRecord :=
  let fresh := List.filter fresh_offer l in
  if (length fresh <=? MAX_STORED_OFFERS)%nat then fresh else keep_last MAX_STORED_OFFERS fresh.
Definition writeStore (l : list PairingOfferStoreRecord) (s : Files) : Files := set_offers (compactOffers l) s.

Definition canonicalRedeemPayload (offerId redeemSecret trustAnchor clientPublicKey : string) : string :=
  JsString.join newline ["viewport-pair-redeem-v1"; offerId; redeemSecret; trustAnchor; clientPublicKey].

(** The client's side: its id, its key and its proof. *)
Definition createPairingRedeemProof (offerId redeemSecret trustAnchor clientPublicKey clientPrivateKey : string) :
    option (string * string * string) :=
  let publicKey := trim clientPublicKey in
  signature ← pem_sign (trim clientPrivateKey) (canonicalRedeemPayload offerId redeemSecret trustAnchor publicKey);
  Some (peerIdFromPublicKey publicKey, publicKey, toBase64Url signature).

Definition readAuthToken (s : Files) : option string :=
  text ← authToken s; if truthy_str (trim text) then Some (trim text) else None.

Definition rotateAuthToken (s : Files) : string * bool * Files :=
  let token := to_hex (dr_token r) in
  (token, bool_decide (is_Some (readAuthToken s)),
   appendPairingAudit [("event", JStr "auth_token_rotated")] (set_authToken (Some (token +:+ newline)) s)).

Definition issuePairingOffer (connection : PairingOfferConnection) (ttlSeconds : Z) (s : Files) :
    PairingOfferIssuedPayload * Files :=
  let ttlSeconds := Z.min 3600 (Z.max 30 ttlSeconds) in
  let expiresAt := now + ttlSeconds * 1000 in
  let offerId := dr_offerId r in
  let redeemSecret := to_hex (dr_redeemSecret r) in
  let s := match readAuthToken s with None => (rotateAuthToken s).2 | Some _ => s end in
  let '(anchor, s) := getOrCreateTrustAnchor s in
  let '(identity, s) := getOrCreateDaemonIdentity s in
  let store := offers s in
  let '(hash, s) := hashPairingSecret redeemSecret s in
  let s := writeStore (store ++ [
    {| o_offerId := offerId; o_createdAt := now; o_expiresAt := expiresAt; o_revokedAt := None; o_redeemedAt := None;
       o_failedRedeemAttempts := None; o_lockedAt := None; o_redeemSecretHash := Some hash; o_trustAnchor := anchor;
       o_daemonDeviceId := di_deviceId identity; o_daemonPublicKey := di_publicKey identity; o_connection := connection |}]) s in
  let profile := match oc_profile connection with local => "local" | lan => "lan" | relay => "relay" end in
  ({| i_offerId := offerId; i_createdAt := now; i_expiresAt := expiresAt; i_redeemSecret := redeemSecret;
      i_trustAnchor := anchor; i_daemonDeviceId := di_deviceId identity; i_daemonPublicKey := di_publicKey identity;
      i_connection := connection |},
   appendPairingAudit [("event", JStr "pair_offer_issued"); ("offerId", JStr offerId); ("createdAt", num now);
     ("expiresAt", num expiresAt); ("profile", JStr profile); ("listen", JStr (oc_listen connection));
     ("trustAnchor", JStr anchor); ("daemonDeviceId", JStr (di_deviceId identity))] s).

(** Not expired, and neither revoked nor redeemed: [active]; [open] also says not locked. *)
Definition expired (o : PairingOfferStoreRecord) : bool := o_expiresAt o <=? now.
Definition active (o : PairingOfferStoreRecord) : bool :=
  negb (expired o) && negb (truthy_time (o_revokedAt o)) && negb (truthy_time (o_redeemedAt o)).
Definition open (o : PairingOfferStoreRecord) : bool :=
  negb (expired o || truthy_time (o_revokedAt o) || truthy_time (o_redeemedAt o) || truthy_time (o_lockedAt o)).

(** Every offer with [active] and [expired], the latest first. *)
Definition listPairingOffers (s : Files) : list (PairingOfferStoreRecord * bool * bool) :=
  sort_by_key (λ o, - o_createdAt o.1.1) (map (λ o, (o, active o, expired o)) (offers s)).

Definition is_offer (offerId : string) (o : PairingOfferStoreRecord) : bool := String.eqb (o_offerId o) offerId.

Definition set_revokedAt v (o : PairingOfferStoreRecord) := Build_PairingOfferStoreRecord (o_offerId o) (o_createdAt o)
  (o_expiresAt o) v (o_redeemedAt o) (o_failedRedeemAttempts o) (o_lockedAt o) (o_redeemSecretHash o) (o_trustAnchor o)
  (o_daemonDeviceId o) (o_daemonPublicKey o) (o_connection o).
Definition set_redeemedAt v (o : PairingOfferStoreRecord) := Build_PairingOfferStoreRecord (o_offerId o) (o_createdAt o)
  (o_expiresAt o) (o_revokedAt o) v (o_failedRedeemAttempts o) (o_lockedAt o) (o_redeemSecretHash o) (o_trustAnchor o)
  (o_daemonDeviceId o) (o_daemonPublicKey o) (o_connection o).
Definition set_attempts v (o : PairingOfferStoreRecord) := Build_PairingOfferStoreRecord (o_offerId o) (o_createdAt o)
  (o_expiresAt o) (o_revokedAt o) (o_redeemedAt o) v (o_lockedAt o) (o_redeemSecretHash o) (o_trustAnchor o)
  (o_daemonDeviceId o) (o_daemonPublicKey o) (o_connection o).
Definition set_lockedAt v (o : PairingOfferStoreRecord) := Build_PairingOfferStoreRecord (o_offerId o) (o_createdAt o)
  (o_expiresAt o) (o_revokedAt o) (o_redeemedAt o) (o_failedRedeemAttempts o) v (o_redeemSecretHash o) (o_trustAnchor o)
  (o_daemonDeviceId o) (o_daemonPublicKey o) (o_connection o).

Definition writeOffer (offerId : string) (f : PairingOfferStoreRecord → PairingOfferStoreRecord) (s : Files) : Files :=
  writeStore (update_first (is_offer offerId) f (offers s)) s.

Definition revokePairingOffer (offerId : string) (s : Files) : bool * Files :=
  match find_first (is_offer offerId) (offers s) with
  | None => (false, s)
  | Some offer =>
      if truthy_time (o_revokedAt offer) then (true, s)
      else (true, appendPairingAudit [("event", JStr "pair_offer_revoked"); ("offerId", JStr (o_offerId offer))]
                    (writeOffer offerId (set_revokedAt (Some now)) s))
  end.

Definition zero_padded (n : nat) (b : string) : string := pad n b.
Definition secureSecretCompare (a b : string) : bool :=
  let n := Nat.max (Nat.max (String.length a) (String.length b)) 1 in
  String.eqb (zero_padded n a) (zero_padded n b) && (String.length a =? String.length b)%nat.

(** The verification of the client's proof; a key it cannot read is like a wrong one. *)
Definition client_proof_valid (offer : PairingOfferStoreRecord) (redeemSecret clientPublicKey clientProof : string) : bool :=
  match pem_verify clientPublicKey
          (canonicalRedeemPayload (o_offerId offer) redeemSecret (o_trustAnchor offer) clientPublicKey)
          (fromBase64Url clientProof) with
  | Some verified => verified
  | None => false
  end.

Definition redeem_failed_event (offer : PairingOfferStoreRecord) (rest : record) : record :=
  ("event", JStr "pair_offer_redeem_failed") :: ("offerId", JStr (o_offerId offer)) :: rest.

Inductive Redeemed :=
| Rejected                                                  (* null *)
| Accepted (payload : PairingOfferRedeemedPayload)
| Thrown.                                                   (* the daemon's key cannot be read *)

(** The text the daemon signs. *)
Definition redeemEnvelope (offer : PairingOfferStoreRecord) (peerId : string) : string :=
  JsString.join newline ["viewport-pair-redeem-response-v1"; o_offerId offer; peerId; o_trustAnchor offer;
                JSON_stringify (num (o_expiresAt offer))].

(** The daemon's signature of the response, empty without an identity. *)
Definition sign_response (offer : PairingOfferStoreRecord) (peerId : string) (s : Files) : option string :=
  match deviceIdentity s with
  | Some identity => toBase64Url <$> pem_sign (di_privateKey identity) (redeemEnvelope offer peerId)
  | None => Some ""
  end.

(** The secret matched. *)
Definition redeem_accept (offer : PairingOfferStoreRecord) (redeemSecret clientPublicKey : string) (s : Files) :
    Redeemed * Files :=
  let s := writeOffer (o_offerId offer) (set_redeemedAt (Some now)) s in
  let peerId := peerIdFromPublicKey clientPublicKey in
  let relayPairingSecret := deriveRelayPairingSecret (o_offerId offer) redeemSecret (o_trustAnchor offer) clientPublicKey
                              (o_daemonPublicKey offer) in
  let s := upsertPeerBinding peerId clientPublicKey relayPairingSecret (o_offerId offer) (o_trustAnchor offer) s in
  match sign_response offer peerId s with
  | None => (Thrown, s)
  | Some serverSignature =>
      (Accepted {| rp_offerId := o_offerId offer; rp_trustAnchor := o_trustAnchor offer;
                   rp_daemonDeviceId := o_daemonDeviceId offer; rp_daemonPublicKey := o_daemonPublicKey offer;
                   rp_peerId := peerId; rp_relayPairingPeerId := peerId; rp_serverSignature := serverSignature;
                   rp_connection := o_connection offer; rp_expiresAt := o_expiresAt offer; rp_createdAt := o_createdAt offer |},
       appendPairingAudit [("event", JStr "pair_offer_redeemed"); ("offerId", JStr (o_offerId offer)); ("peerId", JStr peerId);
                           ("daemonDeviceId", JStr (o_daemonDeviceId offer))] s)
  end.

(** One more failed attempt; the offer is locked after the fifth. *)
Definition count_failure (o : PairingOfferStoreRecord) : PairingOfferStoreRecord :=
  let attempts := coalesce (o_failedRedeemAttempts o) 0 + 1 in
  let o := set_attempts (Some attempts) o in
  if MAX_FAILED_REDEEM_ATTEMPTS <=? attempts then set_lockedAt (Some now) o else o.

(** The secret is compared with the hash. *)
Definition redeem_compare (offer : PairingOfferStoreRecord) (redeemSecret clientPublicKey : string) (s : Files) :
    Redeemed * Files :=
  match o_redeemSecretHash offer with
  | None | Some "" =>
      (Rejected, appendPairingAudit (redeem_failed_event offer [("reason", JStr "missing_redeem_secret_hash")])
                   (writeOffer (o_offerId offer) (set_lockedAt (Some now)) s))
  | Some expected =>
      let '(hash, s) := hashPairingSecret redeemSecret s in
      if secureSecretCompare expected hash then redeem_accept offer redeemSecret clientPublicKey s
      else
        let failed := count_failure offer in
        (Rejected, appendPairingAudit (redeem_failed_event offer
                     [("attempts", num (coalesce (o_failedRedeemAttempts failed) 0)); ("locked", JBool (truthy_time (o_lockedAt failed)))])
                     (writeOffer (o_offerId offer) count_failure s))
  end.

(** The text of an optional argument that is given and not empty. *)
Definition given (v : option string) : option string := t ← v; if truthy_str t then Some t else None.

Definition redeemPairingOffer (offerId redeemSecret : string) (expectedTrustAnchor clientPublicKey clientProof : option string)
    (s : Files) : Redeemed * Files :=
  if negb (nonblank redeemSecret) then (Rejected, s) else
  match find_first (is_offer offerId) (offers s) with
  | None => (Rejected, s)
  | Some offer =>
      if negb (open offer) then (Rejected, s) else
      match given clientPublicKey, given clientProof with
      | Some clientPublicKey, Some clientProof =>
          let mismatch := match given expectedTrustAnchor with
                          | Some expected => negb (String.eqb (o_trustAnchor offer) expected)
                          | None => false
                          end in
          if mismatch then
            (Rejected, appendPairingAudit (redeem_failed_event offer
               [("reason", JStr "trust_anchor_mismatch"); ("expectedTrustAnchor", JStr (coalesce expectedTrustAnchor ""));
                ("offeredTrustAnchor", JStr (o_trustAnchor offer))]) s)
          else if negb (client_proof_valid offer redeemSecret clientPublicKey clientProof) then
            (Rejected, appendPairingAudit (redeem_failed_event offer [("reason", JStr "client_proof_invalid")]) s)
          else redeem_compare offer redeemSecret clientPublicKey s
      | _, _ =>
          (Rejected, appendPairingAudit (redeem_failed_event offer [("reason", JStr "missing_client_identity_proof")]) s)
      end
  end.

(** ** What can happen to the store *)

Inductive Op :=
| Issue (connection : PairingOfferConnection) (ttlSeconds : Z)
| ListOffers
| Revoke (offerId : string)
| Redeem (offerId redeemSecret : string) (expectedTrustAnchor clientPublicKey clientProof : option string)
| Resolve (peerId : string)
| RotateToken
| RestartDaemon.

Inductive Answer :=
| AIssued (payload : PairingOfferIssuedPayload)
| AListed (l : list (PairingOfferStoreRecord * bool * bool))
| ARevoked (found : bool)
| ARedeemed (answer : Redeemed)
| AResolved (secret : option string)
| ARotated (token : string) (previous : bool)
| ARestarted.

Definition exec (op : Op) (s : Files) : Answer * Files :=
  match op with
  | Issue connection ttlSeconds => let '(p, s) := issuePairingOffer connection ttlSeconds s in (AIssued p, s)
  | ListOffers => (AListed (listPairingOffers s), s)
  | Revoke offerId => let '(b, s) := revokePairingOffer offerId s in (ARevoked b, s)
  | Redeem offerId secret anchor key proof =>
      let '(a, s) := redeemPairingOffer offerId secret anchor key proof s in (ARedeemed a, s)
  | Resolve peerId => let '(a, s) := resolveRelayPairingSecret peerId s in (AResolved a, s)
  | RotateToken => let '(token, previous, s) := rotateAuthToken s in (ARotated token previous, s)
  | RestartDaemon => (ARestarted, set_cachedSecretStoreKey None s)
  end.
End Store.
