(* ===== verification/PairingPeers.v ===== *)
(** * The bindings of paired clients

    What [upsertPeerBinding] stores, [resolveRelayPairingSecret] finds: the key that
    encrypts the secrets survives restarts, and compaction keeps the latest binding. *)

From S2P Require Import Prelude JsString JsMap Json JsonText JsonStringify Noise PairingOffers.
From stdpp Require Import prelude strings list.
From Stdlib Require Import ZArith Lia Ascii Sorting.

Open Scope Z_scope.

(** The text of a key has nothing to trim, and hashes have their length. *)
Class PairingLaws `{Crypto} : Prop := {
  base64_trim : ∀ b, trim (toBase64Url b +:+ newline) = toBase64Url b;
  sha256_length : ∀ b, String.length (sha256 b) = 32%nat;
  hkdf_length : ∀ ikm salt info, String.length (hkdfSync ikm salt info) = 32%nat
}.

(** ** Hexadecimal texts *)

Lemma hex_visible a : visible (hex_digit (code a / 16)) = true ∧ visible (hex_digit (code a mod 16)) = true.
Proof.
  pose proof (nat_ascii_bounded a) as Hb. unfold code.
  assert (∀ n, (n < 16)%nat → visible (hex_digit n) = true) as Hd.
  { intros n Hn. do 16 (destruct n as [|n]; [done|]). lia. }
  split; apply Hd; [apply Nat.Div0.div_lt_upper_bound; lia|apply Nat.mod_upper_bound; lia].
Qed.

Lemma trim_to_hex s : trim (to_hex s) = to_hex s.
Proof.
  apply trim_visible. induction s as [|a s IH]; [done|]. cbn [to_hex String.list_ascii_of_string forallb]. destruct (hex_visible a) as [-> ->]. exact IH.
Qed.

Lemma hex_digit_inj n m : (n < 16)%nat → (m < 16)%nat → hex_digit n = hex_digit m → n = m.
Proof. intros Hn Hm. do 16 (destruct n as [|n]; [do 16 (destruct m as [|m]; [done|]); lia|]). lia. Qed.

Lemma hex_byte_inj a b : hex_digit (code a / 16) = hex_digit (code b / 16) →
  hex_digit (code a mod 16) = hex_digit (code b mod 16) → a = b.
Proof.
  pose proof (nat_ascii_bounded a) as Ha. pose proof (nat_ascii_bounded b) as Hb. unfold code in *. intros E1 E2.
  apply hex_digit_inj in E1; [|apply Nat.Div0.div_lt_upper_bound; lia..].
  apply hex_digit_inj in E2; [|apply Nat.mod_upper_bound; lia..].
  rewrite <- (ascii_nat_embedding a), <- (ascii_nat_embedding b). f_equal.
  by rewrite (Nat.div_mod_eq (nat_of_ascii a) 16), (Nat.div_mod_eq (nat_of_ascii b) 16), E1, E2.
Qed.

Lemma to_hex_inj s t : to_hex s = to_hex t → s = t.
Proof.
  revert t. induction s as [|a s IH]; intros [|b t]; cbn [to_hex]; try done. intros E. injection E as E1 E2 E3.
  f_equal; [by apply hex_byte_inj|auto].
Qed.

(** ** Comparison in constant time *)

Lemma secret_compare_spec a b : secureSecretCompare a b = true ↔ a = b.
Proof.
  unfold secureSecretCompare, zero_padded, pad. split.
  - intros [E%String.eqb_eq Hl%Nat.eqb_eq]%andb_true_iff. rewrite Hl in E. revert E.
    generalize (zeros (Nat.max (Nat.max (String.length b) (String.length b)) 1 - String.length b)) as z.
    intros z. revert b Hl. induction a as [|x a IH]; intros [|y b] Hl E; simpl in Hl; try lia; [done|].
    autorewrite with js_string in E. simplify_eq. f_equal. by apply IH.
  - intros ->. by rewrite String.eqb_refl, Nat.eqb_refl.
Qed.

(** ** The key of the store *)

Section Peers.
Context `{CryptoLaws} {PL : PairingLaws} (limits : Limits).

Definition current_key (s : Files) : option string :=
  match cached_key s with Some k => Some k | None => filed_key s end.

(** What is cached is what the file has. *)
Definition settled (s : Files) : Prop := ∀ k, cached_key s = Some k → filed_key s = Some k.

(** All but the key is the same. *)
Record key_only (s s' : Files) : Prop := {
  ko_offers : offers s' = offers s; ko_peers : peers s' = peers s; ko_token : authToken s' = authToken s;
  ko_anchor : trustAnchor s' = trustAnchor s; ko_identity : deviceIdentity s' = deviceIdentity s
}.

Definition key_draw (r : Draws) : Prop := String.length (dr_storeKey r) = 32%nat.

Lemma key_spec r s k s' : getOrCreateSecretStoreKey r s = (k, s') → key_draw r →
  current_key s' = Some k ∧ cached_key s' = Some k ∧ key_only s s' ∧ (settled s → settled s') ∧
  (∀ k0, current_key s = Some k0 → k = k0).
Proof.
  unfold getOrCreateSecretStoreKey, current_key, settled, key_draw. intros E Hr.
  destruct (cached_key s) as [c|] eqn:Ec; [injection E as <- <-; rewrite Ec; split_and!; [done..|]; congruence|].
  destruct (filed_key s) as [f|] eqn:Ef.
  - injection E as <- <-. assert (cached_key (set_cachedSecretStoreKey (Some f) s) = Some f) as ->.
    { unfold filed_key in Ef. apply bind_Some in Ef as (t & _ & Ef). unfold cached_key. simpl. by destruct (store_key_bytes _) eqn:Eb; simplify_eq; rewrite Eb. }
    split; [done|]. split; [done|]. split; [done|]. split; [|by intros ? [= ->]].
    intros _ k [= <-]. exact Ef.
  - injection E as <- <-. match goal with |- context [cached_key ?x] => set (s1 := x) end.
    assert (cached_key s1 = Some (dr_storeKey r)) as Hcached.
    { unfold cached_key, store_key_bytes. cbn -[String.length Nat.eqb]. by rewrite Hr. }
    rewrite Hcached. split; [done|]. split; [done|]. split; [done|]. split; [|done].
    intros _ k [= <-]. unfold filed_key, store_key_bytes.
    cbn -[String.length Nat.eqb]. by rewrite base64_trim, base64_round_trip, Hr.
Qed.

(** ** Compaction *)

Record presentable (T : Z) (p : PairingPeerBindingRecord) : Prop := {
  pr_valid : valid_binding p = true; pr_trimmed : trim (pb_peerId p) = pb_peerId p;
  pr_time : ∃ t, pb_lastPairedAt p = Some t ∧ t ≤ T
}.
Definition bindings_ok (T : Z) (l : list PairingPeerBindingRecord) : Prop :=
  Forall (presentable T) l ∧ NoDup (pb_peerId <$> l).

Lemma trim_presentable T p : presentable T p → presentable T (trim_binding p).
Proof.
  intros [V I Ht]. split; [|by simpl; rewrite trim_idem|done]. unfold valid_binding, nonblank in *. simpl.
  by rewrite !trim_idem.
Qed.

Lemma trim_binding_idem p : trim_binding (trim_binding p) = trim_binding p.
Proof. unfold trim_binding. simpl. by rewrite !trim_idem. Qed.

Lemma bindings_trim T l : bindings_ok T l → bindings_ok T (trim_binding <$> l).
Proof.
  intros [F N]. split; [apply Forall_fmap; eapply Forall_impl; [exact F|]; apply trim_presentable|].
  rewrite <- list_fmap_compose. rewrite Forall_forall in F.
  erewrite list_fmap_ext; [exact N|]. intros i p Hp%list_elem_of_lookup_2. simpl. by apply pr_trimmed with T, F.
Qed.

Lemma bindings_perm T l l' : l ≡ₚ l' → bindings_ok T l → bindings_ok T l'.
Proof. intros Hp [F N]. by split; rewrite <- Hp. Qed.

Lemma bindings_sublist T l l' : l `sublist_of` l' → bindings_ok T l' → bindings_ok T l.
Proof.
  intros Hs [F N]. split; [|by eapply sublist_NoDup, fmap_sublist].
  rewrite Forall_forall in *. intros p Hp. apply F. eapply elem_of_submseteq; [exact Hp|]. by apply sublist_submseteq.
Qed.

Lemma jm_set_new {V} k (v : V) (m : list (string * V)) : k ∉ jm_keys m → jm_set k v m = m ++ [(k, v)].
Proof.
  induction m as [|[k' v'] m IH]; simpl; [done|]. intros Hk. rewrite decide_False by set_solver. f_equal. apply IH. set_solver.
Qed.

Lemma dedupe_fold T l acc : Forall (presentable T) l → NoDup (jm_keys acc ++ (pb_peerId <$> l)) →
  fold_left dedupe_binding l acc = acc ++ map (λ p, (pb_peerId p, trim_binding p)) l.
Proof.
  revert acc. induction l as [|p l IH]; intros acc F N; simpl; [by rewrite app_nil_r|].
  inversion F as [|?? Hp Hl]; subst. unfold dedupe_binding at 2. rewrite (pr_valid _ _ Hp). simpl.
  assert (pb_peerId p ∉ jm_keys acc) as Hk.
  { apply NoDup_app in N as (_ & N & _). intros Hin. apply (N _ Hin). simpl. set_solver. }
  rewrite (proj2 (jm_get_None _ _) Hk), jm_set_new by done. rewrite IH; [by rewrite <- app_assoc|done|].
  unfold jm_keys in *. rewrite fmap_app. simpl. by rewrite <- app_assoc.
Qed.

Lemma compact_eq T l : bindings_ok T l →
  let sorted := sort_by_key binding_time (trim_binding <$> l) in
  compactPeerBindings limits l = if Z.of_nat (length sorted) <=? pairingPeerBindingsMax limits then sorted
                                 else keep_last (Z.to_nat (pairingPeerBindingsMax limits)) sorted.
Proof.
  intros [F N]. unfold compactPeerBindings. rewrite (dedupe_fold T); [|done..]. simpl. unfold jm_values.
  rewrite <- list_fmap_compose. done.
Qed.

Lemma compact_ok T l : bindings_ok T l → bindings_ok T (compactPeerBindings limits l).
Proof.
  intros Hl. rewrite (compact_eq T) by done. cbn zeta.
  assert (bindings_ok T (sort_by_key binding_time (trim_binding <$> l))) as Hs
    by (eapply bindings_perm; [by rewrite sort_by_key_perm|by apply bindings_trim]).
  case_match; [done|]. eapply bindings_sublist, Hs. apply sublist_drop.
Qed.

Lemma compact_length T l : bindings_ok T l → 1 ≤ pairingPeerBindingsMax limits →
  Z.of_nat (length (compactPeerBindings limits l)) ≤ pairingPeerBindingsMax limits.
Proof.
  intros Hl Hm. rewrite (compact_eq T) by done. cbn zeta. case_match; split_bools; [done|].
  unfold keep_last. rewrite length_drop. lia.
Qed.

(** Nothing is lost while all fit; otherwise the last and latest entry stays. *)
Lemma compact_keeps T l p : bindings_ok T l → p ∈ l → Z.of_nat (length l) ≤ pairingPeerBindingsMax limits →
  trim_binding p ∈ compactPeerBindings limits l.
Proof.
  intros Hl Hp Hm. rewrite (compact_eq T) by done. cbn zeta.
  rewrite (Permutation_length (sort_by_key_perm _ _)), length_fmap, (proj2 (Z.leb_le _ _)) by done.
  rewrite sort_by_key_perm. by apply list_elem_of_fmap_2.
Qed.

Lemma compact_keeps_last T l p : bindings_ok T (l ++ [p]) → pb_lastPairedAt p = Some T →
  1 ≤ pairingPeerBindingsMax limits → trim_binding p ∈ compactPeerBindings limits (l ++ [p]).
Proof.
  intros Hl Hp Hm. rewrite (compact_eq T) by done. cbn zeta. rewrite fmap_app. cbn [fmap list_fmap].
  rewrite sort_by_key_snoc.
  - case_match; [set_solver|]. unfold keep_last. rewrite drop_app, length_app. simpl.
    replace (_ + 1 - _ - _)%nat with 0%nat by lia. rewrite drop_0. set_solver.
  - apply Forall_fmap. destruct Hl as [[F _]%Forall_app _]. eapply Forall_impl; [exact F|]. intros q [_ _ (t & Hq & Ht)].
    unfold key_le, binding_time. simpl. by rewrite Hq, Hp.
Qed.

Lemma find_peer l p : NoDup (pb_peerId <$> l) → p ∈ l → find_first (is_peer (pb_peerId p)) l = Some p.
Proof.
  induction l as [|q l IH]; simpl; [set_solver|]. intros [Hq N]%NoDup_cons [->|Hp]%elem_of_cons;
    unfold is_peer at 1; [by rewrite String.eqb_refl|].
  destruct (String.eqb_spec (pb_peerId q) (pb_peerId p)) as [E|]; [|auto].
  exfalso. apply Hq. rewrite E. by apply list_elem_of_fmap_2.
Qed.

(** ** What is stored is found *)

Lemma stored_secret r s key p secret body tag : current_key s = Some key → key_draw r →
  aes_seal key (dr_iv r) "" (toBase64Url secret) = (body, tag) → String.length secret = 32%nat →
  ∀ r', key_draw r' →
  (decryptRelayPairingSecret r'
    {| pb_peerId := pb_peerId p; pb_publicKey := pb_publicKey p; pb_ciphertext := Some (toBase64Url body);
       pb_iv := Some (toBase64Url (dr_iv r)); pb_tag := Some (toBase64Url tag); pb_firstPairedAt := pb_firstPairedAt p;
       pb_lastPairedAt := pb_lastPairedAt p; pb_lastOfferId := pb_lastOfferId p; pb_trustAnchor := pb_trustAnchor p |} s).1 = Some secret.
Proof.
  intros Hk Hr Hs Hl r' Hr'. unfold decryptRelayPairingSecret. simpl.
  destruct (getOrCreateSecretStoreKey r' s) as [key' s'] eqn:E. simpl.
  destruct (key_spec _ _ _ _ E Hr') as (_ & _ & _ & _ & Hk'). rewrite (Hk' _ Hk). rewrite !base64_round_trip.
  pose proof (open_sealed key (dr_iv r) "" (toBase64Url secret)) as Ho. rewrite Hs in Ho. rewrite Ho. simpl.
  by rewrite base64_round_trip, Hl.
Qed.

(** The entry that [upsertPeerBinding] writes, from the one it replaces. *)
Definition written (now : Z) (publicKey ciphertext iv tag offerId anchor : string) (peerId : string) (first : Z) :=
  {| pb_peerId := peerId; pb_publicKey := publicKey; pb_ciphertext := Some ciphertext; pb_iv := Some iv; pb_tag := Some tag;
     pb_firstPairedAt := first; pb_lastPairedAt := Some now; pb_lastOfferId := offerId; pb_trustAnchor := anchor |}.

Lemma update_first_ids id f l : (∀ p, is_peer id p = true → pb_peerId (f p) = pb_peerId p) →
  pb_peerId <$> update_first (is_peer id) f l = pb_peerId <$> l.
Proof. intros Hf. induction l as [|p l IH]; simpl; [done|]. case_match; simpl; f_equal; auto. Qed.

Lemma length_update_first {A} (p : A → bool) f l : length (update_first p f l) = length l.
Proof. induction l as [|x l IH]; simpl; [done|]. case_match; simpl; auto. Qed.

Lemma update_first_elem {A} (p : A → bool) f l x : x ∈ update_first p f l → x ∈ l ∨ ∃ y, y ∈ l ∧ p y = true ∧ x = f y.
Proof. induction l as [|y l IH]; simpl; [by left|]. destruct (p y) eqn:E; set_solver. Qed.

Lemma update_first_found {A} (p : A → bool) f l x : find_first p l = Some x → f x ∈ update_first p f l.
Proof. induction l as [|y l IH]; simpl; [done|]. destruct (p y); [intros [= ->]; set_solver|set_solver]. Qed.

(** Replacing or adding an entry that was written now. *)
Lemma upsert_written now l peerId w : bindings_ok now l →
  (∀ first, pb_peerId (w peerId first) = peerId) → (∀ first, presentable now (w peerId first)) →
  (∀ first, pb_lastPairedAt (w peerId first) = Some now) → 1 ≤ pairingPeerBindingsMax limits →
  Z.of_nat (length l) ≤ pairingPeerBindingsMax limits →
  let l' := match find_first (is_peer peerId) l with
            | Some _ => update_first (is_peer peerId) (λ p, w (pb_peerId p) (pb_firstPairedAt p)) l
            | None => l ++ [w peerId now]
            end in
  bindings_ok now l' ∧ ∃ first, trim_binding (w peerId first) ∈ compactPeerBindings limits l'.
Proof.
  intros Hl Hid Hw Htime Hm Hlen. cbn zeta. destruct (find_first (is_peer peerId) l) as [old|] eqn:E.
  - assert (∀ p, is_peer peerId p = true → pb_peerId p = peerId) as Hp by (intros p; unfold is_peer; apply String.eqb_eq).
    set (f := λ p, w (pb_peerId p) (pb_firstPairedAt p)).
    assert (bindings_ok now (update_first (is_peer peerId) f l)) as Hok.
    { destruct Hl as [F N]. split.
      - rewrite Forall_forall in *. intros q [Hq|(p & Hin & Hq & ->)]%update_first_elem; [auto|].
        unfold f. rewrite (Hp _ Hq). apply Hw.
      - rewrite update_first_ids; [done|]. intros p Hq. unfold f. by rewrite (Hp _ Hq), Hid. }
    split; [done|]. pose proof (update_first_found _ f _ _ E) as Hf. apply find_first_Some in E as [_ Eold].
    exists (pb_firstPairedAt old). unfold f in Hf at 1. rewrite (Hp _ Eold) in Hf.
    eapply compact_keeps; [exact Hok|exact Hf|]. by rewrite length_update_first.
  - assert (bindings_ok now (l ++ [w peerId now])) as Hok.
    { destruct Hl as [F N]. split; [apply Forall_app; split; [done|by apply Forall_singleton]|]. rewrite fmap_app. cbn [fmap list_fmap]. rewrite Hid.
      apply NoDup_app. split; [done|]. split; [|apply NoDup_singleton].
      intros x Hx%list_elem_of_fmap ->%list_elem_of_singleton. destruct Hx as (p & Hx & Hp).
      pose proof (proj1 (find_first_None _ _) E _ Hp) as Hn. unfold is_peer in Hn. by rewrite <- Hx, String.eqb_refl in Hn. }
    split; [done|]. exists now. by apply (compact_keeps_last now).
Qed.

Theorem upsert_resolves now r s peerId publicKey secret offerId anchor : bindings_ok now (peers s) → key_draw r →
  1 ≤ pairingPeerBindingsMax limits → trim peerId = peerId → nonblank peerId = true → nonblank publicKey = true →
  String.length secret = 32%nat →
  let s' := upsertPeerBinding limits now r peerId publicKey (toBase64Url secret) offerId anchor s in
  bindings_ok now (peers s') ∧ ∀ r', key_draw r' → (resolveRelayPairingSecret limits r' peerId s').1 = Some secret.
Proof.
  intros Hs Hr Hm Hid Hnb Hpk Hsec. unfold upsertPeerBinding, encryptRelayPairingSecret, writePeerBindings.
  destruct (getOrCreateSecretStoreKey r s) as [key s1] eqn:Ek. destruct (key_spec _ _ _ _ Ek Hr) as (Hcur & _ & _ & _ & _).
  destruct (aes_seal key (dr_iv r) "" (toBase64Url secret)) as [body tag] eqn:Eseal. cbn [set_peers peers].
  set (w := written now publicKey (toBase64Url body) (toBase64Url (dr_iv r)) (toBase64Url tag) offerId anchor).
  pose proof (compact_ok _ _ Hs) as Hread. fold (readPeerBindings limits s) in Hread.
  destruct (upsert_written now (readPeerBindings limits s) peerId w) as [Hok [first Hin]]; try done.
  { intros f. split; [unfold valid_binding; cbn [w written pb_peerId pb_publicKey]; by rewrite Hnb, Hpk|exact Hid|]. exists now. split; [reflexivity|lia]. }
  { apply (compact_length now); done. }
  match type of Hok with bindings_ok _ ?x => set (l := x) in * end.
  match goal with |- context [compactPeerBindings limits ?x] => change x with l end.
  pose proof (compact_ok _ _ Hok) as Hok1. split; [done|]. intros r' Hr'.
  unfold resolveRelayPairingSecret. rewrite Hnb. cbn [negb]. unfold readPeerBindings. cbn [peers set_peers].
  pose proof (compact_keeps _ _ _ Hok1 Hin (compact_length _ _ Hok Hm)) as Hin'. rewrite trim_binding_idem in Hin'.
  pose proof (find_peer _ _ (proj2 (compact_ok _ _ Hok1)) Hin') as Hf. cbn [trim_binding w written pb_peerId] in Hf. rewrite Hid in Hf.
  rewrite Hf. apply (stored_secret r _ key (trim_binding (w peerId first))); done.
Qed.

(** ** What is stored stays *)

(** What a binding decrypts to depends on the key of the store alone. *)
Lemma decrypt_key r r' b k s s' : current_key s = Some k → current_key s' = Some k → key_draw r → key_draw r' →
  (decryptRelayPairingSecret r' b s').1 = (decryptRelayPairingSecret r b s).1.
Proof.
  intros Hk Hk' Hr Hr'. unfold decryptRelayPairingSecret.
  destruct (getOrCreateSecretStoreKey r s) as [k1 s1] eqn:E1, (getOrCreateSecretStoreKey r' s') as [k2 s2] eqn:E2.
  destruct (key_spec _ _ _ _ E1 Hr) as (_ & _ & _ & _ & H1). destruct (key_spec _ _ _ _ E2 Hr') as (_ & _ & _ & _ & H2).
  rewrite (H1 _ Hk), (H2 _ Hk'). by repeat case_match.
Qed.

Lemma compact_shorter T l : bindings_ok T l → (length (compactPeerBindings limits l) ≤ length l)%nat.
Proof.
  intros Hl. rewrite (compact_eq T) by done. cbn zeta.
  pose proof (Permutation_length (sort_by_key_perm binding_time (trim_binding <$> l))) as Hp. rewrite length_fmap in Hp.
  case_match; [lia|]. unfold keep_last. rewrite length_drop. lia.
Qed.

Lemma compact_trimmed T l b : bindings_ok T l → b ∈ compactPeerBindings limits l → trim_binding b = b.
Proof.
  intros Hl. rewrite (compact_eq T) by done. cbn zeta. intros Hb.
  assert (b ∈ sort_by_key binding_time (trim_binding <$> l)) as Hs.
  { case_match; [done|]. eapply elem_of_sublist; [exact Hb|apply sublist_drop]. }
  rewrite sort_by_key_perm in Hs. apply list_elem_of_fmap in Hs as (p & -> & _). apply trim_binding_idem.
Qed.

Lemma update_first_other {A} (p : A → bool) f l x : p x = false → x ∈ l → x ∈ update_first p f l.
Proof.
  intros Hp. induction l as [|y l IH]; simpl; [done|]. rewrite elem_of_cons. intros [->|Hx]; [rewrite Hp; by left|].
  destruct (p y); right; auto.
Qed.

(** Binding one client keeps the others while there is room. *)
Lemma upsert_keeps now r s peerId publicKey text offerId anchor b : bindings_ok now (peers s) → key_draw r →
  trim peerId = peerId → nonblank peerId = true → nonblank publicKey = true →
  b ∈ readPeerBindings limits s → pb_peerId b ≠ peerId → Z.of_nat (S (length (peers s))) ≤ pairingPeerBindingsMax limits →
  let s' := upsertPeerBinding limits now r peerId publicKey text offerId anchor s in
  b ∈ readPeerBindings limits s' ∧ (length (peers s') ≤ S (length (peers s)))%nat.
Proof.
  intros Hs Hr Hid Hnb Hpk Hb Hne Hm. unfold upsertPeerBinding, encryptRelayPairingSecret, writePeerBindings.
  destruct (getOrCreateSecretStoreKey r s) as [key s1]. destruct (aes_seal key (dr_iv r) "" text) as [body tag].
  pose proof (compact_ok _ _ Hs) as Hread. pose proof (compact_trimmed _ _ _ Hs Hb) as Htrim. pose proof (compact_shorter _ _ Hs) as Hle.
  fold (readPeerBindings limits s) in Hread, Hle. cbn [set_peers peers].
  set (w := written now publicKey (toBase64Url body) (toBase64Url (dr_iv r)) (toBase64Url tag) offerId anchor).
  destruct (upsert_written now (readPeerBindings limits s) peerId w) as [Hok _]; try done; [|lia..|].
  { intros f. split; [unfold valid_binding; cbn [w written pb_peerId pb_publicKey]; by rewrite Hnb, Hpk|exact Hid|]. exists now. split; [reflexivity|lia]. }
  match type of Hok with bindings_ok _ ?x => set (l := x) in * end.
  match goal with |- context [compactPeerBindings limits ?x] => change x with l end.
  assert (b ∈ l) as Hl.
  { unfold l. case_match; [|set_solver]. apply update_first_other; [|done]. by apply String.eqb_neq. }
  assert (length l ≤ S (length (peers s)))%nat as Hlen.
  { unfold l. case_match; [rewrite length_update_first; lia|rewrite length_app; simpl; lia]. }
  pose proof (compact_ok _ _ Hok) as Hok1. pose proof (compact_shorter _ _ Hok) as Hle1.
  pose proof (compact_keeps _ _ _ Hok Hl ltac:(lia)) as H1. rewrite Htrim in H1. split; [|lia].
  unfold readPeerBindings. cbn [set_peers peers]. pose proof (compact_keeps _ _ _ Hok1 H1 ltac:(lia)) as H2. by rewrite Htrim in H2.
Qed.
End Peers.
