(* ===== verification/PairingOffersProps.v ===== *)
(** * Pairing offers: what becomes of an offer

    [Run] is a history of the store.  An offer is redeemed once, with its secret, before
    it expires, unless it was revoked or locked; and a client that has the offer and a key
    is paired by it. *)

From S2P Require Import Prelude JsString JsMap Json JsonText JsonStringify Noise PairingOffers PairingPeers.
From stdpp Require Import prelude strings list.
From Stdlib Require Import ZArith Lia Ascii Sorting.

Open Scope Z_scope.

Section History.
Context `{CryptoLaws} {PL : PairingLaws} `{PemKeys} (limits : Limits).

(** One operation, at a time, with what it drew, and the files before it. *)
Record Step := { st_now : Z; st_draws : Draws; st_op : Op; st_before : Files; st_answer : Answer }.

Definition step_of (now : Z) (r : Draws) (op : Op) (s : Files) : Step :=
  {| st_now := now; st_draws := r; st_op := op; st_before := s; st_answer := (exec limits now r op s).1 |}.

Inductive Run (s0 : Files) : list Step → Files → Prop :=
| run_start : Run s0 [] s0
| run_op tr s now r op : Run s0 tr s → 0 < now → key_draw r →
    Run s0 (tr ++ [step_of now r op s]) (exec limits now r op s).2.

(** ** What an operation does to an offer *)

(** The offer whose hash [redeemPairingOffer] compares with the secret, and the key of
    the client. *)
Definition compared (now : Z) (op : Op) (s : Files) : option (PairingOfferStoreRecord * string) :=
  match op with
  | Redeem offerId secret anchor key proof =>
      if nonblank secret then
        offer ← find_first (is_offer offerId) (offers s);
        key ← given key; proof ← given proof;
        if open now offer &&
           match given anchor with Some expected => String.eqb (o_trustAnchor offer) expected | None => true end &&
           client_proof_valid offer secret key proof
        then Some (offer, key) else None
      else None
  | _ => None
  end.

Definition redeems (op : Op) (answer : Answer) (id : string) : bool :=
  match op, answer with
  | Redeem offerId _ _ _ _, ARedeemed (Accepted _) | Redeem offerId _ _ _ _, ARedeemed Thrown => String.eqb offerId id
  | _, _ => false
  end.
Definition revokes (op : Op) (id : string) : bool := match op with Revoke offerId => String.eqb offerId id | _ => false end.

(** A revocation that found its offer. *)
Definition revoked_by (op : Op) (answer : Answer) (id : string) : bool :=
  match op, answer with Revoke offerId, ARevoked true => String.eqb offerId id | _, _ => false end.

(** The secret was compared, and was not the one. *)
Definition guesses (now : Z) (op : Op) (s : Files) (answer : Answer) (id : string) : bool :=
  match compared now op s with
  | Some (offer, _) => String.eqb (o_offerId offer) id && negb (redeems op answer id)
  | None => false
  end.

Definition hash_missing (o : PairingOfferStoreRecord) : bool :=
  match o_redeemSecretHash o with None | Some "" => true | _ => false end.

Definition evolve (now : Z) (op : Op) (s : Files) (answer : Answer) (o : PairingOfferStoreRecord) : PairingOfferStoreRecord :=
  let id := o_offerId o in
  if revokes op id then (if truthy_time (o_revokedAt o) then o else set_revokedAt (Some now) o)
  else if redeems op answer id then set_redeemedAt (Some now) o
  else if guesses now op s answer id then (if hash_missing o then set_lockedAt (Some now) o else count_failure now o)
  else o.

(** The offer that an operation adds. *)
Definition issued (now : Z) (r : Draws) (op : Op) (s : Files) : list PairingOfferStoreRecord :=
  match op with
  | Issue connection ttlSeconds =>
      let s := match readAuthToken s with None => (rotateAuthToken limits now r s).2 | Some _ => s end in
      let '(anchor, s) := getOrCreateTrustAnchor limits now r s in
      let '(identity, s) := getOrCreateDaemonIdentity limits now r s in
      let '(hash, s) := hashPairingSecret r (to_hex (dr_redeemSecret r)) s in
      [{| o_offerId := dr_offerId r; o_createdAt := now; o_expiresAt := now + Z.min 3600 (Z.max 30 ttlSeconds) * 1000;
          o_revokedAt := None; o_redeemedAt := None; o_failedRedeemAttempts := None; o_lockedAt := None;
          o_redeemSecretHash := Some hash; o_trustAnchor := anchor; o_daemonDeviceId := di_deviceId identity;
          o_daemonPublicKey := di_publicKey identity; o_connection := connection |}]
  | _ => []
  end.

Definition guess_step (id : string) (st : Step) : bool := guesses (st_now st) (st_op st) (st_before st) (st_answer st) id.
Definition redeem_step (id : string) (st : Step) : bool := redeems (st_op st) (st_answer st) id.
Definition revoke_step (id : string) (st : Step) : bool := revoked_by (st_op st) (st_answer st) id.
Definition issue_ids (st : Step) : list string :=
  match st_op st with Issue _ _ => [dr_offerId (st_draws st)] | _ => [] end.
Definition issued_ids (tr : list Step) : list string := tr ≫= issue_ids.
Definition wrong_guesses (id : string) (tr : list Step) : nat := length (List.filter (guess_step id) tr).

(** ** Frames *)

Lemma audit_frame now ev s : let s' := appendPairingAudit limits now ev s in
  offers s' = offers s ∧ peers s' = peers s ∧ authToken s' = authToken s ∧ trustAnchor s' = trustAnchor s ∧
  deviceIdentity s' = deviceIdentity s ∧ secretStoreKey s' = secretStoreKey s ∧ cachedSecretStoreKey s' = cachedSecretStoreKey s.
Proof. unfold appendPairingAudit. by case_match. Qed.

(** The key of the store stays what it is. *)
Definition key_kept (s s' : Files) : Prop :=
  settled s → settled s' ∧ ∀ k, current_key s = Some k → current_key s' = Some k.

Lemma key_kept_trans s1 s2 s3 : key_kept s1 s2 → key_kept s2 s3 → key_kept s1 s3.
Proof. unfold key_kept. naive_solver. Qed.

Lemma key_kept_same s s' : secretStoreKey s' = secretStoreKey s → cachedSecretStoreKey s' = cachedSecretStoreKey s →
  key_kept s s'.
Proof. intros E1 E2. unfold key_kept, settled, current_key, cached_key, filed_key. by rewrite E1, E2. Qed.

(** What an operation may change besides the key. *)
Definition offers_kept (s s' : Files) : Prop := offers s' = offers s.

Lemma token_frame now r s : let s' := (rotateAuthToken limits now r s).2 in offers_kept s s' ∧ key_kept s s'.
Proof.
  cbn zeta. unfold rotateAuthToken. cbn [snd]. destruct (audit_frame now [("event", JStr "auth_token_rotated")] (set_authToken (Some (to_hex (dr_token r) +:+ newline)) s))
    as (E1 & _ & _ & _ & _ & E2 & E3). split; [exact E1|]. by apply key_kept_same.
Qed.

Lemma anchor_frame now r s : let s' := (getOrCreateTrustAnchor limits now r s).2 in offers_kept s s' ∧ key_kept s s'.
Proof.
  cbn zeta. unfold getOrCreateTrustAnchor. destruct (readTrustAnchorRecord s); cbn [snd]; [by split|].
  match goal with |- context [appendPairingAudit _ _ ?ev ?s1] => destruct (audit_frame now ev s1) as (E1 & _ & _ & _ & _ & E2 & E3) end.
  split; [exact E1|]. by apply key_kept_same.
Qed.

Lemma identity_frame now r s : let s' := (getOrCreateDaemonIdentity limits now r s).2 in offers_kept s s' ∧ key_kept s s'.
Proof.
  cbn zeta. unfold getOrCreateDaemonIdentity. destruct (deviceIdentity s); cbn [snd]; [by split|].
  match goal with |- context [appendPairingAudit _ _ ?ev ?s1] => destruct (audit_frame now ev s1) as (E1 & _ & _ & _ & _ & E2 & E3) end.
  split; [exact E1|]. by apply key_kept_same.
Qed.

Lemma key_frame r s : key_draw r → let s' := (getOrCreateSecretStoreKey r s).2 in key_only s s' ∧ key_kept s s'.
Proof.
  intros Hr. destruct (getOrCreateSecretStoreKey r s) as [k s'] eqn:E. destruct (key_spec _ _ _ _ E Hr) as (Hc & _ & Ho & Hs & Hk).
  cbn zeta. cbn [snd]. split; [exact Ho|]. intros Hset. split; [by apply Hs|]. intros k0 Hk0. by rewrite (Hk _ Hk0) in Hc.
Qed.

Lemma hash_frame r secret s : key_draw r → ∃ k,
  hashPairingSecret r secret s = (to_hex (hmac k secret), (getOrCreateSecretStoreKey r s).2) ∧
  current_key (getOrCreateSecretStoreKey r s).2 = Some k ∧ (∀ k0, current_key s = Some k0 → k = k0).
Proof.
  intros Hr. unfold hashPairingSecret. destruct (getOrCreateSecretStoreKey r s) as [k s'] eqn:E.
  destruct (key_spec _ _ _ _ E Hr) as (Hc & _ & _ & _ & Hk). by exists k.
Qed.

Lemma upsert_frame now r peerId publicKey secret offerId anchor s : key_draw r →
  let s' := upsertPeerBinding limits now r peerId publicKey secret offerId anchor s in
  offers_kept s s' ∧ key_kept s s' ∧ deviceIdentity s' = deviceIdentity s.
Proof.
  intros Hr. cbn zeta. unfold upsertPeerBinding, encryptRelayPairingSecret.
  destruct (key_frame r s Hr) as [Ho Hk]. destruct (getOrCreateSecretStoreKey r s) as [key s1]. cbn [snd] in Ho, Hk.
  destruct (aes_seal _ _ _ _). destruct Ho as [E1 _ _ _ E2].
  split; [exact E1|]. split; [|exact E2]. eapply key_kept_trans; [exact Hk|]. by apply key_kept_same.
Qed.

(** ** What an operation does to the offers *)

Lemma update_offer id f l : NoDup (o_offerId <$> l) →
  update_first (is_offer id) f l = map (λ o, if String.eqb (o_offerId o) id then f o else o) l.
Proof.
  unfold is_offer. induction l as [|o l IH]; simpl; [done|]. intros [Ho N]%NoDup_cons.
  destruct (String.eqb_spec (o_offerId o) id) as [<-|]; [|by rewrite IH]. f_equal.
  rewrite <- (map_id l) at 1. apply map_ext_in. intros x Hx%list_elem_of_In.
  destruct (String.eqb_spec (o_offerId x) (o_offerId o)) as [E|]; [|done].
  exfalso. apply Ho. rewrite <- E. by apply list_elem_of_fmap_2.
Qed.

Lemma find_offer l o : NoDup (o_offerId <$> l) → o ∈ l → find_first (is_offer (o_offerId o)) l = Some o.
Proof.
  unfold is_offer. induction l as [|x l IH]; simpl; [set_solver|]. intros [Hx N]%NoDup_cons [->|Ho]%elem_of_cons;
    [by rewrite String.eqb_refl|].
  destruct (String.eqb_spec (o_offerId x) (o_offerId o)) as [E|]; [|auto].
  exfalso. apply Hx. rewrite E. by apply list_elem_of_fmap_2.
Qed.

Lemma given_Some v t : given v = Some t → v = Some t.
Proof. unfold given. destruct v as [u|]; cbn [mbind option_bind]; [|done]. by destruct (truthy_str u). Qed.

Lemma redeem_cases now r id secret anchor key proof s :
  match compared now (Redeem id secret anchor key proof) s with
  | Some (offer, key') =>
      find_first (is_offer id) (offers s) = Some offer ∧ open now offer = true ∧
      (∃ proof', given proof = Some proof' ∧ given key = Some key' ∧ client_proof_valid offer secret key' proof' = true) ∧
      redeemPairingOffer limits now r id secret anchor key proof s = redeem_compare limits now r offer secret key' s
  | None => ∃ s', redeemPairingOffer limits now r id secret anchor key proof s = (Rejected, s') ∧
      (s' = s ∨ ∃ ev, s' = appendPairingAudit limits now ev s)
  end.
Proof.
  unfold compared, redeemPairingOffer. destruct (nonblank secret); cbn [negb]; [|by eauto].
  destruct (find_first (is_offer id) (offers s)) as [offer|] eqn:Ef; cbn [mbind option_bind]; [|by eauto].
  destruct (open now offer) eqn:Eo; cbn [negb andb];
    [|destruct (given key); [destruct (given proof)|]; cbn [mbind option_bind]; eauto].
  destruct (given key) as [key'|]; cbn [mbind option_bind]; [|by eauto].
  destruct (given proof) as [proof'|]; cbn [mbind option_bind]; [|by eauto].
  destruct (given anchor) as [expected|]; cbn [andb].
  - destruct (String.eqb (o_trustAnchor offer) expected); cbn [negb andb]; [|by eauto].
    destruct (client_proof_valid offer secret key' proof') eqn:Ep; cbn [negb]; [by eauto 10|by eauto].
  - destruct (client_proof_valid offer secret key' proof') eqn:Ep; cbn [negb]; [by eauto 10|by eauto].
Qed.

(** The answers of the comparison. *)
Lemma compare_cases now r offer secret key s : key_draw r → NoDup (o_offerId <$> offers s) → offer ∈ offers s →
  let '(a, s') := redeem_compare limits now r offer secret key s in
  key_kept s s' ∧ ∃ f, offers s' = compactOffers now (update_first (is_offer (o_offerId offer)) f (offers s)) ∧
  if hash_missing offer then a = Rejected ∧ f = set_lockedAt (Some now)
  else ∃ k, (∀ k0, current_key s = Some k0 → k = k0) ∧
    if decide (o_redeemSecretHash offer = Some (to_hex (hmac k secret)))
    then (a = Thrown ∨ ∃ p, a = Accepted p) ∧ f = set_redeemedAt (Some now)
    else a = Rejected ∧ f = count_failure now.
Proof.
  intros Hr N Hin. unfold redeem_compare, hash_missing.
  assert (∀ s1 f, offers s1 = offers s → offers (writeOffer now (o_offerId offer) f s1) =
    compactOffers now (update_first (is_offer (o_offerId offer)) f (offers s))) as Hw by (intros s1 f E; unfold writeOffer; by rewrite E).
  assert (∀ ev f, let s' := appendPairingAudit limits now ev (writeOffer now (o_offerId offer) f s) in
    key_kept s s' ∧ offers s' = compactOffers now (update_first (is_offer (o_offerId offer)) f (offers s))) as Hlock.
  { intros ev f. destruct (audit_frame now ev (writeOffer now (o_offerId offer) f s)) as (E1 & _ & _ & _ & _ & E2 & E3).
    split; [by apply key_kept_same|]. by rewrite E1, Hw. }
  destruct (o_redeemSecretHash offer) as [expected|]; [|split; [apply Hlock|]; eexists; split; [apply Hlock|done]].
  destruct expected as [|x expected]; [split; [apply Hlock|]; eexists; split; [apply Hlock|done]|]. set (h := String x expected).
  destruct (hash_frame r secret s Hr) as (k & -> & _ & Hk). destruct (key_frame r s Hr) as [Ho Hkk].
  set (s1 := (getOrCreateSecretStoreKey r s).2) in *. destruct (secureSecretCompare h (to_hex (hmac k secret))) eqn:Ec.
  - apply secret_compare_spec in Ec. unfold redeem_accept.
    match goal with |- context [upsertPeerBinding ?a ?b ?c ?d ?e ?f ?g ?h ?i] =>
      destruct (upsert_frame b c d e f g h i Hr) as (U1 & U2 & _); set (s2 := upsertPeerBinding a b c d e f g h i) in * end.
    assert (key_kept s s2) as Hks by (eapply key_kept_trans; [exact Hkk|]; eapply key_kept_trans; [|exact U2]; by apply key_kept_same).
    assert (offers s2 = compactOffers now (update_first (is_offer (o_offerId offer)) (set_redeemedAt (Some now)) (offers s))) as Hos
      by (unfold offers_kept in U1; rewrite U1; apply Hw, Ho).
    destruct (sign_response _ _ _).
    + match goal with |- context [appendPairingAudit _ _ ?ev s2] => destruct (audit_frame now ev s2) as (E1 & _ & _ & _ & _ & E2 & E3) end.
      split; [eapply key_kept_trans; [exact Hks|by apply key_kept_same]|]. eexists. split; [by rewrite E1|].
      exists k. split; [done|]. rewrite decide_True by (by rewrite Ec). eauto.
    + split; [done|]. eexists. split; [done|]. exists k. split; [done|]. rewrite decide_True by (by rewrite Ec). eauto.
  - match goal with |- context [appendPairingAudit _ _ ?ev ?s3] => destruct (audit_frame now ev s3) as (E1 & _ & _ & _ & _ & E2 & E3) end.
    split; [eapply key_kept_trans; [exact Hkk|by apply key_kept_same]|]. eexists. split; [rewrite E1; apply Hw, Ho|].
    exists k. split; [done|]. rewrite decide_False; [done|]. intros [= E].
    by rewrite (proj2 (secret_compare_spec _ _) E) in Ec.
Qed.

Lemma evolve_same now op s a l : (∀ id, revokes op id = false ∧ redeems op a id = false ∧ guesses now op s a id = false) →
  map (evolve now op s a) l = l.
Proof.
  intros Hid. rewrite <- (map_id l) at 2. apply map_ext. intros o. unfold evolve. by destruct (Hid (o_offerId o)) as (-> & -> & ->).
Qed.

(** The offers after an operation: those before, each as [evolve] says, and a new one;
    what is written is compacted. *)
Definition effect (now : Z) (r : Draws) (op : Op) (s : Files) (a : Answer) (s' : Files) : Prop :=
  key_kept s s' ∧
  let l := map (evolve now op s a) (offers s) ++ issued now r op s in
  (offers s' = l ∨ offers s' = compactOffers now l).

Lemma issue_effect now r connection ttl s : NoDup (o_offerId <$> offers s) → key_draw r →
  let '(p, s') := issuePairingOffer limits now r connection ttl s in effect now r (Issue connection ttl) s (AIssued p) s'.
Proof.
  intros N Hr. unfold effect. unfold issuePairingOffer, issued. set (s1 := match readAuthToken s with None => _ | Some _ => _ end).
  assert (offers_kept s s1 ∧ key_kept s s1) as [O1 K1] by (unfold s1; destruct (readAuthToken s); [by split|apply token_frame]).
  destruct (anchor_frame now r s1) as [O2 K2]. destruct (getOrCreateTrustAnchor limits now r s1) as [anchor s2]. cbn [snd] in O2, K2.
  destruct (identity_frame now r s2) as [O3 K3]. destruct (getOrCreateDaemonIdentity limits now r s2) as [identity s3]. cbn [snd] in O3, K3.
  destruct (hash_frame r (to_hex (dr_redeemSecret r)) s3 Hr) as (k & -> & _ & _). destruct (key_frame r s3 Hr) as [[O4 _ _ _ _] K4].
  match goal with |- context [appendPairingAudit _ _ ?ev ?s5] => destruct (audit_frame now ev s5) as (E1 & _ & _ & _ & _ & E2 & E3) end.
  split.
  + repeat (eapply key_kept_trans; [eassumption|]). by apply key_kept_same.
  + right. rewrite E1, evolve_same by done. unfold writeStore. cbn [offers set_offers]. unfold offers_kept in *. by rewrite O3, O2, O1.
Qed.

Lemma revoke_effect now r id s : NoDup (o_offerId <$> offers s) →
  let '(b, s') := revokePairingOffer limits now id s in effect now r (Revoke id) s (ARevoked b) s'.
Proof.
  intros N. unfold effect. cbn [issued]. unfold revokePairingOffer. destruct (find_first (is_offer id) (offers s)) as [offer|] eqn:Ef.
  + apply find_first_Some in Ef as [Hin Eid]. apply String.eqb_eq in Eid as <-.
    assert (∀ o, o ∈ offers s → String.eqb (o_offerId o) (o_offerId offer) = true → o = offer) as Hu.
    { intros o Ho E%String.eqb_eq. apply (find_offer _ _ N) in Ho. apply (find_offer _ _ N) in Hin. rewrite E in Ho. congruence. }
    assert (∀ f a, (∀ o, o ∈ offers s → o_offerId o = o_offerId offer → f o = if truthy_time (o_revokedAt o) then o else set_revokedAt (Some now) o) →
      map (λ o, if String.eqb (o_offerId o) (o_offerId offer) then f o else o) (offers s) =
      map (evolve now (Revoke (o_offerId offer)) s a) (offers s)) as Hm.
    { intros f a Hf. apply map_ext_in. intros o Ho%list_elem_of_In. unfold evolve. cbn [revokes redeems]. rewrite String.eqb_sym.
      unfold guesses, compared. destruct (String.eqb_spec (o_offerId offer) (o_offerId o)) as [E|]; [|done]. by rewrite Hf by done. }
    destruct (truthy_time (o_revokedAt offer)) eqn:Et.
    * split; [by split|]. left. rewrite <- (Hm id), app_nil_r; [|].
      -- rewrite <- (map_id (offers s)) at 1. apply map_ext. intros o. by case_match.
      -- intros o Ho E. rewrite (Hu o Ho), Et; [done|]. by apply String.eqb_eq.
    * match goal with |- context [appendPairingAudit _ _ ?ev ?s5] => destruct (audit_frame now ev s5) as (E1 & _ & _ & _ & _ & E2 & E3) end.
      split; [by apply key_kept_same|]. right. rewrite E1. unfold writeOffer, writeStore. cbn [offers set_offers issued].
      rewrite app_nil_r, update_offer by done. f_equal. apply Hm. intros o Ho E. rewrite (Hu o Ho), Et; [done|]. by apply String.eqb_eq.
  + split; [by split|]. left. rewrite app_nil_r. rewrite <- (map_id (offers s)) at 1. apply map_ext_in. intros o Ho%list_elem_of_In.
    unfold evolve, guesses. cbn [revokes redeems compared]. pose proof (proj1 (find_first_None _ _) Ef _ Ho) as Hn.
    unfold is_offer in Hn. by rewrite String.eqb_sym, Hn.
Qed.

Lemma redeem_effect now r id secret anchor key proof s : NoDup (o_offerId <$> offers s) → key_draw r →
  let '(a, s') := redeemPairingOffer limits now r id secret anchor key proof s in
  effect now r (Redeem id secret anchor key proof) s (ARedeemed a) s'.
Proof.
  intros N Hr. unfold effect. pose proof (redeem_cases now r id secret anchor key proof s) as Hc.
  destruct (compared now (Redeem id secret anchor key proof) s) as [[offer key']|] eqn:Ec.
  + destruct Hc as (Ef & _ & _ & ->). apply find_first_Some in Ef as [Hin Eid]. apply String.eqb_eq in Eid.
    pose proof (compare_cases now r offer secret key' s Hr N Hin) as Hcc. destruct (redeem_compare limits now r offer secret key' s) as [a s'].
    destruct Hcc as (Hk & f & Eo & Hf). split; [done|]. right. rewrite Eo, update_offer by done. f_equal. cbn [issued]. rewrite app_nil_r.
    apply map_ext_in. intros o Ho%list_elem_of_In. unfold evolve, guesses. cbn [revokes]. rewrite Ec.
    destruct (String.eqb_spec (o_offerId o) (o_offerId offer)) as [E|Hne].
    * assert (o = offer) as -> by (apply (find_offer _ _ N) in Ho; apply (find_offer _ _ N) in Hin; rewrite E in Ho; congruence).
      rewrite String.eqb_refl. cbn [redeems]. rewrite <- Eid, String.eqb_refl. destruct (hash_missing offer); [by destruct Hf as [-> ->]|].
      destruct Hf as (k & _ & Hf). case_decide; [destruct Hf as [[->|[p ->]] ->]; done|by destruct Hf as [-> ->]].
    * cbn [redeems]. rewrite <- Eid. rewrite (proj2 (String.eqb_neq (o_offerId offer) (o_offerId o))) by congruence. by destruct a.
  + destruct Hc as (s' & -> & Hs). assert (offers s' = offers s ∧ key_kept s s') as [-> Hk].
    { destruct Hs as [->|[ev ->]]; [by split|]. destruct (audit_frame now ev s) as (E1 & _ & _ & _ & _ & E2 & E3).
      split; [done|]. by apply key_kept_same. }
    split; [done|]. left. rewrite evolve_same, app_nil_r; [done|]. intros i. unfold guesses. by rewrite Ec.
Qed.

Lemma resolve_effect now r peerId s : key_draw r →
  let '(a, s') := resolveRelayPairingSecret limits r peerId s in effect now r (Resolve peerId) s (AResolved a) s'.
Proof.
  intros Hr. unfold effect. cbn [issued]. unfold resolveRelayPairingSecret, decryptRelayPairingSecret. destruct (key_frame r s Hr) as [[O _ _ _ _] K].
  assert (∀ a s', offers s' = offers s → key_kept s s' → key_kept s s' ∧
    let l := map (evolve now (Resolve peerId) s a) (offers s) ++ [] in (offers s' = l ∨ offers s' = compactOffers now l)) as Hd.
  { intros a s' E K'. split; [done|]. left. by rewrite evolve_same, app_nil_r. }
  destruct (negb (nonblank peerId)); [by apply Hd|]. destruct (find_first _ _) as [b|]; [|by apply Hd].
  destruct (pb_ciphertext b); [|by apply Hd]. destruct (pb_iv b); [|by apply Hd]. destruct (pb_tag b); [|by apply Hd].
  destruct (getOrCreateSecretStoreKey r s) as [k s']. by apply Hd.
Qed.

Lemma exec_effect now r op s : NoDup (o_offerId <$> offers s) → key_draw r →
  effect now r op s (exec limits now r op s).1 (exec limits now r op s).2.
Proof.
  intros N Hr. destruct op as [connection ttl| |id|id secret anchor key proof|peerId| |]; cbn [exec].
  - pose proof (issue_effect now r connection ttl s N Hr) as He. by destruct (issuePairingOffer _ _ _ _ _ _).
  - split; [by split|]. left. rewrite evolve_same by done. by rewrite app_nil_r.
  - pose proof (revoke_effect now r id s N) as He. by destruct (revokePairingOffer _ _ _ _).
  - pose proof (redeem_effect now r id secret anchor key proof s N Hr) as He. by destruct (redeemPairingOffer _ _ _ _ _ _ _ _ _).
  - pose proof (resolve_effect now r peerId s Hr) as He. by destruct (resolveRelayPairingSecret _ _ _ _).
  - destruct (token_frame now r s) as [O K]. destruct (rotateAuthToken limits now r s) as [[token b] s']. cbn [snd fst] in *.
    split; [done|]. left. by rewrite evolve_same, app_nil_r.
  - split; [|left; by rewrite evolve_same, app_nil_r]. intros Hset. split; [by intros k Hk|].
    intros k. unfold current_key. cbn. destruct (cached_key s) as [c|] eqn:Ec; [|done]. intros [= <-]. by apply Hset.
Qed.

(** ** The history of an offer *)

Definition core (o : PairingOfferStoreRecord) :=
  (o_offerId o, o_createdAt o, o_expiresAt o, o_redeemSecretHash o, o_trustAnchor o, o_connection o).

Lemma evolve_core now op s a o : core (evolve now op s a o) = core o.
Proof. unfold evolve, count_failure. repeat case_match; done. Qed.

Lemma evolve_ids now op s a l : o_offerId <$> map (evolve now op s a) l = o_offerId <$> l.
Proof.
  induction l as [|o l IH]; simpl; [done|]. f_equal; [|exact IH]. pose proof (evolve_core now op s a o) as E. by injection E.
Qed.

(** Only offers of the store are guessed at, redeemed or revoked. *)
Lemma acts_on now r op s id : let a := (exec limits now r op s).1 in
  guesses now op s a id = true ∨ redeems op a id = true ∨ revoked_by op a id = true →
  ∃ o, o ∈ offers s ∧ o_offerId o = id ∧
    (guesses now op s a id = true ∨ redeems op a id = true → open now o = true).
Proof.
  cbn zeta. destruct op as [| |i|i secret anchor key proof| | |]; try by intros [|[|]].
  - cbn [exec]. unfold revokePairingOffer. destruct (find_first (is_offer i) (offers s)) as [o|] eqn:Ef.
    + apply find_first_Some in Ef as [Hin E%String.eqb_eq]. intros He. exists o. split; [done|].
      enough (i = id) by (split; [congruence|by intros [|]]).
      destruct (truthy_time (o_revokedAt o)); cbn in He; destruct He as [|[|He%String.eqb_eq]]; done.
    + cbn. by intros [|[|]].
  - cbn [exec]. pose proof (redeem_cases now r i secret anchor key proof s) as Hc. unfold guesses.
    destruct (compared _ _ s) as [[offer key']|] eqn:Ec.
    + destruct Hc as (Ef & Ho & _ & _). apply find_first_Some in Ef as [Hin E%String.eqb_eq].
      destruct (redeemPairingOffer _ _ _ _ _ _ _ _ _) as [a s']. cbn [fst]. intros He. exists offer. split; [done|]. split; [|done].
      destruct He as [[He%String.eqb_eq _]%andb_true_iff|[He|He]]; [done| |done].
      destruct a; cbn in He; [done|..]; apply String.eqb_eq in He; congruence.
    + destruct Hc as (s' & -> & _). cbn. by intros [|[|]].
Qed.

(** What the record of an offer says of its history. *)
Record described (s : Files) (tr : list Step) (o : PairingOfferStoreRecord) : Prop := {
  d_issue : ∃ st connection ttl k, st ∈ tr ∧ st_op st = Issue connection ttl ∧ dr_offerId (st_draws st) = o_offerId o ∧
    o_expiresAt o = st_now st + Z.min 3600 (Z.max 30 ttl) * 1000 ∧ current_key s = Some k ∧
    o_redeemSecretHash o = Some (to_hex (hmac k (to_hex (dr_redeemSecret (st_draws st)))));
  d_revoked : existsb (revoke_step (o_offerId o)) tr = true → truthy_time (o_revokedAt o) = true;
  d_redeemed : existsb (redeem_step (o_offerId o)) tr = true → truthy_time (o_redeemedAt o) = true;
  d_guesses : truthy_time (o_lockedAt o) = true ∧ (wrong_guesses (o_offerId o) tr ≤ 5)%nat ∨
    coalesce (o_failedRedeemAttempts o) 0 = Z.of_nat (wrong_guesses (o_offerId o) tr) ∧ (wrong_guesses (o_offerId o) tr < 5)%nat
}.

Record consistent (tr : list Step) (s : Files) : Prop := {
  c_settled : settled s;
  c_nodup : NoDup (o_offerId <$> offers s);
  c_known : ∀ o, o ∈ offers s → o_offerId o ∈ issued_ids tr;
  c_described : ∀ o, o ∈ offers s → described s tr o;
  c_guesses : ∀ id, (wrong_guesses id tr ≤ 5)%nat;
  c_untouched : ∀ id, id ∉ issued_ids tr →
    wrong_guesses id tr = 0%nat ∧ existsb (redeem_step id) tr = false ∧ existsb (revoke_step id) tr = false
}.

Lemma wrong_guesses_snoc id tr st :
  wrong_guesses id (tr ++ [st]) = (wrong_guesses id tr + if guess_step id st then 1 else 0)%nat.
Proof. unfold wrong_guesses. rewrite List.filter_app, length_app. simpl. by case_match. Qed.

Lemma open_parts now o : open now o = true → expired now o = false ∧ truthy_time (o_revokedAt o) = false ∧
  truthy_time (o_redeemedAt o) = false ∧ truthy_time (o_lockedAt o) = false.
Proof. unfold open. intros ?%negb_true_iff. repeat (split_bools); done. Qed.

Lemma truthy_now now : 0 < now → truthy_time (Some now) = true.
Proof. intros. simpl. by rewrite (proj2 (Z.eqb_neq _ _)) by lia. Qed.

(** An offer of the store stays described. *)
Lemma evolve_described now r op s tr o : 0 < now → key_draw r → consistent tr s → o ∈ offers s →
  let s' := (exec limits now r op s).2 in (∀ k, current_key s = Some k → current_key s' = Some k) →
  described s' (tr ++ [step_of now r op s]) (evolve now op s (exec limits now r op s).1 o).
Proof.
  intros Hnow Hr Hc Hin s' Hkey. destruct (c_described _ _ Hc o Hin) as [D1 D2 D3 D4].
  set (a := (exec limits now r op s).1). pose proof (evolve_core now op s a o) as E. injection E as E1 E2 E3 E4 E5 E6.
  assert (guesses now op s a (o_offerId o) = true ∨ redeems op a (o_offerId o) = true → open now o = true) as Hopen.
  { intros Hg. destruct (acts_on now r op s (o_offerId o)) as (o' & Hin' & Eid & Ho); [unfold a in Hg; tauto|].
    pose proof (find_offer _ _ (c_nodup _ _ Hc) Hin) as F. pose proof (find_offer _ _ (c_nodup _ _ Hc) Hin') as F'.
    rewrite Eid in F'. assert (o' = o) as -> by congruence. by apply Ho. }
  constructor; rewrite ?E1.
  - destruct D1 as (st & c & ttl & k & Hst & Ho & Hd & He & Hk & Hh). exists st, c, ttl, k.
    split; [set_solver|]. rewrite E3, E4. auto 10.
  - rewrite existsb_app, orb_true_iff. intros [Hx|Hx].
    + unfold evolve, count_failure. specialize (D2 Hx). repeat case_match; try exact D2; done.
    + simpl in Hx. rewrite orb_false_r in Hx. unfold revoke_step in Hx. cbn in Hx. fold a in Hx.
      assert (revokes op (o_offerId o) = true) as Hrev by (destruct op, a; try done; simpl in Hx |- *; by case_match).
      unfold evolve. rewrite Hrev. destruct (truthy_time (o_revokedAt o)) eqn:Et; [done|]. by apply truthy_now.
  - rewrite existsb_app, orb_true_iff. intros [Hx|Hx].
    + unfold evolve, count_failure. specialize (D3 Hx). repeat case_match; try exact D3; by apply truthy_now.
    + simpl in Hx. rewrite orb_false_r in Hx. unfold redeem_step in Hx. cbn in Hx. fold a in Hx.
      unfold evolve. rewrite Hx. assert (revokes op (o_offerId o) = false) as -> by (by destruct op). by apply truthy_now.
  - rewrite wrong_guesses_snoc. change (guess_step (o_offerId o) (step_of now r op s)) with (guesses now op s a (o_offerId o)).
    destruct (guesses now op s a (o_offerId o)) eqn:Eg.
    + destruct (open_parts _ _ (Hopen (or_introl eq_refl))) as (_ & _ & _ & Hl). destruct D4 as [[D4 _]|[D4 D5]]; [congruence|].
      assert (revokes op (o_offerId o) = false ∧ redeems op a (o_offerId o) = false) as [Hv Hd].
      { unfold guesses in Eg. destruct (compared now op s) as [[? ?]|] eqn:Ec; [|done]. split_bools. split; [by destruct op|done]. }
      unfold evolve. rewrite Hv, Hd, Eg. destruct (hash_missing o); [left; split; [by apply truthy_now|lia]|].
      unfold count_failure, MAX_FAILED_REDEEM_ATTEMPTS. destruct (5 <=? coalesce (o_failedRedeemAttempts o) 0 + 1) eqn:E5'; split_bools.
      * left. split; [by apply truthy_now|lia].
      * right. cbn [o_failedRedeemAttempts set_attempts coalesce]. unfold coalesce in *. simpl. lia.
    + rewrite Nat.add_0_r. unfold evolve. rewrite Eg. repeat case_match; exact D4.
Qed.

Lemma compactOffers_sublist now l : compactOffers now l `sublist_of` l.
Proof.
  assert (∀ p, List.filter p l `sublist_of` l) as Hf.
  { intros p. induction l as [|o l' IH]; simpl; [done|]. case_match; by constructor. }
  unfold compactOffers. case_match; [apply Hf|]. etrans; [apply sublist_drop|apply Hf].
Qed.

(** The offers after an operation are some of the evolved ones and the new one. *)
Lemma effect_sublist now r op s a s' : effect now r op s a s' →
  offers s' `sublist_of` map (evolve now op s a) (offers s) ++ issued now r op s.
Proof. intros [_ [->| ->]]; [done|apply compactOffers_sublist]. Qed.

Lemma issued_spec now r op s o : key_draw r → o ∈ issued now r op s →
  ∃ connection ttl k, op = Issue connection ttl ∧ o_offerId o = dr_offerId r ∧
    o_expiresAt o = now + Z.min 3600 (Z.max 30 ttl) * 1000 ∧ current_key (exec limits now r op s).2 = Some k ∧
    o_redeemSecretHash o = Some (to_hex (hmac k (to_hex (dr_redeemSecret r)))) ∧
    o_revokedAt o = None ∧ o_redeemedAt o = None ∧ o_failedRedeemAttempts o = None ∧ o_lockedAt o = None.
Proof.
  intros Hr. destruct op as [connection ttl| | | | | |]; try by intros ?%elem_of_nil. cbn [exec]. unfold issued, issuePairingOffer.
  set (s1 := match readAuthToken s with None => _ | Some _ => _ end).
  destruct (getOrCreateTrustAnchor limits now r s1) as [anchor s2]. destruct (getOrCreateDaemonIdentity limits now r s2) as [identity s3].
  destruct (hash_frame r (to_hex (dr_redeemSecret r)) s3 Hr) as (k & -> & Hk & _). intros ->%list_elem_of_singleton.
  exists connection, ttl, k. cbn [snd]. do 3 (split; [done|]). split; [|done].
  match goal with |- context [appendPairingAudit _ _ ?ev ?s5] => destruct (audit_frame now ev s5) as (_ & _ & _ & _ & _ & E2 & E3) end.
  unfold current_key, cached_key, filed_key in *. by rewrite E2, E3.
Qed.

Lemma issued_ids_snoc tr st : issued_ids (tr ++ [st]) = issued_ids tr ++ issue_ids st.
Proof. unfold issued_ids. by rewrite bind_app, bind_singleton. Qed.

Lemma issued_is_new now r op s : o_offerId <$> issued now r op s = issue_ids (step_of now r op s).
Proof.
  destruct op; try done. unfold issued, issue_ids. cbn [step_of st_op st_draws].
  repeat (match goal with |- context [let '(_, _) := ?x in _] => destruct x end). done.
Qed.

Lemma consistent_step now r op s tr : 0 < now → key_draw r → consistent tr s →
  NoDup (issued_ids (tr ++ [step_of now r op s])) → consistent (tr ++ [step_of now r op s]) (exec limits now r op s).2.
Proof.
  intros Hnow Hr Hc Hnd. pose proof (exec_effect now r op s (c_nodup _ _ Hc) Hr) as He.
  destruct (proj1 He (c_settled _ _ Hc)) as [Hset Hkey]. pose proof (effect_sublist _ _ _ _ _ _ He) as Hsub.
  rewrite issued_ids_snoc in Hnd. apply NoDup_app in Hnd as (_ & Hdis & _). rewrite <- issued_is_new in Hdis.
  assert (∀ o, o ∈ offers (exec limits now r op s).2 →
    (∃ o0, o0 ∈ offers s ∧ o = evolve now op s (exec limits now r op s).1 o0) ∨ o ∈ issued now r op s) as Hof.
  { intros o Ho. assert (o ∈ map (evolve now op s (exec limits now r op s).1) (offers s) ++ issued now r op s) as Hm
      by (eapply elem_of_submseteq; [exact Ho|by apply sublist_submseteq]).
    apply elem_of_app in Hm as [Hm|Hm]; [left|by right]. apply list_elem_of_In, in_map_iff in Hm as (o0 & <- & Hin).
    exists o0. by rewrite list_elem_of_In. }
  assert (∀ id, id ∉ issued_ids tr → ∀ st, st = step_of now r op s →
    guess_step id st = false ∧ redeem_step id st = false ∧ revoke_step id st = false) as Hquiet.
  { intros id Hid st ->. unfold guess_step, redeem_step, revoke_step. cbn [step_of st_now st_op st_before st_answer].
    split_and!; apply not_true_is_false; intros Ht; apply Hid; destruct (acts_on now r op s id) as (o & Hin & <- & _); try tauto; by apply (c_known _ _ Hc). }
  constructor.
  - exact Hset.
  - eapply sublist_NoDup; [|apply fmap_sublist, Hsub]. rewrite fmap_app, evolve_ids. apply NoDup_app. split; [apply (c_nodup _ _ Hc)|].
    split; [|rewrite issued_is_new; destruct op; apply NoDup_singleton || apply NoDup_nil_2].
    intros id (o & -> & Ho)%list_elem_of_fmap. by apply Hdis, (c_known _ _ Hc).
  - intros o Ho. rewrite issued_ids_snoc, <- issued_is_new. apply elem_of_app. destruct (Hof o Ho) as [(o0 & Hin & ->)|Hin].
    + left. pose proof (evolve_core now op s (exec limits now r op s).1 o0) as E. injection E as -> _ _ _ _ _. by apply (c_known _ _ Hc).
    + right. by apply list_elem_of_fmap_2.
  - intros o Ho. destruct (Hof o Ho) as [(o0 & Hin & ->)|Hin]; [by apply evolve_described|].
    destruct (issued_spec now r op s o Hr Hin) as (c & ttl & k & -> & E1 & E2 & E3 & E4 & E5 & E6 & E7 & E8).
    assert (o_offerId o ∉ issued_ids tr) as Hnew by (intros Hx; apply (Hdis _ Hx); by apply list_elem_of_fmap_2).
    destruct (c_untouched _ _ Hc _ Hnew) as (U1 & U2 & U3). destruct (Hquiet _ Hnew _ eq_refl) as (Q1 & Q2 & Q3).
    constructor.
    + exists (step_of now r (Issue c ttl) s), c, ttl, k. split; [set_solver|done].
    + rewrite existsb_app, U3. cbn [existsb]. by rewrite Q3.
    + rewrite existsb_app, U2. cbn [existsb]. by rewrite Q2.
    + right. rewrite wrong_guesses_snoc, U1, Q1, E7. split; [done|simpl; lia].
  - intros id. rewrite wrong_guesses_snoc. destruct (guess_step id (step_of now r op s)) eqn:Eg; [|rewrite Nat.add_0_r; apply (c_guesses _ _ Hc)].
    destruct (acts_on now r op s id) as (o & Hin & <- & Hop); [by left|].
    destruct (d_guesses _ _ _ (c_described _ _ Hc o Hin)) as [[Hl _]|[_ ?]]; [|lia].
    destruct (open_parts _ _ (Hop (or_introl Eg))) as (_ & _ & _ & Hl'). congruence.
  - intros id Hid. rewrite issued_ids_snoc in Hid. apply not_elem_of_app in Hid as [Hid _].
    destruct (c_untouched _ _ Hc _ Hid) as (U1 & U2 & U3). destruct (Hquiet _ Hid _ eq_refl) as (Q1 & Q2 & Q3).
    rewrite wrong_guesses_snoc, !existsb_app, U1, U2, U3. cbn [existsb]. by rewrite Q1, Q2, Q3.
Qed.

Lemma run_consistent s0 tr s : Run s0 tr s → offers s0 = [] → settled s0 → NoDup (issued_ids tr) → consistent tr s.
Proof.
  intros Hrun Hemp Hs0. induction Hrun as [|tr s now r op Hrun IH Hnow Hr]; intros Hnd.
  - constructor; rewrite ?Hemp; [done|by apply NoDup_nil_2|set_solver|set_solver|intros id; unfold wrong_guesses; simpl; lia|done].
  - apply consistent_step; [done..| |done]. apply IH. rewrite issued_ids_snoc in Hnd. by apply NoDup_app in Hnd as [? _].
Qed.

Lemma run_split s0 tr s tr1 st tr2 : Run s0 tr s → tr = tr1 ++ st :: tr2 →
  Run s0 tr1 (st_before st) ∧ st = step_of (st_now st) (st_draws st) (st_op st) (st_before st) ∧
  0 < st_now st ∧ key_draw (st_draws st).
Proof.
  intros Hrun. revert tr2. induction Hrun as [|tr s now r op Hrun IH Hnow Hr]; intros tr2 E; [by destruct tr1|].
  destruct tr2 as [|st' tr2 _] using rev_ind.
  - apply app_inj_tail in E as [<- <-]. done.
  - rewrite app_comm_cons, app_assoc in E. apply app_inj_tail in E as [E _]. by apply (IH tr2).
Qed.

(** C29: An offer is redeemed at most once, by its secret, in time.  In every history of the
    store that starts without offers and draws no offer id twice, whenever an offer is
    redeemed, it was issued before and has not expired, the secret given has the hash of
    the one it was issued with under the key of the store, the client has proved that it
    holds its key by a signature over offer, secret and key, no earlier redemption of the
    offer succeeded, no revocation found it, and fewer than five wrong secrets were tried
    on it. *)
Theorem redeemed_once s0 tr s tr1 st tr2 id : Run s0 tr s → offers s0 = [] → settled s0 → NoDup (issued_ids tr) →
  tr = tr1 ++ st :: tr2 → redeem_step id st = true →
  (∃ issue connection ttl secret anchor clientKey proof k,
    issue ∈ tr1 ∧ st_op issue = Issue connection ttl ∧ dr_offerId (st_draws issue) = id ∧
    st_op st = Redeem id secret anchor (Some clientKey) (Some proof) ∧
    st_now st < st_now issue + Z.min 3600 (Z.max 30 ttl) * 1000 ∧
    current_key (st_before st) = Some k ∧ hmac k secret = hmac k (to_hex (dr_redeemSecret (st_draws issue))) ∧
    ∃ trustAnchor, pem_verify clientKey (canonicalRedeemPayload id secret trustAnchor clientKey) (fromBase64Url proof) = Some true) ∧
  Forall (λ st', redeem_step id st' = false ∧ revoke_step id st' = false) tr1 ∧
  (wrong_guesses id tr1 < 5)%nat.
Proof.
  intros Hrun Hemp Hs0 Hnd E Hred. destruct (run_split _ _ _ _ _ _ Hrun E) as (Hrun1 & Est & Hnow & Hr).
  assert (consistent tr1 (st_before st)) as Hc.
  { apply (run_consistent s0); [done..|]. rewrite E in Hnd. unfold issued_ids in *. rewrite bind_app in Hnd. by apply NoDup_app in Hnd as [? _]. }
  set (s1 := st_before st) in *. set (now := st_now st) in *. set (r := st_draws st) in *.
  rewrite Est in Hred. unfold redeem_step in Hred. cbn [step_of st_op st_answer] in Hred.
  destruct (st_op st) as [| | |id' secret anchor key proof| | |] eqn:Eop; try done.
  destruct (acts_on now r (Redeem id' secret anchor key proof) s1 id) as (o & Hin & Eid & Hopen); [by right; left|].
  specialize (Hopen (or_intror Hred)). destruct (open_parts _ _ Hopen) as (Hx & Hv & Hd & Hl).
  destruct (c_described _ _ Hc o Hin) as [D1 D2 D3 D4]. rewrite Eid in D1, D2, D3, D4.
  assert (id' = id) as ->.
  { cbn [redeems] in Hred. destruct (exec _ _ _ _ _).1; try done. destruct answer; try done; by apply String.eqb_eq in Hred. }
  cbn [exec] in Hred. pose proof (redeem_cases now r id secret anchor key proof s1) as Hcase.
  destruct (compared now (Redeem id secret anchor key proof) s1) as [[offer key']|] eqn:Ec.
  2:{ destruct Hcase as (s' & Eq & _). rewrite Eq in Hred. by cbn in Hred. }
  destruct Hcase as (Ef & _ & (proof' & Ep & Ek & Hproof) & Eq). rewrite Eq in Hred.
  assert (offer = o) as -> by (rewrite <- Eid in Ef; rewrite (find_offer _ _ (c_nodup _ _ Hc) Hin) in Ef; congruence).
  pose proof (compare_cases now r o secret key' s1 Hr (c_nodup _ _ Hc) Hin) as Hcmp.
  destruct (redeem_compare limits now r o secret key' s1) as [a s']. destruct Hcmp as (_ & f & _ & Hcmp).
  destruct D1 as (issue & c & ttl & k & Hi & Ho & Hdr & He & Hk & Hh).
  split; [|split].
  - exists issue, c, ttl, secret, anchor, key', proof', k. split; [done|]. split; [done|]. split; [done|].
    apply given_Some in Ek, Ep. subst key proof.
    split; [done|]. split; [unfold expired in Hx; split_bools; lia|]. split; [done|]. split.
    + destruct (hash_missing o); [destruct Hcmp as [-> _]; by cbn in Hred|]. destruct Hcmp as (k' & Hk' & Hcmp).
      rewrite <- (Hk' _ Hk) in Hh |- *. case_decide as Edec; [|destruct Hcmp as [-> _]; by cbn in Hred].
      rewrite Hh in Edec. injection Edec as Edec. by apply to_hex_inj in Edec.
    + exists (o_trustAnchor o). unfold client_proof_valid in Hproof. rewrite Eid in Hproof. destruct (pem_verify _ _ _) as [v|]; [by rewrite Hproof|done].
  - rewrite Forall_forall. intros st' Hst'. split; apply not_true_is_false; intros Ht.
    + enough (truthy_time (o_redeemedAt o) = true) by congruence. apply D3, existsb_elem_of. by exists st'.
    + enough (truthy_time (o_revokedAt o) = true) by congruence. apply D2, existsb_elem_of. by exists st'.
  - destruct D4 as [[D4 _]|[_ D4]]; [congruence|done].
Qed.

(** The secret of an offer can be guessed five times.  In every history of the store that
    starts without offers and draws no offer id twice, at most five wrong secrets are ever
    compared with the hash of one offer, whoever asks and however often the daemon
    restarts. *)
Theorem guesses_bounded s0 tr s id : Run s0 tr s → offers s0 = [] → settled s0 → NoDup (issued_ids tr) →
  (wrong_guesses id tr ≤ 5)%nat.
Proof. intros Hrun Hemp Hs0 Hnd. apply (c_guesses _ _ (run_consistent _ _ _ Hrun Hemp Hs0 Hnd)). Qed.
End History.
