(* ===== verification/PairingCompletes.v ===== *)
(** * A pairing completes

    A client that has an offer and a key redeems it whatever else happens to the store
    meanwhile, and the daemon then finds under the client's id the secret that the
    client derives from the offer. *)

From S2P Require Import Prelude JsString JsMap Json JsonText JsonStringify Noise NoiseProps PairingOffers PairingPeers PairingOffersProps.
From stdpp Require Import prelude strings list sorting.
From Stdlib Require Import ZArith Lia Ascii Sorting.

Open Scope Z_scope.

(** A signature made with the private key of a pair is not empty and verifies with the
    public one, and no blank text is a key. *)
Class PemLaws `{Crypto} `{PemKeys} : Prop := {
  pem_correct : ∀ public private text signature, pem_pair public private →
    pem_sign private text = Some signature → pem_verify public text signature = Some true;
  pem_text : ∀ private text signature, pem_sign private text = Some signature → toBase64Url signature ≠ "";
  pem_nonblank : ∀ public text signature v, pem_verify public text signature = Some v → nonblank public = true
}.

Section Completes.
Context `{CryptoLaws} {PL : PairingLaws} `{PemKeys} {PEM : PemLaws} (limits : Limits).

(** The operation names the offer. *)
Definition concerns (id : string) (op : Op) : bool :=
  match op with Revoke i | Redeem i _ _ _ _ => String.eqb i id | _ => false end.

Lemma given_truthy t : truthy_str t = true → given (Some t) = Some t.
Proof. intros Ht. unfold given. cbn [mbind option_bind]. by rewrite Ht. Qed.

Lemma evolve_other now r op s o : concerns (o_offerId o) op = false → evolve now op s (exec limits now r op s).1 o = o.
Proof.
  intros Hc. unfold evolve. destruct op as [| |i|i secret anchor key proof| | |]; try done; cbn [concerns] in Hc.
  - cbn [revokes redeems]. rewrite Hc. done.
  - cbn [revokes]. assert (∀ a, redeems (Redeem i secret anchor key proof) a (o_offerId o) = false) as ->.
    { intros a. unfold redeems. by repeat case_match. }
    unfold guesses. destruct (compared now (Redeem i secret anchor key proof) s) as [[offer k]|] eqn:Ec; [|done].
    pose proof (redeem_cases limits now r i secret anchor key proof s) as Hr. rewrite Ec in Hr. destruct Hr as (Ef & _).
    apply find_first_Some in Ef as [_ E%String.eqb_eq]. by rewrite E, Hc.
Qed.

(** The offer is in the list, with at most [n] after it. *)
Definition retained (n : nat) (o : PairingOfferStoreRecord) (l : list PairingOfferStoreRecord) : Prop :=
  ∃ l1 l2, l = l1 ++ o :: l2 ∧ (length l2 ≤ n)%nat.

Lemma retained_compact now n o l : retained n o l → (n < MAX_STORED_OFFERS)%nat → fresh_offer now o = true →
  retained n o (compactOffers now l).
Proof.
  intros (l1 & l2 & -> & Hl) Hn Hf. unfold compactOffers. rewrite List.filter_app. cbn [List.filter]. rewrite Hf.
  set (k1 := List.filter _ l1). set (k2 := List.filter _ l2).
  assert (length k2 ≤ n)%nat as Hk2 by (pose proof (filter_length_le (fresh_offer now) l2); unfold k2; lia).
  case_match; [by exists k1, k2|]. unfold keep_last. rewrite drop_app.
  replace (_ - length k1)%nat with 0%nat by (rewrite length_app; simpl; lia). by eexists _, k2.
Qed.

Lemma retained_step now r op s n o : NoDup (o_offerId <$> offers s) → key_draw r → retained n o (offers s) →
  concerns (o_offerId o) op = false → fresh_offer now o = true → (n + length (issued limits now r op s) < MAX_STORED_OFFERS)%nat →
  retained (n + length (issued limits now r op s)) o (offers (exec limits now r op s).2).
Proof.
  intros N Hr (l1 & l2 & E & Hl) Hc Hf Hn. destruct (exec_effect limits now r op s N Hr) as [_ Ho]. cbn zeta in Ho.
  assert (retained (n + length (issued limits now r op s)) o
    (map (evolve now op s (exec limits now r op s).1) (offers s) ++ issued limits now r op s)) as Hret.
  { rewrite E, map_app. cbn [map]. rewrite evolve_other, <- app_assoc by done. cbn [app]. eexists _, _. split; [done|].
    rewrite length_app, length_map. lia. }
  destruct Ho as [->| ->]; [done|]. by apply retained_compact.
Qed.

Lemma run_append s0 tr s1 now r op tr' s : Run limits s0 tr s1 → 0 < now → key_draw r →
  Run limits (exec limits now r op s1).2 tr' s → Run limits s0 (tr ++ step_of limits now r op s1 :: tr') s.
Proof.
  intros Hrun Hnow Hr Hrun'. induction Hrun' as [|tr' s now' r' op' _ IH Hnow' Hr']; [by constructor|].
  rewrite app_comm_cons, app_assoc. by constructor.
Qed.

(** While others use the store, the offer stays as it is and so does the key. *)
Lemma retained_run s2 mid s3 o n k T : Run limits s2 mid s3 →
  (∀ tr1 st, tr1 ++ [st] `prefix_of` mid → NoDup (o_offerId <$> offers (st_before st))) →
  settled s2 → current_key s2 = Some k → retained n o (offers s2) →
  Forall (λ st, concerns (o_offerId o) (st_op st) = false) mid → Forall (λ st, st_now st ≤ T) mid → T < o_expiresAt o → 0 < o_expiresAt o →
  (n + length (issued_ids mid) < MAX_STORED_OFFERS)%nat →
  settled s3 ∧ current_key s3 = Some k ∧ retained (n + length (issued_ids mid)) o (offers s3).
Proof.
  intros Hrun Hnd Hset Hk Hret Hcon Hle HT Hpos. induction Hrun as [|mid s now r op Hrun IH Hnow Hr]; intros Hn.
  - simpl. by rewrite Nat.add_0_r.
  - apply Forall_app in Hcon as [Hcon Hop], Hle as [Hle Hnow'].
    rewrite Forall_singleton in Hop, Hnow'. cbn [step_of st_op st_now] in Hop, Hnow'.
    rewrite issued_ids_snoc, <- (issued_is_new limits), length_app, length_fmap in Hn |- *.
    destruct IH as (Hset' & Hk' & Hret'); [intros tr1 st Hp; by apply (Hnd tr1), prefix_app_r|done..|lia|].
    pose proof (Hnd mid (step_of limits now r op s) ltac:(done)) as N. cbn [step_of st_before] in N.
    destruct (proj1 (exec_effect limits now r op s N Hr) Hset') as [Hs1 Hs2].
    split; [done|]. split; [by apply Hs2|]. rewrite Nat.add_assoc. apply retained_step; try done; [|lia].
    unfold fresh_offer, DAY_MS. apply negb_true_iff, orb_false_iff. split; [apply Z.eqb_neq|apply Z.leb_gt]; lia.
Qed.

(** ** The bindings stay well formed *)

Lemma resolve_same r peerId s s' : peers s' = peers s → secretStoreKey s' = secretStoreKey s →
  cachedSecretStoreKey s' = cachedSecretStoreKey s →
  (resolveRelayPairingSecret limits r peerId s').1 = (resolveRelayPairingSecret limits r peerId s).1.
Proof.
  intros E1 E2 E3. unfold resolveRelayPairingSecret, readPeerBindings. rewrite E1. case_match; [done|]. case_match; [|done].
  unfold decryptRelayPairingSecret, getOrCreateSecretStoreKey, cached_key, filed_key. rewrite E2, E3.
  repeat (case_match; try done); by simplify_eq.
Qed.

Lemma peerId_form key : trim (peerIdFromPublicKey key) = peerIdFromPublicKey key ∧ nonblank (peerIdFromPublicKey key) = true.
Proof.
  unfold peerIdFromPublicKey, hexDigest. split; [apply trim_to_hex|]. unfold nonblank. rewrite trim_to_hex.
  pose proof (sha256_length key) as Hl. by destruct (sha256 key).
Qed.

(** The secret both sides derive. *)
Definition pairing_secret (offerId redeemSecret anchor clientPublicKey daemonPublicKey : string) : string :=
  fromBase64Url (deriveRelayPairingSecret offerId redeemSecret anchor clientPublicKey daemonPublicKey).

Lemma pairing_secret_length offerId redeemSecret anchor key daemon :
  String.length (pairing_secret offerId redeemSecret anchor key daemon) = 32%nat.
Proof. unfold pairing_secret, deriveRelayPairingSecret. rewrite base64_round_trip. apply hkdf_length. Qed.

Lemma accept_binds now r offer secret key s : bindings_ok now (peers s) → key_draw r → 1 ≤ pairingPeerBindingsMax limits →
  nonblank key = true →
  let s' := (redeem_accept limits now r offer secret key s).2 in
  bindings_ok now (peers s') ∧ ∀ r', key_draw r' →
    (resolveRelayPairingSecret limits r' (peerIdFromPublicKey key) s').1 =
    Some (pairing_secret (o_offerId offer) secret (o_trustAnchor offer) key (o_daemonPublicKey offer)).
Proof.
  intros Hs Hr Hm Hkey. cbn zeta. unfold redeem_accept.
  set (s1 := writeOffer now (o_offerId offer) (set_redeemedAt (Some now)) s).
  destruct (peerId_form key) as [Ht Hnb].
  destruct (upsert_resolves limits now r s1 (peerIdFromPublicKey key) key
    (pairing_secret (o_offerId offer) secret (o_trustAnchor offer) key (o_daemonPublicKey offer)) (o_offerId offer) (o_trustAnchor offer))
    as [Hb Hres]; try done; [apply pairing_secret_length|].
  assert (toBase64Url (pairing_secret (o_offerId offer) secret (o_trustAnchor offer) key (o_daemonPublicKey offer)) =
    deriveRelayPairingSecret (o_offerId offer) secret (o_trustAnchor offer) key (o_daemonPublicKey offer)) as Etext
    by (unfold pairing_secret, deriveRelayPairingSecret; by rewrite base64_round_trip).
  rewrite Etext in Hb, Hres. set (s2 := upsertPeerBinding _ _ _ _ _ _ _ _ _) in *.
  destruct (sign_response _ _ _); [|done]. cbn [snd].
  match goal with |- context [appendPairingAudit _ _ ?ev s2] => destruct (audit_frame limits now ev s2) as (_ & E2 & _ & _ & _ & E3 & E4) end.
  split; [by rewrite E2|]. intros r' Hr'. rewrite <- Hres with r' by done. by apply resolve_same.
Qed.

Lemma bindings_later T T' l : T ≤ T' → bindings_ok T l → bindings_ok T' l.
Proof.
  intros HT [F N]. split; [|done]. eapply Forall_impl; [exact F|]. intros p [V I (t & E & Ht)]. split; [done..|]. exists t. split; [done|lia].
Qed.

Lemma audit_peers now ev s1 s : peers s1 = peers s → peers (appendPairingAudit limits now ev s1) = peers s.
Proof. intros <-. by destruct (audit_frame limits now ev s1) as (_ & E & _). Qed.

(** The client that an operation binds: that of a redemption that was accepted, or broke
    off at its answer's signature. *)
Definition pairs (st : Step) : list string :=
  match st_op st, st_answer st with
  | Redeem _ _ _ (Some key) _, ARedeemed (Accepted _) | Redeem _ _ _ (Some key) _, ARedeemed Thrown => [peerIdFromPublicKey key]
  | _, _ => []
  end.
Definition paired_ids (tr : list Step) : list string := tr ≫= pairs.

(** Nothing but a redemption changes the bindings. *)
Lemma peers_frame now r op s : key_draw r →
  peers (exec limits now r op s).2 = peers s ∨
  ∃ offer secret key s1, compared now op s = Some (offer, key) ∧ peers s1 = peers s ∧ pairs (step_of limits now r op s) = [peerIdFromPublicKey key] ∧
    peers (exec limits now r op s).2 = peers (redeem_accept limits now r offer secret key s1).2.
Proof.
  intros Hr. destruct op as [connection ttl| |i|i secret anchor key proof|peerId| |]; cbn [exec]; try by left.
  - left. unfold issuePairingOffer. set (s1 := match readAuthToken s with None => _ | Some _ => _ end).
    assert (peers s1 = peers s) as E1 by (unfold s1, rotateAuthToken; destruct (readAuthToken s); [done|by apply audit_peers]).
    assert (peers (getOrCreateTrustAnchor limits now r s1).2 = peers s1) as E2
      by (unfold getOrCreateTrustAnchor; destruct (readTrustAnchorRecord s1); [done|by apply audit_peers]).
    destruct (getOrCreateTrustAnchor limits now r s1) as [anchor s2]. cbn [snd] in E2.
    assert (peers (getOrCreateDaemonIdentity limits now r s2).2 = peers s2) as E3
      by (unfold getOrCreateDaemonIdentity; destruct (deviceIdentity s2); [done|by apply audit_peers]).
    destruct (getOrCreateDaemonIdentity limits now r s2) as [identity s3]. cbn [snd] in E3.
    destruct (hash_frame r (to_hex (dr_redeemSecret r)) s3 Hr) as (k & -> & _). destruct (key_frame r s3 Hr) as [[_ E4 _ _ _] _].
    cbn [snd]. match goal with |- context [appendPairingAudit _ _ ?ev ?s5] => destruct (audit_frame limits now ev s5) as (_ & E5 & _) end.
    rewrite E5. cbn [writeStore set_offers peers]. congruence.
  - left. unfold revokePairingOffer. destruct (find_first _ _) as [o|]; [|done].
    destruct (truthy_time _); [done|]. by apply audit_peers.
  - pose proof (redeem_cases limits now r i secret anchor key proof s) as Hc.
    destruct (compared now (Redeem i secret anchor key proof) s) as [[offer key']|] eqn:Ec.
    + destruct Hc as (_ & _ & (p & _ & Hkey%given_Some & _) & E). subst key.
      assert (∀ a, a ≠ Rejected → (redeemPairingOffer limits now r i secret anchor (Some key') proof s).1 = a →
        pairs (step_of limits now r (Redeem i secret anchor (Some key') proof) s) = [peerIdFromPublicKey key']) as Hpairs.
      { intros a Ha Hx. unfold pairs, step_of. cbn [st_op st_answer exec].
        destruct (redeemPairingOffer _ _ _ _ _ _ _ _ _) as [x s']. simpl in *. subst x. by destruct a. }
      rewrite E in *. clear E. revert Hpairs. unfold redeem_compare.
      assert (∀ ev f s1, peers s1 = peers s → peers (appendPairingAudit limits now ev (writeOffer now (o_offerId offer) f s1)) = peers s) as Hw.
      { intros ev f s1 E. destruct (audit_frame limits now ev (writeOffer now (o_offerId offer) f s1)) as (_ & E5 & _). by rewrite E5. }
      destruct (o_redeemSecretHash offer) as [[|x h]|]; intros Hpairs; [left; by apply Hw| |left; by apply Hw].
      destruct (hash_frame r secret s Hr) as (k & Eh & _). rewrite Eh in *. destruct (key_frame r s Hr) as [[_ E4 _ _ _] _].
      cbn [snd] in *. destruct (secureSecretCompare _ _); [|left; cbn [snd]; by apply Hw]. right. exists offer, secret, key', (getOrCreateSecretStoreKey r s).2.
      split; [done|]. split; [done|].
      split; [|by destruct (redeem_accept _ _ _ _ _ _ _)]. eapply Hpairs; [|reflexivity]. unfold redeem_accept. by case_match.
    + left. destruct Hc as (s' & -> & [->|[ev ->]]); [done|]. by apply audit_peers.
  - left. unfold resolveRelayPairingSecret, decryptRelayPairingSecret. destruct (key_frame r s Hr) as [[_ E4 _ _ _] _].
    destruct (negb (nonblank peerId)); [done|]. destruct (find_first _ _) as [b|]; [|done].
    destruct (pb_ciphertext b); [|done]. destruct (pb_iv b); [|done]. destruct (pb_tag b); [|done].
    by destruct (getOrCreateSecretStoreKey r s).
  - left. unfold rotateAuthToken. by apply audit_peers.
Qed.

Lemma compared_nonblank now op s offer key : compared now op s = Some (offer, key) → nonblank key = true.
Proof.
  destruct op as [| | |i secret anchor key' proof| | |]; try done. intros Ec.
  pose proof (redeem_cases limits now (Build_Draws "" "" "" "" "" "" "" "" "" "") i secret anchor key' proof s) as Hc.
  rewrite Ec in Hc. destruct Hc as (_ & _ & (p & _ & _ & Hp) & _). unfold client_proof_valid in Hp.
  destruct (pem_verify _ _ _) as [v|] eqn:E; [|done]. by eapply pem_nonblank.
Qed.

Lemma run_bindings s0 tr s T : Run limits s0 tr s → peers s0 = [] → 1 ≤ pairingPeerBindingsMax limits →
  StronglySorted Z.le (st_now <$> tr) → Forall (λ st, st_now st ≤ T) tr → bindings_ok T (peers s).
Proof.
  intros Hrun Hp Hm. revert T. induction Hrun as [|tr s now r op Hrun IH Hnow Hr]; intros T Hsort Hle.
  { rewrite Hp. split; [apply Forall_nil_2|apply NoDup_nil_2]. }
  rewrite fmap_app in Hsort. apply Forall_app in Hle as [_ Hle]. rewrite Forall_singleton in Hle.
  apply (bindings_later now); [done|]. assert (bindings_ok now (peers s)) as Hb.
  { apply IH; [by eapply StronglySorted_app_1_l|]. rewrite Forall_forall. intros st Hst.
    eapply (StronglySorted_app_1_elem_of Z.le); [exact Hsort|by apply list_elem_of_fmap_2|set_solver]. }
  destruct (peers_frame now r op s Hr) as [->|(offer & secret & key & s1 & Ec & E1 & _ & ->)]; [done|].
  rewrite <- E1 in Hb. by destruct (accept_binds now r offer secret key s1 Hb Hr Hm (compared_nonblank _ _ _ _ _ Ec)).
Qed.

(** A binding that the store holds and can decrypt, among at most [n]. *)
Definition bound (T : Z) (k : string) (b : PairingPeerBindingRecord) (n : nat) (s : Files) : Prop :=
  settled s ∧ current_key s = Some k ∧ bindings_ok T (peers s) ∧ b ∈ readPeerBindings limits s ∧ (length (peers s) ≤ n)%nat.

Lemma bound_step now r op s T k b n : T ≤ now → NoDup (o_offerId <$> offers s) → key_draw r → bound T k b n s →
  let st := step_of limits now r op s in
  pb_peerId b ∉ pairs st → Z.of_nat (n + length (pairs st)) ≤ pairingPeerBindingsMax limits →
  bound now k b (n + length (pairs st)) (exec limits now r op s).2.
Proof.
  intros HT N Hr (Hset & Hk & Hb & Hin & Hlen) st Hne Hmax. destruct (proj1 (exec_effect limits now r op s N Hr) Hset) as [Hset' Hk'].
  apply (bindings_later T now) in Hb; [|done].
  destruct (peers_frame now r op s Hr) as [E|(offer & secret & key & s1 & Ec & E1 & Ep & E)].
  - split; [done|]. split; [by apply Hk'|]. unfold readPeerBindings. rewrite E. split; [done|]. split; [exact Hin|lia].
  - fold st in Ep. rewrite Ep in Hne, Hmax |- *. simpl in Hmax. pose proof (compared_nonblank _ _ _ _ _ Ec) as Hkey.
    destruct (peerId_form key) as [Ht Hnb]. rewrite <- E1 in Hb, Hlen. unfold readPeerBindings in Hin. rewrite <- E1 in Hin.
    destruct (accept_binds now r offer secret key s1 Hb Hr ltac:(lia) Hkey) as [Hok _].
    split; [done|]. split; [by apply Hk'|]. unfold readPeerBindings. rewrite E. split; [exact Hok|].
    revert Hok. unfold redeem_accept. set (s2 := writeOffer now (o_offerId offer) (set_redeemedAt (Some now)) s1).
    destruct (upsert_keeps limits now r s2 (peerIdFromPublicKey key) key
      (deriveRelayPairingSecret (o_offerId offer) secret (o_trustAnchor offer) key (o_daemonPublicKey offer)) (o_offerId offer)
      (o_trustAnchor offer) b) as [K1 K2]; try done; [set_solver|change (peers s2) with (peers s1); lia|].
    intros _. change (peers s2) with (peers s1) in K2. unfold readPeerBindings in K1. simpl length.
    destruct (sign_response _ _ _); cbn [snd]; rewrite ?(audit_peers _ _ _ _ eq_refl); (split; [exact K1|lia]).
Qed.

Lemma bound_run s2 later s4 T k b n : Run limits s2 later s4 →
  (∀ tr1 st, tr1 ++ [st] `prefix_of` later → NoDup (o_offerId <$> offers (st_before st))) →
  StronglySorted Z.le (T :: (st_now <$> later)) → bound T k b n s2 → pb_peerId b ∉ paired_ids later →
  Z.of_nat (n + length (paired_ids later)) ≤ pairingPeerBindingsMax limits →
  ∃ T', T' ∈ T :: (st_now <$> later) ∧ bound T' k b (n + length (paired_ids later)) s4.
Proof.
  intros Hrun Hnd Hsort Hb. induction Hrun as [|later s now r op Hrun IH Hnow Hr]; intros Hne Hmax.
  { exists T. split; [by left|]. simpl. by rewrite Nat.add_0_r. }
  unfold paired_ids in *. rewrite bind_app, length_app in *. cbn [mbind list_bind] in *. rewrite app_nil_r in *.
  rewrite fmap_app, app_comm_cons in Hsort. rewrite not_elem_of_app in Hne. destruct Hne as [Hne Hst].
  destruct IH as (T' & HT' & Hb'); [intros tr1 st Hp; by apply (Hnd tr1), prefix_app_r|by eapply StronglySorted_app_1_l|done|lia|].
  exists now. split; [rewrite fmap_app; set_solver|]. rewrite Nat.add_assoc. eapply (bound_step now r op s T'); try done; [| |lia].
  - eapply (StronglySorted_app_1_elem_of Z.le); [exact Hsort|exact HT'|by apply list_elem_of_singleton].
  - apply (Hnd later (step_of limits now r op s)). done.
Qed.

(** What the store finds for a client, it finds while it holds the binding. *)
Lemma bound_resolves T n s k r peerId secret : bindings_ok T (peers s) → settled s → current_key s = Some k → key_draw r →
  (resolveRelayPairingSecret limits r peerId s).1 = Some secret → (length (peers s) ≤ n)%nat →
  ∃ b, pb_peerId b = peerId ∧ bound T k b n s ∧
    ∀ T' n' s', bound T' k b n' s' → ∀ r', key_draw r' → (resolveRelayPairingSecret limits r' peerId s').1 = Some secret.
Proof.
  intros Hb Hset Hk Hr Hres Hlen. unfold resolveRelayPairingSecret in *. destruct (negb (nonblank peerId)); [done|].
  destruct (find_first _ _) as [b|] eqn:Ef; [|done]. apply find_first_Some in Ef as [Hin Hid%String.eqb_eq]. subst peerId.
  exists b. split; [done|]. split; [done|]. intros T' n' s'' (_ & Hk' & Hb' & Hin' & _) r' Hr'.
  unfold readPeerBindings in *. rewrite (find_peer _ _ (proj2 (compact_ok limits _ _ Hb')) Hin'). by rewrite (decrypt_key r r' b k s).
Qed.

(** ** A pairing *)

(** What [Issue] answers is the record it stores. *)
Lemma issue_answer now r connection ttl s : key_draw r →
  ∃ p o k, (exec limits now r (Issue connection ttl) s).1 = AIssued p ∧ issued limits now r (Issue connection ttl) s = [o] ∧
    current_key (exec limits now r (Issue connection ttl) s).2 = Some k ∧
    o_offerId o = i_offerId p ∧ o_expiresAt o = i_expiresAt p ∧ o_trustAnchor o = i_trustAnchor p ∧
    o_daemonPublicKey o = i_daemonPublicKey p ∧ o_redeemSecretHash o = Some (to_hex (hmac k (i_redeemSecret p))) ∧
    o_revokedAt o = None ∧ o_redeemedAt o = None ∧ o_lockedAt o = None ∧ now < o_expiresAt o ∧ o_offerId o = dr_offerId r ∧
    i_redeemSecret p = to_hex (dr_redeemSecret r).
Proof.
  intros Hr. pose proof (issued_spec limits now r (Issue connection ttl) s) as Hi. cbn [exec] in *. revert Hi.
  unfold issued, issuePairingOffer. set (s1 := match readAuthToken s with None => _ | Some _ => _ end).
  destruct (getOrCreateTrustAnchor limits now r s1) as [anchor s2]. destruct (getOrCreateDaemonIdentity limits now r s2) as [identity s3].
  destruct (hashPairingSecret r (to_hex (dr_redeemSecret r)) s3) as [hash s4]. intros Hi. cbn [fst snd].
  eexists _, _. destruct (Hi _ Hr ltac:(by apply list_elem_of_singleton)) as (c & t & k & [= <- <-] & E1 & E2 & E3 & E4 & E5 & E6 & E7 & E8).
  exists k. split; [done|]. split; [done|]. cbn [snd] in E3. split; [exact E3|]. cbn in *. split_and!; try done; lia.
Qed.

(** Redeeming an open offer with its secret. *)
Lemma redeem_open now r o k s secret key proof : key_draw r → NoDup (o_offerId <$> offers s) → o ∈ offers s → open now o = true →
  nonblank secret = true → truthy_str proof = true → client_proof_valid o secret key proof = true → nonblank key = true →
  current_key s = Some k → o_redeemSecretHash o = Some (to_hex (hmac k secret)) → to_hex (hmac k secret) ≠ "" →
  (∀ i text, deviceIdentity s = Some i → is_Some (pem_sign (di_privateKey i) text)) →
  bindings_ok now (peers s) → 1 ≤ pairingPeerBindingsMax limits →
  let result := exec limits now r (Redeem (o_offerId o) secret (Some (o_trustAnchor o)) (Some key) (Some proof)) s in
  (∃ payload, result.1 = ARedeemed (Accepted payload) ∧ rp_peerId payload = peerIdFromPublicKey key) ∧
  ∀ r', key_draw r' → (resolveRelayPairingSecret limits r' (peerIdFromPublicKey key) result.2).1 =
    Some (pairing_secret (o_offerId o) secret (o_trustAnchor o) key (o_daemonPublicKey o)).
Proof.
  intros Hr N Hin Hopen Hsec Hpr Hproof Hkey Hk Hh Hne Hsign Hb Hm. cbn [exec]. unfold redeemPairingOffer.
  rewrite Hsec, (find_offer _ _ N Hin), Hopen, (given_truthy key), (given_truthy proof) by (done || by apply nonblank_truthy).
  cbn [negb].
  assert (match given (Some (o_trustAnchor o)) with Some expected => negb (String.eqb (o_trustAnchor o) expected) | None => false end = false)
    as -> by (unfold given; cbn [mbind option_bind]; destruct (truthy_str (o_trustAnchor o)); [by rewrite String.eqb_refl|done]).
  rewrite Hproof. cbn [negb]. unfold redeem_compare. rewrite Hh. destruct (to_hex (hmac k secret)) as [|x h] eqn:Ex; [done|].
  destruct (hash_frame r secret s Hr) as (k' & -> & _ & Hk'). rewrite (Hk' _ Hk), Ex, (proj2 (secret_compare_spec _ _)) by done.
  destruct (key_frame r s Hr) as [[_ E1 _ _ E2] _]. set (s1 := (getOrCreateSecretStoreKey r s).2) in *.
  rewrite <- E1 in Hb. destruct (accept_binds now r o secret key s1 Hb Hr Hm Hkey) as [_ Hres].
  pose proof (λ i text, Hsign i text) as Hsign'. rewrite <- E2 in Hsign'. revert Hres. unfold redeem_accept.
  match goal with |- context [upsertPeerBinding ?a ?b ?c ?d ?e ?f ?g ?h ?i] =>
    destruct (upsert_frame a b c d e f g h i Hr) as (_ & _ & U); set (s2 := upsertPeerBinding a b c d e f g h i) in * end.
  assert (is_Some (sign_response o (peerIdFromPublicKey key) s2)) as [sg ->].
  { unfold sign_response. rewrite U. cbn [writeOffer writeStore set_offers deviceIdentity].
    destruct (deviceIdentity s1) as [i|] eqn:Ei; [|done]. destruct (Hsign' i (redeemEnvelope o (peerIdFromPublicKey key)) eq_refl) as [t ->]. done. }
  intros Hres. split; [by eexists|exact Hres].
Qed.

(** The offer is still there when the client comes back. *)
Lemma offer_waits s0 tr s1 t0 r0 connection ttl mid s3 now :
  let issue := Issue connection ttl in
  let history := tr ++ step_of limits t0 r0 issue s1 :: mid in
  Run limits s0 tr s1 → Run limits (exec limits t0 r0 issue s1).2 mid s3 → offers s0 = [] → settled s0 → 0 < t0 → key_draw r0 →
  NoDup (issued_ids history) → Forall (λ st, st_now st ≤ now) mid →
  Forall (λ st, concerns (dr_offerId r0) (st_op st) = false) mid → (length (issued_ids mid) < MAX_STORED_OFFERS)%nat →
  now < t0 + Z.min 3600 (Z.max 30 ttl) * 1000 → t0 ≤ now →
  consistent history s3 ∧ ∃ p o k, (exec limits t0 r0 issue s1).1 = AIssued p ∧ o ∈ offers s3 ∧ open now o = true ∧
    current_key s3 = Some k ∧ o_offerId o = i_offerId p ∧ o_trustAnchor o = i_trustAnchor p ∧
    o_daemonPublicKey o = i_daemonPublicKey p ∧ i_redeemSecret p = to_hex (dr_redeemSecret r0) ∧
    o_redeemSecretHash o = Some (to_hex (hmac k (i_redeemSecret p))).
Proof.
  intros issue history Hrun Hmid Hof Hset Ht0 Hr0 Hnd Hle Hcon Hlen Hnow Hnow0.
  assert (∀ mid' s, mid' `prefix_of` mid → Run limits (exec limits t0 r0 issue s1).2 mid' s →
    consistent (tr ++ step_of limits t0 r0 issue s1 :: mid') s) as Hcons.
  { intros mid' s [rest Em] Hm. apply (run_consistent limits s0); [by apply run_append|done..|].
    unfold history in Hnd. rewrite Em, app_comm_cons, app_assoc in Hnd. unfold issued_ids in *. rewrite bind_app in Hnd. by apply NoDup_app in Hnd as [? _]. }
  split; [by apply Hcons|]. pose proof (Hcons [] _ ltac:(by exists mid) (run_start _ _)) as Hc2.
  assert (consistent tr s1) as Hc1.
  { apply (run_consistent limits s0); [done..|]. unfold history, issued_ids in Hnd. rewrite bind_app in Hnd. by apply NoDup_app in Hnd as [? _]. }
  destruct (issue_answer t0 r0 connection ttl s1 Hr0) as (p & o & k & Ea & Ei & Ek & E1 & E2 & E3 & E4 & E5 & E6 & E7 & E8 & E9 & E10 & E11).
  assert (o_expiresAt o = t0 + Z.min 3600 (Z.max 30 ttl) * 1000) as Eexp.
  { destruct (issued_spec limits t0 r0 issue s1 o Hr0) as (? & ? & ? & [= <- <-] & _ & -> & _); [|done]. unfold issue. rewrite Ei. set_solver. }
  assert (retained 0 o (offers (exec limits t0 r0 issue s1).2)) as Hret.
  { destruct (exec_effect limits t0 r0 issue s1 (c_nodup _ _ Hc1) Hr0) as [_ Hl]. cbn zeta in Hl. fold issue in Ei. rewrite Ei in Hl.
    assert (∀ l, retained 0 o (l ++ [o])) as Hlast by (intros l; exists l, []; split; [done|simpl; lia]).
    destruct Hl as [->| ->]; [apply Hlast|]. apply retained_compact; [apply Hlast|unfold MAX_STORED_OFFERS; lia|].
    unfold fresh_offer, DAY_MS. apply negb_true_iff, orb_false_iff. split; [apply Z.eqb_neq|apply Z.leb_gt]; lia. }
  destruct (retained_run _ mid s3 o 0 k now Hmid) as (_ & Hk3 & l1 & l2 & El & _); try done.
  { intros tr1 st [rest Em]. destruct (run_split limits _ _ _ tr1 st rest Hmid) as (Hr1 & _); [by rewrite Em, <- app_assoc|].
    apply (c_nodup _ _ (Hcons tr1 _ ltac:(exists ([st] ++ rest); by rewrite Em, <- app_assoc) Hr1)). }
  { apply (c_settled _ _ Hc2). }
  { by rewrite E10. }
  { lia. }
  { lia. }
  exists p, o, k. split; [done|]. split; [rewrite El; set_solver|]. split.
  { unfold open, expired. rewrite E6, E7, E8. cbn [truthy_time]. rewrite !orb_false_r. apply negb_true_iff, Z.leb_gt. lia. }
  done.
Qed.

(** The histories in which a client redeems its offer and the daemon goes on. *)
Lemma history_states s0 history s2 later s4 tr1 st : Run limits s0 history s2 → Run limits s2 later s4 →
  offers s0 = [] → settled s0 → NoDup (issued_ids (history ++ later)) → tr1 ++ [st] `prefix_of` later →
  NoDup (o_offerId <$> offers (st_before st)).
Proof.
  intros Hrun Hlater Hof Hset Hnd [rest ->]. destruct (run_split limits _ _ _ tr1 st rest Hlater) as (Hr1 & _); [by rewrite <- app_assoc|].
  apply (c_nodup (history ++ tr1)). apply (run_consistent limits s0); [|done..|].
  - clear -Hrun Hr1. induction Hr1; [by rewrite app_nil_r|]. rewrite app_assoc. by constructor.
  - unfold issued_ids in *. rewrite <- app_assoc, app_assoc, bind_app in Hnd. by apply NoDup_app in Hnd as [? _].
Qed.

(** C30: A pairing completes, and lasts.  In every history of the store that starts empty and
    draws no offer id twice, with a clock that does not go back: a client that has the
    payload of an offer and a key pair makes a proof and redeems the offer before it
    expires, whatever happens to other offers meanwhile, restarts of the daemon included,
    as long as fewer than 200 more are issued; and the daemon then finds under the
    client's id the 32 bytes that the client derives from the payload and its key.  It
    finds them after every further history too, in which the client does not pair again
    and no more other clients pair than the store has room for. *)
Theorem pairing_completes s0 tr s1 t0 r0 connection ttl mid s3 now r public private :
  let issue := Issue connection ttl in
  let history := tr ++ step_of limits t0 r0 issue s1 :: mid in
  Run limits s0 tr s1 → Run limits (exec limits t0 r0 issue s1).2 mid s3 → offers s0 = [] → peers s0 = [] → settled s0 →
  0 < t0 → key_draw r0 → key_draw r → NoDup (issued_ids history) → StronglySorted Z.le ((st_now <$> history) ++ [now]) →
  Forall (λ st, concerns (dr_offerId r0) (st_op st) = false) mid → (length (issued_ids mid) < MAX_STORED_OFFERS)%nat →
  1 ≤ pairingPeerBindingsMax limits → dr_redeemSecret r0 ≠ "" → (∀ k d, hmac k d ≠ "") →
  pem_pair (trim public) (trim private) → (∀ text, is_Some (pem_sign (trim private) text)) →
  (∀ i text, deviceIdentity s3 = Some i → is_Some (pem_sign (di_privateKey i) text)) →
  now < t0 + Z.min 3600 (Z.max 30 ttl) * 1000 →
  ∃ p peerId key proof payload,
    (exec limits t0 r0 issue s1).1 = AIssued p ∧
    createPairingRedeemProof (i_offerId p) (i_redeemSecret p) (i_trustAnchor p) public private = Some (peerId, key, proof) ∧
    let redeem := Redeem (i_offerId p) (i_redeemSecret p) (Some (i_trustAnchor p)) (Some key) (Some proof) in
    let result := exec limits now r redeem s3 in
    let secret := pairing_secret (i_offerId p) (i_redeemSecret p) (i_trustAnchor p) key (i_daemonPublicKey p) in
    result.1 = ARedeemed (Accepted payload) ∧ rp_peerId payload = peerId ∧ String.length secret = 32%nat ∧
    (∀ r', key_draw r' → (resolveRelayPairingSecret limits r' peerId result.2).1 = Some secret) ∧
    ∀ later s4 r', Run limits result.2 later s4 → NoDup (issued_ids (history ++ later)) →
      StronglySorted Z.le (now :: (st_now <$> later)) → peerId ∉ paired_ids later →
      Z.of_nat (length (peers result.2) + length (paired_ids later)) ≤ pairingPeerBindingsMax limits →
      key_draw r' → (resolveRelayPairingSecret limits r' peerId s4).1 = Some secret.
Proof.
  intros issue history Hrun Hmid Hof Hpe Hset Ht0 Hr0 Hr Hnd Hsort Hcon Hlen Hm Hsec Hhm Hpair Hpriv Hdev Hnow.
  assert (∀ st, st ∈ history → st_now st ≤ now) as Hle.
  { intros st Hst. eapply (StronglySorted_app_1_elem_of Z.le); [exact Hsort|by apply list_elem_of_fmap_2|set_solver]. }
  assert (t0 ≤ now) as Ht0n by (apply (Hle (step_of limits t0 r0 issue s1)); unfold history; set_solver).
  destruct (offer_waits s0 tr s1 t0 r0 connection ttl mid s3 now) as (Hc & p & o & k & Ea & Hin & Hopen & Hk & E1 & E2 & E3 & E4 & E5);
    try done; [apply Forall_forall; intros st Hst; apply Hle; unfold history; set_solver|].
  destruct (Hpriv (canonicalRedeemPayload (i_offerId p) (i_redeemSecret p) (i_trustAnchor p) (trim public))) as [sg Hsg].
  pose proof (pem_correct _ _ _ _ Hpair Hsg) as Hver. pose proof (pem_nonblank _ _ _ _ Hver) as Hkey.
  assert (Run limits s0 history s3) as Hhist by by apply run_append.
  assert (bindings_ok now (peers s3)) as Hb3.
  { apply (run_bindings s0 history s3); [done..|by eapply StronglySorted_app_1_l|by apply Forall_forall]. }
  destruct (redeem_open now r o k s3 (i_redeemSecret p) (trim public) (toBase64Url sg)) as [[payload [Ep Epeer]] Hres]; try done.
  { apply (c_nodup _ _ Hc). }
  { rewrite E4. unfold nonblank. rewrite trim_to_hex. by destruct (dr_redeemSecret r0). }
  { apply truthy_str_true. by eapply pem_text. }
  { unfold client_proof_valid. rewrite base64_round_trip, E1, E2, Hver. done. }
  { specialize (Hhm k (i_redeemSecret p)). by destruct (hmac k (i_redeemSecret p)) as [|? ?]. }
  rewrite E1, E2, E3 in *. exists p, (peerIdFromPublicKey (trim public)), (trim public), (toBase64Url sg), payload.
  split; [done|]. split; [unfold createPairingRedeemProof; by rewrite Hsg|]. intros redeem result secret.
  split; [done|]. split; [done|]. split; [apply pairing_secret_length|]. split; [exact Hres|].
  intros later s4 r' Hlater Hnd' Hsort' Hother Hroom Hr'.
  destruct (proj1 (exec_effect limits now r redeem s3 (c_nodup _ _ Hc) Hr) (c_settled _ _ Hc)) as [Hset' Hk']. fold result in Hset', Hk'.
  assert (Run limits s0 (history ++ [step_of limits now r redeem s3]) result.2) as Hrun2 by (constructor; [done|lia|done]).
  assert (bindings_ok now (peers result.2)) as Hb.
  { apply (run_bindings s0 (history ++ [step_of limits now r redeem s3])); try done; [by rewrite fmap_app|].
    apply Forall_app. split; [by apply Forall_forall|by apply Forall_singleton]. }
  destruct (bound_resolves now _ result.2 k r _ secret Hb Hset' (Hk' _ Hk) Hr (Hres r Hr) (le_n _)) as (b & Hid & Hbound & Hfind).
  rewrite <- Hid in Hother.
  assert (∀ tr1 st, tr1 ++ [st] `prefix_of` later → NoDup (o_offerId <$> offers (st_before st))) as Hstates.
  { intros tr1 st Hp. eapply (history_states s0 (history ++ [step_of limits now r redeem s3]) result.2 later s4); try done.
    unfold issued_ids in *. rewrite !bind_app in *. cbn. by rewrite app_nil_r. }
  destruct (bound_run result.2 later s4 now k b _ Hlater Hstates Hsort' Hbound Hother Hroom) as (T' & _ & Hb'). by eapply Hfind.
Qed.
End Completes.
