(* ===== verification/PairingOffersExamples.v ===== *)
(** * Pairing offers: concrete histories

    In [Hexed], hashes keep the beginning of a text, buffers travel in hexadecimal, and the
    signature of a text is the text with the name of the key: the laws hold, and the
    properties of offers apply to histories that evaluate. *)

From S2P Require Import Prelude JsString JsMap Json JsonText JsonStringify Noise NoiseProps PairingOffers PairingPeers PairingOffersProps PairingCompletes.
From stdpp Require Import prelude strings list sorting.
From Stdlib Require Import ZArith Lia Ascii Sorting.

Open Scope Z_scope.

Fixpoint of_hex (s : string) : string :=
  match s with
  | String a (String b s) =>
      String (byte_of (16 * default 0%nat (hex_val a) + default 0%nat (hex_val b))) (of_hex s)
  | _ => ""
  end.

Lemma hex_val_digit n : (n < 16)%nat → hex_val (hex_digit n) = Some n.
Proof. intros Hn. do 16 (destruct n as [|n]; [done|]). lia. Qed.

Lemma of_to_hex s : of_hex (to_hex s) = s.
Proof.
  induction s as [|a s IH]; [done|]. cbn [to_hex of_hex]. rewrite IH. f_equal.
  pose proof (nat_ascii_bounded a) as Hb. unfold code.
  rewrite (hex_val_digit (_ / 16)) by (apply Nat.Div0.div_lt_upper_bound; lia).
  rewrite (hex_val_digit (_ mod 16)) by (apply Nat.mod_upper_bound; lia). cbn [default].
  unfold byte_of. rewrite <- (ascii_nat_embedding a) at 3. f_equal. symmetry. apply Nat.div_mod_eq.
Qed.

Lemma trim_line s : forallb visible (String.list_ascii_of_string s) = true → trim (s +:+ newline) = s.
Proof.
  intros Hv. pose proof (trim_visible s Hv) as Ht. unfold trim in *.
  assert (∀ s, forallb visible (String.list_ascii_of_string s) = true → trimStart s = s) as Hstart.
  { intros [|a t]; [done|]. cbn [String.list_ascii_of_string forallb]. intros [Ha _]%andb_true_iff.
    destruct (visible_not_ws a Ha) as [E1 E2]. unfold trimStart. cbn [strip]. rewrite E1. destruct t as [|b t]; [done|].
    destruct (E2 b b) as (-> & _ & _). destruct t as [|c t]; [done|]. by destruct (E2 b c) as (_ & _ & -> & _). }
  rewrite Hstart in Ht by done. destruct s as [|a s]; [done|].
  assert (trimStart (String a s +:+ newline) = String a s +:+ newline) as ->.
  { revert Hv. cbn [String.list_ascii_of_string forallb]. intros [Ha _]%andb_true_iff. destruct (visible_not_ws a Ha) as [E1 E2].
    unfold trimStart. rewrite append_cons. cbn [strip]. rewrite E1. destruct (s +:+ newline) as [|b t]; [done|].
    destruct (E2 b b) as (-> & _ & _). destruct t as [|c t]; [done|]. by destruct (E2 b c) as (_ & _ & -> & _). }
  unfold trimEnd in *. rewrite JsString.rev_append. exact Ht.
Qed.

(** The first bytes of a text, followed by zeros. *)
Fixpoint first_bytes (n : nat) (s : string) : string :=
  match n, s with
  | O, _ => ""
  | S n, "" => String (byte_of 0) (first_bytes n "")
  | S n, String a s => String a (first_bytes n s)
  end.

Lemma length_first_bytes n s : String.length (first_bytes n s) = n.
Proof. revert s. induction n as [|n IH]; intros [|a s]; simpl; auto. Qed.

Module Hexed.
#[export] Instance crypto : Crypto := {|
  sha256 := first_bytes 32;
  hmac := λ key data, String "#" data;
  hkdfSync := λ ikm salt info, first_bytes 32 (ikm +:+ salt +:+ info);
  aes_seal := λ key iv aad p, (p, zeros 16);
  aes_open := λ key iv aad body t, if String.eqb t (zeros 16) then Some body else None;
  valid_private := λ _, true;
  p256_public := λ _, String (byte_of 4) (zeros 64);
  computeSecret := λ _ _, Some "secret";
  toBase64Url := to_hex;
  fromBase64Url := of_hex
|}.
#[export] Instance laws : CryptoLaws.
Proof. split; try done; [intros a b _ _; by exists "secret"|apply of_to_hex]. Qed.
#[export] Instance pairing_laws : PairingLaws.
Proof.
  split; [|intros b; apply length_first_bytes|intros ikm salt info; apply length_first_bytes].
  intros b. apply trim_line. cbn [toBase64Url crypto]. induction b as [|a b IH]; [done|].
  cbn [to_hex String.list_ascii_of_string forallb]. destruct (hex_visible a) as [-> ->]. exact IH.
Qed.
#[export] Instance keys : PemKeys := {|
  pem_sign := λ private text, Some (private +:+ ":" +:+ text);
  pem_verify := λ public text signature, if nonblank public then Some (String.eqb signature (public +:+ ":" +:+ text)) else None;
  pem_pair := λ public private, nonblank public = true ∧ public = private
|}.
#[export] Instance key_laws : PemLaws.
Proof.
  split.
  - intros public private text signature [Hn ->] [= <-]. cbn [pem_verify keys]. by rewrite Hn, String.eqb_refl.
  - intros private text signature [= <-]. by destruct private.
  - intros public text signature v. cbn [pem_verify keys]. by destruct (nonblank public).
Qed.
End Hexed.
Import Hexed.

(** Runs a list of operations. *)
Fixpoint play (limits : Limits) (evs : list (Z * Draws * Op)) (s : Files) : list Step * Files :=
  match evs with
  | [] => ([], s)
  | (now, r, op) :: evs =>
      let '(tr, s') := play limits evs (exec limits now r op s).2 in (step_of limits now r op s :: tr, s')
  end.

Definition playable (ev : Z * Draws * Op) : bool :=
  (0 <? ev.1.1) && (String.length (dr_storeKey ev.1.2) =? 32)%nat.

Lemma play_run limits evs s : forallb playable evs = true → Run limits s (play limits evs s).1 (play limits evs s).2.
Proof.
  revert s. induction evs as [|[[now r] op] evs IH]; intros s; simpl; [constructor|].
  intros [[Hn%Z.ltb_lt Hr%Nat.eqb_eq]%andb_true_iff Hp]%andb_true_iff. specialize (IH (exec limits now r op s).2 Hp).
  destruct (play limits evs (exec limits now r op s).2) as [tr s']. cbn [fst snd] in *.
  by apply (run_append limits s [] s now r op tr s' (run_start limits s)).
Qed.

Definition no_files : Files := Build_Files [] [] None None None None [] [] None.
Definition two : Limits := {| pairingPeerBindingsMax := 2; pairingAuditMaxBytes := 1000 |}.
Definition draws (id : string) : Draws :=
  {| dr_offerId := id; dr_redeemSecret := id +:+ "!"; dr_token := "t"; dr_anchorId := "a"; dr_anchorSecret := "b";
     dr_deviceId := "device"; dr_devicePublicKey := "daemon"; dr_devicePrivateKey := "daemon"; dr_storeKey := zeros 32; dr_iv := "iv" |}.
Definition home : PairingOfferConnection :=
  {| oc_host := "h"; oc_port := 7070; oc_listen := "h:7070"; oc_socketPath := None; oc_profile := local |}.

(** A redemption of the offer by the client [ada], with this secret. *)
Definition redeem_by_ada (id secret : string) (s : Files) : Op :=
  let anchor := match offers s with o :: _ => o_trustAnchor o | [] => "" end in
  match createPairingRedeemProof id secret anchor "ada" "ada" with
  | Some (_, key, proof) => Redeem id secret None (Some key) (Some proof)
  | None => RestartDaemon
  end.

Definition issued_one : Files := (exec two 1000 (draws "one") (Issue home 60) no_files).2.
Definition guess (n : Z) : Z * Draws * Op := (2000 + n, draws "", redeem_by_ada "one" "wrong" issued_one).
Definition right_now (n : Z) : Z * Draws * Op := (2000 + n, draws "", redeem_by_ada "one" (to_hex "one!") issued_one).

Example four_guesses_then_right :
  map st_answer (play two ((1000, draws "one", Issue home 60) :: guess 1 :: guess 2 :: guess 3 :: guess 4 :: [right_now 5]) no_files).1
    !! 5%nat ≠ Some (ARedeemed Rejected).
Proof. vm_compute. done. Qed.

Example five_guesses_lock :
  map st_answer (play two ((1000, draws "one", Issue home 60) :: guess 1 :: guess 2 :: guess 3 :: guess 4 :: guess 5 :: [right_now 6]) no_files).1
    !! 6%nat = Some (ARedeemed Rejected).
Proof. vm_compute. reflexivity. Qed.

(** ** Witnesses *)

Lemma guesses_bounded_witness :
  let evs := (1000, draws "one", Issue home 60) :: map guess [1; 2; 3; 4; 5; 6; 7] in
  wrong_guesses "one" (play two evs no_files).1 = 5%nat ∧ (wrong_guesses "one" (play two evs no_files).1 ≤ 5)%nat.
Proof.
  intros evs. split; [vm_compute; reflexivity|].
  apply (guesses_bounded two no_files _ (play two evs no_files).2 "one").
  - apply play_run. vm_compute. reflexivity.
  - reflexivity.
  - intros k. done.
  - apply (bool_decide_unpack _). vm_compute. exact I.
Defined.

Definition once : list (Z * Draws * Op) := [(1000, draws "one", Issue home 60); guess 1; guess 2; right_now 3].
Definition once_history : list Step := (play two once no_files).1.
Definition once_last : Step := default (step_of two 0 (draws "") RestartDaemon no_files) (last once_history).

Lemma redeemed_once_witness : once_history = take 3 once_history ++ [once_last] ∧ redeem_step "one" once_last = true ∧
  wrong_guesses "one" (take 3 once_history) = 2%nat ∧ (wrong_guesses "one" (take 3 once_history) < 5)%nat.
Proof.
  assert (once_history = take 3 once_history ++ [once_last]) as E by (vm_compute; reflexivity).
  assert (redeem_step "one" once_last = true) as Er by (vm_compute; reflexivity).
  split; [exact E|]. split; [exact Er|]. split; [vm_compute; reflexivity|].
  apply (redeemed_once two no_files once_history (play two once no_files).2 (take 3 once_history) once_last [] "one").
  - apply play_run. vm_compute. reflexivity.
  - reflexivity.
  - intros k. done.
  - apply (bool_decide_unpack _). vm_compute. exact I.
  - exact E.
  - exact Er.
Defined.

Definition meanwhile : list (Z * Draws * Op) :=
  [(1500, draws "", RestartDaemon); (1600, draws "two", Issue home 60); (1700, draws "", redeem_by_ada "two" "wrong" issued_one)].

(** Afterwards: the daemon restarts, another client pairs, a third guesses. *)
Definition bob_pairs : Op :=
  match (exec two 1600 (draws "two") (Issue home 60) (play two [(1500, draws "", RestartDaemon)] issued_one).2).1 with
  | AIssued p =>
      match createPairingRedeemProof (i_offerId p) (i_redeemSecret p) (i_trustAnchor p) "bob" "bob" with
      | Some (_, key, proof) => Redeem (i_offerId p) (i_redeemSecret p) None (Some key) (Some proof)
      | None => RestartDaemon
      end
  | _ => RestartDaemon
  end.
Definition afterwards : list (Z * Draws * Op) :=
  [(2500, draws "", RestartDaemon); (2600, draws "", bob_pairs); (2700, draws "", redeem_by_ada "two" "wrong" issued_one)].

Lemma pairing_completes_witness :
  let s2 := (exec two 1000 (draws "one") (Issue home 60) no_files).2 in
  let s3 := (play two meanwhile s2).2 in
  length (offers s3) = 2%nat ∧
  ∃ p peerId key proof,
    (exec two 1000 (draws "one") (Issue home 60) no_files).1 = AIssued p ∧
    createPairingRedeemProof (i_offerId p) (i_redeemSecret p) (i_trustAnchor p) "ada" "ada" = Some (peerId, key, proof) ∧
    let redeem := Redeem (i_offerId p) (i_redeemSecret p) (Some (i_trustAnchor p)) (Some key) (Some proof) in
    let later := play two afterwards (exec two 2000 (draws "") redeem s3).2 in
    length (paired_ids later.1) = 1%nat ∧ (resolveRelayPairingSecret two (draws "") peerId later.2).1 =
      Some (pairing_secret (i_offerId p) (i_redeemSecret p) (i_trustAnchor p) key (i_daemonPublicKey p)).
Proof.
  intros s2 s3. split; [vm_compute; reflexivity|].
  destruct (pairing_completes two no_files [] no_files 1000 (draws "one") home 60 (play two meanwhile s2).1 s3 2000 (draws "") "ada" "ada")
    as (p & peerId & key & proof & payload & Hp & Hk & _ & _ & _ & _ & Hlater).
  - constructor.
  - apply play_run. vm_compute. reflexivity.
  - reflexivity.
  - reflexivity.
  - intros k. done.
  - lia.
  - reflexivity.
  - reflexivity.
  - apply (bool_decide_unpack _). vm_compute. exact I.
  - vm_compute. repeat constructor; done.
  - vm_compute. repeat constructor.
  - vm_compute. lia.
  - done.
  - done.
  - done.
  - by vm_compute.
  - intros text. by eexists.
  - intros i text _. by eexists.
  - done.
  - exists p, peerId, key, proof. split; [exact Hp|]. split; [exact Hk|]. intros redeem later.
    assert (bool_decide (length (paired_ids later.1) = 1%nat) && bool_decide (peerId ∉ paired_ids later.1) &&
      (length (peers (exec two 2000 (draws "") redeem s3).2) <=? 1)%nat &&
      bool_decide (issued_ids later.1 = []) && bool_decide (map st_now later.1 = [2500; 2600; 2700]) = true) as Hf.
    { clear Hlater. vm_compute in Hp. injection Hp as <-. vm_compute in Hk. injection Hk as <- <- <-. vm_compute. reflexivity. }
    rewrite !andb_true_iff, !bool_decide_eq_true, Nat.leb_le in Hf. destruct Hf as ((((F1 & F2) & F3) & F4) & F5).
    split; [exact F1|]. apply (Hlater later.1 later.2 (draws "")); [apply play_run; vm_compute; reflexivity| | |exact F2| |reflexivity].
    + unfold issued_ids in F4 |- *. rewrite bind_app, F4, app_nil_r. apply (bool_decide_unpack _). vm_compute. exact I.
    + change (st_now <$> later.1) with (map st_now later.1). rewrite F5. repeat constructor; done.
    + rewrite F1. cbn [pairingPeerBindingsMax two]. fold redeem. lia.
Defined.
