(* ===== verification/ServerSecurity.v ===== *)
(** * Who may talk to the daemon (packages/daemon/src/server/security.ts, auth.ts,
    http-server.ts, startup.ts)

    The daemon listens on a loopback address, or on a network; a profile says which hosts
    a request may name, from which origins it may come and whether it needs a token.
    [onRequest] is the hook that every HTTP request passes.  [new URL] is an argument. *)

From S2P Require Import Prelude JsString JsMap Json JsonText JsonStringify Noise Admission PairingOffers PairingPeers.
From stdpp Require Import prelude strings list.
From Stdlib Require Import ZArith Lia Ascii.

(** ** security.ts *)

Inductive DeploymentProfile := profile_local | profile_lan | profile_relay.
#[export] Instance DeploymentProfile_eq_dec : EqDecision DeploymentProfile.
Proof. solve_decision. Defined.

(** [string[] | true] *)
Inductive AllowList := Everything | Only (rules : list string).

Record SecurityProfile := {
  sp_profile : DeploymentProfile; sp_host : string; sp_allowedHosts : AllowList; sp_allowedOrigins : AllowList;
  sp_requireAuth : bool
}.

Record SecurityProfileInput := {
  in_profile : DeploymentProfile; in_host : string; in_allowedHostsRaw : option string;
  in_allowedOriginsRaw : option string; in_explicitAuthFlag : bool
}.

Definition isLoopbackHost (host : string) : bool :=
  bool_decide (lower (trim host) ∈ ["127.0.0.1"; "localhost"; "::1"; "[::1]"]).

Definition parseAllowedHosts (raw : option string) : AllowList :=
  let text := coalesce raw "" in
  if negb (nonblank text) then Only []
  else if String.eqb (lower (trim text)) "true" then Everything
  else Only (List.filter truthy_str (map (λ part, lower (trim part)) (split_on "," text))).

Definition no_rules (l : AllowList) : bool := match l with Only [] => true | _ => false end.

(** The error of a profile that is refused, or the profile. *)
Inductive ProfileError := HostRequired | LoopbackRequired | AllowedHostsRequired.

Definition buildSecurityProfile (input : SecurityProfileInput) : ProfileError + SecurityProfile :=
  let allowedHosts := parseAllowedHosts (in_allowedHostsRaw input) in
  let allowedOrigins := parseAllowedHosts (in_allowedOriginsRaw input) in
  let host := trim (in_host input) in
  let networked := bool_decide (in_profile input ≠ profile_local) in
  if String.eqb host "" then inl HostRequired
  else if negb networked && negb (isLoopbackHost host) then inl LoopbackRequired
  else if networked && no_rules allowedHosts then inl AllowedHostsRequired
  else inr {| sp_profile := in_profile input; sp_host := host; sp_allowedHosts := allowedHosts;
              sp_allowedOrigins := allowedOrigins; sp_requireAuth := networked || in_explicitAuthFlag input |}.

(** [s.slice(0, s.indexOf(c))], and [None] when there is no [c]. *)
Fixpoint up_to (c : ascii) (s : string) : option string :=
  match s with
  | EmptyString => None
  | String a s => if Ascii.eqb a c then Some "" else String a <$> up_to c s
  end.

Definition normalizeHostHeader (hostHeader : string) : string :=
  let trimmed := lower (trim hostHeader) in
  let port_cut := coalesce (up_to ":" trimmed) trimmed in
  if startsWith trimmed "[" then
    match up_to "]" trimmed with Some h => h +:+ "]" | None => port_cut end
  else port_cut.

Definition endsWith (s p : string) : bool := String.prefix (String.rev p) (String.rev s).

Definition hostMatchesRule (host rule : string) : bool :=
  if String.eqb rule host then true
  else if startsWith rule "." then
    let suffix := slice_from 1 rule in
    if negb (has_char "." suffix) then false else String.eqb host suffix || endsWith host rule
  else false.

Definition allows (rules : list string) (host : string) : bool := existsb (hostMatchesRule host) rules.

Definition isHostAllowed (hostHeader : option string) (profile : SecurityProfile) : bool :=
  match hostHeader with
  | None | Some "" => false
  | Some hostHeader =>
      let host := normalizeHostHeader hostHeader in
      if negb (truthy_str host) then false else
      match sp_allowedHosts profile with
      | Everything => true
      | Only rules => if isLoopbackHost host then true else allows rules host
      end
  end.

Section Guard.
(** [new URL(origin).hostname]; [None] when it throws. *)
Variable url_hostname : string → option string.

Definition isOriginAllowed (origin : option string) (profile : SecurityProfile) : bool :=
  match origin with
  | None => true
  | Some origin =>
      if negb (nonblank origin) then true else
      match sp_allowedOrigins profile with
      | Everything => true
      | Only explicitOrigins =>
          match url_hostname origin with
          | None => false
          | Some hostname =>
              let originHost := lower hostname in
              if isLoopbackHost originHost then true else
              match explicitOrigins with
              | _ :: _ => allows explicitOrigins originHost
              | [] => match sp_allowedHosts profile with
                      | Everything => true
                      | Only rules => allows rules originHost
                      end
              end
          end
      end
  end.

(** ** auth.ts *)

(** The token in memory of the local provider; [NoAuth] is the provider of --no-auth. *)
Inductive AuthProvider := LocalAuth (token : option string) | NoopAuth.

(** [initialize], with the text of the token file and 32 random bytes; the text that is
    written when there is no file. *)
Definition initialize (file : option string) (random : string) : AuthProvider * option string :=
  match file with
  | Some text => (LocalAuth (Some (trim text)), None)
  | None => (LocalAuth (Some (to_hex random)), Some (to_hex random +:+ newline))
  end.

Definition validate (auth : AuthProvider) (token : string) : bool :=
  match auth with
  | NoopAuth => true
  | LocalAuth None => false
  | LocalAuth (Some expected) => secureSecretCompare token expected
  end.

(** [/^Bearer\s+(\S+)$/i]: white space, then characters none of which is white space. *)
Definition no_space (s : string) : bool :=
  (fix go (s : string) : bool :=
    match s with
    | EmptyString => true
    | String a s' =>
        negb (ws1 a) &&
        match s' with
        | EmptyString => true
        | String b s'' => negb (ws2 a b) && match s'' with EmptyString => true | String c _ => negb (ws3 a b c) end
        end && go s'
    end) s.

Definition extractBearerToken (authHeader : option string) : option string :=
  let text := coalesce authHeader "" in
  if String.eqb (lower (String.substring 0 6 text)) "bearer" then
    let rest := slice_from 6 text in
    let token := trimStart rest in
    if String.eqb token rest || negb (truthy_str token) || negb (no_space token) then None else Some token
  else None.

(** [new URL(url, 'http://localhost').searchParams.get('token')]; [None] too when it throws. *)
Variable query_token : string → option string.

Definition extractTokenFromRequest (authorization url : option string) (allowQueryToken : bool) : option string :=
  match extractBearerToken authorization with
  | Some token => Some token
  | None =>
      if negb allowQueryToken then None else
      u ← url; if negb (truthy_str u) then None else
      token ← query_token u; if truthy_str (trim token) then Some (trim token) else None
  end.

(** ** http-server.ts *)

Record HttpRequest := {
  hr_url : string; hr_host : option string; hr_origin : option string; hr_authorization : option string
}.

Inductive Verdict := Passed | Forbidden | Unauthorized.

Definition isHookAuthBypassAllowed (profile : option SecurityProfile) : bool :=
  match profile with
  | Some p => bool_decide (sp_profile p = profile_local) && isLoopbackHost (sp_host p)
  | None => false
  end.
Definition isPairAuthBypassAllowed : option SecurityProfile → bool := isHookAuthBypassAllowed.

Definition mustRequireAuth (profile : option SecurityProfile) (auth : option AuthProvider) : bool :=
  match profile with None => true | Some p => bool_decide (is_Some auth) || sp_requireAuth p end.

Definition token_valid (auth : AuthProvider) (authorization : option string) : bool :=
  match extractBearerToken authorization with Some token => validate auth token | None => false end.

Definition demand_token (profile : option SecurityProfile) (auth : option AuthProvider) (request : HttpRequest) : Verdict :=
  if negb (mustRequireAuth profile auth) then Passed else
  match auth with
  | None => Unauthorized
  | Some auth => if token_valid auth (hr_authorization request) then Passed else Unauthorized
  end.

(** The URL as the client wrote it, without the query. *)
Definition raw_path (url : string) : string := coalesce (up_to "?" url) url.

Definition onRequest (profile : option SecurityProfile) (auth : option AuthProvider) (request : HttpRequest) : Verdict :=
  let url := raw_path (hr_url request) in
  let refused := match profile with
                 | Some p => negb (isHostAllowed (hr_host request) p) || negb (isOriginAllowed (hr_origin request) p)
                 | None => false
                 end in
  if refused then Forbidden
  else if String.eqb url "/health" then Passed
  else if negb (startsWith url "/api/") then Passed
  else if bool_decide (url ∈ ["/api/lifecycle/shutdown"; "/api/lifecycle/restart"]) then demand_token profile auth request
  else if String.eqb url "/api/hook" && isHookAuthBypassAllowed profile then Passed
  else if bool_decide (url ∈ ["/api/pair/redeem"; "/api/pair/offer"]) && isPairAuthBypassAllowed profile then Passed
  else demand_token profile auth request.
End Guard.

(** ** startup.ts *)

Record StartupConfig := {
  cf_profile : DeploymentProfile; cf_host : string; cf_allowedHostsRaw : option string; cf_allowedOriginsRaw : option string;
  cf_authEnabled : bool; cf_tlsHost : option string
}.

(** The profile and the provider the daemon starts with. *)
Definition startup_security (config : StartupConfig) (tokenFile : option string) (random : string) :
    ProfileError + SecurityProfile * option AuthProvider :=
  let tlsHostAllowance := match cf_tlsHost config with Some h => "," +:+ h +:+ ",." +:+ h | None => "" end in
  let viewportWebOriginAllowance :=
    if bool_decide (cf_profile config = profile_local)
    then ",getviewport.com,.getviewport.com,getviewport.test,.getviewport.test" else "" in
  match buildSecurityProfile
          {| in_profile := cf_profile config; in_host := cf_host config;
             in_allowedHostsRaw := Some (coalesce (cf_allowedHostsRaw config) "" +:+ tlsHostAllowance);
             in_allowedOriginsRaw := Some (coalesce (cf_allowedOriginsRaw config) "" +:+ tlsHostAllowance +:+ viewportWebOriginAllowance);
             in_explicitAuthFlag := cf_authEnabled config |} with
  | inl e => inl e
  | inr profile =>
      inr (profile, if sp_requireAuth profile then Some (initialize tokenFile random).1 else None)
  end.

(** ** What a rule matches *)

Lemma prefix_spec p s : String.prefix p s = true ↔ ∃ t, s = p +:+ t.
Proof.
  revert s. induction p as [|a p IH]; intros s.
  - split; [by exists s|]. by destruct s.
  - destruct s as [|b s]; [split; [done|]; by intros [t Ht]|]. simpl. destruct (ascii_dec a b) as [<-|Hab].
    + rewrite IH. split; intros [t Ht]; exists t; rewrite ?append_cons in *; congruence.
    + split; [done|]. intros [t Ht]. rewrite append_cons in Ht. congruence.
Qed.

Lemma endsWith_spec s p : endsWith s p = true ↔ ∃ t, s = t +:+ p.
Proof.
  unfold endsWith. rewrite prefix_spec. split; intros [t Ht].
  - exists (String.rev t). by rewrite <- (JsString.rev_involutive s), Ht, JsString.rev_append, JsString.rev_involutive.
  - exists (String.rev t). by rewrite Ht, JsString.rev_append.
Qed.

(** A rule matches the host it names, or, with a dot in front, a domain of at least two
    labels and its subdomains. *)
Lemma host_rule_spec host rule : hostMatchesRule host rule = true ↔
  rule = host ∨ ∃ suffix, rule = String "." suffix ∧ has_char "." suffix = true ∧ (host = suffix ∨ ∃ sub, host = sub +:+ String "." suffix).
Proof.
  unfold hostMatchesRule. destruct (String.eqb_spec rule host) as [|Hne]; [tauto|].
  destruct (startsWith rule ".") eqn:Es.
  - apply prefix_spec in Es as [suffix ->]. rewrite append_cons, append_nil_l in *.
    assert (slice_from 1 (String "." suffix) = suffix) as ->
      by (unfold slice_from; cbn [String.length String.substring]; rewrite Nat.sub_succ, Nat.sub_0_r; apply substring_all).
    destruct (has_char "." suffix) eqn:Ed; cbn [negb].
    + rewrite orb_true_iff, String.eqb_eq, endsWith_spec. split.
      * intros Hs. right. by exists suffix.
      * intros [E|(s' & [= <-] & _ & Hs)]; [congruence|exact Hs].
    + split; [done|]. intros [?|(s' & [= <-] & Hd & _)]; congruence.
  - split; [done|]. intros [?|(s' & -> & _)]; [done|]. assert (startsWith (String "." s') "." = true) by (apply prefix_spec; by exists s').
    congruence.
Qed.

Lemma allows_spec rules host : allows rules host = true ↔ ∃ rule, rule ∈ rules ∧ hostMatchesRule host rule = true.
Proof. apply existsb_elem_of. Qed.

(** ** What passes *)

Section Props.
Variable url_hostname : string → option string.

Definition host_in (profile : SecurityProfile) (header : option string) : Prop :=
  ∃ h, header = Some h ∧ normalizeHostHeader h ≠ "" ∧
    match sp_allowedHosts profile with
    | Everything => True
    | Only rules => isLoopbackHost (normalizeHostHeader h) = true ∨
                    ∃ rule, rule ∈ rules ∧ hostMatchesRule (normalizeHostHeader h) rule = true
    end.

Lemma host_allowed_iff header profile : isHostAllowed header profile = true ↔ host_in profile header.
Proof.
  unfold isHostAllowed, host_in. destruct header as [h|]; [|split; [done|by intros (? & ? & _)]].
  assert (h = "" → normalizeHostHeader h = "") as Hz by (by intros ->).
  destruct h as [|a h]; [split; [done|]; intros (? & [= <-] & Hn & _); by destruct Hn|].
  set (host := normalizeHostHeader (String a h)). destruct (truthy_str host) eqn:Et; simpl.
  - apply truthy_str_true in Et. destruct (sp_allowedHosts profile) as [|rules].
    + split; [|done]. intros _. by exists (String a h).
    + destruct (isLoopbackHost host) eqn:El.
      * split; [|done]. intros _. exists (String a h). split; [done|]. split; [done|]. by left.
      * rewrite allows_spec. split; [intros Hr; exists (String a h); split_and!; [done|done|by right]|].
        intros (? & [= <-] & _ & [Hl|Hr]); [fold host in Hl; congruence|exact Hr].
  - assert (host = "") as Eh by (apply not_false_is_true in Et || (destruct host; done)).
    split; [done|]. intros (? & [= <-] & Hn & _). done.
Qed.

Lemma demand_passes profile auth request : demand_token profile auth request = Passed ↔
  mustRequireAuth profile auth = false ∨ ∃ a token, auth = Some a ∧ extractBearerToken (hr_authorization request) = Some token ∧
    validate a token = true.
Proof.
  unfold demand_token, token_valid. destruct (mustRequireAuth profile auth); simpl; [|tauto].
  destruct auth as [a|]; [|split; [done|]; intros [|(? & ? & ? & _)]; done].
  destruct (extractBearerToken (hr_authorization request)) as [t|];
    [|split; [done|]; intros [|(? & ? & _ & ? & _)]; done].
  destruct (validate a t) eqn:Ev; [split; [|done]; intros _; right; by exists a, t|].
  split; [done|]. intros [|(? & ? & [= <-] & [= <-] & ?)]; congruence.
Qed.

(** A request under /api/ that passes. *)
Lemma api_passes profile auth request : onRequest url_hostname profile auth request = Passed →
  startsWith (raw_path (hr_url request)) "/api/" = true →
  (∀ p, profile = Some p → isHostAllowed (hr_host request) p = true ∧ isOriginAllowed url_hostname (hr_origin request) p = true) ∧
  (isHookAuthBypassAllowed profile = true ∨ demand_token profile auth request = Passed).
Proof.
  unfold onRequest. intros Hp Hapi. destruct (match profile with Some p => _ | None => false end) eqn:Er; [done|].
  split.
  { intros p ->. apply orb_false_iff in Er as [?%negb_false_iff ?%negb_false_iff]. done. }
  destruct (String.eqb_spec (raw_path (hr_url request)) "/health") as [E|]; [by rewrite E in Hapi|].
  rewrite Hapi in Hp. simpl in Hp. destruct (bool_decide _); [by right|].
  destruct (String.eqb _ _ && isHookAuthBypassAllowed profile) eqn:E1; [split_bools; by left|].
  destruct (bool_decide _ && isPairAuthBypassAllowed profile) eqn:E2; [split_bools; by left|by right].
Qed.

(** *** Where the rules come from *)

Lemma split_on_app sep a b : split_on sep (a +:+ String sep b) = split_on sep a ++ split_on sep b.
Proof.
  induction a as [|x a IH]; [rewrite append_nil_l; cbn [split_on]; by rewrite Ascii.eqb_refl|].
  rewrite append_cons. cbn [split_on]. rewrite IH. destruct (Ascii.eqb x sep); [done|].
  by destruct (split_on_cons sep a) as (w & ws & ->).
Qed.

Lemma append_empty (t : string) : t +:+ "" = t.
Proof. induction t as [|x t IH]; [done|]. by rewrite append_cons, IH. Qed.

(** A list of the configuration with the rules of the TLS host, as startup.ts joins them;
    its entries, and the hosts they name. *)
Definition with_tls (raw tlsHost : option string) : string :=
  coalesce raw "" +:+ match tlsHost with Some h => "," +:+ h +:+ ",." +:+ h | None => "" end.
Definition entries (raw tlsHost : option string) : list string :=
  split_on "," (coalesce raw "") ++ match tlsHost with Some h => split_on "," h ++ split_on "," (String "." h) | None => [] end.
Definition names (raw tlsHost : option string) (host : string) : Prop :=
  ∃ part, part ∈ entries raw tlsHost ∧ lower (trim part) ≠ "" ∧ hostMatchesRule host (lower (trim part)) = true.
Definition wildcard (raw tlsHost : option string) : Prop := lower (trim (with_tls raw tlsHost)) = "true".

Lemma with_tls_entries raw tls : split_on "," (with_tls raw tls) = entries raw tls.
Proof.
  unfold with_tls, entries. destruct tls as [h|]; [|by rewrite append_empty, app_nil_r].
  rewrite append_cons, append_nil_l, split_on_app. f_equal. rewrite append_cons. by rewrite split_on_app.
Qed.

Lemma list_rules raw tls : match parseAllowedHosts (Some (with_tls raw tls)) with
  | Everything => wildcard raw tls
  | Only rules => ∀ host, allows rules host = true → names raw tls host
  end.
Proof.
  unfold parseAllowedHosts. change (coalesce (Some (with_tls raw tls)) "") with (with_tls raw tls).
  destruct (negb (nonblank (with_tls raw tls))); [done|]. destruct (String.eqb_spec (lower (trim (with_tls raw tls))) "true"); [done|].
  intros host (rule & Hr & Hm)%allows_spec. rewrite with_tls_entries in Hr. apply list_elem_of_In, filter_In in Hr as [Hr Ht].
  apply in_map_iff in Hr as (part & <- & Hp%list_elem_of_In). exists part. split; [exact Hp|]. split; [by apply truthy_str_true|exact Hm].
Qed.

Lemma listed_or_tls raw tls : no_rules (parseAllowedHosts (Some (with_tls raw tls))) = false →
  parseAllowedHosts raw ≠ Only [] ∨ is_Some tls.
Proof.
  unfold with_tls. destruct tls as [h|]; [by right; exists h|]. rewrite append_empty. intros Hn. left. intros E.
  assert (parseAllowedHosts (Some (coalesce raw "")) = parseAllowedHosts raw) as Ec by done.
  by rewrite Ec, E in Hn.
Qed.

(** The hosts that a Host header may name, and an Origin. *)
Definition listed_host (config : StartupConfig) (host : string) : Prop :=
  isLoopbackHost host = true ∨ names (cf_allowedHostsRaw config) (cf_tlsHost config) host ∨
  wildcard (cf_allowedHostsRaw config) (cf_tlsHost config).
Definition listed_origin (config : StartupConfig) (origin : string) : Prop :=
  wildcard (cf_allowedOriginsRaw config) (cf_tlsHost config) ∨
  ∃ host, url_hostname origin = Some host ∧
    (isLoopbackHost (lower host) = true ∨ names (cf_allowedOriginsRaw config) (cf_tlsHost config) (lower host) ∨
     parseAllowedHosts (Some (with_tls (cf_allowedOriginsRaw config) (cf_tlsHost config))) = Only [] ∧ listed_host config (lower host)).

(** The profile has the lists of the configuration. *)
Definition lists_of (config : StartupConfig) (p : SecurityProfile) : Prop :=
  sp_allowedHosts p = parseAllowedHosts (Some (with_tls (cf_allowedHostsRaw config) (cf_tlsHost config))) ∧
  sp_allowedOrigins p = parseAllowedHosts (Some (with_tls (cf_allowedOriginsRaw config) (cf_tlsHost config))).

Lemma host_listed config p header : lists_of config p → isHostAllowed header p = true →
  ∃ h, header = Some h ∧ normalizeHostHeader h ≠ "" ∧ listed_host config (normalizeHostHeader h).
Proof.
  intros [Eh _] (h & -> & Hn & Hr)%host_allowed_iff. exists h. split; [done|]. split; [done|]. rewrite Eh in Hr.
  pose proof (list_rules (cf_allowedHostsRaw config) (cf_tlsHost config)) as Hl. unfold listed_host.
  destruct (parseAllowedHosts _) as [|rules]; [by right; right|]. destruct Hr as [Hr|Hr]; [by left|].
  right. left. by apply Hl, allows_spec.
Qed.

Lemma origin_listed config p origin : lists_of config p → isOriginAllowed url_hostname origin p = true →
  ∀ o, origin = Some o → nonblank o = true → listed_origin config o.
Proof.
  intros [Eh Eo] Ho o -> Hn. unfold isOriginAllowed in Ho. rewrite Hn in Ho. cbn [negb] in Ho. unfold listed_origin.
  rewrite Eo, Eh in Ho. pose proof (list_rules (cf_allowedOriginsRaw config) (cf_tlsHost config)) as Hl.
  destruct (parseAllowedHosts (Some (with_tls (cf_allowedOriginsRaw config) (cf_tlsHost config)))) as [|rules]; [by left|]. right.
  destruct (url_hostname o) as [host|]; [|done]. exists host. split; [done|].
  destruct (isLoopbackHost (lower host)) eqn:El; [by left|right]. destruct rules as [|rule rules]; [right|left; by apply Hl].
  split; [done|]. pose proof (list_rules (cf_allowedHostsRaw config) (cf_tlsHost config)) as Hh. unfold listed_host.
  destruct (parseAllowedHosts _) as [|rules]; [by right; right|]. right. left. by apply Hh.
Qed.

Lemma bearer_read header token : extractBearerToken header = Some token →
  ∃ h, header = Some h ∧ lower (String.substring 0 6 h) = "bearer" ∧ trimStart (slice_from 6 h) = token.
Proof.
  unfold extractBearerToken. destruct header as [h|]; [|done]. change (coalesce (Some h) "") with h.
  destruct (String.eqb_spec (lower (String.substring 0 6 h)) "bearer") as [E|]; [|done].
  destruct (_ || _ || _); [done|]. intros [= <-]. by exists h.
Qed.

(** C31: On a network, the API needs the token and a host that is named.  If the daemon starts
    with the lan or relay profile, the operator's list of hosts is not empty or the daemon
    has a TLS host, and a request whose URL, as written, begins with /api/ passes the hook
    only with an Authorization header that says Bearer and exactly the token of the
    daemon's file, or the one just drawn; with a Host header that names a loopback host or
    matches an entry of the operator's list or the TLS host or its subdomains, unless the
    list says that all hosts are allowed; and with no Origin, or one whose host is a
    loopback host or is named in the same way by the list of origins, or by that of hosts
    when there is none of origins. *)
Theorem network_api_guarded config tokenFile random profile auth request :
  startup_security config tokenFile random = inr (profile, auth) → cf_profile config ≠ profile_local →
  onRequest url_hostname (Some profile) auth request = Passed → startsWith (raw_path (hr_url request)) "/api/" = true →
  (parseAllowedHosts (cf_allowedHostsRaw config) ≠ Only [] ∨ is_Some (cf_tlsHost config)) ∧
  (∃ h, hr_host request = Some h ∧ normalizeHostHeader h ≠ "" ∧ listed_host config (normalizeHostHeader h)) ∧
  (∀ o, hr_origin request = Some o → nonblank o = true → listed_origin config o) ∧
  ∃ h, hr_authorization request = Some h ∧ lower (String.substring 0 6 h) = "bearer" ∧
    trimStart (slice_from 6 h) = match tokenFile with Some text => trim text | None => to_hex random end.
Proof.
  unfold startup_security, buildSecurityProfile. cbn [in_profile in_host in_allowedHostsRaw in_allowedOriginsRaw in_explicitAuthFlag].
  intros Hs Hnet Hp Hapi. rewrite (bool_decide_eq_true_2 (cf_profile config ≠ profile_local)) in Hs by done.
  rewrite (bool_decide_eq_false_2 (cf_profile config = profile_local)) in Hs by done. cbn [negb andb orb] in Hs. rewrite append_empty in Hs.
  fold (with_tls (cf_allowedHostsRaw config) (cf_tlsHost config)) in Hs. fold (with_tls (cf_allowedOriginsRaw config) (cf_tlsHost config)) in Hs.
  destruct (String.eqb (trim (cf_host config)) ""); [done|].
  destruct (no_rules _) eqn:Eno; [done|]. cbn [sp_requireAuth] in Hs. injection Hs as <- <-.
  destruct (api_passes _ _ _ Hp Hapi) as [Hall [Hby|Hd]].
  { simpl in Hby. rewrite bool_decide_eq_false_2 in Hby by done. done. }
  destruct (Hall _ eq_refl) as [Hh Ho]. split; [by apply listed_or_tls|]. split; [eapply host_listed; [|exact Hh]; by split|].
  split; [eapply origin_listed; [|exact Ho]; by split|]. apply bearer_read.
  apply demand_passes in Hd as [Hm|(a & token & [= <-] & Ht & Hv)]; [simpl in Hm; done|]. rewrite Ht.
  destruct tokenFile as [text|]; cbn [initialize fst validate] in Hv; by apply secret_compare_spec in Hv as ->.
Qed.

(** On one machine, the API is for loopback and listed hosts.  If the daemon starts with
    the local profile, it listens on a loopback host, and a request under /api/ that
    passes names in its Host header a loopback host or one that a rule lists, so that a
    page that points its own domain at the daemon is refused, unless all hosts were
    allowed; and without the token only if the operator did not ask for one, or for the
    hook and the pairing routes. *)
Theorem local_api_guarded config tokenFile random profile auth request :
  startup_security config tokenFile random = inr (profile, auth) → cf_profile config = profile_local →
  onRequest url_hostname (Some profile) auth request = Passed → startsWith (raw_path (hr_url request)) "/api/" = true →
  isLoopbackHost (sp_host profile) = true ∧ host_in profile (hr_host request) ∧
  isOriginAllowed url_hostname (hr_origin request) profile = true ∧
  (cf_authEnabled config = false ∨ raw_path (hr_url request) ∈ ["/api/hook"; "/api/pair/redeem"; "/api/pair/offer"] ∨
   extractBearerToken (hr_authorization request) = Some (match tokenFile with Some text => trim text | None => to_hex random end)).
Proof.
  unfold startup_security, buildSecurityProfile. cbn [in_profile in_host in_allowedHostsRaw in_allowedOriginsRaw in_explicitAuthFlag].
  intros Hs Hloc Hp Hapi. rewrite Hloc in Hs.
  rewrite (bool_decide_eq_false_2 (profile_local ≠ profile_local)) in Hs by tauto. cbn [negb andb orb] in Hs.
  destruct (String.eqb (trim (cf_host config)) ""); [done|].
  destruct (isLoopbackHost (trim (cf_host config))) eqn:El; [|done]. cbn [negb sp_requireAuth] in Hs. injection Hs as <- <-.
  destruct (api_passes _ _ _ Hp Hapi) as [Hall _]. destruct (Hall _ eq_refl) as [Hh Ho].
  split; [done|]. split; [by apply host_allowed_iff|]. split; [done|].
  destruct (cf_authEnabled config) eqn:Ea; [right|by left].
  revert Hp. unfold onRequest. rewrite Hapi, Hh, Ho. cbn [negb orb].
  destruct (String.eqb_spec (raw_path (hr_url request)) "/health") as [E|_]; [by rewrite E in Hapi|].
  assert (∀ p, demand_token (Some p) (Some (initialize tokenFile random).1) request = Passed →
    extractBearerToken (hr_authorization request) = Some (match tokenFile with Some text => trim text | None => to_hex random end)) as Hd.
  { intros p [Hm|(a & token & [= <-] & -> & Hv)]%demand_passes; [by simpl in Hm|].
    destruct tokenFile as [text|]; cbn [initialize fst validate] in Hv; by apply secret_compare_spec in Hv as ->. }
  destruct (bool_decide _); [intros Hp; right; exact (Hd _ Hp)|].
  destruct (String.eqb_spec (raw_path (hr_url request)) "/api/hook") as [->|_]; [intros _; left; set_solver|]. cbn [andb].
  destruct (bool_decide_reflect (raw_path (hr_url request) ∈ ["/api/pair/redeem"; "/api/pair/offer"])) as [Hin|_].
  - intros _. left. set_solver.
  - intros Hp. right. exact (Hd _ Hp).
Qed.
End Props.

(** ** Witnesses and flaws *)

Definition lan_config : StartupConfig :=
  {| cf_profile := profile_lan; cf_host := "0.0.0.0"; cf_allowedHostsRaw := Some "app.example.com"; cf_allowedOriginsRaw := None;
     cf_authEnabled := false; cf_tlsHost := None |}.
Definition home_config : StartupConfig :=
  {| cf_profile := profile_local; cf_host := "localhost"; cf_allowedHostsRaw := None; cf_allowedOriginsRaw := None;
     cf_authEnabled := true; cf_tlsHost := None |}.
Definition get (url host : string) (authorization : option string) : HttpRequest :=
  {| hr_url := url; hr_host := Some host; hr_origin := None; hr_authorization := authorization |}.

Lemma network_api_guarded_witness : ∃ profile auth,
  startup_security lan_config (Some "tok") "" = inr (profile, auth) ∧
  onRequest (λ _, None) (Some profile) auth (get "/api/sessions?x=1" "app.example.com:7070" (Some "Bearer tok")) = Passed ∧
  names (Some "app.example.com") None "app.example.com" ∧ trimStart (slice_from 6 "Bearer tok") = "tok".
Proof.
  do 2 eexists. split; [reflexivity|]. split; [vm_compute; reflexivity|].
  edestruct (network_api_guarded (λ _, None) lan_config (Some "tok") "") with (request := get "/api/sessions?x=1" "app.example.com:7070" (Some "Bearer tok"))
    as (_ & (h & [= <-] & _ & [Hl|[Hn|Ht]]) & _ & (t & [= <-] & _ & Ha)); [reflexivity|discriminate|vm_compute; reflexivity|vm_compute; reflexivity| | |].
  - exfalso. vm_compute in Hl. discriminate Hl.
  - split; [exact Hn|exact Ha].
  - exfalso. vm_compute in Ht. discriminate Ht.
Defined.

Lemma local_api_guarded_witness : ∃ profile auth,
  startup_security home_config (Some "tok") "" = inr (profile, auth) ∧
  isLoopbackHost (sp_host profile) = true ∧ host_in profile (Some "127.0.0.1:7070") ∧
  isOriginAllowed (λ _, None) None profile = true ∧
  (cf_authEnabled home_config = false ∨ raw_path "/api/hook" ∈ ["/api/hook"; "/api/pair/redeem"; "/api/pair/offer"] ∨
   extractBearerToken None = Some "tok").
Proof.
  do 2 eexists. split; [reflexivity|].
  eapply (local_api_guarded (λ _, None) home_config (Some "tok") "") with (request := get "/api/hook" "127.0.0.1:7070" None);
    [reflexivity|done|vm_compute; reflexivity|vm_compute; reflexivity].
Defined.

(** The rules of the TLS host count as the operator's: with TLS a lan daemon starts with no
    list of hosts at all. *)
Lemma tls_fills_allowlist : ∃ profile auth,
  startup_security {| cf_profile := profile_lan; cf_host := "0.0.0.0"; cf_allowedHostsRaw := None; cf_allowedOriginsRaw := None;
                      cf_authEnabled := false; cf_tlsHost := Some "box.example.com" |} (Some "tok") "" = inr (profile, auth) ∧
  sp_allowedHosts profile = Only ["box.example.com"; ".box.example.com"].
Proof. do 2 eexists. split; [vm_compute; reflexivity|reflexivity]. Qed.

(** The hook tests the URL as it was written: with a letter of /api/ percent-encoded it
    passes without a token on every profile, although a router that decodes the path
    serves it under /api/. *)
Lemma encoded_path_unguarded : ∃ profile auth, startup_security lan_config (Some "tok") "" = inr (profile, auth) ∧
  onRequest (λ _, None) (Some profile) auth (get "/api/directories" "app.example.com" None) = Unauthorized ∧
  onRequest (λ _, None) (Some profile) auth (get "/%61pi/directories" "app.example.com" None) = Passed.
Proof. do 2 eexists. split; [reflexivity|]. by split; vm_compute. Qed.

(** The wildcard of the operator is lost when the daemon has a TLS host: the allowance is
    appended to the text, which no longer reads [true]. *)
Lemma wildcard_lost_with_tls :
  let config tls := {| cf_profile := profile_lan; cf_host := "0.0.0.0"; cf_allowedHostsRaw := Some "true"; cf_allowedOriginsRaw := None;
                       cf_authEnabled := false; cf_tlsHost := tls |} in
  let hosts tls := match startup_security (config tls) None "" with inr (p, _) => Some (sp_allowedHosts p) | inl _ => None end in
  hosts None = Some Everything ∧ hosts (Some "box.example.com") = Some (Only ["true"; "box.example.com"; ".box.example.com"]).
Proof. by split; vm_compute. Qed.

(** On the local profile the origins always have an allowance: [true] never allows all. *)
Lemma origin_wildcard_lost :
  match startup_security {| cf_profile := profile_local; cf_host := "localhost"; cf_allowedHostsRaw := None;
          cf_allowedOriginsRaw := Some "true"; cf_authEnabled := false; cf_tlsHost := None |} None "" with
  | inr (p, _) => isOriginAllowed (λ o, Some "example.com") (Some "https://example.com") p = false
  | inl _ => False
  end.
Proof. by vm_compute. Qed.
