(* ===== verification/RegExp.v ===== *)
(** * Regular expressions

    The patterns of the code as ECMAScript runs them: a backtracking matcher over UTF-16
    code units that tries alternatives in order and takes as much as it can first.
    [runs] is the language of a pattern; [run_iff] states that the matcher finds a match
    exactly when there is one.  Repetition is of one class of characters, which is all
    that the patterns of the code repeat. *)

From S2P Require Import Prelude JsString.
From stdpp Require Import prelude strings list.
From Stdlib Require Import NArith ZArith Lia Ascii.

Notation unit16 := N.

(** The code units of a text that is kept as UTF-8. *)
Fixpoint utf16_of (l : list ascii) : list unit16 :=
  match l with
  | [] => []
  | a :: l1 =>
      let x := N_of_ascii a in
      if (x <? 192)%N then x :: utf16_of l1 else
      match l1 with
      | [] => [x]
      | b :: l2 =>
          let y := (N_of_ascii b mod 64)%N in
          if (x <? 224)%N then ((x mod 32) * 64 + y)%N :: utf16_of l2 else
          match l2 with
          | [] => [x]
          | c :: l3 =>
              let z := (N_of_ascii c mod 64)%N in
              if (x <? 240)%N then ((x mod 16) * 4096 + y * 64 + z)%N :: utf16_of l3 else
              match l3 with
              | [] => [x]
              | d :: l4 =>
                  let v := ((x mod 8) * 262144 + y * 4096 + z * 64 + N_of_ascii d mod 64 - 65536)%N in
                  (55296 + v / 1024)%N :: (56320 + v mod 1024)%N :: utf16_of l4
              end
          end
      end
  end.

Definition utf16 (s : string) : list unit16 := utf16_of (String.list_ascii_of_string s).
Definition u (a : ascii) : unit16 := N_of_ascii a.

(** Units below 128, as text. *)
Definition ascii_text (l : list unit16) : string := String.string_of_list_ascii (map ascii_of_N l).

(** ** Classes of characters *)

Definition between (lo hi : ascii) (c : unit16) : bool := (u lo <=? c)%N && (c <=? u hi)%N.
Definition is_unit (a : ascii) (c : unit16) : bool := (c =? u a)%N.
Definition one_of (s : string) (c : unit16) : bool := existsb (λ a, is_unit a c) (String.list_ascii_of_string s).
Definition letter (c : unit16) : bool := between "a" "z" c || between "A" "Z" c.
Definition digit (c : unit16) : bool := between "0" "9" c.
(** [\w] *)
Definition word (c : unit16) : bool := letter c || digit c || is_unit "_" c.
(** [\s] *)
Definition space (c : unit16) : bool :=
  ((9 <=? c) && (c <=? 13) || (c =? 32) || (c =? 160) || (c =? 5760) || (8192 <=? c) && (c <=? 8202) ||
   (c =? 8232) || (c =? 8233) || (c =? 8239) || (c =? 8287) || (c =? 12288) || (c =? 65279))%N.
Definition line_end (c : unit16) : bool := ((c =? 10) || (c =? 13) || (c =? 8232) || (c =? 8233))%N.
(** [.] *)
Definition dot (c : unit16) : bool := negb (line_end c).
(** A character, and with the flag i its other case. *)
Definition lower_unit (c : unit16) : unit16 := if between "A" "Z" c then (c + 32)%N else c.
Definition same_unit (ignoreCase : bool) (a : ascii) (c : unit16) : bool :=
  if ignoreCase then (lower_unit c =? lower_unit (u a))%N else is_unit a c.

(** ** Patterns *)

Inductive re :=
| Eps
| Chr (p : unit16 → bool)
| Star (p : unit16 → bool)
| Cat (r1 r2 : re)
| Alt (r1 r2 : re)
| Opt (r : re)
| Bound                                                     (* \b *)
| Group (r : re).                                           (* the capture *)

Definition Plus (p : unit16 → bool) : re := Cat (Chr p) (Star p).
(** Literal text. *)
Fixpoint lit_chars (ignoreCase : bool) (l : list ascii) : re :=
  match l with [] => Eps | a :: l => Cat (Chr (same_unit ignoreCase a)) (lit_chars ignoreCase l) end.
Definition Lit (ignoreCase : bool) (s : string) : re := lit_chars ignoreCase (String.list_ascii_of_string s).
Fixpoint cats (rs : list re) : re := match rs with [] => Eps | [r] => r | r :: rs => Cat r (cats rs) end.

(** What is left of the text, the character before it, and the capture. *)
Record position := { prev : option unit16; rest : list unit16; cap : option (list unit16) }.

Definition at_bound (s : position) : bool :=
  let w o := match o with Some c => word c | None => false end in
  negb (Bool.eqb (w (prev s)) (w (head (rest s)))).

Definition captured (s s' : position) : position :=
  {| prev := prev s'; rest := rest s'; cap := Some (take (length (rest s) - length (rest s')) (rest s)) |}.

(** As many as it can, then fewer. *)
Fixpoint run_star (p : unit16 → bool) (k : position → option position) (before : option unit16) (c : option (list unit16))
    (l : list unit16) : option position :=
  let stop := k {| prev := before; rest := l; cap := c |} in
  match l with
  | x :: l' => if p x then match run_star p k (Some x) c l' with Some s => Some s | None => stop end else stop
  | [] => stop
  end.

Fixpoint run (r : re) (k : position → option position) (s : position) : option position :=
  match r with
  | Eps => k s
  | Chr p => match rest s with x :: l => if p x then k {| prev := Some x; rest := l; cap := cap s |} else None | [] => None end
  | Star p => run_star p k (prev s) (cap s) (rest s)
  | Cat r1 r2 => run r1 (run r2 k) s
  | Alt r1 r2 => match run r1 k s with Some s' => Some s' | None => run r2 k s end
  | Opt r => match run r k s with Some s' => Some s' | None => k s end
  | Bound => if at_bound s then k s else None
  | Group r => run r (λ s', k (captured s s')) s
  end.

(** ** Uses *)

(** [new RegExp('^...$').test(text)] *)
Definition full_match (r : re) (text : list unit16) : bool :=
  match run r (λ s, if bool_decide (rest s = []) then Some s else None) {| prev := None; rest := text; cap := None |} with
  | Some _ => true
  | None => false
  end.

(** The first match from a place on. *)
Fixpoint search (r : re) (before : option unit16) (l : list unit16) : option position :=
  match run r Some {| prev := before; rest := l; cap := None |} with
  | Some s => Some s
  | None => match l with x :: l' => search r (Some x) l' | [] => None end
  end.

(** [/.../.test(text)] *)
Definition test (r : re) (text : list unit16) : bool := bool_decide (is_Some (search r None text)).

(** The captures of [text.matchAll(/.../g)], for a pattern that does not match the empty
    text; [skip] characters belong to the match before. *)
Fixpoint match_all (r : re) (skip : nat) (before : option unit16) (l : list unit16) : list (list unit16) :=
  match l with
  | [] => []
  | x :: l' =>
      match skip with
      | S skip => match_all r skip (Some x) l'
      | O =>
          match run r Some {| prev := before; rest := l; cap := None |} with
          | Some s => coalesce (cap s) [] :: match_all r (length l - length (rest s) - 1) (Some x) l'
          | None => match_all r 0 (Some x) l'
          end
      end
  end.

(** [text.replace(/.../g, by)], for such a pattern. *)
Fixpoint replace_all (r : re) (by_ : list unit16) (skip : nat) (before : option unit16) (l : list unit16) : list unit16 :=
  match l with
  | [] => []
  | x :: l' =>
      match skip with
      | S skip => replace_all r by_ skip (Some x) l'
      | O =>
          match run r Some {| prev := before; rest := l; cap := None |} with
          | Some s => by_ ++ replace_all r by_ (length l - length (rest s) - 1) (Some x) l'
          | None => x :: replace_all r by_ 0 (Some x) l'
          end
      end
  end.

(** ** The language of a pattern *)

Definition forward (s : position) (a l : list unit16) : position :=
  {| prev := match last a with Some x => Some x | None => prev s end; rest := l; cap := cap s |}.

Inductive runs : re → position → position → Prop :=
| runs_eps s : runs Eps s s
| runs_chr p s x l : rest s = x :: l → p x = true → runs (Chr p) s (forward s [x] l)
| runs_star p s a l : rest s = a ++ l → Forall (λ x, p x = true) a → runs (Star p) s (forward s a l)
| runs_cat r1 r2 s1 s2 s3 : runs r1 s1 s2 → runs r2 s2 s3 → runs (Cat r1 r2) s1 s3
| runs_left r1 r2 s s' : runs r1 s s' → runs (Alt r1 r2) s s'
| runs_right r1 r2 s s' : runs r2 s s' → runs (Alt r1 r2) s s'
| runs_some r s s' : runs r s s' → runs (Opt r) s s'
| runs_none r s : runs (Opt r) s s
| runs_bound s : at_bound s = true → runs Bound s s
| runs_group r s s' : runs r s s' → runs (Group r) s (captured s s').

Lemma forward_cons x a l b c w :
  forward {| prev := b; rest := w; cap := c |} (x :: a) l = forward {| prev := Some x; rest := tail w; cap := c |} a l.
Proof. unfold forward. rewrite last_cons. simpl. by destruct (last a). Qed.

Lemma run_star_iff p k b c l : is_Some (run_star p k b c l) ↔
  ∃ a l', l = a ++ l' ∧ Forall (λ x, p x = true) a ∧ is_Some (k (forward {| prev := b; rest := l; cap := c |} a l')).
Proof.
  revert b. induction l as [|x l IH]; intros b; simpl.
  - split.
    + intros Hk. exists [], []. split_and!; [done|constructor|exact Hk].
    + intros (a & l' & E & _ & Hk). symmetry in E. apply app_eq_nil in E as [-> ->]. exact Hk.
  - assert (is_Some (k {| prev := b; rest := x :: l; cap := c |}) → ∃ a l', x :: l = a ++ l' ∧ Forall (λ x, p x = true) a ∧
      is_Some (k (forward {| prev := b; rest := x :: l; cap := c |} a l'))) as Hstop by (intros Hk; exists [], (x :: l); split_and!; [done|constructor|exact Hk]).
    destruct (p x) eqn:Ep.
    + split.
      * destruct (run_star p k (Some x) c l) as [s|] eqn:Er; [|exact Hstop]. intros _.
        destruct (proj1 (IH (Some x))) as (a & l' & -> & Ha & Hk); [by rewrite Er|].
        exists (x :: a), l'. split; [done|]. split; [by constructor|]. by rewrite forward_cons.
      * intros (a & l' & E & Ha & Hk). destruct a as [|y a]; simpl in E.
        { subst l'. by destruct (run_star p k (Some x) c l). }
        simplify_eq. inversion Ha; subst. destruct (proj2 (IH (Some y))) as [s ->]; [|done].
        exists a, l'. split; [done|]. split; [done|]. by rewrite forward_cons in Hk.
    + split; [exact Hstop|]. intros (a & l' & E & Ha & Hk). destruct a as [|y a]; simpl in E; [by subst l'|].
      simplify_eq. inversion Ha; subst. congruence.
Qed.

(** The matcher succeeds exactly when the pattern can match so that the rest succeeds. *)
Lemma run_iff r k s : is_Some (run r k s) ↔ ∃ s', runs r s s' ∧ is_Some (k s').
Proof.
  revert k s. induction r as [|p|p|r1 IH1 r2 IH2|r1 IH1 r2 IH2|r IH| |r IH]; intros k s; simpl.
  - split; [intros Hk; exists s; split; [constructor|done]|]. intros (s' & Hr & Hk). by inversion Hr; subst.
  - split.
    + destruct (rest s) as [|x l] eqn:E; [by intros []|]. destruct (p x) eqn:Ep; [|by intros []].
      intros Hk. exists (forward s [x] l). split; [by constructor|exact Hk].
    + intros (s' & Hr & Hk). inversion Hr as [|? ? x l E Ep| | | | | | | |]; subst. by rewrite E, Ep.
  - rewrite run_star_iff. split.
    + intros (a & l' & E & Ha & Hk). exists (forward s a l'). split; [by constructor|]. unfold forward in *. by destruct (last a).
    + intros (s' & Hr & Hk). inversion Hr as [| |? ? a l E Ha| | | | | | |]; subst. by exists a, l.
  - rewrite IH1. setoid_rewrite IH2. split.
    + intros (s2 & H1 & s3 & H2 & Hk). exists s3. split; [by econstructor|done].
    + intros (s3 & Hr & Hk). inversion Hr; subst. eauto.
  - transitivity (is_Some (run r1 k s) ∨ is_Some (run r2 k s)).
    { destruct (run r1 k s); [by split; [left|]|]. split; [by right|]. by intros [[? ?]|]. }
    rewrite IH1, IH2. split.
    + intros [(s' & Hr & Hk)|(s' & Hr & Hk)]; exists s'; (split; [|done]); [by apply runs_left|by apply runs_right].
    + intros (s' & Hr & Hk). inversion Hr; subst; [left|right]; by exists s'.
  - transitivity (is_Some (run r k s) ∨ is_Some (k s)).
    { destruct (run r k s); [by split; [left|]|]. split; [by right|]. by intros [[? ?]|]. }
    rewrite IH. split.
    + intros [(s' & Hr & Hk)|Hk]; [exists s'; split; [by constructor|done]|exists s; split; [by constructor|done]].
    + intros (s' & Hr & Hk). inversion Hr; subst; [left; by exists s'|by right].
  - split.
    + destruct (at_bound s) eqn:E; [|by intros []]. intros Hk. exists s. split; [by constructor|done].
    + intros (s' & Hr & Hk). inversion Hr as [| | | | | | | |? E|]; subst. by rewrite E.
  - rewrite IH. split.
    + intros (s' & Hr & Hk). exists (captured s s'). split; [by constructor|done].
    + intros (s' & Hr & Hk). inversion Hr; subst. eauto.
Qed.

Lemma full_match_iff r text : full_match r text = true ↔
  ∃ s, runs r {| prev := None; rest := text; cap := None |} s ∧ rest s = [].
Proof.
  unfold full_match. set (k := λ s, if bool_decide (rest s = []) then Some s else None).
  pose proof (run_iff r k {| prev := None; rest := text; cap := None |}) as Hi.
  assert (∀ s, is_Some (k s) ↔ rest s = []) as Hk by (intros s; unfold k; case_bool_decide; split; (done || by intros [])).
  setoid_rewrite Hk in Hi. rewrite <- Hi. destruct (run r k _); split; (done || by intros []).
Qed.

(** A search finds a match when there is a place where the pattern matches. *)
Lemma search_iff r b l : is_Some (search r b l) ↔
  ∃ pre l' s, l = pre ++ l' ∧ runs r {| prev := match last pre with Some x => Some x | None => b end; rest := l'; cap := None |} s.
Proof.
  assert (∀ b l, is_Some (run r Some {| prev := b; rest := l; cap := None |}) ↔ ∃ s, runs r {| prev := b; rest := l; cap := None |} s) as Hr.
  { intros b' l'. rewrite run_iff. split; intros (s & Hs); [exists s; tauto|exists s; by split]. }
  revert b. induction l as [|x l IH]; intros b; simpl.
  - destruct (run r Some {| prev := b; rest := []; cap := None |}) as [s|] eqn:E.
    + split; [|done]. intros _. destruct (proj1 (Hr b [])) as [s' Hs']; [by rewrite E|]. by exists [], [], s'.
    + split; [by intros []|]. intros (pre & l' & s & El & Hs). symmetry in El. apply app_eq_nil in El as [-> ->].
      destruct (proj2 (Hr b [])) as [? Ex]; [by exists s|]. congruence.
  - destruct (run r Some {| prev := b; rest := x :: l; cap := None |}) as [s|] eqn:E.
    + split; [|done]. intros _. destruct (proj1 (Hr b (x :: l))) as [s' Hs']; [by rewrite E|]. by exists [], (x :: l), s'.
    + rewrite IH. split.
      * intros (pre & l' & s & -> & Hs). exists (x :: pre), l', s. split; [done|]. rewrite last_cons. by destruct (last pre).
      * intros (pre & l' & s & El & Hs). destruct pre as [|y pre]; simpl in El.
        { subst l'. destruct (proj2 (Hr b (x :: l))) as [? Ex]; [by exists s|]. congruence. }
        simplify_eq. exists pre, l', s. split; [done|]. rewrite last_cons in Hs. by destruct (last pre).
Qed.

(** ** Patterns seen through a window *)

(** Each character of the window is in its class. *)
Fixpoint window (ps : list (unit16 → bool)) (l : list unit16) : bool :=
  match ps, l with
  | [], _ => true
  | p :: ps, x :: l => p x && window ps l
  | _ :: _, [] => false
  end.

(** The window fits nowhere. *)
Fixpoint free (ps : list (unit16 → bool)) (l : list unit16) : Prop :=
  window ps l = false ∧ match l with [] => True | _ :: l => free ps l end.

(** [r] matches where the window fits. *)
Definition seen_through (r : re) (ps : list (unit16 → bool)) : Prop :=
  ∀ s, (∃ s', runs r s s') ↔ window ps (rest s) = true.

Lemma seen_chr p : seen_through (Chr p) [p].
Proof.
  intros s. cbn [window]. split.
  - intros [s' H]. inversion H as [|? ? x l E Ex| | | | | | | |]; subst. by rewrite E, Ex.
  - destruct (rest s) as [|x l] eqn:E; [done|]. rewrite andb_true_r. intros Ex. eexists. by constructor.
Qed.

Lemma seen_group r ps : seen_through r ps → seen_through (Group r) ps.
Proof.
  intros Hr s. etransitivity; [|apply Hr]. split; intros [s' H]; [inversion H; eauto|]. eexists. by constructor.
Qed.

Lemma seen_star p : seen_through (Star p) [].
Proof.
  intros s. split; [done|]. intros _. exists (forward s [] (rest s)). by constructor.
Qed.

Lemma seen_chr_cat p r ps : seen_through r ps → seen_through (Cat (Chr p) r) (p :: ps).
Proof.
  intros Hr s. cbn [window]. split.
  - intros [s' H]. inversion H as [| | |? ? ? s2 ? H1 H2| | | | | |]; subst.
    inversion H1 as [|? ? x l E Ex| | | | | | | |]; subst. rewrite E, Ex. apply (proj1 (Hr (forward s [x] l))). by exists s'.
  - destruct (rest s) as [|x l] eqn:E; [done|]. intros [Ex Hw]%andb_true_iff.
    destruct (proj2 (Hr (forward s [x] l)) Hw) as [s' Hs']. exists s'. econstructor; [by constructor|done].
Qed.

Lemma seen_plus p : seen_through (Plus p) [p].
Proof. apply seen_chr_cat, seen_star. Qed.

Lemma seen_lit b l r ps : seen_through r ps →
  seen_through (Cat (lit_chars b l) r) ((same_unit b <$> l) ++ ps).
Proof.
  intros Hr. induction l as [|a l IH]; intros s.
  - etransitivity; [|apply Hr]. split; intros [s' H].
    + inversion H as [| | |? ? ? s2 ? H1 H2| | | | | |]; subst. inversion H1; subst. eauto.
    + exists s'. econstructor; [constructor|done].
  - cbn [fmap list_fmap app lit_chars]. etransitivity; [|apply (seen_chr_cat _ _ _ IH)]. split; intros [s' H].
    + inversion H as [| | |? ? ? s2 ? H1 H2| | | | | |]; subst.
      inversion H1; subst. exists s'. repeat (econstructor; eauto).
    + inversion H as [| | |? ? ? s2 ? H1 H2| | | | | |]; subst.
      inversion H2; subst. exists s'. repeat (econstructor; eauto).
Qed.

Section windows.
Context (r : re) (ps : list (unit16 → bool)) (Hr : seen_through r ps).

Lemma run_window s : is_Some (run r Some s) ↔ window ps (rest s) = true.
Proof. etransitivity; [apply run_iff|]. etransitivity; [|apply Hr]. split; intros [s' ?]; [exists s'; tauto|exists s'; by split]. Qed.

Lemma free_not_found text : free ps text → test r text = false.
Proof.
  intros Hf. unfold test. apply bool_decide_eq_false. rewrite search_iff. intros (pre & l & s & -> & Hs).
  assert (window ps l = true) as Hw by exact (proj1 (Hr {| prev := _; rest := l; cap := None |}) (ex_intro _ s Hs)).
  induction pre as [|x pre IH] in Hf |- *; [|by destruct Hf].
  destruct l; destruct Hf; congruence.
Qed.
End windows.

Lemma window_take ps n l : window ps (take n l) = true → window ps l = true.
Proof.
  revert n l. induction ps as [|p ps IH]; intros [|n] [|x l]; cbn; try done.
  rewrite !andb_true_iff. intros [? ?]. by eauto.
Qed.

Lemma free_take ps n l : free ps l → free ps (take n l).
Proof.
  revert l. induction n as [|n IH]; intros l Hf.
  - split; [|done]. apply not_true_is_false. intros H. apply (window_take ps 0 l) in H. destruct l; destruct Hf; congruence.
  - destruct l as [|x l]; [done|]. destruct Hf as [Hw Hf]. split; [|by apply IH].
    apply not_true_is_false. intros H%(window_take _ (S n) (x :: l)). congruence.
Qed.

(** Replacing what [r] matches by a text that begins with [c]. *)
Section replacing.
Context (r : re) (rs : list (unit16 → bool)) (Hr : seen_through r rs).
Context (c : unit16) (by_ : list unit16).
Notation out := (replace_all r (c :: by_)).

(** The new text is the old one as far as it shows no [c]. *)
Lemma take_replaced n l b : take n (out 0 b l) = take n l ∨ c ∈ take n (out 0 b l).
Proof.
  revert l b. induction n as [|n IH]; intros [|x l] b; [by left..|]. cbn [replace_all].
  destruct (run r Some _) as [s|]; [right; cbn; set_solver|]. cbn [take].
  destruct (IH l (Some x)) as [->|H]; [by left|right; set_solver].
Qed.

Lemma window_avoids ps l : Forall (λ p : unit16 → bool, p c = false) ps → window ps l = true →
  c ∉ take (length ps) l ∧ ∀ l', take (length ps) l' = take (length ps) l → window ps l' = true.
Proof.
  revert l. induction ps as [|p ps IH]; intros [|x l]; cbn; try done; intros Hp Hw.
  { split; [set_solver|done]. } { split; [set_solver|done]. }
  inversion Hp; subst. apply andb_true_iff in Hw as [Hx Hw]. destruct (IH l) as [Hc Ht]; [done..|]. split.
  - rewrite not_elem_of_cons. split; [congruence|done].
  - intros [|y l'] E; [done|]. injection E as -> E. cbn. rewrite Hx. by apply Ht.
Qed.

Lemma window_replaced ps l b : Forall (λ p : unit16 → bool, p c = false) ps →
  window ps (out 0 b l) = true → window ps l = true.
Proof.
  intros Hp Hw. destruct (window_avoids _ _ Hp Hw) as [Hc Ht].
  destruct (take_replaced (length ps) l b) as [E|Hin]; [by apply Ht|done].
Qed.

Lemma free_app p ps a l : Forall (λ x, p x = false) a → free (p :: ps) l → free (p :: ps) (a ++ l).
Proof.
  intros Ha Hl. induction Ha as [|x a Hx _ IH]; [done|]. split; [|exact IH]. cbn. by rewrite Hx.
Qed.

(** Nothing that was not there appears, and what [r] matches goes. *)
Lemma free_replaced p ps n l b :
  Forall (λ q : unit16 → bool, q c = false) (p :: ps) → Forall (λ x, p x = false) (c :: by_) →
  p :: ps = rs ∨ free (p :: ps) l → free (p :: ps) (out n b l).
Proof.
  intros Hp Hby. revert n b. induction l as [|x l IH]; intros n b Hl; [done|].
  assert (p :: ps = rs ∨ free (p :: ps) l) as Hl' by (destruct Hl as [|[]]; auto).
  destruct n as [|n]; [|by apply IH].
  pose proof (run_window r rs Hr {| prev := b; rest := x :: l; cap := None |}) as Hrun.
  pose proof (window_replaced (p :: ps) (x :: l) b Hp) as Hw. cbn [replace_all rest] in *.
  destruct (run r Some _) as [s|]; [by apply free_app, IH|]. split; [|by apply IH].
  apply not_true_is_false. intros H. apply Hw in H. destruct Hl as [El|[Hl _]]; [rewrite El in H|congruence].
  by apply Hrun in H as [? ?].
Qed.
End replacing.
