(* ===== verification/ShellPolicy.v ===== *)
(** * Policies on commands, branches and paths

    [workflows/policy-enforcement.ts].  A pattern with a wildcard becomes a regular
    expression: the metacharacters are escaped, except [?], which therefore quantifies
    what stands before it; a [?] with nothing to quantify makes [new RegExp] throw, which
    is [None] here.  [covers] says what a pattern means without regular expressions, and
    [matches_glob_iff] and [matches_shell_iff] that the code computes it. *)

From S2P Require Import Prelude JsString RegExp.
From stdpp Require Import prelude strings list.
From Stdlib Require Import NArith Lia Ascii.

(** ** Patterns as the source of a regular expression *)

(** What the escaped and translated pattern consists of: a character (escaped where it
    must be), [.*], [[^/]*] and the [?] that is left alone. *)
Inductive token := TChar (c : unit16) | TAny | TSegment | TQuestion.

Global Instance token_eq_dec : EqDecision token.
Proof. solve_decision. Defined.

Definition star (c : unit16) : bool := is_unit "*" c.
Definition question (c : unit16) : bool := is_unit "?" c.
Definition plain (c : unit16) : token := if question c then TQuestion else TChar c.

(** [pattern.replace(/[.+^${}()|[\]\\]/g, '\\$&').replace(/\*/g, '.*')] *)
Definition shell_tokens (pattern : list unit16) : list token :=
  map (λ c, if star c then TAny else plain c) pattern.

(** The placeholder for [**] is U+0000, so that one in the pattern counts as [**]. *)
Fixpoint glob_tokens (pattern : list unit16) : list token :=
  match pattern with
  | [] => []
  | c :: l =>
      if star c then
        match l with
        | d :: l' => if star d then TAny :: glob_tokens l' else TSegment :: glob_tokens l
        | [] => [TSegment]
        end
      else (if (c =? 0)%N then TAny else plain c) :: glob_tokens l
  end.

Definition not_slash (c : unit16) : bool := negb (is_unit "/" c).

(** What a token that stands for characters matches. *)
Definition atom (t : token) : option re :=
  match t with
  | TChar c => Some (Chr (λ x, (x =? c)%N))
  | TAny => Some (Star dot)
  | TSegment => Some (Star not_slash)
  | TQuestion => None
  end.

Definition repeats (t : token) : bool := bool_decide (t ∈ [TAny; TSegment]).

(** [new RegExp(source)].  One [?] after a character makes it optional and a second one
    makes that lazy; one [?] after [*] makes the [*] lazy; laziness does not change which
    texts match.  Any other [?] has nothing to repeat. *)
Fixpoint compile (ts : list token) : option re :=
  match ts with
  | [] => Some Eps
  | t :: ts1 =>
      r ← atom t;
      match ts1 with
      | TQuestion :: ts2 =>
          if repeats t then Cat r <$> compile ts2
          else match ts2 with
               | TQuestion :: ts3 => Cat (Opt r) <$> compile ts3
               | _ => Cat (Opt r) <$> compile ts2
               end
      | _ => Cat r <$> compile ts1
      end
  end.

Definition matches (ts : list token) (text : string) : option bool :=
  r ← compile ts; Some (full_match r (utf16 text)).

Definition matchesShellPattern (command pattern : string) : option bool :=
  if negb (includes pattern "*") then Some (bool_decide (command = pattern))
  else matches (shell_tokens (utf16 pattern)) command.

Definition matchesGlob (value pattern : string) : option bool :=
  if negb (includes pattern "*") then Some (bool_decide (value = pattern))
  else matches (glob_tokens (utf16 pattern)) value.

(** [Array.prototype.some] with a predicate that can throw. *)
Fixpoint some_match {A} (p : A → option bool) (l : list A) : option bool :=
  match l with
  | [] => Some false
  | x :: l => match p x with Some true => Some true | Some false => some_match p l | None => None end
  end.

(** [Array.prototype.filter], likewise. *)
Fixpoint filter_match {A} (p : A → option bool) (l : list A) : option (list A) :=
  match l with
  | [] => Some []
  | x :: l =>
      match p x with
      | Some b => r ← filter_match p l; Some (if b then x :: r else r)
      | None => None
      end
  end.

Record ShellPolicy := { sp_allowed : option (list string); sp_denied : option (list string) }.

(** The reason tells which list decided. *)
Inductive ShellPolicyDecision := Allowed | DeniedBy (pattern : string) | NotListed.

Definition decision_reason (d : ShellPolicyDecision) : option string :=
  match d with
  | Allowed => None
  | DeniedBy pattern => Some ("Command blocked by shell policy: matches denied pattern '" +:+ pattern +:+ "'")
  | NotListed => Some "Command not in shell policy allowed list"
  end.

Fixpoint denied_by (command : string) (denied : list string) : option (option string) :=
  match denied with
  | [] => Some None
  | pattern :: denied =>
      match matchesShellPattern command pattern with
      | Some true => Some (Some pattern)
      | Some false => denied_by command denied
      | None => None
      end
  end.

Definition checkShellPolicy (command : string) (policy : ShellPolicy) : option ShellPolicyDecision :=
  let denied := coalesce (sp_denied policy) [] in
  let allowed := coalesce (sp_allowed policy) [] in
  d ← denied_by command denied;
  match d with
  | Some pattern => Some (DeniedBy pattern)
  | None =>
      match allowed with
      | [] => Some Allowed
      | _ => b ← some_match (matchesShellPattern command) allowed; Some (if (b : bool) then Allowed else NotListed)
      end
  end.

Definition branchIsRestricted (branch : string) (restricted : option (list string)) : option bool :=
  match coalesce restricted [] with
  | [] => Some false
  | l => some_match (matchesGlob branch) l
  end.

Definition restrictedPathsTouched (changedPaths : list string) (restricted : option (list string)) :
    option (list string) :=
  match coalesce restricted [] with
  | [] => Some []
  | l => filter_match (λ path, some_match (matchesGlob path) l) changedPaths
  end.

(** ** What a pattern means *)

(** The texts a pattern without [?] stands for. *)
Inductive covers : list token → list unit16 → Prop :=
| covers_nil : covers [] []
| covers_char c ts l : covers ts l → covers (TChar c :: ts) (c :: l)
| covers_any ts a l : Forall (λ x, dot x = true) a → covers ts l → covers (TAny :: ts) (a ++ l)
| covers_segment ts a l : Forall (λ x, not_slash x = true) a → covers ts l → covers (TSegment :: ts) (a ++ l).

Definition quantified (pattern : list unit16) : bool := existsb question pattern.

Lemma plain_no_question c : question c = false → plain c = TChar c.
Proof. unfold plain. by intros ->. Qed.

Lemma quantified_cons c l : quantified (c :: l) = false → question c = false ∧ quantified l = false.
Proof. apply orb_false_elim. Qed.

Lemma shell_tokens_questions l : quantified l = false → TQuestion ∉ shell_tokens l.
Proof.
  induction l as [|c l IH]; simpl; [by intros _ ?%not_elem_of_nil|].
  intros [Hc Hl]%quantified_cons. rewrite (plain_no_question _ Hc), not_elem_of_cons.
  split; [by destruct (star c)|by apply IH].
Qed.

Lemma pair_ind {A} (P : list A → Prop) :
  P [] → (∀ c, P [c]) → (∀ c d l, P (d :: l) → P l → P (c :: d :: l)) → ∀ l, P l.
Proof.
  intros H0 H1 H2 l. assert (P l ∧ ∀ c, P (c :: l)) as [? _]; [|done].
  induction l as [|d l [IH IHc]]; split; [done..|apply IHc|]. intros c. by apply H2.
Qed.

Lemma glob_tokens_questions l : quantified l = false → TQuestion ∉ glob_tokens l.
Proof.
  induction l as [|c|c d l IH1 IH2] using pair_ind; [by intros _ ?%not_elem_of_nil| |].
  - intros [Hc _]%quantified_cons. simpl. rewrite (plain_no_question _ Hc). repeat case_match; set_solver.
  - intros [Hc Hl]%quantified_cons. specialize (IH1 Hl). pose proof (proj2 (quantified_cons _ _ Hl)) as Hl'. specialize (IH2 Hl').
    cbn [glob_tokens] in *. rewrite (plain_no_question _ Hc). destruct (star c), (star d), (c =? 0)%N; set_solver.
Qed.

Lemma compile_step t ts : TQuestion ∉ t :: ts → ∃ r, atom t = Some r ∧ compile (t :: ts) = Cat r <$> compile ts.
Proof.
  intros Hq. destruct (atom t) as [r|] eqn:E; [|destruct t; set_solver]. exists r. split; [done|].
  cbn [compile]. rewrite E. cbn. destruct ts as [|[] ts]; set_solver.
Qed.

(** Without [?] the source is always a regular expression, for the texts it covers. *)
Lemma compile_covers ts : TQuestion ∉ ts → ∃ r, compile ts = Some r ∧
  ∀ s, (∃ s', runs r s s' ∧ rest s' = []) ↔ covers ts (rest s).
Proof.
  induction ts as [|t ts IH]; intros Hq.
  - exists Eps. split; [done|]. intros s. split.
    + intros (s' & Hr & E). inversion Hr; subst. rewrite E. constructor.
    + intros H. exists s. split; [constructor|by inversion H].
  - destruct (compile_step _ _ Hq) as (r0 & Ea & ->). destruct IH as (r & -> & Hr); [set_solver|].
    exists (Cat r0 r). split; [done|]. intros s. transitivity (∃ s1, runs r0 s s1 ∧ covers ts (rest s1)).
    { setoid_rewrite <- Hr. split.
      - intros (s' & H & E). inversion H; subst. eauto.
      - intros (s1 & H1 & s' & H2 & E). exists s'. split; [by econstructor|done]. }
    destruct t as [c| | |]; simplify_eq/=; split.
    1: { intros (s1 & H & Hc). inversion H as [|? ? x l E Ex| | | | | | | |]; subst. rewrite E. apply N.eqb_eq in Ex as ->. by constructor. }
    1: { intros H. inversion H as [|? ? l Hl E| |]; subst. exists (forward s [c] l). split; [|done]. constructor; [done|by apply N.eqb_eq]. }
    1,3: intros (s1 & H & Hc); inversion H as [| |? ? a l E Ha| | | | | | |]; subst; rewrite E; by constructor.
    all: intros H; inversion H as [| |? a l Ha Hl|? a l Ha Hl]; subst; exists (forward s a l); (split; [by constructor|done]).
Qed.

Lemma matches_iff ts text : TQuestion ∉ ts → ∃ b, matches ts text = Some b ∧ (b = true ↔ covers ts (utf16 text)).
Proof.
  intros Hq. destruct (compile_covers ts Hq) as (r & E & Hr). exists (full_match r (utf16 text)).
  unfold matches. rewrite E. split; [done|]. rewrite full_match_iff. apply (Hr {| prev := None; rest := utf16 text; cap := None |}).
Qed.

Definition wildcard (pattern : string) : bool := includes pattern "*".
(** A pattern that the code reads as it is documented: with no wildcard any, with one
    those without [?]. *)
Definition understood (pattern : string) : bool := negb (wildcard pattern) || negb (quantified (utf16 pattern)).

Definition shell_covers (pattern command : string) : Prop :=
  if wildcard pattern then covers (shell_tokens (utf16 pattern)) (utf16 command) else command = pattern.
Definition glob_covers (pattern value : string) : Prop :=
  if wildcard pattern then covers (glob_tokens (utf16 pattern)) (utf16 value) else value = pattern.

(** [p] decides [Q] on [l] without throwing. *)
Definition decides {A} (p : A → option bool) (Q : A → Prop) (l : list A) : Prop :=
  ∀ x, x ∈ l → ∃ b : bool, p x = Some b ∧ (b = true ↔ Q x).

Lemma matches_shell_iff command pattern : understood pattern = true →
  ∃ b, matchesShellPattern command pattern = Some b ∧ (b = true ↔ shell_covers pattern command).
Proof.
  unfold understood, matchesShellPattern, shell_covers. fold (wildcard pattern). destruct (wildcard pattern); simpl; intros Hu.
  - apply matches_iff, shell_tokens_questions. by apply negb_true_iff.
  - eexists. split; [done|]. apply bool_decide_eq_true.
Qed.

Lemma matches_glob_iff value pattern : understood pattern = true →
  ∃ b, matchesGlob value pattern = Some b ∧ (b = true ↔ glob_covers pattern value).
Proof.
  unfold understood, matchesGlob, glob_covers. fold (wildcard pattern). destruct (wildcard pattern); simpl; intros Hu.
  - apply matches_iff, glob_tokens_questions. by apply negb_true_iff.
  - eexists. split; [done|]. apply bool_decide_eq_true.
Qed.

Lemma decides_cons {A} p Q (x : A) l : decides p Q (x :: l) → (∃ b : bool, p x = Some b ∧ (b = true ↔ Q x)) ∧ decides p Q l.
Proof. intros H. split; [apply H; set_solver|]. intros y Hy. apply H. set_solver. Qed.

Lemma some_match_iff {A} p Q (l : list A) : decides p Q l →
  ∃ b, some_match p l = Some b ∧ (b = true ↔ ∃ x, x ∈ l ∧ Q x).
Proof.
  induction l as [|x l IH]; cbn [some_match]; intros Hp.
  - exists false. split; [done|]. split; [done|]. by intros (? & ?%not_elem_of_nil & _).
  - apply decides_cons in Hp as [([] & -> & Hx) Hl].
    + exists true. split; [done|]. split; [|done]. intros _. exists x. split; [set_solver|by apply Hx].
    + destruct (IH Hl) as (b & -> & Hb). exists b. split; [done|]. rewrite Hb. split.
      * intros (y & ? & ?). exists y. set_solver.
      * intros (y & [->|Hy]%elem_of_cons & Q'); [by apply Hx in Q'|eauto].
Qed.

Lemma filter_match_iff {A} p Q (l : list A) : decides p Q l →
  ∃ r, filter_match p l = Some r ∧ r `sublist_of` l ∧ ∀ x, x ∈ r ↔ x ∈ l ∧ Q x.
Proof.
  induction l as [|x l IH]; cbn [filter_match]; intros Hp.
  - exists []. split; [done|]. split; [done|]. set_solver.
  - apply decides_cons in Hp as [(b & -> & Hx) Hl]. destruct (IH Hl) as (r & -> & Hs & Hr). eexists. split; [reflexivity|].
    destruct b; split; [by constructor| |by constructor|]; intros y.
    + rewrite !elem_of_cons, Hr. naive_solver.
    + rewrite elem_of_cons, Hr. naive_solver.
Qed.

Lemma denied_by_iff command l : forallb understood l = true →
  ∃ d, denied_by command l = Some d ∧
    match d with
    | Some p => p ∈ l ∧ shell_covers p command
    | None => ∀ p, p ∈ l → ¬ shell_covers p command
    end.
Proof.
  induction l as [|p l IH]; cbn [denied_by forallb]; intros Hu.
  - exists None. split; [done|]. by intros ? ?%not_elem_of_nil.
  - apply andb_true_iff in Hu as [Hp Hl]. destruct (matches_shell_iff command p Hp) as (b & -> & Hb). destruct b.
    + exists (Some p). split; [done|]. split; [set_solver|by apply Hb].
    + destruct (IH Hl) as (d & -> & Hd). exists d. split; [done|]. destruct d as [q|]; [set_solver|].
      intros q [->|Hq]%elem_of_cons; [by intros ?%Hb|by apply Hd].
Qed.

Definition policy_denied (policy : ShellPolicy) : list string := coalesce (sp_denied policy) [].
Definition policy_allowed (policy : ShellPolicy) : list string := coalesce (sp_allowed policy) [].

(** What [checkShellPolicy] is to let through. *)
Definition policy_permits (policy : ShellPolicy) (command : string) : Prop :=
  (∀ p, p ∈ policy_denied policy → ¬ shell_covers p command) ∧
  (policy_allowed policy = [] ∨ ∃ p, p ∈ policy_allowed policy ∧ shell_covers p command).

Lemma policy_decides command policy :
  forallb understood (policy_denied policy) = true → forallb understood (policy_allowed policy) = true →
  ∃ d, checkShellPolicy command policy = Some d ∧
    match d with
    | Allowed => policy_permits policy command
    | DeniedBy p => p ∈ policy_denied policy ∧ shell_covers p command
    | NotListed => policy_allowed policy ≠ [] ∧ ∀ p, p ∈ policy_allowed policy → ¬ shell_covers p command
    end.
Proof.
  intros Hd Ha. unfold checkShellPolicy. fold (policy_denied policy) (policy_allowed policy).
  destruct (denied_by_iff command _ Hd) as ([p|] & -> & HD); cbn; [by exists (DeniedBy p)|].
  destruct (some_match_iff (matchesShellPattern command) (λ p, shell_covers p command) (policy_allowed policy)) as (b & E & Hb).
  { intros p Hp. apply matches_shell_iff. exact (proj1 (forallb_elem_of _ _) Ha p Hp). }
  unfold policy_permits. destruct (policy_allowed policy) as [|q l] eqn:El; [exists Allowed; auto|].
  rewrite E. cbn. destruct b; [exists Allowed; naive_solver|].
  exists NotListed. split; [done|]. split; [done|]. intros p Hp Hc. by assert (false = true) by (apply Hb; eauto).
Qed.


Lemma policy_verdict command policy :
  forallb understood (policy_denied policy) = true → forallb understood (policy_allowed policy) = true →
  ∃ d, checkShellPolicy command policy = Some d ∧ (d = Allowed ↔ policy_permits policy command) ∧
    ∀ p, d = DeniedBy p → p ∈ policy_denied policy ∧ shell_covers p command.
Proof.
  intros Hd Ha. destruct (policy_decides command policy Hd Ha) as (d & -> & H). exists d. split; [done|].
  unfold policy_permits. destruct d as [|p|]; (split; [|by intros ? [= <-]]); split; try done.
  - intros [Hno _]. destruct H as [Hin Hc]. by destruct (Hno p Hin).
  - destruct H as [Hne Hno]. intros [_ [He|(p & Hin & Hc)]]; [done|]. by destruct (Hno p Hin).
Qed.

(** What the comment of [matchesShellPattern] says: [*] stands for any run of characters. *)
Inductive fits : list unit16 → list unit16 → Prop :=
| fits_nil : fits [] []
| fits_char c pattern l : star c = false → fits pattern l → fits (c :: pattern) (c :: l)
| fits_star c pattern run l : star c = true → fits pattern l → fits (c :: pattern) (run ++ l).

Definition stands_for (pattern command : string) : Prop :=
  if wildcard pattern then fits (utf16 pattern) (utf16 command) else command = pattern.

(** No line terminator, which [.] does not match. *)
Definition one_line (command : string) : bool := forallb dot (utf16 command).

Lemma covers_fits pattern l : quantified pattern = false → forallb dot l = true →
  covers (shell_tokens pattern) l ↔ fits pattern l.
Proof.
  intros Hq. revert l. induction pattern as [|c pattern IH]; intros l Hl.
  { split; inversion 1; constructor. }
  apply quantified_cons in Hq as [Hc Hq]. specialize (IH Hq). cbn [shell_tokens map]. fold (shell_tokens pattern).
  rewrite (plain_no_question _ Hc). destruct (star c) eqn:Ec.
  - split.
    + inversion 1 as [| |? run rest Hrun Hrest|]; subst. rewrite forallb_app, andb_true_iff in Hl.
      apply fits_star; [done|]. by apply IH; [apply Hl|].
    + inversion 1 as [|? ? ? Hno|? ? run rest _ Hrest]; subst; [congruence|].
      rewrite forallb_app, andb_true_iff in Hl. destruct Hl as [Hrun Hl].
      apply covers_any; [by apply Forall_forall, forallb_elem_of|by apply IH].
  - split.
    + inversion 1; subst. cbn in Hl. apply andb_true_iff in Hl as [_ Hl]. apply fits_char; [done|by apply IH].
    + inversion 1; subst; [|congruence]. cbn in Hl. apply andb_true_iff in Hl as [_ Hl]. apply covers_char. by apply IH.
Qed.

Lemma shell_covers_iff pattern command : understood pattern = true → one_line command = true →
  shell_covers pattern command ↔ stands_for pattern command.
Proof.
  unfold understood, shell_covers, stands_for. destruct (wildcard pattern); simpl; [|done].
  intros Hq%negb_true_iff Hl. by apply covers_fits.
Qed.

(** The commands of one line that [checkShellPolicy] is to let through. *)
Definition lists_permit (policy : ShellPolicy) (command : string) : Prop :=
  (∀ p, p ∈ policy_denied policy → ¬ stands_for p command) ∧
  (policy_allowed policy = [] ∨ ∃ p, p ∈ policy_allowed policy ∧ stands_for p command).

Lemma lists_permit_iff policy command :
  forallb understood (policy_denied policy) = true → forallb understood (policy_allowed policy) = true →
  one_line command = true → policy_permits policy command ↔ lists_permit policy command.
Proof.
  intros Hd Ha Hl. rewrite !forallb_elem_of in *. unfold policy_permits, lists_permit.
  assert (∀ p, p ∈ policy_denied policy ∨ p ∈ policy_allowed policy → shell_covers p command ↔ stands_for p command) as H
    by (intros p [?|?]; apply shell_covers_iff; auto).
  naive_solver.
Qed.

Lemma globs_decide value l : forallb understood l = true → decides (matchesGlob value) (λ p, glob_covers p value) l.
Proof. intros Hu p Hp. apply matches_glob_iff. exact (proj1 (forallb_elem_of _ _) Hu p Hp). Qed.

(** The restricted paths reported are the changed ones that some pattern covers. *)
Lemma restricted_paths_iff changed restricted : forallb understood (coalesce restricted []) = true →
  ∃ r, restrictedPathsTouched changed restricted = Some r ∧ r `sublist_of` changed ∧
    ∀ path, path ∈ r ↔ path ∈ changed ∧ ∃ p, p ∈ coalesce restricted [] ∧ glob_covers p path.
Proof.
  intros Hu. unfold restrictedPathsTouched. destruct (coalesce restricted []) as [|p l] eqn:E.
  - exists []. split; [done|]. split; [apply sublist_nil_l|]. set_solver.
  - apply filter_match_iff. intros path _. by apply some_match_iff, globs_decide.
Qed.

Lemma branch_restricted_iff branch restricted : forallb understood (coalesce restricted []) = true →
  ∃ b, branchIsRestricted branch restricted = Some b ∧ (b = true ↔ ∃ p, p ∈ coalesce restricted [] ∧ glob_covers p branch).
Proof.
  intros Hu. unfold branchIsRestricted. destruct (coalesce restricted []) as [|p l] eqn:E.
  - exists false. split; [done|]. set_solver.
  - by apply some_match_iff, globs_decide.
Qed.

(** ** Examples, and what the patterns do not do *)

Definition newline : string := String (Ascii.ascii_of_nat 10) "".
Definition no_recursive_rm : ShellPolicy := {| sp_allowed := None; sp_denied := Some ["rm -rf *"] |}.

Example denied_command : checkShellPolicy "rm -rf /tmp" no_recursive_rm = Some (DeniedBy "rm -rf *").
Proof. reflexivity. Qed.
Example segments : matchesGlob "release/1.2" "release/*" = Some true ∧ matchesGlob "release/1/2" "release/*" = Some false ∧
  matchesGlob "src/security/a/b.ts" "src/security/**" = Some true.
Proof. repeat split. Qed.

(** [.*] stops at the end of a line: a line break anywhere takes a command past every
    denied pattern with a wildcard, though [*] is to match any run of characters. *)
Lemma newline_evades : checkShellPolicy ("rm -rf /" +:+ newline) no_recursive_rm = Some Allowed.
Proof. reflexivity. Qed.

(** [?] is not escaped: with it a pattern misses the command it spells out, and one may
    not be a regular expression at all. *)
Lemma question_mark_unescaped :
  matchesShellPattern "curl https://host/?key=1" "curl https://host/?key=*" = Some false ∧
  matchesShellPattern "ls" "?*" = None.
Proof. by split. Qed.

(** ** Paths

    Node's [path.resolve] and [path.relative] on POSIX systems, as lists of segments, and
    the test by which the code keeps paths inside a directory.  [isPathWithin_iff] says
    which paths pass: those below the directory, without the ones whose next segment only
    begins with two dots. *)

Module PosixPath.

(** ** [path.resolve] and [path.relative] *)

(** One segment of an absolute path: [..] goes up, and stays at the root there. *)
Definition step_segment (up : list string) (s : string) : list string :=
  if bool_decide (s = "") || bool_decide (s = ".") then up
  else if bool_decide (s = "..") then tail up
  else s :: up.

Definition segments (path : string) : list string := reverse (fold_left step_segment (split_on "/" path) []).

Definition isAbsolute (path : string) : bool := startsWith path "/".

(** From the last argument to the first, until the path is absolute. *)
Fixpoint join_until_absolute (paths : list string) (rest : string) : string :=
  match paths with
  | [] => rest
  | p :: paths =>
      if bool_decide (p = "") then join_until_absolute paths rest
      else if isAbsolute p then p +:+ "/" +:+ rest
      else join_until_absolute paths (p +:+ "/" +:+ rest)
  end.

(** The segments of [path.resolve(...paths)]; [cwd] is [process.cwd()]. *)
Definition resolved (cwd : string) (paths : list string) : list string :=
  segments (join_until_absolute (reverse (cwd :: paths)) "").

Definition resolve (cwd : string) (paths : list string) : string := "/" +:+ JsString.join "/" (resolved cwd paths).

Fixpoint after_common (from to : list string) : list string * list string :=
  match from, to with
  | a :: from', b :: to' => if bool_decide (a = b) then after_common from' to' else (from, to)
  | _, _ => (from, to)
  end.

Definition relative (from to : list string) : string :=
  let '(up, down) := after_common from to in JsString.join "/" (((λ _, "..") <$> up) ++ down).

Definition isPathWithin (cwd candidate root : string) : bool :=
  let rel := relative (resolved cwd [root]) (resolved cwd [candidate]) in
  bool_decide (rel = "") || negb (startsWith rel "..") && negb (isAbsolute rel).

(** ** Segments *)

(** A name in a directory. *)
Definition name (s : string) : Prop := s ≠ "" ∧ s ≠ "." ∧ s ≠ ".." ∧ has_char "/" s = false.

Lemma split_on_no_sep sep s : Forall (λ w, has_char sep w = false) (split_on sep s).
Proof.
  induction s as [|a s IH]; [by repeat constructor|]. cbn [split_on].
  destruct (split_on sep s) as [|w ws] eqn:E; [by destruct (split_on_cons sep s) as (? & ? & ?); congruence|].
  inversion IH; subst. destruct (Ascii.eqb a sep) eqn:Ea; [by repeat constructor|].
  constructor; [|done]. rewrite has_char_cons. by rewrite Ascii.eqb_sym, Ea.
Qed.

Lemma segments_names path : Forall name (segments path).
Proof.
  unfold segments. apply Forall_reverse. pose proof (split_on_no_sep "/" path) as H.
  assert (Forall name []) as Hn by constructor. revert Hn. generalize (@nil string).
  induction H as [|s ws Hs _ IH]; intros up Hup; [done|]. apply IH. unfold step_segment.
  repeat (case_bool_decide; simplify_eq/=; try done).
  - destruct up; [done|]. by inversion Hup.
  - by constructor.
Qed.
Local Hint Resolve segments_names : core.

Lemma resolved_names cwd paths : Forall name (resolved cwd paths).
Proof. apply segments_names. Qed.

Lemma after_common_app from to : ∃ p, let '(up, down) := after_common from to in from = p ++ up ∧ to = p ++ down.
Proof.
  revert to. induction from as [|a from IH]; intros [|b to]; try by (exists []).
  cbn [after_common]. case_bool_decide; [|by exists []]. subst b. destruct (IH to) as [p Hp].
  exists (a :: p). destruct (after_common from to). by destruct Hp as [-> ->].
Qed.

Lemma after_common_prefix from down : after_common from (from ++ down) = ([], down).
Proof. induction from as [|a from IH]; simpl; [by destruct down|]. by rewrite bool_decide_true. Qed.

Lemma starts_with_spec s p : startsWith s p = true ↔ ∃ t, s = p +:+ t.
Proof.
  unfold startsWith. revert s. induction p as [|a p IH]; intros [|b s]; cbn; split; try done; eauto.
  - by intros [? ?].
  - case_match; [|done]. subst. rewrite IH. intros [t ->]. eauto.
  - intros [t [= -> ->]]. case_match; [|done]. apply IH. eauto.
Qed.

Lemma join_cons sep w ws : ∃ t, JsString.join sep (w :: ws) = w +:+ t ∧ (t = "" ∨ ∃ t', t = sep +:+ t').
Proof.
  destruct ws as [|v ws]; cbn [JsString.join]; [|by eauto]. exists "". split; [|by left].
  clear. induction w as [|a w IH]; [done|]. change (String a w = String a (w +:+ "")). by rewrite <- IH.
Qed.

(** The text of a relative path begins with dots when its first segment does. *)
Lemma join_dots w ws : name w → startsWith (JsString.join "/" (w :: ws)) ".." = startsWith w "..".
Proof.
  intros (H0 & H1 & _ & Hs). destruct (join_cons "/" w ws) as (t & -> & Ht).
  destruct w as [|a [|b w]]; [done| |].
  - assert (a ≠ "."%char) by congruence. unfold startsWith. cbn. repeat case_match; done.
  - change (String a (String b w) +:+ t) with (String a (String b (w +:+ t))). unfold startsWith. cbn [String.prefix]. repeat case_match; try done. destruct w; [by destruct t|done].
Qed.

Lemma join_relative w ws : name w → isAbsolute (JsString.join "/" (w :: ws)) = false ∧ JsString.join "/" (w :: ws) ≠ "".
Proof.
  intros (H0 & _ & _ & Hs). destruct (join_cons "/" w ws) as (t & -> & _). destruct w as [|a w]; [done|].
  rewrite has_char_cons in Hs. apply orb_false_iff in Hs as [Ha _]. apply Ascii.eqb_neq in Ha. split; [|done].
  unfold isAbsolute, startsWith. change (String a w +:+ t) with (String a (w +:+ t)). cbn [String.prefix]. case_match; [congruence|done].
Qed.

(** A path passes when it is the directory or below it, and its next segment does not
    begin with two dots. *)
Lemma isPathWithin_iff cwd candidate root : isPathWithin cwd candidate root = true ↔
  ∃ down, resolved cwd [candidate] = resolved cwd [root] ++ down ∧
    match down with [] => True | w :: _ => startsWith w ".." = false end.
Proof.
  unfold isPathWithin, relative. destruct (after_common_app (resolved cwd [root]) (resolved cwd [candidate])) as [p Hp].
  pose proof (after_common_prefix (resolved cwd [root])) as Hc. pose proof (resolved_names cwd [candidate]) as Hn.
  destruct (after_common (resolved cwd [root]) (resolved cwd [candidate])) as [up down] eqn:E. destruct Hp as [Hr Hd]. split.
  - destruct up as [|v up].
    + rewrite app_nil_r in Hr. subst p. intros H. exists down. split; [done|]. destruct down as [|w down]; [done|].
      assert (name w) as Hw by (rewrite Hd in Hn; by apply Forall_app in Hn as [_ Hn]; inversion Hn).
      cbn [fmap list_fmap app] in H. rewrite (join_dots w down Hw) in H. destruct (join_relative w down Hw) as [Ha Hne].
      rewrite (bool_decide_false _ Hne), Ha in H. by destruct (startsWith w "..").
    + cbn [fmap list_fmap app]. destruct (join_cons "/" ".." (((λ _, "..") <$> up) ++ down)) as (t & Et & _).
assert (startsWith (JsString.join "/" (".." :: ((λ _, "..") <$> up) ++ down)) ".." = true) as Hs by (rewrite Et; apply startsWith_app).
      rewrite Hs, bool_decide_false by by rewrite Et. done.
  - intros (down' & Ed & Hdots). rewrite Ed, Hc in E. simplify_eq. cbn [fmap list_fmap app].
    destruct down as [|w down]; [done|].
    assert (name w) as Hw by (rewrite Ed in Hn; by apply Forall_app in Hn as [_ Hn]; inversion Hn).
    rewrite (join_dots w down Hw), Hdots, (proj1 (join_relative w down Hw)). by rewrite orb_true_r.
Qed.

Example outside : isPathWithin "/home/u" "work/../../etc" "/home/u/work" = false ∧ isPathWithin "/home/u" "work//a/./b" "/home/u/work" = true.
Proof. by split. Qed.

(** A name in the directory that begins with two dots is refused. *)
Lemma dotted_name_refused : resolved "/" ["/work/..cache"] = resolved "/" ["/work"] ++ ["..cache"] ∧ isPathWithin "/" "/work/..cache" "/work" = false.
Proof. by split. Qed.
End PosixPath.
Export PosixPath.
