(* ===== verification/Authority.v ===== *)
(** * The contract of authority of a workflow run

    [workflows/workflow-authority-contract.ts].  A run may carry a contract; before a
    node acts, a function asks it, and answers with a denial or with nothing.  A contract
    is a JSON value from the platform, read leniently.  [Module Contract] reads it,
    [Module Denials] are the questions. *)

From S2P Require Import Prelude JsString JsMap Json RegExp ShellPolicy.
From stdpp Require Import prelude strings list.
From Stdlib Require Import NArith Lia Ascii.

(** ** Reading *)

Module Contract.

Record WorkflowRunRecord := {
run_id : string;
directoryPath : string;
authorityContract : option json
}.

Definition workflowAuthorityContract (run : WorkflowRunRecord) : option json :=
match authorityContract run with
| Some (JObj f) => Some (JObj f)
| Some (JArr l) => Some (JArr l)
| _ => None
end.

Fixpoint readPath (value : option json) (path : list string) : option json :=
match path with
| [] => value
| segment :: path =>
    match value with
    | Some (JObj f) => readPath (field f segment) path
    | _ => None
    end
end.

Definition arrayValue (value : option json) : list json := match value with Some (JArr l) => l | _ => [] end.
Definition string_of (v : json) : option string := match v with JStr s => Some s | _ => None end.
Definition stringArray (value : option json) : list string := omap string_of (arrayValue value).
Definition stringValue (value : option json) : option string :=
match value with Some (JStr s) => if nonblank s then Some (trim s) else None | _ => None end.

(** [a ?? b] *)
Definition or_else {A} (a b : option A) : option A := match a with Some x => Some x | None => b end.
Definition or_empty (a : option string) : string := coalesce a "".

Fixpoint replace_char (a b : ascii) (s : string) : string :=
match s with
| EmptyString => EmptyString
| String x s => String (if Ascii.eqb x a then b else x) (replace_char a b s)
end.

(** [.replace(/^p/, by)] and [.replace(/p$/, '')] with the flag i. *)
Definition replace_head_i (p by_ s : string) : string :=
if startsWith (lower s) p then by_ +:+ slice_from (String.length p) s else s.
Definition drop_tail_i (p s : string) : string :=
let n := String.length s - String.length p in
if bool_decide (String.length p ≤ String.length s) && bool_decide (lower (slice_from n s) = p)
then String.substring 0 n s else s.

Definition normalizeToken (value : string) : string := replace_char "_" "-" (lower (trim value)).
Definition normalizeAction (value : string) : string :=
let t := normalizeToken value in
if startsWith t "chat." then "chat-" +:+ slice_from 5 t else t.
Definition normalizeContextRef (value : string) : string := lower (drop_tail_i ".git" (trim value)).
Definition normalizeRepository (value : option string) : string :=
match value with
| None => ""
| Some v =>
    if truthy_str v then
      lower (drop_tail_i ".git" (replace_head_i "github.com/" "" (replace_head_i "git@github.com:" ""
        (replace_head_i "https://github.com/" "" (trim v)))))
    else ""
end.

Definition workflowAuthorityContractDigest (run : WorkflowRunRecord) : option string :=
let contract := workflowAuthorityContract run in
or_else (stringValue (readPath contract ["digest"])) (stringValue (readPath contract ["contract_digest"])).

Definition allowedRepositories (run : WorkflowRunRecord) : list string :=
filter (λ r, truthy_str r = true)
  ((λ s, normalizeRepository (Some s)) <$> stringArray (readPath (workflowAuthorityContract run) ["repos"; "allowed"])).

Definition token_at (contract : json) (path : list string) : option string :=
match readPath (Some contract) path with
| Some (JStr s) => if nonblank s then Some (normalizeToken s) else None
| _ => None
end.
Definition shellExecutionPolicy (contract : json) : option string :=
or_else (token_at contract ["shell"; "policy"]) (token_at contract ["shell_policy"]).

Definition flag_at (contract : json) (path : list string) : option bool :=
match readPath (Some contract) path with Some (JBool b) => Some b | _ => None end.
Definition legacyShellCommandAllowed (contract : json) : bool :=
coalesce (or_else (flag_at contract ["shell"; "allow_legacy_command"]) (flag_at contract ["shell_allow_legacy_command"])) false.

Definition shellCommandPolicy (contract : json) : ShellPolicy :=
{| sp_allowed := Some (stringArray (readPath (Some contract) ["shell"; "allowed"]));
   sp_denied := Some (stringArray (readPath (Some contract) ["shell"; "denied"])) |}.

Record AllowedSideEffect := { se_provider : string; se_actions : list string }.

Definition side_effect (entry : json) : option AllowedSideEffect :=
match entry with
| JStr s =>
    match take 2 (split_on "." s) with
    | provider :: rest =>
        if truthy_str provider then
          Some {| se_provider := normalizeToken provider;
                  se_actions := match rest with action :: _ => if truthy_str action then [normalizeAction action] else [] | [] => [] end |}
        else None
    | [] => None
    end
| JObj record =>
    let provider := normalizeToken (or_empty (or_else (stringValue (field record "provider")) (stringValue (field record "adapter")))) in
    if truthy_str provider then
      let action := stringValue (field record "action") in
      Some {| se_provider := provider;
              se_actions := filter (λ a, truthy_str a = true)
                (normalizeAction <$> option_list action ++ stringArray (field record "actions")) |}
    else None
| _ => None
end.

Definition allowedSideEffects (contract : json) : list AllowedSideEffect :=
omap side_effect (arrayValue (readPath (Some contract) ["side_effects"; "allowed"])).

(** The entry of the list that lets an action of a provider through. *)
Definition lets_through (provider action : string) (entry : AllowedSideEffect) : bool :=
bool_decide (se_provider entry = provider) &&
(bool_decide (se_actions entry = []) || bool_decide (action ∈ se_actions entry)).

Definition side_effect_names (entries : list AllowedSideEffect) : list string :=
entries ≫= λ entry,
  match se_actions entry with
  | [] => [se_provider entry]
  | actions => (λ a, se_provider entry +:+ "." +:+ a) <$> actions
  end.

Inductive ContextMode := read | update_target.
Definition mode_name (mode : ContextMode) : string := match mode with read => "read" | update_target => "update_target" end.

Definition context_keys : list string :=
["id"; "ref"; "source_ref"; "sourceRef"; "external_ref"; "externalRef"; "context_source_id"; "contextSourceId";
 "provider_id"; "providerId"; "url"; "source_url"; "sourceUrl"].
Definition contextRefCandidates (value : json) : list string :=
match value with
| JStr s => [s]
| JObj record => omap (λ k, field record k ≫= string_of) context_keys
| _ => []
end.

Definition allowedContextRefs (contract : json) (mode : ContextMode) : list string :=
let candidates := arrayValue (readPath (Some contract) ["context_sources"; match mode with read => "read" | update_target => "update_targets" end]) in
filter (λ r, truthy_str r = true) (normalizeContextRef <$> (candidates ≫= contextRefCandidates)).

Record SessionContextProviderManifest := {
cp_id : string;
cp_sourceConfigPath : string;
cp_vault : option string;
cp_ref : option string;
cp_repo : option string;
cp_remote : option string
}.

(** [entry.replace(/\.git$/, '')] *)
Definition drop_git (s : string) : string :=
let n := String.length s - 4 in
if bool_decide (4 ≤ String.length s) && bool_decide (slice_from n s = ".git") then String.substring 0 n s else s.

Definition if_truthy (f : string → string) (o : option string) : option string :=
match o with Some s => if truthy_str s then Some (f s) else None | None => None end.

Definition contextProviderRefs (p : SessionContextProviderManifest) : list string :=
let all := [Some (cp_id p); cp_vault p; cp_ref p; cp_repo p; cp_remote p; Some (cp_sourceConfigPath p);
  Some ("context://" +:+ cp_id p); if_truthy (λ v, "context://" +:+ v) (cp_vault p);
  if_truthy (λ v, "context://vault/" +:+ v) (cp_vault p); Some ("context_vault:" +:+ cp_id p);
  if_truthy (λ v, "context_vault:" +:+ v) (cp_vault p); Some ("provider://" +:+ cp_id p);
  if_truthy (λ v, "provider://" +:+ v) (cp_vault p);
  if_truthy (λ r, "git://" +:+ normalizeRepository (Some r)) (cp_repo p)] in
filter (λ r, truthy_str r = true)
  (normalizeContextRef <$> (filter (λ r, nonblank r = true) (omap id all) ≫= λ entry, [entry; drop_git entry])).

Record WorkflowActionNode := { adapter : string; action : string }.

Definition actionRepository (node : WorkflowActionNode) (input : record) : option string :=
if negb (bool_decide (adapter node = "github")) then None
else
  let repository :=
    or_else (stringValue (field input "repository")) (or_else (stringValue (field input "repo_full_name"))
      (or_else (stringValue (field input "repoFullName")) (stringValue (field input "repo_name")))) in
  match repository with
  | Some _ => Some (normalizeRepository repository)
  | None =>
      match stringValue (field input "owner"), stringValue (field input "repo") with
      | Some owner, Some repo => Some (normalizeRepository (Some (owner +:+ "/" +:+ repo)))
      | _, _ => None
      end
  end.

End Contract.
Export Contract.

(** ** What a command does, as far as its text tells *)

Module Commands.

Definition lit (s : string) : re := Lit false s.
Definition lit_i (s : string) : re := Lit true s.
Definition char_i (a : ascii) : re := Chr (same_unit true a).

Definition re_pr_create : re := cats [Bound; lit "gh"; Plus space; lit "pr"; Plus space; lit "create"; Bound].
Definition re_git_push : re := cats [Bound; lit "git"; Plus space; lit "push"; Bound].
Definition re_curl : re := cats [Bound; lit "curl"; Bound].
Definition re_github_api : re := lit "api.github.com/repos/".
Definition re_slack_post : re := lit "slack.com/api/chat.postmessage".
Definition re_fetch : re := cats [Bound; Group (Alt (lit "curl") (lit "wget")); Bound].
Definition re_url : re := cats [lit "http"; Opt (lit "s"); lit "://"].

Definition shellProviderSideEffects (command : string) : list (string * string) :=
let normalized := utf16 (lower command) in
let has r := test r normalized in
(if has re_pr_create then [("github", "create-pr")] else []) ++
(if has re_git_push then [("github", "push-branch")] else []) ++
(if has re_curl && has re_github_api then [("github", "api-request")] else []) ++
(if has re_curl && has re_slack_post then [("slack", "post-message")] else []) ++
(if has re_fetch && has re_url then [("external-api", "request")] else []).

(** [[A-Za-z0-9_.-]] *)
Definition repo_char (c : unit16) : bool := word c || one_of ".-" c.
Definition re_repo : re := Group (cats [Plus repo_char; char_i "/"; Plus repo_char]).
Definition re_git_suffix : re := Opt (lit_i ".git").

Definition repo_patterns : list re :=
[cats [lit_i "git@github.com:"; re_repo; re_git_suffix];
 cats [lit_i "https://github.com/"; re_repo; re_git_suffix];
 cats [lit_i "api.github.com/repos/"; re_repo];
 cats [Alt (lit_i "--repo") (lit_i "-R"); Plus space; re_repo];
 cats [Bound; lit_i "gh"; Plus space; lit_i "repo"; Plus space; lit_i "clone"; Plus space; re_repo]].

Definition shellRepositoryRefs (command : string) : list string :=
let found := repo_patterns ≫= λ p, match_all p 0 None (utf16 command) in
fold_left (λ repos capture,
  let repo := normalizeRepository (Some (ascii_text capture)) in
  if truthy_str repo then set_add repo repos else repos) found [].

Definition re_gh_token : re := Group (cats [lit "gh"; Chr (one_of "ps"); lit "_"; Plus word]).
Definition re_slack_token : re :=
Group (cats [lit "xox"; Chr (one_of "baprs"); lit "-"; Plus (λ c, letter c || digit c || is_unit "-" c)]).
Definition redacted : list unit16 := utf16 "[redacted-token]".

(** The text kept of a command, in code units. *)
Definition redactedCommand (command : string) : list unit16 :=
take 500 (replace_all re_slack_token redacted 0 None (replace_all re_gh_token redacted 0 None (utf16 command))).

End Commands.
Export Commands.

(** ** Denials *)

Module Denials.

Inductive Reason :=
| provider_action_not_allowed | repository_not_allowed | checkout_path_outside_run_worktree
| git_publish_path_outside_worktree | git_publish_remote_mismatch | git_publish_run_scoped_grant_unavailable
| context_update_target_wrong_repository | context_source_not_allowed | shell_policy_required
| shell_disabled_by_policy | shell_command_not_allowed | shell_legacy_command_not_allowed
| shell_cwd_outside_worktree | shell_repository_not_allowed | shell_provider_side_effect_not_allowed.

Record WorkflowAuthorityDenial := {
reason : Reason;
d_runId : string;
d_nodeId : string;
detail : string;
contractDigest : option string;
d_provider : option string;
d_action : option string;
d_repository : option string;
d_contextSource : option string;
d_command : option (list unit16);
d_allowed : option (list string)
}.

Section questions.
Context (run : WorkflowRunRecord) (nodeId : string).

Definition denial (r : Reason) (text : string) : WorkflowAuthorityDenial :=
{| reason := r; d_runId := run_id run; d_nodeId := nodeId; detail := text;
   contractDigest := workflowAuthorityContractDigest run;
   d_provider := None; d_action := None; d_repository := None; d_contextSource := None;
   d_command := None; d_allowed := None |}.

Definition with_effect (provider action : string) (d : WorkflowAuthorityDenial) : WorkflowAuthorityDenial :=
{| reason := reason d; d_runId := d_runId d; d_nodeId := d_nodeId d; detail := detail d;
   contractDigest := contractDigest d; d_provider := Some provider; d_action := Some action;
   d_repository := d_repository d; d_contextSource := d_contextSource d; d_command := d_command d; d_allowed := d_allowed d |}.
Definition with_repository (repository : string) (d : WorkflowAuthorityDenial) : WorkflowAuthorityDenial :=
{| reason := reason d; d_runId := d_runId d; d_nodeId := d_nodeId d; detail := detail d;
   contractDigest := contractDigest d; d_provider := d_provider d; d_action := d_action d;
   d_repository := Some repository; d_contextSource := d_contextSource d; d_command := d_command d; d_allowed := d_allowed d |}.
Definition with_context (source : string) (d : WorkflowAuthorityDenial) : WorkflowAuthorityDenial :=
{| reason := reason d; d_runId := d_runId d; d_nodeId := d_nodeId d; detail := detail d;
   contractDigest := contractDigest d; d_provider := d_provider d; d_action := d_action d;
   d_repository := d_repository d; d_contextSource := Some source; d_command := d_command d; d_allowed := d_allowed d |}.
Definition with_command (command : string) (d : WorkflowAuthorityDenial) : WorkflowAuthorityDenial :=
{| reason := reason d; d_runId := d_runId d; d_nodeId := d_nodeId d; detail := detail d;
   contractDigest := contractDigest d; d_provider := d_provider d; d_action := d_action d;
   d_repository := d_repository d; d_contextSource := d_contextSource d;
   d_command := Some (redactedCommand command); d_allowed := d_allowed d |}.
Definition with_allowed (allowed : list string) (d : WorkflowAuthorityDenial) : WorkflowAuthorityDenial :=
{| reason := reason d; d_runId := d_runId d; d_nodeId := d_nodeId d; detail := detail d;
   contractDigest := contractDigest d; d_provider := d_provider d; d_action := d_action d;
   d_repository := d_repository d; d_contextSource := d_contextSource d; d_command := d_command d; d_allowed := Some allowed |}.

Definition workflowActionAuthorityDenial (node : WorkflowActionNode) (actionInput : record) : option WorkflowAuthorityDenial :=
match workflowAuthorityContract run with
| None => None
| Some contract =>
    let sideEffects := allowedSideEffects contract in
    if negb (bool_decide (sideEffects = [])) &&
       negb (existsb (lets_through (normalizeToken (adapter node)) (normalizeAction (action node))) sideEffects)
    then
      Some (with_allowed (side_effect_names sideEffects) (with_effect (adapter node) (action node)
        (denial provider_action_not_allowed
          ("Workflow authority contract does not allow " +:+ adapter node +:+ "." +:+ action node +:+ "."))))
    else
      let repositories := allowedRepositories run in
      match actionRepository node actionInput with
      | Some repository =>
          if truthy_str repository && negb (bool_decide (repositories = [])) && negb (bool_decide (repository ∈ repositories)) then
            Some (with_allowed repositories (with_repository repository (with_effect (adapter node) (action node)
              (denial repository_not_allowed
                ("Workflow authority contract does not allow repository " +:+ repository +:+ ".")))))
          else None
      | None => None
      end
end.

Definition contextAuthorityDenial (provider : SessionContextProviderManifest) (mode : ContextMode) : option WorkflowAuthorityDenial :=
match workflowAuthorityContract run with
| None => None
| Some contract =>
    let allowed := allowedContextRefs contract mode in
    if bool_decide (allowed = []) then None
    else if existsb (λ ref, bool_decide (ref ∈ allowed)) (contextProviderRefs provider) then None
    else
      Some (with_allowed allowed (with_context (cp_id provider) (denial context_source_not_allowed
        ("Workflow authority contract does not allow context source " +:+ cp_id provider +:+ " for " +:+ mode_name mode +:+ "."))))
end.

(** The effects of a command that the contract does not list, when it has a list. *)
Definition forbidden_effects (contract : json) (command : string) : list (string * string) :=
match readPath (Some contract) ["side_effects"; "allowed"] with
| Some (JArr _) =>
    filter (λ e, existsb (lets_through e.1 e.2) (allowedSideEffects contract) = false) (shellProviderSideEffects command)
| _ => []
end.

(** What is left to ask once the policy of commands has let the command through. *)
Definition reach_denial (contract : json) (processCwd renderedCommand cwd : string) : option WorkflowAuthorityDenial :=
if negb (isPathWithin processCwd cwd (directoryPath run)) then
  Some (with_command renderedCommand (denial shell_cwd_outside_worktree
    "Shell node cwd is outside the run worktree. Use an in-worktree cwd or an explicit first-class checkout/worktree step."))
else
  match forbidden_effects contract renderedCommand with
  | (provider, action) :: _ =>
      Some (with_allowed (side_effect_names (allowedSideEffects contract)) (with_command renderedCommand
        (with_effect provider action (denial shell_provider_side_effect_not_allowed
          ("Shell command attempts " +:+ provider +:+ "." +:+ action +:+ ", which is outside workflow side-effect authority.")))))
  | [] =>
      let repositories := allowedRepositories run in
      if bool_decide (repositories = []) then None
      else
        match find_first (λ repo, negb (bool_decide (repo ∈ repositories))) (shellRepositoryRefs renderedCommand) with
        | Some denied =>
            Some (with_allowed repositories (with_command renderedCommand (with_repository denied
              (denial shell_repository_not_allowed
                ("Shell command references repository " +:+ denied +:+ ", which is outside workflow repo authority.")))))
        | None => None
        end
  end.

(** [None] when a pattern of the policy is not a regular expression: the call throws. *)
Definition shellAuthorityDenial (processCwd renderedCommand cwd : string) (executorKind : option string) :
  option (option WorkflowAuthorityDenial) :=
match workflowAuthorityContract run with
| None => Some None
| Some contract =>
    let shellPolicy := shellExecutionPolicy contract in
    if negb (bool_decide (shellPolicy = Some "constrained")) then
      Some (Some (with_command renderedCommand
        (if bool_decide (shellPolicy = Some "disabled")
         then denial shell_disabled_by_policy "Shell execution is disabled by the workflow authority contract."
         else denial shell_policy_required
           "Shell execution under a workflow authority contract requires an explicit constrained shell policy.")))
    else if bool_decide (executorKind = Some "shell") && negb (legacyShellCommandAllowed contract) then
      Some (Some (with_command renderedCommand (denial shell_legacy_command_not_allowed
        "Legacy shell command execution uses sh -lc and must be explicitly allowed by shell.allow_legacy_command. Prefer argv for worker-managed shell/test primitives.")))
    else
      decision ← checkShellPolicy renderedCommand (shellCommandPolicy contract);
      match decision_reason decision with
      | Some why => Some (Some (with_command renderedCommand (denial shell_command_not_allowed why)))
      | None => Some (reach_denial contract processCwd renderedCommand cwd)
      end
end.

End questions.
End Denials.
Export Denials.

(** ** What a contract of authority lets through

    [may_run] states in one place what a command needs; [shell_guarded] that the code
    asks for exactly that.  [redacted_command_clean] is about the text that is kept of a
    denied command.  The last part holds inputs at which the code does something else
    than it means to. *)
(** ** Commands *)

(** A directory is the other one or below it, by a name that does not begin with dots. *)
Definition below (processCwd cwd root : string) : Prop :=
  ∃ down, resolved processCwd [cwd] = resolved processCwd [root] ++ down ∧
    match down with [] => True | w :: _ => startsWith w ".." = false end.

Definition effect_listed (contract : json) (provider action : string) : Prop :=
  ∃ entry, entry ∈ allowedSideEffects contract ∧ se_provider entry = provider ∧
    (se_actions entry = [] ∨ action ∈ se_actions entry).

Definition effects_listed (contract : json) (command : string) : Prop :=
  ∀ l, readPath (Some contract) ["side_effects"; "allowed"] = Some (JArr l) →
    ∀ provider action, (provider, action) ∈ shellProviderSideEffects command → effect_listed contract provider action.

Definition repositories_listed (run : WorkflowRunRecord) (command : string) : Prop :=
  allowedRepositories run = [] ∨ ∀ r, r ∈ shellRepositoryRefs command → r ∈ allowedRepositories run.

Definition may_run (run : WorkflowRunRecord) (contract : json) (processCwd command cwd : string) (executorKind : option string) : Prop :=
  shellExecutionPolicy contract = Some "constrained" ∧
  (executorKind = Some "shell" → legacyShellCommandAllowed contract = true) ∧
  lists_permit (shellCommandPolicy contract) command ∧
  below processCwd cwd (directoryPath run) ∧
  effects_listed contract command ∧
  repositories_listed run command.

Lemma lets_through_iff contract provider action :
  existsb (lets_through provider action) (allowedSideEffects contract) = true ↔ effect_listed contract provider action.
Proof.
  rewrite existsb_elem_of. unfold effect_listed, lets_through. f_equiv. intros entry.
  rewrite andb_true_iff, orb_true_iff, !bool_decide_eq_true. done.
Qed.

Lemma forbidden_effects_nil contract command : forbidden_effects contract command = [] ↔ effects_listed contract command.
Proof.
  unfold forbidden_effects, effects_listed. destruct (readPath _ _) as [[]|]; try by split; [intros _ ? [=]|].
  split.
  - intros Hf l' _ p a Hin. apply lets_through_iff, not_false_iff_true. intros Hno.
    assert ((p, a) ∈ @nil (string * string)) as []%not_elem_of_nil by (rewrite <- Hf; by apply list_elem_of_filter).
  - intros Hall. apply elem_of_nil_inv. intros [p a] [Hno Hin]%list_elem_of_filter.
    specialize (Hall _ eq_refl p a Hin). apply lets_through_iff in Hall. cbn in Hno. congruence.
Qed.

Lemma reach_denial_none run nodeId contract processCwd command cwd :
  reach_denial run nodeId contract processCwd command cwd = None ↔
  below processCwd cwd (directoryPath run) ∧ effects_listed contract command ∧ repositories_listed run command.
Proof.
  unfold reach_denial, below. rewrite <- isPathWithin_iff, <- forbidden_effects_nil. unfold repositories_listed.
  destruct (isPathWithin _ _ _); cbn [negb]; [|naive_solver].
  destruct (forbidden_effects contract command) as [|[p a] l]; [|naive_solver].
  case_bool_decide as E; [naive_solver|].
  destruct (find_first _ _) as [r|] eqn:Ef.
  - apply find_first_Some in Ef as [Hin Hr]. apply negb_true_iff, bool_decide_eq_false in Hr. naive_solver.
  - split; [|done]. intros _. split_and!; [done..|]. right. intros r Hr. 
    pose proof (proj1 (find_first_None _ _) Ef r Hr) as Hn. by apply negb_false_iff, bool_decide_eq_true in Hn.
Qed.

(** C18: when the patterns of a run's contract are understood (none has both a star and a
    question mark), the question about a command always has an answer; and for a command of
    one line the answer is to let it run exactly when the contract constrains the shell; it
    permits shell command lines, if the executor is one; no denied pattern stands for the
    command and, if any are allowed, an allowed one does, a star standing for any run of
    characters; the directory is the run's or lies below it, by a name that does not begin
    with two dots; if the contract has an array of side effects, every effect the text
    shows is listed; and if repositories are listed, every repository the text shows is. *)
Theorem shell_guarded run nodeId contract processCwd command cwd executorKind :
  workflowAuthorityContract run = Some contract →
  forallb understood (policy_denied (shellCommandPolicy contract)) = true →
  forallb understood (policy_allowed (shellCommandPolicy contract)) = true →
  ∃ d, shellAuthorityDenial run nodeId processCwd command cwd executorKind = Some d ∧
    (one_line command = true → d = None ↔ may_run run contract processCwd command cwd executorKind).
Proof.
  intros Hc Hd Ha. unfold shellAuthorityDenial. rewrite Hc.
  assert (one_line command = true → may_run run contract processCwd command cwd executorKind ↔
    shellExecutionPolicy contract = Some "constrained" ∧
    (executorKind = Some "shell" → legacyShellCommandAllowed contract = true) ∧
    policy_permits (shellCommandPolicy contract) command ∧
    reach_denial run nodeId contract processCwd command cwd = None) as Hmay.
  { intros Hl. unfold may_run. rewrite reach_denial_none, (lists_permit_iff _ _ Hd Ha Hl). tauto. }
  destruct (decide (shellExecutionPolicy contract = Some "constrained")) as [Ep|Ep].
  2: { rewrite (bool_decide_false _ Ep). eexists. split; [reflexivity|]. intros Hl. rewrite (Hmay Hl). naive_solver. }
  rewrite (bool_decide_true _ Ep). cbn [negb].
  destruct (bool_decide (executorKind = Some "shell") && negb (legacyShellCommandAllowed contract)) eqn:Ek.
  { apply andb_true_iff in Ek as [Ek El]. apply bool_decide_eq_true in Ek. apply negb_true_iff in El.
    eexists. split; [reflexivity|]. intros Hl. rewrite (Hmay Hl). split; [done|]. intros (_ & Hk & _). rewrite Hk in El; done. }
  assert (executorKind = Some "shell" → legacyShellCommandAllowed contract = true) as Hl.
  { intros E. rewrite (bool_decide_true _ E) in Ek. by apply negb_false_iff in Ek. }
  destruct (policy_verdict command _ Hd Ha) as (dec & -> & Hdec & _).
  destruct dec; cbn; eexists; (split; [reflexivity|]); intros H1; rewrite (Hmay H1); naive_solver.
Qed.

(** ** The text that is kept of a command *)

Definition gh_window : list (unit16 → bool) := (same_unit false <$> ["g"; "h"]%char) ++ [one_of "ps"; same_unit false "_"; word].
Definition slack_window : list (unit16 → bool) :=
  (same_unit false <$> ["x"; "o"; "x"]%char) ++ [one_of "baprs"; same_unit false "-"; λ c, letter c || digit c || is_unit "-" c].

Lemma gh_token_seen : seen_through re_gh_token gh_window.
Proof. apply seen_group. apply (seen_lit false ["g"; "h"]%char), seen_chr_cat, (seen_lit false ["_"]%char), seen_plus. Qed.

Lemma slack_token_seen : seen_through re_slack_token slack_window.
Proof. apply seen_group. apply (seen_lit false ["x"; "o"; "x"]%char), seen_chr_cat, (seen_lit false ["-"]%char), seen_plus. Qed.

(** The text of a denied command that is kept in the record of the run has at most 500
    units and no GitHub or Slack token is left in it. *)
Theorem redacted_command_clean command :
  test re_gh_token (redactedCommand command) = false ∧
  test re_slack_token (redactedCommand command) = false ∧
  length (redactedCommand command) ≤ 500.
Proof.
  unfold redactedCommand. split_and!; [| |rewrite length_take; lia].
  - eapply free_not_found; [apply gh_token_seen|]. apply free_take.
    eapply (free_replaced _ _ slack_token_seen); [by repeat constructor..|]. right.
    eapply (free_replaced _ _ gh_token_seen); [by repeat constructor..|]. by left.
  - eapply free_not_found; [apply slack_token_seen|]. apply free_take.
    eapply (free_replaced _ _ slack_token_seen); [by repeat constructor..|]. by left.
Qed.

(** ** Actions of providers and sources of context *)

(** An action is let through when no effects are listed or one lists it, and its
    repository, when repositories are listed and it names one, is among them. *)
Lemma action_permitted_iff run nodeId node input :
  workflowActionAuthorityDenial run nodeId node input = None ↔
  ∀ contract, workflowAuthorityContract run = Some contract →
    (allowedSideEffects contract = [] ∨
     effect_listed contract (normalizeToken (adapter node)) (normalizeAction (action node))) ∧
    (allowedRepositories run = [] ∨
     ∀ r, actionRepository node input = Some r → r = "" ∨ r ∈ allowedRepositories run).
Proof.
  unfold workflowActionAuthorityDenial. destruct (workflowAuthorityContract run) as [contract|]; [|naive_solver].
  split.
  - intros H contract' [= <-]. rewrite <- lets_through_iff.
    destruct (existsb _ _), (decide (allowedSideEffects contract = [])) as [He|He];
      rewrite ?(bool_decide_true _ He), ?(bool_decide_false _ He) in H; cbn [negb andb] in H; try done.
    all: split; [by auto|].
    all: destruct (actionRepository node input) as [r|]; [|by right].
    all: destruct (decide (allowedRepositories run = [])) as [|Hne]; [by left|right; intros ? [= <-]].
    all: rewrite (bool_decide_false _ Hne) in H; destruct (truthy_str r) eqn:Et; [|left; by apply negb_false_iff, String.eqb_eq in Et].
    all: case_bool_decide; [by right|done].
  - intros H. destruct (H contract eq_refl) as [He Hr]. rewrite <- lets_through_iff in He.
    destruct (negb (bool_decide (allowedSideEffects contract = [])) && _) eqn:E.
    { apply andb_true_iff in E as [E1 E2]. apply negb_true_iff, bool_decide_eq_false in E1. apply negb_true_iff in E2. destruct He; congruence. }
    destruct (actionRepository node input) as [r|]; [|done].
    destruct Hr as [->|Hr]; [by rewrite andb_false_r|]. destruct (Hr r eq_refl) as [->|Hin]; [done|].
    by rewrite (bool_decide_true _ Hin), andb_false_r.
Qed.

Lemma context_permitted_iff run nodeId provider mode :
  contextAuthorityDenial run nodeId provider mode = None ↔
  ∀ contract, workflowAuthorityContract run = Some contract → allowedContextRefs contract mode ≠ [] →
    ∃ ref, ref ∈ contextProviderRefs provider ∧ ref ∈ allowedContextRefs contract mode.
Proof.
  unfold contextAuthorityDenial. destruct (workflowAuthorityContract run) as [contract|]; [|naive_solver].
  case_bool_decide; [naive_solver|]. destruct (existsb _ _) eqn:E.
  - apply existsb_elem_of in E as (ref & Hin & Hb). apply bool_decide_eq_true in Hb. naive_solver.
  - split; [done|]. intros Hc. destruct (Hc contract eq_refl) as (ref & ? & ?); [done|].
    assert (existsb (λ ref, bool_decide (ref ∈ allowedContextRefs contract mode)) (contextProviderRefs provider) = true); [|congruence].
    apply existsb_elem_of. exists ref. split; [done|]. by apply bool_decide_eq_true.
Qed.

(** ** Examples *)

Definition contract_with (fields : list (string * json)) : json :=
  JObj (("shell", JObj [("policy", JStr "constrained"); ("allowed", JArr [JStr "git *"; JStr "npm test"]);
                        ("denied", JArr [JStr "*push --force*"])]) :: fields).
Definition run_with (contract : json) : WorkflowRunRecord :=
  {| run_id := "run-1"; directoryPath := "/work/repo"; authorityContract := Some contract |}.
Definition only_repo : list (string * json) := [("repos", JObj [("allowed", JArr [JStr "https://github.com/Acme/App.git"])])].

Lemma shell_guarded_witness :
  let command := "git clone git@github.com:acme/app.git" in let run := run_with (contract_with only_repo) in
  shellAuthorityDenial run "n" "/" command "/work/repo/pkg" (Some "argv") = Some None ∧
  may_run run (contract_with only_repo) "/" command "/work/repo/pkg" (Some "argv").
Proof.
  intros command run.
  destruct (shell_guarded run "n" (contract_with only_repo) "/" command "/work/repo/pkg" (Some "argv")
    eq_refl ltac:(vm_compute; reflexivity) ltac:(vm_compute; reflexivity)) as (d & Hd & Hi).
  assert (shellAuthorityDenial run "n" "/" command "/work/repo/pkg" (Some "argv") = Some None) as E by (vm_compute; reflexivity).
  split; [exact E|]. rewrite E in Hd. injection Hd as <-. exact (proj1 (Hi ltac:(vm_compute; reflexivity)) eq_refl).
Defined.

Definition reason_of (d : option (option WorkflowAuthorityDenial)) : option (option Reason) := option_map (option_map reason) d.

Example commands_judged :
  let ask command := reason_of (shellAuthorityDenial (run_with (contract_with only_repo)) "n" "/" command "/work/repo" None) in
  ask "git clone git@github.com:acme/app.git" = Some None ∧
  ask "git clone https://github.com/other/app" = Some (Some shell_repository_not_allowed) ∧
  ask "git push --force" = Some (Some shell_command_not_allowed) ∧
  ask "curl https://host" = Some (Some shell_command_not_allowed).
Proof. vm_compute. repeat split. Qed.

Example token_redacted : redactedCommand "echo ghp_abc123" = utf16 "echo [redacted-token]".
Proof. vm_compute. reflexivity. Qed.

(** ** What the code does not do *)

Definition no_effects : json := contract_with [("side_effects", JObj [("allowed", JArr [])])].

(** A contract that lists no effects at all forbids a [git push] in a command, and lets
    every action of every provider through. *)
Lemma empty_effects_allow_actions :
  reason_of (shellAuthorityDenial (run_with no_effects) "n" "/" "git push" "/work/repo" None) = Some (Some shell_provider_side_effect_not_allowed) ∧
  ∀ node, workflowActionAuthorityDenial (run_with no_effects) "n" node [] = None.
Proof. split; [by vm_compute|]. intros node. apply action_permitted_iff. by intros c [= <-]; split; [left|left]. Qed.

(** An effect written as the action is called is cut at its second dot, and then never
    lets that action through. *)
Lemma dotted_action_not_matched :
  let run := run_with (contract_with [("side_effects", JObj [("allowed", JArr [JStr "slack.chat.postMessage"])])]) in
  option_map reason (workflowActionAuthorityDenial run "n" {| adapter := "slack"; action := "chat.postMessage" |} []) =
    Some provider_action_not_allowed.
Proof. by vm_compute. Qed.

(** The option [-R] of gh is looked for in either case, so that a recursive copy or
    removal of a directory with one slash is taken for the repository of that name. *)
Lemma recursive_option_is_repository : shellRepositoryRefs "rm -r build/cache" = ["build/cache"].
Proof. by vm_compute. Qed.

(** Repositories reached through other spellings of the address are not seen. *)
Lemma other_addresses_unseen :
  shellRepositoryRefs "git clone ssh://git@github.com/other/app" = [] ∧
  shellRepositoryRefs "git clone https://user@github.com/other/app" = [] ∧
  shellProviderSideEffects "git -C sub push" = [].
Proof. by vm_compute. Qed.
