(* ===== verification/GitPublish.v ===== *)
(** * Checking out and publishing with git

    [workflows/git-publish-node.ts], the authority questions of [checkout-node.ts],
    [context-update-targets.ts] and the executor of the node [git_publish] in
    [node-registry.ts].  git is an argument: what a call prints, given the calls before
    it, or the message with which it fails; a computation threads the calls made, so that
    theorems can speak of their order.  Templates are rendered before, and the helper file
    that hands a secret to git is the flag [credentialed] of a call. *)

From S2P Require Import Prelude JsString JsMap Json RegExp ShellPolicy Authority.
From stdpp Require Import prelude strings list.
From Stdlib Require Import ZArith NArith Lia Ascii.

(** ** Calls of git *)

Record GitCall := { args : list string; at_ : string; credentialed : bool }.
Definition History : Type := list GitCall.

(** What git answers: its output or a message. *)
Class Git := answer : History → GitCall → string + string.

Definition M (A : Type) : Type := History → (string + A) * History.
Definition ret {A} (a : A) : M A := λ h, (inr a, h).
Definition throw {A} (message : string) : M A := λ h, (inl message, h).
Definition bind {A B} (x : M A) (f : A → M B) : M B :=
  λ h, match x h with (inr a, h') => f a h' | (inl e, h') => (inl e, h') end.
#[local] Instance M_bind : MBind M := λ A B f x, bind x f.

(** A pattern that is no regular expression throws. *)
Definition or_syntax_error {A} (o : option A) : M A :=
  match o with Some a => ret a | None => throw "Invalid regular expression: Nothing to repeat" end.

Definition git_with `{Git} (credential : bool) (l : list string) (cwd : string) : M string :=
  λ h, let call := {| args := l; at_ := cwd; credentialed := credential |} in
    (answer h call, h ++ [call]).
Definition git `{Git} := git_with false.

(** ** Reading what git prints *)

Fixpoint drop_while (p : ascii → bool) (s : string) : string :=
  match s with String a s' => if p a then drop_while p s' else s | EmptyString => EmptyString end.
Definition drop_while_end (p : ascii → bool) (s : string) : string := String.rev (drop_while p (String.rev s)).
Definition is_a (c : ascii) (a : ascii) : bool := Ascii.eqb a c.
Definition quote : ascii := ascii_of_nat 34.
Definition newline_char : ascii := ascii_of_nat 10.

Definition normalizeGitPath (value : string) : option string :=
  let normalized := trim (drop_while (is_a "/") (replace_char "\" "/" (drop_while_end (is_a quote) (drop_while (is_a quote) value)))) in
  if negb (truthy_str normalized) || existsb (λ s, bool_decide (s = "..") || bool_decide (s = ".")) (split_on "/" normalized)
  then None else Some normalized.

(** One line of [git status --porcelain]: two letters, a space and a path, and for a
    renamed file the old and the new one. *)
Definition status_path (line : string) : option string :=
  let pathPart := if (3 <? js_length line)%Z then slice_from 3 line else line in
  normalizeGitPath (match String.index 0 " -> " pathPart with Some n => slice_from (n + 4) pathPart | None => pathPart end).

Definition changed_paths_of (status : string) : list string :=
  omap status_path (filter (λ l, truthy_str l = true) (trimEnd <$> split_on newline_char status)).

Definition gitChangedPaths `{Git} (cwd : string) : M (list string) :=
  status ← git ["status"; "--porcelain"; "--untracked-files=all"] cwd; ret (changed_paths_of status).

Definition filterPublishablePaths (paths : list string) (publishPaths : option (list string)) : list string :=
  match omap normalizeGitPath (coalesce publishPaths []) with
  | [] => paths
  | scopes =>
      filter (λ changedPath, existsb (λ scope, bool_decide (changedPath = scope) ||
        startsWith changedPath (drop_while_end (is_a "/") scope +:+ "/")) scopes = true) paths
  end.

(** [Number.parseInt(text, 10)] of a field without white space; [None] is NaN. *)
Fixpoint digits_value (acc : option Z) (l : list unit16) : option Z :=
  match l with
  | c :: l => if digit c then digits_value (Some (coalesce acc 0 * 10 + (Z.of_N c - 48))%Z) l else acc
  | [] => acc
  end.
Definition parseInt (l : list unit16) : option Z :=
  match l with
  | c :: l' =>
      if is_unit "-" c then Z.opp <$> digits_value None l'
      else if is_unit "+" c then digits_value None l' else digits_value None l
  | [] => None
  end.

(** The first two fields of [line.trim().split(/\s+/)]. *)
Fixpoint field_span (l : list unit16) : list unit16 * list unit16 :=
  match l with
  | c :: l' => if space c then ([], l) else let '(a, b) := field_span l' in (c :: a, b)
  | [] => ([], [])
  end.
Fixpoint skip_space (l : list unit16) : list unit16 :=
  match l with c :: l' => if space c then skip_space l' else l | [] => [] end.

Definition numstat_line (line : string) : Z * Z :=
  let '(added, rest) := field_span (utf16 (trim line)) in
  let '(removed, _) := field_span (skip_space rest) in
  (coalesce (parseInt added) 0%Z, coalesce (parseInt removed) 0%Z).

Definition numstat_totals (numstat : string) : Z * Z :=
  fold_left (λ t line, let '(a, r) := numstat_line line in (t.1 + a, t.2 + r)%Z) (split_on newline_char numstat) (0, 0)%Z.

(** ** Targets of context updates *)

Inductive TargetScope := scope_repo | scope_directory | scope_file.
Record GitContextUpdateTargetRef := { t_repository : string; t_path : option string; t_scope : TargetScope }.

Fixpoint squeeze_slashes (s : string) : string :=
  match s with
  | String a s' =>
      match squeeze_slashes s' with
      | String b r => if Ascii.eqb a "/" && Ascii.eqb b "/" then String b r else String a (String b r)
      | EmptyString => String a ""
      end
  | EmptyString => EmptyString
  end.
Definition ends_with_slash (s : string) : bool :=
  match String.rev s with String a _ => Ascii.eqb a "/" | EmptyString => false end.

Definition parseGitContextUpdateTargetRef (ref : string) : option GitContextUpdateTargetRef :=
  if negb (startsWith ref "git://") then None
  else
    match split_on "/" (slice_from 6 ref) with
    | o :: r :: rest =>
        let owner := trim o in
        let repo := trim r in
        if negb (truthy_str owner) || negb (truthy_str repo) then None
        else
          let rawPath := squeeze_slashes (JsString.join "/" rest) in
          if negb (truthy_str rawPath) then Some {| t_repository := owner +:+ "/" +:+ repo; t_path := None; t_scope := scope_repo |}
          else
            let directory := ends_with_slash ref in
            Some {| t_repository := owner +:+ "/" +:+ repo;
                    t_path := Some (if directory && negb (ends_with_slash rawPath) then rawPath +:+ "/" else rawPath);
                    t_scope := if directory then scope_directory else scope_file |}
    | _ => None
    end.

Definition normalizeRelativeGitPath (path : string) : option string :=
  let segments := filter (λ s, truthy_str s = true) (split_on "/" (drop_while (is_a "/") (replace_char "\" "/" path))) in
  if bool_decide (segments = []) || existsb (λ s, bool_decide (s = ".") || bool_decide (s = "..")) segments then None
  else Some (JsString.join "/" segments).

Definition gitContextTargetAllowsPath (target : GitContextUpdateTargetRef) (path : string) : bool :=
  match normalizeRelativeGitPath path with
  | None => false
  | Some normalized =>
      match t_scope target, t_path target with
      | scope_repo, _ => true
      | _, None => false
      | scope_directory, Some p => truthy_str p && startsWith normalized p
      | scope_file, Some p => truthy_str p && bool_decide (normalized = p)
      end
  end.

(** ** Remotes *)

Definition re_remote : re :=
  cats [Alt (lit_i "git@github.com:") (lit_i "https://github.com/"); re_repo; re_git_suffix].

Definition repositoryFromRemote (remote : option string) : option string :=
  match remote with
  | Some r =>
      if truthy_str r then
        match search re_remote None (utf16 r) with
        | Some s => Some (normalizeRepository (ascii_text <$> cap s))
        | None => None
        end
      else None
  | None => None
  end.

Definition github_remote (repository : string) : string := "https://github.com/" +:+ normalizeRepository (Some repository) +:+ ".git".
Definition checkoutRemote (repository : string) (configuredRemote : option string) (hasCredentialMaterial : bool) : string :=
  if hasCredentialMaterial && (negb (truthy_opt configuredRemote) || truthy_opt (repositoryFromRemote configuredRemote))
  then github_remote repository
  else coalesce configuredRemote (github_remote repository).

(** ** Nodes *)

Inductive CredentialMode := runner_local | run_scoped_grant.
#[export] Instance CredentialMode_eq_dec : EqDecision CredentialMode.
Proof. solve_decision. Defined.

Record ReviewRule := {
  rule_name : string;
  changed_paths_any : option (list string);
  diff_lines_gt : option Z;
  rule_require : option string;
  rule_reviewer_tags : option (list string);
  rule_timeout : option string;
  rule_on_timeout : option string
}.

Record WorkflowGitPublishNode := {
  n_repository : string;
  n_paths : option (list string);
  n_allowEmpty : option bool;
  n_push : option bool;
  n_credentialMode : option CredentialMode;
  n_credentialRef : option string;
  n_restrictedBranches : option (list string);
  n_restrictedPaths : option (list string);
  n_prePublishReview : option (list ReviewRule)
}.

Record RenderedGitPublishInput := { in_cwd : string; in_branch : string; in_message : string }.

Record WorkflowCheckoutNode := { c_repository : string; c_remote : option string; c_path : option string }.

Record GitPublishResult := {
  p_repository : string; p_branch : string; p_commit : string; p_pushed : bool; p_changed : bool;
  p_credentialMode : CredentialMode; p_credentialRef : option string
}.

Record GitPublishReviewFacts := {
  changedPaths : list string; addedLines : Z; removedLines : Z; diffLines : Z; diffDigest : string
}.

Record MatchedRule := {
  m_name : string; m_reason : string; m_require : option string; m_reviewerTags : list string;
  m_timeout : option string; m_onTimeout : option string
}.

Record GitPublishReviewDecision := { required : bool; facts : GitPublishReviewFacts; matchedRules : list MatchedRule }.

(** ** Questions of authority *)

Section authority.
Context (processCwd : string) (run : WorkflowRunRecord) (nodeId : string).

Definition outside_repositories (repository : string) : bool :=
  negb (bool_decide (allowedRepositories run = [])) && negb (bool_decide (repository ∈ allowedRepositories run)).

Definition checkoutAuthorityDenial (node : WorkflowCheckoutNode) : option WorkflowAuthorityDenial :=
  match workflowAuthorityContract run with
  | None => None
  | Some _ =>
      let repository := normalizeRepository (Some (c_repository node)) in
      let allowed := allowedRepositories run in
      let deny r text := Some (with_allowed allowed (with_repository repository (denial run nodeId r text))) in
      if outside_repositories repository then
        deny repository_not_allowed ("Checkout node references repository " +:+ repository +:+ ", which is outside workflow repo authority.")
      else
        let path := coalesce (c_path node) "" in
        if truthy_str path && negb (isPathWithin processCwd (resolve processCwd [directoryPath run; path]) (directoryPath run)) then
          deny checkout_path_outside_run_worktree ("Checkout path " +:+ path +:+ " is outside the run worktree.")
        else
          match repositoryFromRemote (c_remote node) with
          | Some remote =>
              if truthy_str remote && negb (bool_decide (remote = repository)) then
                Some (with_allowed [repository] (with_repository remote (denial run nodeId repository_not_allowed
                  ("Checkout remote references repository " +:+ remote +:+ ", but the node declares " +:+ repository +:+ "."))))
              else None
          | None => None
          end
  end.

Definition target_conflict (repository : string) (paths : list string) (target : GitContextUpdateTargetRef) : option string :=
  if bool_decide (t_repository target = repository) then None
  else find_first (gitContextTargetAllowsPath target) paths.

Fixpoint first_conflict (repository : string) (paths : list string) (targets : list GitContextUpdateTargetRef) :
    option (string * GitContextUpdateTargetRef) :=
  match targets with
  | [] => None
  | target :: targets =>
      match target_conflict repository paths target with
      | Some path => if truthy_str path then Some (path, target) else first_conflict repository paths targets
      | None => first_conflict repository paths targets
      end
  end.

(** [update_targets] are the references that the preparation of the run lists. *)
Definition contextUpdateTargetPublishDenial `{Git} (update_targets : list json) (repository cwd : string)
    (publishPaths : option (list string)) : M (option WorkflowAuthorityDenial) :=
  let refs := omap (λ target, match target with JObj f => field f "ref" ≫= string_of | _ => None end) update_targets in
  let targets := omap (λ ref, if truthy_str ref then parseGitContextUpdateTargetRef ref else None) refs in
  if bool_decide (length targets = 0) then ret None
  else
    changed ← gitChangedPaths cwd;
    match first_conflict repository (filterPublishablePaths changed publishPaths) targets with
    | Some (path, target) =>
        ret (Some (with_allowed [repository] (with_repository repository (denial run nodeId context_update_target_wrong_repository
          ("Git publish would include " +:+ path +:+ " in " +:+ repository +:+ ", but that path belongs to context update target " +:+
           t_repository target +:+ (if truthy_opt (t_path target) then "/" +:+ coalesce (t_path target) "" else "") +:+
           ". Use the context update proposal/writeback path instead of writing target docs into the operating repo.")))))
    | None => ret None
    end.

Definition gitPublishAuthorityDenial `{Git} (update_targets : list json) (node : WorkflowGitPublishNode)
    (input : RenderedGitPublishInput) : M (option WorkflowAuthorityDenial) :=
  match workflowAuthorityContract run with
  | None => ret None
  | Some _ =>
      let repository := normalizeRepository (Some (n_repository node)) in
      let allowed := allowedRepositories run in
      let deny r text := ret (Some (with_allowed allowed (with_repository repository (denial run nodeId r text)))) in
      if outside_repositories repository then
        deny repository_not_allowed ("Git publish node references repository " +:+ repository +:+ ", which is outside workflow repo authority.")
      else if negb (isPathWithin processCwd (in_cwd input) (directoryPath run)) then
        deny git_publish_path_outside_worktree "Git publish cwd is outside the run worktree."
      else if bool_decide (coalesce (n_credentialMode node) runner_local = run_scoped_grant) then
        if truthy_opt (n_credentialRef node) then ret None
        else deny git_publish_run_scoped_grant_unavailable "Git publish run-scoped grant mode requires credentialRef."
      else
        url ← git ["remote"; "get-url"; "origin"] (in_cwd input);
        match repositoryFromRemote (Some (trim url)) with
        | Some remote =>
            if truthy_str remote && negb (bool_decide (remote = repository)) then
              ret (Some (with_allowed [repository] (with_repository remote (denial run nodeId git_publish_remote_mismatch
                ("Git publish remote references repository " +:+ remote +:+ ", but the node declares " +:+ repository +:+ ".")))))
            else contextUpdateTargetPublishDenial update_targets repository (in_cwd input) (n_paths node)
        | None => contextUpdateTargetPublishDenial update_targets repository (in_cwd input) (n_paths node)
        end
  end.
End authority.

(** ** Publishing *)

Definition truthy_secret (secret : option string) : bool := truthy_opt secret.
Definition is_true (b : option bool) : bool := bool_decide (b = Some true).

Definition add_args (node : WorkflowGitPublishNode) : list string :=
  "add" :: match n_paths node with Some (p :: l) => p :: l | _ => ["-A"] end.
Definition push_args (branch : string) : list string := ["push"; "origin"; "HEAD:" +:+ branch].
Definition commit_args (empty : bool) (message : string) : list string :=
  ["commit"] ++ (if empty then ["--allow-empty"] else []) ++ ["-m"; message].

Definition prepareGitPublishIndex `{Git} (node : WorkflowGitPublishNode) (input : RenderedGitPublishInput) : M unit :=
  _ ← git ["config"; "user.email"; "viewport-runner@example.invalid"] (in_cwd input);
  _ ← git ["config"; "user.name"; "Viewport Runner"] (in_cwd input);
  _ ← git ["checkout"; "-B"; in_branch input] (in_cwd input);
  _ ← git (add_args node) (in_cwd input);
  ret tt.

Definition push_step `{Git} (node : WorkflowGitPublishNode) (input : RenderedGitPublishInput) (credential : bool) : M unit :=
  restricted ← or_syntax_error (branchIsRestricted (in_branch input) (n_restrictedBranches node));
  if (restricted : bool) then
    throw ("Branch '" +:+ in_branch input +:+ "' is restricted by policy — refusing to publish. Restricted patterns: " +:+
           JsString.join ", " (coalesce (n_restrictedBranches node) []))
  else
    _ ← git_with credential (push_args (in_branch input)) (in_cwd input); ret tt.

Definition executeGitPublishNode `{Git} (node : WorkflowGitPublishNode) (input : RenderedGitPublishInput)
    (secret : option string) : M GitPublishResult :=
  let credentialMode := coalesce (n_credentialMode node) runner_local in
  if bool_decide (credentialMode = run_scoped_grant) && negb (truthy_secret secret) then
    throw ("Run-scoped git publish grant " +:+ coalesce (n_credentialRef node) "(missing credentialRef)" +:+
           " was not materialized for this run.")
  else
    _ ← prepareGitPublishIndex node input;
    status ← git ["status"; "--porcelain"] (in_cwd input);
    let changed := truthy_str (trim status) in
    if negb changed && negb (is_true (n_allowEmpty node)) then
      throw "Git publish node has no changes to publish. Ensure the implementation step writes a diff, or set allowEmpty: true for an intentional empty commit."
    else
      paths ← gitChangedPaths (in_cwd input);
      touched ← or_syntax_error (restrictedPathsTouched paths (n_restrictedPaths node));
      match touched with
      | path :: _ =>
          throw ("Changed path '" +:+ path +:+ "' is restricted by policy — refusing to publish. Restricted patterns: " +:+
                 JsString.join ", " (coalesce (n_restrictedPaths node) []))
      | [] =>
          _ ← git (commit_args (is_true (n_allowEmpty node) && negb changed) (in_message input)) (in_cwd input);
          commit ← git ["rev-parse"; "HEAD"] (in_cwd input);
          let shouldPush := negb (bool_decide (n_push node = Some false)) in
          _ ← (if shouldPush then push_step node input (truthy_secret secret) else ret tt);
          ret {| p_repository := normalizeRepository (Some (n_repository node)); p_branch := in_branch input;
                 p_commit := trim commit; p_pushed := shouldPush; p_changed := changed;
                 p_credentialMode := credentialMode; p_credentialRef := n_credentialRef node |}
      end.

(** ** The review before publishing *)

(** [rule.require?.match(/^human\(([^)]+)\)$/i)] *)
Definition human_reviewers (require : string) : option string :=
  let n := String.length require in
  if startsWith (lower require) "human(" && bool_decide (8 ≤ n) && bool_decide (slice_from (n - 1) require = ")") then
    let inner := String.substring 6 (n - 7) require in
    if has_char ")" inner then None else Some inner
  else None.

Definition reviewerTagsForRule (rule : ReviewRule) : list string :=
  match coalesce (rule_reviewer_tags rule) [] with
  | tag :: tags => tag :: tags
  | [] =>
      match rule_require rule ≫= human_reviewers with
      | Some inner => filter (λ t, truthy_str t = true) (trim <$> split_on "," inner)
      | None => []
      end
  end.

Definition rule_matches (facts : GitPublishReviewFacts) (rule : ReviewRule) : option (option MatchedRule) :=
  pathMatches ← some_match (λ pattern, some_match (λ path, matchesGlob path pattern) (changedPaths facts))
    (coalesce (changed_paths_any rule) []);
  let diffMatches := match diff_lines_gt rule with Some n => (n <? diffLines facts)%Z | None => false end in
  Some (if negb pathMatches && negb diffMatches then None
        else Some {| m_name := rule_name rule;
                     m_reason := JsString.join "," ((if (pathMatches : bool) then ["changed_paths_any"] else []) ++
                                                   (if diffMatches then ["diff_lines_gt"] else []));
                     m_require := rule_require rule; m_reviewerTags := reviewerTagsForRule rule;
                     m_timeout := rule_timeout rule; m_onTimeout := rule_on_timeout rule |}).

Section review.
Context `{Git} (sha256_hex : string → string).

Definition gitDiffDigest (cwd : string) : M string :=
  diff ← git ["diff"; "--cached"; "--binary"] cwd; ret ("sha256:" +:+ sha256_hex diff).

Definition gitPublishReviewFacts (cwd : string) : M GitPublishReviewFacts :=
  paths ← gitChangedPaths cwd;
  numstat ← git ["diff"; "--cached"; "--numstat"] cwd;
  let '(added, removed) := numstat_totals numstat in
  digest ← gitDiffDigest cwd;
  ret {| changedPaths := paths; addedLines := added; removedLines := removed;
         diffLines := (added + removed)%Z; diffDigest := digest |}.

Definition evaluateGitPublishPrePublishReview (node : WorkflowGitPublishNode) (input : RenderedGitPublishInput) :
    M GitPublishReviewDecision :=
  _ ← prepareGitPublishIndex node input;
  facts ← gitPublishReviewFacts (in_cwd input);
  matched ← or_syntax_error (mapM (rule_matches facts) (coalesce (n_prePublishReview node) []));
  let rules := omap id matched in
  ret {| required := negb (bool_decide (length rules = 0)); facts := facts; matchedRules := rules |}.
End review.

(** ** The executor of the node *)

(** What the record of the node keeps of a review, and of the answer to it. *)
Record InvalidatedApproval := {
  previous_diff_digest : option string; current_diff_digest : string;
  previous_approval_resolved_at : option Z; invalid_reason : string
}.
Record PrePublishReview := {
  pr_required : bool;
  pr_facts : GitPublishReviewFacts;
  pr_matched_rules : list MatchedRule;
  pr_policy : list ReviewRule;
  pr_invalidated : option InvalidatedApproval;
  pr_verified : option GitPublishReviewFacts
}.
Record Approval := { approved : option bool; expectedActionDigest : option string; resolvedAt : option Z }.
Record NodeState := { approval : option Approval; pre_publish_review : option PrePublishReview; published : option GitPublishResult }.

Inductive Outcome := Completed | Blocked (prompt : string) (reviewerTags : list string) (timeout onTimeout : option string).

Definition prePublishReviewDiffDigest (review : option PrePublishReview) : option string :=
  match review with
  | Some r => if nonblank (diffDigest (pr_facts r)) then Some (diffDigest (pr_facts r)) else None
  | None => None
  end.

Definition prePublishReviewPrompt (repository branch : string) (decimal : Z → string) (decision : GitPublishReviewDecision) : string :=
  let paths := JsString.join ", " (take 20 (changedPaths (facts decision))) in
  JsString.join (String newline_char "")
    ["Approve publishing " +:+ repository +:+ " to " +:+ branch +:+ "?";
     "Matched review rule(s): " +:+ JsString.join ", " (m_name <$> matchedRules decision) +:+ ".";
     "Changed paths: " +:+ (if truthy_str paths then paths else "(none)") +:+ ".";
     "Diff size: " +:+ decimal (diffLines (facts decision)) +:+ " line(s)."].

(** Why an approval does not count for the diff as it is now. *)
Definition invalidation (state : NodeState) (decision : GitPublishReviewDecision) : option InvalidatedApproval :=
  let previousReview := pre_publish_review state in
  let previousDigest := prePublishReviewDiffDigest previousReview in
  let is_approved := bool_decide ((approval state ≫= approved) = Some true) in
  let approvedDigest := approval state ≫= expectedActionDigest in
  let current := diffDigest (facts decision) in
  let priorApprovalInvalidated := bool_decide (is_Some (previousReview ≫= pr_invalidated)) in
  let changedAfterApproval := is_approved && bool_decide (is_Some previousDigest) && negb (bool_decide (previousDigest = Some current)) in
  let missingApprovedDigest := is_approved && bool_decide (previousDigest = None) && required decision in
  let missingCurrentDigest := is_approved && priorApprovalInvalidated && negb (bool_decide (approvedDigest = Some current)) in
  if changedAfterApproval || missingApprovedDigest || missingCurrentDigest then
    Some {| previous_diff_digest := previousDigest; current_diff_digest := current;
            previous_approval_resolved_at := approval state ≫= resolvedAt;
            invalid_reason := if changedAfterApproval then "diff_changed_after_approval"
                              else if missingCurrentDigest then "current_diff_digest_not_approved"
                              else "approved_diff_digest_missing" |}
  else None.

(** The state after the review, and whether the node waits for an answer. *)
Definition review_state (rules : list ReviewRule) (state : NodeState) (decision : GitPublishReviewDecision) : NodeState * bool :=
  let previous := pre_publish_review state in
  let invalidated := invalidation state decision in
  if bool_decide ((approval state ≫= approved) = Some true) && bool_decide (invalidated = None) then
    ({| approval := approval state;
        pre_publish_review := Some
          {| pr_required := coalesce (pr_required <$> previous) (required decision);
             pr_facts := coalesce (pr_facts <$> previous) (facts decision);
             pr_matched_rules := coalesce (pr_matched_rules <$> previous) (matchedRules decision);
             pr_policy := coalesce (pr_policy <$> previous) rules;
             pr_invalidated := None; pr_verified := Some (facts decision) |};
        published := published state |}, false)
  else
    let waits := required decision || bool_decide (is_Some invalidated) in
    ({| approval := match invalidated with Some _ => None | None => approval state end;
        pre_publish_review := Some
          {| pr_required := waits; pr_facts := facts decision; pr_matched_rules := matchedRules decision;
             pr_policy := rules; pr_invalidated := invalidated; pr_verified := None |};
        published := published state |}, waits).

Definition first_some {A} (f : MatchedRule → option A) (rules : list MatchedRule) : option A := head (omap f rules).
Definition truthy_text (s : option string) : option string := match s with Some t => if truthy_str t then Some t else None | None => None end.

Section executor.
Context `{Git} (sha256_hex : string → string) (decimal : Z → string).

(** The request for an answer when the node waits. *)
Definition review_request (node : WorkflowGitPublishNode) (input : RenderedGitPublishInput)
    (decision : GitPublishReviewDecision) (invalidated : bool) : Outcome :=
  let prompt := prePublishReviewPrompt (n_repository node) (in_branch input) decimal decision in
  Blocked
    (if invalidated then prompt +:+ String newline_char (String newline_char
       "The diff changed after the previous approval. Review the current diff before publishing.") else prompt)
    (fold_left (λ tags tag, set_add tag tags) (matchedRules decision ≫= m_reviewerTags) [])
    (first_some (λ r, truthy_text (m_timeout r)) (matchedRules decision))
    (first_some (λ r, truthy_text (m_onTimeout r)) (matchedRules decision)).

(** How the node ends, its state and the calls made; a failure keeps what was written
    to the state before it. *)
Definition Run : Type := (string + Outcome) * NodeState * History.

Definition publish (node : WorkflowGitPublishNode) (input : RenderedGitPublishInput) (secret : option string)
    (state : NodeState) (h : History) : Run :=
  match executeGitPublishNode node input secret h with
  | (inl e, h) => (inl e, state, h)
  | (inr result, h) =>
      (inr Completed, {| approval := approval state; pre_publish_review := pre_publish_review state; published := Some result |}, h)
  end.

Definition reviewed_publish (rules : list ReviewRule) (node : WorkflowGitPublishNode) (input : RenderedGitPublishInput)
    (secret : option string) (state : NodeState) (h : History) : Run :=
  match evaluateGitPublishPrePublishReview sha256_hex node input h with
  | (inl e, h) => (inl e, state, h)
  | (inr decision, h) =>
      let '(state', waits) := review_state rules state decision in
      if (waits : bool) then
        (inr (review_request node input decision (bool_decide (is_Some (invalidation state decision)))), state', h)
      else publish node input secret state' h
  end.

(** The node [git_publish], rendered; a denial throws its detail. *)
Definition git_publish (processCwd : string) (run : WorkflowRunRecord) (nodeId : string) (update_targets : list json)
    (node : WorkflowGitPublishNode) (input : RenderedGitPublishInput) (secret : option string) (state : NodeState)
    (h : History) : Run :=
  match gitPublishAuthorityDenial processCwd run nodeId update_targets node input h with
  | (inl e, h) => (inl e, state, h)
  | (inr (Some d), h) => (inl (detail d), state, h)
  | (inr None, h) =>
      match n_prePublishReview node with
      | None => publish node input secret state h
      | Some rules => reviewed_publish rules node input secret state h
      end
  end.
End executor.

(** ** Publishing under restrictions and under review

    Theorems for any git.  The calls of a publication are a prefix of one
    list ([publish_calls]); [publish_fenced] says what must hold for the commit and for the
    push to be among them, [publish_reviewed] what must hold for a node with review rules
    to publish. *)
(** ** Calls in order *)

Section calls.
Context (node : WorkflowGitPublishNode) (input : RenderedGitPublishInput).

Definition call (credential : bool) (l : list string) : GitCall :=
  {| args := l; at_ := in_cwd input; credentialed := credential |}.

Definition prepare_calls : list GitCall :=
  [call false ["config"; "user.email"; "viewport-runner@example.invalid"];
   call false ["config"; "user.name"; "Viewport Runner"];
   call false ["checkout"; "-B"; in_branch input];
   call false (add_args node)].
Definition listing : GitCall := call false ["status"; "--porcelain"; "--untracked-files=all"].
Definition until_commit : list GitCall := prepare_calls ++ [call false ["status"; "--porcelain"]; listing].

(** Every call of a publication that goes to its end. *)
Definition publish_calls (secret : option string) (empty : bool) : list GitCall :=
  until_commit ++
  [call false (commit_args empty (in_message input)); call false ["rev-parse"; "HEAD"];
   call (truthy_secret secret) (push_args (in_branch input))].
End calls.

(** [x] makes the first [n] of [calls], and ends with [r]. *)
Ltac run_git :=
  unfold mbind, M_bind, bind, or_syntax_error, git, git_with, ret, throw in *;
  repeat (case_match; simplify_eq/=); rewrite <- ?app_assoc in *.

(** Tells how many calls were made. *)
Ltac made n := exists n; split; [lia|reflexivity].
Ltac made_calls := first [made 1 | made 2 | made 3 | made 4 | made 5 | made 6 | made 7 | made 8 | made 9].

Section publishing.
Context `{Git}.

Lemma prepare_runs node input h :
  match prepareGitPublishIndex node input h with
  | (inr _, h') => h' = h ++ prepare_calls node input
  | (inl _, h') => ∃ n, n ≤ 4 ∧ h' = h ++ take n (prepare_calls node input)
  end.
Proof.
  unfold prepareGitPublishIndex. run_git. all: first [made_calls | reflexivity].
Qed.

(** What holds when a publication has made [n] of its calls from [h] on. *)
Definition fenced (node : WorkflowGitPublishNode) (input : RenderedGitPublishInput) (h : History) (n : nat) : Prop :=
  (7 ≤ n → ∃ status, answer (h ++ take 5 (until_commit node input)) (listing input) = inr status ∧
     restrictedPathsTouched (changed_paths_of status) (n_restrictedPaths node) = Some []) ∧
  (9 ≤ n → n_push node ≠ Some false ∧ branchIsRestricted (in_branch input) (n_restrictedBranches node) = Some false).

Lemma push_runs node input credential h r h' : push_step node input credential h = (r, h') →
  let pushed := call input credential (push_args (in_branch input)) in
  (h' = h ∧ ∃ e, r = inl e) ∨
  h' = h ++ [pushed] ∧ branchIsRestricted (in_branch input) (n_restrictedBranches node) = Some false.
Proof. unfold push_step. intros E. run_git; eauto. Qed.

Lemma fenced_early node input h n : n < 7 → fenced node input h n.
Proof. split; lia. Qed.

Lemma fenced_commit node input h n status : n < 9 → answer (h ++ take 5 (until_commit node input)) (listing input) = inr status →
  restrictedPathsTouched (changed_paths_of status) (n_restrictedPaths node) = Some [] → fenced node input h n.
Proof. intros. split; [by exists status|lia]. Qed.

(** A publication makes some of its calls in order, all of them when it succeeds. *)
Lemma publish_runs node input secret h r h' : executeGitPublishNode node input secret h = (r, h') →
  ∃ empty n, h' = h ++ take n (publish_calls node input secret empty) ∧ fenced node input h n ∧
    ∀ result, r = inr result → n = (if p_pushed result then 9 else 8) ∧ p_pushed result = negb (bool_decide (n_push node = Some false)).
Proof.
  unfold executeGitPublishNode. intros E.
  destruct (bool_decide _ && _); [injection E as <- <-; exists false, 0; rewrite app_nil_r; split; [done|split; [apply fenced_early; lia|done]]|].
  unfold mbind, M_bind, bind at 1 in E. pose proof (prepare_runs node input h) as Hp.
  destruct (prepareGitPublishIndex node input h) as [[e|[]] h1].
  { destruct Hp as (n & Hn & ->). injection E as <- <-. exists false, n. split; [|split; [apply fenced_early; lia|done]].
    f_equal. unfold publish_calls, until_commit. rewrite <- app_assoc. rewrite take_app_le; [done|cbn; lia]. }
  subst h1. unfold mbind, M_bind, bind, or_syntax_error, gitChangedPaths, git, git_with, ret, throw, mbind, M_bind, bind in E.
  repeat (case_match; simplify_eq/=). all: rewrite <- ?app_assoc in *.
  all: try (exists false, 5; split; [reflexivity|split; [apply fenced_early; lia|done]]).
  all: try (exists false, 6; split; [reflexivity|split; [apply fenced_early; lia|done]]).
  all: eexists; try (exists 7; split; [reflexivity|split; [by eapply fenced_commit; [lia|..]|done]]).
  all: try (exists 8; split; [reflexivity|split; [by eapply fenced_commit; [lia|..]|by intros ? [= <-]]]).
  all: match goal with Hpush : push_step _ _ _ _ = _ |- _ => apply push_runs in Hpush as [[-> [e ?]]|[-> Hb]] end.
  all: try done. all: rewrite <- ?app_assoc; cbn [app]; try (exists 8; split; [reflexivity|split; [by eapply fenced_commit; [lia|..]|done]]).
  all: exists 9; split; [reflexivity|split; [|by intros ? [= <-]]]; split; intros _; [by eexists|].
  all: split; [by intros Hn; rewrite (bool_decide_true _ Hn) in *|done].
Qed.
End publishing.

(** *** What git lists

    A line of [git status --porcelain] is two status letters, a space and a path.  git
    prints a path as it is when its characters are visible ASCII and neither a quote nor a
    backslash, and otherwise quotes it; a renamed file has both its paths on the line,
    with an arrow between blanks. *)
Definition status_letter (a : ascii) : bool := existsb (Ascii.eqb a) [" "; "M"; "T"; "A"; "D"; "R"; "C"; "U"; "?"; "!"]%char.
Definition plain_path (path : string) : bool :=
  truthy_str path && forallb visible (String.list_ascii_of_string path) && negb (has_char quote path) &&
  negb (has_char "\" path) && negb (startsWith path "/") &&
  forallb (λ s, negb (bool_decide (s = "..") || bool_decide (s = "."))) (split_on "/" path).
Definition listed (status path : string) : Prop :=
  ∃ x y, status_letter x = true ∧ status_letter y = true ∧ plain_path path = true ∧
    String x (String y (String " " path)) ∈ split_on newline_char status.

Lemma drop_while_none c s : has_char c s = false → drop_while (is_a c) s = s.
Proof.
  destruct s as [|a s]; [done|]. simpl. rewrite has_char_cons. unfold is_a. intros [H _]%orb_false_iff.
  by rewrite Ascii.eqb_sym, H.
Qed.
Lemma char_in_rev c s : has_char c (String.rev s) = has_char c s.
Proof.
  induction s as [|a s IH]; [done|]. change (String a s) with (String a "" +:+ s).
  rewrite JsString.rev_append, !has_char_app, IH. apply orb_comm.
Qed.
Lemma drop_while_end_none c s : has_char c s = false → drop_while_end (is_a c) s = s.
Proof. intros H. unfold drop_while_end. rewrite drop_while_none; [apply JsString.rev_involutive|by rewrite char_in_rev]. Qed.
Lemma replace_char_none c d s : has_char c s = false → replace_char c d s = s.
Proof.
  induction s as [|a s IH]; [done|]. rewrite has_char_cons. intros [Ha Hs]%orb_false_iff. simpl.
  assert (Ascii.eqb a c = false) as -> by (by rewrite Ascii.eqb_sym). by rewrite (IH Hs).
Qed.
Lemma visible_rev s : forallb visible (String.list_ascii_of_string s) = true →
  forallb visible (String.list_ascii_of_string (String.rev s)) = true.
Proof.
  assert (∀ a b, forallb visible (String.list_ascii_of_string (a +:+ b)) =
    forallb visible (String.list_ascii_of_string a) && forallb visible (String.list_ascii_of_string b)) as Happ.
  { intros a b. induction a as [|x a IH]; [done|]. rewrite append_cons. simpl. by rewrite IH, andb_assoc. }
  induction s as [|a s IH]; [done|]. change (String a s) with (String a "" +:+ s). rewrite JsString.rev_append, !Happ.
  intros [Ha Hs]%andb_true_iff. apply andb_true_iff. split; [by apply IH|exact Ha].
Qed.
Lemma trimEnd_visible pre path : forallb visible (String.list_ascii_of_string path) = true → path ≠ "" →
  trimEnd (pre +:+ path) = pre +:+ path.
Proof.
  intros Hv Hn. unfold trimEnd. rewrite JsString.rev_append. apply visible_rev in Hv.
  destruct (String.rev path) as [|a u] eqn:E.
  { apply (f_equal String.rev) in E. by rewrite JsString.rev_involutive in E. }
  rewrite append_cons. simpl in Hv. apply andb_true_iff in Hv as [Ha _]. destruct (visible_not_ws a Ha) as [E1 E2].
  assert (∀ w, strip ws1 (λ a b, ws2 b a) (λ a b c, ws3 c b a) (String a w) = String a w) as ->.
  { intros w. simpl. rewrite E1. destruct w as [|b w]; [done|]. destruct (E2 b b) as (_ & -> & _).
    destruct w as [|c w]; [done|]. by destruct (E2 c b) as (_ & _ & _ & ->). }
  by rewrite <-append_cons, <-E, <-JsString.rev_append, JsString.rev_involutive.
Qed.
Lemma no_arrow path : has_char " " path = false → String.index 0 " -> " path = None.
Proof.
  induction path as [|a path IH]; [done|]. rewrite has_char_cons. intros [Ha Hp]%orb_false_iff.
  cbn [String.index]. rewrite (IH Hp). cbn [String.prefix].
  destruct (ascii_dec " " a) as [<-|]; [by rewrite Ascii.eqb_refl in Ha|done].
Qed.
Lemma visible_no_blank s : forallb visible (String.list_ascii_of_string s) = true → has_char " " s = false.
Proof.
  induction s as [|a s IH]; [done|]. simpl. intros [Ha Hs]%andb_true_iff. rewrite has_char_cons, IH by done.
  rewrite orb_false_r. apply Ascii.eqb_neq. by intros <-.
Qed.

Lemma plain_path_normal path : plain_path path = true → normalizeGitPath path = Some path.
Proof.
  unfold plain_path. rewrite !andb_true_iff, !negb_true_iff. intros [[[[[Ht Hv] Hq] Hb] Hs] Hd].
  unfold normalizeGitPath. rewrite (drop_while_none quote), (drop_while_end_none quote), (replace_char_none "\" "/") by done.
  assert (drop_while (is_a "/") path = path) as ->.
  { destruct path as [|a path]; [done|]. simpl in *. unfold is_a. destruct (Ascii.eqb_spec a "/") as [->|]; [|done].
    by destruct path. }
  rewrite trim_visible by done. rewrite Ht. simpl.
  destruct (existsb _ _) eqn:E; [|done]. apply existsb_elem_of in E as (x & Hx & E).
  rewrite forallb_elem_of in Hd. specialize (Hd x Hx). by rewrite E in Hd.
Qed.

Lemma listed_changed status path : listed status path → path ∈ changed_paths_of status.
Proof.
  intros (x & y & Hx & Hy & Hp & Hin). pose proof (plain_path_normal path Hp) as Hn.
  unfold plain_path in Hp. rewrite !andb_true_iff in Hp. destruct Hp as [[[[[Ht Hv] _] _] _] _].
  apply truthy_str_true in Ht.
  assert (trimEnd (String x (String y (String " " path))) = String x (String y (String " " path))) as Htrim
    by exact (trimEnd_visible (String x (String y (String " " ""))) path Hv Ht).
  unfold changed_paths_of. apply list_elem_of_omap. exists (String x (String y (String " " path))). split.
  - apply list_elem_of_filter. split; [done|]. apply list_elem_of_fmap. eauto.
  - assert (∀ a, status_letter a = true → utf16_units a = 1%Z) as Hu.
    { unfold status_letter. intros a. rewrite existsb_elem_of. intros (c & Hc & ->%Ascii.eqb_eq).
      repeat (apply elem_of_cons in Hc as [->|Hc]; [done|]). by apply elem_of_nil in Hc. }
    assert (0 < js_length path)%Z as Hl.
    { destruct path as [|a path]; [done|]. simpl in Hv |- *. apply andb_true_iff in Hv as [Ha _]. unfold visible in Ha.
      apply andb_true_iff in Ha as [_ Ha]. unfold utf16_units. rewrite Ha. pose proof (js_length_nonneg path). lia. }
    unfold status_path. cbn [js_length]. rewrite (Hu x Hx), (Hu y Hy).
    destruct (Z.ltb_spec 3 (1 + (1 + (utf16_units " " + js_length path)))%Z) as [_|Hle];
      [|change (utf16_units " ") with 1%Z in Hle; lia].
    assert (slice_from 3 (String x (String y (String " " path))) = path) as ->.
    { unfold slice_from. cbn [String.length]. simpl. rewrite Nat.sub_0_r. apply substring_all. }
    by rewrite no_arrow by (by apply visible_no_blank).
Qed.

(** C21: with restrictions it understands, a publication makes its calls in order.  It
    commits only after git, asked what has changed, lists no path that is restricted — of
    the lines git prints with one unquoted path; a path that git quotes is misread, and of
    a renamed file only the new path is looked at.  It pushes only when the node asks for
    it and the branch is not restricted; and when it succeeds it has made every call, the
    push included if it says so. *)
Theorem publish_fenced `{Git} node input secret h r h' :
  forallb understood (coalesce (n_restrictedPaths node) []) = true →
  forallb understood (coalesce (n_restrictedBranches node) []) = true →
  executeGitPublishNode node input secret h = (r, h') →
  ∃ empty n, h' = h ++ take n (publish_calls node input secret empty) ∧
    (7 ≤ n → ∃ status, answer (h ++ take 5 (until_commit node input)) (listing input) = inr status ∧
       ∀ path p, listed status path → p ∈ coalesce (n_restrictedPaths node) [] → ¬ glob_covers p path) ∧
    (9 ≤ n → n_push node ≠ Some false ∧ ∀ p, p ∈ coalesce (n_restrictedBranches node) [] → ¬ glob_covers p (in_branch input)) ∧
    ∀ result, r = inr result → n = (if p_pushed result then 9 else 8).
Proof.
  intros Hp Hb E. destruct (publish_runs _ _ _ _ _ _ E) as (empty & n & -> & [Hc Hpush] & Hr).
  exists empty, n. split_and!; [done| | |by intros ? [-> _]%Hr].
  - intros (status & Ea & Et)%Hc. exists status. split; [done|]. intros path p Hin%listed_changed Hpin Hcov.
    destruct (restricted_paths_iff (changed_paths_of status) _ Hp) as (l & El & _ & Hl). simplify_eq.
    assert (path ∈ @nil string) as []%not_elem_of_nil. apply Hl. eauto.
  - intros [Hn Hbr]%Hpush. split; [done|]. intros p Hin Hcov.
    destruct (branch_restricted_iff (in_branch input) _ Hb) as (b & El & Hl). simplify_eq.
    assert (false = true) by (apply Hl; eauto). done.
Qed.

(** ** Review *)

(** A call that neither commits nor pushes. *)
Definition harmless (c : GitCall) : Prop := head (args c) ∉ [Some "commit"; Some "push"].

Section review.
Context `{Git}.

Definition quiet {A} (x : M A) : Prop := ∀ h, ∃ l, (x h).2 = h ++ l ∧ Forall harmless l.

Lemma quiet_ret {A} (a : A) : quiet (ret a).
Proof. intros h. exists []. by rewrite app_nil_r. Qed.
Lemma quiet_throw {A} e : quiet (@throw A e).
Proof. intros h. exists []. by rewrite app_nil_r. Qed.
Lemma quiet_bind {A B} (x : M A) (f : A → M B) : quiet x → (∀ a, quiet (f a)) → quiet (bind x f).
Proof.
  intros Hx Hf h. unfold bind. destruct (Hx h) as (l & E & Hl). destruct (x h) as [[e|a] h1]; simpl in *; subst; [by exists l|].
  destruct (Hf a (h ++ l)) as (l' & -> & Hl'). exists (l ++ l'). rewrite app_assoc. split; [done|]. by apply Forall_app.
Qed.
Lemma quiet_git c l cwd : head l ∉ [Some "commit"; Some "push"] → quiet (git_with c l cwd).
Proof. intros Hl h. eexists. split; [reflexivity|]. by repeat constructor. Qed.
Lemma quiet_or_syntax_error {A} (o : option A) : quiet (or_syntax_error o).
Proof. destruct o; [apply quiet_ret|apply quiet_throw]. Qed.
End review.

(** Goes through the calls of a computation. *)
Ltac go_quiet :=
  repeat first
    [ apply quiet_ret | apply quiet_throw | apply quiet_or_syntax_error
    | apply quiet_git; clear; cbn; set_solver
    | apply quiet_bind; [|intros ?] | case_match ].

Section harmless_calls.
Context `{Git}.

Lemma quiet_prepare node input : quiet (prepareGitPublishIndex node input).
Proof. unfold prepareGitPublishIndex. go_quiet. Qed.

Lemma quiet_denial processCwd run nodeId targets node input :
  quiet (gitPublishAuthorityDenial processCwd run nodeId targets node input).
Proof. unfold gitPublishAuthorityDenial, contextUpdateTargetPublishDenial, gitChangedPaths. go_quiet. Qed.
End harmless_calls.

Section reviewed.
Context `{Git} (sha256_hex : string → string) (decimal : Z → string).

Lemma quiet_evaluate node input : quiet (evaluateGitPublishPrePublishReview sha256_hex node input).
Proof.
  apply quiet_bind; [apply quiet_prepare|intros _]. unfold gitPublishReviewFacts, gitDiffDigest, gitChangedPaths. go_quiet.
Qed.

(** The approval of the node is for the diff with this digest. *)
Definition approved_diff (state : NodeState) (digest : string) : Prop :=
  (approval state ≫= approved) = Some true ∧
  prePublishReviewDiffDigest (pre_publish_review state) = Some digest ∧
  (is_Some (pre_publish_review state ≫= pr_invalidated) → (approval state ≫= expectedActionDigest) = Some digest).

Lemma invalidation_none state decision : invalidation state decision = None →
  (approval state ≫= approved) = Some true → required decision = true → approved_diff state (diffDigest (facts decision)).
Proof.
  unfold invalidation, approved_diff. intros Hi Ha Hr. rewrite Ha, Hr in Hi. rewrite (bool_decide_true (Some true = Some true) eq_refl) in Hi.
  cbn [andb] in Hi. destruct (_ || _) eqn:E; [done|]. apply orb_false_iff in E as [[E1 E2]%orb_false_iff E3].
  rewrite andb_true_r in E2. apply bool_decide_eq_false in E2.
  destruct (prePublishReviewDiffDigest (pre_publish_review state)) as [d|]; [|done].
  rewrite (bool_decide_true (is_Some (Some d)) (ex_intro _ d eq_refl)) in E1. apply negb_false_iff, bool_decide_eq_true in E1.
  split_and!; [done|done|]. intros Hinv. rewrite (bool_decide_true _ Hinv) in E3. by apply negb_false_iff, bool_decide_eq_true in E3.
Qed.

(** When a node does not wait, its diff needs no approval or has it. *)
Lemma review_state_goes rules state decision state' : review_state rules state decision = (state', false) →
  required decision = true → approved_diff state (diffDigest (facts decision)).
Proof.
  unfold review_state. intros E Hr.
  destruct (bool_decide _ && _) eqn:Eb.
  - apply andb_true_iff in Eb as [Ea%bool_decide_eq_true Ei%bool_decide_eq_true]. by apply invalidation_none.
  - rewrite Hr in E. by injection E.
Qed.

(** When it waits, its record shows the diff and holds no approval. *)
Lemma review_state_waits rules state decision state' : review_state rules state decision = (state', true) →
  pr_facts <$> pre_publish_review state' = Some (facts decision) ∧ (approval state' ≫= approved) ≠ Some true.
Proof.
  unfold review_state. destruct (bool_decide _ && _) eqn:Eb; [done|]. intros [= <- _]. split; [done|]. cbn.
  destruct (invalidation state decision) eqn:Ei; [done|]. intros Ha.
  by rewrite (bool_decide_true _ Ha), (bool_decide_true (None = None) eq_refl) in Eb.
Qed.
End reviewed.

(** The question whose answer is the staged diff, and what git answers while nobody else
    touches the working tree: staging what is staged, looking at the status and looking at
    the diff change nothing about it. *)
Definition staged_diff (input : RenderedGitPublishInput) : GitCall := call input false ["diff"; "--cached"; "--binary"].
Definition settled `{Git} (node : WorkflowGitPublishNode) (input : RenderedGitPublishInput) : Prop := ∀ h l,
  Forall (λ c, c ∈ prepare_calls node input ∨ head (args c) ∈ [Some "status"; Some "diff"]) l →
  answer (h ++ prepare_calls node input ++ l) (staged_diff input) = answer (h ++ prepare_calls node input) (staged_diff input).

Section staged.
Context `{Git} (sha256_hex : string → string).

(** The calls of an evaluation, and the diff whose digest it takes. *)
Lemma evaluate_runs node input h decision h' :
  evaluateGitPublishPrePublishReview sha256_hex node input h = (inr decision, h') →
  ∃ diff l, h' = h ++ prepare_calls node input ++ l ++ [staged_diff input] ∧
    Forall (λ c, head (args c) ∈ [Some "status"; Some "diff"]) l ∧
    answer (h ++ prepare_calls node input ++ l) (staged_diff input) = inr diff ∧
    diffDigest (facts decision) = "sha256:" +:+ sha256_hex diff.
Proof.
  unfold evaluateGitPublishPrePublishReview, gitPublishReviewFacts, gitChangedPaths, gitDiffDigest. intros E.
  unfold mbind, M_bind, bind at 1 in E. pose proof (prepare_runs node input h) as Hp.
  destruct (prepareGitPublishIndex node input h) as [[e|[]] h1]; [done|]. subst h1.
  unfold git, git_with, ret, throw, or_syntax_error, mbind, M_bind, bind in E.
  destruct (answer (h ++ prepare_calls node input) _) as [|status]; [done|].
  destruct (answer _ _) as [|numstat]; [done|]. destruct (numstat_totals numstat) as [added removed].
  destruct (answer _ _) as [|diff] eqn:Ed in E; [done|]. destruct (mapM _ _); [|done]. simplify_eq/=.
  exists diff, [listing input; call input false ["diff"; "--cached"; "--numstat"]].
  rewrite <-!app_assoc in *. split_and!; [done| |done|done].
  repeat constructor; set_solver.
Qed.
End staged.

Lemma publish_call_at node input secret empty j c : publish_calls node input secret empty !! j = Some c →
  (head (args c) = Some "commit" → j = 6) ∧ (head (args c) = Some "push" → j = 8).
Proof. do 9 (destruct j as [|j]; [cbn; intros [= <-]; done|]). done. Qed.

(** Where the calls of a run that commit and push are. *)
Lemma harmless_end h l name i c : Forall harmless l → name ∈ ["commit"; "push"] →
  length h ≤ i → (h ++ l) !! i = Some c → head (args c) = Some name → False.
Proof.
  intros Hl Hn Hi Hc Hh. rewrite lookup_app_r in Hc by done. apply list_elem_of_lookup_2 in Hc.
  rewrite Forall_forall in Hl. apply (Hl c Hc). rewrite Hh. set_solver.
Qed.

Lemma publish_at node input secret empty h l n name i c : Forall harmless l → name ∈ ["commit"; "push"] →
  length h ≤ i → ((h ++ l) ++ take n (publish_calls node input secret empty)) !! i = Some c → head (args c) = Some name →
  (name = "commit" → i = length (h ++ l) + 6 ∧ 6 < n) ∧ (name = "push" → i = length (h ++ l) + 8 ∧ 8 < n).
Proof.
  intros Hl Hn Hi Hc Hh. destruct (decide (i < length (h ++ l))) as [Hlt|Hge].
  { rewrite lookup_app_l in Hc by done. by edestruct (harmless_end h l name i c). }
  rewrite lookup_app_r in Hc by lia. pose proof (lookup_lt_Some _ _ _ Hc) as Hlen. rewrite length_take in Hlen.
  rewrite lookup_take in Hc. case_decide as Hj; [|done].
  destruct (publish_call_at _ _ _ _ _ _ Hc) as [H6 H8].
  split; intros ->; [specialize (H6 Hh)|specialize (H8 Hh)]; lia.
Qed.

Lemma commit_at node input secret empty h l n i c : Forall harmless l → length h ≤ i →
  ((h ++ l) ++ take n (publish_calls node input secret empty)) !! i = Some c → head (args c) = Some "commit" →
  take i ((h ++ l) ++ take n (publish_calls node input secret empty)) = (h ++ l) ++ until_commit node input.
Proof.
  intros Hl Hi Hc Hh. destruct (proj1 (publish_at _ _ _ _ _ _ _ "commit" _ _ Hl ltac:(set_solver) Hi Hc Hh) eq_refl) as [-> Hn].
  rewrite take_app_add, take_take, Nat.min_l by lia. done.
Qed.

Lemma push_after_commit node input secret empty h l n i c : Forall harmless l → length h ≤ i →
  ((h ++ l) ++ take n (publish_calls node input secret empty)) !! i = Some c → head (args c) = Some "push" →
  ∃ j c', length h ≤ j < i ∧ ((h ++ l) ++ take n (publish_calls node input secret empty)) !! j = Some c' ∧
    head (args c') = Some "commit".
Proof.
  intros Hl Hi Hc Hh. destruct (proj2 (publish_at _ _ _ _ _ _ _ "push" _ _ Hl ltac:(set_solver) Hi Hc Hh) eq_refl) as [-> Hn].
  eexists (length (h ++ l) + 6), _. split; [rewrite length_app; lia|]. split.
  - rewrite lookup_app_r, lookup_take_lt by lia. by replace (length (h ++ l) + 6 - length (h ++ l)) with 6 by lia.
  - done.
Qed.

Lemma committed_diff `{Git} node input h k : settled node input →
  Forall (λ c, head (args c) ∈ [Some "status"; Some "diff"]) k →
  answer ((h ++ prepare_calls node input ++ k ++ [staged_diff input]) ++ until_commit node input) (staged_diff input) =
  answer (h ++ prepare_calls node input ++ k) (staged_diff input).
Proof.
  intros Hset Hk. assert (Forall (λ c, c ∈ prepare_calls node input ∨ head (args c) ∈ [Some "status"; Some "diff"]) k) as Hk'
    by (eapply Forall_impl; [exact Hk|by right]).
  rewrite (Hset h k Hk'), <-(Hset h (k ++ [staged_diff input] ++ until_commit node input)); [by rewrite <-!app_assoc|].
  apply Forall_app. split; [done|]. apply Forall_app. split; [repeat constructor; right; set_solver|].
  unfold until_commit. apply Forall_app. split; [apply Forall_forall; by left|repeat constructor; right; set_solver].
Qed.

(** A run that neither commits nor pushes. *)
Ltac none_made :=
  intros ? ? Hi Hc Hh; exfalso; refine (harmless_end _ _ _ _ _ _ _ Hi Hc Hh); [done|set_solver].


(** ** Examples *)

(** A repository with one changed file; the diff is what [diff] says. *)
Definition sample_git (diff : string) : Git := λ h c,
  match args c with
  | "status" :: _ => inr (" M src/a.ts" +:+ String newline_char "")
  | ["diff"; "--cached"; "--numstat"] => inr ("3" +:+ String (ascii_of_nat 9) "1" +:+ String (ascii_of_nat 9) "src/a.ts")
  | ["diff"; "--cached"; "--binary"] => inr diff
  | ["remote"; _; _] => inr "git@github.com:acme/app.git"
  | _ => inr ""
  end.

Definition sample_node (review : option (list ReviewRule)) : WorkflowGitPublishNode :=
  {| n_repository := "acme/app"; n_paths := None; n_allowEmpty := None; n_push := None; n_credentialMode := None;
     n_credentialRef := None; n_restrictedBranches := Some ["main"; "release/*"]; n_restrictedPaths := Some ["src/security/**"];
     n_prePublishReview := review |}.
Definition sample_rule : ReviewRule :=
  {| rule_name := "sources"; changed_paths_any := Some ["src/**"]; diff_lines_gt := None; rule_require := Some "human(Lead, ops)";
     rule_reviewer_tags := None; rule_timeout := None; rule_on_timeout := None |}.
Definition sample_input (branch : string) : RenderedGitPublishInput :=
  {| in_cwd := "/work/repo"; in_branch := branch; in_message := "change" |}.
Definition sample_run : WorkflowRunRecord := {| run_id := "run-1"; directoryPath := "/work/repo"; authorityContract := None |}.
Definition fresh : NodeState := {| approval := None; pre_publish_review := None; published := None |}.

Lemma publish_fenced_witness : let _ := sample_git "" in let node := sample_node None in let input := sample_input "feature" in
  ∃ empty n, (executeGitPublishNode node input None []).2 = [] ++ take n (publish_calls node input None empty) ∧
    (7 ≤ n → ∃ status, answer ([] ++ take 5 (until_commit node input)) (listing input) = inr status ∧
       ∀ path p, listed status path → p ∈ coalesce (n_restrictedPaths node) [] → ¬ glob_covers p path) ∧
    (9 ≤ n → n_push node ≠ Some false ∧ ∀ p, p ∈ coalesce (n_restrictedBranches node) [] → ¬ glob_covers p (in_branch input)) ∧
    ∀ result, (executeGitPublishNode node input None []).1 = inr result → n = (if p_pushed result then 9 else 8).
Proof.
  intros G node input. apply (publish_fenced (H := G) node input None [] _ (executeGitPublishNode node input None []).2);
    [reflexivity|reflexivity|apply surjective_pairing].
Defined.

Definition first_try := git_publish (H := sample_git "diff") id (λ _, "4") "/" sample_run "n" [] (sample_node (Some [sample_rule]))
  (sample_input "feature") None fresh [].

Lemma sample_settled diff node input : @settled (sample_git diff) node input.
Proof. intros h l _. reflexivity. Qed.

Definition second_try := git_publish (H := sample_git "diff") id (λ _, "4") "/" sample_run "n" [] (sample_node (Some [sample_rule]))
  (sample_input "feature") None
  {| approval := Some {| approved := Some true; expectedActionDigest := None; resolvedAt := None |};
     pre_publish_review := pre_publish_review first_try.1.2; published := published first_try.1.2 |} [].

Lemma run_parts (r : Run) : r = (r.1.1, r.1.2, r.2).
Proof. by destruct r as [[? ?] ?]. Qed.


(** A working tree that changes between the review and the commit: the diff that is
    committed is not the one that was reviewed. *)
Definition moving_git : Git := λ h c,
  match args c with
  | ["diff"; "--cached"; "--binary"] => inr (if (length h <? 10)%nat then "reviewed" else "changed since")
  | _ => sample_git "" h c
  end.
Lemma unreviewed_content_committed :
  let run := git_publish (H := moving_git) id (λ _, "4") "/" sample_run "n" [] (sample_node (Some []))
    (sample_input "feature") None fresh [] in
  (pr_facts <$> pre_publish_review run.1.2) ≫= (λ f, Some (diffDigest f)) = Some "sha256:reviewed" ∧
  ∃ i c, run.2 !! i = Some c ∧ head (args c) = Some "commit" ∧
    answer (Git := moving_git) (take i run.2) (staged_diff (sample_input "feature")) = inr "changed since".
Proof. vm_compute. split; [done|]. by eexists 13, _. Qed.

Definition ended (r : Run) : string + option (list string) :=
  match r.1.1 with inl e => inl e | inr Completed => inr None | inr (Blocked _ tags _ _) => inr (Some tags) end.
Definition try_again (diff : string) (state : NodeState) : Run :=
  git_publish (H := sample_git diff) id (λ _, "4") "/" sample_run "n" [] (sample_node (Some [sample_rule]))
    (sample_input "feature") None state [].
Definition approve (state : NodeState) : NodeState :=
  {| approval := Some {| approved := Some true; expectedActionDigest := None; resolvedAt := None |};
     pre_publish_review := pre_publish_review state; published := published state |}.

(** The node waits for the reviewers of its rule; approved, it publishes the same diff and
    waits again for another. *)
Example review_cycle :
  ended first_try = inr (Some ["Lead"; "ops"]) ∧
  ended (try_again "diff" (approve first_try.1.2)) = inr None ∧
  ended (try_again "other" (approve first_try.1.2)) = inr (Some ["Lead"; "ops"]).
Proof. vm_compute. repeat split. Qed.

(** ** What the code does not do *)

(** Of a renamed file only the new path is seen: moving a file out of a restricted
    directory is not a change of a restricted path. *)
Lemma rename_leaves_restricted :
  changed_paths_of ("R  src/security/key.ts -> src/key.ts" +:+ String newline_char "") = ["src/key.ts"].
Proof. by vm_compute. Qed.

(** git quotes a path with unusual characters; the quotes are dropped and the escapes are
    taken for directories. *)
Lemma quoted_path_misread :
  changed_paths_of ("?? " +:+ String quote ("caf\303\251/a.ts" +:+ String quote "")) = ["caf/303/251/a.ts"].
Proof. by vm_compute. Qed.

(** With a grant for the run the remote is not compared with the declared repository. *)
Lemma grant_skips_remote `{Git} processCwd run nodeId targets node input h contract :
  workflowAuthorityContract run = Some contract → allowedRepositories run = [] → in_cwd input = directoryPath run →
  n_credentialMode node = Some run_scoped_grant → truthy_opt (n_credentialRef node) = true →
  gitPublishAuthorityDenial processCwd run nodeId targets node input h = (inr None, h).
Proof.
  intros Hc Hr Hcwd Hm Href. unfold gitPublishAuthorityDenial, outside_repositories. rewrite Hc, Hr, Hcwd, Hm, Href.
  assert (isPathWithin processCwd (directoryPath run) (directoryPath run) = true) as ->; [|done].
  apply isPathWithin_iff. exists []. by rewrite app_nil_r.
Qed.

Definition contract_allowing (repository : string) : json := JObj [("repos", JObj [("allowed", JArr [JStr repository])])].

(** A remote that is not recognised as GitHub's is taken as it is: a checkout under the
    name of an allowed repository can be of any other, and the token goes to its host. *)
Lemma unknown_remote_gets_token :
  checkoutAuthorityDenial "/" {| run_id := "r"; directoryPath := "/work"; authorityContract := Some (contract_allowing "acme/app") |} "n"
    {| c_repository := "acme/app"; c_remote := Some "https://host.example/other/repo"; c_path := None |} = None ∧
  checkoutRemote "acme/app" (Some "https://host.example/other/repo") true = "https://host.example/other/repo".
Proof. by vm_compute. Qed.

(** The repository of an update target keeps its capitals, so that it is never the one
    the node publishes to. *)
Lemma capital_target_conflicts :
  target_conflict (normalizeRepository (Some "Acme/App")) ["docs/a.md"] {| t_repository := "Acme/App"; t_path := None; t_scope := scope_repo |} = Some "docs/a.md".
Proof. by vm_compute. Qed.
