(* ===== verification/SessionPolicy.v ===== *)
(** * Modes, timeouts and budgets of the sessions of a workflow

    [workflows/session-policy.ts].  A session runs in a mode, with a timeout and with the
    strictest of the budgets that the workflow and its contract of authority set;
    [budget_strictest] says that the limit of each kind is the least of those given. *)

From S2P Require Import Prelude JsString JsMap Json JsNumber Authority.
From stdpp Require Import prelude strings list.
From Stdlib Require Import ZArith Lia Floats.SpecFloat.

(** ** Modes and timeouts *)

Inductive SessionExecutionMode := plan | read_only | review | implement.
#[export] Instance SessionExecutionMode_eq_dec : EqDecision SessionExecutionMode.
Proof. solve_decision. Defined.

Definition WORKFLOW_SESSION_TIMEOUT_DEFAULTS_SECONDS (mode : SessionExecutionMode) : spec_float :=
  num_of_Z match mode with plan => 600 | read_only => 900 | review => 900 | implement => 1800 end.

Record ResolvedWorkflowSessionPolicy := {
  executionMode : SessionExecutionMode; timeoutSeconds : spec_float;
  executionModeDefaulted : bool; timeoutDefaulted : bool
}.

Definition resolveWorkflowSessionPolicy (mode : option SessionExecutionMode) (timeout : option spec_float)
    (defaultMode : option SessionExecutionMode) : ResolvedWorkflowSessionPolicy :=
  let m := coalesce (or_else mode defaultMode) implement in
  {| executionMode := m; timeoutSeconds := coalesce timeout (WORKFLOW_SESSION_TIMEOUT_DEFAULTS_SECONDS m);
     executionModeDefaulted := bool_decide (mode = None); timeoutDefaulted := bool_decide (timeout = None) |}.

Definition resolveInlineAgentExecutionMode (explicit parent : option SessionExecutionMode) : SessionExecutionMode :=
  match explicit with
  | Some m => m
  | None => match parent with Some plan => plan | Some read_only => read_only | Some review => review | Some implement | None => review end
  end.

(** ** Budgets *)

Record WorkflowSessionBudget := {
  maxTokens : option spec_float; maxCostUsd : option spec_float; maxTurns : option spec_float
}.
(** A budget as a workflow writes it: two of the limits have a second name. *)
Record BudgetInput := {
  bi_maxTokens : option spec_float; bi_tokens : option spec_float;
  bi_maxCostUsd : option spec_float; bi_usd : option spec_float; bi_maxTurns : option spec_float
}.

Definition is_finite (x : spec_float) : bool := match x with S754_zero _ | S754_finite _ _ _ => true | _ => false end.
Definition positive (x : spec_float) : bool := is_finite x && num_lt (S754_zero false) x.
Definition positiveNumber (x : option spec_float) : option spec_float :=
  match x with Some n => if positive n then Some n else None | None => None end.
Definition json_number (v : option json) : option spec_float := match v with Some (JNum n) => Some n | _ => None end.

Definition resolveWorkflowSessionBudget (input : option BudgetInput) : option WorkflowSessionBudget :=
  let get f g := input ≫= λ i, or_else (f i) (g i) in
  let tokens := positiveNumber (get bi_maxTokens bi_tokens) in
  let cost := positiveNumber (get bi_maxCostUsd bi_usd) in
  let turns := positiveNumber (get bi_maxTurns (λ _, None)) in
  match tokens, cost, turns with
  | None, None, None => None
  | _, _, _ => Some {| maxTokens := tokens; maxCostUsd := cost; maxTurns := turns |}
  end.

(** [a?.['x'] ?? a?.['y'] ?? ...] *)
Definition first_field (f : option record) (keys : list string) : option json :=
  foldr (λ key rest, match f ≫= λ f, field f key with Some JNull | None => rest | Some v => Some v end) None keys.
Definition recordValue (v : option json) : option record := match v with Some (JObj f) => Some f | _ => None end.

(** The last of the alternatives is read even when it is null, which is no number. *)
Definition resolveWorkflowAuthoritySessionBudget (contract : option json) : option WorkflowSessionBudget :=
  let budget := recordValue (first_field (recordValue contract) ["budget"; "budgets"]) in
  let limit keys := positiveNumber (json_number (first_field budget keys)) in
  let maxInputTokens := limit ["maxInputTokens"; "max_input_tokens"; "input_tokens"] in
  let maxOutputTokens := limit ["maxOutputTokens"; "max_output_tokens"; "output_tokens"] in
  let tokenCap :=
    or_else (limit ["maxTokens"; "max_tokens"; "tokens"; "maxTotalTokens"; "max_total_tokens"])
      (match maxInputTokens, maxOutputTokens with
       | None, None => None
       | i, o => Some (num_add (coalesce i (S754_zero false)) (coalesce o (S754_zero false)))
       end) in
  resolveWorkflowSessionBudget (Some
    {| bi_maxTokens := tokenCap; bi_tokens := None;
       bi_maxCostUsd := limit ["maxCostUsd"; "max_cost_usd"; "costUsd"; "cost_usd"; "usd"]; bi_usd := None;
       bi_maxTurns := limit ["maxTurns"; "max_turns"] |}).

(** [Math.min] of two numbers that are not NaN or zero. *)
Definition num_min (x y : spec_float) : spec_float := if num_lt y x then y else x.

Definition stricterPositiveNumber (current candidate : option spec_float) : option spec_float :=
  match candidate, current with
  | None, _ => current
  | Some c, None => Some c
  | Some c, Some x => Some (num_min x c)
  end.

Definition stricter (merged : option WorkflowSessionBudget) (b : WorkflowSessionBudget) : option WorkflowSessionBudget :=
  Some {| maxTokens := stricterPositiveNumber (merged ≫= maxTokens) (maxTokens b);
          maxCostUsd := stricterPositiveNumber (merged ≫= maxCostUsd) (maxCostUsd b);
          maxTurns := stricterPositiveNumber (merged ≫= maxTurns) (maxTurns b) |}.

(** The empty object at the start has no keys; every budget writes all three. *)
Definition mergeWorkflowSessionBudgets (budgets : list (option WorkflowSessionBudget)) : option WorkflowSessionBudget :=
  fold_left stricter (omap id budgets) None.

Definition resolveWorkflowRunSessionBudget (workflowBudget : option BudgetInput) (authorityContract : option json) :
    option WorkflowSessionBudget :=
  mergeWorkflowSessionBudgets [resolveWorkflowSessionBudget workflowBudget; resolveWorkflowAuthoritySessionBudget authorityContract].

(** ** The strictest limit *)

Definition least (m : option spec_float) (limits : list spec_float) : Prop :=
  match m with
  | None => limits = []
  | Some x => x ∈ limits ∧ ∀ y, y ∈ limits → num_lt y x = false
  end.

Lemma positive_not_nan x : positive x = true → is_nan x = false.
Proof. by destruct x. Qed.

Lemma least_stricter m c limits : Forall (λ x, positive x = true) limits → (∀ x, c = Some x → positive x = true) →
  least m limits → least (stricterPositiveNumber m c) (limits ++ option_list c).
Proof.
  intros Hl Hc Hm. destruct c as [c|]; cbn [option_list app]; [|by rewrite app_nil_r].
  specialize (Hc c eq_refl). destruct m as [x|]; cbn [stricterPositiveNumber].
  2: { unfold least in *. subst. split; [set_solver|]. intros y ->%list_elem_of_singleton. apply num_lt_irrefl. }
  destruct Hm as [Hx Hmin]. pose proof (proj1 (Forall_forall _ _) Hl) as Hpos.
  assert (is_nan c = false) as Nc by by apply positive_not_nan. assert (is_nan x = false) as Nx by (apply positive_not_nan; auto).
  unfold num_min. destruct (num_lt c x) eqn:Ecx; (split; [set_solver|]); intros y [Hy| ->%list_elem_of_singleton]%elem_of_app.
  - assert (is_nan y = false) as Ny by (apply positive_not_nan; auto). apply not_true_iff_false. intros Hyc.
    pose proof (num_lt_trans _ _ _ Ny Nc Nx Hyc Ecx). rewrite Hmin in *; done.
  - apply num_lt_irrefl.
  - auto.
  - done.
Qed.

(** The limits of one kind that a list of budgets sets. *)
Definition limits_of (kind : WorkflowSessionBudget → option spec_float) (budgets : list (option WorkflowSessionBudget)) : list spec_float :=
  omap (λ b, b ≫= kind) budgets.
Definition well_formed (b : WorkflowSessionBudget) : Prop :=
  ∀ kind x, kind ∈ [maxTokens; maxCostUsd; maxTurns] → kind b = Some x → positive x = true.

Lemma merge_least kind budgets : kind ∈ [maxTokens; maxCostUsd; maxTurns] →
  (∀ b, Some b ∈ budgets → well_formed b) → least (mergeWorkflowSessionBudgets budgets ≫= kind) (limits_of kind budgets).
Proof.
  intros Hk. unfold mergeWorkflowSessionBudgets, limits_of. induction budgets as [|[b|] budgets IH] using rev_ind; [done| |].
  - intros Hw. rewrite !omap_app, fold_left_app. cbn [omap list_omap fold_left id option_bind mbind app].
    assert (Forall (λ x, positive x = true) (omap (λ b, b ≫= kind) budgets)) as Hpos.
    { apply Forall_forall. intros x ([b'|] & Hin & Hx)%list_elem_of_omap; [|done]. apply (Hw b' ltac:(set_solver) kind x Hk Hx). }
    assert ((stricter (fold_left stricter (omap id budgets) None) b ≫= kind) =
            stricterPositiveNumber (fold_left stricter (omap id budgets) None ≫= kind) (kind b)) as E.
    { clear -Hk. repeat (apply elem_of_cons in Hk as [->|Hk]; [reflexivity|]). by apply not_elem_of_nil in Hk. }
    setoid_rewrite E. replace (match kind b with Some y => [y] | None => [] end) with (option_list (kind b)) by by destruct (kind b).
    apply least_stricter; [done| |apply IH; set_solver]. intros x Hx. exact (Hw b ltac:(set_solver) kind x Hk Hx).
  - intros Hw. rewrite !omap_app. cbn. rewrite !app_nil_r. apply IH. set_solver.
Qed.

Lemma positiveNumber_positive v x : positiveNumber v = Some x → positive x = true.
Proof. destruct v as [n|]; cbn; [|done]. case_match; by intros [= <-]. Qed.

Lemma resolved_well_formed input b : resolveWorkflowSessionBudget input = Some b → well_formed b.
Proof.
  unfold resolveWorkflowSessionBudget. intros E kind x Hk Hx.
  assert (∃ v, kind b = positiveNumber v) as [v Ev].
  { clear Hx. repeat case_match; simplify_eq; repeat (apply elem_of_cons in Hk as [->|Hk]; [cbn; eauto|]); by apply not_elem_of_nil in Hk. }
  eapply positiveNumber_positive. by rewrite <- Ev.
Qed.

(** Each limit of a run's budget is the least of the limits that the workflow and the
    contract of authority set for it, positive and finite, and there is none only when
    neither sets one. *)
Theorem budget_strictest workflowBudget authorityContract :
  let budgets := [resolveWorkflowSessionBudget workflowBudget; resolveWorkflowAuthoritySessionBudget authorityContract] in
  let resolved := resolveWorkflowRunSessionBudget workflowBudget authorityContract in
  Forall (λ kind, least (resolved ≫= kind) (limits_of kind budgets) ∧ ∀ x, resolved ≫= kind = Some x → positive x = true)
    [maxTokens; maxCostUsd; maxTurns].
Proof.
  intros budgets resolved. apply Forall_forall. intros kind Hk.
  assert (∀ b, Some b ∈ budgets → well_formed b) as Hw.
  { intros b Hb. subst budgets. repeat (apply elem_of_cons in Hb as [Hb|Hb]; [symmetry in Hb; by eapply resolved_well_formed|]).
    by apply not_elem_of_nil in Hb. }
  pose proof (merge_least kind budgets Hk Hw) as Hl. split; [exact Hl|]. intros x Hx.
  change (mergeWorkflowSessionBudgets budgets) with resolved in Hl. rewrite Hx in Hl. destruct Hl as [Hin _].
  unfold limits_of in Hin. apply list_elem_of_omap in Hin as ([b|] & Hin & Hb); [|done]. by apply (Hw b Hin kind).
Qed.

Example budgets_merged :
  resolveWorkflowRunSessionBudget
    (Some {| bi_maxTokens := None; bi_tokens := Some (num_of_Z 5000); bi_maxCostUsd := None; bi_usd := None; bi_maxTurns := None |})
    (Some (JObj [("budget", JObj [("max_input_tokens", JNum (num_of_Z 1000)); ("output_tokens", JNum (num_of_Z 500)); ("max_turns", JNum (num_of_Z 3))])])) =
  Some {| maxTokens := Some (num_of_Z 1500); maxCostUsd := None; maxTurns := Some (num_of_Z 3) |}.
Proof. reflexivity. Qed.

(** An inline agent that names no mode never gets the right to write, and keeps its
    parent's mode when that only reads. *)
Lemma inline_agent_reads parent : resolveInlineAgentExecutionMode None parent ≠ implement ∧
  ∀ m, parent = Some m → m ≠ implement → resolveInlineAgentExecutionMode None parent = m.
Proof. destruct parent as [[]|]; split; try done; by intros ? [= <-]. Qed.
