(* ===== verification/ActionDigest.v ===== *)
(** * Proposals of actions: what is shown, what is hashed, what is remembered

    [workflows/action-digest.ts], [action-policy.ts] and [action-execution-ledger.ts].
    The digest identifies a proposed action; secrets are left out of it, as of everything
    shown.  The ledger of a run keeps the actions executed under an idempotency key. *)

From S2P Require Import Prelude JsString JsMap Json JsonText JsonStringify CanonicalJson RegExp Authority.
From stdpp Require Import prelude strings list.
From Stdlib Require Import ZArith NArith Lia Ascii.

(** ** Secrets *)

Definition dash_or_underscore : re := Opt (Chr (one_of "_-")).
Definition SECRET_KEY_PATTERN : re :=
  Group (Alt (lit_i "authorization") (Alt (lit_i "token") (Alt (lit_i "secret") (Alt (lit_i "password")
    (Alt (cats [lit_i "api"; dash_or_underscore; lit_i "key"]) (cats [lit_i "private"; dash_or_underscore; lit_i "key"])))))).
Definition secret_key (key : string) : bool := test SECRET_KEY_PATTERN (utf16 key).

Fixpoint sanitizeActionInput (value : json) : json :=
  match value with
  | JArr l => JArr (map sanitizeActionInput l)
  | JObj f => JObj (map (λ kv, (kv.1, if secret_key kv.1 then JStr "[redacted]" else sanitizeActionInput kv.2)) f)
  | v => v
  end.

(** ** Nodes and digests *)

Record ActionNode := {
  an_node : WorkflowActionNode;
  an_proposalKey : option string;
  an_requiresApproval : bool;
  an_policyReason : option string;
  an_policyApprovalRequired : bool
}.

Definition actionPolicyReason (node : ActionNode) : option string :=
  match truthy_opt (trim <$> an_policyReason node), an_requiresApproval node, an_policyApprovalRequired node with
  | true, _, _ => trim <$> an_policyReason node
  | _, true, _ => Some "This side effect is configured to require human approval before execution."
  | _, _, true => Some "Workflow policy requires human approval before this side effect executes."
  | _, _, _ => None
  end.

Section digests.
(** SHA-256 in hexadecimal, and [String.prototype.localeCompare]. *)
Context (sha256_hex : string → string) (localeCompare : string → string → Z).

(** [Array.prototype.sort], which is stable, by the names. *)
Fixpoint insert_entry (x : string * json) (l : record) : record :=
  match l with
  | [] => [x]
  | y :: l' => if (0 <? localeCompare x.1 y.1)%Z then y :: insert_entry x l' else x :: l
  end.
Definition sort_entries (f : record) : record := foldr insert_entry [] f.

Fixpoint sortKeys (value : json) : json :=
  match value with
  | JArr l => JArr (map sortKeys l)
  | JObj f => JObj (own_order (sort_entries (map (λ kv, (kv.1, sortKeys kv.2)) f)))
  | v => v
  end.
Definition stableJson (value : json) : string := JSON_stringify (sortKeys value).

Definition or_null (s : option string) : json := match s with Some s => JStr s | None => JNull end.

Definition workflowActionProposalDigest (node : ActionNode) (idempotencyKey : option string) (input : record) : string :=
  "sha256:" +:+ sha256_hex (stableJson (JObj
    [("adapter", JStr (adapter (an_node node))); ("action", JStr (action (an_node node)));
     ("idempotencyKey", or_null idempotencyKey); ("requiresApproval", JBool (an_requiresApproval node));
     ("input", sanitizeActionInput (JObj input))])).

(** ** Results and the ledger *)

Record ResponseMeta := {
  rs_status : Z; rs_ok : bool; rs_attempts : option Z; rs_bodyExcerpt : list unit16; rs_fields : record
}.

(** What reading back after an action found. *)
Record ProviderReconciliation := {
  rc_status : string; rc_method : string; rc_checkedAt : string;
  rc_providerReference : option string; rc_providerUrl : option string;
  rc_targetDigest : option string; rc_payloadDigest : option string;
  rc_error : option (list unit16); rc_payload : option json
}.

Record ActionMeta := {
  am_node : ActionNode;
  am_idempotencyKey : option string;
  am_policyReason : option string;
  am_status : string;
  am_digest : option string;
  am_input : json;
  am_request : option (string * string);
  am_response : option ResponseMeta;
  am_reconciliation : option ProviderReconciliation;
  am_duplicateOf : option (string * Z);
  am_denial : option WorkflowAuthorityDenial;
  am_credentialReason : option string;
  am_replay : bool;
  am_grant : option json
}.
Record ActionResult := { output : string; metadata : ActionMeta }.

Record LedgerEntry := {
  le_nodeId : string; le_node : WorkflowActionNode; le_idempotencyKey : string; le_digest : string;
  le_output : string; le_executedAt : Z; le_response : option ResponseMeta
}.
Definition Ledger : Type := list (string * LedgerEntry).

Definition actionLedgerKey (idempotencyKey : option string) : option string :=
  match idempotencyKey with Some k => if truthy_str k then Some ("idempotency:" +:+ k) else None | None => None end.

Definition meta (node : ActionNode) (key : option string) (status : string) (input : record) : ActionMeta :=
  {| am_node := node; am_idempotencyKey := key; am_policyReason := actionPolicyReason node; am_status := status;
     am_digest := Some (workflowActionProposalDigest node key input); am_input := sanitizeActionInput (JObj input);
     am_request := None; am_response := None; am_reconciliation := None; am_duplicateOf := None; am_denial := None; am_credentialReason := None;
     am_replay := false; am_grant := None |}.

(** The grant of an approved node goes with its results. *)
Definition approvedExecutionGrant (grant : option json) (requiresApproval : bool) : option json :=
  if requiresApproval then grant else None.

Inductive Duplicate := NotYet | Reused (key : string) | Repeated (result : ActionResult).

Definition named (node : ActionNode) : string := adapter (an_node node) +:+ "." +:+ action (an_node node).

Definition suppressDuplicateAction (ledger : Ledger) (grant : option json) (node : ActionNode) (idempotencyKey : option string)
    (input : record) : Duplicate :=
  match actionLedgerKey idempotencyKey with
  | None => NotYet
  | Some key =>
      match jm_get key ledger with
      | None => NotYet
      | Some existing =>
          let digest := workflowActionProposalDigest node idempotencyKey input in
          if negb (bool_decide (le_digest existing = digest)) then Reused (coalesce idempotencyKey "")
          else
            Repeated {| output := le_output existing;
                        metadata :=
                          {| am_node := node; am_idempotencyKey := idempotencyKey; am_policyReason := actionPolicyReason node;
                             am_status := "already_executed"; am_digest := Some digest; am_input := sanitizeActionInput (JObj input);
                             am_request := None; am_response := le_response existing; am_reconciliation := None;
                             am_duplicateOf := Some (le_nodeId existing, le_executedAt existing); am_denial := None;
                             am_credentialReason := None; am_replay := false;
                             am_grant := approvedExecutionGrant grant (an_requiresApproval node) |} |}
      end
  end.

Definition rememberExecutedAction (now : Z) (ledger : Ledger) (nodeId : string) (node : ActionNode) (idempotencyKey : option string)
    (input : record) (out : string) (response : option ResponseMeta) : Ledger :=
  match actionLedgerKey idempotencyKey with
  | None => ledger
  | Some key =>
      jm_set key
        {| le_nodeId := nodeId; le_node := an_node node; le_idempotencyKey := coalesce idempotencyKey "";
           le_digest := workflowActionProposalDigest node idempotencyKey input; le_output := out;
           le_executedAt := now; le_response := response |} ledger
  end.
End digests.

(** ** What the digest leaves out *)

(** Actions that differ in secrets only have one digest: under one key the second is taken
    for a repetition of the first. *)
Lemma digest_of_shown sha256_hex localeCompare node key a b : sanitizeActionInput (JObj a) = sanitizeActionInput (JObj b) →
  workflowActionProposalDigest sha256_hex localeCompare node key a = workflowActionProposalDigest sha256_hex localeCompare node key b.
Proof. unfold workflowActionProposalDigest. by intros ->. Qed.

Lemma map_id_on {A} (f : A → A) l : (∀ x, x ∈ l → f x = x) → map f l = l.
Proof. induction l as [|x l IH]; intros H; [done|]. cbn. rewrite H, IH; set_solver. Qed.

(** Nothing that stands under the name of a secret is shown, however deep. *)
Fixpoint shows_no_secret (v : json) : bool :=
  match v with
  | JArr l => forallb shows_no_secret l
  | JObj f => forallb (λ kv, if secret_key kv.1 then match kv.2 with JStr s => String.eqb s "[redacted]" | _ => false end
                             else shows_no_secret kv.2) f
  | _ => true
  end.

Lemma sanitized_shows_none v : shows_no_secret (sanitizeActionInput v) = true.
Proof.
  induction v as [|b|x|s|l IH|f IH] using json_nested_ind; try done; cbn [sanitizeActionInput shows_no_secret]; rewrite forallb_forall.
  - intros y (x & <- & Hx)%in_map_iff. rewrite Forall_forall in IH. apply IH. by apply list_elem_of_In.
  - intros y (x & <- & Hx)%in_map_iff. rewrite Forall_forall in IH. cbn. destruct (secret_key x.1); [done|].
    apply IH. by apply list_elem_of_In.
Qed.

Lemma sanitize_shown v : shows_no_secret v = true → sanitizeActionInput v = v.
Proof.
  induction v as [|b|x|s|l IH|f IH] using json_nested_ind; try done; cbn [sanitizeActionInput shows_no_secret]; rewrite forallb_elem_of;
    intros Hv; f_equal; rewrite Forall_forall in IH.
  - apply map_id_on. intros y Hy. apply IH; [done|by apply Hv].
  - apply map_id_on. intros [k y] Hy. specialize (Hv _ Hy). cbn in *. destruct (secret_key k).
    + destruct y; try done. apply String.eqb_eq in Hv. by subst.
    + f_equal. exact (IH _ Hy Hv).
Qed.
