(* ===== verification/Actions.v ===== *)
(** * Executing actions

    [workflows/action-adapters.ts], [action-provider-adapters.ts], [action-provider-utils.ts]
    and [provider-reconciliation.ts].  An action is judged against the contract of
    authority, looked up in the ledger, and then proposed, or executed as HTTP requests.
    The network is an argument: the answer to a request, given the requests before it.
    So are secrets, the clock, SHA-256, base64 and [localeCompare], and the text that
    [renderRuntimeMessage] makes of a message; inputs are rendered before. *)

From S2P Require Import Prelude JsString JsMap Json JsonText JsonStringify JsNumber CanonicalJson RegExp Authority ActionDigest.
From stdpp Require Import prelude strings list pretty.
From Stdlib Require Import ZArith NArith Lia Ascii.

(** ** Requests *)

Definition Headers : Type := list (string * string).
Record HttpRequest := { req_method : string; req_url : string; req_headers : Headers; req_body : option string }.
#[export] Instance HttpRequest_eq_dec : EqDecision HttpRequest.
Proof. solve_decision. Defined.
Record HttpResponse := { resp_status : Z; resp_text : string }.
Definition resp_ok (r : HttpResponse) : bool := (200 <=? resp_status r)%Z && (resp_status r <=? 299)%Z.

Class Net := reply : list HttpRequest → HttpRequest → string + HttpResponse.

Record World := { requests : list HttpRequest; ledger : Ledger; log : list (string * string) }.
Record Failure := { why : string; failed : option ActionResult }.

Definition M (A : Type) : Type := World → (Failure + A) * World.
Definition ret {A} (a : A) : M A := λ w, (inr a, w).
Definition bind {A B} (x : M A) (f : A → M B) : M B :=
  λ w, match x w with (inr a, w') => f a w' | (inl e, w') => (inl e, w') end.
#[local] Instance M_bind : MBind M := λ A B f x, bind x f.
Definition throw {A} (message : string) (result : option ActionResult) : M A :=
  λ w, (inl {| why := message; failed := result |}, w).
Definition addEvent (type message : string) : M unit :=
  λ w, (inr tt, {| requests := requests w; ledger := ledger w; log := log w ++ [(type, message)] |}).

(** A request, whose failure is a value. *)
Definition try_fetch `{Net} (r : HttpRequest) : M (string + HttpResponse) :=
  λ w, (inr (reply (requests w) r), {| requests := requests w ++ [r]; ledger := ledger w; log := log w |}).
Definition fetch `{Net} (r : HttpRequest) : M HttpResponse :=
  answer ← try_fetch r; match answer with inr response => ret response | inl message => throw message None end.

(** ** Texts of requests *)

Definition hex_upper (n : nat) : ascii := byte_of (if n <? 10 then 48 + n else 55 + n).
Definition percent (a : ascii) : string :=
  String "%" (String (hex_upper (code a / 16)) (String (hex_upper (code a mod 16)) "")).
Definition alphanumeric (a : ascii) : bool :=
  let n := code a in (48 <=? n) && (n <=? 57) || (65 <=? n) && (n <=? 90) || (97 <=? n) && (n <=? 122).
Fixpoint encode_with (keep : ascii → bool) (space_as : string) (s : string) : string :=
  match s with
  | String a s => (if keep a then String a "" else if Ascii.eqb a " " then space_as else percent a) +:+ encode_with keep space_as s
  | EmptyString => ""
  end.
Definition encodeURIComponent : string → string :=
  encode_with (λ a, alphanumeric a || has_char a "-_.!~*'()") "%20".
(** [new URLSearchParams(entries).toString()] *)
Definition search_params (entries : list (string * string)) : string :=
  let encode := encode_with (λ a, alphanumeric a || has_char a "*-._") "+" in
  JsString.join "&" ((λ e, encode e.1 +:+ "=" +:+ encode e.2) <$> entries).

(** [{ ...a, ...b }] *)
Definition spread {V} (a b : list (string * V)) : list (string * V) := fold_left (λ m kv, jm_set kv.1 kv.2 m) b a.
Definition compactObject (fields : list (string * option json)) : record :=
  omap (λ kv, pair kv.1 <$> kv.2) fields.

Definition header_named (key : string) (h : string * string) : bool := bool_decide (lower h.1 = key).
Definition withIdempotencyHeader (headers : Headers) (idempotencyKey : option string) : Headers :=
  match idempotencyKey with
  | Some k =>
      if truthy_str k && negb (existsb (header_named "idempotency-key") headers) then spread headers [("Idempotency-Key", k)] else headers
  | None => headers
  end.
Definition idempotencyKeyFromHeaders (headers : Headers) : option string :=
  snd <$> find_first (header_named "idempotency-key") headers.

Definition githubHeaders (token : string) : Headers := [("Authorization", "Bearer " +:+ token); ("X-GitHub-Api-Version", "2022-11-28")].

(** [typeof value === 'string' && value.trim() !== '' ? value : undefined] *)
Definition stringValue (value : option json) : option string :=
  match value with Some (JStr s) => if nonblank s then Some s else None | _ => None end.
Definition booleanValue (value : option json) : option bool := match value with Some (JBool b) => Some b | _ => None end.
Definition parse_json (text : string) : json := coalesce (JSON_parse text) JNull.
Definition member (value : json) (key : string) : option json := match value with JObj f => field f key | _ => None end.
Definition objectString (value : json) (key : string) : option string := member value key ≫= string_of.
Definition objectNumber (value : json) (key : string) : json := match member value key with Some (JNum n) => JNum n | _ => JNull end.
Definition objectBoolean (value : json) (key : string) : option bool := booleanValue (member value key).

(** [sourceGitHubPullRequestNumber] and the like: the first path with a usable value. *)
Definition stringAt (value : json) (path : list string) : option string := stringValue (readPath (Some value) path).
Definition scalarStringAt (value : json) (path : list string) : option string :=
  match readPath (Some value) path with
  | Some (JStr s) => if nonblank s then Some s else None
  | Some (JNum n) =>
      match num_to_Z n with
      | Some z => if (0 <? z)%Z then Some (String.string_of_list_ascii (number_chars n)) else None
      | None => None
      end
  | _ => None
  end.
Definition first_at (at_ : json → list string → option string) (value : json) (paths : list (list string)) : option string :=
  foldr (λ path rest, or_else (at_ value path) rest) None paths.

Definition sourceGitHubPullRequestNumber (inputs : json) : option string :=
  first_at scalarStringAt inputs
    [["integration_event"; "payload"; "pull_request"; "number"]; ["integration_event"; "payload"; "issue"; "number"];
     ["integration_event"; "payload"; "number"]; ["integration_event"; "pull_request"; "number"];
     ["integration_event"; "issue"; "number"]; ["integration_event"; "number"]].
Definition sourceSlackChannel (inputs : json) : option string :=
  first_at stringAt inputs
    [["integration_event"; "payload"; "event"; "channel"]; ["integration_event"; "event"; "channel"];
     ["issue"; "payload"; "event"; "channel"]; ["issue"; "event"; "channel"]].
Definition sourceSlackThreadTs (inputs : json) : option string :=
  first_at stringAt inputs
    [["integration_event"; "payload"; "event"; "thread_ts"]; ["integration_event"; "payload"; "event"; "threadTs"];
     ["integration_event"; "payload"; "event"; "ts"]; ["integration_event"; "event"; "thread_ts"];
     ["integration_event"; "event"; "threadTs"]; ["integration_event"; "event"; "ts"];
     ["issue"; "payload"; "event"; "thread_ts"]; ["issue"; "payload"; "event"; "threadTs"];
     ["issue"; "payload"; "event"; "ts"]; ["issue"; "event"; "thread_ts"]; ["issue"; "event"; "threadTs"]; ["issue"; "event"; "ts"]].

Definition splitRepository (repository : option string) : option string * option string :=
  match repository with
  | Some r =>
      match split_on "/" r with
      | [owner; repo] | owner :: repo :: "" :: _ => if truthy_str owner && truthy_str repo then (Some owner, Some repo) else (None, None)
      | _ => (None, None)
      end
  | None => (None, None)
  end.

Definition isGitHubPullRequestCreateAction (a : string) : bool :=
  bool_decide (a ∈ ["create_pr"; "create_pull_request"; "pull_request.create"; "pull-request.create"; "pr.create"; "open_pr"]).
Definition isGitHubCommentAction (a : string) : bool :=
  bool_decide (a ∈ ["comment"; "comment_issue"; "issue.comment"; "pull_request.comment"]).

Definition isGitHubUserToken (token : string) : bool :=
  startsWith token "ghp_" || startsWith token "github_pat_" || startsWith token "gho_".
(** [/(^|\/)local-dev($|\/|-)/.test(ref.trim())], by the parts between slashes. *)
Definition local_dev_ref (ref : string) : bool :=
  existsb (λ s, bool_decide (s = "local-dev") || startsWith s "local-dev-") (split_on "/" (trim ref)).
Definition text_field (input : record) (key : string) : option string := field input key ≫= string_of.
Definition isLocalDevelopmentGitHubCredentialRef (input : record) : bool :=
  local_dev_ref (or_empty (or_else (text_field input "credential_ref") (text_field input "credentialRef"))).

Definition upper_ascii (a : ascii) : ascii := let n := code a in if (97 <=? n) && (n <=? 122) then byte_of (n - 32) else a.
Fixpoint upper (s : string) : string := match s with String a s => String (upper_ascii a) (upper s) | EmptyString => "" end.
Definition word_char (a : ascii) : bool := alphanumeric a || Ascii.eqb a "_".
Definition envNameForCredentialRef (sha256_hex : string → string) (ref : string) : string :=
  let trimmed := trim ref in
  if truthy_str trimmed && forallb word_char (String.list_ascii_of_string trimmed) then "VIEWPORT_CREDENTIAL_" +:+ upper trimmed
  else "VIEWPORT_CREDENTIAL_REF_" +:+ upper (String.substring 0 24 (sha256_hex trimmed)).

(** ** Reading back *)

Definition github_identity (kind : string) (value : json) : option record :=
  let apiUrl := objectString value "url" in
  let htmlUrl := objectString value "html_url" in
  if truthy_opt apiUrl || truthy_opt htmlUrl then
    Some [("provider", JStr "github"); ("kind", JStr kind); ("apiUrl", or_null apiUrl); ("htmlUrl", or_null htmlUrl);
          ("number", objectNumber value "number"); ("id", objectNumber value "id")]
  else None.
Definition jira_identity (value : json) : option record :=
  match objectString value "id" with
  | Some id => if truthy_str id then Some [("provider", JStr "jira"); ("kind", JStr "issue_comment"); ("id", JStr id);
                                          ("self", or_null (objectString value "self"))] else None
  | None => None
  end.
Definition slack_identity (channel ts : string) : record :=
  [("provider", JStr "slack"); ("kind", JStr "message"); ("channel", JStr channel); ("ts", JStr ts)].
Definition both_truthy (a b : option string) : option (string * string) :=
  match a, b with Some x, Some y => if truthy_str x && truthy_str y then Some (x, y) else None | _, _ => None end.
Definition slackMessageIdentity (value : json) : option record :=
  '(channel, ts) ← both_truthy (objectString value "channel") (objectString value "ts"); Some (slack_identity channel ts).
Definition slackPermalinkIdentity (channel ts : string) (value : json) : option record :=
  if bool_decide (objectBoolean value "ok" = Some false) then None else Some (slack_identity channel ts).

Record ReconciliationRequest := {
  rq_method : string; rq_url : string; rq_headers : Headers;
  expected : json → option record; actual : json → option record;
  providerReference : json → option string; providerUrl : json → option string
}.

Definition githubReconciliationRequest (headers : Headers) (parsed : json) (kind : string) : option ReconciliationRequest :=
  let page value := or_else (objectString value "html_url") (objectString value "url") in
  match objectString parsed "url" with
  | Some apiUrl =>
      if truthy_str apiUrl then
        Some {| rq_method := "GET"; rq_url := apiUrl; rq_headers := headers; expected := github_identity kind;
                actual := github_identity kind; providerReference := page; providerUrl := page |}
      else None
  | None => None
  end.
Definition jiraCommentReconciliationRequest (baseUrl : string) (headers : Headers) (parsed : json) : option ReconciliationRequest :=
  match objectString parsed "id" with
  | Some id =>
      if truthy_str id then
        let url := coalesce (objectString parsed "self") (baseUrl +:+ "/rest/api/3/comment/" +:+ encodeURIComponent id) in
        Some {| rq_method := "GET"; rq_url := url; rq_headers := headers; expected := jira_identity; actual := jira_identity;
                providerReference := λ value, objectString value "id"; providerUrl := λ _, Some url |}
      else None
  | None => None
  end.
Definition slackMessageReconciliationRequest (headers : Headers) (parsed : json) : option ReconciliationRequest :=
  '(channel, ts) ← both_truthy (objectString parsed "channel") (objectString parsed "ts");
  Some {| rq_method := "GET";
          rq_url := "https://slack.com/api/chat.getPermalink?" +:+ search_params [("channel", channel); ("message_ts", ts)];
          rq_headers := headers; expected := slackMessageIdentity; actual := slackPermalinkIdentity channel ts;
          providerReference := λ _, Some (channel +:+ ":" +:+ ts); providerUrl := λ value, objectString value "permalink" |}.

Definition accept_json : string := "application/vnd.github+json, application/json;q=0.9, */*;q=0.8".
Definition MAX_RESPONSE_CHARS : nat := 4000.
Definition excerpt (text : string) : list unit16 := take MAX_RESPONSE_CHARS (utf16 text).

Section actions.
Context `{Net} (sha256_hex : string → string) (localeCompare : string → string → Z) (base64 : string → string).
(** What the environment and the files of secrets hold; [secretEnvKeys] are the names of
    the secrets handed to this run. *)
Context (secretEnv processEnv : string → option string) (secretFile conventionalFile : string → option string) (secretEnvKeys : list string).
(** The clock at this execution, and the text of a message. *)
Context (now : Z) (checkedAt : string) (renderRuntimeMessage : string → string).
(** The run: its identity and contract, its inputs; the node's grant of execution and
    what was approved of it. *)
Context (run : WorkflowRunRecord) (inputs : json) (nodeId : string) (approval_given : option bool)
  (executionGrant : option json) (proposed : option ActionMeta).

Notation digest := (workflowActionProposalDigest sha256_hex localeCompare).
Notation meta := (meta sha256_hex localeCompare).

Definition canonical_text (value : json) : string := stableJson localeCompare value.
Definition digestJson (value : json) : string := "sha256:" +:+ sha256_hex (canonical_text value).

Definition reconciliation (status method : string) (reference url : option string) : ProviderReconciliation :=
  {| rc_status := status; rc_method := method; rc_checkedAt := checkedAt; rc_providerReference := reference;
     rc_providerUrl := url; rc_targetDigest := None; rc_payloadDigest := None; rc_error := None; rc_payload := None |}.

Definition compared (expected_ actual_ : option record) (parsed : json) (reference url : option string) : ProviderReconciliation :=
  match expected_, actual_ with
  | Some e, Some a =>
      let matched := bool_decide (canonical_text (JObj e) = canonical_text (JObj a)) in
      {| rc_status := if matched then "verified" else "mismatch"; rc_method := "read_after_write"; rc_checkedAt := checkedAt;
         rc_providerReference := reference; rc_providerUrl := url; rc_targetDigest := Some (digestJson (JObj e));
         rc_payloadDigest := Some (digestJson parsed); rc_error := None;
         rc_payload := Some (if matched then JObj a else JObj [("expected", JObj e); ("actual", JObj a)]) |}
  | _, _ =>
      {| rc_status := "unavailable"; rc_method := "read_after_write"; rc_checkedAt := checkedAt;
         rc_providerReference := reference; rc_providerUrl := url; rc_targetDigest := None;
         rc_payloadDigest := Some (digestJson parsed);
         rc_error := Some (utf16 "Provider read-back response did not include a comparable identity."); rc_payload := None |}
  end.

Definition with_error (error : list unit16) (r : ProviderReconciliation) : ProviderReconciliation :=
  {| rc_status := rc_status r; rc_method := rc_method r; rc_checkedAt := rc_checkedAt r; rc_providerReference := rc_providerReference r;
     rc_providerUrl := rc_providerUrl r; rc_targetDigest := rc_targetDigest r; rc_payloadDigest := rc_payloadDigest r;
     rc_error := Some error; rc_payload := rc_payload r |}.
Definition with_payload (payload : json) (r : ProviderReconciliation) : ProviderReconciliation :=
  {| rc_status := rc_status r; rc_method := rc_method r; rc_checkedAt := rc_checkedAt r; rc_providerReference := rc_providerReference r;
     rc_providerUrl := rc_providerUrl r; rc_targetDigest := rc_targetDigest r; rc_payloadDigest := rc_payloadDigest r;
     rc_error := rc_error r; rc_payload := Some payload |}.

Definition reconcileProviderAction (request : option ReconciliationRequest) (unsupportedReason : option string) (initial : json) :
    M (option ProviderReconciliation) :=
  match request with
  | None =>
      ret (if truthy_opt unsupportedReason
           then Some (with_payload (JObj [("reason", or_null unsupportedReason)]) (reconciliation "not_checked" "not_supported" None None))
           else None)
  | Some request =>
      let reference := providerReference request initial in
      let url := coalesce (providerUrl request initial) (rq_url request) in
      answer ← try_fetch {| req_method := rq_method request; req_url := rq_url request;
                            req_headers := spread [("Accept", accept_json)] (rq_headers request); req_body := None |};
      match answer with
      | inl message => ret (Some (with_error (utf16 message) (reconciliation "failed" "read_after_write" reference (Some url))))
      | inr response =>
          if negb (resp_ok response) then
            ret (Some (with_error (utf16 ("HTTP " +:+ pretty (resp_status response) +:+ ": ") ++ excerpt (resp_text response))
              (reconciliation "unavailable" "read_after_write" reference (Some url))))
          else
            let parsed := parse_json (resp_text response) in
            ret (Some (compared (expected request initial) (actual request parsed) parsed reference
              (Some (coalesce (providerUrl request parsed) url))))
      end
  end.

(** ** Results *)

Definition finished (node : ActionNode) (key : option string) (status : string) (input : record) (request : string * string)
    (response : ResponseMeta) (rc : option ProviderReconciliation) (replay : bool) (reason : option string) : ActionMeta :=
  {| am_node := node; am_idempotencyKey := key; am_policyReason := reason; am_status := status;
     am_digest := Some (digest node key input); am_input := sanitizeActionInput (JObj input); am_request := Some request;
     am_response := Some response; am_reconciliation := rc; am_duplicateOf := None; am_denial := None;
     am_credentialReason := None; am_replay := replay;
     am_grant := approvedExecutionGrant executionGrant (an_requiresApproval node) |}.

Definition declaredAction (node : ActionNode) (status : string) (key : option string) (input : record) : ActionResult :=
  {| output := named node; metadata := meta node key status input |}.

Definition remember (node : ActionNode) (key : option string) (input : record) (out : string) (response : ResponseMeta) : M unit :=
  λ w, (inr tt, {| requests := requests w; log := log w;
    ledger := rememberExecutedAction sha256_hex localeCompare now (ledger w) nodeId node key input out (Some response) |}).

(** ** Requests to providers *)

Record JsonApiRequest := {
  ja_method : string; ja_url : string; ja_headers : Headers; ja_proposalInput : record;
  ja_body : list (string * option json); ja_okFromBody : bool;
  ja_reconcile : option (json → option ReconciliationRequest); ja_unsupported : option string;
  ja_retry : option (list Z * nat)
}.

(** The answer to the last of at most [more] further attempts, and the number made. *)
Fixpoint retry_fetch (statuses : list Z) (more : nat) (r : HttpRequest) (attempts : Z) (response : HttpResponse) : M (HttpResponse * Z) :=
  match more with
  | O => ret (response, attempts)
  | S more =>
      if bool_decide (resp_status response ∈ statuses) then
        again ← fetch r; retry_fetch statuses more r (attempts + 1) again
      else ret (response, attempts)
  end.

Definition api_response (response : HttpResponse) (ok : bool) (attempts : Z) (parsed : json) : ResponseMeta :=
  {| rs_status := resp_status response; rs_ok := ok; rs_attempts := Some attempts; rs_bodyExcerpt := excerpt (resp_text response);
     rs_fields := [("htmlUrl", or_null (objectString parsed "html_url")); ("apiUrl", or_null (objectString parsed "url"));
                   ("number", objectNumber parsed "number"); ("channel", or_null (objectString parsed "channel"));
                   ("ts", or_null (objectString parsed "ts")); ("error", or_null (objectString parsed "error"))] |}.

Definition outcome_message (ok : bool) (node : ActionNode) : string :=
  "Action node " +:+ nodeId +:+ (if ok then " executed " else " failed ") +:+ named node.

Definition executeJsonApiAction (node : ActionNode) (request : JsonApiRequest) : M ActionResult :=
  let init := {| req_method := ja_method request; req_url := ja_url request;
                 req_headers := spread [("Accept", accept_json); ("Content-Type", "application/json")] (ja_headers request);
                 req_body := Some (JSON_stringify (JObj (compactObject (ja_body request)))) |} in
  first ← fetch init;
  '(response, attempts) ← match ja_retry request with
    | Some (statuses, most) => retry_fetch statuses (most - 1) init 1 first
    | None => ret (first, 1%Z)
    end;
  let parsed := parse_json (resp_text response) in
  let appOk := if ja_okFromBody request then negb (bool_decide (objectBoolean parsed "ok" = Some false)) else true in
  let ok := resp_ok response && appOk in
  rc ← (if ok then reconcileProviderAction (ja_reconcile request ≫= λ f, f parsed) (ja_unsupported request) parsed else ret None);
  let key := idempotencyKeyFromHeaders (ja_headers request) in
  let result := api_response response ok attempts parsed in
  let out := named node +:+ " " +:+ pretty (resp_status response) in
  let m := finished node key (if ok then "executed" else "failed") (ja_proposalInput request) (ja_method request, ja_url request) result rc false (actionPolicyReason node) in
  _ ← addEvent (if ok then "action-executed" else "action-failed") (outcome_message ok node);
  if negb ok then
    throw ("Action " +:+ nodeId +:+ " failed with HTTP " +:+ pretty (resp_status response) +:+ ": " +:+ resp_text response)
      (Some {| output := out; metadata := m |})
  else
    _ ← remember node key (ja_proposalInput request) out result; ret {| output := out; metadata := m |}.

(** ** Credentials *)

Definition truthy_text (s : option string) : option string := match s with Some t => if truthy_str t then Some t else None | None => None end.
Definition explicitCredentialRefValue (input : record) : option string :=
  or_else (stringValue (field input "credential_ref")) (stringValue (field input "credentialRef")).
Definition providerCredentialValue (input : record) : option string :=
  ref ← explicitCredentialRefValue input;
  let envName := envNameForCredentialRef sha256_hex ref in
  or_else (truthy_text (or_else (secretEnv envName) (processEnv envName)))
    (or_else (truthy_text (trim <$> secretFile envName)) (truthy_text (trim <$> conventionalFile envName))).

Definition localGitHubProofTokensAllowed : bool := bool_decide (processEnv "VIEWPORT_ALLOW_LOCAL_GITHUB_TOKEN_FOR_PROOF" = Some "1").
Definition hasLocalDevelopmentGitHubMaterial : bool :=
  bool_decide (envNameForCredentialRef sha256_hex "github/installation/local-dev" ∈ secretEnvKeys).

(** A token of an installation of the app; locally, when allowed, others. *)
Definition github_token_accepted (input : record) (token : string) : bool :=
  startsWith token "ghs_" ||
  (localGitHubProofTokensAllowed &&
   (isGitHubUserToken token || isLocalDevelopmentGitHubCredentialRef input || hasLocalDevelopmentGitHubMaterial)).

Definition blocked_by (node : ActionNode) (input : record) (key : option string) (reason : string) : M string :=
  let m := meta node key "blocked" input in
  _ ← addEvent "action-blocked" ("Action node " +:+ nodeId +:+ " blocked " +:+ named node +:+ ": " +:+ reason);
  throw ("GitHub action " +:+ nodeId +:+ " blocked: " +:+ reason)
    (Some {| output := named node +:+ " blocked";
             metadata := {| am_node := am_node m; am_idempotencyKey := am_idempotencyKey m; am_policyReason := am_policyReason m;
                            am_status := am_status m; am_digest := am_digest m; am_input := am_input m; am_request := None;
                            am_response := None; am_reconciliation := None; am_duplicateOf := None; am_denial := None;
                            am_credentialReason := Some reason; am_replay := false; am_grant := None |} |}).

Definition assertGitHubBrokeredCredential (node : ActionNode) (input : record) (token : option string) (key : option string) : M string :=
  match truthy_text token with
  | Some t => if github_token_accepted input t then ret t else blocked_by node input key "github_credential_must_be_installation_token"
  | None => blocked_by node input key "github_brokered_credential_missing"
  end.

(** ** Providers *)

Definition repos_url (owner repo : string) : string :=
  "https://api.github.com/repos/" +:+ encodeURIComponent owner +:+ "/" +:+ encodeURIComponent repo.

Definition first_object (parsed : json) : option json :=
  match parsed with JArr (JObj f :: _) => Some (JObj f) | JArr (JArr l :: _) => Some (JArr l) | _ => None end.

(** An open pull request for the same branches is taken for the one to make. *)
Definition existingGitHubPullRequest (node : ActionNode) (input : record) (owner repo token : string) (head : option string)
    (base : string) (key : option string) : M (option ActionResult) :=
  match truthy_text head with
  | None => ret None
  | Some head =>
      let params := search_params [("state", "open"); ("head", if has_char ":" head then head else owner +:+ ":" +:+ head);
                                   ("base", base); ("per_page", "1")] in
      response ← fetch {| req_method := "GET"; req_url := repos_url owner repo +:+ "/pulls?" +:+ params;
                          req_headers := githubHeaders token; req_body := None |};
      if negb (resp_ok response) then ret None
      else
        match first_object (parse_json (resp_text response)) with
        | None => ret None
        | Some pullRequest =>
            rc ← reconcileProviderAction (githubReconciliationRequest (githubHeaders token) pullRequest "pull_request") None pullRequest;
            let result :=
              {| rs_status := 200; rs_ok := true; rs_attempts := None;
                 rs_bodyExcerpt := utf16 "Existing open pull request matched by head/base.";
                 rs_fields := [("htmlUrl", or_null (objectString pullRequest "html_url"));
                               ("apiUrl", or_null (objectString pullRequest "url")); ("number", objectNumber pullRequest "number")] |} in
            let out := named node +:+ " 200" in
            _ ← addEvent "action-executed" ("Action node " +:+ nodeId +:+ " reused existing " +:+ named node);
            _ ← remember node key input out result;
            ret (Some {| output := out;
                         metadata := finished node key "executed" input ("GET", repos_url owner repo +:+ "/pulls") result rc true (actionPolicyReason node) |})
        end
  end.

(** The repository an action works on. *)
Definition github_target (input : record) : option (string * string) :=
  let '(repositoryOwner, repositoryName) := splitRepository (stringValue (field input "repository")) in
  owner ← or_else (stringValue (field input "owner")) repositoryOwner;
  repo ← or_else (stringValue (field input "repo")) repositoryName;
  Some (owner, repo).

Definition executeGitHubAction (node : ActionNode) (input : record) (key : option string) : M ActionResult :=
  match github_target input with
  | None => ret (declaredAction node "missing_url" key input)
  | Some (owner, repo) =>
      token ← assertGitHubBrokeredCredential node input (providerCredentialValue input) key;
      let headers := withIdempotencyHeader (githubHeaders token) key in
      if isGitHubPullRequestCreateAction (action (an_node node)) then
        let head := or_else (stringValue (field input "head")) (stringValue (field input "branch")) in
        let base := coalesce (stringValue (field input "base")) "main" in
        existing ← existingGitHubPullRequest node input owner repo token head base key;
        match existing with
        | Some result => ret result
        | None =>
            executeJsonApiAction node
              {| ja_method := "POST"; ja_url := repos_url owner repo +:+ "/pulls"; ja_headers := headers; ja_proposalInput := input;
                 ja_body := [("title", Some (JStr (coalesce (stringValue (field input "title")) "Viewport workflow change")));
                             ("head", JStr <$> head); ("base", Some (JStr base)); ("body", JStr <$> stringValue (field input "body"));
                             ("draft", JBool <$> booleanValue (field input "draft"))];
                 ja_okFromBody := false;
                 ja_reconcile := Some (λ parsed, githubReconciliationRequest (githubHeaders token) parsed "pull_request");
                 ja_unsupported := None; ja_retry := Some ([404; 422]%Z, 3) |}
        end
      else if isGitHubCommentAction (action (an_node node)) then
        let issueNumber := or_else (stringValue (field input "issue_number")) (or_else (stringValue (field input "issueNumber"))
                              (sourceGitHubPullRequestNumber inputs)) in
        match issueNumber, stringValue (field input "body") with
        | Some issueNumber, Some body =>
            executeJsonApiAction node
              {| ja_method := "POST"; ja_url := repos_url owner repo +:+ "/issues/" +:+ encodeURIComponent issueNumber +:+ "/comments";
                 ja_headers := headers; ja_proposalInput := input; ja_body := [("body", Some (JStr body))]; ja_okFromBody := false;
                 ja_reconcile := Some (λ parsed, githubReconciliationRequest (githubHeaders token) parsed "issue_comment");
                 ja_unsupported := None; ja_retry := None |}
        | _, _ => ret (declaredAction node "missing_url" key input)
        end
      else ret (declaredAction node "declared" key input)
  end.

Fixpoint drop_slashes (l : list ascii) : list ascii := match l with a :: l' => if Ascii.eqb a "/" then drop_slashes l' else l | [] => [] end.
Definition normalizedBaseUrl (value : option string) : option string :=
  (λ v, String.string_of_list_ascii (reverse (drop_slashes (reverse (String.list_ascii_of_string v))))) <$> truthy_text value.

Definition jiraHeaders (token : string) (email : option string) : Headers :=
  match truthy_text email with
  | Some e => [("Authorization", "Basic " +:+ base64 (e +:+ ":" +:+ token))]
  | None => [("Authorization", "Bearer " +:+ token)]
  end.
Definition jiraDocument (text : string) : json :=
  JObj [("type", JStr "doc"); ("version", JNum (num_of_Z 1));
        ("content", JArr [JObj [("type", JStr "paragraph"); ("content", JArr [JObj [("type", JStr "text"); ("text", JStr text)]])]])].

Definition executeJiraAction (node : ActionNode) (input : record) (key : option string) : M ActionResult :=
  let baseUrl := normalizedBaseUrl (or_else (stringValue (field input "base_url"))
    (or_else (stringValue (field input "baseUrl")) (processEnv "JIRA_BASE_URL"))) in
  let email := or_else (stringValue (field input "email")) (processEnv "JIRA_EMAIL") in
  let issueKey := or_else (stringValue (field input "issue_key")) (or_else (stringValue (field input "issueKey")) (stringValue (field input "key"))) in
  let missing := ret (declaredAction node "missing_url" key input) in
  match truthy_text baseUrl, truthy_text (providerCredentialValue input), issueKey with
  | Some baseUrl, Some token, Some issueKey =>
      let headers := withIdempotencyHeader (jiraHeaders token email) key in
      let issue := baseUrl +:+ "/rest/api/3/issue/" +:+ encodeURIComponent issueKey in
      let name := action (an_node node) in
      if bool_decide (name ∈ ["comment"; "comment_issue"; "issue.comment"]) then
        match stringValue (field input "body") with
        | None => missing
        | Some body =>
            executeJsonApiAction node
              {| ja_method := "POST"; ja_url := issue +:+ "/comment"; ja_headers := headers; ja_proposalInput := input;
                 ja_body := [("body", Some (jiraDocument body))]; ja_okFromBody := false;
                 ja_reconcile := Some (jiraCommentReconciliationRequest baseUrl (jiraHeaders token email));
                 ja_unsupported := None; ja_retry := None |}
        end
      else if bool_decide (name ∈ ["transition"; "issue.transition"]) then
        match or_else (stringValue (field input "transition_id")) (stringValue (field input "transitionId")) with
        | None => missing
        | Some transitionId =>
            executeJsonApiAction node
              {| ja_method := "POST"; ja_url := issue +:+ "/transitions"; ja_headers := headers; ja_proposalInput := input;
                 ja_body := [("transition", Some (JObj [("id", JStr transitionId)]))]; ja_okFromBody := false; ja_reconcile := None;
                 ja_unsupported := Some "Jira transition actions need an expected target status before generic read-after-write verification can prove the transition.";
                 ja_retry := None |}
        end
      else ret (declaredAction node "declared" key input)
  | _, _, _ => missing
  end.

Definition executeSlackAction (node : ActionNode) (input : record) (key : option string) : M ActionResult :=
  let channel := or_else (stringValue (field input "channel")) (sourceSlackChannel inputs) in
  let rawText := or_else (stringValue (field input "text")) (stringValue (field input "body")) in
  match truthy_text (providerCredentialValue input), channel, truthy_text (renderRuntimeMessage <$> rawText) with
  | Some token, Some channel, Some text =>
      let bearer := [("Authorization", "Bearer " +:+ token)] in
      if bool_decide (action (an_node node) ∈ ["post_message"; "message"; "chat.postMessage"]) then
        executeJsonApiAction node
          {| ja_method := "POST"; ja_url := "https://slack.com/api/chat.postMessage"; ja_headers := withIdempotencyHeader bearer key;
             ja_proposalInput := jm_set "text" (JStr text) input;
             ja_body := [("channel", Some (JStr channel)); ("text", Some (JStr text)); ("client_msg_id", JStr <$> key);
                         ("thread_ts", JStr <$> or_else (stringValue (field input "thread_ts"))
                            (or_else (stringValue (field input "threadTs")) (sourceSlackThreadTs inputs)))];
             ja_okFromBody := true; ja_reconcile := Some (slackMessageReconciliationRequest bearer);
             ja_unsupported := None; ja_retry := None |}
      else ret (declaredAction node "declared" key input)
  | _, _, _ => ret (declaredAction node "missing_url" key input)
  end.

Definition executeProviderAction (node : ActionNode) (input : record) (key : option string) : option (M ActionResult) :=
  let name := adapter (an_node node) in
  if bool_decide (name = "github") then Some (executeGitHubAction node input key)
  else if bool_decide (name = "jira") then Some (executeJiraAction node input key)
  else if bool_decide (name = "slack") then Some (executeSlackAction node input key)
  else None.

(** ** Webhooks *)

Definition actionMethod (name : string) : string :=
  if bool_decide (name = "get") then "GET" else if bool_decide (name = "put") then "PUT"
  else if bool_decide (name = "patch") then "PATCH" else if bool_decide (name = "delete") then "DELETE" else "POST".
Definition headerRecord (value : option json) : Headers :=
  match value with Some (JObj f) => omap (λ kv, pair kv.1 <$> string_of kv.2) f | _ => [] end.
Definition idempotencyHeader (headers : Headers) (key : option string) : Headers :=
  match truthy_text key with
  | Some k => if existsb (header_named "idempotency-key") headers then [] else [("Idempotency-Key", k)]
  | None => []
  end.

Definition executeWebhookAction (node : ActionNode) (key : option string) (input : record) : M ActionResult :=
  match stringValue (field input "url") with
  | None => ret (declaredAction node "missing_url" key input)
  | Some url =>
      let method := coalesce (stringValue (field input "method")) (actionMethod (action (an_node node))) in
      let headers := headerRecord (field input "headers") in
      let body := field input "body" in
      response ← fetch
        {| req_method := method; req_url := url;
           req_headers := spread (spread (("Accept", "application/json, text/plain;q=0.9, */*;q=0.8") ::
             match body with Some _ => [("Content-Type", "application/json")] | None => [] end) headers) (idempotencyHeader headers key);
           req_body := JSON_stringify <$> body |};
      let ok := resp_ok response in
      let result := {| rs_status := resp_status response; rs_ok := ok; rs_attempts := None;
                       rs_bodyExcerpt := excerpt (resp_text response); rs_fields := [] |} in
      let out := named node +:+ " " +:+ pretty (resp_status response) in
      _ ← addEvent (if ok then "action-executed" else "action-failed") (outcome_message ok node);
      if negb ok then
        throw ("Action " +:+ nodeId +:+ " failed with HTTP " +:+ pretty (resp_status response) +:+ ": " +:+ resp_text response) None
      else
        _ ← remember node key input out result;
        ret {| output := out; metadata := finished node key "executed" input (method, url) result None false None |}
  end.

(** ** An action *)

(** What was proposed and approved elsewhere is taken as done. *)
Definition brokeredApprovedAction (node : ActionNode) : option ActionResult :=
  if an_requiresApproval node && bool_decide (approval_given = Some true) && bool_decide (is_Some executionGrant) then
    existing ← proposed;
    Some {| output := named node;
            metadata := {| am_node := am_node existing; am_idempotencyKey := am_idempotencyKey existing;
                           am_policyReason := am_policyReason existing; am_status := am_status existing; am_digest := am_digest existing;
                           am_input := am_input existing; am_request := am_request existing; am_response := am_response existing;
                           am_reconciliation := am_reconciliation existing; am_duplicateOf := am_duplicateOf existing;
                           am_denial := am_denial existing; am_credentialReason := am_credentialReason existing;
                           am_replay := am_replay existing; am_grant := executionGrant |} |}
  else None.

(** [approved] is what the resumed node was answered; the key and the input are rendered. *)
Definition executeActionAdapter (node : ActionNode) (approved : option bool) (key : option string) (input : record) : M ActionResult :=
  match workflowActionAuthorityDenial run nodeId (an_node node) input with
  | Some d => _ ← addEvent "action-blocked" (detail d); throw (detail d) None
  | None =>
      λ w,
      match suppressDuplicateAction sha256_hex localeCompare (ledger w) executionGrant node key input with
      | Reused k =>
          throw ("Action idempotency key '" +:+ k +:+ "' was already used with a different proposed action in this run.") None w
      | Repeated result =>
          (_ ← addEvent "action-duplicate-suppressed" ("Action node " +:+ nodeId +:+ " reused idempotency key " +:+ coalesce key "" +:+
             "; prior side effect kept."); ret result) w
      | NotYet =>
          if an_requiresApproval node && negb (bool_decide (approved = Some true)) then
            ret (declaredAction node "awaiting_approval" key input) w
          else
            match brokeredApprovedAction node with
            | Some result => ret result w
            | None =>
                if bool_decide (adapter (an_node node) ∈ ["webhook"; "http"]) then executeWebhookAction node key input w
                else
                  match executeProviderAction node input key with
                  | Some provider_action => provider_action w
                  | None => ret (declaredAction node "declared" key input) w
                  end
            end
      end
  end.
End actions.

(** ** Actions are judged, approved and executed once

    Theorems for any network, clock and secrets: what must hold for an
    execution to send a request, and that within a run an idempotency key is used for
    one execution, as long as executions follow one another. *)
(** ** Computations that keep the ledger *)

Definition ledger_key (k : string) : string := "idempotency:" +:+ k.
Definition remembered (k : string) (w : World) : Prop := is_Some (jm_get (ledger_key k) (ledger w)).

(** Entries stay. *)
Definition keeps {A} (x : M A) : Prop := ∀ k w, remembered k w → remembered k (x w).2.
(** A success with the status executed leaves an entry under [k]. *)
Definition remembers (k : string) (x : M ActionResult) : Prop :=
  ∀ w result w', x w = (inr result, w') → am_status (metadata result) = "executed" → remembered k w'.

Lemma ledger_keeps_ret {A} (a : A) : keeps (ret a).
Proof. by intros k w. Qed.
Lemma keeps_throw {A} e r : keeps (@throw A e r).
Proof. by intros k w. Qed.
Lemma keeps_event t m : keeps (addEvent t m).
Proof. by intros k w. Qed.
Lemma ledger_keeps_bind {A B} (x : M A) (f : A → M B) : keeps x → (∀ a, keeps (f a)) → keeps (bind x f).
Proof.
  intros Hx Hf k w Hk. unfold bind. specialize (Hx k w Hk). destruct (x w) as [[e|a] w']; [done|]. by apply Hf.
Qed.
Lemma keeps_try `{Net} r : keeps (try_fetch r).
Proof. by intros k w. Qed.
Lemma ledger_keeps_fetch `{Net} r : keeps (fetch r).
Proof. apply ledger_keeps_bind; [apply keeps_try|]. intros [|]; [apply keeps_throw|apply ledger_keeps_ret]. Qed.

Lemma remembers_bind {A} k (x : M A) f : (∀ a, remembers k (f a)) → remembers k (bind x f).
Proof.
  intros Hf w result w'. unfold bind. destruct (x w) as [[e|a] w1]; [done|]. apply Hf.
Qed.
Lemma remembers_throw k e r : remembers k (throw e r).
Proof. by intros w result w'. Qed.
Lemma remembers_ret k result : am_status (metadata result) ≠ "executed" → remembers k (ret result).
Proof. by intros Hs w r w' [= <- <-]. Qed.

Ltac go_keeps :=
  repeat first
    [ apply ledger_keeps_ret | apply keeps_throw | apply keeps_event | apply keeps_try | apply ledger_keeps_fetch
    | apply ledger_keeps_bind; [|intros ?] | case_match ].

Section actions.
Context `{Net} (sha256_hex : string → string) (localeCompare : string → string → Z) (base64 : string → string).
Context (secretEnv processEnv : string → option string) (secretFile conventionalFile : string → option string) (secretEnvKeys : list string).
Context (now : Z) (checkedAt : string) (renderRuntimeMessage : string → string).
Context (run : WorkflowRunRecord) (inputs : json) (nodeId : string) (approval_given : option bool)
  (executionGrant : option json) (proposed : option ActionMeta).

Notation execute := (executeActionAdapter sha256_hex localeCompare base64 secretEnv processEnv secretFile conventionalFile
  secretEnvKeys now checkedAt renderRuntimeMessage run inputs nodeId approval_given executionGrant proposed).
Notation remember := (remember sha256_hex localeCompare now nodeId).

Lemma keeps_remember node key input out response : keeps (remember node key input out response).
Proof.
  intros k w Hk. unfold remembered, Actions.remember, rememberExecutedAction in *. cbn.
  destruct (actionLedgerKey key) as [key'|]; [|done]. rewrite jm_get_set. case_decide; [by eexists|done].
Qed.

Lemma remember_key k node input out response w : truthy_str k = true →
  remembered k (remember node (Some k) input out response w).2.
Proof.
  intros Hk. unfold remembered, Actions.remember, rememberExecutedAction, actionLedgerKey. cbn. rewrite Hk.
  rewrite jm_get_set_eq. by eexists.
Qed.

Lemma remembers_remember k node input out response result : truthy_str k = true →
  remembers k (bind (remember node (Some k) input out response) (λ _, ret result)).
Proof. intros Hk w r w' [= <- <-] _. by apply remember_key. Qed.

Lemma keeps_reconcile request unsupported initial :
  keeps (reconcileProviderAction sha256_hex localeCompare checkedAt request unsupported initial).
Proof. unfold reconcileProviderAction. go_keeps. Qed.

Lemma keeps_retry statuses more r attempts response : keeps (retry_fetch statuses more r attempts response).
Proof. revert attempts response. induction more as [|more IH]; intros; cbn [retry_fetch]; [go_keeps|]. go_keeps. apply IH. Qed.

Lemma keeps_api node request :
  keeps (executeJsonApiAction sha256_hex localeCompare now checkedAt nodeId executionGrant node request).
Proof.
  unfold executeJsonApiAction. apply ledger_keeps_bind; [apply ledger_keeps_fetch|]. intros first.
  apply ledger_keeps_bind; [case_match; [case_match; apply keeps_retry|apply ledger_keeps_ret]|]. intros [response attempts].
  apply ledger_keeps_bind; [case_match; [apply keeps_reconcile|apply ledger_keeps_ret]|]. intros rc.
  apply ledger_keeps_bind; [apply keeps_event|]. intros _. case_match; [apply keeps_throw|].
  apply ledger_keeps_bind; [apply keeps_remember|]. intros _. apply ledger_keeps_ret.
Qed.

Lemma remembers_api k node request : truthy_str k = true → idempotencyKeyFromHeaders (ja_headers request) = Some k →
  remembers k (executeJsonApiAction sha256_hex localeCompare now checkedAt nodeId executionGrant node request).
Proof.
  intros Hk Hkey. unfold executeJsonApiAction. rewrite Hkey.
  apply remembers_bind. intros first. apply remembers_bind. intros [response attempts]. apply remembers_bind. intros rc.
  apply remembers_bind. intros _. case_match; [apply remembers_throw|]. by apply remembers_remember.
Qed.

(** The key of a run goes with the request and comes back from it. *)
Lemma key_with_authorization value k : truthy_str k = true →
  idempotencyKeyFromHeaders (withIdempotencyHeader [("Authorization", value)] (Some k)) = Some k.
Proof. intros Hk. unfold withIdempotencyHeader. rewrite Hk. reflexivity. Qed.

Lemma key_with_github token k : truthy_str k = true →
  idempotencyKeyFromHeaders (withIdempotencyHeader (githubHeaders token) (Some k)) = Some k.
Proof. intros Hk. unfold withIdempotencyHeader. rewrite Hk. reflexivity. Qed.

Lemma key_with_jira token email k : truthy_str k = true →
  idempotencyKeyFromHeaders (withIdempotencyHeader (jiraHeaders base64 token email) (Some k)) = Some k.
Proof. intros Hk. unfold jiraHeaders. case_match; by apply key_with_authorization. Qed.

(** What is only proposed has another status. *)
Lemma remembers_declared k node status key input : status ≠ "executed" →
  remembers k (ret (declaredAction sha256_hex localeCompare node status key input)).
Proof. intros Hs. by apply remembers_ret. Qed.

Lemma remembers_existing k node input owner repo token head base : truthy_str k = true →
  ∀ w r w', existingGitHubPullRequest sha256_hex localeCompare now checkedAt nodeId executionGrant
    node input owner repo token head base (Some k) w = (inr (Some r), w') → remembered k w'.
Proof.
  intros Hk w r w'. unfold existingGitHubPullRequest. case_match; [|done].
  unfold mbind, M_bind, bind at 1. destruct (fetch _ w) as [[e|response] w1]; [done|].
  case_match; [done|]. case_match; [|done]. unfold mbind, M_bind, bind at 1.
  destruct (reconcileProviderAction _ _ _ _ _ _ w1) as [[e|rc] w2]; [done|]. intros [= <- <-].
  by apply remember_key.
Qed.
Lemma remembers_github k node input : truthy_str k = true →
  remembers k (executeGitHubAction sha256_hex localeCompare secretEnv processEnv secretFile conventionalFile secretEnvKeys
    now checkedAt inputs nodeId executionGrant node input (Some k)).
Proof.
  intros Hk. unfold executeGitHubAction. destruct (github_target input) as [[owner repo]|]; [|by apply remembers_declared].
  apply remembers_bind. intros token. case_match.
  - intros w r w'. unfold mbind, M_bind, bind at 1. destruct (existingGitHubPullRequest _ _ _ _ _ _ _ _ _ _ _ _ _ _ w) as [[e|[x|]] w1] eqn:E; [done| |].
    + intros [= <- <-] _. by eapply remembers_existing.
    + apply remembers_api; [done|]. by apply key_with_github.
  - case_match; [|by apply remembers_declared]. repeat case_match; try by apply remembers_declared.
    apply remembers_api; [done|]. by apply key_with_github.
Qed.

Lemma remembers_jira k node input : truthy_str k = true →
  remembers k (executeJiraAction sha256_hex localeCompare base64 secretEnv processEnv secretFile conventionalFile
    now checkedAt nodeId executionGrant node input (Some k)).
Proof.
  intros Hk. unfold executeJiraAction. repeat case_match; try (by apply remembers_declared).
  all: apply remembers_api; [done|]; by apply key_with_jira.
Qed.

Lemma remembers_slack k node input : truthy_str k = true →
  remembers k (executeSlackAction sha256_hex localeCompare secretEnv processEnv secretFile conventionalFile
    now checkedAt renderRuntimeMessage inputs nodeId executionGrant node input (Some k)).
Proof.
  intros Hk. unfold executeSlackAction. repeat case_match; try (by apply remembers_declared).
  apply remembers_api; [done|]. by apply key_with_authorization.
Qed.

Lemma remembers_webhook k node input : truthy_str k = true →
  remembers k (executeWebhookAction sha256_hex localeCompare now nodeId executionGrant node (Some k) input).
Proof.
  intros Hk. unfold executeWebhookAction. case_match; [|by apply remembers_declared].
  apply remembers_bind. intros response. apply remembers_bind. intros _. case_match; [apply remembers_throw|].
  by apply remembers_remember.
Qed.

Lemma keeps_github node input key :
  keeps (executeGitHubAction sha256_hex localeCompare secretEnv processEnv secretFile conventionalFile secretEnvKeys
    now checkedAt inputs nodeId executionGrant node input key).
Proof.
  unfold executeGitHubAction, assertGitHubBrokeredCredential, blocked_by. destruct (github_target input) as [[owner repo]|]; [|apply ledger_keeps_ret].
  apply ledger_keeps_bind; [go_keeps|]. intros token. case_match; [|repeat case_match; first [apply ledger_keeps_ret|apply keeps_api]].
  apply ledger_keeps_bind; [|intros [|]; [apply ledger_keeps_ret|apply keeps_api]]. unfold existingGitHubPullRequest. case_match; [|apply ledger_keeps_ret].
  apply ledger_keeps_bind; [apply ledger_keeps_fetch|]. intros response. case_match; [apply ledger_keeps_ret|]. case_match; [|apply ledger_keeps_ret].
  apply ledger_keeps_bind; [apply keeps_reconcile|]. intros rc. apply ledger_keeps_bind; [apply keeps_event|]. intros _.
  apply ledger_keeps_bind; [apply keeps_remember|]. intros _. apply ledger_keeps_ret.
Qed.

Lemma keeps_provider node input key x :
  executeProviderAction sha256_hex localeCompare base64 secretEnv processEnv secretFile conventionalFile secretEnvKeys
    now checkedAt renderRuntimeMessage inputs nodeId executionGrant node input key = Some x → keeps x.
Proof.
  unfold executeProviderAction. case_match; [intros [= <-]; apply keeps_github|].
  case_match; [intros [= <-]; unfold executeJiraAction; repeat case_match; first [apply ledger_keeps_ret|apply keeps_api]|].
  case_match; [|done]. intros [= <-]. unfold executeSlackAction. repeat case_match; first [apply ledger_keeps_ret|apply keeps_api].
Qed.

Lemma remembers_provider k node input x : truthy_str k = true →
  executeProviderAction sha256_hex localeCompare base64 secretEnv processEnv secretFile conventionalFile secretEnvKeys
    now checkedAt renderRuntimeMessage inputs nodeId executionGrant node input (Some k) = Some x → remembers k x.
Proof.
  intros Hk. unfold executeProviderAction. case_match; [intros [= <-]; by apply remembers_github|].
  case_match; [intros [= <-]; by apply remembers_jira|]. case_match; [|done]. intros [= <-]; by apply remembers_slack.
Qed.

Lemma keeps_webhook node key input : keeps (executeWebhookAction sha256_hex localeCompare now nodeId executionGrant node key input).
Proof.
  unfold executeWebhookAction. case_match; [|apply ledger_keeps_ret]. apply ledger_keeps_bind; [apply ledger_keeps_fetch|]. intros response.
  apply ledger_keeps_bind; [apply keeps_event|]. intros _. case_match; [apply keeps_throw|].
  apply ledger_keeps_bind; [apply keeps_remember|]. intros _. apply ledger_keeps_ret.
Qed.

Lemma keeps_execute node approved key input : keeps (execute node approved key input).
Proof.
  unfold executeActionAdapter. case_match; [apply ledger_keeps_bind; [apply keeps_event|intros _; apply keeps_throw]|].
  intros k w Hk. case_match; [|done|exact Hk]. case_match; [done|]. case_match; [done|]. case_match; [by apply keeps_webhook|].
  destruct (executeProviderAction _ _ _ _ _ _ _ _ _ _ _ _ _ _ _ _ _) eqn:E; [by eapply keeps_provider|done].
Qed.

(** What must hold for an execution to send a request. *)
Lemma execute_guarded node approved key input w :
  requests (execute node approved key input w).2 ≠ requests w →
  workflowActionAuthorityDenial run nodeId (an_node node) input = None ∧
  (an_requiresApproval node = true → approved = Some true) ∧
  (∀ k, key = Some k → truthy_str k = true → ¬ remembered k w).
Proof.
  unfold executeActionAdapter. destruct (workflowActionAuthorityDenial _ _ _ _); [by intros []|].
  unfold suppressDuplicateAction, actionLedgerKey. intros Hr. split; [done|]. split.
  - intros Ha. rewrite Ha in Hr. destruct (decide (approved = Some true)) as [|Hn]; [done|].
    rewrite (bool_decide_false _ Hn) in Hr. cbn in Hr. repeat case_match; by destruct Hr.
  - intros k -> Hk [entry He]. rewrite Hk in Hr. unfold ledger_key in He. rewrite He in Hr. destruct (negb _); by destruct Hr.
Qed.

Lemma execute_remembers node approved k input w result w' : truthy_str k = true →
  execute node approved (Some k) input w = (inr result, w') → requests w' ≠ requests w →
  am_status (metadata result) = "executed" → remembered k w'.
Proof.
  intros Hk. unfold executeActionAdapter. destruct (workflowActionAuthorityDenial _ _ _ _); [done|].
  destruct (suppressDuplicateAction _ _ _ _ _ _ _) as [|k'|r]; [|done|by intros [= <- <-] Hne; destruct Hne].
  destruct (_ && _); [by intros [= <- <-] Hne; destruct Hne|].
  destruct (brokeredApprovedAction _ _ _ _); [by intros [= <- <-] Hne; destruct Hne|].
  case_match; [intros E _ Hs; by eapply remembers_webhook|].
  destruct (executeProviderAction _ _ _ _ _ _ _ _ _ _ _ _ _ _ _ _ _) as [x|] eqn:Ex; [|by intros [= <- <-] Hne; destruct Hne].
  intros E _ Hs. exact (remembers_provider k node input x Hk Ex w result w' E Hs).
Qed.
End actions.

(** ** Executions in a run *)

(** One execution: what the executor is given. *)
Record Execution := {
  x_now : Z; x_checkedAt : string; x_render : string → string; x_nodeId : string; x_approval : option bool;
  x_grant : option json; x_proposed : option ActionMeta;
  x_node : ActionNode; x_approved : option bool; x_key : option string; x_input : record
}.

Section runs.
Context `{Net} (sha256_hex : string → string) (localeCompare : string → string → Z) (base64 : string → string).
Context (secretEnv processEnv : string → option string) (secretFile conventionalFile : string → option string) (secretEnvKeys : list string).
Context (run : WorkflowRunRecord) (inputs : json).

Definition perform (x : Execution) : M ActionResult :=
  executeActionAdapter sha256_hex localeCompare base64 secretEnv processEnv secretFile conventionalFile secretEnvKeys
    (x_now x) (x_checkedAt x) (x_render x) run inputs (x_nodeId x) (x_approval x) (x_grant x) (x_proposed x)
    (x_node x) (x_approved x) (x_key x) (x_input x).

(** One execution after another. *)
Inductive later : World → World → Prop :=
| later_refl w : later w w
| later_step x w w' : later w w' → later w (perform x w').2.

Lemma later_remembered k w w' : later w w' → remembered k w → remembered k w'.
Proof. induction 1; [done|]. intros Hk. by apply keeps_execute, IHlater. Qed.

(** C19: when an action under an idempotency key has been executed, no later execution
    under that key in the run sends a request, whatever is executed between. *)
Theorem action_executed_once k x y w result w1 w2 :
  truthy_str k = true → x_key x = Some k → x_key y = Some k →
  perform x w = (inr result, w1) → requests w1 ≠ requests w → am_status (metadata result) = "executed" →
  later w1 w2 → requests (perform y w2).2 = requests w2.
Proof.
  intros Hk Hx Hy E Hr Hs Hl. destruct (decide (requests (perform y w2).2 = requests w2)) as [|Hne]; [done|].
  apply execute_guarded in Hne as (_ & _ & Hno). exfalso. apply (Hno k Hy Hk). eapply later_remembered; [exact Hl|].
  unfold perform in E. rewrite Hx in E. by eapply execute_remembers.
Qed.

(** An execution sends a request only when the contract of authority lets the action
    and the repository that its input names through, and a node that requires approval
    has been approved. *)
Theorem action_guarded x w : requests (perform x w).2 ≠ requests w →
  (∀ contract, workflowAuthorityContract run = Some contract →
     (allowedSideEffects contract = [] ∨
      effect_listed contract (normalizeToken (adapter (an_node (x_node x)))) (normalizeAction (action (an_node (x_node x))))) ∧
     (allowedRepositories run = [] ∨
      ∀ r, actionRepository (an_node (x_node x)) (x_input x) = Some r → r = "" ∨ r ∈ allowedRepositories run)) ∧
  (an_requiresApproval (x_node x) = true → x_approved x = Some true).
Proof.
  intros Hr. apply execute_guarded in Hr as (Hd & Ha & _). split; [|done].
  exact (proj1 (action_permitted_iff run (x_nodeId x) (an_node (x_node x)) (x_input x)) Hd).
Qed.
End runs.

(** ** Examples *)

(** Slack accepts every message. *)
#[local] Instance slack_net : Net := λ _ _,
  inr {| resp_status := 200; resp_text := "{" +:+ String (ascii_of_nat 34) ("ok" +:+ String (ascii_of_nat 34) ":true}") |}.

Definition bot_token (name : string) : option string := if bool_decide (name = "VIEWPORT_CREDENTIAL_BOT") then Some "xoxb" else None.
Definition nothing (_ : string) : option string := None.
Definition start : World := {| requests := []; ledger := []; log := [] |}.
Definition free_run : WorkflowRunRecord := {| run_id := "run-1"; directoryPath := "/work"; authorityContract := None |}.
Definition node_of (adapter_ action_ : string) (approval : bool) : ActionNode :=
  {| an_node := {| adapter := adapter_; action := action_ |}; an_proposalKey := None; an_requiresApproval := approval;
     an_policyReason := None; an_policyApprovalRequired := false |}.
Definition post (input : record) : Execution :=
  {| x_now := 1; x_checkedAt := "now"; x_render := id; x_nodeId := "n"; x_approval := None; x_grant := None; x_proposed := None;
     x_node := node_of "slack" "post_message" false; x_approved := None; x_key := Some "key-1"; x_input := input |}.
(** Byte order stands in for [localeCompare]. *)
Definition byte_compare (a b : string) : Z := match String.compare a b with Lt => -1 | Eq => 0 | Gt => 1 end.
Definition do_post (input : record) : M ActionResult :=
  perform id byte_compare id bot_token nothing nothing nothing [] free_run JNull (post input).

Definition message (name : string) : record := [("credential_ref", JStr "bot"); ("channel", JStr "C1"); (name, JStr "hello")].
Definition posted : World := (do_post (message "text") start).2.

Lemma action_executed_once_witness :
  length (requests posted) = 1 ∧ requests (do_post (message "text") posted).2 = requests posted.
Proof.
  split; [by vm_compute|].
  destruct (do_post (message "text") start) as [[e|result] w1] eqn:E; [exfalso; revert E; vm_compute; discriminate|].
  apply (action_executed_once id byte_compare id bot_token nothing nothing nothing [] free_run JNull "key-1" (post (message "text"))
    (post (message "text")) start result w1 posted); try reflexivity.
  - exact E.
  - intros Hr. apply (f_equal (λ l, length l)) in Hr. revert Hr. replace w1 with posted by (unfold posted; by rewrite E). vm_compute. discriminate.
  - apply (f_equal (λ r, match r.1 with inr a => am_status (metadata a) | inl _ => "" end)) in E. cbn [fst] in E. rewrite <- E. vm_compute. reflexivity.
  - replace w1 with posted by (unfold posted; by rewrite E). apply later_refl.
Defined.

Lemma action_guarded_witness :
  requests (do_post (message "text") start).2 ≠ requests start ∧ (an_requiresApproval (x_node (post (message "text"))) = true → x_approved (post (message "text")) = Some true).
Proof.
  assert (requests (do_post (message "text") start).2 ≠ requests start) as Hr by (vm_compute; discriminate).
  split; [exact Hr|].
  exact (proj2 (action_guarded id byte_compare id bot_token nothing nothing nothing [] free_run JNull (post (message "text")) start Hr)).
Defined.

(** ** What the code does not do *)

Definition failure_of (r : Failure + ActionResult) : option string := match r with inl f => Some (why f) | inr _ => None end.

(** The ledger keeps the digest of the input with the text as it was sent, and compares it
    with that of the input as it was given: a message given as [body] that is executed
    again under its key is refused as a different action instead of being reused. *)
Lemma slack_repetition_refused :
  let w := (do_post (message "body") start).2 in
  length (requests w) = 1 ∧
  failure_of (do_post (message "body") w).1 = Some "Action idempotency key 'key-1' was already used with a different proposed action in this run." ∧
  failure_of (do_post (message "text") posted).1 = None.
Proof. vm_compute. repeat split. Qed.

Definition two_targets : record := [("repository", JStr "acme/app"); ("owner", JStr "other"); ("repo", JStr "secrets")].

(** The contract is asked about [repository], while the action works on [owner] and
    [repo] when the input has them: an allowed name opens any other repository. *)
Lemma repository_check_bypassed :
  let run := run_with (contract_with only_repo) in
  allowedRepositories run = ["acme/app"] ∧
  workflowActionAuthorityDenial run "n" {| adapter := "github"; action := "create_pr" |} two_targets = None ∧
  github_target two_targets = Some ("other", "secrets").
Proof. vm_compute. repeat split. Qed.

(** Reading a message back finds it whatever the answer says, short of a refusal. *)
Lemma slack_always_verified sha256_hex localeCompare checkedAt channel ts value reference url : objectBoolean value "ok" ≠ Some false →
  rc_status (compared sha256_hex localeCompare checkedAt (Some (slack_identity channel ts)) (slackPermalinkIdentity channel ts value) value reference url) = "verified".
Proof.
  intros Hv. unfold slackPermalinkIdentity. rewrite (bool_decide_false _ Hv). cbn [compared rc_status].
  by rewrite (bool_decide_true _ eq_refl).
Qed.
