(* ===== verification/BridgeTokens.v ===== *)
(** * Tokens of the daemon's relay bridge

    [relay/bridge-jwt.ts] and [relay/bridge-token-issuer.ts].  The server issues a signed
    token for the relay, and the daemon verifies it with configured keys or with those of
    a JWKS endpoint, which it caches and reads again when it does not know a key.
    [token_accepted_iff] states what a verified token is; [issued_token_verified] that
    the bridge only gets such tokens, after at most two readings of the keys.
    HMAC and base64url are those of Noise.v, RSA and the decoder of UTF-8 those of
    [TokenCrypto]; the network is an argument, and the clock is read between requests. *)

From S2P Require Import Prelude JsString JsMap Json JsonText JsonStringify JsNumber Admission Noise EpochClient.
From stdpp Require Import prelude strings list pretty.
From Stdlib Require Import ZArith Lia Ascii Floats.SpecFloat.
#[local] Open Scope Z_scope.

(** [crypto.verify] with RSA-SHA256, which throws on a key that is none; the PEM text of
    a JWK; [Buffer.toString('utf8')]; the messages of [JSON.parse]. *)
Class TokenCrypto := {
  json_error : string → string;              (* the message of [JSON.parse] *)
  rsa_verify : string → string → string → option bool;      (* key, data, signature *)
  jwk_pem : string → string → option string;                (* n, e *)
  utf8 : string → string
}.

(** [BridgeError]s with their codes, and other errors. *)
Inductive TokenError := Invalid (message : string) | IssueFailed (message : string) | OtherError (message : string).
Definition Outcome (A : Type) : Type := TokenError + A.
#[local] Instance outcome_bind : MBind (sum TokenError) := λ A B f x, match x with inr a => f a | inl e => inl e end.
Definition require (b : bool) (message : string) : Outcome unit := if b then inr tt else inl (Invalid message).

(** ** Verification *)

Record RelayTokenVerificationOptions := {
  issuer : option string; audience : option string; signingKeys : list (string * string); clockSkewSec : option Z
}.

Section tokens.
Context `{Crypto} `{TokenCrypto}.

Definition parseBase64UrlJson (segment label : string) : Outcome json :=
  match JSON_parse (utf8 (fromBase64Url segment)) with
  | Some v => inr v
  | None => inl (Invalid ("relay token " +:+ label +:+ " JSON invalid: " +:+ json_error (utf8 (fromBase64Url segment))))
  end.

Definition is_finite (x : spec_float) : bool := match x with S754_zero _ | S754_finite _ _ _ => true | _ => false end.
Definition ensureNumericClaim (payload : record) (name : string) : Outcome (option spec_float) :=
  match field payload name with
  | None => inr None
  | Some (JNum x) => if is_finite x then inr (Some x) else inl (Invalid ("relay token " +:+ name +:+ " claim must be numeric"))
  | Some _ => inl (Invalid ("relay token " +:+ name +:+ " claim must be numeric"))
  end.

Definition string_value (v : json) : option string := match v with JStr s => Some s | _ => None end.
Definition audience_error (expected : string) : TokenError := Invalid ("relay token audience mismatch (expected " +:+ expected +:+ ")").
Definition ensureAudience (payload : record) (expectedAudience : option string) : Outcome unit :=
  match expectedAudience with
  | Some expected =>
      if negb (truthy_str expected) then inr tt
      else
        match field payload "aud" with
        | Some (JStr aud) => if bool_decide (aud = expected) then inr tt else inl (audience_error expected)
        | Some (JArr l) =>
            match mapM string_value l with
            | Some auds => if bool_decide (expected ∈ auds) then inr tt else inl (audience_error expected)
            | None => inl (Invalid "relay token aud claim is missing/invalid")
            end
        | _ => inl (Invalid "relay token aud claim is missing/invalid")
        end
  | None => inr tt
  end.

(** What [signingKeys[kid]] finds on the prototype of every object. *)
Definition prototype_names : list string :=
  ["constructor"; "__defineGetter__"; "__defineSetter__"; "hasOwnProperty"; "__lookupGetter__"; "__lookupSetter__";
   "isPrototypeOf"; "propertyIsEnumerable"; "toString"; "valueOf"; "__proto__"; "toLocaleString"].

Definition signing_key (options : RelayTokenVerificationOptions) (kid : string) : Outcome string :=
  match jm_get kid (signingKeys options) with
  | Some key => if nonblank key then inr key else inl (Invalid ("relay token key id " +:+ kid +:+ " is not trusted"))
  | None =>
      if bool_decide (kid ∈ prototype_names) then inl (OtherError "signingKey.trim is not a function")
      else inl (Invalid ("relay token key id " +:+ kid +:+ " is not trusted"))
  end.

Definition signature_valid (alg key signed signaturePart : string) : Outcome bool :=
  if bool_decide (alg = "HS256") then inr (Upgrade.secureCompare (toBase64Url (hmac key signed)) signaturePart)
  else
    match rsa_verify key signed (fromBase64Url signaturePart) with
    | Some valid => inr valid
    | None => inl (OtherError "invalid key")
    end.

(** [header.kid], or the first version. *)
Definition key_id (header : record) : string :=
  match field header "kid" with Some (JStr kid) => if nonblank kid then kid else "v1" | _ => "v1" end.

Definition num_le (x y : spec_float) : bool := num_lt x y || num_eq x y.

Definition check_times (payload : record) (nowSec skew : Z) : Outcome unit :=
  exp ← ensureNumericClaim payload "exp";
  iat ← ensureNumericClaim payload "iat";
  nbf ← ensureNumericClaim payload "nbf";
  match exp with
  | None => inl (Invalid "relay token exp claim is required")
  | Some exp =>
      _ ← require (negb (num_le exp (num_of_Z (nowSec - skew)))) "relay token is expired";
      _ ← require (match iat with Some iat => negb (num_lt (num_of_Z (nowSec + skew)) iat) | None => true end)
        "relay token iat is in the future";
      require (match nbf with Some nbf => negb (num_lt (num_of_Z (nowSec + skew)) nbf) | None => true end)
        "relay token is not active yet"
  end.

Definition algorithm (header : record) : Outcome string :=
  match field header "alg" with
  | Some (JStr alg) => if bool_decide (alg ∈ ["HS256"; "RS256"]) then inr alg else inl (Invalid ("unsupported relay token alg: " +:+ alg))
  | v => inl (Invalid ("unsupported relay token alg: " +:+ match v with Some v => js_String v | None => "undefined" end))
  end.

Definition check_issuer (payload : record) (expected : option string) : Outcome unit :=
  match expected with
  | Some iss =>
      require (negb (truthy_str iss) || is_str (field payload "iss") iss)
        ("relay token issuer mismatch (expected " +:+ iss +:+ ")")
  | None => inr tt
  end.

Definition check_claims (payload : record) (options : RelayTokenVerificationOptions) (nowSec : Z) : Outcome record :=
  _ ← check_issuer payload (issuer options);
  _ ← ensureAudience payload (audience options);
  _ ← check_times payload nowSec (Z.max 0 (coalesce (clockSkewSec options) 30%Z));
  match field payload "jti" with
  | Some (JStr jti) => if nonblank jti then inr payload else inl (Invalid "relay token jti claim is required")
  | _ => inl (Invalid "relay token jti claim is required")
  end.

Definition verifyRelayTokenClaims (relayToken : string) (options : RelayTokenVerificationOptions) (nowSec : Z) : Outcome record :=
  match split_on "." relayToken with
  | [headerPart; payloadPart; signaturePart] =>
      _ ← require (truthy_str headerPart && truthy_str payloadPart && truthy_str signaturePart) "relay token is malformed";
      h ← parseBase64UrlJson headerPart "header";
      match h with
      | JObj header =>
          alg ← algorithm header;
          key ← signing_key options (key_id header);
          valid ← signature_valid alg key (headerPart +:+ "." +:+ payloadPart) signaturePart;
          _ ← require (valid : bool) "relay token signature invalid";
          p ← parseBase64UrlJson payloadPart "payload";
          match p with
          | JObj payload => check_claims payload options nowSec
          | _ => inl (Invalid "relay token payload is not an object")
          end
      | _ => inl (Invalid "relay token header is invalid")
      end
  | _ => inl (Invalid "relay token is malformed")
  end.

(** ** What a verified token is *)

Definition numeric (payload : record) (name : string) (P : spec_float → Prop) : Prop :=
  match field payload name with None => True | Some (JNum x) => is_finite x = true ∧ P x | Some _ => False end.

Definition for_audience (payload : record) (expected : string) : Prop :=
  field payload "aud" = Some (JStr expected) ∨
  ∃ l auds, field payload "aud" = Some (JArr l) ∧ mapM string_value l = Some auds ∧ expected ∈ auds.

(** What signs a text under a key: an RSA signature, or its HMAC with the text of the key,
    in base64url.  The keys of an endpoint are public, so the second is no proof of who
    signed; a token's own header says which of the two it has. *)
Inductive signs (key signed : string) : string → string → Prop :=
| signed_by_rsa signature : rsa_verify key signed (fromBase64Url signature) = Some true → signs key signed "RS256" signature
| signed_by_hmac : signs key signed "HS256" (toBase64Url (hmac key signed)).

Record genuine (token : string) (options : RelayTokenVerificationOptions) (nowSec : Z) (payload : record) : Prop := {
  g_signed : ∃ headerPart payloadPart signaturePart header alg key,
    split_on "." token = [headerPart; payloadPart; signaturePart] ∧ headerPart ≠ "" ∧ payloadPart ≠ "" ∧ signaturePart ≠ "" ∧
    parseBase64UrlJson headerPart "header" = inr (JObj header) ∧ field header "alg" = Some (JStr alg) ∧
    jm_get (key_id header) (signingKeys options) = Some key ∧ nonblank key = true ∧
    signs key (headerPart +:+ "." +:+ payloadPart) alg signaturePart ∧
    parseBase64UrlJson payloadPart "payload" = inr (JObj payload);
  g_issuer : ∀ iss, issuer options = Some iss → iss ≠ "" → field payload "iss" = Some (JStr iss);
  g_audience : ∀ aud, audience options = Some aud → aud ≠ "" → for_audience payload aud;
  g_times : let skew := Z.max 0 (coalesce (clockSkewSec options) 30%Z) in
    is_Some (field payload "exp") ∧
    numeric payload "exp" (λ exp, num_le exp (num_of_Z (nowSec - skew)) = false) ∧
    numeric payload "iat" (λ iat, num_lt (num_of_Z (nowSec + skew)) iat = false) ∧
    numeric payload "nbf" (λ nbf, num_lt (num_of_Z (nowSec + skew)) nbf = false);
  g_id : ∃ jti, field payload "jti" = Some (JStr jti) ∧ nonblank jti = true
}.

(** ** [RelayTokenIssuer] *)

Record RelayTokenIssuerOptions := {
  relayServerUrl : string; workspaceId : string; runtimeTargetId : option string;
  relayTokenIssuer : option string; relayTokenAudience : option string; relayTokenJwksUrl : option string;
  relayTokenSigningKeys : option (list (string * string)); relayTokenClockSkewSec : option Z
}.

(** The issuer's token and its cache of the keys read from the JWKS endpoint. *)
Record Issuer := { daemonIssueToken : option string; jwksCacheExpiresAt : Z; jwksCacheKeys : list (string * string) }.
Definition new_issuer (token : option string) : Issuer :=
  {| daemonIssueToken := token; jwksCacheExpiresAt := 0; jwksCacheKeys := [] |}.
Definition setDaemonIssueToken (token : option string) (st : Issuer) : Issuer :=
  {| daemonIssueToken := token; jwksCacheExpiresAt := jwksCacheExpiresAt st; jwksCacheKeys := jwksCacheKeys st |}.

(** What a request gives: an error, or a response with its status and the value [res.json()] reads. *)
Inductive Answer := Unanswered (message : string) | Answered (status : Z) (body : option json).
Definition ok_status (status : Z) : bool := (200 <=? status) && (status <? 300).

(** The requests of one call, with the times at which the cache is asked and filled. *)
Record Network := { at_issue : string → json → Answer; at_jwks : bool → string → Answer; asked : bool → Z; filled : bool → Z; verified_at : Z }.

Definition text_of (v : option json) : string := match v with Some (JStr s) => s | _ => "" end.
(** [keys[kid] = pem] on an object literal: the name [__proto__] sets no property. *)
Definition set_key (kid pem : string) (keys : list (string * string)) : list (string * string) :=
  if String.eqb kid "__proto__" then keys else jm_set kid pem keys.
Definition add_entry (keys : list (string * string)) (entry : json) : list (string * string) :=
  match entry with
  | JObj entry =>
      let kid := trim (text_of (field entry "kid")) in
      let alg := text_of (field entry "alg") in
      let n := text_of (field entry "n") in
      let e := text_of (field entry "e") in
      if negb (truthy_str kid) || negb (is_str (field entry "kty") "RSA") || negb (truthy_str n) || negb (truthy_str e) then keys
      else if truthy_str alg && negb (String.eqb alg "RS256") then keys
      else match jwk_pem n e with Some pem => set_key kid pem keys | None => keys end
  | _ => keys
  end.
Definition parseJwksSigningKeys (entries : list json) : Outcome (list (string * string)) :=
  let keys := foldl add_entry [] entries in
  if bool_decide (keys = []) then inl (Invalid "JWKS contained no usable signing keys") else inr keys.

Definition MAX_JWKS_KEYS : nat := 64%nat.
Definition fetch_keys (answer : Answer) : Outcome (list (string * string)) :=
  match answer with
  | Unanswered message => inl (Invalid ("failed to fetch JWKS: " +:+ message))
  | Answered status body =>
      if negb (ok_status status) then inl (Invalid ("JWKS endpoint returned HTTP " +:+ pretty status))
      else
        match body with
        | Some (JObj parsed) =>
            match field parsed "keys" with
            | Some (JArr keys) =>
                if (MAX_JWKS_KEYS <? length keys)%nat
                then inl (Invalid ("JWKS response contains too many keys (" +:+ pretty (length keys) +:+ " > " +:+ pretty MAX_JWKS_KEYS +:+ ")"))
                else parseJwksSigningKeys keys
            | _ => inl (Invalid "JWKS response missing keys array")
            end
        | _ => inl (Invalid "JWKS response missing keys array")
        end
  end.

Definition resolveRelayTokenVerificationKeys (options : RelayTokenIssuerOptions) (net : Network) (forceRefresh : bool)
    (st : Issuer) : Issuer * Outcome (list (string * string)) :=
  let url := default "" (relayTokenJwksUrl options) in
  if negb (truthy_str url) then (st, inr (coalesce (relayTokenSigningKeys options) []))
  else if negb forceRefresh && (asked net forceRefresh <? jwksCacheExpiresAt st) && negb (bool_decide (jwksCacheKeys st = []))
  then (st, inr (jwksCacheKeys st))
  else
    match fetch_keys (at_jwks net forceRefresh url) with
    | inl e => (st, inl e)
    | inr keys =>
        ({| daemonIssueToken := daemonIssueToken st; jwksCacheExpiresAt := filled net forceRefresh + 5 * 60000; jwksCacheKeys := keys |},
         inr keys)
    end.

Definition verification_options (options : RelayTokenIssuerOptions) (keys : list (string * string)) : RelayTokenVerificationOptions :=
  {| issuer := Some (coalesce (relayTokenIssuer options) "viewport-server");
     audience := Some (coalesce (relayTokenAudience options) "viewport-relay");
     signingKeys := keys; clockSkewSec := Some (coalesce (relayTokenClockSkewSec options) 30) |}.
Definition verifyTokenClaims (options : RelayTokenIssuerOptions) (net : Network) (relayToken : string)
    (keys : list (string * string)) : Outcome record :=
  verifyRelayTokenClaims relayToken (verification_options options keys) (verified_at net).

Definition not_trusted (e : TokenError) : bool := match e with Invalid message => includes message "is not trusted" | _ => false end.
Definition verifyIssueResponseToken (options : RelayTokenIssuerOptions) (net : Network) (relayToken : string)
    (st : Issuer) : Issuer * Outcome record :=
  let '(st, keys) := resolveRelayTokenVerificationKeys options net false st in
  match keys with
  | inl e => (st, inl e)
  | inr keys =>
      match verifyTokenClaims options net relayToken keys with
      | inr claims => (st, inr claims)
      | inl e =>
          if truthy_opt (relayTokenJwksUrl options) && not_trusted e then
            let '(st, keys) := resolveRelayTokenVerificationKeys options net true st in
            (st, keys ← keys; verifyTokenClaims options net relayToken keys)
          else (st, inl e)
      end
  end.

Definition issue_url (options : RelayTokenIssuerOptions) : string := without_final_slashes (relayServerUrl options) +:+ "/api/runtime/relay-token".
Definition issue_body (options : RelayTokenIssuerOptions) (token : string) : json :=
  JObj ([("role", JStr "workspace-daemon"); ("workspaceId", JStr (workspaceId options))] ++
        match runtimeTargetId options with Some t => [("runtimeTargetId", JStr t)] | None => [] end ++
        [("credential", JStr token)]).
(** [parseRelayIssueResponse], as the fields of the object read. *)
Definition parseRelayIssueResponse (status : Z) (body : option json) : record :=
  if negb (Validate.truthy_json body)
  then [("ok", JBool false); ("reason", JStr ("relay token endpoint returned non-JSON (" +:+ pretty status +:+ ")"))]
  else match body with Some (JObj o) => o | _ => [] end.
(** [v ?? ...] *)
Definition nonnull (v : option json) : option json := match v with Some JNull => None | v => v end.
Definition refusal (parsed : record) (status : Z) : string :=
  match nonnull (field parsed "reason"), nonnull (field parsed "error") with
  | Some v, _ | None, Some v => js_String v
  | None, None => "HTTP " +:+ pretty status
  end.
Definition profile_claim (claims : record) : option RelayHandshakeProfile :=
  parseRelayHandshakeProfile (Some (coalesce (nonnull (field claims "e2eeProfile")) (JStr "noise-ik"))).

Definition issue (options : RelayTokenIssuerOptions) (net : Network) (st : Issuer) : Issuer * Outcome (string * RelayHandshakeProfile) :=
  let credential := default "" (daemonIssueToken st) in
  if negb (truthy_str credential) then (st, inl (IssueFailed "missing daemon issue token"))
  else
    match at_issue net (issue_url options) (issue_body options credential) with
    | Unanswered message => (st, inl (IssueFailed message))
    | Answered status body =>
        let parsed := parseRelayIssueResponse status body in
        if negb (ok_status status) || negb (Validate.truthy_json (field parsed "ok")) || negb (Validate.truthy_json (field parsed "relayToken"))
        then (st, inl (IssueFailed ("issue relay token failed: " +:+ refusal parsed status)))
        else
          match field parsed "relayToken" with
          | Some (JStr relayToken) =>
              let '(st, claims) := verifyIssueResponseToken options net relayToken st in
              (st, claims ← claims;
                   match profile_claim claims with
                   | Some profile => inr (relayToken, profile)
                   | None => inl (Invalid "missing/invalid e2eeProfile claim")
                   end)
          | _ =>                    (* [relayToken.split] on what is no string, after the keys are read *)
              let '(st, keys) := resolveRelayTokenVerificationKeys options net false st in
              (st, _ ← keys; inl (OtherError "relayToken.split is not a function"))
          end
    end.

(** ** Verification succeeds on genuine tokens only *)

Lemma bind_inr {A B} (x : Outcome A) (f : A → Outcome B) b : x ≫= f = inr b ↔ ∃ a, x = inr a ∧ f a = inr b.
Proof. destruct x; simpl; naive_solver. Qed.
Lemma bind_unit {B} (x : Outcome unit) (y : Outcome B) b : (_ ← x; y) = inr b ↔ x = inr () ∧ y = inr b.
Proof. destruct x as [|[]]; simpl; naive_solver. Qed.
Lemma require_inr b message u : require b message = inr u ↔ b = true.
Proof. destruct b, u; simpl; naive_solver. Qed.

Lemma numeric_iff payload name (o : option spec_float) : ensureNumericClaim payload name = inr o ↔
  numeric payload name (λ x, o = Some x) ∧ (field payload name = None → o = None).
Proof.
  unfold ensureNumericClaim, numeric. destruct (field payload name) as [[]|]; try naive_solver.
  destruct (is_finite x) eqn:E; naive_solver.
Qed.

Lemma audience_iff payload aud : aud ≠ "" → ensureAudience payload (Some aud) = inr () ↔ for_audience payload aud.
Proof.
  intros Ha. unfold ensureAudience, for_audience. rewrite (proj2 (truthy_str_true aud) Ha). simpl.
  destruct (field payload "aud") as [[]|]; try naive_solver.
  - case_bool_decide; naive_solver.
  - destruct (mapM string_value l) eqn:E; [case_bool_decide|]; naive_solver.
Qed.

Lemma times_iff payload now skew : check_times payload now skew = inr () ↔
  is_Some (field payload "exp") ∧
  numeric payload "exp" (λ exp, num_le exp (num_of_Z (now - skew)) = false) ∧
  numeric payload "iat" (λ iat, num_lt (num_of_Z (now + skew)) iat = false) ∧
  numeric payload "nbf" (λ nbf, num_lt (num_of_Z (now + skew)) nbf = false).
Proof.
  unfold check_times, ensureNumericClaim, numeric.
  destruct (field payload "exp") as [[| |x| | |]|], (field payload "iat") as [[| |y| | |]|], (field payload "nbf") as [[| |z| | |]|];
    repeat (case_match; simplify_eq); cbn [mbind outcome_bind];
    repeat match goal with |- context [require ?b ?m] => destruct b eqn:?; cbn [mbind outcome_bind require] end;
    rewrite ?negb_true_iff, ?negb_false_iff in *; split; intros; destruct_and?; try congruence; naive_solver.
Qed.

Lemma issuer_iff payload expected : check_issuer payload expected = inr () ↔
  ∀ iss, expected = Some iss → iss ≠ "" → field payload "iss" = Some (JStr iss).
Proof.
  unfold check_issuer. destruct expected as [iss|]; [|naive_solver].
  rewrite require_inr, orb_true_iff, negb_true_iff, <- not_true_iff_false, truthy_str_true, is_str_true.
  split; [naive_solver|intros H1]. destruct (decide (iss = "")); naive_solver.
Qed.

Lemma audiences_iff payload expected : ensureAudience payload expected = inr () ↔
  ∀ aud, expected = Some aud → aud ≠ "" → for_audience payload aud.
Proof.
  destruct expected as [aud|]; [|simpl; naive_solver]. destruct (decide (aud = "")) as [->|Ha]; [simpl; naive_solver|].
  rewrite audience_iff by done. naive_solver.
Qed.

Lemma claims_iff payload options now p : check_claims payload options now = inr p ↔
  p = payload ∧ check_issuer payload (issuer options) = inr () ∧ ensureAudience payload (audience options) = inr () ∧
  check_times payload now (Z.max 0 (coalesce (clockSkewSec options) 30)) = inr () ∧
  ∃ jti, field payload "jti" = Some (JStr jti) ∧ nonblank jti = true.
Proof.
  unfold check_claims. rewrite !bind_unit.
  destruct (field payload "jti") as [[| | |jti| |]|] eqn:E; try naive_solver.
  destruct (nonblank jti) eqn:Ej; split.
  - intros (? & ? & ? & [= ->]). repeat split; try done. by exists jti.
  - by intros (-> & ? & ? & ? & _).
  - by intros (_ & _ & _ & [=]).
  - intros (_ & _ & _ & _ & j & [= ->] & H1). by rewrite H1 in Ej.
Qed.

Lemma algorithm_iff header alg : algorithm header = inr alg ↔ field header "alg" = Some (JStr alg) ∧ alg ∈ ["HS256"; "RS256"].
Proof.
  unfold algorithm. destruct (field header "alg") as [[| | |a| |]|]; try (split; [done|by intros [[=] _]]).
  case_bool_decide as Ha; split; [by intros [= ->]|by intros [[= ->] _]|done|by intros [[= ->] ?]].
Qed.

Lemma key_iff options kid key : signing_key options kid = inr key ↔ jm_get kid (signingKeys options) = Some key ∧ nonblank key = true.
Proof.
  unfold signing_key. destruct (jm_get kid (signingKeys options)) as [k|].
  - destruct (nonblank k) eqn:E; split; [by intros [= ->]|by intros [[= ->] _]|done|by intros [[= ->] ?]; congruence].
  - case_bool_decide; split; try done; by intros [[=] _].
Qed.

Lemma signature_iff alg key signed signature :
  alg ∈ ["HS256"; "RS256"] ∧ signature_valid alg key signed signature = inr true ↔ signs key signed alg signature.
Proof.
  unfold signature_valid. split.
  - intros [Ha Hv]. case_bool_decide as Eh.
    + subst alg. injection Hv as Hv. apply Upgrade.secureCompare_eq in Hv as <-. constructor.
    + assert (alg = "RS256") as -> by set_solver. destruct (rsa_verify key signed _) as [v|] eqn:E; [|done].
      injection Hv as ->. by constructor.
  - intros [sg E|].
    + split; [set_solver|]. rewrite bool_decide_eq_false_2 by done. by rewrite E.
    + split; [set_solver|]. rewrite bool_decide_eq_true_2 by done. f_equal. by apply Upgrade.secureCompare_eq.
Qed.

(** A token is verified exactly when it is genuine — it has three parts of which the last signs the two others
    under the trusted key its header names, it is for this issuer and audience, its times hold within the clock's
    skew and it has an identifier — and what verification gives is the payload that was signed. *)
Lemma token_accepted_iff token options now payload :
  verifyRelayTokenClaims token options now = inr payload ↔ genuine token options now payload.
Proof.
  unfold verifyRelayTokenClaims. split.
  - destruct (split_on "." token) as [|h [|b [|g [|]]]] eqn:Es; try done.
    rewrite bind_inr. intros (u & Hp & Hh). apply require_inr in Hp. rewrite !andb_true_iff, !truthy_str_true in Hp.
    apply bind_inr in Hh as ([| | | | |header] & Eh & Hh); try done.
    apply bind_inr in Hh as (alg & [Ea Hin]%algorithm_iff & Hh). apply bind_inr in Hh as (key & [Ek Hk]%key_iff & Hh).
    apply bind_inr in Hh as ([] & Ev & Hh); [|done]. cbn [require mbind outcome_bind] in Hh.
    apply bind_inr in Hh as ([| | | | |p] & Ep & Hh); try done.
    apply claims_iff in Hh as (<- & H1 & H2 & H3 & H4).
    split; [|by apply issuer_iff|by apply audiences_iff|by apply times_iff|done].
    destruct Hp as [[? ?] ?]. exists h, b, g, header, alg, key. pose proof (proj1 (signature_iff _ _ _ _) (conj Hin Ev)). naive_solver.
  - intros [(h & b & g & header & alg & key & -> & Hh & Hb & Hg & Eh & Ea & Ek & Hk & [Hin Ev]%signature_iff & Ep) H1 H2 H3 H4].
    apply truthy_str_true in Hh, Hb, Hg. rewrite Hh, Hb, Hg. cbn [require andb mbind outcome_bind]. rewrite Eh. cbn [mbind outcome_bind].
    rewrite (proj2 (algorithm_iff header alg) (conj Ea Hin)). cbn [mbind outcome_bind].
    rewrite (proj2 (key_iff _ _ key) (conj Ek Hk)). cbn [mbind outcome_bind]. rewrite Ev. cbn [require mbind outcome_bind].
    rewrite Ep. cbn [mbind outcome_bind]. apply claims_iff. rewrite issuer_iff, audiences_iff, times_iff. naive_solver.
Qed.

(** ** What the bridge receives *)

(** The keys [issue] may verify with: the configured ones when no endpoint is, else the cached ones while they are
    fresh, or those the endpoint has just given. *)
Inductive trusted_source (options : RelayTokenIssuerOptions) (net : Network) (st : Issuer) : list (string * string) → Prop :=
| configured_keys : truthy_opt (relayTokenJwksUrl options) = false → trusted_source options net st (coalesce (relayTokenSigningKeys options) [])
| cached_keys : asked net false < jwksCacheExpiresAt st → jwksCacheKeys st ≠ [] → trusted_source options net st (jwksCacheKeys st)
| read_keys force url status body parsed entries keys :
    relayTokenJwksUrl options = Some url → at_jwks net force url = Answered status body → ok_status status = true →
    body = Some (JObj parsed) → field parsed "keys" = Some (JArr entries) → (length entries ≤ MAX_JWKS_KEYS)%nat →
    parseJwksSigningKeys entries = inr keys → trusted_source options net st keys.

Lemma fetch_inr options net st force url keys : relayTokenJwksUrl options = Some url →
  fetch_keys (at_jwks net force url) = inr keys → trusted_source options net st keys.
Proof.
  intros Eu. destruct (at_jwks net force url) as [|status body] eqn:E; [done|]. simpl.
  destruct (ok_status status) eqn:Eo; [|done]. destruct body as [[| | | | |parsed]|]; try done. simpl.
  destruct (field parsed "keys") as [[| | | |entries|]|] eqn:Ef; try done.
  destruct (MAX_JWKS_KEYS <? length entries)%nat eqn:El; [done|]. apply Nat.ltb_ge in El.
  intros Ek. by apply (read_keys _ _ _ force url status (Some (JObj parsed)) parsed entries).
Qed.

(** Reading the keys again does not use the cache. *)
Lemma resolved_trusted options net st0 force st st' keys : (force = false → st = st0) →
  resolveRelayTokenVerificationKeys options net force st = (st', inr keys) → trusted_source options net st0 keys.
Proof.
  intros Hst. unfold resolveRelayTokenVerificationKeys.
  destruct (truthy_str (default "" (relayTokenJwksUrl options))) eqn:Et; cbn [negb].
  - assert (∃ url, relayTokenJwksUrl options = Some url) as [url Eu] by (destruct (relayTokenJwksUrl options); naive_solver).
    rewrite Eu. cbn [default]. case_match eqn:Ec.
    + intros [= <- <-]. rewrite !andb_true_iff, !negb_true_iff, bool_decide_eq_false, Z.ltb_lt in Ec.
      destruct Ec as [[-> ?] ?]. rewrite Hst in * by done. by constructor.
    + destruct (fetch_keys _) eqn:E; intros [= <- <-]. by eapply fetch_inr.
  - intros [= <- <-]. apply configured_keys. unfold truthy_opt. by destruct (relayTokenJwksUrl options).
Qed.

Lemma verified_trusted options net token st st' claims : verifyIssueResponseToken options net token st = (st', inr claims) →
  ∃ keys, trusted_source options net st keys ∧ genuine token (verification_options options keys) (verified_at net) claims.
Proof.
  unfold verifyIssueResponseToken. destruct (resolveRelayTokenVerificationKeys options net false st) as [st1 [e|keys]] eqn:E1; [done|].
  apply (resolved_trusted _ _ st) in E1; [|done]. unfold verifyTokenClaims.
  destruct (verifyRelayTokenClaims token (verification_options options keys) (verified_at net)) eqn:Ev.
  - case_match; [|done].
    destruct (resolveRelayTokenVerificationKeys options net true st1) as [st2 keys2] eqn:E2. intros [= <- Hr]. apply bind_inr in Hr as (keys3 & -> & Hk3).
    apply (resolved_trusted _ _ st) in E2; [|done]. exists keys3. split; [done|]. by apply token_accepted_iff.
  - intros [= <- <-]. exists keys. split; [done|]. by apply token_accepted_iff.
Qed.

(** Each call of [issue] leaves the token the issuer had. *)
Lemma resolve_token options net force st : daemonIssueToken (resolveRelayTokenVerificationKeys options net force st).1 = daemonIssueToken st.
Proof. unfold resolveRelayTokenVerificationKeys. repeat case_match; done. Qed.

(** C32: the bridge receives only tokens of the server that are genuine for this issuer and
    audience at the time they are verified, under keys that are the configured ones or
    come from the key endpoint — read in this call, or cached and not expired — together
    with the profile the token claims; the token presented is the issuer's own.  Genuine
    means that the third part of the token is an RSA signature of the two others under the
    key that the header names, or, when the header asks for HS256, their HMAC with the
    text of that key; as the endpoint's keys are public, a token of the second kind
    proves nothing about who made it. *)
Theorem issued_token_verified options net st st' token profile :
  issue options net st = (st', inr (token, profile)) →
  ∃ credential status body parsed keys claims,
    daemonIssueToken st = Some credential ∧ credential ≠ "" ∧
    at_issue net (issue_url options) (issue_body options credential) = Answered status body ∧ ok_status status = true ∧
    parseRelayIssueResponse status body = parsed ∧ Validate.truthy_json (field parsed "ok") = true ∧
    field parsed "relayToken" = Some (JStr token) ∧
    trusted_source options net st keys ∧ genuine token (verification_options options keys) (verified_at net) claims ∧
    profile_claim claims = Some profile.
Proof.
  unfold issue. destruct (daemonIssueToken st) as [credential|] eqn:Ed; [|done].
  change (default "" (Some credential)) with credential.
  destruct (truthy_str credential) eqn:Et; [|done]. cbn [negb]. apply truthy_str_true in Et.
  destruct (at_issue net _ _) as [|status body] eqn:Ea; [done|].
  destruct (negb (ok_status status) || _ || _) eqn:Eg; [done|].
  rewrite !orb_false_iff, !negb_false_iff in Eg. destruct Eg as [[Ho Hok] _].
  destruct (field _ "relayToken") as [[| | |t| |]|] eqn:Er;
    try (destruct (resolveRelayTokenVerificationKeys _ _ _ _) as [? []]; done).
  destruct (verifyIssueResponseToken options net t st) as [st1 [e|claims]] eqn:Ev; [done|].
  cbn [mbind outcome_bind]. destruct (profile_claim claims) as [p|] eqn:Ep; [|done]. intros [= <- <- <-].
  apply verified_trusted in Ev as (keys & H1 & H2). by exists credential, status, body, (parseRelayIssueResponse status body), keys, claims.
Qed.
End tokens.

(** ** A public key signs

    The keys of the endpoint are public.  A token whose header asks for HS256 is checked
    with the text of such a key as the secret of an HMAC, so whoever reads the endpoint
    can sign: no RSA signature is needed. *)
Module TokenExamples.

#[export] Instance crypto : Crypto := {|
  sha256 := λ x, x; hmac := λ key data, "hmac" +:+ key; hkdfSync := λ ikm salt info, ikm;
  aes_seal := λ key iv aad p, (p, ""); aes_open := λ key iv aad body t, Some body;
  valid_private := λ _, true; p256_public := λ k, k; computeSecret := λ _ _, None;
  toBase64Url := λ b, b; fromBase64Url := λ b, b
|}.
(** One signature is valid under a key. *)
#[export] Instance token_crypto : TokenCrypto := {|
  json_error := λ _, "syntax"; rsa_verify := λ key _ signature, Some (String.eqb signature ("rsa" +:+ key)); jwk_pem := λ n e, Some ("pem" +:+ n +:+ e); utf8 := λ b, b
|}.

Definition options : RelayTokenIssuerOptions := {|
  relayServerUrl := "https://relay/"; workspaceId := "w"; runtimeTargetId := None; relayTokenIssuer := None;
  relayTokenAudience := None; relayTokenJwksUrl := Some "https://relay/jwks"; relayTokenSigningKeys := None;
  relayTokenClockSkewSec := None |}.

Definition jwks : json :=
  JObj [("keys", JArr [JObj [("kid", JStr "k1"); ("kty", JStr "RSA"); ("alg", JStr "RS256"); ("n", JStr "N"); ("e", JStr "E")]])].

Definition header_text (alg : string) : string := JSON_stringify (JObj [("alg", JStr alg); ("kid", JStr "k1")]).
Definition payload_text : string :=
  JSON_stringify (JObj [("iss", JStr "viewport-server"); ("aud", JStr "viewport-relay"); ("exp", JNum (num_of_Z 1000)); ("jti", JStr "j")]).
Definition token_with (alg signature : string) : string := header_text alg +:+ "." +:+ payload_text +:+ "." +:+ signature.

Definition network (token : string) : Network := {|
  at_issue := λ _ _, Answered 200 (Some (JObj [("ok", JBool true); ("relayToken", JStr token)]));
  at_jwks := λ _ _, Answered 200 (Some jwks); asked := λ _, 500; filled := λ _, 500; verified_at := 500 |}.

Definition start : Issuer := new_issuer (Some "credential").

(** The token is signed with the text of the key itself. *)
Lemma public_key_signs : (issue options (network (token_with "HS256" "hmacpemNE")) start).2 = inr (token_with "HS256" "hmacpemNE", noise_ik).
Proof. vm_compute. reflexivity. Qed.
Lemma forged_RS256_refused : (issue options (network (token_with "RS256" "hmacpemNE")) start).2 = inl (Invalid "relay token signature invalid").
Proof. vm_compute. reflexivity. Qed.

(** A key the cache lacks is asked for once more, in the same call. *)
Lemma cache_read_again :
  let st := {| daemonIssueToken := Some "credential"; jwksCacheExpiresAt := 1000; jwksCacheKeys := [("k0", "pem")] |} in
  issue options (network (token_with "HS256" "hmacpemNE")) st =
    ({| daemonIssueToken := Some "credential"; jwksCacheExpiresAt := 300500; jwksCacheKeys := [("k1", "pemNE")] |},
     inr (token_with "HS256" "hmacpemNE", noise_ik)).
Proof. vm_compute. reflexivity. Qed.

Lemma issued_token_verified_witness :
  ∃ credential status body parsed keys claims,
    daemonIssueToken start = Some credential ∧ credential ≠ "" ∧
    at_issue (network (token_with "RS256" "rsapemNE")) (issue_url options) (issue_body options credential) = Answered status body ∧
    ok_status status = true ∧ parseRelayIssueResponse status body = parsed ∧ Validate.truthy_json (field parsed "ok") = true ∧
    field parsed "relayToken" = Some (JStr (token_with "RS256" "rsapemNE")) ∧
    trusted_source options (network (token_with "RS256" "rsapemNE")) start keys ∧
    genuine (token_with "RS256" "rsapemNE") (verification_options options keys) 500 claims ∧ profile_claim claims = Some noise_ik.
Proof.
  apply (issued_token_verified options (network (token_with "RS256" "rsapemNE")) start
    (issue options (network (token_with "RS256" "rsapemNE")) start).1).
  vm_compute. reflexivity.
Defined.
End TokenExamples.
