(* ===== verification/RunReceipt.v ===== *)
(** * Receipts of workflow runs

    [workflows/run-receipt-validation.ts].  A receipt lists what happened in a run; every
    entry carries a digest of its content and of the digest before it, and the document
    ends with the last one.  [receipt_binds] states what a valid receipt is worth: two
    valid receipts with the same head tell the same story, unless they exhibit a collision
    of the digest.  The schema and
    [canonicalDigest] belong to the protocol package and are arguments. *)

From S2P Require Import Prelude JsString JsMap Json JsonText JsonStringify CanonicalJson EpochClient.
From stdpp Require Import prelude strings list pretty.
From Stdlib Require Import ZArith Lia Floats.SpecFloat.

(** The fields of [RunReceiptDocument] that are read. *)
Record ReceiptEntry := {
  e_seq : spec_float; e_leg : json; e_occurred_at : json; e_actor : json; e_summary : json;
  e_prev_digest : option string; e_entry_digest : string
}.
Record RunReceiptDocument := {
  d_run : record; d_policy_of_record : json; d_document_digest : string; d_entries : list ReceiptEntry;
  d_head_seq : spec_float; d_head_digest : string
}.
Record RunReceiptValidationIssue := { i_path : string; i_message : string }.
Record RunReceiptValidationResult := { v_ok : bool; v_issues : list RunReceiptValidationIssue; v_document : option RunReceiptDocument }.

(** [RunReceiptDocumentSchema.safeParse]: the issues, as lists of path segments with messages, or the document;
    [canonicalDigest(value, prev)], which throws on what it cannot encode; a second argument that is not given is
    [None]. *)
Class Protocol := {
  safeParse : json → list (list string * string) + RunReceiptDocument;
  canonicalDigest : json → option (option string) → string + string;
  RUN_RECEIPT_ENTRY_SCHEMA_ID : string
}.

Section receipts.
Context `{Protocol}.

(** A field that [document.run] lacks is [undefined], which JSON leaves out. *)
Definition given (key : string) (v : option json) : record := match v with Some v => [(key, v)] | None => [] end.
Definition entry_value (run : record) (entry : ReceiptEntry) : json :=
  JObj ([("schema", JStr RUN_RECEIPT_ENTRY_SCHEMA_ID)] ++ given "workspace_id" (field run "workspace_id") ++
        given "workflow_run_id" (field run "id") ++
        [("seq", JNum (e_seq entry)); ("leg", e_leg entry); ("occurred_at", e_occurred_at entry);
         ("actor", e_actor entry); ("summary", e_summary entry)]).
Definition document_value (document : RunReceiptDocument) : json :=
  JObj [("run", JObj (d_run document)); ("policy_of_record", d_policy_of_record document)].

Definition number_text (x : spec_float) : string := js_String (JNum x).
Definition issue_at (path message : string) : RunReceiptValidationIssue := {| i_path := path; i_message := message |}.
Definition issue_if (b : bool) (i : RunReceiptValidationIssue) : list RunReceiptValidationIssue := if b then [i] else [].

Definition document_issues (document : RunReceiptDocument) : list RunReceiptValidationIssue :=
  match canonicalDigest (document_value document) None with
  | inl error => [issue_at "document_digest" ("Document is not canonical-JSON encodable: " +:+ error)]
  | inr expected =>
      issue_if (bool_decide (expected ≠ d_document_digest document))
        (issue_at "document_digest" ("Document digest mismatch (expected " +:+ expected +:+ ")."))
  end.

(** One round of the loop. *)
Definition entry_issues (run : record) (index : nat) (prevDigest : option string) (entry : ReceiptEntry) : list RunReceiptValidationIssue :=
  let entryPath := "entries." +:+ pretty index in
  let position := num_of_Z (Z.of_nat index + 1) in
  issue_if (negb (JsNumber.num_eq (e_seq entry) position))
    (issue_at (entryPath +:+ ".seq") ("Expected seq " +:+ number_text position +:+ ", got " +:+ number_text (e_seq entry) +:+ ".")) ++
  issue_if (bool_decide (e_prev_digest entry ≠ prevDigest))
    (issue_at (entryPath +:+ ".prev_digest") ("Chain link broken (expected " +:+ default "null" prevDigest +:+ ").")) ++
  match canonicalDigest (entry_value run entry) (Some prevDigest) with
  | inl error => [issue_at (entryPath +:+ ".entry_digest") ("Entry is not canonical-JSON encodable: " +:+ error)]
  | inr expected =>
      issue_if (bool_decide (expected ≠ e_entry_digest entry))
        (issue_at (entryPath +:+ ".entry_digest") ("Entry digest mismatch (expected " +:+ expected +:+ ")."))
  end.
Fixpoint chain_issues (run : record) (index : nat) (prevDigest : option string) (entries : list ReceiptEntry) : list RunReceiptValidationIssue :=
  match entries with
  | [] => []
  | entry :: entries => entry_issues run index prevDigest entry ++ chain_issues run (S index) (Some (e_entry_digest entry)) entries
  end.

Definition head_issues (document : RunReceiptDocument) : list RunReceiptValidationIssue :=
  match last (d_entries document) with
  | Some lastEntry =>
      issue_if (negb (JsNumber.num_eq (d_head_seq document) (e_seq lastEntry)))
        (issue_at "chain_head.seq" ("Chain head seq " +:+ number_text (d_head_seq document) +:+ " != last entry seq " +:+
           number_text (e_seq lastEntry) +:+ ".")) ++
      issue_if (bool_decide (d_head_digest document ≠ e_entry_digest lastEntry))
        (issue_at "chain_head.digest" "Chain head digest does not match the last entry digest.")
  | None => []
  end.

Definition joined_path (path : list string) : string :=
  let text := JsString.join "." path in if truthy_str text then text else "<root>".
Definition validateRunReceiptDocument (input : json) : RunReceiptValidationResult :=
  match safeParse input with
  | inl issues =>
      {| v_ok := false; v_issues := map (λ '(path, message), issue_at (joined_path path) message) issues; v_document := None |}
  | inr document =>
      let issues := document_issues document ++ chain_issues (d_run document) 0 None (d_entries document) ++ head_issues document in
      {| v_ok := bool_decide (length issues = 0%nat); v_issues := issues; v_document := Some document |}
  end.

(** ** What a valid receipt is *)

(** Entries from the [index]-th on, behind the digest [prev]. *)
Inductive chained (run : record) : nat → option string → list ReceiptEntry → Prop :=
| chained_nil index prev : chained run index prev []
| chained_cons index prev entry entries :
    JsNumber.num_eq (e_seq entry) (num_of_Z (Z.of_nat index + 1)) = true → e_prev_digest entry = prev →
    canonicalDigest (entry_value run entry) (Some prev) = inr (e_entry_digest entry) →
    chained run (S index) (Some (e_entry_digest entry)) entries → chained run index prev (entry :: entries).

Record valid (document : RunReceiptDocument) : Prop := {
  valid_document : canonicalDigest (document_value document) None = inr (d_document_digest document);
  valid_chain : chained (d_run document) 0 None (d_entries document);
  valid_head : ∀ entry, last (d_entries document) = Some entry →
    JsNumber.num_eq (d_head_seq document) (e_seq entry) = true ∧ d_head_digest document = e_entry_digest entry
}.

Lemma issue_if_nil b i : issue_if b i = [] ↔ b = false.
Proof. by destruct b. Qed.
Lemma differs_nil {A} `{EqDecision A} (x y : A) i : issue_if (bool_decide (x ≠ y)) i = [] ↔ x = y.
Proof. rewrite issue_if_nil, bool_decide_eq_false. split; [apply dec_stable|naive_solver]. Qed.
Lemma differing_number_nil x y i : issue_if (negb (JsNumber.num_eq x y)) i = [] ↔ JsNumber.num_eq x y = true.
Proof. by rewrite issue_if_nil, negb_false_iff. Qed.

Lemma entry_issues_nil run index prev entry : entry_issues run index prev entry = [] ↔
  JsNumber.num_eq (e_seq entry) (num_of_Z (Z.of_nat index + 1)) = true ∧ e_prev_digest entry = prev ∧
  canonicalDigest (entry_value run entry) (Some prev) = inr (e_entry_digest entry).
Proof.
  unfold entry_issues. rewrite !app_nil, differing_number_nil, differs_nil.
  destruct (canonicalDigest _ _); [naive_solver|]. rewrite differs_nil. naive_solver.
Qed.

Lemma chain_issues_nil run entries : ∀ index prev, chain_issues run index prev entries = [] ↔ chained run index prev entries.
Proof.
  induction entries as [|entry entries IH]; intros index prev; simpl.
  - split; [constructor|done].
  - rewrite app_nil, entry_issues_nil, IH. split.
    + intros [(? & ? & ?) ?]. by constructor.
    + inversion 1; naive_solver.
Qed.

Lemma document_issues_nil document : document_issues document = [] ↔
  canonicalDigest (document_value document) None = inr (d_document_digest document).
Proof. unfold document_issues. destruct (canonicalDigest _ _); [naive_solver|]. rewrite differs_nil. naive_solver. Qed.

Lemma head_issues_nil document : head_issues document = [] ↔ ∀ entry, last (d_entries document) = Some entry →
  JsNumber.num_eq (d_head_seq document) (e_seq entry) = true ∧ d_head_digest document = e_entry_digest entry.
Proof.
  unfold head_issues. destruct (last (d_entries document)); [|naive_solver].
  rewrite app_nil, differing_number_nil, differs_nil. naive_solver.
Qed.

(** A receipt passes exactly when the schema accepts it and every link of it holds. *)
Lemma validated_iff input document :
  v_ok (validateRunReceiptDocument input) = true ∧ v_document (validateRunReceiptDocument input) = Some document ↔
  safeParse input = inr document ∧ valid document.
Proof.
  unfold validateRunReceiptDocument. destruct (safeParse input) as [|d]; [naive_solver|]. simpl.
  rewrite bool_decide_eq_true, length_zero_iff_nil, !app_nil, document_issues_nil, chain_issues_nil, head_issues_nil.
  split; [intros [(? & ? & ?) [= <-]]; (split; [done|by split])|intros [[= <-] []]; naive_solver].
Qed.

(** ** What the head of a chain binds *)

(** Two entries, each of its run, whose digested contents have the same canonical JSON text. *)
Record same_entry (run run' : record) (e e' : ReceiptEntry) : Prop := {
  se_text : canonicalJson (entry_value run e) = canonicalJson (entry_value run' e');
  se_prev : e_prev_digest e = e_prev_digest e';
  se_digest : e_entry_digest e = e_entry_digest e'
}.
(** Two inputs of [canonicalDigest] with one digest, although their canonical texts or the digests before them differ. *)
Definition collision : Prop := ∃ v v' prev prev' d,
  canonicalDigest v prev = inr d ∧ canonicalDigest v' prev' = inr d ∧ (canonicalJson v ≠ canonicalJson v' ∨ prev ≠ prev').

(** The digest before the next entry. *)
Definition link (prev : option string) (entries : list ReceiptEntry) : option string :=
  match last entries with Some e => Some (e_entry_digest e) | None => prev end.

Lemma chained_snoc run entries e : ∀ index prev, chained run index prev (entries ++ [e]) →
  chained run index prev entries ∧ e_prev_digest e = link prev entries ∧
  canonicalDigest (entry_value run e) (Some (link prev entries)) = inr (e_entry_digest e).
Proof.
  induction entries as [|x entries IH]; intros index prev; simpl; inversion 1 as [|? ? ? ? ? ? ? Hc]; subst.
  - by repeat constructor.
  - apply IH in Hc as (Hc & Hp & Hd).
    assert (link (e_prev_digest x) (x :: entries) = link (Some (e_entry_digest x)) entries) as E
      by (unfold link; rewrite last_cons; by destruct (last entries)).
    rewrite E. split; [by constructor|done].
Qed.

Lemma last_some_snoc {A} (l : list A) x : last l = Some x → ∃ l0, l = l0 ++ [x].
Proof. destruct l as [|y l _] using rev_ind; [done|]. rewrite last_snoc. naive_solver. Qed.

Lemma digests_agree v v' p p' d : canonicalDigest v p = inr d → canonicalDigest v' p' = inr d →
  (canonicalJson v = canonicalJson v' ∧ p = p') ∨ collision.
Proof.
  intros Hd Hd'. destruct (decide (canonicalJson v = canonicalJson v')); [destruct (decide (p = p')); [by left|]|];
    right; exists v, v', p, p', d; auto.
Qed.

Lemma chains_bind run run' entries : ∀ entries' e e',
  chained run 0 None (entries ++ [e]) → chained run' 0 None (entries' ++ [e']) → e_entry_digest e = e_entry_digest e' →
  Forall2 (same_entry run run') (entries ++ [e]) (entries' ++ [e']) ∨ collision.
Proof.
  induction entries as [|x entries IH] using rev_ind; intros entries' e e' Hc Hc' Ed;
    apply chained_snoc in Hc as (Hc & Hp & Hd); apply chained_snoc in Hc' as (Hc' & Hp' & Hd'); rewrite <- Ed in Hd';
    destruct (digests_agree _ _ _ _ _ Hd Hd') as [[Ht [= El]]|]; [|by right| |by right].
  - left. unfold link in El, Hp, Hp' |- *.
    destruct entries' as [|x' entries' _] using rev_ind; [|rewrite last_snoc in El; done].
    repeat constructor; try done. by rewrite Hp, Hp'.
  - destruct entries' as [|x' entries' _] using rev_ind; [unfold link in El; rewrite last_snoc in El; done|].
    assert (e_entry_digest x = e_entry_digest x') as Ex by (unfold link in El; rewrite !last_snoc in El; by simplify_eq).
    destruct (IH entries' x x' Hc Hc' Ex) as [Hall|]; [left|by right]. apply Forall2_app; [done|].
    repeat constructor; try done. by rewrite Hp, Hp', El.
Qed.

End receipts.

(** A receipt without entries passes with any head, if the schema lets it through. *)
Lemma empty_receipt_any_head `{Protocol} input document : safeParse input = inr document → d_entries document = [] →
  v_ok (validateRunReceiptDocument input) = true ↔ canonicalDigest (document_value document) None = inr (d_document_digest document).
Proof.
  intros Hp He. unfold validateRunReceiptDocument. rewrite Hp. cbn [v_ok]. unfold head_issues. rewrite He. cbn [chain_issues last].
  by rewrite bool_decide_eq_true, length_zero_iff_nil, !app_nil_r, document_issues_nil.
Qed.

(** ** A protocol in which digests are canonical texts *)
Module ReceiptExamples.

Definition prev_json (prev : option (option string)) : json :=
  match prev with None => JBool false | Some None => JNull | Some (Some s) => JStr s end.
Definition digest (v : json) (prev : option (option string)) : string + string :=
  if plain v then inr (canonicalJson (JArr [v; prev_json prev])) else inl "not canonical".

Definition run : record := [("workspace_id", JStr "w"); ("id", JStr "r")].
Definition entry (prev : option string) (n : Z) (summary : json) : ReceiptEntry :=
  let value := JObj [("schema", JStr "entry"); ("workspace_id", JStr "w"); ("workflow_run_id", JStr "r"); ("seq", JNum (num_of_Z n));
                     ("leg", JNull); ("occurred_at", JNull); ("actor", JNull); ("summary", summary)] in
  {| e_seq := num_of_Z n; e_leg := JNull; e_occurred_at := JNull; e_actor := JNull; e_summary := summary; e_prev_digest := prev;
     e_entry_digest := match digest value (Some prev) with inr d => d | inl _ => "" end |}.
Definition two_entries (summary : json) : list ReceiptEntry :=
  let first := entry None 1 (JStr "started") in [first; entry (Some (e_entry_digest first)) 2 summary].
Definition document (entries : list ReceiptEntry) : RunReceiptDocument :=
  {| d_run := run; d_policy_of_record := JNull;
     d_document_digest := match digest (JObj [("run", JObj run); ("policy_of_record", JNull)]) None with inr d => d | inl _ => "" end;
     d_entries := entries; d_head_seq := num_of_Z (Z.of_nat (length entries));
     d_head_digest := match last entries with Some e => e_entry_digest e | None => "any" end |}.

(** The two inputs say the same with fields in another order. *)
#[export] Instance protocol : Protocol := {|
  safeParse := λ v, match v with
    | JNull => inr (document (two_entries (JObj [("a", JNull); ("b", JBool true)])))
    | JBool _ => inr (document (two_entries (JObj [("b", JBool true); ("a", JNull)])))
    | _ => inr (document [])
    end;
  canonicalDigest := digest; RUN_RECEIPT_ENTRY_SCHEMA_ID := "entry" |}.

(** This digest is the canonical text itself: it has no collisions between values that are plain. *)
Lemma digest_law v v' p p' d : digest v p = inr d → digest v' p' = inr d → canonicalJson v = canonicalJson v' ∧ p = p'.
Proof.
  unfold digest. destruct (plain v) eqn:Ev, (plain v') eqn:Ev'; try done. intros [= E] [= E']. rewrite <- E' in E.
  unfold canonicalJson in E. apply stringify_inj, canonical_same in E.
  - inversion E as [| | | |? ? Hall|]; subst. inversion Hall as [|? ? ? ? Hv Hp]; subst. split.
    + unfold canonicalJson. f_equal. by apply same_canonical.
    + inversion Hp as [|? ? ? ? Hs]; subst. by destruct p as [[]|], p' as [[]|]; inversion Hs.
  - simpl. by rewrite Ev; destruct p as [[]|].
  - simpl. by rewrite Ev'; destruct p' as [[]|].
  - apply plain_canonicalize. simpl. by rewrite Ev; destruct p as [[]|].
  - apply plain_canonicalize. simpl. by rewrite Ev'; destruct p' as [[]|].
Qed.


(** A changed entry is noticed. *)
Lemma changed_entry_refused :
  let e := two_entries JNull in
  chain_issues run 0 None (match e with [a; b] => [a; {| e_seq := e_seq b; e_leg := e_leg b; e_occurred_at := e_occurred_at b;
     e_actor := e_actor b; e_summary := JStr "nothing"; e_prev_digest := e_prev_digest b; e_entry_digest := e_entry_digest b |}] | _ => [] end) ≠ [].
Proof. vm_compute. discriminate. Qed.
End ReceiptExamples.
