(* ===== verification/RuntimeCommands.v ===== *)
(** * Commands of the platform to a workflow run

    [workflows/platform-runtime-command.ts], [platform-command-applier.ts],
    [approval-actor.ts] and [decideApproval] and [applyRuntimeCommandBody] of [runner.ts].
    A run that is blocked waits for a decision.  The platform sends decisions as commands,
    as often as it likes; each is applied to the request it was made for, if that is
    still the one that waits.  An operation runs alone.  What asks agents, shells and
    YAML is an argument: the plan after requested changes, the command of on_reject, the
    parsed workflow, and the run as [reconcile] returns it. *)

From S2P Require Import Prelude JsString JsMap Json JsonText JsNumber RegExp EpochClient WorkflowRun.
From stdpp Require Import prelude strings list.
From Stdlib Require Import ZArith Lia Ascii Floats.SpecFloat.
#[local] Open Scope Z_scope.

(** ** Reading commands *)

Record WorkflowApprovalDecisionCommand := {
  ac_workflow_run_id : option string; ac_approved : bool; ac_decision : option string; ac_message : option string;
  ac_expected_action_digest : option string; ac_approval_requested_at : option string; ac_decided_at : option string;
  ac_execution_grant : option record; ac_actor : option json; ac_feedback : option json
}.
Record WorkflowActionCompletedCommand := {
  cc_workflow_run_id : option string; cc_proposal_key : option string; cc_receipt_key : string; cc_receipt_digest : option string;
  cc_provider_reference : option string; cc_provider_url : option string; cc_adapter : string; cc_action : string;
  cc_status : string; cc_executed_at : option string; cc_message : option string
}.
Inductive CommandBody :=
| ApprovalDecision (c : WorkflowApprovalDecisionCommand)
| ActionCompleted (c : WorkflowActionCompletedCommand).
Record WorkflowRuntimeCommand := { c_id : string; c_node : string; c_body : CommandBody }.

Definition readString (v : option json) : option string := match v with Some (JStr s) => Some s | _ => None end.
Definition readRecord (v : option json) : option json :=
  match v with Some (JObj f) => Some (JObj f) | Some (JArr l) => Some (JArr l) | _ => None end.
Definition one_of_strings (l : list string) (v : option json) : option string :=
  match readString v with Some s => if bool_decide (s ∈ l) then Some s else None | None => None end.
Definition readDecision : option json → option string := one_of_strings ["approve"; "request_changes"; "reject"].
Definition readActionCompletedStatus : option json → option string := one_of_strings ["succeeded"; "failed"; "dead_lettered"].
(** A string that is there and not empty. *)
Definition some_text (s : option string) : option string := match s with Some t => if truthy_str t then Some t else None | None => None end.
Definition text_field (key : string) (s : option string) : record := match s with Some t => [(key, JStr t)] | None => [] end.

Definition readExecutionGrant (v : option json) : option record :=
  match readRecord v with
  | Some (JObj f) =>
      match some_text (readString (field f "digest")) with
      | Some digest =>
          Some (text_field "schema" (some_text (readString (field f "schema"))) ++ [("digest", JStr digest)] ++
                text_field "proposal_key" (some_text (readString (field f "proposal_key"))) ++
                text_field "approval_decision_key" (some_text (readString (field f "approval_decision_key"))) ++
                text_field "issued_at" (some_text (readString (field f "issued_at"))))
      | None => None
      end
  | _ => None
  end.

Definition read_completed (f : record) : option WorkflowActionCompletedCommand :=
  receiptKey ← some_text (readString (field f "receipt_key"));
  adapter ← some_text (readString (field f "adapter"));
  action ← some_text (readString (field f "action"));
  status ← readActionCompletedStatus (field f "status");
  Some {| cc_workflow_run_id := readString (field f "workflow_run_id"); cc_proposal_key := readString (field f "proposal_key");
          cc_receipt_key := receiptKey; cc_receipt_digest := readString (field f "receipt_digest");
          cc_provider_reference := readString (field f "provider_reference"); cc_provider_url := readString (field f "provider_url");
          cc_adapter := adapter; cc_action := action; cc_status := status; cc_executed_at := readString (field f "executed_at");
          cc_message := readString (field f "message") |}.

Definition read_decision_command (f : record) : option WorkflowApprovalDecisionCommand :=
  match field f "approved" with
  | Some (JBool approved) =>
      Some {| ac_workflow_run_id := readString (field f "workflow_run_id"); ac_approved := approved;
              ac_decision := readDecision (field f "decision"); ac_message := readString (field f "message");
              ac_expected_action_digest := some_text (readString (field f "expected_action_digest"));
              ac_approval_requested_at := readString (field f "approval_requested_at");
              ac_decided_at := readString (field f "decided_at"); ac_execution_grant := readExecutionGrant (field f "execution_grant");
              ac_actor := readRecord (field f "actor"); ac_feedback := readRecord (field f "feedback") |}
  | _ => None
  end.

Definition read_command (v : json) : list WorkflowRuntimeCommand :=
  match v with
  | JObj f =>
      match some_text (readString (field f "id")), some_text (readString (field f "workflow_node_id")) with
      | Some id, Some node =>
          let body :=
            if is_str (field f "type") "workflow.action_completed" then ActionCompleted <$> read_completed f
            else if is_str (field f "type") "workflow.approval_decision" then ApprovalDecision <$> read_decision_command f
            else None in
          match body with Some body => [{| c_id := id; c_node := node; c_body := body |}] | None => [] end
      | _, _ => []
      end
  | _ => []
  end.

Definition runtimeCommands (body : json) : list WorkflowRuntimeCommand :=
  match body with
  | JObj f => match field f "runtime_commands" with Some (JArr commands) => flat_map read_command commands | _ => [] end
  | _ => []
  end.

(** ** Who decided *)

Definition not_space_at (c : unit16) : bool := negb (space c) && negb (is_unit "@"%char c).
Definition re_email : re :=
  cats [Plus not_space_at; Chr (is_unit "@"%char); Plus not_space_at; Chr (is_unit "."%char); Plus not_space_at].
Definition looksLikeEmail (value : string) : bool := full_match re_email (utf16 value).

Definition scalar_text (v : option json) : option string :=
  match v with Some (JStr _ as s) | Some (JNum _ as s) | Some (JBool _ as s) => Some (js_String s) | _ => None end.
Definition actor_field (actor : record) (key : string) : record :=
  match scalar_text (field actor key) with
  | Some text =>
      let normalized := trim text in
      if negb (truthy_str normalized) then []
      else if String.eqb key "email" && negb (looksLikeEmail normalized) then []
      else [(key, JStr normalized)]
  | None => []
  end.
Definition APPROVAL_ACTOR_KEYS : list string := ["id"; "name"; "email"; "source"].
Definition sanitizeWorkflowApprovalActor (actor : option json) : option record :=
  let f := match actor with Some (JObj f) => f | _ => [] end in
  let sanitized := flat_map (actor_field f) APPROVAL_ACTOR_KEYS in
  if bool_decide (sanitized = []) then None else Some sanitized.

(** ** Decisions *)

Record WorkflowApprovalDecision := {
  approved : bool; decision : option string; message : option string; expectedActionDigest : option string;
  runtimeSecretEnv : option record; runtimeSecretFiles : option record; actor : option record; feedback : option json;
  executionGrant : option record
}.

Definition json_field (key : string) (v : option json) : record := match v with Some v => [(key, v)] | None => [] end.
Definition record_field (key : string) (v : option record) : record := json_field key (JObj <$> v).
(** [{ ...decision }] *)
Definition decision_record (d : WorkflowApprovalDecision) : record :=
  [("approved", JBool (approved d))] ++ text_field "decision" (decision d) ++ text_field "message" (message d) ++
  text_field "expectedActionDigest" (expectedActionDigest d) ++ record_field "runtimeSecretEnv" (runtimeSecretEnv d) ++
  record_field "runtimeSecretFiles" (runtimeSecretFiles d) ++ record_field "actor" (actor d) ++
  json_field "feedback" (feedback d) ++ record_field "executionGrant" (executionGrant d).

(** [value?.[key]], on what is an object or nothing. *)
Definition at_key (v : option json) (key : string) : option json := match v with Some (JObj f) => field f key | _ => None end.
Definition is_record (v : option json) : option record := match v with Some (JObj f) => Some f | _ => None end.

#[local] Notation Node := WorkflowNodeRunState.
Definition node_type (n : Node) : string := default "" (readString (field (ns_rest n) "type")).
Definition node_metadata (n : Node) : option json := field (ns_rest n) "metadata".
Definition node_approval (n : Node) : option json := field (ns_rest n) "approval".
Definition node_rest (x : record) (s : Node) : Node :=
  {| ns_id := ns_id s; ns_status := ns_status s; ns_startedAt := ns_startedAt s; ns_completedAt := ns_completedAt s;
     ns_output := ns_output s; ns_exitCode := ns_exitCode s; ns_error := ns_error s;
     ns_skipReason := ns_skipReason s; ns_attempts := ns_attempts s; ns_sessionId := ns_sessionId s;
     ns_iterations := ns_iterations s; ns_inlineAgents := ns_inlineAgents s; ns_rest := x |}.
Definition set_rest (key : string) (v : json) (n : Node) : Node := node_rest (jm_set key v (ns_rest n)) n.
Definition set_output (x : option string) (n : Node) : Node := node_output x (ns_exitCode n) n.

(** What a decision on a node is about: the action proposed, or the diff to be published. *)
Definition approvalSubjectDigest (n : Node) : option json :=
  match String.eqb (node_type n) "action", is_record (at_key (node_metadata n) "action") with
  | true, Some action => field action "digest"
  | _, _ =>
      match String.eqb (node_type n) "git_publish", is_record (at_key (node_metadata n) "pre_publish_review") with
      | true, Some review => match is_record (field review "facts") with Some facts => field facts "diffDigest" | None => None end
      | _, _ => None
      end
  end.

(** The node asks again for the diff that it asked for before. *)
Definition sameDigestPrePublishReblock (n : Node) (expectedDigest : option string) : bool :=
  match String.eqb (node_type n) "git_publish", is_record (at_key (node_metadata n) "pre_publish_review") with
  | true, Some review =>
      match is_record (field review "facts"), is_record (field review "invalidated_approval") with
      | Some facts, Some invalidated =>
          match field facts "diffDigest", field invalidated "current_diff_digest" with
          | Some (JStr current), Some (JStr old) =>
              String.eqb current old && match expectedDigest with Some e => String.eqb e current | None => true end
          | _, _ => false
          end
      | _, _ => false
      end
  | _, _ => false
  end.

Definition staleApprovalDigest (n : Node) (expectedDigest : option string) : bool :=
  match some_text expectedDigest, approvalSubjectDigest n with
  | Some e, Some (JStr current) => negb (String.eqb current e)
  | _, _ => false
  end.
Definition missingDigestAfterInvalidation (n : Node) (expectedDigest : option string) : bool :=
  match some_text expectedDigest with
  | Some _ => false
  | None =>
      match is_record (at_key (node_metadata n) "pre_publish_review") with
      | Some review => bool_decide (is_Some (is_record (field review "invalidated_approval")))
      | None => false
      end
  end.
Definition requestedAt (n : Node) : option json := at_key (node_approval n) "requestedAt".
Definition staleApprovalRequestBinding (n : Node) (commandRequestedAt expectedDigest : option string) : bool :=
  match some_text commandRequestedAt, requestedAt n with
  | Some asked, Some current =>
      if String.eqb (js_String current) asked then false
      else negb (bool_decide (is_Some (some_text expectedDigest)) && sameDigestPrePublishReblock n expectedDigest)
  | _, _ => false
  end.

(** What the node has consumed, at most fifty. *)
Definition consumed_entries (n : Node) : list json :=
  match at_key (at_key (node_metadata n) "runtime_commands") "consumed" with Some (JArr l) => l | _ => [] end.
Definition is_object (v : json) : bool := match v with JObj _ => true | _ => false end.
Definition runtimeCommandConsumed (n : Node) (id : string) : bool :=
  existsb (λ e, is_str (at_key (Some e) "id") id) (consumed_entries n).
(** [l.slice(-n)] *)
Definition last_n {A} (n : nat) (l : list A) : list A := drop (length l - n) l.
Definition markRuntimeCommandConsumed (consumedAt : string) (id : string) (extra : record) (n : Node) : Node :=
  let metadata := default [] (is_record (node_metadata n)) in
  let commands := default [] (is_record (field metadata "runtime_commands")) in
  let entry := JObj ([("id", JStr id); ("consumed_at", JStr consumedAt)] ++ extra) in
  let consumed := last_n 50 (List.filter is_object (consumed_entries n) ++ [entry]) in
  set_rest "metadata" (JObj (jm_set "runtime_commands" (JObj (jm_set "consumed" (JArr consumed) commands)) metadata)) n.

(** The runs on disk, by their identifiers. *)
Definition Disk : Type := list (string * WorkflowRunRecord).
Definition save_run (run : WorkflowRunRecord) (disk : Disk) : Disk :=
  jm_set (r_id run) (Store.mergeExistingRun run (jm_get (r_id run) disk)) disk.

(** What is read of a node of the parsed workflow. *)
Record ParsedNode := { pn_type : string; pn_captureResponse : bool; pn_onReject : option json }.
(** What a decision did: the run it returns, and whether the scheduler was started. *)
Record Decided := { d_run : WorkflowRunRecord; d_started : bool }.

Definition nonnull (v : option json) : option json := match v with Some JNull => None | v => v end.
Definition num (z : Z) : json := JNum (num_of_Z z).

Section commands.
(** The identifiers drawn for events, [new Date(t).toISOString()], [Date.parse]. *)
Variable uuid : nat → string.
Variable iso : Z → string.
Variable Date_parse : string → option Z.
Variable parseWorkflow : WorkflowRunRecord → string + (string → option ParsedNode).
Variable reconcile : WorkflowRunRecord → WorkflowRunRecord.
Variable runApprovalOnRejectFollowUp : json → option string → string → WorkflowRunRecord → WorkflowRunRecord.
Variable revisePlanAfterChangesRequested : WorkflowRunRecord → string → WorkflowApprovalDecision → string + WorkflowRunRecord.

Definition approval_types : list string := ["approval"; "gate"; "plan"; "action"; "git_publish"].
Definition decision_name (d : WorkflowApprovalDecision) : string := coalesce (decision d) (if approved d then "approve" else "reject").
Definition approval_record (now : Z) (d : WorkflowApprovalDecision) (n : Node) : json :=
  JObj ([("prompt", coalesce (nonnull (at_key (node_approval n) "prompt")) (JStr "Approval requested"));
         ("requestedAt", coalesce (nonnull (requestedAt n)) (num now)); ("resolvedAt", num now);
         ("approved", JBool (approved d)); ("decision", JStr (decision_name d))] ++
        text_field "message" (some_text (message d)) ++ text_field "expectedActionDigest" (some_text (expectedActionDigest d)) ++
        record_field "actor" (actor d) ++ json_field "feedback" (feedback d) ++ record_field "executionGrant" (executionGrant d)).

Definition or_null (v : option json) : json := coalesce v JNull.
Definition changes_requested (now : Z) (nodeId : string) (d : WorkflowApprovalDecision) (run : WorkflowRunRecord) : WorkflowRunRecord :=
  let run := on_node nodeId (λ n, node_error None (node_status NBlocked n)) run in
  let run := run_updatedAt now (run_error None (run_status RBlocked run)) in
  let run := addEvent (uuid 0) now "approval-resolved" ("Changes requested for node " +:+ nodeId) (decision_record d) (Some nodeId) run in
  addEvent (uuid 1) now "plan-changes-requested" ("Plan changes requested for node " +:+ nodeId +:+ "; waiting for a revised plan")
    [("decision", JStr "request_changes"); ("message", or_null (JStr <$> message d)); ("actor", or_null (JObj <$> actor d));
     ("feedback", or_null (feedback d))] (Some nodeId) run.

Definition rejected (now : Z) (nodeId : string) (d : WorkflowApprovalDecision) (run : WorkflowRunRecord) : WorkflowRunRecord :=
  let error := coalesce (message d) "Approval denied" in
  let run := on_node nodeId (λ n, node_completedAt (Some now) (node_error (Some error) (node_status NFailed n))) run in
  let run := run_updatedAt now (run_completedAt (Some now) (run_error (Some error) (run_status RCanceled run))) in
  let run := addEvent (uuid 0) now "approval-resolved" ("Approval denied for node " +:+ nodeId) (decision_record d) (Some nodeId) run in
  addEvent (uuid 1) now "run-canceled" ("Workflow canceled by approval gate: " +:+ nodeId) [] None run.

Definition granted_event (now : Z) (nodeId : string) (d : WorkflowApprovalDecision) (run : WorkflowRunRecord) : WorkflowRunRecord :=
  addEvent (uuid 0) now "approval-resolved" ("Approval granted for node " +:+ nodeId) (decision_record d) (Some nodeId)
    (run_updatedAt now (run_status RRunning run)).
(** The node runs again, with its approval. *)
Definition granted_again (now : Z) (nodeId : string) (d : WorkflowApprovalDecision) (run : WorkflowRunRecord) : WorkflowRunRecord :=
  granted_event now nodeId d
    (on_node nodeId (λ n, set_output (Some (coalesce (message d) "Approved")) (node_completedAt None (node_status NQueued n))) run).

Definition plan_text (n : Node) (v : option json) : option string := if String.eqb (node_type n) "plan" then readString v else None.
Definition granted_output (d : WorkflowApprovalDecision) (isOptInApproval : bool) (n : Node) : string :=
  match plan_text n (at_key (feedback d) "plan_body"), plan_text n (at_key (at_key (node_metadata n) "plan") "body") with
  | Some body, _ | None, Some body => body
  | None, None => if isOptInApproval then "Approved" else coalesce (message d) "Approved"
  end.
Definition granted (now : Z) (nodeId : string) (d : WorkflowApprovalDecision) (isOptInApproval : bool) (run : WorkflowRunRecord) : WorkflowRunRecord :=
  addEvent (uuid 1) now "node-completed" ("Node " +:+ nodeId +:+ " completed") [] (Some nodeId)
    (granted_event now nodeId d
       (on_node nodeId (λ n, set_output (Some (granted_output d isOptInApproval n))
          (node_completedAt (Some now) (node_status NCompleted n))) run)).

(** What the checks of [decideApproval] let through. *)
Definition decidable_node (run : WorkflowRunRecord) (nodeId : string) (d : WorkflowApprovalDecision) : string + Node :=
  match jm_get nodeId (r_nodes run) with
  | Some n =>
      if negb (bool_decide (node_type n ∈ approval_types)) then inl ("Workflow approval node not found: " +:+ nodeId)
      else if negb (bool_decide (r_status run = RBlocked)) || negb (bool_decide (ns_status n = NBlocked))
      then inl ("Workflow node is not awaiting approval: " +:+ nodeId)
      else if staleApprovalDigest n (expectedActionDigest d)
      then inl "The proposed action changed before approval. Refresh the run and review it again."
      else inr n
  | None => inl ("Workflow approval node not found: " +:+ nodeId)
  end.

(** The run it saves, and whether it starts the scheduler. *)
Definition decide_run (now : Z) (nodeId : string) (d : WorkflowApprovalDecision) (n : Node) (run : WorkflowRunRecord) :
    string + Decided :=
  let run := on_node nodeId (set_rest "approval" (approval_record now d n)) run in
  if negb (approved d) && String.eqb (node_type n) "plan" && String.eqb (decision_name d) "request_changes" then
    match revisePlanAfterChangesRequested (changes_requested now nodeId d run) nodeId d with
    | inl e => inl e
    | inr run => inr {| d_run := run; d_started := false |}
    end
  else
    match parseWorkflow run with
    | inl e => inl e
    | inr nodes =>
        let node := nodes nodeId in
        let type := match node with Some p => pn_type p | None => "" end in
        if negb (approved d) then
          let run :=
            match node with
            | Some {| pn_type := t; pn_onReject := Some onReject |} =>
                if String.eqb t "approval" then runApprovalOnRejectFollowUp onReject (message d) nodeId run else run
            | _ => run
            end in
          inr {| d_run := rejected now nodeId d run; d_started := false |}
        else if String.eqb type "action" || String.eqb type "git_publish"
        then inr {| d_run := granted_again now nodeId d run; d_started := true |}
        else
          let isOptInApproval := match node with Some p => String.eqb (pn_type p) "approval" && negb (pn_captureResponse p) | None => false end in
          inr {| d_run := granted now nodeId d isOptInApproval run; d_started := true |}
    end.

Definition decideApproval (now : Z) (runId nodeId : string) (d : WorkflowApprovalDecision) (disk : Disk) : Disk * (string + Decided) :=
  match reconcile <$> jm_get runId disk with
  | None => (disk, inl ("Workflow run not found: " +:+ runId))
  | Some run =>
      match decidable_node run nodeId d with
      | inl e => (disk, inl e)
      | inr n =>
          match decide_run now nodeId d n run with
          | inl e => (disk, inl e)
          | inr decided => (save_run (d_run decided) disk, inr decided)
          end
      end
  end.

(** ** The applier *)

Record Applier := { consumedCommandIds : list string; disk : Disk }.
(** The answer to a command — whether it is done with — or the error, and the decision that was made. *)
Record Applied := { a_done : string + bool; a_decided : option (string * string * WorkflowApprovalDecision) }.
Definition answer (b : bool) : Applied := {| a_done := inr b; a_decided := None |}.

(** [add], and the oldest goes when there are more than 500. *)
Definition markCommandConsumedInProcess (id : string) (ids : list string) : list string :=
  let ids := set_add id ids in
  if (500 <? length ids)%nat then tail ids else ids.

Definition staleApprovalRequestedAt (n : Node) (decidedAt : option string) : bool :=
  match some_text decidedAt, requestedAt n with
  | Some decided, Some (JNum asked) =>
      match Date_parse decided with
      | Some ms => num_lt (num_of_Z ms) asked && negb (num_eq asked (num_of_Z 0)) && negb (sameDigestPrePublishReblock n None)
      | None => false
      end
  | _, _ => false
  end.

(** Why a decision is not applied, with what the node keeps of it. *)
Definition stale_reason (n : Node) (c : WorkflowApprovalDecisionCommand) : option record :=
  let digest := ac_expected_action_digest c in
  let ignored reason extra := Some ([("ignored", JBool true); ("reason", JStr reason)] ++ extra) in
  if staleApprovalRequestBinding n (ac_approval_requested_at c) digest
  then ignored "stale_approval_request_binding"
         (text_field "command_approval_requested_at" (ac_approval_requested_at c) ++ json_field "current_requested_at" (requestedAt n))
  else if staleApprovalRequestedAt n (ac_decided_at c)
  then ignored "stale_approval_decided_before_current_request"
         (text_field "decided_at" (ac_decided_at c) ++ json_field "requested_at" (requestedAt n))
  else if missingDigestAfterInvalidation n digest
  then ignored "missing_expected_action_digest_after_invalidation" (json_field "current_action_digest" (approvalSubjectDigest n))
  else if staleApprovalDigest n digest
  then ignored "stale_expected_action_digest"
         (text_field "expected_action_digest" digest ++ json_field "current_action_digest" (approvalSubjectDigest n))
  else None.

Definition command_decision (c : WorkflowApprovalDecisionCommand) : WorkflowApprovalDecision := {|
  approved := ac_approved c; decision := ac_decision c; message := some_text (ac_message c);
  expectedActionDigest := some_text (ac_expected_action_digest c); runtimeSecretEnv := None; runtimeSecretFiles := None;
  actor := sanitizeWorkflowApprovalActor (ac_actor c); feedback := ac_feedback c; executionGrant := ac_execution_grant c |}.

Definition target_run (own synced : option string) : option string := some_text (match own with Some r => Some r | None => synced end).

Definition apply_decision (now : Z) (id nodeId : string) (c : WorkflowApprovalDecisionCommand) (synced : option string) (st : Applier) :
    Applier * Applied :=
  match target_run (ac_workflow_run_id c) synced with
  | None => (st, answer false)
  | Some runId =>
      match jm_get runId (disk st) with
      | Some run =>
          if negb (bool_decide (r_status run = RBlocked)) then (st, answer false)
          else
            match jm_get nodeId (r_nodes run) with
            | None => (st, answer false)
            | Some n =>
                if runtimeCommandConsumed n id then (st, answer true)
                else if negb (bool_decide (ns_status n = NBlocked)) then (st, answer true)
                else
                  let ids := markCommandConsumedInProcess id (consumedCommandIds st) in
                  let marked extra := save_run (on_node nodeId (markRuntimeCommandConsumed (iso now) id extra) run) (disk st) in
                  match stale_reason n c with
                  | Some extra => ({| consumedCommandIds := ids; disk := marked extra |}, answer true)
                  | None =>
                      let d := command_decision c in
                      let '(saved, result) := decideApproval now (r_id run) nodeId d (marked []) in
                      ({| consumedCommandIds := ids; disk := saved |},
                       {| a_done := match result with inl e => inl e | inr _ => inr true end; a_decided := Some (r_id run, nodeId, d) |})
                  end
            end
      | None => (st, answer false)
      end
  end.

(** *** Actions that the platform has executed *)

(** A field that is [undefined] hides the one before it and is not written to the file. *)
Definition put_option (key : string) (v : option string) (f : record) : record :=
  match v with Some s => jm_set key (JStr s) f | None => jm_delete key f end.

Definition completed_action (now : Z) (c : WorkflowActionCompletedCommand) (old : record) : record :=
  let f := jm_set "status" (JStr "executed") (jm_set "action" (JStr (cc_action c)) (jm_set "adapter" (JStr (cc_adapter c)) old)) in
  let f := put_option "receiptDigest" (cc_receipt_digest c) (jm_set "receiptKey" (JStr (cc_receipt_key c)) (put_option "proposalKey" (cc_proposal_key c) f)) in
  let f := put_option "providerUrl" (cc_provider_url c) (put_option "providerReference" (cc_provider_reference c) f) in
  jm_set "completedBy" (JStr "viewport_broker") (jm_set "executedAt" (JStr (coalesce (cc_executed_at c) (iso now))) f).

Definition completed_metadata (now : Z) (c : WorkflowActionCompletedCommand) (n : Node) : record :=
  let metadata := default [] (is_record (node_metadata n)) in
  let metadata := jm_set "action" (JObj (completed_action now c (default [] (is_record (field metadata "action"))))) metadata in
  jm_set "executionReceipt"
    (JObj ([("source", JStr "viewport_broker"); ("receiptKey", JStr (cc_receipt_key c))] ++ text_field "receiptDigest" (cc_receipt_digest c) ++
           text_field "providerReference" (cc_provider_reference c) ++ text_field "providerUrl" (cc_provider_url c))) metadata.

Definition completed_node (now : Z) (c : WorkflowActionCompletedCommand) (n : Node) : Node :=
  set_rest "metadata" (JObj (completed_metadata now c n))
    (node_completedAt (Some now) (node_error None (set_output (Some (cc_adapter c +:+ "." +:+ cc_action c)) (node_status NCompleted n)))).

Definition has_open_node (run : WorkflowRunRecord) : bool := existsb (λ e, negb (terminal_node (ns_status e.2))) (r_nodes run).

Definition complete_run (now : Z) (nodeId : string) (c : WorkflowActionCompletedCommand) (run : WorkflowRunRecord) : WorkflowRunRecord :=
  let run := on_node nodeId (completed_node now c) run in
  let run := addEvent (uuid 0) now "node-completed"
    (coalesce (cc_message c) ("Node " +:+ nodeId +:+ " completed by Viewport action broker"))
    ([("source", JStr "viewport_broker")] ++ text_field "proposal_key" (cc_proposal_key c) ++ [("receipt_key", JStr (cc_receipt_key c))] ++
     text_field "receipt_digest" (cc_receipt_digest c) ++ text_field "provider_reference" (cc_provider_reference c) ++
     text_field "provider_url" (cc_provider_url c)) (Some nodeId) run in
  run_updatedAt now
    (if has_open_node run then run_status RRunning run else run_completedAt (Some now) (run_status RCompleted run)).

Definition applyActionCompleted (now : Z) (id nodeId : string) (c : WorkflowActionCompletedCommand) (synced : option string) (st : Applier) :
    Applier * Applied :=
  match target_run (cc_workflow_run_id c) synced with
  | None => (st, answer false)
  | Some runId =>
      match jm_get runId (disk st) with
      | Some run =>
          if terminal_run (r_status run) then (st, answer true)
          else
            match jm_get nodeId (r_nodes run) with
            | None => (st, answer false)
            | Some n =>
                match ns_status n with
                | NCompleted => (st, answer true)
                | NBlocked | NQueued | NRunning =>
                    ({| consumedCommandIds := markCommandConsumedInProcess id (consumedCommandIds st);
                        disk := save_run (complete_run now nodeId c run) (disk st) |}, answer true)
                | _ => (st, answer false)
                end
            end
      | None => (st, answer false)
      end
  end.

Definition apply (now : Z) (command : WorkflowRuntimeCommand) (synced : option string) (st : Applier) : Applier * Applied :=
  if bool_decide (c_id command ∈ consumedCommandIds st) then (st, answer true)
  else
    match c_body command with
    | ActionCompleted c => applyActionCompleted now (c_id command) (c_node command) c synced st
    | ApprovalDecision c => apply_decision now (c_id command) (c_node command) c synced st
    end.

(** [applyRuntimeCommandBody]: how many commands were done with, and whether the scheduler is started at the end; the
    first error ends it.  [clock] is the time at which each command is applied. *)
Fixpoint apply_all (clock : nat → Z) (runId : string) (commands : list WorkflowRuntimeCommand) (st : Applier) (applied : Z) (resume : bool) :
    Applier * (string + (Z * bool)) :=
  match commands with
  | [] => (st, inr (applied, resume))
  | command :: commands =>
      let '(st, a) := apply (clock 0%nat) command (Some runId) st in
      match a_done a with
      | inl e => (st, inl e)
      | inr done =>
          let completed := match c_body command with ActionCompleted _ => true | _ => false end in
          apply_all (λ i, clock (S i)) runId commands st (if done then applied + 1 else applied) (resume || (done && completed))
      end
  end.
Definition applyRuntimeCommandBody (clock : nat → Z) (activeRunIds : list string) (runId : string) (body : json) (st : Applier) :
    Applier * (string + (Z * bool)) :=
  match jm_get runId (disk st) with
  | None => (st, inr (0, false))
  | Some run =>
      let '(st, result) := apply_all clock (r_id run) (runtimeCommands body) st 0 false in
      (st, match result with
           | inl e => inl e
           | inr (applied, shouldResume) =>
               match jm_get (r_id run) (disk st) with
               | Some current =>
                   if shouldResume && bool_decide (r_status current = RRunning) && negb (bool_decide (r_id run ∈ activeRunIds))
                   then match parseWorkflow current with inl e => inl e | inr _ => inr (applied, true) end
                   else inr (applied, false)
               | None => inr (applied, false)
               end
           end)
  end.
End commands.
