(* ===== verification/RuntimeCommandsProps.v ===== *)
(** * What becomes of a decision

    [decision_applied_iff] says which commands decide, [decision_takes_effect] what a
    decision leaves on disk, [command_applied_once] that the window of consumed commands
    keeps a command from deciding twice. *)

From S2P Require Import Prelude JsString JsMap Json JsonText JsNumber RegExp EpochClient WorkflowRun RuntimeCommands.
From stdpp Require Import prelude strings list.
From Stdlib Require Import ZArith Lia Ascii Floats.SpecFloat.
#[local] Open Scope Z_scope.
#[local] Notation Node := WorkflowNodeRunState.

(** ** Runs on disk *)

Definition stored (disk : Disk) (runId : string) (run : WorkflowRunRecord) : Prop :=
  jm_get runId disk = Some run ∧ r_id run = runId ∧ run_wf run.
(** Every file holds the run it is named after. *)
Definition disk_wf (disk : Disk) : Prop := ∀ k r, jm_get k disk = Some r → stored disk k r.
Definition stored_node (disk : Disk) (runId nodeId : string) (run : WorkflowRunRecord) (n : Node) : Prop :=
  stored disk runId run ∧ jm_get nodeId (r_nodes run) = Some n.

Lemma on_node_get k f r n : jm_get k (r_nodes r) = Some n → jm_get k (r_nodes (on_node k f r)) = Some (f n).
Proof. intros E. simpl. by rewrite jm_get_alter, decide_True, E. Qed.
Lemma on_node_wf k f r : run_wf r → run_wf (on_node k f r).
Proof. unfold run_wf. simpl. unfold jm_alter. intros ?. case_match; auto with viewport. Qed.

(** Saving over a run and a node that are open leaves what is saved. *)
Lemma save_open disk runId nodeId old x run n :
  stored_node disk runId nodeId old x → terminal_run (r_status old) = false → terminal_node (ns_status x) = false →
  r_id run = runId → run_wf run → jm_get nodeId (r_nodes run) = Some n →
  ∃ run', stored_node (save_run run disk) runId nodeId run' n ∧ r_status run' = r_status run.
Proof.
  intros [(Eo & _ & Wo) Ex] Ho Hx <- Wr En. unfold save_run. rewrite Eo.
  exists (Store.mergeExistingRun run (Some old)). destruct (merge_run_fields run old) as (Hn & Hs & _).
  unfold Store.preserves_run in Hs. rewrite Ho in Hs. simpl in Hs.
  split; [|done]. split; [split; [by rewrite jm_get_set_eq|]|].
  - split; [|unfold run_wf; rewrite Hn; by apply merge_nodup].
    unfold Store.mergeExistingRun, Store.mergeExistingTerminalRun. by case_match.
  - rewrite Hn, (merge_lookup _ _ _ Wo), En, Ex. unfold Store.shouldPreserveExistingNode. by rewrite Hx.
Qed.

(** ** Consuming a command *)

Lemma consumed_marked consumedAt id extra n : runtimeCommandConsumed (markRuntimeCommandConsumed consumedAt id extra n) id = true.
Proof.
  unfold runtimeCommandConsumed, consumed_entries, node_metadata, markRuntimeCommandConsumed, set_rest. cbn [ns_rest node_rest at_key].
  unfold field. rewrite jm_get_set_eq. cbn [at_key]. unfold field. rewrite jm_get_set_eq. cbn [at_key]. unfold field. rewrite jm_get_set_eq.
  apply existsb_exists. exists (JObj ([("id", JStr id); ("consumed_at", JStr consumedAt)] ++ extra)).
  split; [apply list_elem_of_In; unfold last_n|by apply is_str_true].
  rewrite length_app. cbn [length]. rewrite drop_app_le by lia. apply elem_of_app. right. by apply list_elem_of_singleton.
Qed.

Lemma mark_rest consumedAt id extra n key : key ≠ "metadata" →
  field (ns_rest (markRuntimeCommandConsumed consumedAt id extra n)) key = field (ns_rest n) key.
Proof. intros ?. by apply jm_get_set_ne. Qed.
Lemma marked_type consumedAt id extra n : node_type (markRuntimeCommandConsumed consumedAt id extra n) = node_type n.
Proof. unfold node_type. by rewrite mark_rest. Qed.
Lemma marked_status consumedAt id extra n : ns_status (markRuntimeCommandConsumed consumedAt id extra n) = ns_status n.
Proof. done. Qed.

Lemma approval_kept_type v n : node_type (set_rest "approval" v n) = node_type n.
Proof. unfold node_type, set_rest. cbn [ns_rest node_rest]. unfold field. by rewrite jm_get_set_ne. Qed.
Lemma approval_kept_metadata v n : node_metadata (set_rest "approval" v n) = node_metadata n.
Proof. unfold node_metadata, set_rest. cbn [ns_rest node_rest]. unfold field. by rewrite jm_get_set_ne. Qed.
Lemma consumed_by_metadata n n' id : node_metadata n = node_metadata n' → runtimeCommandConsumed n id = runtimeCommandConsumed n' id.
Proof. intros E. unfold runtimeCommandConsumed, consumed_entries. by rewrite E. Qed.

(** ** Which decisions are current *)

Definition review (n : Node) : option json := at_key (node_metadata n) "pre_publish_review".
(** A publication that asks again for a diff whose approval had been withdrawn. *)
Definition same_diff (n : Node) (e : string) : Prop :=
  node_type n = "git_publish" ∧ at_key (at_key (review n) "facts") "diffDigest" = Some (JStr e) ∧
  at_key (at_key (review n) "invalidated_approval") "current_diff_digest" = Some (JStr e).

Lemma reblock_iff n o : sameDigestPrePublishReblock n o = true ↔ ∃ e, same_diff n e ∧ (o = None ∨ o = Some e).
Proof.
  unfold sameDigestPrePublishReblock, same_diff, review.
  destruct (String.eqb_spec (node_type n) "git_publish") as [->|Ht]; [|split; [done|by intros (? & (? & _) & _)]].
  destruct (at_key (node_metadata n) "pre_publish_review") as [[| | | | |f]|]; cbn [is_record at_key];
    try (split; [done|by intros (? & (_ & [=] & [=]) & _)]).
  destruct (field f "facts") as [[| | | | |facts]|]; cbn [is_record at_key];
    try (split; [done|by intros (? & (_ & [=] & [=]) & _)]).
  destruct (field f "invalidated_approval") as [[| | | | |inv]|]; cbn [is_record at_key];
    try (split; [done|by intros (? & (_ & [=] & [=]) & _)]).
  destruct (field facts "diffDigest") as [[| | |a| |]|]; try (split; [done|by intros (? & (_ & [=] & _) & _)]).
  destruct (field inv "current_diff_digest") as [[| | |b| |]|]; try (split; [done|by intros (? & (_ & _ & [=]) & _)]).
  rewrite andb_true_iff, String.eqb_eq. split.
  - intros [-> H]. exists b. split; [done|]. destruct o as [e|]; [right; f_equal; by apply String.eqb_eq|by left].
  - intros (e & (_ & [= ->] & [= ->]) & [->| ->]); [done|]. by rewrite String.eqb_refl.
Qed.

(** The request that a command was made for is the one that waits. *)
Record current (Date_parse : string → option Z) (n : Node) (c : WorkflowApprovalDecisionCommand) : Prop := {
  cur_request : ∀ asked since, some_text (ac_approval_requested_at c) = Some asked → requestedAt n = Some since →
    js_String since = asked ∨ ∃ e, some_text (ac_expected_action_digest c) = Some e ∧ same_diff n e;
  cur_time : ∀ decided ms since, some_text (ac_decided_at c) = Some decided → Date_parse decided = Some ms →
    requestedAt n = Some (JNum since) → num_lt (num_of_Z ms) since = true → num_eq since (num_of_Z 0) = true ∨ ∃ e, same_diff n e;
  cur_invalidated : (∃ f, at_key (review n) "invalidated_approval" = Some (JObj f)) → is_Some (some_text (ac_expected_action_digest c));
  cur_digest : ∀ e d, some_text (ac_expected_action_digest c) = Some e → approvalSubjectDigest n = Some (JStr d) → d = e
}.

Lemma some_text_idem o e : some_text o = Some e → o = Some e.
Proof. destruct o as [t|]; simpl; [|done]. by destruct (truthy_str t). Qed.

Lemma binding_iff n asked digest : staleApprovalRequestBinding n asked digest = false ↔
  ∀ t since, some_text asked = Some t → requestedAt n = Some since → js_String since = t ∨ ∃ e, some_text digest = Some e ∧ same_diff n e.
Proof.
  unfold staleApprovalRequestBinding. destruct (some_text asked) as [t|]; [|naive_solver].
  destruct (requestedAt n) as [since|]; [|naive_solver].
  destruct (String.eqb_spec (js_String since) t) as [E|E]; [naive_solver|].
  rewrite negb_false_iff, andb_true_iff, bool_decide_eq_true, reblock_iff. split.
  - intros [[e He] (e' & Hs & Hd)] ? ? [= <-] [= <-]. right. exists e. split; [done|].
    apply some_text_idem in He. destruct Hd; simplify_eq. done.
  - intros H. destruct (H t since eq_refl eq_refl) as [|(e & He & Hs)]; [done|]. split; [by exists e|]. exists e. split; [done|].
    right. by apply some_text_idem.
Qed.

Lemma time_iff Date_parse n decidedAt : staleApprovalRequestedAt Date_parse n decidedAt = false ↔
  ∀ decided ms since, some_text decidedAt = Some decided → Date_parse decided = Some ms → requestedAt n = Some (JNum since) →
    num_lt (num_of_Z ms) since = true → num_eq since (num_of_Z 0) = true ∨ ∃ e, same_diff n e.
Proof.
  unfold staleApprovalRequestedAt. destruct (some_text decidedAt) as [t|]; [|naive_solver].
  destruct (requestedAt n) as [[| |since| | |]|]; try (split; [by intros _ ? ? ? _ _ [=]|done]). destruct (Date_parse t) as [ms|] eqn:Et; [|naive_solver].
  pose proof (reblock_iff n None) as Hr. destruct (sameDigestPrePublishReblock n None).
  - rewrite andb_false_r. split; [|done]. intros _ ? ? ? _ _ _ _. right. destruct (proj1 Hr eq_refl) as (e & ? & _). by exists e.
  - destruct (num_lt (num_of_Z ms) since) eqn:El; cbn [andb negb]; [|split; [naive_solver|done]].
    destruct (num_eq since (num_of_Z 0)) eqn:Ez; cbn [andb negb]; [split; naive_solver|]. split; [done|]. intros H.
    destruct (H t ms since eq_refl Et eq_refl El) as [|(e & He)]; [congruence|]. by discriminate (proj2 Hr (ex_intro _ e (conj He (or_introl eq_refl)))).
Qed.

Lemma invalidation_iff n digest : missingDigestAfterInvalidation n digest = false ↔
  ((∃ f, at_key (review n) "invalidated_approval" = Some (JObj f)) → is_Some (some_text digest)).
Proof.
  unfold missingDigestAfterInvalidation, review. destruct (some_text digest) as [t|]; [naive_solver|].
  destruct (at_key (node_metadata n) "pre_publish_review") as [[| | | | |f]|]; cbn [is_record at_key];
    try (split; [intros _ [? [=]]|done]).
  rewrite bool_decide_eq_false. destruct (field f "invalidated_approval") as [[| | | | |g]|]; cbn [is_record];
    (split; [intros H1 [? [=]]; subst; try (by destruct H1)|intros H1 [? H2]; try done; by destruct (H1 ltac:(eauto))]).
Qed.

Lemma digest_iff n digest : staleApprovalDigest n digest = false ↔
  ∀ e d, some_text digest = Some e → approvalSubjectDigest n = Some (JStr d) → d = e.
Proof.
  unfold staleApprovalDigest. destruct (some_text digest) as [t|]; [|naive_solver].
  destruct (approvalSubjectDigest n) as [[| | |d| |]|]; try (split; [by intros _ ? ? _ [=]|done]).
  rewrite negb_false_iff, String.eqb_eq. naive_solver.
Qed.

Lemma stale_reason_None Date_parse n c : stale_reason Date_parse n c = None ↔ current Date_parse n c.
Proof.
  unfold stale_reason. split.
  - destruct (staleApprovalRequestBinding _ _ _) eqn:E1; [done|]. destruct (staleApprovalRequestedAt _ _ _) eqn:E2; [done|].
    destruct (missingDigestAfterInvalidation _ _) eqn:E3; [done|]. destruct (staleApprovalDigest _ _) eqn:E4; [done|]. intros _.
    split; [by apply binding_iff|by apply time_iff|by apply invalidation_iff|by apply digest_iff].
  - intros [H1%binding_iff H2%time_iff H3%invalidation_iff H4%digest_iff]. by rewrite H1, H2, H3, H4.
Qed.

Lemma decidable_node_inr r nodeId d n : decidable_node r nodeId d = inr n ↔
  jm_get nodeId (r_nodes r) = Some n ∧ node_type n ∈ approval_types ∧ r_status r = RBlocked ∧ ns_status n = NBlocked ∧
  staleApprovalDigest n (expectedActionDigest d) = false.
Proof.
  unfold decidable_node. destruct (jm_get nodeId (r_nodes r)) as [n0|]; [|naive_solver].
  case_bool_decide as Ht; cbn [negb]; [|split; [done|by intros ([= ->] & ? & _)]].
  case_bool_decide as Hr; cbn [negb orb]; [|split; [done|by intros (_ & _ & ? & _)]].
  case_bool_decide as Hn; cbn [negb]; [|split; [done|by intros ([= ->] & _ & _ & ? & _)]].
  destruct (staleApprovalDigest n0 _) eqn:E; split; [done|by intros ([= ->] & _ & _ & _ & ?); congruence|by intros [= ->]|by intros ([= ->] & _)].
Qed.

Section decisions.
Variable uuid : nat → string.
Variable iso : Z → string.
Variable Date_parse : string → option Z.
Variable parseWorkflow : WorkflowRunRecord → string + (string → option ParsedNode).
Variable reconcile : WorkflowRunRecord → WorkflowRunRecord.
Variable runApprovalOnRejectFollowUp : json → option string → string → WorkflowRunRecord → WorkflowRunRecord.
Variable revisePlanAfterChangesRequested : WorkflowRunRecord → string → WorkflowApprovalDecision → string + WorkflowRunRecord.
Notation apply := (RuntimeCommands.apply uuid iso Date_parse parseWorkflow reconcile runApprovalOnRejectFollowUp revisePlanAfterChangesRequested).


(** ** Commands come again *)

(** A command that is delivered, with the files as they are then. *)
Record Delivery := { dl_now : Z; dl_command : WorkflowRuntimeCommand; dl_synced : option string; dl_disk : Disk }.
Definition deliver (ids : list string) (e : Delivery) : Applier * Applied :=
  apply (dl_now e) (dl_command e) (dl_synced e) {| consumedCommandIds := ids; disk := dl_disk e |}.
Definition after (ids : list string) (e : Delivery) : list string := consumedCommandIds (deliver ids e).1.
Definition after_all (ids : list string) (h : list Delivery) : list string := fold_left after h ids.
(** How many of the deliveries consumed their command. *)
Fixpoint consumed_count (ids : list string) (h : list Delivery) : nat :=
  match h with
  | [] => 0
  | e :: h => (if bool_decide (after ids e = ids) then 0 else 1) + consumed_count (after ids e) h
  end.

Lemma after_cases ids e : after ids e = ids ∨
  c_id (dl_command e) ∉ ids ∧ after ids e = markCommandConsumedInProcess (c_id (dl_command e)) ids.
Proof.
  unfold after, deliver, RuntimeCommands.apply. case_bool_decide as Hid; [by left|]. cbn [consumedCommandIds disk] in *.
  destruct (c_body (dl_command e)) as [c|c].
  - unfold apply_decision. repeat (case_match; try (by left)); try (by right).
  - unfold applyActionCompleted. repeat (case_match; try (by left)); by right.
Qed.

Lemma deciding_consumes ids e : is_Some (a_decided (deliver ids e).2) →
  c_id (dl_command e) ∉ ids ∧ after ids e = markCommandConsumedInProcess (c_id (dl_command e)) ids.
Proof.
  unfold after, deliver, RuntimeCommands.apply. case_bool_decide as Hid; [by intros [? [=]]|].
  cbn [consumedCommandIds disk] in *. intros [? H]. split; [done|]. destruct (c_body (dl_command e)) as [c|c].
  - unfold apply_decision in *. repeat (case_match; simplify_eq/=; try done).
  - unfold applyActionCompleted in *. repeat (case_match; simplify_eq/=; try done).
Qed.

Lemma mark_new id ids : id ∉ ids → (length ids ≤ 500)%nat →
  ∃ kept, markCommandConsumedInProcess id ids = kept ++ [id] ∧ (length (kept ++ [id]) ≤ 500)%nat ∧
    (kept = ids ∨ length ids = 500%nat ∧ ∃ x, ids = x :: kept).
Proof.
  intros Hid Hl. unfold markCommandConsumedInProcess, set_add. rewrite decide_False by done. rewrite length_app. cbn [length].
  destruct (500 <? length ids + 1)%nat eqn:E.
  - apply Nat.ltb_lt in E. destruct ids as [|x kept]; [simpl in *; lia|]. exists kept. rewrite length_app. simpl in *.
    repeat split; [lia|]. right. split; [lia|]. by exists x.
  - apply Nat.ltb_ge in E. exists ids. rewrite length_app. simpl. repeat split; [lia|by left].
Qed.

Lemma window_keeps id h : ∀ ids l1 l2, ids = l1 ++ id :: l2 → (length ids ≤ 500)%nat →
  (consumed_count ids h + length l2 < 500)%nat → id ∈ after_all ids h.
Proof.
  induction h as [|e h IH]; intros ids l1 l2 E Hl Hc; cbn [consumed_count after_all fold_left] in *.
  { rewrite E. apply elem_of_app. right. by left. }
  destruct (after_cases ids e) as [Ea|[Hn Ea]]; [rewrite Ea in *; rewrite bool_decide_eq_true_2 in Hc by done; by apply (IH ids l1 l2)|].
  destruct (mark_new _ _ Hn Hl) as (kept & Em & Hlen & Hk). rewrite Em in Ea.
  assert (after ids e ≠ ids) as Hne.
  { intros Eq. apply Hn. rewrite <- Eq, Ea. apply elem_of_app. right. by apply list_elem_of_singleton. }
  rewrite bool_decide_eq_false_2 in Hc by done. rewrite <- Ea in Hlen.
  destruct Hk as [->|[H500 [x Ex]]].
  - apply (IH (after ids e) l1 (l2 ++ [c_id (dl_command e)])); [by rewrite Ea, E, <- app_assoc|done|]. rewrite length_app. simpl. lia.
  - destruct l1 as [|y l1]; [exfalso; rewrite E in H500; simpl in H500; lia|].
    rewrite E in Ex. injection Ex as -> Ex.
    apply (IH (after ids e) l1 (l2 ++ [c_id (dl_command e)])); [by rewrite Ea, <- Ex, <- app_assoc|done|]. rewrite length_app. simpl. lia.
Qed.

(** C13: a command is applied once: when it has decided, delivering it again — whatever the files then hold, and after any
    deliveries of which fewer than 500 consumed a command — changes nothing, makes no decision and answers that it is
    done with. *)
Theorem command_applied_once ids e h e' : (length ids ≤ 500)%nat →
  is_Some (a_decided (deliver ids e).2) → c_id (dl_command e') = c_id (dl_command e) →
  (consumed_count (after ids e) h < 500)%nat →
  deliver (after_all (after ids e) h) e' =
    ({| consumedCommandIds := after_all (after ids e) h; disk := dl_disk e' |}, {| a_done := inr true; a_decided := None |}).
Proof.
  intros Hl [Hn Ea]%deciding_consumes Hid Hc. destruct (mark_new _ _ Hn Hl) as (kept & Em & Hlen & _).
  assert (c_id (dl_command e') ∈ after_all (after ids e) h) as Hin.
  { rewrite Hid. apply (window_keeps _ _ _ kept []); [by rewrite Ea, Em|by rewrite Ea, Em|simpl; lia]. }
  unfold deliver, RuntimeCommands.apply, answer. cbn [consumedCommandIds]. by rewrite bool_decide_eq_true_2.
Qed.
End decisions.

(** ** The effect of a decision *)

Section effects.
Variable uuid : nat → string.
Variable iso : Z → string.
Variable Date_parse : string → option Z.
Variable parseWorkflow : WorkflowRunRecord → string + (string → option ParsedNode).
Variable reconcile : WorkflowRunRecord → WorkflowRunRecord.
Variable runApprovalOnRejectFollowUp : json → option string → string → WorkflowRunRecord → WorkflowRunRecord.
Variable revisePlanAfterChangesRequested : WorkflowRunRecord → string → WorkflowApprovalDecision → string + WorkflowRunRecord.
Notation decide_run := (decide_run uuid parseWorkflow runApprovalOnRejectFollowUp revisePlanAfterChangesRequested).
Notation decideApproval := (decideApproval uuid parseWorkflow reconcile runApprovalOnRejectFollowUp revisePlanAfterChangesRequested).
Notation apply := (RuntimeCommands.apply uuid iso Date_parse parseWorkflow reconcile runApprovalOnRejectFollowUp revisePlanAfterChangesRequested).

(** The nodes of a run are those of its workflow. *)
Hypothesis parse_nodes : ∀ r nodes k n, parseWorkflow r = inr nodes → jm_get k (r_nodes r) = Some n →
  ∃ p, nodes k = Some p ∧ pn_type p = node_type n.
(** Reconciling a blocked run fills in the output of prompts. *)
Hypothesis reconcile_blocked : ∀ r, r_status r = RBlocked → r_id (reconcile r) = r_id r ∧ r_status (reconcile r) = RBlocked ∧
  (run_wf r → run_wf (reconcile r)) ∧
  ∀ k n, jm_get k (r_nodes r) = Some n → ∃ n', jm_get k (r_nodes (reconcile r)) = Some n' ∧ (node_type n ≠ "prompt" → n' = n) ∧ node_type n' = node_type n.
(** The command of on_reject adds events and outputs to the run. *)
Hypothesis follow_up_keeps : ∀ c m k r, r_id (runApprovalOnRejectFollowUp c m k r) = r_id r ∧
  (run_wf r → run_wf (runApprovalOnRejectFollowUp c m k r)) ∧
  (is_Some (jm_get k (r_nodes r)) → is_Some (jm_get k (r_nodes (runApprovalOnRejectFollowUp c m k r)))).
(** A plan that is revised waits for the next decision. *)
Hypothesis revise_blocks : ∀ r k d r' n, revisePlanAfterChangesRequested r k d = inr r' → jm_get k (r_nodes r) = Some n → ns_status n = NBlocked →
  r_id r' = r_id r ∧ (run_wf r → run_wf r') ∧ r_status r' = r_status r ∧ ∃ n', jm_get k (r_nodes r') = Some n' ∧ ns_status n' = NBlocked.

(** The statuses a decision leads to. *)
Definition outcome (type : string) (d : WorkflowApprovalDecision) : WorkflowNodeStatus * WorkflowRunStatus :=
  if approved d then (if String.eqb type "action" || String.eqb type "git_publish" then NQueued else NCompleted, RRunning)
  else if String.eqb type "plan" && String.eqb (decision_name d) "request_changes" then (NBlocked, RBlocked)
  else (NFailed, RCanceled).

Lemma decide_run_outcome now nodeId d n run decided : run_wf run → jm_get nodeId (r_nodes run) = Some n →
  decide_run now nodeId d n run = inr decided →
  r_id (d_run decided) = r_id run ∧ run_wf (d_run decided) ∧
  ∃ n', jm_get nodeId (r_nodes (d_run decided)) = Some n' ∧ (ns_status n', r_status (d_run decided)) = outcome (node_type n) d ∧
    (approved d = true → node_metadata n' = node_metadata n).
Proof.
  intros Wr En. unfold RuntimeCommands.decide_run, outcome.
  set (run1 := on_node nodeId (set_rest "approval" (approval_record now d n)) run).
  assert (run_wf run1) as W1 by by apply on_node_wf.
  assert (jm_get nodeId (r_nodes run1) = Some (set_rest "approval" (approval_record now d n) n)) as E1 by by apply on_node_get.
  assert (r_id run1 = r_id run) as I1 by done. clearbody run1.
  destruct (approved d) eqn:Ed; cbn [negb andb].
  - destruct (parseWorkflow run1) as [|nodes] eqn:Ep; [done|].
    destruct (parse_nodes _ _ _ _ Ep E1) as (p & Enp & Etp). rewrite approval_kept_type in Etp. rewrite Enp, Etp.
    case_match eqn:Et; intros [= <-]; cbn [d_run]; (split; [by rewrite <- I1|]); (split; [by apply on_node_wf|]); eexists;
      (split; [by apply on_node_get|]); split; try done; intros _; unfold node_metadata; cbn; by rewrite jm_get_set_ne.
  - destruct (String.eqb (node_type n) "plan" && String.eqb (decision_name d) "request_changes").
    + destruct (revisePlanAfterChangesRequested _ _ _) as [|run2] eqn:Er; [done|]. intros [= <-]. cbn [d_run].
      eapply revise_blocks in Er as (Ir & Wv & Sr & n' & En' & Sn); [|by apply on_node_get|done].
      split; [by rewrite Ir|]. split; [by apply Wv, on_node_wf|]. exists n'. split; [done|]. split; [by rewrite Sn, Sr|done].
    + destruct (parseWorkflow run1) as [|nodes] eqn:Ep; [done|]. intros [= <-]. cbn [d_run].
      match goal with |- context [rejected uuid now nodeId d ?r] => set (run2 := r) end.
      assert (r_id run2 = r_id run1 ∧ run_wf run2 ∧ is_Some (jm_get nodeId (r_nodes run2))) as (I2 & W2 & n2 & E2).
      { unfold run2. destruct (nodes nodeId) as [[t c [o|]]|]; eauto. destruct (String.eqb t "approval"); [|eauto].
        destruct (follow_up_keeps o (message d) nodeId run1) as (? & ? & ?). eauto. }
      clearbody run2. split; [by rewrite <- I1|]. split; [by apply on_node_wf|]. eexists. split; [by apply on_node_get|done].
Qed.

Lemma decideApproval_effect now disk runId nodeId d disk' decided r n :
  stored_node disk runId nodeId r n → r_status r = RBlocked →
  decideApproval now runId nodeId d disk = (disk', inr decided) →
  ∃ r' n', stored_node disk' runId nodeId r' n' ∧ (ns_status n', r_status r') = outcome (node_type n) d ∧
    (approved d = true → node_metadata n' = node_metadata n).
Proof.
  intros Hs Hr. pose proof Hs as [(Er & Ir & Wr) En]. unfold RuntimeCommands.decideApproval. rewrite Er. simpl.
  destruct (reconcile_blocked r Hr) as (Ic & Sc & Wc & Nc). destruct (Nc _ _ En) as (n1 & En1 & Hsame & Ht).
  destruct (decidable_node (reconcile r) nodeId d) as [|n2] eqn:Ed; [done|]. apply decidable_node_inr in Ed as (En2 & Hat & _ & Sb & _).
  assert (n2 = n) as ->.
  { rewrite En1 in En2. injection En2 as ->. apply Hsame. rewrite <- Ht. intros E. rewrite E in Hat. clear -Hat. set_unfold in Hat. naive_solver. }
  destruct (decide_run now nodeId d n (reconcile r)) as [|dec] eqn:Eq; [done|]. intros [= <- <-].
  apply decide_run_outcome in Eq as (I2 & W2 & n' & En' & Ho & Hm); [|by apply Wc|done].
  eapply save_open in En' as (r' & Hst & Hrs); [|exact Hs|by rewrite Hr|by rewrite Sb|by rewrite I2, Ic|done].
  exists r', n'. by rewrite Hrs.
Qed.

(** A decision takes effect: when a command decides and no error is thrown, the file of its run then holds the
    outcome — an approved node is completed, or queued to run with its approval if it is an action or a publication,
    and the run goes on; a plan whose changes are requested waits for the next decision; any other rejection fails
    the node and cancels the run — and an approved node remembers that the command is consumed. *)
Theorem decision_takes_effect now id nodeId c synced st st' runId d r n :
  disk_wf (disk st) → stored_node (disk st) runId nodeId r n →
  apply now {| c_id := id; c_node := nodeId; c_body := ApprovalDecision c |} synced st =
    (st', {| a_done := inr true; a_decided := Some (runId, nodeId, d) |}) →
  ∃ r' n', stored_node (disk st') runId nodeId r' n' ∧ (ns_status n', r_status r') = outcome (node_type n) d ∧
    (approved d = true → runtimeCommandConsumed n' id = true).
Proof.
  intros Hwf Hs. pose proof Hs as [(Er & Ir & Wr) En]. unfold RuntimeCommands.apply, answer. case_match; [done|]. cbn [c_body c_id c_node]. unfold apply_decision, answer.
  destruct (target_run _ _) as [target|]; [|done]. destruct (jm_get target (disk st)) as [r0|] eqn:Er0; [|done].
  destruct (decide (r_status r0 = RBlocked)) as [Hb|Hb]; [|by rewrite bool_decide_eq_false_2].
  rewrite bool_decide_eq_true_2 by done. cbn [negb]. destruct (jm_get nodeId (r_nodes r0)) as [n0|] eqn:En0; [|done].
  destruct (runtimeCommandConsumed n0 id); [done|].
  destruct (decide (ns_status n0 = NBlocked)) as [Hn|Hn]; [|by rewrite bool_decide_eq_false_2].
  rewrite bool_decide_eq_true_2 by done. cbn [negb]. destruct (stale_reason _ _ _); [done|].
  set (marked := on_node nodeId (markRuntimeCommandConsumed (iso now) id []) r0).
  destruct (decideApproval _ _ _ _ _) as [saved [|dec]] eqn:Ed; [done|]. intros [= <- Ei <-]. rewrite Ei in Ed.
  destruct (Hwf _ _ Er0) as (_ & It & _). assert (target = runId) as -> by congruence.
  rewrite Er in Er0. injection Er0 as ->. rewrite En in En0. injection En0 as ->.
  assert (∃ r1, stored_node (save_run marked (disk st)) runId nodeId r1 (markRuntimeCommandConsumed (iso now) id [] n0) ∧ r_status r1 = RBlocked)
    as (r1 & Hs1 & Hb1).
  { eapply save_open in Hs as (r1 & ? & ?); [exists r1; split; [done|]|by rewrite Hb|by rewrite Hn|exact Ir|by apply on_node_wf|by apply on_node_get].
    etransitivity; [done|]. done. }
  eapply decideApproval_effect in Ed as (r' & n' & Hs' & Ho & Hm); [|exact Hs1|done].
  exists r', n'. rewrite marked_type in Ho. split; [done|]. split; [done|]. intros Ha.
  rewrite (consumed_by_metadata _ _ _ (Hm Ha)). apply consumed_marked.
Qed.

End effects.

(** ** Who decided *)

Lemma actor_field_cases actor key : actor_field actor key = [] ∨
  ∃ t, actor_field actor key = [(key, JStr t)] ∧ trim t = t ∧ t ≠ "" ∧ (key = "email" → looksLikeEmail t = true).
Proof.
  unfold actor_field. destruct (scalar_text _) as [text|]; [|by left].
  destruct (truthy_str (trim text)) eqn:Et; cbn [negb]; [|by left].
  destruct (String.eqb_spec key "email") as [->|Hk]; cbn [andb].
  - destruct (looksLikeEmail (trim text)) eqn:El; cbn [negb]; [|by left].
    right. exists (trim text). apply truthy_str_true in Et. by rewrite trim_idem.
  - right. exists (trim text). apply truthy_str_true in Et. by rewrite trim_idem.
Qed.

Lemma actor_field_again actor key t f : actor_field actor key = [(key, JStr t)] → field f key = Some (JStr t) → actor_field f key = [(key, JStr t)].
Proof.
  intros Ea Ef. destruct (actor_field_cases actor key) as [E|(t' & E & Ht & Hn & He)]; [congruence|].
  rewrite Ea in E. injection E as <-. unfold actor_field. rewrite Ef. cbn [scalar_text js_String]. rewrite Ht.
  rewrite (proj2 (truthy_str_true t) Hn). cbn [negb]. destruct (String.eqb_spec key "email") as [Ek|]; [|done].
  by rewrite He.
Qed.

(** Reading an actor again changes nothing; it has four fields at most, none blank, and its address looks like one. *)
Lemma sanitized_again actor f : sanitizeWorkflowApprovalActor actor = Some f → sanitizeWorkflowApprovalActor (Some (JObj f)) = Some f.
Proof.
  unfold sanitizeWorkflowApprovalActor. set (a := match actor with Some (JObj f) => f | _ => [] end). clearbody a.
  case_bool_decide as Hn; [done|]. intros [= Ef]. cbn [flat_map APPROVAL_ACTOR_KEYS] in *.
  assert (∀ key, key ∈ APPROVAL_ACTOR_KEYS → actor_field f key = actor_field a key) as Hf.
  { intros key Hk. pose proof (actor_field_again a key) as Hagain.
    destruct (actor_field_cases a "id") as [E1|(t1 & E1 & _)], (actor_field_cases a "name") as [E2|(t2 & E2 & _)],
      (actor_field_cases a "email") as [E3|(t3 & E3 & _)], (actor_field_cases a "source") as [E4|(t4 & E4 & _)];
      rewrite E1, E2, E3, E4 in Ef; cbn [app] in Ef; subst f; unfold APPROVAL_ACTOR_KEYS in Hk;
      repeat (apply elem_of_cons in Hk as [->|Hk]); try (by apply elem_of_nil in Hk);
      first [rewrite E1|rewrite E2|rewrite E3|rewrite E4]; first [done|by apply Hagain]. }
  rewrite !Hf by (unfold APPROVAL_ACTOR_KEYS; repeat constructor). rewrite Ef. by rewrite bool_decide_eq_false_2 by (by rewrite <- Ef).
Qed.

(** An action that the platform has executed completes its node, and the run with the last one; the status the platform
    reports is not looked at. *)
Lemma completion_takes_effect uuid iso now id nodeId c synced st runId r n : stored_node (disk st) runId nodeId r n →
  target_run (cc_workflow_run_id c) synced = Some runId → terminal_run (r_status r) = false →
  ns_status n ∈ [NBlocked; NQueued; NRunning] →
  ∃ r' n', stored_node (disk (applyActionCompleted uuid iso now id nodeId c synced st).1) runId nodeId r' n' ∧ ns_status n' = NCompleted ∧
    r_status r' = if has_open_node (on_node nodeId (completed_node iso now c) r) then RRunning else RCompleted.
Proof.
  intros Hs Ht Hr Hn. pose proof Hs as [(Er & Ir & Wr) En]. unfold applyActionCompleted. rewrite Ht, Er, Hr, En.
  assert (terminal_node (ns_status n) = false) as Ho
    by (repeat (apply elem_of_cons in Hn as [->|Hn]; [done|]); by apply elem_of_nil in Hn).
  destruct (save_open _ _ _ _ _ (complete_run uuid iso now nodeId c r) (completed_node iso now c n) Hs Hr Ho) as (r' & Hs' & Hst).
  - unfold complete_run. cbn. by case_match.
  - unfold complete_run. cbn. case_match; by apply (on_node_wf nodeId).
  - unfold complete_run. cbn. case_match; by apply (on_node_get nodeId).
  - exists r', (completed_node iso now c n). destruct (ns_status n); try done; cbn [fst disk]; (split; [done|]; split; [done|]; rewrite Hst; unfold complete_run; cbn);
      by match goal with |- context [if ?b then _ else _] => destruct b end.
Qed.

(** ** Commands of the platform: concrete runs

    A disk with one run, on which these properties apply, and
    inputs at which the code does what it does not mean to. *)
Module CommandExamples.
Definition uuid (i : nat) : string := String.string_of_list_ascii (repeat "x"%char i).
Definition iso (t : Z) : string := "date".
Definition no_date (s : string) : option Z := None.
Definition parse (r : WorkflowRunRecord) : string + (string → option ParsedNode) :=
  inr (λ k, (λ n, {| pn_type := node_type n; pn_captureResponse := false; pn_onReject := None |}) <$> jm_get k (r_nodes r)).
Definition same_run (r : WorkflowRunRecord) : WorkflowRunRecord := r.
Definition no_command (c : json) (m : option string) (k : string) (r : WorkflowRunRecord) : WorkflowRunRecord := r.
Definition same_plan (r : WorkflowRunRecord) (k : string) (d : WorkflowApprovalDecision) : string + WorkflowRunRecord := inr r.

Definition apply_here := RuntimeCommands.apply uuid iso no_date parse same_run no_command same_plan.
Definition decide_here := decideApproval uuid parse same_run no_command same_plan.

Definition node (type : string) (status : WorkflowNodeStatus) : Node := {|
  ns_id := "n"; ns_status := status; ns_startedAt := None; ns_completedAt := None; ns_output := None; ns_exitCode := None;
  ns_error := None; ns_skipReason := None; ns_attempts := None; ns_sessionId := None; ns_iterations := []; ns_inlineAgents := [];
  ns_rest := [("type", JStr type); ("approval", JObj [("requestedAt", JNum (num_of_Z 100))])] |}.
Definition run_of (status : WorkflowRunStatus) (nodes : list (string * Node)) : WorkflowRunRecord := {|
  r_id := "r"; r_status := status; r_nodes := nodes; r_events := []; r_startedAt := None; r_updatedAt := 0; r_completedAt := None;
  r_error := None; r_rest := [] |}.
Definition blocked_run (type : string) : WorkflowRunRecord := run_of RBlocked [("n", node type NBlocked)].
Definition start (type : string) : Applier := {| consumedCommandIds := []; disk := [("r", blocked_run type)] |}.

(** The command as the platform sends it. *)
Definition decision_json (approved : bool) (decision : string) : json :=
  JObj [("runtime_commands", JArr [JObj [("id", JStr "c1"); ("type", JStr "workflow.approval_decision"); ("workflow_node_id", JStr "n");
    ("approved", JBool approved); ("decision", JStr decision); ("approval_requested_at", JStr "100");
    ("actor", JObj [("id", JNum (num_of_Z 7)); ("email", JStr "not an address"); ("password", JStr "p")])]])].
Definition command (approved : bool) (decision : string) : WorkflowApprovalDecisionCommand := {|
  ac_workflow_run_id := None; ac_approved := approved; ac_decision := Some decision; ac_message := None; ac_expected_action_digest := None;
  ac_approval_requested_at := Some "100"; ac_decided_at := None; ac_execution_grant := None;
  ac_actor := Some (JObj [("id", JNum (num_of_Z 7)); ("email", JStr "not an address"); ("password", JStr "p")]); ac_feedback := None |}.
Lemma command_read : runtimeCommands (decision_json true "approve") =
  [{| c_id := "c1"; c_node := "n"; c_body := ApprovalDecision (command true "approve") |}].
Proof. vm_compute. reflexivity. Qed.

Definition approve_command : WorkflowRuntimeCommand := {| c_id := "c1"; c_node := "n"; c_body := ApprovalDecision (command true "approve") |}.

(** The actor is known by its id alone. *)
Lemma actor_read : sanitizeWorkflowApprovalActor (ac_actor (command true "approve")) = Some [("id", JStr "7")].
Proof. vm_compute. reflexivity. Qed.

Lemma disk_here type : disk_wf (disk (start type)).
Proof.
  intros k r. cbn. case_decide as Hk; [|done]. intros [= <-]. subst. split; [done|]. split; [done|]. repeat constructor. by intros ?%elem_of_nil.
Qed.
Lemma node_here type : stored_node (disk (start type)) "r" "n" (blocked_run type) (node type NBlocked).
Proof. split; [by apply disk_here|done]. Qed.


Lemma parse_here : ∀ r nodes k n, parse r = inr nodes → jm_get k (r_nodes r) = Some n → ∃ p, nodes k = Some p ∧ pn_type p = node_type n.
Proof. intros r nodes k n [= <-] E. rewrite E. by eexists. Qed.
Lemma run_here : ∀ r, r_status r = RBlocked → r_id (same_run r) = r_id r ∧ r_status (same_run r) = RBlocked ∧ (run_wf r → run_wf (same_run r)) ∧
  ∀ k n, jm_get k (r_nodes r) = Some n → ∃ n', jm_get k (r_nodes (same_run r)) = Some n' ∧ (node_type n ≠ "prompt" → n' = n) ∧ node_type n' = node_type n.
Proof. intros r H. repeat split; try done. intros k n E. by exists n. Qed.
Lemma plan_here : ∀ r k d r' n, same_plan r k d = inr r' → jm_get k (r_nodes r) = Some n → ns_status n = NBlocked →
  r_id r' = r_id r ∧ (run_wf r → run_wf r') ∧ r_status r' = r_status r ∧ ∃ n', jm_get k (r_nodes r') = Some n' ∧ ns_status n' = NBlocked.
Proof. intros r k d r' n [= <-] E S. repeat split; try done. by exists n. Qed.

Lemma decision_takes_effect_witness :
  ∃ r' n', stored_node (disk (apply_here 200 approve_command (Some "r") (start "approval")).1) "r" "n" r' n' ∧
    (ns_status n', r_status r') = (NCompleted, RRunning) ∧
    (approved (command_decision (command true "approve")) = true → runtimeCommandConsumed n' "c1" = true).
Proof.
  apply (decision_takes_effect uuid iso no_date parse same_run no_command same_plan parse_here run_here
    (λ c m k r, conj eq_refl (conj (λ w, w) (λ e, e))) plan_here 200 "c1" "n" (command true "approve") (Some "r")
    (start "approval") (apply_here 200 approve_command (Some "r") (start "approval")).1 "r" (command_decision (command true "approve"))
    (blocked_run "approval") (node "approval" NBlocked) (disk_here "approval") (node_here "approval")).
  vm_compute. reflexivity.
Defined.

(** Delivered again to the run as it was. *)
Definition first_delivery : Delivery := {| dl_now := 200; dl_command := approve_command; dl_synced := Some "r"; dl_disk := disk (start "approval") |}.
Lemma command_applied_once_witness :
  deliver uuid iso no_date parse same_run no_command same_plan ["c1"] first_delivery =
    ({| consumedCommandIds := ["c1"]; disk := disk (start "approval") |}, {| a_done := inr true; a_decided := None |}).
Proof.
  apply (command_applied_once uuid iso no_date parse same_run no_command same_plan [] first_delivery [] first_delivery); [simpl; lia| |done|simpl; lia].
  vm_compute. by eexists.
Defined.

(** ** What the code does not mean to do *)

Definition status_here (r : Applier * Applied) : option (option WorkflowNodeStatus * WorkflowRunStatus) :=
  (λ run, (status_of "n" run, r_status run)) <$> jm_get "r" (disk r.1).

(** The platform reports that an action failed, and the node is completed as executed. *)
Definition failed_action : json :=
  JObj [("runtime_commands", JArr [JObj [("id", JStr "c2"); ("type", JStr "workflow.action_completed"); ("workflow_node_id", JStr "n");
    ("receipt_key", JStr "k"); ("adapter", JStr "github"); ("action", JStr "merge"); ("status", JStr "failed")]])].
Lemma failed_action_completes :
  ∃ c, runtimeCommands failed_action = [c] ∧ status_here (apply_here 200 c (Some "r") (start "action")) = Some (Some NCompleted, RCompleted) ∧
    (run ← jm_get "r" (disk (apply_here 200 c (Some "r") (start "action")).1); n ← jm_get "n" (r_nodes run);
     at_key (at_key (node_metadata n) "action") "status") = Some (JStr "executed").
Proof. eexists. split; [vm_compute; reflexivity|]. split; vm_compute; reflexivity. Qed.

(** A run in which another node has failed is completed by the last action. *)
Lemma completed_over_failure :
  ∃ c, runtimeCommands failed_action = [c] ∧
    status_here (apply_here 200 c (Some "r") {| consumedCommandIds := [];
      disk := [("r", run_of RBlocked [("m", node "shell" NFailed); ("n", node "action" NBlocked)])] |}) = Some (Some NCompleted, RCompleted).
Proof. eexists. split; [vm_compute; reflexivity|]. vm_compute. reflexivity. Qed.

(** The name of a decision is not compared with its sense: a rejection that says approved is an approval. *)
Lemma approved_rejection :
  status_here (apply_here 200 {| c_id := "c1"; c_node := "n"; c_body := ApprovalDecision (command true "reject") |} (Some "r") (start "approval")) =
    Some (Some NCompleted, RRunning).
Proof. vm_compute. reflexivity. Qed.

(** Secrets that come with an approval are written to the events of the run. *)
Definition approval_with_secret : WorkflowApprovalDecision := {|
  approved := true; decision := None; message := None; expectedActionDigest := None; runtimeSecretEnv := Some [("TOKEN", JStr "secret")];
  runtimeSecretFiles := None; actor := None; feedback := None; executionGrant := None |}.
Lemma secrets_in_events :
  (run ← jm_get "r" (decide_here 200 "r" "n" approval_with_secret (disk (start "approval"))).1; e ← r_events run !! 0%nat;
   at_key (field (ev_data e) "runtimeSecretEnv") "TOKEN") = Some (JStr "secret").
Proof. vm_compute. reflexivity. Qed.
End CommandExamples.
