(* ===== verification/StructuredOutputs.v ===== *)
(** * Structured outputs of workflow nodes

    [workflows/structured-outputs.ts].  A node declares outputs with types; when it has
    run, they are read from its text.  [outputs_typed] says what a node that passes has
    captured, [failed_without_outputs] what is left of one that does not.  JSONata is an
    argument.  The definitions are in the order of the object, whose names are taken to
    be none that JavaScript puts first (array indexes). *)

From S2P Require Import Prelude JsString JsMap Json JsonText JsonStringify JsNumber Admission Address EpochClient WorkflowRun RuntimeCommands.
From stdpp Require Import prelude strings list.
From Stdlib Require Import ZArith Lia Ascii Floats.SpecFloat.

Inductive OutputType := TString | TNumber | TBoolean | TJson | TFile | TArtifact.
Inductive Requirement := Required | Optional | Unsupported.
#[export] Instance Requirement_eq_dec : EqDecision Requirement.
Proof. solve_decision. Defined.
Record WorkflowOutputDefinition := { o_type : OutputType; o_requirement : option Requirement; o_extract : option string }.
Definition requirement_of (d : WorkflowOutputDefinition) : Requirement := coalesce (o_requirement d) Optional.
Definition requirement_name (r : Requirement) : string :=
  match r with Required => "required" | Optional => "optional" | Unsupported => "unsupported" end.

Definition stringifyValue (v : option json) : string :=
  match v with
  | None | Some JNull => ""
  | Some (JStr s) => s
  | Some (JNum x) => js_String (JNum x)
  | Some (JBool b) => js_String (JBool b)
  | Some v => JSON_stringify v
  end.

(** [undefined] is what does not parse, blank text is [null]. *)
Definition parseJson (text : string) : option json :=
  let trimmed := trim text in
  if negb (truthy_str trimmed) then Some JNull else JSON_parse trimmed.

(** [{ ...node.outputs, ...node.outputSchema }] *)
Definition structuredOutputDefinitions (outputs outputSchema : list (string * WorkflowOutputDefinition)) :
    list (string * WorkflowOutputDefinition) :=
  fold_left (λ m e, jm_set e.1 e.2 m) outputSchema outputs.

Section outputs.
(** [jsonata(extract).evaluate({ output, json })]: the value, which may be undefined, or nothing when it throws. *)
Variable jsonata : string → string → option json → option (option json).

Definition outputSource (text : string) (parsedJson : option json) (d : WorkflowOutputDefinition) : option json :=
  match some_text (o_extract d) with
  | None => Some (JStr text)
  | Some extract => match jsonata extract text parsedJson with Some v => v | None => Some JNull end
  end.

Definition finite (x : spec_float) : bool := match x with S754_zero _ | S754_finite _ _ _ => true | _ => false end.
Definition truthy_words : list string := ["true"; "1"; "yes"; "y"; "pass"; "passed"; "ok"].
Definition coerceOutputValue (v : option json) (d : WorkflowOutputDefinition) : json :=
  match o_type d with
  | TString => JStr (stringifyValue v)
  | TJson =>
      match some_text (o_extract d) with
      | Some _ => coalesce v JNull
      | None => match parseJson (stringifyValue v) with Some parsed => parsed | None => JStr (stringifyValue v) end
      end
  | TNumber =>
      match Num.Number (trim (stringifyValue v)) with
      | Some x => if finite x then JNum x else JNull
      | None => JNull
      end
  | TBoolean => JBool (bool_decide (lower (trim (stringifyValue v)) ∈ truthy_words))
  | TFile | TArtifact => if truthy_str (stringifyValue v) then JStr (stringifyValue v) else JNull
  end.

Definition invalidOutputReason (value : json) (source parsedJson : option json) (text : string) (d : WorkflowOutputDefinition) :
    option string :=
  if negb (nonblank (stringifyValue source)) then Some "missing"
  else
    match o_type d with
    | TString | TFile | TArtifact => if nonblank (stringifyValue (Some value)) then None else Some "missing"
    | TJson =>
        if negb (bool_decide (is_Some (some_text (o_extract d)))) && negb (bool_decide (is_Some parsedJson)) && nonblank text
        then Some "malformed_json"
        else match value with JNull => Some "missing" | _ => None end
    | TNumber => match value with JNum x => if finite x then None else Some "invalid_number" | _ => Some "invalid_number" end
    | TBoolean => match value with JBool _ => None | _ => Some "invalid_boolean" end
    end.

Definition receipt_entry (r : Requirement) (status : string) (reason : option string) : json :=
  JObj ([("requirement", JStr (requirement_name r)); ("status", JStr status)] ++ text_field "reason" reason).
Record Capture := { collected : record; receipt : record }.

(** One output: the capture goes on, or ends with an invalid one that is required. *)
Definition capture_one (text : string) (parsedJson : option json) (name : string) (d : WorkflowOutputDefinition) (c : Capture) :
    (record * string) + Capture :=
  let r := requirement_of d in
  if bool_decide (r = Unsupported) then
    inr {| collected := collected c;
           receipt := jm_set name (receipt_entry r "degraded" (Some "structured_output_unsupported")) (receipt c) |}
  else
    let source := outputSource text parsedJson d in
    let value := coerceOutputValue source d in
    match invalidOutputReason value source parsedJson text d with
    | Some reason =>
        let receipt' := jm_set name (receipt_entry r "invalid" (Some reason)) (receipt c) in
        if bool_decide (r = Required) then inl (receipt', reason)
        else inr {| collected := jm_set name value (collected c); receipt := receipt' |}
    | None => inr {| collected := jm_set name value (collected c); receipt := jm_set name (receipt_entry r "captured" None) (receipt c) |}
    end.
Fixpoint capture_all (text : string) (parsedJson : option json) (ds : list (string * WorkflowOutputDefinition)) (c : Capture) :
    (record * (string * string)) + Capture :=
  match ds with
  | [] => inr c
  | (name, d) :: ds =>
      match capture_one text parsedJson name d c with
      | inl (receipt', reason) => inl (receipt', (name, reason))
      | inr c => capture_all text parsedJson ds c
      end
  end.

Definition with_receipt (receipt : record) (n : WorkflowNodeRunState) : WorkflowNodeRunState :=
  let metadata := default [] (is_record (node_metadata n)) in
  set_rest "metadata" (JObj (jm_set "structuredOutputs"
    (JObj [("schema", JStr "viewport.structured_outputs/v1"); ("outputs", JObj receipt)]) metadata)) n.
Definition set_outputs (outputs : record) (n : WorkflowNodeRunState) : WorkflowNodeRunState := set_rest "outputs" (JObj outputs) n.

(** The node, and the message of the error that is thrown. *)
Definition captureNodeStructuredOutputs (outputs outputSchema : list (string * WorkflowOutputDefinition)) (n : WorkflowNodeRunState) :
    WorkflowNodeRunState * option string :=
  let definitions := structuredOutputDefinitions outputs outputSchema in
  if bool_decide (definitions = []) then (n, None)
  else
    let text := coalesce (ns_output n) "" in
    match capture_all text (parseJson text) definitions {| collected := []; receipt := [] |} with
    | inl (receipt, (name, reason)) =>
        (with_receipt receipt
           (node_error (Some ("Required structured output " +:+ name +:+ " is invalid: " +:+ reason)) (node_status NFailed (set_outputs [] n))),
         Some ("Structured output " +:+ name +:+ " is invalid: " +:+ reason))
    | inr c => (with_receipt (receipt c) (set_outputs (collected c) n), None)
    end.
End outputs.

(** ** What is captured *)

(** The values of a type, and those that are there. *)
Definition typed (d : WorkflowOutputDefinition) (v : json) : Prop :=
  match o_type d with
  | TString => ∃ s, v = JStr s
  | TNumber => v = JNull ∨ ∃ x, v = JNum x ∧ finite x = true
  | TBoolean => ∃ b, v = JBool b
  | TJson => True
  | TFile | TArtifact => v = JNull ∨ ∃ s, v = JStr s ∧ s ≠ ""
  end.
Definition present (d : WorkflowOutputDefinition) (v : json) : Prop :=
  match o_type d with
  | TString | TFile | TArtifact => ∃ s, v = JStr s ∧ nonblank s = true
  | TNumber => ∃ x, v = JNum x ∧ finite x = true
  | TBoolean => ∃ b, v = JBool b
  | TJson => v ≠ JNull
  end.

Lemma coerced_typed v d : typed d (coerceOutputValue v d).
Proof.
  unfold typed, coerceOutputValue. destruct (o_type d); eauto.
  - destruct (Num.Number _) as [x|]; [|by left]. destruct (finite x) eqn:E; [right; by exists x|by left].
  - destruct (truthy_str (stringifyValue v)) eqn:E; [|by left]. right. eexists. split; [done|by apply truthy_str_true].
  - destruct (truthy_str (stringifyValue v)) eqn:E; [|by left]. right. eexists. split; [done|by apply truthy_str_true].
Qed.

Lemma nonblank_text v : typed {| o_type := TFile; o_requirement := None; o_extract := None |} v → nonblank (stringifyValue (Some v)) = true →
  ∃ s, v = JStr s ∧ nonblank s = true.
Proof. intros [->|(s & -> & _)] Hn; [done|]. by exists s. Qed.

Lemma valid_present source parsedJson text d :
  invalidOutputReason (coerceOutputValue source d) source parsedJson text d = None → present d (coerceOutputValue source d).
Proof.
  unfold invalidOutputReason. destruct (nonblank (stringifyValue source)); [|done]. cbn [negb].
  pose proof (coerced_typed source d) as Ht. unfold present, typed in *. destruct (o_type d); try done.
  - destruct Ht as [s ->]. destruct (nonblank _) eqn:E; [|done]. intros _. by exists s.
  - destruct Ht as [->|(x & -> & Hx)]; [done|]. intros _. by exists x.
  - case_match; [done|]. destruct (coerceOutputValue source d); done.
  - destruct (nonblank _) eqn:E; [|done]. intros _. by apply nonblank_text.
  - destruct (nonblank _) eqn:E; [|done]. intros _. by apply nonblank_text.
Qed.

Section capture.
Variable jsonata : string → string → option json → option (option json).
Notation capture_one := (capture_one jsonata).
Notation capture_all := (capture_all jsonata).

(** What the captured outputs are, for the definitions read so far. *)
Definition outputs_of (ds : list (string * WorkflowOutputDefinition)) (f : record) : Prop :=
  ∀ name, match jm_get name ds, field f name with
          | Some d, Some v => requirement_of d ≠ Unsupported ∧ typed d v ∧ (requirement_of d = Required → present d v)
          | Some d, None => requirement_of d = Unsupported
          | None, Some _ => False
          | None, None => True
          end.

Lemma capture_one_inr text parsedJson name d c c' : capture_one text parsedJson name d c = inr c' →
  (requirement_of d = Unsupported ∧ collected c' = collected c) ∨
  ∃ v, requirement_of d ≠ Unsupported ∧ collected c' = jm_set name v (collected c) ∧ typed d v ∧ (requirement_of d = Required → present d v).
Proof.
  unfold StructuredOutputs.capture_one. case_bool_decide as Hu; [intros [= <-]; by left|].
  set (source := outputSource _ _ _ _). destruct (invalidOutputReason _ _ _ _ _) eqn:E.
  - case_bool_decide as Hr; [done|]. intros [= <-]. right. exists (coerceOutputValue source d).
    split; [done|]. split; [done|]. split; [apply coerced_typed|done].
  - intros [= <-]. right. exists (coerceOutputValue source d). split; [done|]. split; [done|]. split; [apply coerced_typed|].
    intros _. by eapply valid_present.
Qed.

Lemma get_snoc {V} (name name' : string) (d : V) before : jm_get name' (before ++ [(name, d)]) =
  match jm_get name' before with Some x => Some x | None => if decide (name' = name) then Some d else None end.
Proof. induction before as [|[k x] l IHl]; [done|]. simpl. destruct (decide (name' = k)); [done|exact IHl]. Qed.

Lemma capture_all_outputs text parsedJson ds : ∀ before c c', NoDup_keys (before ++ ds) → outputs_of before (collected c) →
  capture_all text parsedJson ds c = inr c' → outputs_of (before ++ ds) (collected c').
Proof.
  induction ds as [|[name d] ds IH]; intros before c c' Hnd Hc; simpl.
  { rewrite app_nil_r. by intros [= <-]. }
  destruct (capture_one text parsedJson name d c) as [[]|c1] eqn:E1; [done|]. intros E2.
  rewrite cons_middle, (assoc_L (++)) in Hnd |- *. apply (IH (before ++ [(name, d)]) c1); [done| |done].
  assert (jm_get name before = None) as Hnew.
  { unfold NoDup_keys, jm_keys in Hnd. rewrite fmap_app, fmap_app in Hnd. apply NoDup_app in Hnd as (Hnd & _ & _).
    apply NoDup_app in Hnd as (_ & Hd & _). apply jm_get_None. intros Hin. apply (Hd name Hin). by left. }
  intros name'. specialize (Hc name').
  assert (jm_get name' (before ++ [(name, d)]) = match jm_get name' before with Some x => Some x | None => if decide (name' = name) then Some d else None end)
    as -> by apply get_snoc.
  destruct (decide (name' = name)) as [->|Hne].
  - rewrite Hnew in Hc |- *. apply capture_one_inr in E1 as [[Hu ->]|(v & Hr & -> & Ht & Hp)]; [by case_match|].
    unfold field. rewrite jm_get_set_eq. done.
  - assert (field (collected c1) name' = field (collected c) name') as ->.
    { apply capture_one_inr in E1 as [[_ ->]|(v & _ & -> & _)]; [done|]. unfold field. by rewrite jm_get_set_ne. }
    by destruct (jm_get name' before).
Qed.
End capture.

Section node.
Variable jsonata : string → string → option json → option (option json).
Notation captureNodeStructuredOutputs := (captureNodeStructuredOutputs jsonata).

Lemma definitions_nodup outputs outputSchema : NoDup_keys outputs → NoDup_keys (structuredOutputDefinitions outputs outputSchema).
Proof.
  unfold structuredOutputDefinitions. revert outputs. induction outputSchema as [|e l IH]; intros outputs H; [done|].
  apply IH. auto with viewport.
Qed.

Lemma rest_get key v n : field (ns_rest (set_rest key v n)) key = Some v.
Proof. unfold field. cbn. apply jm_get_set_eq. Qed.
Lemma rest_get_ne key key' v n : key ≠ key' → field (ns_rest (set_rest key' v n)) key = field (ns_rest n) key.
Proof. intros ?. unfold field. cbn. by apply jm_get_set_ne. Qed.

(** C15: outputs are well typed: a node that passes has exactly the outputs that its workflow declares and that are not
    marked unsupported; each has its declared type, where null stands for a missing number, path or JSON value; and a
    required one is there — a text that is not blank, a finite number, a boolean, a value that is not null. *)
Theorem outputs_typed outputs outputSchema n n' : NoDup_keys outputs →
  captureNodeStructuredOutputs outputs outputSchema n = (n', None) → structuredOutputDefinitions outputs outputSchema ≠ [] →
  ns_status n' = ns_status n ∧
  ∃ captured, field (ns_rest n') "outputs" = Some (JObj captured) ∧
    outputs_of (structuredOutputDefinitions outputs outputSchema) captured.
Proof.
  intros Hnd. unfold StructuredOutputs.captureNodeStructuredOutputs. case_bool_decide as He; [done|].
  destruct (capture_all _ _ _ _ _) as [[? []]|c] eqn:E; [done|]. intros [= <-] _. split; [done|]. exists (collected c).
  split; [unfold with_receipt; rewrite rest_get_ne by done; apply rest_get|].
  refine (capture_all_outputs _ _ _ _ [] _ _ _ _ E); [by apply definitions_nodup|by intros ?].
Qed.

(** A node that does not pass has failed and has no outputs. *)
Lemma failed_without_outputs outputs outputSchema n n' message : captureNodeStructuredOutputs outputs outputSchema n = (n', Some message) →
  ns_status n' = NFailed ∧ is_Some (ns_error n') ∧ field (ns_rest n') "outputs" = Some (JObj []).
Proof.
  unfold StructuredOutputs.captureNodeStructuredOutputs. case_bool_decide; [done|].
  destruct (capture_all _ _ _ _ _) as [[? []]|c] eqn:E; [|done]. intros [= <- _]. split; [done|]. split; [by eexists|].
  unfold with_receipt. rewrite rest_get_ne by done. apply rest_get.
Qed.
End node.

(** ** Concrete outputs *)
Module OutputExamples.
Definition no_jsonata (extract text : string) (parsed : option json) : option (option json) := None.
Definition node (text : string) : WorkflowNodeRunState := {|
  ns_id := "n"; ns_status := NCompleted; ns_startedAt := None; ns_completedAt := None; ns_output := Some text; ns_exitCode := None;
  ns_error := None; ns_skipReason := None; ns_attempts := None; ns_sessionId := None; ns_iterations := []; ns_inlineAgents := []; ns_rest := [] |}.
Definition output (t : OutputType) (r : Requirement) : WorkflowOutputDefinition := {| o_type := t; o_requirement := Some r; o_extract := None |}.
Definition numbers : list (string * WorkflowOutputDefinition) := [("count", output TNumber Required); ("later", output TNumber Unsupported)].

Lemma outputs_typed_witness :
  ∃ captured, field (ns_rest (captureNodeStructuredOutputs no_jsonata numbers [] (node " 42 ")).1) "outputs" = Some (JObj captured) ∧
    outputs_of (structuredOutputDefinitions numbers []) captured.
Proof.
  apply (outputs_typed no_jsonata numbers [] (node " 42 ") (captureNodeStructuredOutputs no_jsonata numbers [] (node " 42 ")).1).
  - vm_compute. repeat constructor; set_solver.
  - vm_compute. reflexivity.
  - discriminate.
Defined.

Definition outputs_here (t : OutputType) (r : Requirement) (text : string) : option json :=
  field (ns_rest (captureNodeStructuredOutputs no_jsonata [("o", output t r)] [] (node text)).1) "outputs".

(** The number of a blank text is zero, not null. *)
Lemma blank_number_zero : outputs_here TNumber Optional " " = Some (JObj [("o", JNum (num_of_Z 0))]).
Proof. vm_compute. reflexivity. Qed.
(** Every text is a boolean: a required boolean is false where the text is no answer. *)
Lemma no_answer_is_false : outputs_here TBoolean Required "I could not run the tests" = Some (JObj [("o", JBool false)]).
Proof. vm_compute. reflexivity. Qed.
Lemma malformed_refused : captureNodeStructuredOutputs no_jsonata [("o", output TJson Required)] [] (node "{") =
  (with_receipt [("o", receipt_entry Required "invalid" (Some "malformed_json"))]
     (node_error (Some "Required structured output o is invalid: malformed_json") (node_status NFailed (set_outputs [] (node "{")))),
   Some "Structured output o is invalid: malformed_json").
Proof. vm_compute. reflexivity. Qed.
End OutputExamples.
