(* ===== verification/Resumption.v ===== *)
(** * Runs after a restart of the daemon

    [workflows/runner-reconciler.ts] and [runner-resumer.ts].  A run that was under way is
    first reconciled with the sessions of its prompts, which may have ended meanwhile;
    then what else was running is queued again and the scheduler started.
    [resumed_once] says what is launched again and what is not.  The state of a session
    and the texts read from its transcript are arguments, and one clock reading stands
    for those of a call. *)

From S2P Require Import Prelude JsString JsMap Json WorkflowRun RuntimeCommands RuntimeCommandsProps.
From stdpp Require Import prelude strings list.
From Stdlib Require Import ZArith Lia Ascii.
#[local] Notation Node := WorkflowNodeRunState.

Inductive SessionState := SIdle | SCompleted | SErrored | SOther.

Definition set_startedAt (x : option Z) (n : Node) : Node := node_startedAt x n.
Definition transcriptExcerpt (n : Node) : list json := match field (ns_rest n) "transcriptExcerpt" with Some (JArr l) => l | _ => [] end.
(** A prompt with a session, under way. *)
Definition running_prompt (n : Node) : bool :=
  bool_decide (ns_status n = NRunning) && String.eqb (node_type n) "prompt" && truthy_opt (ns_sessionId n).
Definition session_id (n : Node) : string := default "" (ns_sessionId n).

Section resumption.
(** The identifiers drawn for events, by the number of events before. *)
Variable uuid : nat → string.
Variable session_state : string → SessionState.
Variable readPromptNodeOutput : Node → string.
Variable readPromptNodeTranscriptExcerpt : Node → list json.
Variable now : Z.

Definition event (type message : string) (data : record) (nodeId : option string) (run : WorkflowRunRecord) : WorkflowRunRecord :=
  addEvent (uuid (length (r_events run))) now type message data nodeId run.

(** ** runner-reconciler.ts *)

(** The node with what was recovered, and whether anything was. *)
Definition backfillPromptNodeData (n : Node) : Node * bool :=
  let output := if truthy_opt (ns_output n) then "" else readPromptNodeOutput n in
  let n1 := if truthy_str output then set_output (Some output) n else n in
  let excerpt := if bool_decide (transcriptExcerpt n1 = []) then readPromptNodeTranscriptExcerpt n1 else [] in
  let n2 := if bool_decide (excerpt = []) then n1 else set_rest "transcriptExcerpt" (JArr excerpt) n1 in
  (n2, truthy_str output || negb (bool_decide (excerpt = []))).

Definition recovered_data (n : Node) : record :=
  text_field "output" (some_text (ns_output n)) ++ json_field "transcriptExcerpt" (field (ns_rest n) "transcriptExcerpt").
Definition recovered_event (id : string) (n : Node) (run : WorkflowRunRecord) : WorkflowRunRecord :=
  event "node-output" ("Node " +:+ ns_id n +:+ " recovered prompt output") (recovered_data n) (Some (ns_id n)) run.

Definition put_node (id : string) (n : Node) (run : WorkflowRunRecord) : WorkflowRunRecord := run_nodes (jm_set id n (r_nodes run)) run.

(** The session has ended: the node with what it wrote. *)
Definition session_ended (idle : bool) (id : string) (n : Node) (run : WorkflowRunRecord) : WorkflowRunRecord :=
  let '(n, recovered) := backfillPromptNodeData n in
  let completedAt := coalesce (ns_completedAt n) now in
  let n := node_completedAt (Some completedAt) (node_status NCompleted n) in
  let run := run_updatedAt completedAt (put_node id n run) in
  let run := if recovered then recovered_event id n run else run in
  let run := event (if idle then "session-idle" else "session-ended")
    ("Node " +:+ ns_id n +:+ " session " +:+ session_id n +:+ " " +:+ (if idle then "became idle" else "ended"))
    [("sessionId", JStr (session_id n)); ("reason", JStr (if idle then "idle" else "completed"))] (Some (ns_id n)) run in
  event "node-completed" ("Node " +:+ ns_id n +:+ " completed") [] (Some (ns_id n)) run.

Definition session_errored (id : string) (n : Node) (run : WorkflowRunRecord) : WorkflowRunRecord :=
  let error := "Session " +:+ session_id n +:+ " errored" in
  let n := node_completedAt (Some now) (node_error (Some error) (node_status NFailed n)) in
  let run := run_updatedAt now (run_completedAt (Some now) (run_error (Some error) (run_status RFailed (put_node id n run)))) in
  let run := event "node-failed" ("Node " +:+ ns_id n +:+ " failed: " +:+ error) [] (Some (ns_id n)) run in
  event "run-failed" ("Workflow run failed: " +:+ error) [] None run.

(** One node; the run with a flag that says whether it has changed. *)
Definition reconcile_node (st : WorkflowRunRecord * bool) (id : string) : WorkflowRunRecord * bool :=
  match jm_get id (r_nodes st.1) with
  | Some n =>
      if negb (running_prompt n) then st
      else
        match session_state (session_id n) with
        | SIdle => (session_ended true id n st.1, true)
        | SCompleted => (session_ended false id n st.1, true)
        | SErrored => (session_errored id n st.1, true)
        | SOther => st
        end
  | None => st
  end.

Definition backfill_node (st : WorkflowRunRecord * bool) (id : string) : WorkflowRunRecord * bool :=
  match jm_get id (r_nodes st.1) with
  | Some n =>
      if negb (String.eqb (node_type n) "prompt") || negb (truthy_opt (ns_sessionId n)) then st
      else
        let '(n, recovered) := backfillPromptNodeData n in
        if recovered then (recovered_event id n (run_updatedAt now (put_node id n st.1)), true) else (put_node id n st.1, st.2)
  | None => st
  end.

Definition over_nodes (f : WorkflowRunRecord * bool → string → WorkflowRunRecord * bool) (run : WorkflowRunRecord) : WorkflowRunRecord * bool :=
  fold_left f (jm_keys (r_nodes run)) (run, false).

Definition under_way (run : WorkflowRunRecord) : bool := bool_decide (r_status run = RQueued) || bool_decide (r_status run = RRunning).
Definition all_completed (run : WorkflowRunRecord) : bool := forallb (λ e, bool_decide (ns_status e.2 = NCompleted)) (r_nodes run).

(** The run, and whether it is saved. *)
Definition reconcile (activeRunIds : list string) (run : WorkflowRunRecord) : WorkflowRunRecord * bool :=
  if negb (under_way run) then over_nodes backfill_node run
  else if bool_decide (r_id run ∈ activeRunIds) then (run, false)
  else
    let '(run, changed) := over_nodes reconcile_node run in
    let run :=
      if changed && all_completed run then
        let completedAt := coalesce (r_completedAt run) now in
        event "run-completed" "Workflow run completed" [] None
          (run_updatedAt completedAt (run_completedAt (Some completedAt) (run_status RCompleted run)))
      else run in
    (run, changed).

(** ** runner-resumer.ts *)

Variable parses : WorkflowRunRecord → option string.          (* the error of [parseWorkflow] *)

Definition reset_node (n : Node) : Node :=
  if bool_decide (ns_status n = NRunning) then node_output None None (set_startedAt None (node_status NQueued n)) else n.
Definition hasInFlightPromptSession (run : WorkflowRunRecord) : bool := existsb (λ e, running_prompt e.2) (r_nodes run).

(** What [resumeOneRun] does with a run: the records it saves, in order, and whether the scheduler is started on the
    last one, or the error. *)
Inductive Resumed := NotResumed | Started (run : WorkflowRunRecord) | Failed (message : string).
Definition resumeOneRun (activeRunIds : list string) (run : WorkflowRunRecord) : list WorkflowRunRecord * Resumed :=
  let '(run, changed) := reconcile activeRunIds run in
  let saved := if changed then [run] else [] in
  if negb (under_way run) then (saved, NotResumed)
  else if hasInFlightPromptSession run then
    (saved ++ [event "run-resume-paused" "Workflow run resume paused for an in-flight prompt session" [] None run], NotResumed)
  else
    let dirty := existsb (λ e, bool_decide (ns_status e.2 = NRunning)) (r_nodes run) in
    let reset := run_nodes (map (λ e, (e.1, reset_node e.2)) (r_nodes run)) run in
    let run := if dirty then event "run-started" "Workflow run resumed after restart" [] None reset else run in
    let saved := if dirty then saved ++ [run] else saved in
    match parses run with
    | Some message => (saved, Failed message)
    | None => (saved, Started run)
    end.

(** [resumePendingRuns] over the runs that the store lists; [failRun] is given what is on disk. *)
Record Resumption := { p_disk : Disk; p_started : list WorkflowRunRecord; p_resumed : nat; p_failed : nat }.
Definition resume_candidate (failRun : string → string → Disk → Disk) (activeRunIds : list string) (st : Resumption) (candidate : WorkflowRunRecord) : Resumption :=
  if negb (under_way candidate) then st
  else
    let '(saved, resumed) := resumeOneRun activeRunIds candidate in
    let disk := fold_left (λ disk run, save_run run disk) saved (p_disk st) in
    match resumed with
    | Failed message =>
        {| p_disk := failRun (r_id candidate) ("resume failed: " +:+ message) disk; p_started := p_started st;
           p_resumed := p_resumed st; p_failed := S (p_failed st) |}
    | NotResumed => {| p_disk := disk; p_started := p_started st; p_resumed := S (p_resumed st); p_failed := p_failed st |}
    | Started run => {| p_disk := disk; p_started := p_started st ++ [run]; p_resumed := S (p_resumed st); p_failed := p_failed st |}
    end.
Definition resumePendingRuns (failRun : string → string → Disk → Disk) (activeRunIds : list string) (candidates : list WorkflowRunRecord) (disk : Disk) : Resumption :=
  fold_left (resume_candidate failRun activeRunIds) candidates {| p_disk := disk; p_started := []; p_resumed := 0; p_failed := 0 |}.

(** ** What reconciling does to a node *)

Definition reconciled (n n' : Node) : Prop :=
  if running_prompt n then
    match session_state (session_id n) with
    | SIdle | SCompleted => ns_status n' = NCompleted
    | SErrored => ns_status n' = NFailed
    | SOther => n' = n
    end
  else n' = n.
Definition errored (n : Node) : bool :=
  running_prompt n && match session_state (session_id n) with SErrored => true | _ => false end.

Lemma event_nodes type message data nodeId run : r_nodes (event type message data nodeId run) = r_nodes run.
Proof. done. Qed.

(** Whether the node is there, and what the step makes of it. *)
Lemma reconcile_node_spec st id : let st' := reconcile_node st id in
  (∀ k, k ≠ id → jm_get k (r_nodes st'.1) = jm_get k (r_nodes st.1)) ∧
  (∀ n, jm_get id (r_nodes st.1) = Some n → ∃ n', jm_get id (r_nodes st'.1) = Some n' ∧ reconciled n n') ∧
  (NoDup_keys (r_nodes st.1) → NoDup_keys (r_nodes st'.1)) ∧
  r_status st'.1 = (if match jm_get id (r_nodes st.1) with Some n => errored n | None => false end then RFailed else r_status st.1).
Proof.
  unfold reconcile_node, reconciled, errored. destruct (jm_get id (r_nodes st.1)) as [n|] eqn:E; [|naive_solver].
  destruct (running_prompt n) eqn:Er; cbn [negb andb].
  2:{ split; [done|]. split; [|done]. intros ? [= <-]. exists n. by rewrite Er. }
  assert (∀ idle, let run := session_ended idle id n st.1 in
    (∃ n', r_nodes run = jm_set id n' (r_nodes st.1) ∧ ns_status n' = NCompleted) ∧ r_status run = r_status st.1) as He.
  { intros idle. unfold session_ended. destruct (backfillPromptNodeData n) as [n1 [|]]; (split; [by eexists|done]). }
  destruct (session_state (session_id n)) eqn:Es; cbn [fst].
  1,2: match goal with |- context [session_ended ?b _ _ _] => destruct (He b) as [(n' & -> & Hn) ->] end.
  1,2: split; [intros k Hk; by apply jm_get_set_ne|]; split; [intros ? [= <-]; exists n'; rewrite jm_get_set_eq, Er, Es; done|]; split; [auto with viewport|done].
  - split; [intros k Hk; by apply jm_get_set_ne|]. split; [|split; [cbn; auto with viewport|done]].
    intros ? [= <-]. eexists. split; [apply jm_get_set_eq|]. by rewrite Er, Es.
  - split; [done|]. split; [|done]. intros ? [= <-]. exists n. by rewrite Er, Es.
Qed.

Lemma reconcile_all_spec l : ∀ st, NoDup l → let st' := fold_left reconcile_node l st in
  (∀ k, k ∉ l → jm_get k (r_nodes st'.1) = jm_get k (r_nodes st.1)) ∧
  (∀ k n, k ∈ l → jm_get k (r_nodes st.1) = Some n → ∃ n', jm_get k (r_nodes st'.1) = Some n' ∧ reconciled n n') ∧
  (NoDup_keys (r_nodes st.1) → NoDup_keys (r_nodes st'.1)) ∧
  (r_status st'.1 = r_status st.1 ∨ r_status st'.1 = RFailed) ∧
  (∀ k n, k ∈ l → jm_get k (r_nodes st.1) = Some n → errored n = true → r_status st'.1 = RFailed).
Proof.
  induction l as [|id l IH]; intros st Hnd; cbn [fold_left].
  { split; [done|]. split; [by intros ? ? ?%elem_of_nil|]. split; [done|]. split; [by left|by intros ? ? ?%elem_of_nil]. }
  apply NoDup_cons in Hnd as [Hni Hnd]. destruct (reconcile_node_spec st id) as (S1 & S2 & S3 & S4).
  destruct (IH (reconcile_node st id) Hnd) as (I1 & I2 & I3 & I4 & I5). split; [|split; [|split; [|split]]].
  - intros k [Hk Hl]%not_elem_of_cons. rewrite I1 by done. by apply S1.
  - intros k n [->|Hk]%elem_of_cons E.
    + rewrite I1 by done. by apply S2.
    + apply I2; [done|]. rewrite S1; [done|]. by intros ->.
  - auto.
  - rewrite S4 in I4. destruct (match jm_get id _ with Some n => _ | None => _ end); [|done]. destruct I4; by right.
  - intros k n [->|Hk]%elem_of_cons E He.
    + rewrite E, He in S4. rewrite S4 in I4. by destruct I4.
    + apply (I5 k n Hk); [|done]. rewrite S1; [done|]. by intros ->.
Qed.

(** ** What is launched again *)

(** What a restart makes of a node: a prompt whose session has ended is completed, other work under way is queued anew. *)
Definition resumed_node (n n' : Node) : Prop :=
  if running_prompt n then (session_state (session_id n) = SIdle ∨ session_state (session_id n) = SCompleted) ∧ ns_status n' = NCompleted
  else n' = reset_node n.

Lemma reset_all_get k run : jm_get k (map (λ e : string * Node, (e.1, reset_node e.2)) (r_nodes run)) = reset_node <$> jm_get k (r_nodes run).
Proof. induction (r_nodes run) as [|[k' n] l IH]; [done|]. simpl. by destruct (decide (k = k')). Qed.

Lemma in_flight_none run k n : hasInFlightPromptSession run = false → jm_get k (r_nodes run) = Some n → running_prompt n = false.
Proof.
  intros H E%jm_get_elem. destruct (running_prompt n) eqn:Er; [|done]. exfalso.
  assert (hasInFlightPromptSession run = true) as Ht by (apply existsb_exists; exists (k, n); split; [by apply list_elem_of_In|done]).
  congruence.
Qed.

Lemma reset_running_prompt n : running_prompt n = false → ns_status (reset_node n) ≠ NRunning.
Proof. intros _. unfold reset_node. by case_bool_decide. Qed.
Lemma completed_reset n : ns_status n = NCompleted → reset_node n = n.
Proof. intros E. unfold reset_node. by rewrite bool_decide_eq_false_2 by (by rewrite E). Qed.

Lemma backfill_status l st : r_status (fold_left backfill_node l st).1 = r_status st.1.
Proof.
  revert st. induction l as [|id l IH]; intros st; [done|]. cbn [fold_left]. rewrite IH. unfold backfill_node.
  destruct (jm_get id _); [|done]. case_match; [done|]. by destruct (backfillPromptNodeData _) as [? [|]].
Qed.

Lemma reconcile_keeps activeRunIds run run1 changed : run_wf run → reconcile activeRunIds run = (run1, changed) → under_way run1 = true →
  ∀ k n, jm_get k (r_nodes run) = Some n →
    (∃ n', jm_get k (r_nodes run1) = Some n' ∧ reconciled n n' ∧ errored n = false) ∨ jm_get k (r_nodes run1) = Some n.
Proof.
  intros Hwf. unfold reconcile. destruct (under_way run) eqn:Eu; cbn [negb].
  2:{ intros E Hu. exfalso. assert (under_way run1 = under_way run) as Hs; [|congruence].
      pose proof (backfill_status (jm_keys (r_nodes run)) (run, false)) as Hb. unfold over_nodes in E. rewrite E in Hb. cbn [fst] in Hb.
      unfold under_way. by rewrite Hb. }
  case_bool_decide; [intros [= <- _] _ k n E; by right|].
  destruct (reconcile_all_spec (jm_keys (r_nodes run)) (run, false) Hwf) as (_ & S2 & _ & _ & S5).
  unfold over_nodes. destruct (fold_left reconcile_node _ _) as [run2 c] eqn:E2. cbn [fst] in *.
  destruct (c && all_completed run2); [by intros [= <- _] Hu|]. intros [= <- _] Hu k n E. left.
  assert (k ∈ jm_keys (r_nodes run)) as Hk by (by eapply jm_get_Some_key).
  destruct (S2 k n Hk E) as (n' & E' & Hr). exists n'. split; [done|]. split; [done|].
  destruct (errored n) eqn:He; [|done]. unfold under_way in Hu. by rewrite (S5 k n Hk E He) in Hu.
Qed.

(** C14: a restart launches nothing twice that may still be running: when the scheduler is started again on a run, none of
    its nodes is running; a prompt that had a session is never queued again, but completed, because its session has
    ended; other nodes that were running are queued anew, without output; and every other node is as it was. *)
Theorem resumed_once activeRunIds run saved run' : run_wf run →
  resumeOneRun activeRunIds run = (saved, Started run') →
  (∀ k n', jm_get k (r_nodes run') = Some n' → ns_status n' ≠ NRunning) ∧
  ∀ k n, jm_get k (r_nodes run) = Some n → ∃ n', jm_get k (r_nodes run') = Some n' ∧ resumed_node n n'.
Proof.
  intros Hwf. unfold resumeOneRun. destruct (reconcile activeRunIds run) as [run1 changed] eqn:Er.
  destruct (under_way run1) eqn:Eu; [|done]. cbn [negb]. destruct (hasInFlightPromptSession run1) eqn:Ef; [done|].
  set (reset := run_nodes (map (λ e, (e.1, reset_node e.2)) (r_nodes run1)) run1).
  destruct (parses _) eqn:Ep; [done|]. intros [= _ <-].
  assert (∀ k, jm_get k (r_nodes (if existsb (λ e, bool_decide (ns_status e.2 = NRunning)) (r_nodes run1)
    then event "run-started" "Workflow run resumed after restart" [] None reset else run1)) = reset_node <$> jm_get k (r_nodes run1)) as Hget.
  { intros k. destruct (existsb _ _) eqn:Ex; [rewrite event_nodes; apply reset_all_get|].
    destruct (jm_get k (r_nodes run1)) as [n|] eqn:E; [|done]. simpl. f_equal. unfold reset_node. case_bool_decide as Hn; [|done].
    apply jm_get_elem in E. apply not_true_iff_false in Ex. destruct Ex. apply existsb_exists. exists (k, n).
    split; [by apply list_elem_of_In|]. by rewrite bool_decide_eq_true_2. }
  split.
  { intros k n'. rewrite Hget. intros (n & E & ->)%fmap_Some. by eapply reset_running_prompt, in_flight_none. }
  intros k n E. rewrite Hget. unfold resumed_node.
  destruct (reconcile_keeps _ _ _ _ Hwf Er Eu k n E) as [(n' & E' & Hr & He)|E'].
  - rewrite E'. exists (reset_node n'). split; [done|]. pose proof (in_flight_none _ _ _ Ef E') as Hf. unfold reconciled, errored in *.
    destruct (running_prompt n) eqn:En; [|by rewrite Hr].
    destruct (session_state (session_id n)); [split; [by left|by rewrite completed_reset]|split; [by right|by rewrite completed_reset]|done|congruence].
  - rewrite E'. exists (reset_node n). by rewrite (in_flight_none _ _ _ Ef E').
Qed.
End resumption.

(** ** Concrete runs *)
Module ResumptionExamples.
Definition uuid (i : nat) : string := String.string_of_list_ascii (repeat "x"%char i).
Definition ended (sid : string) : SessionState := SIdle.
Definition alive (sid : string) : SessionState := SOther.
Definition node (id type : string) (status : WorkflowNodeStatus) (session : option string) : Node := {|
  ns_id := id; ns_status := status; ns_startedAt := Some 1%Z; ns_completedAt := None; ns_output := None; ns_exitCode := None;
  ns_error := None; ns_skipReason := None; ns_attempts := None; ns_sessionId := session; ns_iterations := []; ns_inlineAgents := [];
  ns_rest := [("type", JStr type)] |}.
Definition run_of (nodes : list (string * Node)) : WorkflowRunRecord := {|
  r_id := "r"; r_status := RRunning; r_nodes := nodes; r_events := []; r_startedAt := None; r_updatedAt := 0; r_completedAt := None;
  r_error := None; r_rest := [] |}.
Definition interrupted : WorkflowRunRecord :=
  run_of [("a", node "a" "prompt" NRunning (Some "s")); ("b", node "b" "shell" NRunning None); ("c", node "c" "shell" NCompleted None)].
Definition resume (state : string → SessionState) := resumeOneRun uuid state (λ _, "answer") (λ _, []) 9 (λ _, None) [].

Lemma resumed_once_witness :
  ∃ saved run', resume ended interrupted = (saved, Started run') ∧
    (∀ k n', jm_get k (r_nodes run') = Some n' → ns_status n' ≠ NRunning) ∧
    ∀ k n, jm_get k (r_nodes interrupted) = Some n → ∃ n', jm_get k (r_nodes run') = Some n' ∧ resumed_node ended n n'.
Proof.
  eexists _, _. split; [vm_compute; reflexivity|].
  eapply (resumed_once uuid ended (λ _, "answer") (λ _, []) 9 (λ _, None) [] interrupted).
  - vm_compute. repeat constructor; set_solver.
  - vm_compute. reflexivity.
Defined.

(** A session that still runs is left alone, and so is all the rest of the run. *)
Lemma live_session_pauses : (resume alive interrupted).2 = NotResumed.
Proof. vm_compute. reflexivity. Qed.

(** A run whose last prompt has ended is not completed when one of its nodes was skipped. *)
Lemma skipped_not_completed :
  r_status (reconcile uuid ended (λ _, "answer") (λ _, []) 9 []
    (run_of [("a", node "a" "prompt" NRunning (Some "s")); ("b", node "b" "shell" NSkipped None)])).1 = RRunning.
Proof. vm_compute. reflexivity. Qed.
End ResumptionExamples.
